(* ===== verification/_CoqProject ===== *)
-Q . S2P
Prelude.v
Bits.v
State.v
Spinlock.v
Pmm.v
PmmInv.v
PmmBoot.v
Heap.v
FrameAlloc.v
HeapInv.v
HeapBoot.v
Vmm.v
VmmInv.v
MallocInv.v
Vma.v
VmaInv.v
Libc.v
VmBoot.v
LibcInv.v
Str.v
StrInv.v
Kbd.v
KbdInv.v
Sched.v
SchedInv.v
SchedBoot.v
Io.v
Cpu.v
Timers.v
Apic.v
Serial.v
Acpi.v
Uaccess.v
Kgz.v
Inflate.v
Fs.v
Elf.v
Fb.v
Dbgstub.v
Intr.v
Syscalls.v
IoInv.v
Boot.v
Shell.v
TimersInv.v
CpuInv.v
UaccessInv.v
FsInv.v
ElfInv.v
IntrInv.v
DbgstubInv.v
ShellInv.v
ApicInv.v
FbInv.v
Badapple.v
BadappleInv.v
SyscallsInv.v
InflateSpec.v
HuffCode.v
KgzBits.v
KgzTree.v
KgzHuff.v
HuffComplete.v
KgzBuf.v
InflateInv.v
InflateSafe.v
GzipInv.v
InflateFacts.v
Npf.v
NpfSpec.v
NpfParse.v
NpfInv.v
PrintfInv.v
Stdio.v
Rb.v
RbTree.v
RbInv.v
RbOps.v
RbFacts.v
AcpiTypes.v
