(* ===== verification/Prelude.v ===== *)
(** * EvalynOS: verification of the kernel

    The repository holds a small x86-64 kernel in C ([src/kernel/src]), booted by
    Limine, and two user programs ([src/user]).  This development translates the
    kernel's C code, and the two assembly routines that user-memory accesses are
    made of, into executable definitions, and proves what each part promises.

    ** How the parts work together

    At boot [kmain] ([kernel.c]) sets up the processor (control registers, GDT,
    IDT or FRED), then memory: the physical memory manager [memory/pmm.c] hands
    out 4 KiB frames; the slab heap [memory/heap.c] and the page tables
    [memory/vmm.c] take their frames from it; [memory/vma.c] keeps the ranges of
    virtual addresses of an address space, with nodes from the heap; [malloc]
    ([libc/stdlib.c]) combines the three.  Then come the devices (serial ports,
    ACPI, interrupt controllers, timers, keyboard), the files (devices and a tar
    archive), system calls, and the scheduler with its threads: the shell, the
    reaper of dead threads and the idle thread.  Interrupts enter through
    [dispatch_interupt], user programs through [execute_syscall].

    ** The model

    - [Prelude]: machine integers as [Z] with the wrap of their type written out
      ([u8], [u32], [u64], [i32], ...), signed arithmetic that the kernel's
      sanitizer checks ([add_i] and the like end in the handler's panic), the
      state and error monad [M] with the outcomes [Ok], [Panic] and [Hang], its
      weakest preconditions [wp], byte memory, and loops.
    - [while_ body a] is a C loop: [body] returns [inl] to go on and [inr] to
      leave.  It runs at most 2^64 rounds, more than any loop of the kernel can
      take over counters of at most 64 bits, and a loop that reaches the bound is
      [Hang].  A theorem that ends a loop gives a measure below 2^64 ([wp_while]);
      [while_forever] and [while_panics] ([IoInv]) are for the loops that do not
      end well, [while_recursion] for those that compute a recursive function.
      There is no other fuel in the model: all remaining recursion is structural.
      (The reference definition of deflate counts bits down, and every symbol
      takes one.)
    - [State]: the [kernel] record, one field per component's globals, physical
      memory as a function from addresses to bytes, and the higher-half direct
      map through which the kernel reaches it.  [Io]: the [sys] record around it,
      with the drivers' globals and function pointers, and the log of all
      accesses to ports, model-specific registers, memory-mapped registers and
      control registers.  What the hardware answers is the type class [Hardware]:
      a read may depend on the whole log, and a theorem that needs a device to
      behave states that as a hypothesis ([pit_chip], [SerialReady]).
    - One processor runs the kernel.  A spinlock that is taken already makes its
      second owner hang, so that the theorems on lock-taking operations ask for
      free locks and give them back free.

    ** Files, in dependency order

    - [Bits] ([utils/macros.h], [utils/bits.h]), [Spinlock] ([utils/spinlock.h],
      [drivers/x86_64/irq.h]).
    - [Pmm], [PmmInv], [PmmBoot]: [memory/pmm.c].  The free list lives in the free
      frames; the invariant relates it to the frame table.  Allocation, release,
      the errors, and that boot establishes the invariant for every sane memory
      map.
    - [Heap], [FrameAlloc], [HeapInv], [HeapBoot]: [memory/heap.c] over the type
      class [FrameAllocator], which states what the heap and the page tables need
      from the frame allocator; [pmm_allocator] is its instance.
    - [Vmm], [VmmInv]: [memory/vmm.c] against the processor's
      four-level walk ([Vmm.walk]): mapping changes the translation of one page,
      unmapping removes it.
    - [Vma], [VmaInv]: [memory/vma.c]; the red-black trees of [obsd-tree.h] are
      their in-order sequences, as [RbFacts] justifies.  [Libc], [LibcInv], [MallocInv]: [libc/stdlib.c].
      [VmBoot]: the hypotheses of these theorems hold in the booted kernel.
    - [Str], [StrInv]: [libc/string.c], [ctype.c] and number parsing.
    - [Kbd], [KbdInv]: [drivers/keyboard.c], [drivers/mouse.c], [interupts/ps2.c];
      the keyboard device refines a bounded queue.
    - [Sched], [SchedInv], [SchedBoot]: [scheduler/scheduler.c] and the reaper:
      the ring of threads, what [schedule] picks, that a thread which is switched
      away comes back with its stack pointer, FS base, FPU state and address space.
    - [Cpu], [CpuInv]: [cpuid], [crX], [drX], [gdt], [idt], [fred]; the tables in
      memory decode to what was meant.  [Timers], [TimersInv]: PIT, HPET, TSC, ACPI
      timer.  [Apic], [ApicInv]: PIC, local and I/O APICs.  [Acpi]: the tables.
      [Serial], [IoInv]: UART, PS/2 controller, terminal.
    - [Uaccess], [UaccessInv]: [utils/safe_user_funcs.c]: which bytes a copy moves.
    - [Fs], [FsInv]: files and the tar archive.  [Elf], [ElfInv]: checking and
      loading programs, down to the mapped pages and their bytes, and [setup_vmm].
      [Fb], [FbInv]: drawing.
    - [Dbgstub], [DbgstubInv]: the GDB stub.  [Intr], [IntrInv]: panic, handlers,
      dispatch.  [Syscalls], [SyscallsInv]: the system calls.  [Boot]: command line and
      [kmain].  [Shell], [ShellInv]: the shell.
    - [Kgz], [Inflate]: the decompressor [kernel/deps/kgz_singleheader.h], used by
      [Fs] through the interface [Blocks].  [InflateSpec] is what a deflate stream
      means, on lists of bits; [HuffCode] has the theory of canonical codes,
      [HuffComplete] that complete codes fit their trees; [KgzBits],
      [KgzTree], [KgzHuff], [KgzBuf] relate the parts to it, [InflateInv] the
      whole, [InflateSafe] is about arbitrary input, [GzipInv] about the
      container, [InflateFacts] about single operations.
    - [Badapple], [BadappleInv]: the video player [user/badapple/badapple.c].
    - [Npf]: the formatter [kernel/deps/nanoprintf.h] in the configuration that
      [libc/stdio.c] selects.  [NpfSpec] is what a format of text and directives
      means, as a list of characters; [NpfParse] has the parser of directives
      against it, [NpfInv] the conversions, [PrintfInv] the whole formatter and
      its buffer.  [Stdio]: [printf] and [snprintf] of [libc/stdio.c], which join
      the formatter with the terminal and the serial port of [Serial].
    - [Rb]: the red-black trees of [kernel/deps/obsd-tree.h], over nodes with
      child and parent pointers.  [RbTree] has the trees as an inductive type,
      with contexts for a place in a tree and the colour invariant, and the steps
      in memory as steps from tree to tree; [RbInv] has the two repairs,
      [RbOps] the operations, [RbFacts] what they promise, and that they
      implement the sequences of [Vma].
    - [AcpiTypes]: the packed structures of [acpi/acpi_tables.h] as types, and the
      search for a table in memory laid out by them.

    A file [XInv] holds the theorems on [X]; the files [XBoot] build concrete
    states by running the boot code and show there that the hypotheses of the
    theorems can be met.

    ** What the theorems show

    Memory: allocation and release of frames, objects, address ranges and
    mappings are exact, keep their invariants and disturb nothing else, errors
    included.  Scheduling: the next awake thread runs, dead threads are
    collected when no sleeping one is before them, contexts are kept.  Safety: copies to user memory, string lengths,
    interrupt handlers and drawing stay where they may be.  Refinement: keyboard
    and line editor against abstract queue and editor, the decompressor against
    the definition of deflate, command line and video against their reference
    definitions; the formatter against the meaning of its formats, red-black
    trees with pointers against sorted sequences.  Invariants: insertion and
    removal keep a tree balanced and its pointers consistent.  Bounds: the
    buffer of [snprintf], the length of a search.  Data in memory: the files of the
    archive, the ACPI tables, the segments of a program.  Round trips: descriptor tables,
    debugger packets, page mappings, allocation, stored data.  Termination and
    liveness: decompression of any input, the waits of the PS/2 controller and
    the PIT.  Where the code does not do what it
    means to, a theorem states what it does: an overcommitted fixed-address
    request, sleeping threads that are lost, a debugger's NAK, an unreachable
    I/O APIC pin, an IRQL that stays raised, a compressed block that is read
    beyond its end, and further ones next to the components.

    ** Not modelled

    The calls of [printf] inside the drivers are events with their format and
    arguments; what such a call shows is in [Stdio].  Floating point conversions
    of [nanoprintf.h], which the kernel switches off, and the splay trees, reverse
    walks and [RBT] functions of [obsd-tree.h], which nothing uses.  The boot loader's requests
    ([utils/globals.c]) are the record [boot_info].  The assembly stubs that save
    registers and switch modes; the effect of [thread_switch] on saved contexts
    is part of [Sched], without the registers it keeps on the stack.  Tables of pure data (the other code pages of the font,
    the panic picture's pixels and messages, video and audio).  More than one
    processor, and interrupts that arrive inside the kernel's own code: a handler
    runs between operations.  The processor's TLB is the list of flushed pages.
*)
From stdpp Require Import base tactics list gmap strings.
From Stdlib Require Import ZArith Lia.

Declare Scope kernel_scope.
Delimit Scope kernel_scope with kernel.
#[global] Open Scope kernel_scope.
#[global] Open Scope Z_scope.

(** * Machine integers

    A C integer of width [w] is a [Z]; every operation of the source that can
    wrap is followed by the wrap of its type.  Signed types are kept as
    signed values. *)

Definition u8 (n : Z) : Z := n mod 2 ^ 8.
Definition u16 (n : Z) : Z := n mod 2 ^ 16.
Definition u32 (n : Z) : Z := n mod 2 ^ 32.
Definition u64 (n : Z) : Z := n mod 2 ^ 64.

(** Conversion to a signed type of width [w] (two's complement). *)
Definition signed (w n : Z) : Z := (n + 2 ^ (w - 1)) mod 2 ^ w - 2 ^ (w - 1).
Definition i8 (n : Z) : Z := signed 8 n.
Definition i32 (n : Z) : Z := signed 32 n.
Definition i64 (n : Z) : Z := signed 64 n.

#[global] Arguments u8 : simpl never.
#[global] Arguments u16 : simpl never.
#[global] Arguments u32 : simpl never.
#[global] Arguments u64 : simpl never.
#[global] Arguments i8 : simpl never.
#[global] Arguments i32 : simpl never.
#[global] Arguments i64 : simpl never.

Definition is_u64 (n : Z) : Prop := 0 <= n < 2 ^ 64.

Create HintDb kernel discriminated.

Lemma u64_id n : is_u64 n → u64 n = n.
Proof. intros H. unfold u64. apply Z.mod_small. exact H. Qed.

Lemma u64_range n : is_u64 (u64 n).
Proof. unfold is_u64, u64. apply Z.mod_pos_bound. lia. Qed.

Lemma u64_u64 n : u64 (u64 n) = u64 n.
Proof. apply u64_id, u64_range. Qed.

Lemma u64_add_l a b : u64 (u64 a + b) = u64 (a + b).
Proof. unfold u64. rewrite Z.add_mod_idemp_l by lia. done. Qed.

Lemma u64_sub_l a b : u64 (u64 a - b) = u64 (a - b).
Proof. unfold u64. rewrite Zminus_mod_idemp_l. done. Qed.

#[export] Hint Resolve u64_range : kernel.

(** * The kernel monad

    A computation reads and writes the kernel state; it returns, or it
    panics, or it never returns ([Hang]: a spin on a lock that nobody can
    release, or the model's fuel is used up). *)

Inductive outcome (A : Type) : Type :=
  | Ok (a : A)
  | Panic (msg : string)
  | Hang.
Arguments Ok {A} a.
Arguments Panic {A} msg.
Arguments Hang {A}.

Definition M (S A : Type) : Type := S → outcome (A * S).

Definition ret {S A} (a : A) : M S A := λ s, Ok (a, s).

Definition bind {S A B} (m : M S A) (f : A → M S B) : M S B := λ s,
  match m s with
  | Ok (a, s') => f a s'
  | Panic msg => Panic msg
  | Hang => Hang
  end.

Definition panic {S A} (msg : string) : M S A := λ _, Panic msg.
Definition hang {S A} : M S A := λ _, Hang.
Definition get {S} : M S S := λ s, Ok (s, s).
Definition gets {S A} (f : S → A) : M S A := λ s, Ok (f s, s).
Definition modify {S} (f : S → S) : M S unit := λ s, Ok (tt, f s).

Notation "'let*' x ':=' m 'in' k" := (bind m (λ x, k))
  (at level 10, x pattern, m at level 100, k at level 200) : kernel_scope.
Notation "m ';;;' k" := (bind m (λ _, k))
  (at level 100, k at level 200, right associativity) : kernel_scope.

(** Signed arithmetic is instrumented ([-fsanitize=undefined]): an overflow
    calls a handler of [utils/ubsan.c], which panics. *)
Definition fits_i (w n : Z) : bool := (- 2 ^ (w - 1) <=? n) && (n <? 2 ^ (w - 1)).
Definition checked {S} (w n : Z) (handler : string) : M S Z :=
  if fits_i w n then ret n else panic handler.
Definition add_i (w : Z) {S} (a b : Z) : M S Z := checked w (a + b) "UBSAN: Add overflow".
Definition sub_i (w : Z) {S} (a b : Z) : M S Z := checked w (a - b) "UBSAN: Subtraction overflow".
Definition mul_i (w : Z) {S} (a b : Z) : M S Z := checked w (a * b) "UBSAN: Multiply overflow".

Definition index_ok {S} (i n : Z) : M S unit :=
  if (0 <=? i) && (i <? n) then ret tt else panic "UBSAN: Out of bounds".
Definition div_u {S} (a b : Z) : M S Z :=
  if b =? 0 then panic "UBSAN: Divide overflow" else ret (a / b).
Definition shift_ok {S} (w n : Z) : M S unit :=
  if (0 <=? n) && (n <? w) then ret tt else panic "UBSAN: Shift out of bounds".

(** Total-correctness weakest precondition: [m] returns from [s], neither
    panicking nor hanging, and its result satisfies [Q]. *)
Definition wp {S A} (m : M S A) (s : S) (Q : A → S → Prop) : Prop :=
  match m s with
  | Ok (a, s') => Q a s'
  | Panic _ => False
  | Hang => False
  end.

Section wp.
Context {S A B : Type}.
Implicit Types (s : S).

Lemma wp_ret (a : A) s (Q : A → S → Prop) : Q a s → wp (ret a) s Q.
Proof. done. Qed.

Lemma wp_bind (m : M S A) (f : A → M S B) s Q :
  wp m s (λ a s', wp (f a) s' Q) → wp (bind m f) s Q.
Proof. unfold wp, bind. destruct (m s) as [[a s']| |]; done. Qed.

Lemma wp_mono (m : M S A) s (P Q : A → S → Prop) :
  wp m s P → (∀ a s', P a s' → Q a s') → wp m s Q.
Proof. unfold wp. destruct (m s) as [[a s']| |]; auto. Qed.

Lemma wp_get s (Q : S → S → Prop) : Q s s → wp get s Q.
Proof. done. Qed.

Lemma wp_gets (f : S → A) s (Q : A → S → Prop) : Q (f s) s → wp (gets f) s Q.
Proof. done. Qed.

Lemma wp_modify (f : S → S) s (Q : unit → S → Prop) : Q tt (f s) → wp (modify f) s Q.
Proof. done. Qed.

Lemma wp_ok (m : M S A) s Q a s' : m s = Ok (a, s') → Q a s' → wp m s Q.
Proof. unfold wp. by intros ->. Qed.

Lemma wp_ext (m m' : M S A) s Q : m s = m' s → wp m' s Q → wp m s Q.
Proof. unfold wp. by intros ->. Qed.

Lemma wp_inv (m : M S A) s Q :
  wp m s Q → ∃ a s', m s = Ok (a, s') ∧ Q a s'.
Proof. unfold wp. destruct (m s) as [[a s']| |]; naive_solver. Qed.

Lemma bind_ok (m : M S A) (f : A → M S B) s a s' :
  m s = Ok (a, s') → bind m f s = f a s'.
Proof. unfold bind. by intros ->. Qed.

Lemma bind_panic (m : M S A) (f : A → M S B) s msg :
  m s = Panic msg → bind m f s = Panic msg.
Proof. unfold bind. by intros ->. Qed.
End wp.

(** Two steps whose results can be evaluated, without naming the states. *)
Lemma run_two {S} (m1 m2 : M S Z) (s : S) (r1 r2 : Z) :
  match m1 s with
  | Ok (a, s1) => match m2 s1 with Ok (b, _) => (a =? r1) && (b =? r2) | _ => false end
  | _ => false
  end = true →
  ∃ s1 s2, m1 s = Ok (r1, s1) ∧ m2 s1 = Ok (r2, s2).
Proof.
  destruct (m1 s) as [[a s1]| |]; [|done..]. destruct (m2 s1) as [[b s2]| |] eqn:E; [|done..].
  intros [->%Z.eqb_eq ->%Z.eqb_eq]%andb_prop. by exists s1, s2.
Qed.

Lemma fits_i_true w n : - 2 ^ (w - 1) <= n < 2 ^ (w - 1) → fits_i w n = true.
Proof. intros [H1 H2]. unfold fits_i. by rewrite (proj2 (Z.leb_le _ _) H1), (proj2 (Z.ltb_lt _ _) H2). Qed.

Lemma checked_ok {S} (s : S) w n h : - 2 ^ (w - 1) <= n < 2 ^ (w - 1) → checked w n h s = Ok (n, s).
Proof. intros H. unfold checked. by rewrite fits_i_true. Qed.

(** * Loops

    [while (1) body]: the body returns [inl] to go round again and [inr] to
    leave the loop.  [loop n] runs at most [2 ^ n] rounds and stops early, so
    the bound of [while_], [2 ^ 64] rounds, costs nothing to evaluate. *)
Fixpoint loop {S A B} (n : nat) (body : A → M S (A + B)) (a : A) : M S (A + B) :=
  match n with
  | O => body a
  | S n' =>
      let* r := loop n' body a in
      match r with
      | inl a' => loop n' body a'
      | inr b => ret (inr b)
      end
  end.

Definition while_ {S A B} (body : A → M S (A + B)) (a : A) : M S B :=
  let* r := loop 64 body a in
  match r with
  | inl _ => hang
  | inr b => ret b
  end.

Section while_.
Context {S A B : Type} (body : A → M S (A + B)).
(** The invariant is indexed by a measure that every round decreases. *)
Context (I : Z → A → S → Prop) (Q : B → S → Prop).
Hypothesis body_ok : ∀ n a s, 0 <= n → I n a s →
  wp (body a) s (λ r s', match r with
    | inl a' => ∃ n', 0 <= n' < n ∧ I n' a' s'
    | inr b => Q b s'
    end).

Lemma wp_loop w n a s :
  0 <= n → I n a s →
  wp (loop w body a) s (λ r s', match r with
    | inl a' => ∃ n', 0 <= n' <= n - 2 ^ Z.of_nat w ∧ I n' a' s'
    | inr b => Q b s'
    end).
Proof.
  revert n a s. induction w as [|w IH]; intros n a s Hn HI; cbn [loop].
  - eapply wp_mono; [by apply (body_ok n)|]. intros [a'|b] s'; [|done].
    intros (n' & ? & ?). exists n'. split; [cbn; lia|done].
  - apply wp_bind. eapply wp_mono; [by apply (IH n)|]. intros [a'|b] s' H; [|done].
    destruct H as (n' & Hn' & HI'). eapply wp_mono; [apply (IH n'); [lia|done]|].
    intros [a2|b] s2; [|done]. intros (n2 & ? & ?). exists n2. split; [|done].
    rewrite Nat2Z.inj_succ, Z.pow_succ_r by lia. lia.
Qed.

(** A loop with an invariant and a measure below [2 ^ 64] terminates. *)
Lemma wp_while n a s : 0 <= n < 2 ^ 64 → I n a s → wp (while_ body a) s Q.
Proof.
  intros Hn HI. unfold while_. apply wp_bind. eapply wp_mono; [apply (wp_loop 64 n); [lia|done]|].
  intros [a'|b] s' H; [|by apply wp_ret]. destruct H as (n' & ? & _). cbn in *. lia.
Qed.
End while_.

(** A loop that is left in its first round. *)
Lemma while_once {S A B} (body : A → M S (A + B)) a b s s' :
  body a s = Ok (inr b, s') → while_ body a s = Ok (b, s').
Proof.
  intros E. assert (wp (while_ body a) s (λ b' s1, b' = b ∧ s1 = s')) as (b' & s1 & -> & -> & ->)%wp_inv; [|done].
  apply (wp_while _ (λ _ a' s0, a' = a ∧ s0 = s) _) with (n := 0); [|lia|done].
  intros n a' s0 _ [-> ->]. by eapply wp_ok.
Qed.

(** Loops that run in a known number of rounds. *)
Section runs.
Context {S A B : Type} (body : A → M S (A + B)).

Inductive runs : nat → A → S → B → S → Prop :=
  | runs_done a s b s' : body a s = Ok (inr b, s') → runs 0 a s b s'
  | runs_more k a s a1 s1 b s' : body a s = Ok (inl a1, s1) → runs k a1 s1 b s' → runs (1 + k) a s b s'.

Lemma while_runs k a s b s' : Z.of_nat k < 2 ^ 64 → runs k a s b s' → while_ body a s = Ok (b, s').
Proof.
  intros Hk Hr. assert (wp (while_ body a) s (λ b' s1, b' = b ∧ s1 = s')) as (b' & s1 & -> & -> & ->)%wp_inv; [|done].
  apply (wp_while _ (λ m a s, ∃ k, m = Z.of_nat k ∧ runs k a s b s') _) with (n := Z.of_nat k); [|lia|by exists k].
  clear. intros m a s _ (k & -> & Hr). inversion Hr as [? ? ? ? E|? ? ? a1 s1 ? ? E Hr']; subst.
  - by eapply wp_ok.
  - eapply wp_ok; [exact E|]. exists (Z.of_nat k0). split; [lia|]. by exists k0.
Qed.
End runs.

(** Run the leading effect of a computation whose state is known. *)
Ltac wp_step :=
  lazymatch goal with
  | |- wp (bind _ _) _ _ => apply wp_bind; wp_step
  | |- wp (ret _) _ _ => apply wp_ret
  | |- wp get _ _ => apply wp_get
  | |- wp (gets _) _ _ => apply wp_gets
  | |- wp (modify _) _ _ => apply wp_modify
  | |- _ => idtac
  end.

(** Apply the specification [H] of the leading call and keep its postcondition. *)
Ltac wp_call H := eapply wp_mono; [apply H | cbv beta].

(** * Byte-addressed memory

    Physical memory maps every address to a byte.  Reading masks the cell, so
    no well-formedness condition on the initial contents is needed. *)

Definition mem_t : Type := Z → Z.

Definition read8 (m : mem_t) (a : Z) : Z := m a mod 256.
Definition write8 (m : mem_t) (a v : Z) : mem_t := λ x, if x =? a then v mod 256 else m x.

Fixpoint le_read (n : nat) (m : mem_t) (a : Z) : Z :=
  match n with
  | O => 0
  | S n' => read8 m a + 256 * le_read n' m (a + 1)
  end.

Definition write_le (n : Z) (m : mem_t) (a v : Z) : mem_t := λ x,
  if (a <=? x) && (x <? a + n) then (v / 2 ^ (8 * (x - a))) mod 256 else m x.

Definition read16 (m : mem_t) (a : Z) : Z := le_read 2 m a.
Definition read32 (m : mem_t) (a : Z) : Z := le_read 4 m a.
Definition read64 (m : mem_t) (a : Z) : Z := le_read 8 m a.
Definition write32 (m : mem_t) (a v : Z) : mem_t := write_le 4 m a v.
Definition write64 (m : mem_t) (a v : Z) : mem_t := write_le 8 m a v.
#[global] Arguments read8 : simpl never.
#[global] Arguments write8 : simpl never.
#[global] Arguments read64 : simpl never.
#[global] Arguments write64 : simpl never.
#[global] Arguments read32 : simpl never.
#[global] Arguments write32 : simpl never.

(** [memset]: [rep stosb] over [n] bytes. *)
Definition memset_bytes (m : mem_t) (a c n : Z) : mem_t := λ x,
  if (a <=? x) && (x <? a + n) then c mod 256 else m x.

(** [rep movsb]: one byte at a time, upwards. *)
Fixpoint movsb (n : nat) (m : mem_t) (dst src : Z) : mem_t :=
  match n with
  | O => m
  | S n' => movsb n' (write8 m dst (read8 m src)) (dst + 1) (src + 1)
  end.

Lemma read8_range m a : 0 <= read8 m a < 256.
Proof. unfold read8. apply Z.mod_pos_bound. lia. Qed.

Lemma le_read_range n m a : 0 <= le_read n m a < 2 ^ (8 * Z.of_nat n).
Proof.
  revert a. induction n as [|n IH]; intros a; cbn [le_read].
  - cbn. lia.
  - specialize (IH (a + 1)). pose proof (read8_range m a).
    replace (8 * Z.of_nat (S n)) with (8 + 8 * Z.of_nat n) by lia.
    rewrite Z.pow_add_r by lia. change (2 ^ 8) with 256. nia.
Qed.

Lemma le_read_ext n m m' a :
  (∀ x, a <= x < a + Z.of_nat n → read8 m x = read8 m' x) →
  le_read n m a = le_read n m' a.
Proof.
  revert a. induction n as [|n IH]; intros a H; cbn [le_read]; [done|].
  rewrite (H a) by lia. rewrite (IH (a + 1)); [done|].
  intros x Hx. apply H. lia.
Qed.

Lemma read8_write_le_out n m a v x :
  ¬ (a <= x < a + n) → read8 (write_le n m a v) x = read8 m x.
Proof.
  intros H. unfold read8, write_le.
  destruct (Z.leb_spec a x), (Z.ltb_spec x (a + n)); cbn; try done; lia.
Qed.

Lemma read8_write_le_in n m a v x :
  a <= x < a + n → read8 (write_le n m a v) x = (v / 2 ^ (8 * (x - a))) mod 256.
Proof.
  intros H. unfold read8, write_le.
  destruct (Z.leb_spec a x), (Z.ltb_spec x (a + n)); cbn; try lia.
  by rewrite Z.mod_mod by lia.
Qed.

Lemma le_read_write_part n m a v k w :
  0 <= k → k + Z.of_nat n <= w →
  le_read n (write_le w m a v) (a + k) = (v / 2 ^ (8 * k)) mod 2 ^ (8 * Z.of_nat n).
Proof.
  revert k. induction n as [|n IH]; intros k Hk Hw; cbn [le_read].
  - change (2 ^ (8 * Z.of_nat 0)) with 1. by rewrite Z.mod_1_r.
  - rewrite read8_write_le_in by lia.
    replace (a + k + 1) with (a + (k + 1)) by lia.
    rewrite IH by lia.
    replace (a + k - a) with k by lia.
    replace (8 * (k + 1)) with (8 * k + 8) by lia.
    rewrite Z.pow_add_r by lia. rewrite <- Z.div_div by lia.
    replace (8 * Z.of_nat (S n)) with (8 + 8 * Z.of_nat n) by lia.
    rewrite Z.pow_add_r by lia. change (2 ^ 8) with 256.
    rewrite Z.rem_mul_r by lia. lia.
Qed.

Lemma read64_write64_eq m a v : read64 (write64 m a v) a = u64 v.
Proof.
  unfold read64, write64. rewrite <- (Z.add_0_r a) at 2.
  rewrite le_read_write_part by lia. by rewrite Z.div_1_r.
Qed.

Lemma read64_write64_ne m a b v :
  a + 8 <= b ∨ b + 8 <= a → read64 (write64 m a v) b = read64 m b.
Proof.
  intros H. apply le_read_ext. intros x Hx. apply read8_write_le_out. lia.
Qed.

Lemma read8_memset_out m a c n x :
  ¬ (a <= x < a + n) → read8 (memset_bytes m a c n) x = read8 m x.
Proof.
  intros H. unfold read8, memset_bytes.
  destruct (Z.leb_spec a x), (Z.ltb_spec x (a + n)); cbn; try done; lia.
Qed.

Lemma read8_memset_in m a c n x :
  a <= x < a + n → read8 (memset_bytes m a c n) x = c mod 256.
Proof.
  intros H. unfold read8, memset_bytes.
  destruct (Z.leb_spec a x), (Z.ltb_spec x (a + n)); cbn; try lia.
  by rewrite Z.mod_mod by lia.
Qed.

Lemma le_read_zero k m a :
  (∀ x, a <= x < a + Z.of_nat k → read8 m x = 0) → le_read k m a = 0.
Proof.
  revert a. induction k as [|k IH]; intros a H; cbn [le_read]; [done|].
  rewrite H by lia. rewrite IH; [lia|]. intros x Hx. apply H. lia.
Qed.

Lemma read64_memset_zero m a n b :
  a <= b → b + 8 <= a + n → read64 (memset_bytes m a 0 n) b = 0.
Proof.
  intros H1 H2. apply le_read_zero. intros x Hx. rewrite read8_memset_in; [done|lia].
Qed.

Lemma read64_memset_out m a c n b :
  b + 8 <= a ∨ a + n <= b → read64 (memset_bytes m a c n) b = read64 m b.
Proof.
  intros H. apply le_read_ext. intros x Hx. apply read8_memset_out. lia.
Qed.

Lemma read64_is_u64 m a : is_u64 (read64 m a).
Proof. apply le_read_range. Qed.
#[export] Hint Resolve read64_is_u64 : kernel.

Lemma read8_write8 m a v x :
  read8 (write8 m a v) x = if x =? a then v mod 256 else read8 m x.
Proof.
  unfold read8, write8. destruct (x =? a); [|done]. by rewrite Z.mod_mod by lia.
Qed.

(** The copy agrees with the block copy when the ranges do not overlap. *)
Lemma read8_movsb n m dst src x :
  dst + Z.of_nat n <= src ∨ src + Z.of_nat n <= dst →
  read8 (movsb n m dst src) x =
    if (dst <=? x) && (x <? dst + Z.of_nat n) then read8 m (src + (x - dst)) else read8 m x.
Proof.
  revert m dst src. induction n as [|n IH]; intros m dst src H; cbn [movsb].
  - destruct (Z.leb_spec dst x), (Z.ltb_spec x (dst + Z.of_nat 0)); cbn; try done; lia.
  - rewrite IH by lia. rewrite !read8_write8.
    destruct (Z.leb_spec (dst + 1) x), (Z.ltb_spec x (dst + 1 + Z.of_nat n)),
      (Z.leb_spec dst x), (Z.ltb_spec x (dst + Z.of_nat (S n))),
      (Z.eqb_spec (src + 1 + (x - (dst + 1))) dst), (Z.eqb_spec x dst); cbn; try lia; subst;
      try (rewrite (Z.mod_small (read8 _ _)) by apply read8_range); f_equal; lia.
Qed.

(** Fewer than [n] distinct numbers lie between [0] and [n]. *)
Lemma NoDup_bounded (l : list Z) (n : Z) :
  NoDup l → (∀ x, x ∈ l → 0 <= x < n) → Z.of_nat (length l) <= Z.max 0 n.
Proof.
  intros Hnd Hb.
  assert (l ⊆+ seqZ 0 n) as Hsub.
  { apply NoDup_submseteq; [done|]. intros x Hx. apply elem_of_seqZ. specialize (Hb x Hx). lia. }
  apply submseteq_length in Hsub. rewrite length_seqZ in Hsub. lia.
Qed.
