(* ===== verification/Bits.v ===== *)
(** Alignment macros of [utils/macros.h] and the bit-field helpers of
    [utils/bits.h], with the arithmetic facts the memory components use. *)
From stdpp Require Import base tactics.
From Stdlib Require Import ZArith Lia.
From S2P Require Import Prelude.

(** * [utils/macros.h] *)

(** [~((uint64_t)(align - 1))] *)
Definition align_mask (align : Z) : Z := 2 ^ 64 - 1 - (align - 1).

Definition ALIGN_UP (x align : Z) : Z :=
  Z.land (u64 (u64 x + (align - 1))) (align_mask align).
Definition ALIGN_DOWN (x align : Z) : Z := Z.land (u64 x) (align_mask align).
Definition IS_ALIGNED (x align : Z) : bool := Z.land (u64 x) (align - 1) =? 0.

Definition PAGE_SIZE : Z := 4096.

#[global] Arguments ALIGN_UP : simpl never.
#[global] Arguments ALIGN_DOWN : simpl never.
#[global] Arguments IS_ALIGNED : simpl never.

(** * [utils/bits.h] *)

Definition extract_bits (number start end_ : Z) : Z :=
  let width := u8 (end_ - start + 1) in
  let mask := u64 (u64 (Z.shiftl 1 width) - 1) in
  Z.land (Z.shiftr number start) mask.

Definition insert_bits (target bits start end_ : Z) : Z :=
  let width := u8 (end_ - start + 1) in
  let mask := u64 (Z.shiftl (u64 (u64 (Z.shiftl 1 width) - 1)) start) in
  let target := Z.land target (2 ^ 64 - 1 - mask) in
  Z.lor target (Z.land (u64 (Z.shiftl bits start)) mask).

Definition insert_bit (target bit start end_ : Z) : Z :=
  let width := u8 (end_ - start + 1) in
  let mask := u64 (Z.shiftl (u64 (u64 (Z.shiftl 1 width) - 1)) start) in
  if negb (bit =? 0) then Z.lor target mask
  else Z.land target (2 ^ 64 - 1 - mask).

(** * Alignment lemmas *)


Lemma land_align_mask x n :
  0 <= n <= 64 → is_u64 x → Z.land x (align_mask (2 ^ n)) = x - x mod 2 ^ n.
Proof.
  intros Hn [Hx0 Hx1].
  assert (x - x mod 2 ^ n = Z.ldiff x (Z.ones n)) as ->.
  { rewrite Z.ldiff_ones_r by lia. rewrite Z.shiftl_mul_pow2, Z.shiftr_div_pow2 by lia.
    pose proof (Z.div_mod x (2 ^ n)). lia. }
  unfold align_mask.
  replace (2 ^ 64 - 1 - (2 ^ n - 1)) with (Z.ldiff (Z.ones 64) (Z.ones n)).
  2: { rewrite <- Z.sub_nocarry_ldiff. 2: { apply Z.bits_inj'. intros i Hi.
       rewrite Z.ldiff_spec, Z.bits_0, !Z.testbit_ones_nonneg by lia. lia. }
       rewrite !Z.ones_equiv. lia. }
  apply Z.bits_inj'. intros i Hi.
  rewrite Z.land_spec, !Z.ldiff_spec, !Z.testbit_ones_nonneg by lia.
  destruct (Z.ltb_spec i 64) as [|Hge]; cbn; [done|].
  rewrite <- (Z.mod_small x (2 ^ 64)) by lia.
  by rewrite Z.mod_pow2_bits_high by lia.
Qed.

Lemma ALIGN_DOWN_spec x n :
  0 <= n <= 64 → ALIGN_DOWN x (2 ^ n) = u64 x - u64 x mod 2 ^ n.
Proof. intros Hn. apply land_align_mask; [done|]. apply u64_range. Qed.

(** No wrap-around: [ALIGN_UP] is the least multiple not below [x]. *)
Lemma ALIGN_UP_spec x n :
  0 <= n <= 64 → 0 <= x → x + (2 ^ n - 1) < 2 ^ 64 →
  ALIGN_UP x (2 ^ n) = (x + (2 ^ n - 1)) / 2 ^ n * 2 ^ n.
Proof.
  intros Hn H0 H1. assert (0 < 2 ^ n) by lia.
  unfold ALIGN_UP. rewrite (u64_id x) by (unfold is_u64; lia).
  rewrite u64_id by (unfold is_u64; lia).
  rewrite land_align_mask by (try done; unfold is_u64; lia).
  pose proof (Z.div_mod (x + (2 ^ n - 1)) (2 ^ n)). lia.
Qed.

Lemma IS_ALIGNED_spec x n :
  0 <= n <= 64 → IS_ALIGNED x (2 ^ n) = true ↔ u64 x mod 2 ^ n = 0.
Proof.
  intros Hn. unfold IS_ALIGNED.
  replace (2 ^ n - 1) with (Z.ones n) by (rewrite Z.ones_equiv; lia).
  rewrite Z.land_ones by lia. apply Z.eqb_eq.
Qed.

(** The page-size instances. *)
Lemma ALIGN_DOWN_page x : is_u64 x → ALIGN_DOWN x PAGE_SIZE = x - x mod 4096.
Proof. intros H. rewrite <- (u64_id x) at 2 3 by done. by apply (ALIGN_DOWN_spec x 12). Qed.

Lemma ALIGN_UP_page x :
  0 <= x < 2 ^ 64 - 4095 → ALIGN_UP x PAGE_SIZE = (x + 4095) / 4096 * 4096.
Proof. intros H. apply (ALIGN_UP_spec x 12); lia. Qed.

Lemma ALIGN_UP_page_bounds x :
  0 <= x < 2 ^ 64 - 4095 →
  x <= ALIGN_UP x PAGE_SIZE < x + 4096 ∧ ALIGN_UP x PAGE_SIZE mod 4096 = 0.
Proof.
  intros H. rewrite ALIGN_UP_page by done. split.
  - Z.div_mod_to_equations. lia.
  - apply Z.mod_mul. lia.
Qed.

(** The top page of the address space: the macro wraps to zero. *)
Lemma ALIGN_UP_wraps x : 2 ^ 64 - 4095 <= x < 2 ^ 64 → ALIGN_UP x PAGE_SIZE = 0.
Proof.
  intros H. unfold ALIGN_UP, PAGE_SIZE. rewrite (u64_id x) by (unfold is_u64; lia).
  change (4096 - 1) with 4095.
  replace (u64 (x + 4095)) with (x + 4095 - 2 ^ 64).
  2: { unfold u64. rewrite <- (Z.mod_add _ 1 (2 ^ 64)) by lia.
       replace (x + 4095 + 1 * 2 ^ 64) with (x + 4095 - 2 ^ 64 + 2 * 2 ^ 64) by lia.
       rewrite Z.mod_add by lia. rewrite Z.mod_small; lia. }
  change 4096 with (2 ^ 12).
  rewrite land_align_mask by (unfold is_u64; lia). rewrite Z.mod_small; lia.
Qed.

Lemma IS_ALIGNED_page x : is_u64 x → IS_ALIGNED x PAGE_SIZE = true ↔ x mod 4096 = 0.
Proof. intros H. rewrite <- (u64_id x) at 2 by done. apply (IS_ALIGNED_spec x 12). lia. Qed.

(** * Bit fields *)

Lemma width_mask w : 0 <= w < 64 → u64 (u64 (Z.shiftl 1 w) - 1) = Z.ones w.
Proof.
  intros Hw. rewrite Z.shiftl_1_l.
  assert (1 <= 2 ^ w < 2 ^ 64) by (split; [lia|apply Z.pow_lt_mono_r; lia]).
  rewrite (u64_id (2 ^ w)) by (unfold is_u64; lia).
  rewrite u64_id by (unfold is_u64; lia). rewrite Z.ones_equiv. lia.
Qed.

Lemma testbit_u64 x i : 0 <= i → Z.testbit (u64 x) i = bool_decide (i < 64) && Z.testbit x i.
Proof.
  intros Hi. unfold u64. case_bool_decide.
  - by rewrite Z.mod_pow2_bits_low.
  - by rewrite Z.mod_pow2_bits_high by lia.
Qed.
