(* ===== verification/State.v ===== *)
(** The global state of the kernel: one [Record] per component, as the C
    globals and structs declare it, and the [kernel] record that holds them,
    with its field updates. *)
From stdpp Require Import base tactics list gmap strings countable.
From Stdlib Require Import ZArith Lia.
From S2P Require Import Prelude Bits.

(** * Locks *)

(** Every [spinlock_t] of the kernel. *)
Inductive lock :=
  | pmm_spinlock | vmm_spinlock | vma_spinlock | slab_memlock
  | scheduler_spinlock | reaper_spinlock | keyboard_buffer_lock | stdio_spinlock.

#[export] Instance lock_eq_dec : EqDecision lock.
Proof. solve_decision. Defined.

Definition lock_code (l : lock) : nat :=
  match l with
  | pmm_spinlock => 0 | vmm_spinlock => 1 | vma_spinlock => 2 | slab_memlock => 3
  | scheduler_spinlock => 4 | reaper_spinlock => 5 | keyboard_buffer_lock => 6
  | stdio_spinlock => 7
  end.

Definition lock_decode (n : nat) : option lock :=
  [pmm_spinlock; vmm_spinlock; vma_spinlock; slab_memlock; scheduler_spinlock;
   reaper_spinlock; keyboard_buffer_lock; stdio_spinlock] !! n.

#[export] Instance lock_countable : Countable lock.
Proof. by refine (inj_countable lock_code lock_decode _); intros []. Defined.

(** * The CPU registers the kernel programs *)
Record cpu_t := mk_cpu {
  cr8 : Z;         (* task priority: the IRQL *)
  cr3 : Z;
  fsbas : Z;       (* MSR FSBAS *)
  tss_rsp0 : Z;
  fred_rsp0 : Z;   (* MSR FRED_RSP0 *)
  fpu : Z;         (* contents of the FPU registers, opaque *)
  tlb_flushed : list Z; (* pages given to invlpg, latest first *)
  c_rsp : Z;       (* the stack pointer at the point of a context switch *)
  c_if : bool;     (* RFLAGS.IF: interrupts enabled *)
  c_ac : bool;     (* RFLAGS.AC: user memory may be accessed *)
  user_gs : bool   (* the user's GS base is the active one *)
}.

(** * Physical memory manager ([memory/pmm.h], [memory/pmm.c]) *)

Inductive page_state_t := PAGE_UNINIT | PAGE_FREE | PAGE_USED.

#[export] Instance page_state_eq_dec : EqDecision page_state_t.
Proof. solve_decision. Defined.

(** [c_addr] is the address of the table itself (an HHDM pointer). *)
Record pmm_child_table_t := mk_child {
  c_addr : Z;
  start : Z;
  end_ : Z;
  num_pages : Z;
  pages : list page_state_t
}.

Record pmm_parent_table_t := mk_parent {
  num_child_tables : Z;
  child_tables : list pmm_child_table_t
}.

Record pmm_t := mk_pmm {
  hhdmOffset : Z;
  freelist_head : Z;              (* HHDM pointer, 0 is NULL *)
  parent_table : pmm_parent_table_t;
  total_pages : Z;
  used_pages : Z;
  fill_t : Z;                     (* static locals of pmm_fill *)
  fill_p : Z
}.

(** * Slab heap ([memory/heap.c]): the caches; headers and objects live in memory *)
Record slab_cache := mk_cache { sc_size : Z; sc_slabs : Z }.

(** * Address spaces ([memory/vma.h]) *)
Record vmm_page_range_t := mk_range {
  r_ptr : Z;     (* address of the node *)
  vaddr : Z;
  size : Z
}.

(** The two red-black trees are kept as their in-order sequences. *)
Record pagemap_t := mk_pagemap {
  top_level : Z;
  free_ranges : list vmm_page_range_t;
  used_ranges : list vmm_page_range_t
}.

(** * Threads ([scheduler/scheduler.h]) *)
Record fd := mk_fd { file_name : Z; file_data : Z; seek_pos : Z }.

Record thread := mk_thread {
  threadId : Z;
  t_stack : Z;
  stack_top : Z;
  krsp : Z;
  ursp : Z;
  t_pagemap : Z;             (* address of the pagemap_t *)
  heap_pos : Z;
  next_fd : Z;
  fds_ptr : Z;
  fds : list fd;
  is_user_task : Z;
  sleep_awake_time : Z;
  thread_state : Z;
  next_thread : Z;
  t_fsbase : Z;
  fpu_state : Z
}.

Record sched_t := mk_sched {
  threads : Z;                 (* the running thread; 0 is NULL *)
  thread_tab : gmap Z thread;  (* the thread structs by address *)
  next_thread_id : Z;
  threads_to_reap : Z;
  current_thread : Z
}.

(** * Input devices *)

(** A buffer of 256 bytes with two [uint8_t] positions: [keyboard_buffer] of
    [drivers/keyboard.c] and [ps2Kbd_buffer] of [drivers/x86_64/ps2.c]. *)
Record ring := mk_ring { rg_write : Z; rg_read : Z; rg_buf : list Z }.

Record dev_t := mk_dev {
  keyboard : ring;
  ps2Kbd : ring;                 (* head is rg_write, tail is rg_read *)
  ps2InteruptsTriggered : Z;
  shiftPressed : Z;
  extended : Z;
  mouse_ptr : Z;
  mouse_buffer : list Z;
  is_mouse_test : Z;
  cursor_x : Z;
  cursor_y : Z;
  irq_should_preempt : bool
}.

Definition set_keyboard (d : dev_t) (r : ring) : dev_t :=
  mk_dev r (ps2Kbd d) (ps2InteruptsTriggered d) (shiftPressed d) (extended d) (mouse_ptr d) (mouse_buffer d)
    (is_mouse_test d) (cursor_x d) (cursor_y d) (irq_should_preempt d).
Definition set_ps2Kbd (d : dev_t) (r : ring) : dev_t :=
  mk_dev (keyboard d) r (ps2InteruptsTriggered d) (shiftPressed d) (extended d) (mouse_ptr d) (mouse_buffer d)
    (is_mouse_test d) (cursor_x d) (cursor_y d) (irq_should_preempt d).
Definition set_keys (d : dev_t) (n shift ext : Z) : dev_t :=
  mk_dev (keyboard d) (ps2Kbd d) n shift ext (mouse_ptr d) (mouse_buffer d)
    (is_mouse_test d) (cursor_x d) (cursor_y d) (irq_should_preempt d).
Definition set_mouse (d : dev_t) (ptr : Z) (buf : list Z) : dev_t :=
  mk_dev (keyboard d) (ps2Kbd d) (ps2InteruptsTriggered d) (shiftPressed d) (extended d) ptr buf
    (is_mouse_test d) (cursor_x d) (cursor_y d) (irq_should_preempt d).
Definition set_cursor (d : dev_t) (test x y : Z) : dev_t :=
  mk_dev (keyboard d) (ps2Kbd d) (ps2InteruptsTriggered d) (shiftPressed d) (extended d) (mouse_ptr d) (mouse_buffer d)
    test x y (irq_should_preempt d).
Definition set_preempt (d : dev_t) (b : bool) : dev_t :=
  mk_dev (keyboard d) (ps2Kbd d) (ps2InteruptsTriggered d) (shiftPressed d) (extended d) (mouse_ptr d) (mouse_buffer d)
    (is_mouse_test d) (cursor_x d) (cursor_y d) b.

(** * The kernel *)
Record kernel := mk_kernel {
  k_mem : mem_t;              (* physical memory *)
  k_hhdm : Z;                 (* hhdm_request.response->offset *)
  k_cpu : cpu_t;
  k_locks : gset lock;        (* the locks whose flag is 1 *)
  k_pmm : pmm_t;
  k_heap : list slab_cache;
  k_pagemaps : gmap Z pagemap_t; (* by address of the pagemap_t *)
  k_sched : sched_t;
  k_ms : Z;                   (* milliseconds the timer has counted *)
  k_dev : dev_t
}.

Definition set_mem (k : kernel) (m : mem_t) : kernel :=
  mk_kernel m (k_hhdm k) (k_cpu k) (k_locks k) (k_pmm k) (k_heap k) (k_pagemaps k) (k_sched k) (k_ms k) (k_dev k).
Definition set_cpu (k : kernel) (c : cpu_t) : kernel :=
  mk_kernel (k_mem k) (k_hhdm k) c (k_locks k) (k_pmm k) (k_heap k) (k_pagemaps k) (k_sched k) (k_ms k) (k_dev k).
Definition set_locks (k : kernel) (l : gset lock) : kernel :=
  mk_kernel (k_mem k) (k_hhdm k) (k_cpu k) l (k_pmm k) (k_heap k) (k_pagemaps k) (k_sched k) (k_ms k) (k_dev k).
Definition set_pmm (k : kernel) (p : pmm_t) : kernel :=
  mk_kernel (k_mem k) (k_hhdm k) (k_cpu k) (k_locks k) p (k_heap k) (k_pagemaps k) (k_sched k) (k_ms k) (k_dev k).
Definition set_heap (k : kernel) (h : list slab_cache) : kernel :=
  mk_kernel (k_mem k) (k_hhdm k) (k_cpu k) (k_locks k) (k_pmm k) h (k_pagemaps k) (k_sched k) (k_ms k) (k_dev k).
Definition set_pagemaps (k : kernel) (p : gmap Z pagemap_t) : kernel :=
  mk_kernel (k_mem k) (k_hhdm k) (k_cpu k) (k_locks k) (k_pmm k) (k_heap k) p (k_sched k) (k_ms k) (k_dev k).
Definition set_sched (k : kernel) (s : sched_t) : kernel :=
  mk_kernel (k_mem k) (k_hhdm k) (k_cpu k) (k_locks k) (k_pmm k) (k_heap k) (k_pagemaps k) s (k_ms k) (k_dev k).
Definition set_ms (k : kernel) (t : Z) : kernel :=
  mk_kernel (k_mem k) (k_hhdm k) (k_cpu k) (k_locks k) (k_pmm k) (k_heap k) (k_pagemaps k) (k_sched k) t (k_dev k).
Definition set_dev (k : kernel) (d : dev_t) : kernel :=
  mk_kernel (k_mem k) (k_hhdm k) (k_cpu k) (k_locks k) (k_pmm k) (k_heap k) (k_pagemaps k) (k_sched k) (k_ms k) d.

Definition set_cr8 (c : cpu_t) (v : Z) : cpu_t :=
  mk_cpu v (cr3 c) (fsbas c) (tss_rsp0 c) (fred_rsp0 c) (fpu c) (tlb_flushed c) (c_rsp c) (c_if c) (c_ac c) (user_gs c).
Definition set_cr3 (c : cpu_t) (v : Z) : cpu_t :=
  mk_cpu (cr8 c) v (fsbas c) (tss_rsp0 c) (fred_rsp0 c) (fpu c) (tlb_flushed c) (c_rsp c) (c_if c) (c_ac c) (user_gs c).
Definition set_fsbas (c : cpu_t) (v : Z) : cpu_t :=
  mk_cpu (cr8 c) (cr3 c) v (tss_rsp0 c) (fred_rsp0 c) (fpu c) (tlb_flushed c) (c_rsp c) (c_if c) (c_ac c) (user_gs c).
Definition set_tss_rsp0 (c : cpu_t) (v : Z) : cpu_t :=
  mk_cpu (cr8 c) (cr3 c) (fsbas c) v (fred_rsp0 c) (fpu c) (tlb_flushed c) (c_rsp c) (c_if c) (c_ac c) (user_gs c).
Definition set_fred_rsp0 (c : cpu_t) (v : Z) : cpu_t :=
  mk_cpu (cr8 c) (cr3 c) (fsbas c) (tss_rsp0 c) v (fpu c) (tlb_flushed c) (c_rsp c) (c_if c) (c_ac c) (user_gs c).
Definition set_fpu (c : cpu_t) (v : Z) : cpu_t :=
  mk_cpu (cr8 c) (cr3 c) (fsbas c) (tss_rsp0 c) (fred_rsp0 c) v (tlb_flushed c) (c_rsp c) (c_if c) (c_ac c) (user_gs c).
Definition add_flushed (c : cpu_t) (va : Z) : cpu_t :=
  mk_cpu (cr8 c) (cr3 c) (fsbas c) (tss_rsp0 c) (fred_rsp0 c) (fpu c) (va :: tlb_flushed c) (c_rsp c) (c_if c) (c_ac c) (user_gs c).
Definition set_rsp (c : cpu_t) (v : Z) : cpu_t :=
  mk_cpu (cr8 c) (cr3 c) (fsbas c) (tss_rsp0 c) (fred_rsp0 c) (fpu c) (tlb_flushed c) v (c_if c) (c_ac c) (user_gs c).
Definition set_if (c : cpu_t) (b : bool) : cpu_t :=
  mk_cpu (cr8 c) (cr3 c) (fsbas c) (tss_rsp0 c) (fred_rsp0 c) (fpu c) (tlb_flushed c) (c_rsp c) b (c_ac c) (user_gs c).
Definition set_ac (c : cpu_t) (b : bool) : cpu_t :=
  mk_cpu (cr8 c) (cr3 c) (fsbas c) (tss_rsp0 c) (fred_rsp0 c) (fpu c) (tlb_flushed c) (c_rsp c) (c_if c) b (user_gs c).
Definition set_user_gs (c : cpu_t) (b : bool) : cpu_t :=
  mk_cpu (cr8 c) (cr3 c) (fsbas c) (tss_rsp0 c) (fred_rsp0 c) (fpu c) (tlb_flushed c) (c_rsp c) (c_if c) (c_ac c) b.

Definition set_freelist_head (p : pmm_t) (h : Z) : pmm_t :=
  mk_pmm (hhdmOffset p) h (parent_table p) (total_pages p) (used_pages p) (fill_t p) (fill_p p).
Definition set_parent_table (p : pmm_t) (t : pmm_parent_table_t) : pmm_t :=
  mk_pmm (hhdmOffset p) (freelist_head p) t (total_pages p) (used_pages p) (fill_t p) (fill_p p).
Definition set_used_pages (p : pmm_t) (n : Z) : pmm_t :=
  mk_pmm (hhdmOffset p) (freelist_head p) (parent_table p) (total_pages p) n (fill_t p) (fill_p p).
Definition set_fill (p : pmm_t) (t n : Z) : pmm_t :=
  mk_pmm (hhdmOffset p) (freelist_head p) (parent_table p) (total_pages p) (used_pages p) t n.

(** The state of a machine that has just entered [kmain]: zeroed globals. *)
Definition cpu0 : cpu_t := mk_cpu 0 0 0 0 0 0 [] 0 true false false.
Definition pmm0 : pmm_t := mk_pmm 0 0 (mk_parent 0 []) 0 0 0 0.
Definition sched0 : sched_t := mk_sched 0 ∅ 0 0 0.
Definition ring0 : ring := mk_ring 0 0 (replicate 256 0).
Definition dev0 : dev_t := mk_dev ring0 ring0 0 0 0 0 [0; 0; 0; 0] 0 0 0 false.
Definition kernel0 (hhdm : Z) : kernel :=
  mk_kernel (λ _, 0) hhdm cpu0 ∅ pmm0 (replicate 6 (mk_cache 0 0)) ∅ sched0 0 dev0.

(** * Memory accesses through the higher-half direct map

    The kernel reaches physical memory at [phys + offset]. *)
Definition hhdm_phys (k : kernel) (ptr : Z) : Z := u64 (ptr - k_hhdm k).

Definition load64 (ptr : Z) : M kernel Z := gets (λ k, read64 (k_mem k) (hhdm_phys k ptr)).
Definition store64 (ptr v : Z) : M kernel unit :=
  modify (λ k, set_mem k (write64 (k_mem k) (hhdm_phys k ptr) v)).
Definition memset (ptr c n : Z) : M kernel unit :=
  modify (λ k, set_mem k (memset_bytes (k_mem k) (hhdm_phys k ptr) c n)).
Definition memcpy (dst src n : Z) : M kernel unit :=
  modify (λ k, set_mem k (movsb (Z.to_nat n) (k_mem k) (hhdm_phys k dst) (hhdm_phys k src))).

Lemma hhdm_phys_add k p :
  0 <= p < 2 ^ 64 → hhdm_phys k (p + k_hhdm k) = p.
Proof. intros H. unfold hhdm_phys. replace (p + k_hhdm k - k_hhdm k) with p by lia. by apply u64_id. Qed.

Lemma hhdm_phys_u64_add k p :
  0 <= p < 2 ^ 64 → hhdm_phys k (u64 (p + k_hhdm k)) = p.
Proof.
  intros H. unfold hhdm_phys. rewrite u64_sub_l.
  replace (p + k_hhdm k - k_hhdm k) with p by lia. by apply u64_id.
Qed.
