(* ===== verification/Spinlock.v ===== *)
(** Interrupt request levels ([drivers/x86_64/irq.h]) and spinlocks
    ([utils/spinlock.h], [utils/spinlock.c]). *)
From stdpp Require Import base tactics list gmap sets strings.
From Stdlib Require Import ZArith Lia.
From S2P Require Import Prelude Bits State.

Definition IRQL_PASSIVE : Z := 0.
Definition IRQL_DISPATCH : Z := 2.

Definition set_irql (irql : Z) : M kernel unit :=
  modify (λ k, set_cpu k (set_cr8 (k_cpu k) irql)).
Definition get_irql : M kernel Z := gets (λ k, cr8 (k_cpu k)).

Definition irql_raise (irql : Z) : M kernel Z :=
  let* old_irql := get_irql in
  if irql <? old_irql then panic "irql raise to lower irql"
  else if irql =? old_irql then ret old_irql
  else (set_irql irql ;;; ret old_irql).

Definition irql_lower (irql : Z) : M kernel Z :=
  let* old_irql := get_irql in
  if old_irql <? irql then panic "irql lower to higher irql"
  else if irql =? old_irql then ret old_irql
  else (set_irql irql ;;; ret old_irql).

(** One CPU runs the kernel: a lock that is already taken is never released
    while the owner of the CPU spins on it. *)
Definition spinlock_lock (l : lock) : M kernel Z :=
  let* irqs := irql_raise IRQL_DISPATCH in
  let* held := gets (λ k, bool_decide (l ∈ k_locks k)) in
  if held then hang
  else (modify (λ k, set_locks k ({[l]} ∪ k_locks k)) ;;; ret irqs).

Definition spinlock_unlock (l : lock) (irqs : Z) : M kernel unit :=
  modify (λ k, set_locks k (k_locks k ∖ {[l]})) ;;;
  irql_lower irqs ;;;
  ret tt.

Definition spinlock_unlock_nil := spinlock_unlock.

(** * Sequential behaviour *)

(** A state in which the lock can be taken. *)
Definition can_lock (l : lock) (k : kernel) : Prop :=
  0 <= cr8 (k_cpu k) <= IRQL_DISPATCH ∧ l ∉ k_locks k.

(** The state while [l] is held. *)
Definition locked (l : lock) (k : kernel) : kernel :=
  set_locks (set_cpu k (set_cr8 (k_cpu k) IRQL_DISPATCH)) ({[l]} ∪ k_locks k).

Lemma set_cr8_id c : set_cr8 c (cr8 c) = c.
Proof. by destruct c. Qed.
Lemma set_cpu_id k : set_cpu k (k_cpu k) = k.
Proof. by destruct k. Qed.

Lemma spinlock_lock_ok l k :
  can_lock l k → spinlock_lock l k = Ok (cr8 (k_cpu k), locked l k).
Proof.
  intros [Hirql Hfree]. unfold spinlock_lock, irql_raise, get_irql, set_irql, locked, bind, gets, modify, ret.
  destruct (Z.ltb_spec IRQL_DISPATCH (cr8 (k_cpu k))) as [|_]; [lia|].
  destruct (Z.eqb_spec IRQL_DISPATCH (cr8 (k_cpu k))) as [Heq|_]; cbn.
  - rewrite bool_decide_eq_false_2 by done. rewrite Heq, set_cr8_id, set_cpu_id. done.
  - by rewrite bool_decide_eq_false_2 by done.
Qed.

Lemma wp_spinlock_lock l k Q :
  can_lock l k → Q (cr8 (k_cpu k)) (locked l k) → wp (spinlock_lock l) k Q.
Proof. intros H HQ. eapply wp_ok; [by apply spinlock_lock_ok|done]. Qed.

Lemma spinlock_unlock_ok l k irqs :
  0 <= irqs <= cr8 (k_cpu k) →
  spinlock_unlock l irqs k =
    Ok (tt, set_cpu (set_locks k (k_locks k ∖ {[l]})) (set_cr8 (k_cpu k) irqs)).
Proof.
  intros H. unfold spinlock_unlock, irql_lower, get_irql, set_irql, bind, gets, modify, ret. cbn.
  destruct (Z.ltb_spec (cr8 (k_cpu k)) irqs) as [|_]; [lia|].
  destruct (Z.eqb_spec irqs (cr8 (k_cpu k))) as [->|_]; cbn; [|done].
  rewrite set_cr8_id. by destruct k.
Qed.

Lemma wp_spinlock_unlock l k irqs (Q : unit → kernel → Prop) :
  0 <= irqs <= cr8 (k_cpu k) →
  Q tt (set_cpu (set_locks k (k_locks k ∖ {[l]})) (set_cr8 (k_cpu k) irqs)) →
  wp (spinlock_unlock l irqs) k Q.
Proof. intros H HQ. eapply wp_ok; [by apply spinlock_unlock_ok|done]. Qed.

(** What every lock-balanced operation leaves alone. *)
Record same_rest (k k' : kernel) : Prop := mk_same_rest {
  sr_hhdm : k_hhdm k' = k_hhdm k;
  sr_cpu : k_cpu k' = k_cpu k;
  sr_locks : k_locks k' = k_locks k;
  sr_heap : k_heap k' = k_heap k;
  sr_pagemaps : k_pagemaps k' = k_pagemaps k;
  sr_sched : k_sched k' = k_sched k;
  sr_ms : k_ms k' = k_ms k;
  sr_dev : k_dev k' = k_dev k
}.

#[export] Instance same_rest_refl : Reflexive same_rest.
Proof. by intros k. Qed.
#[export] Instance same_rest_trans : Transitive same_rest.
Proof. intros k1 k2 k3 [] []. split; congruence. Qed.

(** The state after the matching unlock: only locks and IRQL are put back. *)
Definition restored (k k1 : kernel) : kernel := set_cpu (set_locks k1 (k_locks k)) (k_cpu k).

Lemma spinlock_unlock_balanced l k k1 :
  can_lock l k → same_rest (locked l k) k1 →
  spinlock_unlock l (cr8 (k_cpu k)) k1 = Ok (tt, restored k k1).
Proof.
  intros [Hirql Hfree] Hs.
  assert (k_cpu k1 = set_cr8 (k_cpu k) IRQL_DISPATCH) as Hc by apply Hs.
  assert (k_locks k1 = {[l]} ∪ k_locks k) as Hl by apply Hs.
  rewrite spinlock_unlock_ok by (rewrite Hc; cbn; lia).
  do 3 f_equal; unfold restored.
  - rewrite Hc, Hl. replace (({[l]} ∪ k_locks k) ∖ {[l]}) with (k_locks k)
      by (rewrite difference_union_distr_l_L, difference_diag_L, union_empty_l_L, difference_disjoint_L; [done|set_solver]).
    by destruct (k_cpu k).
Qed.

Lemma wp_unlock_balanced l k k1 (Q : unit → kernel → Prop) :
  can_lock l k → same_rest (locked l k) k1 → Q tt (restored k k1) →
  wp (spinlock_unlock l (cr8 (k_cpu k))) k1 Q.
Proof. intros H1 H2 HQ. eapply wp_ok; [by apply spinlock_unlock_balanced|done]. Qed.

Lemma restored_same_rest l k k1 : same_rest (locked l k) k1 → same_rest k (restored k k1).
Proof. intros []. split; done. Qed.

Lemma can_lock_same_rest l k k' : same_rest k k' → can_lock l k → can_lock l k'.
Proof. intros [] [H1 H2]. split; congruence. Qed.
#[export] Hint Resolve can_lock_same_rest : kernel.
