(* ===== verification/Pmm.v ===== *)
(** The physical memory manager ([memory/pmm.c]): page-frame database,
    free list threaded through the free pages, lazy initialisation. *)
From stdpp Require Import base tactics list gmap sets strings.
From Stdlib Require Import ZArith Lia.
From S2P Require Import Prelude Bits State Spinlock.

(** * Operations *)

(** The page a [page_t*] denotes: index of the child table, index in [pages]. *)
Definition page_ref : Type := nat * nat.

(** [&child->pages[index]]: the flexible array follows a 24-byte header. *)
Definition page_ptr (c : pmm_child_table_t) (index : Z) : Z := u64 (c_addr c + 24 + 4 * index).

Fixpoint get_page_info_loop (ts : list pmm_child_table_t) (i : nat) (phys_addr : Z)
    : M kernel (option page_ref) :=
  match ts with
  | [] => ret None
  | c :: ts' =>
      if (start c <=? phys_addr) && (phys_addr <=? end_ c) then
        let index := u64 (ALIGN_DOWN phys_addr PAGE_SIZE - start c) / PAGE_SIZE in
        if num_pages c <=? index then
          panic "PMM: attempted to get info on out of bounds page that was meant to be in range"
        else ret (Some (i, Z.to_nat index))
      else get_page_info_loop ts' (S i) phys_addr
  end.

(** The tables the loops [i < num_child_tables] visit. *)
Definition live_tables (p : pmm_t) : list pmm_child_table_t :=
  take (Z.to_nat (num_child_tables (parent_table p))) (child_tables (parent_table p)).

Definition get_page_info (phys_addr : Z) : M kernel (option page_ref) :=
  let* ts := gets (λ k, live_tables (k_pmm k)) in
  get_page_info_loop ts 0 phys_addr.

Fixpoint phys_of_page_loop (ts : list pmm_child_table_t) (page : Z) : Z :=
  match ts with
  | [] => 0
  | sub :: ts' =>
      if (page_ptr sub 0 <=? page) && (page <? page_ptr sub (num_pages sub)) then
        let index := (page - page_ptr sub 0) / 4 in
        u64 (start sub + u64 (index * PAGE_SIZE))
      else phys_of_page_loop ts' page
  end.

Definition get_phys_addr_from_page_info (page : Z) : M kernel Z :=
  gets (λ k, phys_of_page_loop (live_tables (k_pmm k)) page).

(** [info->state] and its assignment. *)
Definition page_state (ts : list pmm_child_table_t) (r : page_ref) : option page_state_t :=
  ts !! r.1 ≫= λ c, pages c !! r.2.

Definition set_child_page (j : nat) (st : page_state_t) (c : pmm_child_table_t) : pmm_child_table_t :=
  mk_child (c_addr c) (start c) (end_ c) (num_pages c) (<[j := st]> (pages c)).

Definition upd_page (ts : list pmm_child_table_t) (r : page_ref) (st : page_state_t) :=
  alter (set_child_page r.2 st) r.1 ts.
#[global] Arguments upd_page : simpl never.

Definition read_state (r : page_ref) : M kernel (option page_state_t) :=
  gets (λ k, page_state (child_tables (parent_table (k_pmm k))) r).

Definition write_state (r : page_ref) (st : page_state_t) : M kernel unit :=
  modify (λ k, let p := k_pmm k in let pt := parent_table p in
    set_pmm k (set_parent_table p (mk_parent (num_child_tables pt) (upd_page (child_tables pt) r st)))).

Definition set_head (h : Z) : M kernel unit :=
  modify (λ k, set_pmm k (set_freelist_head (k_pmm k) h)).
Definition set_fill_pos (t p : Z) : M kernel unit :=
  modify (λ k, set_pmm k (set_fill (k_pmm k) t p)).

(** [node->next = freelist_head; freelist_head = node;] *)
Definition push_node (node : Z) : M kernel unit :=
  let* head := gets (λ k, freelist_head (k_pmm k)) in
  store64 node head ;;;
  set_head node.

(** Body of the inner loop of [pmm_fill]; returns the new [pages_added]. *)
Definition pmm_fill_body (child : pmm_child_table_t) (pages_added : Z) : M kernel Z :=
  let* p := gets k_pmm in
  let page_addr := u64 (start child + u64 (PAGE_SIZE * fill_p p)) in
  let r := (Z.to_nat (fill_t p), Z.to_nat (fill_p p)) in
  let* st := read_state r in
  let* added :=
    (if bool_decide (st = Some PAGE_UNINIT) then
       write_state r PAGE_FREE ;;;
       push_node (u64 (page_addr + hhdmOffset p)) ;;;
       ret (pages_added + 1)
     else ret pages_added) in
  set_fill_pos (fill_t p) (fill_p p + 1) ;;;
  ret added.

Fixpoint pmm_fill_inner (fuel : nat) (pages pages_added : Z) : M kernel Z :=
  match fuel with
  | O => hang
  | S fuel' =>
      let* p := gets k_pmm in
      match child_tables (parent_table p) !! Z.to_nat (fill_t p) with
      | None => panic "invalid child table"
      | Some child =>
          if (fill_p p <? num_pages child) && (pages_added <? pages) then
            let* added := pmm_fill_body child pages_added in
            pmm_fill_inner fuel' pages added
          else ret pages_added
      end
  end.

Fixpoint pmm_fill_outer (fuel : nat) (pages pages_added : Z) : M kernel unit :=
  match fuel with
  | O => hang
  | S fuel' =>
      let* p := gets k_pmm in
      if (fill_t p <? num_child_tables (parent_table p)) && (pages_added <? pages) then
        match child_tables (parent_table p) !! Z.to_nat (fill_t p) with
        | None => panic "invalid child table"
        | Some child =>
            let* added := pmm_fill_inner (S (Z.to_nat (num_pages child - fill_p p))) pages pages_added in
            let* p := gets k_pmm in
            (if num_pages child <=? fill_p p then set_fill_pos (fill_t p + 1) 0 else ret tt) ;;;
            pmm_fill_outer fuel' pages added
        end
      else ret tt
  end.

(** The outer loop visits each remaining child table at most once, the inner
    loop each remaining page of the table. *)
Definition pmm_fill (pages : Z) : M kernel unit :=
  let* p := gets k_pmm in
  pmm_fill_outer (S (S (Z.to_nat (num_child_tables (parent_table p) - fill_t p)))) pages 0.

Definition allocate_page : M kernel Z :=
  let* lock1r := spinlock_lock pmm_spinlock in
  let* head := gets (λ k, freelist_head (k_pmm k)) in
  (if head =? 0 then pmm_fill 512 else ret tt) ;;;
  let* node := gets (λ k, freelist_head (k_pmm k)) in
  if node =? 0 then panic "PMM: out of memory" else
  let* next := load64 node in
  set_head next ;;;
  let* off := gets (λ k, hhdmOffset (k_pmm k)) in
  let phys := u64 (node - off) in
  let* info := get_page_info phys in
  match info with
  | None => panic "PMM: attempted to allocate page not in PFNdb"
  | Some r =>
      let* st := read_state r in
      if bool_decide (st = Some PAGE_USED) then panic "PMM: attempted to allocate used page" else
      write_state r PAGE_USED ;;;
      modify (λ k, set_pmm k (set_used_pages (k_pmm k) (u64 (used_pages (k_pmm k) + 1)))) ;;;
      memset node 0 PAGE_SIZE ;;;
      spinlock_unlock pmm_spinlock lock1r ;;;
      ret phys
  end.

Definition free_page (phys : Z) : M kernel unit :=
  let* lock1r := spinlock_lock pmm_spinlock in
  let* info := get_page_info phys in
  match info with
  | None => spinlock_unlock pmm_spinlock lock1r
  | Some r =>
      let* st := read_state r in
      if bool_decide (st = Some PAGE_UNINIT) then panic "PMM: attempted to free an uninit page" else
      if bool_decide (st = Some PAGE_FREE) then panic "PMM: attempted to double free" else
      write_state r PAGE_FREE ;;;
      modify (λ k, set_pmm k (set_used_pages (k_pmm k) (u64 (used_pages (k_pmm k) - 1)))) ;;;
      let* off := gets (λ k, hhdmOffset (k_pmm k)) in
      push_node (u64 (phys + off)) ;;;
      spinlock_unlock pmm_spinlock lock1r
  end.

(** * Boot: building the database from the memory map *)

(** The memory-map types of the boot protocol the kernel distinguishes. *)
Inductive memmap_type :=
  | LIMINE_MEMMAP_USABLE | LIMINE_MEMMAP_RESERVED | LIMINE_MEMMAP_ACPI_RECLAIMABLE
  | LIMINE_MEMMAP_ACPI_NVS | LIMINE_MEMMAP_BAD_MEMORY | LIMINE_MEMMAP_BOOTLOADER_RECLAIMABLE
  | LIMINE_MEMMAP_EXECUTABLE_AND_MODULES | LIMINE_MEMMAP_FRAMEBUFFER.

#[export] Instance memmap_type_eq_dec : EqDecision memmap_type.
Proof. solve_decision. Defined.

Record memmap_entry := mk_entry { base : Z; length_ : Z; type_ : memmap_type }.

Definition usable_region (e : memmap_entry) : bool :=
  bool_decide (type_ e = LIMINE_MEMMAP_USABLE) && (PAGE_SIZE * 16 <? length_ e).

Fixpoint setup_children (entries : list memmap_entry) (ptable parent_table_size : Z) : M kernel unit :=
  match entries with
  | [] => ret tt
  | entry :: rest =>
      if negb (usable_region entry) then setup_children rest ptable parent_table_size else
      let* off := gets (λ k, hhdmOffset (k_pmm k)) in
      let npages := length_ entry / PAGE_SIZE in
      let child_table_size := u64 (24 + u64 (4 * npages)) in
      let child :=
        if u64 (ALIGN_UP (base entry) PAGE_SIZE + off) =? ptable
        then u64 (ptable + parent_table_size)
        else u64 (ALIGN_UP (base entry) PAGE_SIZE + off) in
      memset child 0 child_table_size ;;;
      let start' := ALIGN_UP (u64 (u64 (child - off) + child_table_size)) PAGE_SIZE in
      let end' := ALIGN_DOWN (u64 (base entry + length_ entry)) PAGE_SIZE in
      (if end' <=? start' then
         modify (λ k, let p := k_pmm k in let pt := parent_table p in
           set_pmm k (set_parent_table p
             (mk_parent (u32 (num_child_tables pt - 1)) (child_tables pt))))
       else
         let n := (end' - start') / PAGE_SIZE in
         modify (λ k, let p := k_pmm k in let pt := parent_table p in
           let c := mk_child child start' end' n (replicate (Z.to_nat n) PAGE_UNINIT) in
           set_pmm k (mk_pmm (hhdmOffset p) (freelist_head p)
             (mk_parent (num_child_tables pt) (child_tables pt ++ [c]))
             (u64 (total_pages p + n)) (used_pages p) (fill_t p) (fill_p p)))) ;;;
      setup_children rest ptable parent_table_size
  end.

Definition setup_pmm (memmap : list memmap_entry) : M kernel unit :=
  modify (λ k, let p := k_pmm k in
    set_pmm k (mk_pmm (k_hhdm k) (freelist_head p) (parent_table p) (total_pages p)
                 (used_pages p) (fill_t p) (fill_p p))) ;;;
  let usable := filter usable_region memmap in
  let num_usable_regions := Z.of_nat (length usable) in
  let parent_table_size := 8 + 8 * num_usable_regions in
  let* off := gets (λ k, hhdmOffset (k_pmm k)) in
  match usable with
  | [] => panic "PMM: could not find space for parent table"
  | e :: _ =>
      let ptable := u64 (ALIGN_UP (base e) PAGE_SIZE + off) in
      memset ptable 0 parent_table_size ;;;
      modify (λ k, set_pmm k (set_parent_table (k_pmm k) (mk_parent (u32 num_usable_regions) []))) ;;;
      setup_children memmap ptable parent_table_size ;;;
      pmm_fill 512
  end.
