(* ===== verification/PmmInv.v ===== *)
(** Correctness of the physical memory manager: the invariant of the
    page-frame database and of the free list, and the behaviour of
    allocation, release and lazy initialisation. *)
From stdpp Require Import base tactics list gmap sets strings.
From Stdlib Require Import ZArith Lia.
From S2P Require Import Prelude Bits State Spinlock Pmm.

(** * The page-frame database *)

Definition child_ok (c : pmm_child_table_t) : Prop :=
  start c mod 4096 = 0 ∧ end_ c mod 4096 = 0 ∧ 0 < start c < end_ c ∧ end_ c <= 2 ^ 46 ∧
  num_pages c = (end_ c - start c) / 4096 ∧ Z.of_nat (length (pages c)) = num_pages c.

(** The regions are apart: none begins where another ends. *)
Definition tables_ok (ts : list pmm_child_table_t) : Prop :=
  (∀ i c, ts !! i = Some c → child_ok c) ∧
  (∀ i j ci cj, ts !! i = Some ci → ts !! j = Some cj → i ≠ j →
     end_ ci < start cj ∨ end_ cj < start ci).

(** The state the database records for the page frame of address [p]. *)
Fixpoint pstate (ts : list pmm_child_table_t) (p : Z) : option page_state_t :=
  match ts with
  | [] => None
  | c :: ts' =>
      if (start c <=? p) && (p <? end_ c)
      then pages c !! Z.to_nat ((p - start c) / 4096)
      else pstate ts' p
  end.

Definition in_child (c : pmm_child_table_t) (p : Z) : Prop := start c <= p < end_ c.

Lemma tables_ok_tail c ts : tables_ok (c :: ts) → tables_ok ts.
Proof.
  intros [H1 H2]. split.
  - intros i c' Hi. by apply (H1 (S i)).
  - intros i j ci cj Hi Hj Hne. apply (H2 (S i) (S j)); [done..|lia].
Qed.

Lemma child_index c p :
  child_ok c → in_child c p →
  0 <= (p - start c) / 4096 < num_pages c ∧
  u64 (ALIGN_DOWN p PAGE_SIZE - start c) / PAGE_SIZE = (p - start c) / 4096.
Proof.
  intros (Hs & He & Hse & Hmax & Hn & Hl) [Hp1 Hp2]. split.
  - rewrite Hn. Z.div_mod_to_equations. lia.
  - rewrite ALIGN_DOWN_page by (unfold is_u64; lia). unfold PAGE_SIZE.
    rewrite u64_id by (unfold is_u64; Z.div_mod_to_equations; lia).
    Z.div_mod_to_equations. lia.
Qed.

Lemma get_page_info_loop_in ts n i c p k :
  tables_ok ts → ts !! i = Some c → in_child c p →
  get_page_info_loop ts n p k = Ok (Some ((n + i)%nat, Z.to_nat ((p - start c) / 4096)), k).
Proof.
  revert n i. induction ts as [|c0 ts IH]; intros n i Hok Hi Hp; [done|].
  cbn [get_page_info_loop]. destruct i as [|i]; cbn in Hi.
  - injection Hi as ->. pose proof (child_index c p) as [Hidx ->]; [|done|].
    { by apply (proj1 Hok 0%nat). }
    destruct Hp as [Hp1 Hp2].
    destruct (Z.leb_spec (start c) p), (Z.leb_spec p (end_ c)); try lia. cbn.
    destruct (Z.leb_spec (num_pages c) ((p - start c) / 4096)); [lia|].
    by rewrite Nat.add_0_r.
  - pose proof (proj2 Hok 0%nat (S i) c0 c eq_refl Hi ltac:(lia)) as Hd.
    destruct Hp as [Hp1 Hp2].
    destruct (Z.leb_spec (start c0) p), (Z.leb_spec p (end_ c0)); cbn.
    1: lia. all: rewrite (IH (S n) i) by (eauto using tables_ok_tail; done);
      do 4 f_equal; lia.
Qed.

Lemma pstate_in ts i c p :
  tables_ok ts → ts !! i = Some c → in_child c p →
  pstate ts p = pages c !! Z.to_nat ((p - start c) / 4096).
Proof.
  revert i. induction ts as [|c0 ts IH]; intros i Hok Hi Hp; [done|].
  cbn [pstate]. destruct i as [|i]; cbn in Hi.
  - injection Hi as ->. destruct Hp.
    destruct (Z.leb_spec (start c) p), (Z.ltb_spec p (end_ c)); try lia. done.
  - pose proof (proj2 Hok 0%nat (S i) c0 c eq_refl Hi ltac:(lia)) as Hd.
    destruct Hp as [Hp1 Hp2].
    destruct (Z.leb_spec (start c0) p), (Z.ltb_spec p (end_ c0)); cbn.
    1: lia. all: by apply (IH i); eauto using tables_ok_tail.
Qed.

Lemma pstate_inv ts p st :
  pstate ts p = Some st → ∃ i c, ts !! i = Some c ∧ in_child c p.
Proof.
  induction ts as [|c0 ts IH]; cbn [pstate]; [done|].
  destruct (Z.leb_spec (start c0) p), (Z.ltb_spec p (end_ c0)); cbn.
  1: intros _; by exists 0%nat, c0.
  all: intros H'; destruct (IH H') as (i & c & Hi & Hc); by exists (S i), c.
Qed.

(** A managed frame has a state. *)
Lemma in_child_pstate ts i c p :
  tables_ok ts → ts !! i = Some c → in_child c p → is_Some (pstate ts p).
Proof.
  intros Hok Hi Hp. rewrite (pstate_in ts i c p) by done. apply lookup_lt_is_Some.
  pose proof (proj1 Hok i c Hi) as Hc. pose proof (child_index c p Hc Hp) as [Hidx _].
  destruct Hc as (_ & _ & _ & _ & _ & Hl). lia.
Qed.

Definition ref_of (c : pmm_child_table_t) (i : nat) (p : Z) : page_ref :=
  (i, Z.to_nat ((p - start c) / 4096)).

Lemma page_state_ref ts i c p :
  tables_ok ts → ts !! i = Some c → in_child c p →
  page_state ts (ref_of c i p) = pstate ts p.
Proof.
  intros Hok Hi Hp. rewrite (pstate_in ts i c p) by done.
  unfold page_state, ref_of. cbn. by rewrite Hi.
Qed.

(** Every page of the database is the frame of its address. *)
Lemma page_state_addr ts i c j :
  tables_ok ts → ts !! i = Some c → (j < length (pages c))%nat →
  in_child c (start c + 4096 * Z.of_nat j) ∧
  ref_of c i (start c + 4096 * Z.of_nat j) = (i, j).
Proof.
  intros Hok Hi Hj. destruct (proj1 Hok i c Hi) as (Hs & He & Hse & Hmax & Hn & Hl).
  split.
  - unfold in_child. rewrite Hn in Hl. Z.div_mod_to_equations. lia.
  - unfold ref_of. f_equal. replace (start c + 4096 * Z.of_nat j - start c) with (Z.of_nat j * 4096) by lia.
    rewrite Z.div_mul by lia. lia.
Qed.

Lemma lookup_upd_page ts r st i :
  upd_page ts r st !! i =
    if decide (i = r.1) then set_child_page r.2 st <$> ts !! i else ts !! i.
Proof.
  unfold upd_page. case_decide as Hd.
  - rewrite Hd. apply list_lookup_alter_eq.
  - by apply list_lookup_alter_ne.
Qed.

Lemma upd_page_tables_ok ts r st : tables_ok ts → tables_ok (upd_page ts r st).
Proof.
  intros [H1 H2].
  assert (∀ i c, upd_page ts r st !! i = Some c →
    ∃ c0, ts !! i = Some c0 ∧ start c = start c0 ∧ end_ c = end_ c0 ∧ (child_ok c0 → child_ok c)) as Hlook.
  { intros i c. rewrite lookup_upd_page. case_decide.
    - destruct (ts !! i) as [c0|] eqn:Hi; cbn; [|done]. intros [= <-]. exists c0.
      split_and!; try done. unfold child_ok. cbn. by rewrite length_insert.
    - intros Hi. by exists c. }
  split.
  - intros i c Hi. destruct (Hlook i c Hi) as (c0 & Hc0 & _ & _ & Himp). eauto.
  - intros i j ci cj Hi Hj Hne.
    destruct (Hlook i ci Hi) as (c1 & Hc1 & -> & -> & _), (Hlook j cj Hj) as (c2 & Hc2 & -> & -> & _).
    eauto.
Qed.

Lemma upd_page_length ts r st : length (upd_page ts r st) = length ts.
Proof. apply length_alter. Qed.

(** Geometry of a table: everything but the states of its frames. *)
Definition shape (c : pmm_child_table_t) : Z * Z * Z * Z :=
  (c_addr c, start c, end_ c, num_pages c).

Lemma upd_page_shape ts r st : shape <$> upd_page ts r st = shape <$> ts.
Proof.
  apply list_eq. intros i. rewrite !list_lookup_fmap, lookup_upd_page.
  case_decide; [|done]. by destruct (ts !! i).
Qed.

(** Writing one state changes exactly the addresses of that frame. *)
Lemma pstate_upd ts i c p st q :
  tables_ok ts → ts !! i = Some c → in_child c p →
  pstate (upd_page ts (ref_of c i p) st) q =
    if p / 4096 =? q / 4096 then Some st else pstate ts q.
Proof.
  intros Hok Hi Hp.
  pose proof (proj1 Hok i c Hi) as Hcok.
  pose proof (child_index c p Hcok Hp) as [Hidx _].
  pose proof (upd_page_tables_ok ts (ref_of c i p) st Hok) as Hok'.
  assert (upd_page ts (ref_of c i p) st !! i = Some (set_child_page (ref_of c i p).2 st c)) as Hi'.
  { rewrite lookup_upd_page. cbn. rewrite decide_True by done. by rewrite Hi. }
  destruct Hcok as (Hs & He & Hse & Hmax & Hn & Hl).
  destruct Hp as [Hp1 Hp2].
  destruct (decide (in_child c q)) as [[Hq1 Hq2]|Hq].
  - rewrite (pstate_in _ i _ q Hok' Hi') by done. cbn.
    destruct (Z.eqb_spec (p / 4096) (q / 4096)) as [Heq|Hne].
    + replace ((q - start c) / 4096) with ((p - start c) / 4096) by (Z.div_mod_to_equations; lia).
      apply list_lookup_insert_eq. lia.
    + rewrite list_lookup_insert_ne by (Z.div_mod_to_equations; lia).
      by rewrite (pstate_in ts i c q).
  - assert ((p / 4096 =? q / 4096) = false) as ->.
    { apply Z.eqb_neq. unfold in_child in Hq. Z.div_mod_to_equations. lia. }
    destruct (pstate ts q) as [s|] eqn:Hqs.
    + destruct (pstate_inv ts q s Hqs) as (i' & c' & Hi2 & Hc').
      assert (i' ≠ i) by (intros ->; naive_solver).
      rewrite (pstate_in _ i' c' q Hok'); [|rewrite lookup_upd_page; cbn; by rewrite decide_False|done].
      by rewrite <- (pstate_in ts i' c' q).
    + destruct (pstate (upd_page _ _ _) q) as [s|] eqn:Hqs'; [|done]. exfalso.
      destruct (pstate_inv _ q s Hqs') as (i' & c' & Hi2 & Hc').
      rewrite lookup_upd_page in Hi2. case_decide as Hd; cbn in Hd.
      * subst i'. rewrite Hi in Hi2. cbn in Hi2. injection Hi2 as <-. by apply Hq.
      * destruct (in_child_pstate ts i' c' q Hok Hi2 Hc'). congruence.
Qed.

(** * The free list *)

(** [head] is the HHDM pointer of the first page of [l]; each page holds the
    pointer of the next one in its first eight bytes. *)
Fixpoint chain (m : mem_t) (off head : Z) (l : list Z) : Prop :=
  match l with
  | [] => head = 0
  | p :: l' => head = p + off ∧ chain m off (read64 m p) l'
  end.

Lemma chain_ext m m' off head l :
  (∀ p, p ∈ l → read64 m' p = read64 m p) → chain m off head l → chain m' off head l.
Proof.
  revert head. induction l as [|p l IH]; intros head Hext; cbn; [done|].
  intros [-> Hc]. split; [done|]. rewrite Hext by (apply elem_of_cons; by left).
  apply IH; [|done]. intros q Hq. apply Hext, elem_of_cons. by right.
Qed.

(** * Number of used frames *)

Definition used_in (l : list page_state_t) : Z :=
  Z.of_nat (length (filter (λ s, s = PAGE_USED) l)).
Fixpoint count_used (ts : list pmm_child_table_t) : Z :=
  match ts with [] => 0 | c :: ts' => used_in (pages c) + count_used ts' end.

Definition is_used (s : page_state_t) : Z := if decide (s = PAGE_USED) then 1 else 0.

Lemma used_in_insert l j s s' :
  l !! j = Some s → used_in (<[j := s']> l) = used_in l - is_used s + is_used s'.
Proof.
  intros Hj. pose proof (take_drop_middle l j s Hj) as Hl.
  rewrite <- Hl at 2. rewrite insert_take_drop by (by apply lookup_lt_Some in Hj).
  unfold used_in, is_used. rewrite !filter_app, !filter_cons, !length_app.
  repeat case_decide; cbn; lia.
Qed.

Lemma count_used_upd ts i c p s s' :
  ts !! i = Some c → pages c !! Z.to_nat ((p - start c) / 4096) = Some s →
  count_used (upd_page ts (ref_of c i p) s') = count_used ts - is_used s + is_used s'.
Proof.
  unfold upd_page, ref_of. cbn [fst snd].
  revert i. induction ts as [|c0 ts IH]; intros i Hi Hs; [done|].
  destruct i as [|i]; cbn in Hi.
  - injection Hi as ->. cbn. rewrite (used_in_insert _ _ s s') by done. lia.
  - change (alter ?f (S i) (c0 :: ts)) with (c0 :: alter f i ts).
    cbn [count_used]. rewrite (IH i) by done. lia.
Qed.

Lemma used_in_bound l : 0 <= used_in l <= Z.of_nat (length l).
Proof. unfold used_in. pose proof (length_filter (λ s, s = PAGE_USED) l). lia. Qed.

Lemma count_used_nonneg ts : 0 <= count_used ts.
Proof.
  induction ts as [|c ts IH]; cbn; [lia|]. pose proof (used_in_bound (pages c)). lia.
Qed.

Lemma count_used_pos ts p : tables_ok ts → pstate ts p = Some PAGE_USED → 0 < count_used ts.
Proof.
  intros Hok Hp. destruct (pstate_inv ts p _ Hp) as (i & c & Hi & Hc).
  rewrite (pstate_in ts i c p) in Hp by done.
  pose proof (count_used_upd ts i c p PAGE_USED PAGE_FREE Hi Hp) as H.
  pose proof (count_used_nonneg (upd_page ts (ref_of c i p) PAGE_FREE)).
  unfold is_used in H. rewrite decide_True, decide_False in H by done. lia.
Qed.

(** * The invariant *)

Definition tables (k : kernel) : list pmm_child_table_t := child_tables (parent_table (k_pmm k)).

(** Frames before the fill position have been initialised, the others not. *)
Definition fill_ok (ts : list pmm_child_table_t) (ft fp : Z) : Prop :=
  0 <= ft <= Z.of_nat (length ts) ∧ 0 <= fp ∧
  (∀ c, ts !! Z.to_nat ft = Some c → fp <= num_pages c) ∧
  (∀ i j st, page_state ts (i, j) = Some st →
     st = PAGE_UNINIT ↔ ft < Z.of_nat i ∨ (ft = Z.of_nat i ∧ fp <= Z.of_nat j)).

(** [l] is the free list, front first. *)
Record pmm_inv (l : list Z) (k : kernel) : Prop := mk_pmm_inv {
  inv_hhdm : hhdmOffset (k_pmm k) = k_hhdm k;
  inv_off : 0 < k_hhdm k ∧ k_hhdm k + 2 ^ 46 <= 2 ^ 64;
  inv_num : num_child_tables (parent_table (k_pmm k)) = Z.of_nat (length (tables k));
  inv_tables : tables_ok (tables k);
  inv_chain : chain (k_mem k) (k_hhdm k) (freelist_head (k_pmm k)) l;
  inv_nodup : NoDup l;
  inv_free : ∀ p, p ∈ l ↔ p mod 4096 = 0 ∧ pstate (tables k) p = Some PAGE_FREE;
  inv_fill : fill_ok (tables k) (fill_t (k_pmm k)) (fill_p (k_pmm k));
  inv_used : used_pages (k_pmm k) = u64 (count_used (tables k))
}.

Lemma live_tables_eq l k : pmm_inv l k → live_tables (k_pmm k) = tables k.
Proof.
  intros H. unfold live_tables. rewrite (inv_num l k H). rewrite Nat2Z.id. apply take_ge. done.
Qed.

(** The invariant looks only at memory, the direct map and the manager's globals. *)
Lemma pmm_inv_ext l k k' :
  k_mem k' = k_mem k → k_hhdm k' = k_hhdm k → k_pmm k' = k_pmm k → pmm_inv l k → pmm_inv l k'.
Proof.
  intros Hm Hh Hp []. unfold tables in *.
  split; unfold tables; rewrite ?Hm, ?Hh, ?Hp; try done.
Qed.

(** Facts about the addresses of frames. *)
Lemma pstate_range ts p st :
  tables_ok ts → pstate ts p = Some st → 0 < p < 2 ^ 46.
Proof.
  intros Hok Hp. destruct (pstate_inv ts p st Hp) as (i & c & Hi & [H1 H2]).
  destruct (proj1 Hok i c Hi) as (_ & _ & ? & ? & _). lia.
Qed.

Lemma pstate_page ts p q :
  tables_ok ts → p / 4096 = q / 4096 → pstate ts p = pstate ts q.
Proof.
  intros Hok Hpq.
  assert (∀ p q s, p / 4096 = q / 4096 → pstate ts p = Some s → pstate ts q = Some s) as Haux.
  { clear p q Hpq. intros p q s Hpq Hp. destruct (pstate_inv ts p s Hp) as (i & c & Hi & [H1 H2]).
    destruct (proj1 Hok i c Hi) as (Hs & He & Hse & Hmax & Hn & Hl).
    assert (in_child c q) as Hq by (unfold in_child; Z.div_mod_to_equations; lia).
    rewrite (pstate_in ts i c q) by done. rewrite <- Hp. rewrite (pstate_in ts i c p) by done.
    do 2 f_equal. Z.div_mod_to_equations. lia. }
  destruct (pstate ts p) as [s|] eqn:Hp; [symmetry; eauto|].
  destruct (pstate ts q) as [s|] eqn:Hq; [|done].
  rewrite (Haux q p s) in Hp; [done|by symmetry|done].
Qed.

(** * What growing the free list may do *)

(** From [k] to [k'] frames only go from uninitialised to free, and only the
    memory of such frames is written. *)
Record grown (k k' : kernel) : Prop := mk_grown {
  gr_rest : same_rest k k';
  gr_shape : shape <$> tables k' = shape <$> tables k;
  gr_state : ∀ q, pstate (tables k') q = pstate (tables k) q ∨
    (pstate (tables k) q = Some PAGE_UNINIT ∧ pstate (tables k') q = Some PAGE_FREE);
  gr_mem : ∀ x, pstate (tables k) x ≠ Some PAGE_UNINIT → read8 (k_mem k') x = read8 (k_mem k) x
}.

#[export] Instance grown_refl : Reflexive grown.
Proof. intros k. by split; [| |left|]. Qed.
#[export] Instance grown_trans : Transitive grown.
Proof.
  intros k1 k2 k3 [R1 H1 S1 M1] [R2 H2 S2 M2]. split.
  - by transitivity k2.
  - congruence.
  - intros q. destruct (S1 q) as [E1|[E1 E1']], (S2 q) as [E2|[E2 E2']]; rewrite ?E2, ?E1 in *; auto.
  - intros x Hx. rewrite M2, M1; [done..|]. destruct (S1 x) as [E|[E E']]; congruence.
Qed.

(** * Putting one frame on the free list *)

Definition freed (k : kernel) (r : page_ref) (p : Z) : kernel :=
  set_pmm (set_mem k (write64 (k_mem k) p (freelist_head (k_pmm k))))
    (set_freelist_head
       (set_parent_table (k_pmm k)
          (mk_parent (num_child_tables (parent_table (k_pmm k))) (upd_page (tables k) r PAGE_FREE)))
       (p + k_hhdm k)).

Lemma tables_freed k r p : tables (freed k r p) = upd_page (tables k) r PAGE_FREE.
Proof. done. Qed.

Section freed.
Set Default Proof Using "All".
Context (l : list Z) (k : kernel) (i : nat) (c : pmm_child_table_t) (p : Z).
Context (Hinv : pmm_inv l k) (Hi : tables k !! i = Some c) (Hc : in_child c p).
Context (Hal : p mod 4096 = 0).

Let ts_ok : tables_ok (tables k) := inv_tables l k Hinv.

Lemma frame_range : 0 < p < 2 ^ 46.
Proof.
  destruct (in_child_pstate _ i c p ts_ok Hi Hc) as [st Hst].
  by eapply pstate_range.
Qed.

Lemma push_node_run r :
  bind (write_state r PAGE_FREE) (λ _, push_node (u64 (p + hhdmOffset (k_pmm k)))) k =
    Ok (tt, freed k r p).
Proof.
  pose proof frame_range. pose proof (inv_off l k Hinv).
  rewrite (inv_hhdm l k Hinv).
  rewrite u64_id by (unfold is_u64; lia).
  unfold write_state, push_node, store64, set_head, bind, modify, gets, freed. cbn.
  assert (hhdm_phys k (p + k_hhdm k) = p) as Hp by (apply hhdm_phys_add; lia).
  unfold hhdm_phys in Hp |- *. cbn. by rewrite Hp.
Qed.

Lemma head_u64 : is_u64 (freelist_head (k_pmm k)).
Proof.
  pose proof (inv_chain l k Hinv) as Hch. pose proof (inv_off l k Hinv).
  pose proof (inv_free l k Hinv) as Hfree.
  destruct l as [|q l']; cbn in Hch.
  - rewrite Hch. unfold is_u64. lia.
  - destruct Hch as [-> _]. destruct (proj1 (Hfree q)) as [_ Hq]; [apply elem_of_cons; by left|].
    pose proof (pstate_range _ _ _ ts_ok Hq). unfold is_u64. lia.
Qed.

Context (Hnf : pstate (tables k) p ≠ Some PAGE_FREE).

Lemma freed_chain :
  chain (k_mem (freed k (ref_of c i p) p)) (k_hhdm k) (p + k_hhdm k) (p :: l).
Proof.
  cbn. split; [done|]. rewrite read64_write64_eq, (u64_id _ head_u64).
  eapply chain_ext; [|apply Hinv]. intros q Hq.
  apply (inv_free l k Hinv) in Hq as [Hq1 Hq2].
  apply read64_write64_ne. assert (p ≠ q) by congruence.
  Z.div_mod_to_equations. lia.
Qed.

Lemma freed_free q :
  q ∈ p :: l ↔ q mod 4096 = 0 ∧ pstate (tables (freed k (ref_of c i p) p)) q = Some PAGE_FREE.
Proof.
  rewrite tables_freed, (pstate_upd _ i c) by done.
  rewrite elem_of_cons, (inv_free l k Hinv).
  destruct (Z.eqb_spec (p / 4096) (q / 4096)) as [Heq|Hne].
  - split; [|intros [Hq _]; left; Z.div_mod_to_equations; lia].
    intros [->|[Hq Hs]]; [done|]. exfalso. apply Hnf. rewrite <- Hs. by apply pstate_page.
  - split; [|by right]. intros [->|?]; [done|done].
Qed.

Lemma freed_nodup : NoDup (p :: l).
Proof.
  constructor; [|apply Hinv]. intros Hin. apply (inv_free l k Hinv) in Hin as [_ ?]. done.
Qed.

End freed.

Lemma page_state_upd ts i c p st i' j' :
  ts !! i = Some c →
  page_state (upd_page ts (ref_of c i p) st) (i', j') =
    if decide ((i', j') = ref_of c i p) then (λ _, st) <$> page_state ts (i', j') else page_state ts (i', j').
Proof.
  intros Hi. unfold page_state. cbn [fst snd]. rewrite lookup_upd_page. cbn [fst snd ref_of].
  case_decide as H1; case_decide as H2; unfold ref_of in *; cbn in *.
  - subst i'. rewrite Hi. cbn. injection H2 as ->. rewrite list_lookup_insert.
    case_decide as H3.
    + destruct H3 as [_ H3]. by apply lookup_lt_is_Some in H3 as [s ->].
    + destruct (pages c !! _) eqn:Hl; [|done]. apply lookup_lt_Some in Hl. naive_solver.
  - subst i'. rewrite Hi. cbn. rewrite list_lookup_insert_ne; [done|]. congruence.
  - naive_solver.
  - done.
Qed.

(** The frame at the fill position. *)
Lemma fill_position l k c :
  pmm_inv l k → tables k !! Z.to_nat (fill_t (k_pmm k)) = Some c →
  fill_p (k_pmm k) < num_pages c →
  let p := start c + 4096 * fill_p (k_pmm k) in
  in_child c p ∧ p mod 4096 = 0 ∧
  ref_of c (Z.to_nat (fill_t (k_pmm k))) p = (Z.to_nat (fill_t (k_pmm k)), Z.to_nat (fill_p (k_pmm k))) ∧
  pstate (tables k) p = Some PAGE_UNINIT.
Proof.
  intros Hinv Hc Hlt p. pose proof (inv_tables l k Hinv) as Hok.
  destruct (inv_fill l k Hinv) as (Hft & Hfp & Hb & Hst).
  destruct (proj1 Hok _ _ Hc) as (Hs & He & Hse & Hmax & Hn & Hl).
  destruct (page_state_addr _ _ c (Z.to_nat (fill_p (k_pmm k))) Hok Hc ltac:(lia)) as [Hin Href].
  rewrite Z2Nat.id in Hin, Href by lia. fold p in Hin, Href.
  split_and!; [done| |done|].
  - subst p. Z.div_mod_to_equations. lia.
  - rewrite <- (page_state_ref _ _ _ _ Hok Hc Hin), Href.
    destruct (page_state (tables k) _) as [s|] eqn:Hs'.
    + f_equal. apply (Hst _ _ _ Hs'). right. lia.
    + exfalso. unfold page_state in Hs'. cbn in Hs'. rewrite Hc in Hs'. cbn in Hs'.
      apply lookup_ge_None in Hs'. lia.
Qed.

Lemma fill_ok_step l k c :
  pmm_inv l k → tables k !! Z.to_nat (fill_t (k_pmm k)) = Some c →
  fill_p (k_pmm k) < num_pages c →
  let p := start c + 4096 * fill_p (k_pmm k) in
  fill_ok (upd_page (tables k) (ref_of c (Z.to_nat (fill_t (k_pmm k))) p) PAGE_FREE)
    (fill_t (k_pmm k)) (fill_p (k_pmm k) + 1).
Proof.
  intros Hinv Hc Hlt p.
  destruct (fill_position l k c Hinv Hc Hlt) as (Hin & Hal & Href & Hun).
  destruct (inv_fill l k Hinv) as (Hft & Hfp & Hb & Hst).
  split_and!; try (rewrite ?upd_page_length; lia).
  - intros c'. rewrite lookup_upd_page. cbn. rewrite decide_True by done. rewrite Hc.
    intros [= <-]. cbn. lia.
  - intros i j st. rewrite page_state_upd by done. fold p in Href. rewrite Href.
    case_decide as Hd.
    + injection Hd as -> ->. destruct (page_state _ _); [|done]. intros [= <-].
      split; [done|]. lia.
    + intros Hs. rewrite (Hst _ _ _ Hs). split; [|lia].
      intros [?|[? ?]]; [by left|right]. split; [done|].
      destruct (decide (Z.of_nat j = fill_p (k_pmm k))) as [Hj|]; [|lia].
      exfalso. apply Hd. f_equal; lia.
Qed.

(** * [pmm_fill] *)

(** The state after one round of the inner loop. *)
Definition filled_one (k : kernel) (c : pmm_child_table_t) : kernel :=
  let k1 := freed k (Z.to_nat (fill_t (k_pmm k)), Z.to_nat (fill_p (k_pmm k)))
              (start c + 4096 * fill_p (k_pmm k)) in
  set_pmm k1 (set_fill (k_pmm k1) (fill_t (k_pmm k)) (fill_p (k_pmm k) + 1)).

Section fill_one.
Set Default Proof Using "All".
Context (l : list Z) (k : kernel) (c : pmm_child_table_t).
Context (Hinv : pmm_inv l k) (Hc : tables k !! Z.to_nat (fill_t (k_pmm k)) = Some c).
Context (Hlt : fill_p (k_pmm k) < num_pages c).

Let p : Z := start c + 4096 * fill_p (k_pmm k).
Let i : nat := Z.to_nat (fill_t (k_pmm k)).

Lemma pmm_fill_body_run added :
  pmm_fill_body c added k = Ok (added + 1, filled_one k c).
Proof.
  destruct (fill_position l k c Hinv Hc Hlt) as (Hin & Hal & Href & Hun).
  fold p in Hin, Hal, Href, Hun.
  pose proof (frame_range l k i c p Hinv Hc Hin Hal) as Hr.
  destruct (inv_fill l k Hinv) as (_ & Hfp & _).
  destruct (proj1 (inv_tables l k Hinv) _ _ Hc) as (_ & _ & ? & _).
  unfold pmm_fill_body, read_state. unfold bind at 1, gets at 1. unfold bind at 1, gets at 1.
  assert (u64 (start c + u64 (PAGE_SIZE * fill_p (k_pmm k))) = p) as ->.
  { unfold PAGE_SIZE. fold p in Hr. rewrite (u64_id (4096 * _)) by (unfold is_u64; subst p; lia).
    apply u64_id. subst p. unfold is_u64. lia. }
  rewrite bool_decide_eq_true_2.
  2: { rewrite <- Hun, <- (page_state_ref _ _ _ _ (inv_tables l k Hinv) Hc Hin), Href. done. }
  pose proof (push_node_run l k i c p Hinv Hc Hin Hal
    (Z.to_nat (fill_t (k_pmm k)), Z.to_nat (fill_p (k_pmm k)))) as Hrun.
  unfold bind in Hrun |- *. destruct (write_state _ _ _) as [[? ?]| |]; [|done..].
  by rewrite Hrun.
Qed.

Lemma filled_one_inv : pmm_inv (p :: l) (filled_one k c).
Proof.
  destruct (fill_position l k c Hinv Hc Hlt) as (Hin & Hal & Href & Hun).
  fold p in Hin, Hal, Href, Hun.
  assert (pstate (tables k) p ≠ Some PAGE_FREE) as Hnf by (subst p; congruence).
  unfold filled_one. rewrite <- Href. fold p.
  split; cbn; try apply Hinv.
  - unfold tables. cbn. rewrite upd_page_length. apply Hinv.
  - apply upd_page_tables_ok, Hinv.
  - exact (freed_chain l k i c p Hinv Hc Hin Hal Hnf).
  - exact (freed_nodup l k i c p Hinv Hc Hin Hal Hnf).
  - exact (freed_free l k i c p Hinv Hc Hin Hal Hnf).
  - exact (fill_ok_step l k c Hinv Hc Hlt).
  - rewrite (inv_used l k Hinv). f_equal. unfold tables. cbn.
    rewrite (pstate_in _ _ _ _ (inv_tables l k Hinv) Hc Hin) in Hun.
    rewrite (count_used_upd _ _ _ _ PAGE_UNINIT) by done.
    unfold is_used. rewrite !decide_False by done. lia.
Qed.

Lemma filled_one_grown : grown k (filled_one k c).
Proof.
  destruct (fill_position l k c Hinv Hc Hlt) as (Hin & Hal & Href & Hun).
  fold p in Hin, Hal, Href, Hun.
  pose proof (inv_tables l k Hinv) as Hok.
  unfold filled_one. rewrite <- Href. fold p. split; [done|apply upd_page_shape| |].
  - intros q. change (tables (set_pmm ?k1 (set_fill (k_pmm ?k1) _ _))) with (tables k1).
    rewrite tables_freed, (pstate_upd _ _ c) by done.
    destruct (Z.eqb_spec (p / 4096) (q / 4096)) as [Heq|]; [right|by left].
    split; [|done]. rewrite <- Hun. symmetry. by apply pstate_page.
  - intros x Hx. assert (x / 4096 ≠ p / 4096) as Hne.
    { intros Heq. apply Hx. rewrite <- Hun. by apply pstate_page. }
    cbn. apply read8_write_le_out. Z.div_mod_to_equations. lia.
Qed.

Lemma filled_one_shape :
  tables (filled_one k c) !! Z.to_nat (fill_t (k_pmm (filled_one k c))) =
    Some (set_child_page (Z.to_nat (fill_p (k_pmm k))) PAGE_FREE c).
Proof.
  unfold tables. cbn. rewrite lookup_upd_page. cbn. rewrite decide_True by done. by rewrite Hc.
Qed.
End fill_one.

(** The outcome of a run of the fill loops: the free list has grown by as many
    frames as were counted. *)
Definition fill_post (l : list Z) (k : kernel) (added added' : Z) (l' : list Z) (k' : kernel) : Prop :=
  pmm_inv l' k' ∧ grown k k' ∧ added <= added' ∧
  Z.of_nat (length l') = Z.of_nat (length l) + (added' - added).

Lemma fill_post_refl l k added : pmm_inv l k → fill_post l k added added l k.
Proof. intros H. split_and!; try done; lia. Qed.

Lemma fill_post_trans l1 k1 l2 k2 l3 k3 a1 a2 a3 :
  fill_post l1 k1 a1 a2 l2 k2 → fill_post l2 k2 a2 a3 l3 k3 → fill_post l1 k1 a1 a3 l3 k3.
Proof.
  intros (I1 & G1 & L1 & N1) (I2 & G2 & L2 & N2). split_and!; [done|by transitivity k2|lia|lia].
Qed.

Lemma pmm_fill_inner_spec fuel l k c pages added :
  pmm_inv l k → tables k !! Z.to_nat (fill_t (k_pmm k)) = Some c →
  (Z.to_nat (num_pages c - fill_p (k_pmm k)) < fuel)%nat →
  wp (pmm_fill_inner fuel pages added) k (λ added' k', ∃ l',
    fill_post l k added added' l' k' ∧
    fill_t (k_pmm k') = fill_t (k_pmm k) ∧
    length (tables k') = length (tables k) ∧
    (∃ c', tables k' !! Z.to_nat (fill_t (k_pmm k)) = Some c' ∧ num_pages c' = num_pages c) ∧
    (fill_p (k_pmm k') = num_pages c ∨ pages <= added')).
Proof.
  revert l k c added. induction fuel as [|fuel IH]; intros l k c added Hinv Hc Hfuel; [lia|].
  cbn [pmm_fill_inner]. wp_step. unfold tables in Hc. rewrite Hc. fold (tables k) in Hc.
  destruct (inv_fill l k Hinv) as (_ & Hfp & Hle & _). specialize (Hle c Hc).
  destruct (Z.ltb_spec (fill_p (k_pmm k)) (num_pages c)) as [Hlt|Hge]; cbn.
  2: { wp_step. exists l. split_and!; eauto using fill_post_refl. lia. }
  destruct (Z.ltb_spec added pages) as [Hlt'|Hge'].
  2: { wp_step. exists l. split_and!; eauto using fill_post_refl. }
  apply wp_bind. eapply wp_ok; [by apply (pmm_fill_body_run l)|].
  pose proof (filled_one_inv l k c Hinv Hc Hlt) as Hinv1.
  pose proof (filled_one_grown l k c Hinv Hc Hlt) as Hgr1.
  pose proof (filled_one_shape l k c Hinv Hc Hlt) as Hc1.
  eapply wp_mono.
  { eapply IH; [exact Hinv1|exact Hc1|cbn; lia]. }
  intros added' k' (l' & Hpost & Hft & Hlt2 & (c' & Hc' & Hnc) & Hend).
  cbn in Hft, Hlt2, Hc', Hnc, Hend. exists l'. split_and!; try done.
  - eapply fill_post_trans; [|exact Hpost]. split_and!; [done..|lia|cbn; lia].
  - rewrite Hlt2. apply upd_page_length.
  - eauto.
Qed.

(** Moving to the next child table once the current one is exhausted. *)
Lemma next_table_inv l k c :
  pmm_inv l k → tables k !! Z.to_nat (fill_t (k_pmm k)) = Some c →
  fill_p (k_pmm k) = num_pages c →
  pmm_inv l (set_pmm k (set_fill (k_pmm k) (fill_t (k_pmm k) + 1) 0)).
Proof.
  intros Hinv Hc Hfp. pose proof (inv_tables l k Hinv) as Hok.
  destruct (inv_fill l k Hinv) as (Hft & _ & _ & Hst).
  destruct (proj1 Hok _ _ Hc) as (_ & _ & _ & _ & _ & Hl).
  split; try apply Hinv. change (tables (set_pmm k _)) with (tables k). cbn.
  split_and!; try lia.
  - apply lookup_lt_Some in Hc. lia.
  - intros c' Hc'. destruct (proj1 Hok _ _ Hc') as (_ & _ & ? & _ & ? & _). Z.div_mod_to_equations. lia.
  - intros i j st Hs. rewrite (Hst i j st Hs). split; [|lia].
    intros [?|[Hi Hj]]; [lia|]. exfalso. unfold page_state in Hs. cbn in Hs.
    replace i with (Z.to_nat (fill_t (k_pmm k))) in Hs by lia.
    rewrite Hc in Hs. apply lookup_lt_Some in Hs. lia.
Qed.

Lemma pmm_fill_outer_spec fuel l k pages added :
  pmm_inv l k →
  (S (Z.to_nat (Z.of_nat (length (tables k)) - fill_t (k_pmm k))) < fuel)%nat ∨
    (pages <= added ∧ (0 < fuel)%nat) →
  wp (pmm_fill_outer fuel pages added) k (λ _ k', ∃ added' l',
    fill_post l k added added' l' k' ∧
    (fill_t (k_pmm k') = Z.of_nat (length (tables k')) ∨ pages <= added')).
Proof.
  revert l k added. induction fuel as [|fuel IH]; intros l k added Hinv Hfuel; [lia|].
  cbn [pmm_fill_outer]. wp_step. rewrite (inv_num l k Hinv).
  destruct (inv_fill l k Hinv) as ([Hft0 Hft1] & _).
  destruct (Z.ltb_spec (fill_t (k_pmm k)) (Z.of_nat (length (tables k)))) as [Hlt|Hge]; cbn [andb].
  2: { wp_step. exists added, l. split; [by apply fill_post_refl|left; lia]. }
  destruct (Z.ltb_spec added pages) as [Hlt'|Hge'].
  2: { wp_step. exists added, l. split; [by apply fill_post_refl|by right]. }
  destruct (lookup_lt_is_Some_2 (tables k) (Z.to_nat (fill_t (k_pmm k)))) as [c Hc]; [lia|].
  unfold tables in Hc. rewrite Hc. fold (tables k) in Hc.
  apply wp_bind. eapply wp_mono.
  { eapply pmm_fill_inner_spec; [done|exact Hc|lia]. }
  intros added1 k1 (l1 & Hpost & Hft & Hlen & (c1 & Hc1 & Hnc) & Hend).
  pose proof Hpost as (Hinv1 & _). rewrite <- Hft in Hc1.
  destruct (inv_fill l1 k1 Hinv1) as (_ & _ & Hle & _). specialize (Hle c1 Hc1).
  do 2 wp_step.
  assert (∀ k2, pmm_inv l1 k2 → grown k1 k2 →
    (S (Z.to_nat (Z.of_nat (length (tables k2)) - fill_t (k_pmm k2))) < fuel)%nat ∨
      (pages <= added1 ∧ (0 < fuel)%nat) →
    wp (pmm_fill_outer fuel pages added1) k2 (λ _ k', ∃ added' l',
      fill_post l k added added' l' k' ∧
      (fill_t (k_pmm k') = Z.of_nat (length (tables k')) ∨ pages <= added'))) as Hnext.
  { intros k2 Hinv2 Hgr2 Hf2. eapply wp_mono; [by apply (IH l1)|].
    intros _ k' (added' & l' & Hpost' & Hend'). exists added', l'. split; [|done].
    eapply fill_post_trans; [exact Hpost|]. destruct Hpost' as (? & Hg & ? & ?).
    split_and!; try done. by transitivity k2. }
  destruct (Z.leb_spec (num_pages c) (fill_p (k_pmm k1))) as [Hex|Hmore];
    unfold set_fill_pos; wp_step.
  - apply Hnext; [apply (next_table_inv l1 k1 c1); [done..|lia]| |].
    { split; [done|done|by left|done]. }
    change (tables (set_pmm k1 _)) with (tables k1). cbn. left. lia.
  - apply Hnext; [done..|]. right. lia.
Qed.

(** Termination and effect of [pmm_fill]: it returns, it keeps the invariant,
    and afterwards the free list is as long as asked for or every frame has
    been initialised. *)
Lemma pmm_fill_spec l k n :
  pmm_inv l k → 0 < n →
  wp (pmm_fill n) k (λ _ k', ∃ l',
    pmm_inv l' k' ∧ grown k k' ∧
    (n <= Z.of_nat (length l') ∨ ∀ q, pstate (tables k') q ≠ Some PAGE_UNINIT)).
Proof.
  intros Hinv Hn. unfold pmm_fill. wp_step.
  eapply wp_mono.
  { apply (pmm_fill_outer_spec _ l); [done|]. left. rewrite (inv_num l k Hinv). lia. }
  intros _ k' (added' & l' & (Hinv' & Hgr & Hle & Hlen) & Hend). exists l'. split_and!; [done..|].
  destruct Hend as [Hend|?]; [|left; lia].
  right. intros q Hq. pose proof (inv_tables l' k' Hinv') as Hok.
  destruct (pstate_inv _ _ _ Hq) as (i & c & Hi & Hc).
  rewrite <- (page_state_ref _ i c q) in Hq by done.
  destruct (inv_fill l' k' Hinv') as (_ & _ & _ & Hst).
  pose proof (proj1 (Hst _ _ _ Hq) eq_refl) as Hpos'. apply lookup_lt_Some in Hi. lia.
Qed.

(** * Allocation *)

(** A frame that allocation may hand out. *)
Definition available (k : kernel) (p : Z) : Prop :=
  pstate (tables k) p = Some PAGE_FREE ∨ pstate (tables k) p = Some PAGE_UNINIT.

(** What [allocate_page] does to the kernel: [p] becomes used and zeroed;
    frames in use and memory outside the database are untouched. *)
Record allocated (p : Z) (k k' : kernel) : Prop := mk_allocated {
  al_rest : same_rest k k';
  al_shape : shape <$> tables k' = shape <$> tables k;
  al_aligned : p mod 4096 = 0;
  al_was : available k p;
  al_now : pstate (tables k') p = Some PAGE_USED;
  al_others : ∀ q, q / 4096 ≠ p / 4096 →
    pstate (tables k') q = pstate (tables k) q ∨
    (pstate (tables k) q = Some PAGE_UNINIT ∧ pstate (tables k') q = Some PAGE_FREE);
  al_zero : ∀ x, x / 4096 = p / 4096 → read8 (k_mem k') x = 0;
  al_mem : ∀ x, ¬ available k x → read8 (k_mem k') x = read8 (k_mem k) x
}.

(** The fill position does not care about frames that stay initialised. *)
Lemma fill_ok_keep ts ft fp i c p s s' :
  fill_ok ts ft fp → tables_ok ts → ts !! i = Some c → in_child c p →
  pstate ts p = Some s → s ≠ PAGE_UNINIT → s' ≠ PAGE_UNINIT →
  fill_ok (upd_page ts (ref_of c i p) s') ft fp.
Proof.
  intros (Hft & Hfp & Hb & Hs) Hok Hi Hc Hst Hns Hns'.
  split_and!; try (rewrite ?upd_page_length; lia).
  - intros c'. rewrite lookup_upd_page. case_decide as Hd; [|apply Hb].
    intros (c0 & Hc0 & ->)%fmap_Some_1. cbn. by apply Hb.
  - intros i' j' st. rewrite page_state_upd by done. case_decide as Hd; [|by apply Hs].
    assert (page_state ts (i', j') = Some s) as Hps by (rewrite Hd, (page_state_ref _ i c p); done).
    rewrite Hps. cbn. intros [= <-]. split; [done|]. intros Hpos. by apply (Hs _ _ _ Hps) in Hpos.
Qed.

(** Taking the head [p] of a non-empty free list. *)
Definition taken (k : kernel) (r : page_ref) (p next : Z) : kernel :=
  let pm := k_pmm k in
  set_pmm (set_mem k (memset_bytes (k_mem k) p 0 PAGE_SIZE))
    (set_used_pages
       (set_parent_table (set_freelist_head pm next)
          (mk_parent (num_child_tables (parent_table pm)) (upd_page (tables k) r PAGE_USED)))
       (u64 (used_pages pm + 1))).

Lemma tables_taken k r p next : tables (taken k r p next) = upd_page (tables k) r PAGE_USED.
Proof. done. Qed.

Lemma taken_free_state l k p :
  pmm_inv (p :: l) k → p mod 4096 = 0 ∧ pstate (tables k) p = Some PAGE_FREE.
Proof. intros Hinv. apply (inv_free _ k Hinv), elem_of_cons. by left. Qed.

Section taken.
Set Default Proof Using "All".
Context (l : list Z) (k : kernel) (i : nat) (c : pmm_child_table_t) (p : Z).
Context (Hinv : pmm_inv (p :: l) k) (Hi : tables k !! i = Some c) (Hc : in_child c p).

Let Hok : tables_ok (tables k) := inv_tables _ k Hinv.
Let next : Z := read64 (k_mem k) p.

Lemma taken_inv : pmm_inv l (taken k (ref_of c i p) p next).
Proof.
  destruct (taken_free_state l k p Hinv) as [Hal Hst].
  pose proof (inv_nodup _ k Hinv) as Hnd. apply NoDup_cons in Hnd as [Hnp Hnd].
  pose proof (inv_chain _ k Hinv) as [Hhead Hch].
  split; rewrite ?tables_taken; try apply Hinv; try done.
  - rewrite upd_page_length. apply Hinv.
  - by apply upd_page_tables_ok.
  - eapply chain_ext; [|exact Hch]. intros q Hq. apply read64_memset_out.
    assert (q mod 4096 = 0) by (apply (inv_free _ k Hinv), elem_of_cons; by right).
    assert (p ≠ q) by (by intros ->). unfold PAGE_SIZE. Z.div_mod_to_equations. lia.
  - intros q. rewrite (pstate_upd _ i c) by done.
    pose proof (inv_free _ k Hinv q) as Hq. rewrite elem_of_cons in Hq.
    destruct (Z.eqb_spec (p / 4096) (q / 4096)) as [Heq|Hne].
    + split; [|naive_solver]. intros Hin.
      assert (q mod 4096 = 0) by (apply Hq; auto).
      assert (p = q) by (Z.div_mod_to_equations; lia). congruence.
    + split; [intros; apply Hq; auto|]. intros H'. apply Hq in H' as [->|]; done.
  - apply (fill_ok_keep _ _ _ i c p PAGE_FREE); (done || apply Hinv).
  - cbn. rewrite (inv_used _ k Hinv).
    rewrite (pstate_in _ i c p Hok Hi Hc) in Hst.
    rewrite (count_used_upd _ i c p PAGE_FREE) by done.
    unfold is_used. rewrite decide_False, decide_True by done. rewrite u64_add_l. f_equal. lia.
Qed.
End taken.

Lemma head_is_null l k : pmm_inv l k → (freelist_head (k_pmm k) =? 0) = bool_decide (l = []).
Proof.
  intros Hinv. pose proof (inv_chain l k Hinv) as Hch. pose proof (inv_off l k Hinv).
  destruct l as [|p l]; cbn in Hch.
  - by rewrite Hch.
  - destruct Hch as [-> _]. rewrite bool_decide_eq_false_2 by done. apply Z.eqb_neq.
    assert (pstate (tables k) p = Some PAGE_FREE) as Hp by (by apply (taken_free_state l)).
    pose proof (pstate_range _ _ _ (inv_tables _ k Hinv) Hp). lia.
Qed.

Lemma grown_available k k' q : grown k k' → available k q ↔ available k' q.
Proof.
  intros Hg. unfold available. destruct (gr_state k k' Hg q) as [->|[-> ->]]; [done|]. naive_solver.
Qed.

(** The optional refill at the head of [allocate_page]. *)
Lemma refill_spec l k :
  pmm_inv l k →
  wp (let* head := gets (λ k, freelist_head (k_pmm k)) in
      if head =? 0 then pmm_fill 512 else ret tt) k
     (λ _ k', ∃ l', pmm_inv l' k' ∧ grown k k' ∧ (l' = [] → ∀ q, ¬ available k' q)).
Proof.
  intros Hinv. wp_step. rewrite (head_is_null l k Hinv). case_bool_decide as Hl.
  - eapply wp_mono; [apply (pmm_fill_spec l); [done|lia]|].
    intros _ k' (l' & Hinv' & Hgr & Hend). exists l'. split_and!; [done..|].
    intros -> q [Hq|Hq]; [|destruct Hend as [Hend|Hend]; [cbn in Hend; lia|by apply (Hend q)]].
    assert (q - q mod 4096 ∈ @nil Z) as Hin; [|by apply not_elem_of_nil in Hin].
    apply (inv_free _ k' Hinv'). split; [Z.div_mod_to_equations; lia|].
    rewrite <- Hq. apply pstate_page; [apply Hinv'|]. Z.div_mod_to_equations. lia.
  - wp_step. exists l. split_and!; done.
Qed.

Definition allocate_tail (lock1r : Z) : M kernel Z :=
  let* node := gets (λ k, freelist_head (k_pmm k)) in
  if node =? 0 then panic "PMM: out of memory" else
  let* next := load64 node in
  set_head next ;;;
  let* off := gets (λ k, hhdmOffset (k_pmm k)) in
  let phys := u64 (node - off) in
  let* info := get_page_info phys in
  match info with
  | None => panic "PMM: attempted to allocate page not in PFNdb"
  | Some r =>
      let* st := read_state r in
      if bool_decide (st = Some PAGE_USED) then panic "PMM: attempted to allocate used page" else
      write_state r PAGE_USED ;;;
      modify (λ k, set_pmm k (set_used_pages (k_pmm k) (u64 (used_pages (k_pmm k) + 1)))) ;;;
      memset node 0 PAGE_SIZE ;;;
      spinlock_unlock pmm_spinlock lock1r ;;;
      ret phys
  end.

Lemma allocate_page_split k :
  allocate_page k =
    bind (spinlock_lock pmm_spinlock) (λ r,
      bind (let* head := gets (λ k, freelist_head (k_pmm k)) in
            if head =? 0 then pmm_fill 512 else ret tt) (λ _, allocate_tail r)) k.
Proof. unfold allocate_page, allocate_tail, bind. by destruct (spinlock_lock pmm_spinlock k) as [[? ?]| |]. Qed.

Lemma allocate_tail_run l k i c p irqs :
  pmm_inv (p :: l) k → tables k !! i = Some c → in_child c p →
  allocate_tail irqs k =
    bind (spinlock_unlock pmm_spinlock irqs) (λ _, ret p)
      (taken k (ref_of c i p) p (read64 (k_mem k) p)).
Proof.
  intros Hinv Hi Hc. pose proof (inv_off _ k Hinv).
  destruct (inv_chain _ k Hinv) as [Hhead _].
  pose proof (head_is_null _ k Hinv) as Hnn. rewrite bool_decide_eq_false_2 in Hnn by done.
  destruct (taken_free_state l k p Hinv) as [Hal Hst].
  pose proof (pstate_range _ _ _ (inv_tables _ k Hinv) Hst) as Hr.
  unfold allocate_tail, load64, set_head, get_page_info, read_state, write_state, memset.
  unfold bind at 1, gets at 1. rewrite Hnn.
  unfold bind at 1, gets at 1. unfold bind at 1, modify at 1. unfold bind at 1, gets at 1. cbn.
  rewrite (inv_hhdm _ k Hinv), Hhead.
  replace (hhdm_phys k (p + k_hhdm k)) with p by (symmetry; apply hhdm_phys_add; lia).
  replace (p + k_hhdm k - k_hhdm k) with p by lia. rewrite (u64_id p) by (unfold is_u64; lia).
  unfold bind at 1. unfold bind at 1, gets at 1. cbn.
  change (live_tables (set_freelist_head (k_pmm k) _)) with (live_tables (k_pmm k)).
  rewrite (live_tables_eq _ k Hinv), (get_page_info_loop_in _ 0 i c p) by (done || apply Hinv).
  unfold bind at 1, gets at 1. cbn [k_pmm set_pmm parent_table set_freelist_head].
  change (child_tables (parent_table (k_pmm k))) with (tables k). cbn [Nat.add].
  change (i, Z.to_nat ((p - start c) / 4096)) with (ref_of c i p).
  rewrite page_state_ref, Hst by (done || apply Hinv). rewrite bool_decide_eq_false_2 by done.
  unfold bind at 1, modify at 1. unfold bind at 1, modify at 1. unfold bind at 1, modify at 1.
  unfold taken. cbn.
  unfold hhdm_phys. cbn. replace (p + k_hhdm k - k_hhdm k) with p by lia.
  by rewrite (u64_id p) by (unfold is_u64; lia).
Qed.

Section taken_spec.
Context (l : list Z) (k : kernel) (i : nat) (c : pmm_child_table_t) (p : Z).
Context (Hinv : pmm_inv (p :: l) k) (Hi : tables k !! i = Some c) (Hc : in_child c p).

Lemma taken_allocated next : allocated p k (taken k (ref_of c i p) p next).
Proof using Hinv Hi Hc.
  destruct (taken_free_state l k p Hinv) as [Hal Hst].
  pose proof (inv_tables _ k Hinv) as Hok.
  split; rewrite ?tables_taken; try done.
  - apply upd_page_shape.
  - by left.
  - rewrite (pstate_upd _ i c) by done. by rewrite Z.eqb_refl.
  - intros q Hq. left. rewrite (pstate_upd _ i c) by done.
    destruct (Z.eqb_spec (p / 4096) (q / 4096)); [lia|done].
  - intros x Hx. cbn. rewrite read8_memset_in; [done|]. unfold PAGE_SIZE. Z.div_mod_to_equations. lia.
  - intros x Hx. cbn. apply read8_memset_out. unfold PAGE_SIZE. intros Hr. apply Hx. left.
    rewrite <- Hst. apply pstate_page; [done|]. Z.div_mod_to_equations. lia.
Qed.
End taken_spec.

Lemma allocated_grown p k k1 k2 : grown k k1 → allocated p k1 k2 → allocated p k k2.
Proof.
  intros Hg [R H A W N O Z0 Mm]. split; try done.
  - by transitivity k1; [apply Hg|].
  - by rewrite H, (gr_shape k k1 Hg).
  - by apply (grown_available k k1).
  - intros q Hq. destruct (gr_state k k1 Hg q) as [E|[E E']], (O q Hq) as [F|[F F']];
      rewrite ?F, ?E in *; auto.
  - intros x Hx. rewrite Mm; [apply Hg|].
    + intros E. apply Hx. by right.
    + by rewrite <- (grown_available k k1).
Qed.

(** Lock and IRQL are ghosts for the database. *)
Lemma locked_inv lk l k : pmm_inv l k → pmm_inv l (locked lk k).
Proof. by apply pmm_inv_ext. Qed.
Lemma restored_inv l k k1 : pmm_inv l k1 → pmm_inv l (restored k k1).
Proof. by apply pmm_inv_ext. Qed.
Lemma locked_tables lk k : tables (locked lk k) = tables k.
Proof. done. Qed.

Lemma allocated_restored p lk k k1 : allocated p (locked lk k) k1 → allocated p k (restored k k1).
Proof. intros [R H A W N O Z0 Mm]. split; try done. by eapply restored_same_rest. Qed.

(** The specification clients use. *)
Lemma allocate_page_spec l k :
  pmm_inv l k → can_lock pmm_spinlock k → (∃ q, available k q) →
  wp allocate_page k (λ p k', allocated p k k' ∧ ∃ l', pmm_inv l' k').
Proof.
  intros Hinv Hlock [q Hq]. eapply wp_ext; [apply allocate_page_split|].
  apply wp_bind, wp_spinlock_lock; [done|]. apply wp_bind.
  eapply wp_mono; [apply (refill_spec l); by apply locked_inv|].
  intros _ k1 ([|p l1] & Hinv1 & Hg & Hne).
  { exfalso. apply (Hne eq_refl q), (grown_available _ _ _ Hg). exact Hq. }
  destruct (taken_free_state l1 k1 p Hinv1) as [Hal Hst].
  destruct (pstate_inv _ _ _ Hst) as (i & c & Hi & Hc).
  unfold wp. rewrite (allocate_tail_run l1 k1 i c p) by done.
  pose proof (taken_allocated l1 k1 i c p Hinv1 Hi Hc (read64 (k_mem k1) p)) as Hall.
  pose proof (allocated_grown _ _ _ _ Hg Hall) as Hall'.
  rewrite (bind_ok _ _ _ tt (restored k (taken k1 (ref_of c i p) p (read64 (k_mem k1) p)))).
  - cbn [ret]. split; [by eapply allocated_restored|].
    exists l1. apply restored_inv. by apply taken_inv.
  - by apply spinlock_unlock_balanced; [|apply Hall'].
Qed.

(** (C1) Allocation: as long as some frame is free or not yet initialised,
    [allocate_page] returns a page-aligned frame that was not in use; the
    frame is now in use and reads as zero, no frame in use has changed state,
    the memory of frames in use and all memory outside the database is
    untouched, the lock is released and the IRQL restored, and the invariant
    of the manager still holds. *)
Theorem allocate_page_correct l k :
  pmm_inv l k → can_lock pmm_spinlock k → (∃ q, available k q) →
  ∃ p k', allocate_page k = Ok (p, k') ∧ allocated p k k' ∧ ∃ l', pmm_inv l' k'.
Proof. intros H1 H2 H3. exact (wp_inv _ _ _ (allocate_page_spec l k H1 H2 H3)). Qed.

(** Exhaustion: when every managed frame is in use, [allocate_page]
    panics with "PMM: out of memory"; it never returns a bad frame. *)
Theorem allocate_page_out_of_memory l k :
  pmm_inv l k → can_lock pmm_spinlock k → (∀ q, ¬ available k q) →
  allocate_page k = Panic "PMM: out of memory".
Proof.
  intros Hinv Hlock Hno. rewrite allocate_page_split.
  rewrite (bind_ok _ _ _ _ _ (spinlock_lock_ok _ _ Hlock)).
  destruct (wp_inv _ _ _ (refill_spec l _ (locked_inv pmm_spinlock l k Hinv)))
    as (u & k1 & Hrun & l1 & Hinv1 & Hg & _).
  rewrite (bind_ok _ _ _ _ _ Hrun).
  destruct l1 as [|p l1].
  - unfold allocate_tail, bind, gets. by rewrite (head_is_null _ _ Hinv1).
  - exfalso. destruct (taken_free_state l1 k1 p Hinv1) as [_ Hst].
    apply (Hno p), (grown_available (locked pmm_spinlock k) k1 p Hg). by left.
Qed.

(** * Release *)

Lemma get_page_info_managed l k i c p :
  pmm_inv l k → tables k !! i = Some c → in_child c p →
  get_page_info p k = Ok (Some (ref_of c i p), k).
Proof.
  intros Hinv Hi Hc. unfold get_page_info, bind, gets.
  rewrite (live_tables_eq l k Hinv). rewrite (get_page_info_loop_in _ 0 i c p); [done|apply Hinv|done..].
Qed.

(** What [free_page] does to a frame in use. *)
Record released (p : Z) (k k' : kernel) : Prop := mk_released {
  re_rest : same_rest k k';
  re_shape : shape <$> tables k' = shape <$> tables k;
  re_now : pstate (tables k') p = Some PAGE_FREE;
  re_others : ∀ q, q / 4096 ≠ p / 4096 → pstate (tables k') q = pstate (tables k) q;
  re_mem : ∀ x, x / 4096 ≠ p / 4096 → read8 (k_mem k') x = read8 (k_mem k) x
}.

Definition freed_used (k : kernel) (r : page_ref) (p : Z) : kernel :=
  let k1 := freed k r p in
  set_pmm k1 (set_used_pages (k_pmm k1) (u64 (used_pages (k_pmm k) - 1))).

Section release.
Context (l : list Z) (k : kernel) (i : nat) (c : pmm_child_table_t) (p : Z).
Context (Hinv : pmm_inv l k) (Hi : tables k !! i = Some c) (Hc : in_child c p).
Context (Hal : p mod 4096 = 0) (Hst : pstate (tables k) p = Some PAGE_USED).
Set Default Proof Using "All".

Lemma release_not_free : pstate (tables k) p ≠ Some PAGE_FREE.
Proof. by rewrite Hst. Qed.

Lemma freed_used_inv : pmm_inv (p :: l) (freed_used k (ref_of c i p) p).
Proof.
  pose proof release_not_free as Hnf. pose proof (inv_tables l k Hinv) as Hok.
  split; try apply Hinv.
  - change (tables (freed_used _ _ _)) with (upd_page (tables k) (ref_of c i p) PAGE_FREE).
    rewrite upd_page_length. apply Hinv.
  - by apply upd_page_tables_ok.
  - exact (freed_chain l k i c p Hinv Hi Hc Hal Hnf).
  - exact (freed_nodup l k i c p Hinv Hi Hc Hal Hnf).
  - exact (freed_free l k i c p Hinv Hi Hc Hal Hnf).
  - apply (fill_ok_keep _ _ _ i c p PAGE_USED); (done || apply Hinv).
  - change (tables (freed_used _ _ _)) with (upd_page (tables k) (ref_of c i p) PAGE_FREE). cbn.
    rewrite (inv_used l k Hinv).
    rewrite (count_used_upd _ i c p PAGE_USED) by (rewrite <- ?(pstate_in (tables k) i c p); done).
    unfold is_used. rewrite decide_True, decide_False by done. rewrite u64_sub_l. f_equal. lia.
Qed.

Lemma freed_used_released : released p k (freed_used k (ref_of c i p) p).
Proof.
  pose proof (inv_tables l k Hinv) as Hok.
  split; [done|..]; change (tables (freed_used _ _ _)) with (upd_page (tables k) (ref_of c i p) PAGE_FREE).
  - apply upd_page_shape.
  - rewrite (pstate_upd _ i c) by done. by rewrite Z.eqb_refl.
  - intros q Hq. rewrite (pstate_upd _ i c) by done.
    destruct (Z.eqb_spec (p / 4096) (q / 4096)); [lia|done].
  - intros x Hx. cbn. apply read8_write_le_out. Z.div_mod_to_equations. lia.
Qed.
End release.

(** The part of [free_page] after the lookup. *)
Lemma free_page_run l k i c p :
  pmm_inv l k → can_lock pmm_spinlock k → tables k !! i = Some c → in_child c p →
  p mod 4096 = 0 → pstate (tables k) p = Some PAGE_USED →
  free_page p k = Ok (tt, restored k (freed_used (locked pmm_spinlock k) (ref_of c i p) p)).
Proof.
  intros Hinv Hlock Hi Hc Hal Hst. set (k0 := locked pmm_spinlock k).
  assert (pmm_inv l k0) as Hinv0 by (by apply locked_inv).
  unfold free_page. rewrite (bind_ok _ _ _ _ _ (spinlock_lock_ok _ _ Hlock)).
  rewrite (bind_ok _ _ _ _ _ (get_page_info_managed l k0 i c p Hinv0 Hi Hc)).
  unfold read_state. unfold bind at 1, gets at 1.
  change (child_tables (parent_table (k_pmm k0))) with (tables k).
  rewrite page_state_ref, Hst by (done || apply Hinv).
  rewrite !bool_decide_eq_false_2 by done.
  pose proof (pstate_range _ _ _ (inv_tables l k Hinv) Hst). pose proof (inv_off l k Hinv).
  rewrite <- (spinlock_unlock_balanced pmm_spinlock k
    (freed_used k0 (ref_of c i p) p)); [|done|by apply (freed_used_released l k0 i c)].
  unfold write_state, push_node, store64, set_head, bind, modify, gets. cbn.
  rewrite (inv_hhdm l k Hinv), (u64_id (p + _)) by (unfold is_u64; lia).
  f_equal. unfold freed_used, freed, hhdm_phys. cbn.
  replace (p + k_hhdm k - k_hhdm k) with p by lia. by rewrite (u64_id p) by (unfold is_u64; lia).
Qed.

Lemma free_page_spec l k p :
  pmm_inv l k → can_lock pmm_spinlock k → p mod 4096 = 0 → pstate (tables k) p = Some PAGE_USED →
  wp (free_page p) k (λ _ k', released p k k' ∧ pmm_inv (p :: l) k').
Proof.
  intros Hinv Hlock Hal Hst.
  destruct (pstate_inv _ _ _ Hst) as (i & c & Hi & Hc).
  eapply wp_ok; [by apply (free_page_run l k i c)|].
  pose proof (locked_inv pmm_spinlock l k Hinv) as Hinv0.
  split; [|apply restored_inv; by apply freed_used_inv].
  destruct (freed_used_released l (locked pmm_spinlock k) i c p Hinv0 Hi Hc Hal Hst) as [R H N O Mm].
  by split.
Qed.

(** (C2) Release: freeing a frame that is in use returns it to the free list
    and changes no other frame and no other memory; the invariant holds with
    the frame at the head of the list. *)
Theorem free_page_correct l k p :
  pmm_inv l k → can_lock pmm_spinlock k → p mod 4096 = 0 → pstate (tables k) p = Some PAGE_USED →
  ∃ k', free_page p k = Ok (tt, k') ∧ released p k k' ∧ pmm_inv (p :: l) k'.
Proof.
  intros H1 H2 H3 H4. destruct (wp_inv _ _ _ (free_page_spec l k p H1 H2 H3 H4)) as ([] & k' & ?).
  by exists k'.
Qed.

Lemma free_page_state_panics l k p i c st :
  pmm_inv l k → can_lock pmm_spinlock k → tables k !! i = Some c → in_child c p →
  pstate (tables k) p = Some st → st ≠ PAGE_USED →
  free_page p k = Panic (if bool_decide (st = PAGE_UNINIT)
    then "PMM: attempted to free an uninit page" else "PMM: attempted to double free").
Proof.
  intros Hinv Hlock Hi Hc Hst Hnu.
  assert (pmm_inv l (locked pmm_spinlock k)) as Hinv0 by (by apply locked_inv).
  unfold free_page. rewrite (bind_ok _ _ _ _ _ (spinlock_lock_ok _ _ Hlock)).
  rewrite (bind_ok _ _ _ _ _ (get_page_info_managed l _ i c p Hinv0 Hi Hc)).
  unfold read_state. unfold bind at 1, gets at 1.
  change (child_tables (parent_table (k_pmm (locked pmm_spinlock k)))) with (tables k).
  rewrite page_state_ref, Hst by (done || apply Hinv). by destruct st.
Qed.

Lemma get_page_info_loop_out ts n p k :
  (∀ i c, ts !! i = Some c → p < start c ∨ end_ c < p) → get_page_info_loop ts n p k = Ok (None, k).
Proof.
  revert n. induction ts as [|c ts IH]; intros n Hout; [done|].
  cbn [get_page_info_loop]. pose proof (Hout 0%nat c eq_refl).
  destruct (Z.leb_spec (start c) p), (Z.leb_spec p (end_ c)); cbn; try lia;
    apply IH; intros i c' Hi; by apply (Hout (S i)).
Qed.

(** Error paths of release: a double free and the release of a frame that
    was never initialised are caught by a panic, an address of no managed
    region is ignored without any effect. *)
Theorem free_page_error_paths l k p :
  pmm_inv l k → can_lock pmm_spinlock k →
  (pstate (tables k) p = Some PAGE_FREE → free_page p k = Panic "PMM: attempted to double free") ∧
  (pstate (tables k) p = Some PAGE_UNINIT →
     free_page p k = Panic "PMM: attempted to free an uninit page") ∧
  ((∀ i c, tables k !! i = Some c → p < start c ∨ end_ c < p) → free_page p k = Ok (tt, k)).
Proof.
  intros Hinv Hlock. split_and!.
  - intros Hst. destruct (pstate_inv _ _ _ Hst) as (i & c & Hi & Hc).
    by rewrite (free_page_state_panics l k p i c PAGE_FREE).
  - intros Hst. destruct (pstate_inv _ _ _ Hst) as (i & c & Hi & Hc).
    by rewrite (free_page_state_panics l k p i c PAGE_UNINIT).
  - intros Hout. unfold free_page. rewrite (bind_ok _ _ _ _ _ (spinlock_lock_ok _ _ Hlock)).
    unfold get_page_info. unfold bind at 1. unfold bind at 1, gets at 1.
    rewrite (live_tables_eq l) by (by apply locked_inv).
    rewrite get_page_info_loop_out by done.
    rewrite (spinlock_unlock_balanced pmm_spinlock k) by done.
    unfold restored. cbn. by destruct k.
Qed.

(** The inclusive upper bound of [get_page_info]: the address just past
    the end of a managed region belongs to no frame, yet looking it up panics
    instead of returning NULL, and so does [free_page] on it. *)
Theorem free_page_region_end_panics l k i c :
  pmm_inv l k → can_lock pmm_spinlock k → tables k !! i = Some c →
  pstate (tables k) (end_ c) = None ∧
  free_page (end_ c) k =
    Panic "PMM: attempted to get info on out of bounds page that was meant to be in range".
Proof.
  intros Hinv Hlock Hi. pose proof (inv_tables l k Hinv) as Hok. split.
  - destruct (pstate (tables k) (end_ c)) as [st|] eqn:Hst; [|done]. exfalso.
    destruct (pstate_inv _ _ _ Hst) as (j & c' & Hj & [H1 H2]).
    destruct (decide (i = j)) as [->|Hne].
    + rewrite Hi in Hj. injection Hj as <-. lia.
    + destruct (proj1 Hok _ _ Hi) as (_ & _ & ? & _).
      destruct (proj2 Hok _ _ _ _ Hi Hj Hne); lia.
  - unfold free_page. rewrite (bind_ok _ _ _ _ _ (spinlock_lock_ok _ _ Hlock)).
    apply bind_panic. unfold get_page_info, bind, gets.
    rewrite (live_tables_eq l) by (by apply locked_inv). rewrite locked_tables.
    generalize (locked pmm_spinlock k). generalize 0%nat. clear Hinv Hlock. revert i Hi.
    induction (tables k) as [|c0 ts IH]; intros i Hi n k'; [done|].
    cbn [get_page_info_loop]. destruct i as [|i]; cbn in Hi.
    + injection Hi as ->. destruct (proj1 Hok 0%nat c eq_refl) as (Hs & He & Hse & Hmax & Hn & Hl).
      rewrite (proj2 (Z.leb_le _ _)), Z.leb_refl by lia. cbn [andb].
      rewrite ALIGN_DOWN_page by (unfold is_u64; lia).
      rewrite He, Z.sub_0_r, u64_id by (unfold is_u64; lia).
      unfold PAGE_SIZE. rewrite Hn, Z.leb_refl. done.
    + destruct (proj1 Hok _ _ (Hi : (c0 :: ts) !! S i = Some c)) as (_ & _ & ? & _).
      destruct (proj2 Hok 0%nat (S i) c0 c eq_refl Hi ltac:(lia)) as [Hd|Hd];
      destruct (Z.leb_spec (start c0) (end_ c)), (Z.leb_spec (end_ c) (end_ c0)); cbn [andb]; try lia;
        apply (IH (tables_ok_tail _ _ Hok) i Hi).
Qed.
