(* ===== verification/PmmBoot.v ===== *)
(** Boot of the physical memory manager: [setup_pmm] turns a sane memory map
    into a state that satisfies the manager's invariant; the round trips of
    the page database; a booted kernel for concrete evaluation. *)
From stdpp Require Import base tactics list gmap sets strings.
From Stdlib Require Import ZArith Lia.
From S2P Require Import Prelude Bits State Spinlock Pmm PmmInv.

(** * The memory map

    What the boot protocol documents of usable entries: they are page aligned,
    below 64 TiB (the direct map has room for 128 TiB) and disjoint. *)
Record memmap_ok (mm : list memmap_entry) : Prop := mk_memmap_ok {
  mm_entry : ∀ i e, mm !! i = Some e → usable_region e = true →
    0 <= base e ∧ base e mod 4096 = 0 ∧ length_ e mod 4096 = 0 ∧ base e + length_ e <= 2 ^ 46;
  mm_apart : ∀ i j e1 e2, mm !! i = Some e1 → mm !! j = Some e2 → i ≠ j →
    usable_region e1 = true → usable_region e2 = true →
    base e1 + length_ e1 <= base e2 ∨ base e2 + length_ e2 <= base e1;
  mm_count : Z.of_nat (length mm) < 2 ^ 32;
  mm_some : filter usable_region mm ≠ []
}.

(** Physical address of the table structure itself. *)
Definition table_phys (off : Z) (c : pmm_child_table_t) : Z := u64 (c_addr c - off).

(** The child table [c] was carved out of the region [e]: the table itself
    and the frames it manages lie inside the region, the table before the
    frames. *)
Definition carved (off : Z) (e : memmap_entry) (c : pmm_child_table_t) : Prop :=
  is_u64 (c_addr c) ∧
  base e <= table_phys off c ∧ table_phys off c + 24 + 4 * num_pages c <= start c ∧
  end_ c = base e + length_ e.

(** ** The layout that boot is meant to produce

    The parent table, of [psize] bytes, is at the start [pbase] of the first usable
    region; the table of a region follows it there, and is at the start of every
    other region.  The frames begin at the next page boundary behind the table. *)
Definition table_base (pbase psize : Z) (e : memmap_entry) : Z := base e + (if base e =? pbase then psize else 0).
Definition first_frame (pbase psize : Z) (e : memmap_entry) : Z :=
  (table_base pbase psize e + (24 + 4 * (length_ e / 4096)) + 4095) / 4096 * 4096.
Definition region_shape (off pbase psize : Z) (e : memmap_entry) : option (Z * Z * Z * Z) :=
  let s := first_frame pbase psize e in
  let end' := base e + length_ e in
  if usable_region e && (s <? end') then Some (u64 (table_base pbase psize e + off), s, end', (end' - s) / 4096) else None.

Definition parent_base (mm : list memmap_entry) : Z := match filter usable_region mm with e :: _ => base e | [] => 0 end.
Definition parent_bytes (mm : list memmap_entry) : Z := 8 + 8 * Z.of_nat (length (filter usable_region mm)).

(** The address [p] is in a frame of a usable region, behind the tables. *)
Definition managed (mm : list memmap_entry) (p : Z) : Prop :=
  ∃ e, e ∈ mm ∧ usable_region e = true ∧ first_frame (parent_base mm) (parent_bytes mm) e <= p < base e + length_ e.

(** * The state while the tables are built *)
Record building (mm_done mm_rest : list memmap_entry) (k : kernel) : Prop := mk_building {
  bd_hhdm : hhdmOffset (k_pmm k) = k_hhdm k;
  bd_head : freelist_head (k_pmm k) = 0;
  bd_used : used_pages (k_pmm k) = 0;
  bd_fill : fill_t (k_pmm k) = 0 ∧ fill_p (k_pmm k) = 0;
  bd_num : num_child_tables (parent_table (k_pmm k)) =
    Z.of_nat (length (tables k) + length (filter usable_region mm_rest));
  bd_len : (length (tables k) <= length mm_done)%nat;
  bd_tables : tables_ok (tables k);
  bd_uninit : ∀ i c, tables k !! i = Some c → Forall (λ s, s = PAGE_UNINIT) (pages c);
  bd_from : ∀ i c, tables k !! i = Some c →
    ∃ e, e ∈ mm_done ∧ usable_region e = true ∧ carved (k_hhdm k) e c
}.

Definition off_ok (k : kernel) : Prop := 0 < k_hhdm k ∧ k_hhdm k + 2 ^ 46 <= 2 ^ 64.

Lemma count_used_uninit ts :
  (∀ i c, ts !! i = Some c → Forall (λ s, s = PAGE_UNINIT) (pages c)) → count_used ts = 0.
Proof.
  induction ts as [|c ts IH]; intros H; cbn; [done|].
  rewrite IH by (intros i c' Hi; by apply (H (S i))).
  pose proof (H 0%nat c eq_refl) as Hc. unfold used_in.
  induction Hc as [|s l -> _ IHl]; cbn; [done|]. rewrite decide_False by done. exact IHl.
Qed.

(** Once all entries are processed, the invariant holds with an empty free list. *)
Lemma building_done mm k : building mm [] k → off_ok k → pmm_inv [] k.
Proof.
  intros [Hh Hhd Hu [Ht Hp] Hn Hln Hok Hun Hfr] Hoff. split; try done.
  - rewrite Hn. cbn. lia.
  - constructor.
  - intros p. split; [by intros ?%not_elem_of_nil|]. intros [_ Hst]. exfalso.
    destruct (pstate_inv _ _ _ Hst) as (i & c & Hi & Hc).
    rewrite (pstate_in _ i c p) in Hst by done.
    by apply (proj1 (Forall_lookup _ _) (Hun i c Hi)) in Hst.
  - rewrite Ht, Hp. split_and!; try lia.
    + intros c Hc. destruct (proj1 Hok _ _ Hc) as (_ & _ & ? & _ & ? & _). Z.div_mod_to_equations. lia.
    + intros i j st Hst. unfold page_state in Hst. cbn in Hst.
      destruct (tables k !! i) as [c|] eqn:Hi; [|done]. cbn in Hst.
      pose proof (proj1 (Forall_lookup _ _) (Hun i c Hi) _ _ Hst). split; [lia|done].
  - by rewrite Hu, count_used_uninit.
Qed.

(** The geometry of one new child table. *)
Section carve.
Context (e : memmap_entry).
Context (He : 0 <= base e ∧ base e mod 4096 = 0 ∧ length_ e mod 4096 = 0 ∧ base e + length_ e <= 2 ^ 46).
Context (Hus : usable_region e = true).
Set Default Proof Using "All".

Lemma usable_length : 65536 < length_ e.
Proof.
  unfold usable_region in Hus. apply andb_prop in Hus as [_ H]. apply Z.ltb_lt in H.
  unfold PAGE_SIZE in H. lia.
Qed.

Lemma base_aligned : ALIGN_UP (base e) PAGE_SIZE = base e.
Proof.
  pose proof usable_length. rewrite ALIGN_UP_page by lia. Z.div_mod_to_equations. lia.
Qed.

Lemma region_end : ALIGN_DOWN (u64 (base e + length_ e)) PAGE_SIZE = base e + length_ e.
Proof.
  pose proof usable_length. rewrite u64_id by (unfold is_u64; lia).
  rewrite ALIGN_DOWN_page by (unfold is_u64; lia). Z.div_mod_to_equations. lia.
Qed.

Context (off extra : Z) (Hoff : 0 < off ∧ off + 2 ^ 46 <= 2 ^ 64) (Hx : 0 <= extra < 2 ^ 40).

Let child : Z := u64 (base e + extra + off).
Let csize : Z := u64 (24 + u64 (4 * (length_ e / PAGE_SIZE))).

Lemma csize_eq : csize = 24 + 4 * (length_ e / 4096).
Proof.
  pose proof usable_length. subst csize. unfold PAGE_SIZE.
  assert (0 <= length_ e / 4096 <= 2 ^ 40) by (Z.div_mod_to_equations; lia).
  rewrite (u64_id (4 * _)), u64_id by (unfold is_u64; lia). done.
Qed.

Lemma child_phys : u64 (child - off) = base e + extra.
Proof.
  pose proof usable_length. subst child. rewrite u64_sub_l.
  replace (base e + extra + off - off) with (base e + extra) by lia.
  apply u64_id. unfold is_u64. lia.
Qed.

Lemma frames_start :
  let s := ALIGN_UP (u64 (u64 (child - off) + csize)) PAGE_SIZE in
  base e + extra + csize <= s < base e + extra + csize + 4096 ∧ s mod 4096 = 0.
Proof.
  pose proof usable_length. rewrite child_phys, csize_eq.
  assert (0 <= length_ e / 4096 <= 2 ^ 40) by (Z.div_mod_to_equations; lia).
  rewrite u64_id by (unfold is_u64; lia). apply ALIGN_UP_page_bounds. lia.
Qed.

Lemma carve_ok s n :
  s = ALIGN_UP (u64 (u64 (child - off) + csize)) PAGE_SIZE →
  s < base e + length_ e → n = (base e + length_ e - s) / 4096 →
  let c := mk_child child s (base e + length_ e) n (replicate (Z.to_nat n) PAGE_UNINIT) in
  child_ok c ∧ carved off e c ∧ base e < s.
Proof.
  intros Hs Hlt Hn c. pose proof frames_start as [Hb Hal]. rewrite <- Hs in Hb, Hal.
  rewrite csize_eq in Hb. pose proof usable_length. subst c. unfold child_ok, carved, table_phys. cbn.
  rewrite child_phys, length_replicate.
  split_and!; try lia; try done; try apply u64_range; subst n; Z.div_mod_to_equations; lia.
Qed.
End carve.

Lemma filter_usable_cons e rest :
  length (filter usable_region (e :: rest)) =
    ((if usable_region e then 1 else 0) + length (filter usable_region rest))%nat.
Proof. rewrite filter_cons. destruct (usable_region e); by case_decide. Qed.

(** One more entry of the map, not carved. *)
Lemma building_skip mm_done e rest k k' :
  building mm_done (e :: rest) k → k_hhdm k' = k_hhdm k → tables k' = tables k →
  hhdmOffset (k_pmm k') = hhdmOffset (k_pmm k) → freelist_head (k_pmm k') = freelist_head (k_pmm k) →
  used_pages (k_pmm k') = used_pages (k_pmm k) → fill_t (k_pmm k') = fill_t (k_pmm k) →
  fill_p (k_pmm k') = fill_p (k_pmm k) →
  num_child_tables (parent_table (k_pmm k')) =
    num_child_tables (parent_table (k_pmm k)) - (if usable_region e then 1 else 0) →
  building (mm_done ++ [e]) rest k'.
Proof.
  intros [Hh Hhd Hu [Hft Hfp] Hn Hln Hok Hun Hfr] E1 E2 E3 E4 E5 E6 E7 E8.
  split; rewrite ?E1, ?E2, ?E3, ?E4, ?E5, ?E6, ?E7; try done.
  - rewrite E8, Hn, filter_usable_cons. destruct (usable_region e); lia.
  - rewrite length_app. lia.
  - intros i c Hi. destruct (Hfr i c Hi) as (e' & He' & ?). exists e'. split; [|done].
    apply elem_of_app. by left.
Qed.

(** One more entry of the map, with its child table. *)
Lemma building_add mm_done e rest k k' c :
  memmap_ok (mm_done ++ e :: rest) → usable_region e = true →
  child_ok c → carved (k_hhdm k) e c → base e < start c →
  Forall (λ s, s = PAGE_UNINIT) (pages c) →
  building mm_done (e :: rest) k → k_hhdm k' = k_hhdm k → tables k' = tables k ++ [c] →
  hhdmOffset (k_pmm k') = hhdmOffset (k_pmm k) → freelist_head (k_pmm k') = freelist_head (k_pmm k) →
  used_pages (k_pmm k') = used_pages (k_pmm k) → fill_t (k_pmm k') = fill_t (k_pmm k) →
  fill_p (k_pmm k') = fill_p (k_pmm k) →
  num_child_tables (parent_table (k_pmm k')) = num_child_tables (parent_table (k_pmm k)) →
  building (mm_done ++ [e]) rest k'.
Proof.
  intros Hmm Hus Hcok Hcar Hbs Huni [Hh Hhd Hu [Hft Hfp] Hn Hln Hok Hun Hfr] E1 E2 E3 E4 E5 E6 E7 E8.
  assert (∀ i ci, tables k !! i = Some ci → end_ ci < start c ∨ end_ c < start ci) as Hapart.
  { intros i ci Hi. destruct (Hfr i ci Hi) as (e' & He' & Hu' & Hc').
    apply list_elem_of_lookup in He' as [n Hn'].
    assert (n < length mm_done)%nat as Hlt by (by eapply lookup_lt_Some).
    destruct (mm_apart _ Hmm n (length mm_done) e' e) as [Ha|Ha]; try done.
    - by rewrite lookup_app_l.
    - rewrite lookup_app_r by lia. by rewrite Nat.sub_diag.
    - lia.
    - destruct Hc' as (_ & ? & ? & ?). left. lia.
    - destruct Hcar as (_ & ? & ? & ?), Hc' as (_ & ? & ? & ?). right.
      destruct (proj1 Hok _ _ Hi) as (_ & _ & _ & _ & Hnp & Hl). lia. }
  split; rewrite ?E1, ?E3, ?E4, ?E5, ?E6, ?E7; try done; rewrite E2.
  - rewrite E8, Hn, filter_usable_cons, Hus, length_app. cbn. lia.
  - rewrite !length_app. cbn. lia.
  - split.
    + intros i c' [Hi|[_ [_ <-]%list_lookup_singleton_Some]]%lookup_app_Some; [|done].
      by apply (proj1 Hok i).
    + intros i j ci cj [Hi|[Hi1 [Hi2 <-]%list_lookup_singleton_Some]]%lookup_app_Some
        [Hj|[Hj1 [Hj2 <-]%list_lookup_singleton_Some]]%lookup_app_Some Hne.
      * by apply (proj2 Hok i j).
      * by apply (Hapart i).
      * destruct (Hapart j cj Hj); auto.
      * lia.
  - intros i c' [Hi|[_ [_ <-]%list_lookup_singleton_Some]]%lookup_app_Some; [|done].
    by apply (Hun i).
  - intros i c' [Hi|[_ [_ <-]%list_lookup_singleton_Some]]%lookup_app_Some.
    + destruct (Hfr i c' Hi) as (e' & He' & ?). exists e'. split; [|done].
      apply elem_of_app. by left.
    + exists e. split; [apply elem_of_app; right; by apply list_elem_of_singleton|done].
Qed.

(** The table of one region is where the layout wants it. *)
Lemma table_place e off pbase psize :
  0 <= base e < 2 ^ 46 → 0 <= pbase < 2 ^ 46 → 0 < off ∧ off + 2 ^ 46 <= 2 ^ 64 →
  (if u64 (base e + off) =? u64 (pbase + off) then u64 (u64 (pbase + off) + psize) else u64 (base e + off)) =
  u64 (base e + (if base e =? pbase then psize else 0) + off).
Proof.
  intros He Hp Ho. rewrite (u64_id (base e + off)), (u64_id (pbase + off)) by (unfold is_u64; lia).
  destruct (Z.eqb_spec (base e) pbase) as [->|Hne].
  - rewrite Z.eqb_refl. f_equal. lia.
  - rewrite (proj2 (Z.eqb_neq _ _)) by lia. rewrite Z.add_0_r. by rewrite u64_id by (unfold is_u64; lia).
Qed.

Lemma setup_children_spec mm_done rest pbase psize k :
  memmap_ok (mm_done ++ rest) → building mm_done rest k → off_ok k → 0 <= psize < 2 ^ 40 → 0 <= pbase < 2 ^ 46 →
  wp (setup_children rest (u64 (pbase + k_hhdm k)) psize) k (λ _ k',
    building (mm_done ++ rest) [] k' ∧ same_rest k k' ∧
    shape <$> tables k' = (shape <$> tables k) ++ omap (region_shape (k_hhdm k) pbase psize) rest).
Proof.
  revert mm_done k. induction rest as [|e rest IH]; intros mm_done k Hmm Hb Hoff Hps Hpb.
  { cbn. wp_step. by rewrite !app_nil_r. }
  cbn [setup_children].
  assert (∀ k', building (mm_done ++ [e]) rest k' → same_rest k k' →
    shape <$> tables k' = (shape <$> tables k) ++ option_list (region_shape (k_hhdm k) pbase psize e) →
    wp (setup_children rest (u64 (pbase + k_hhdm k)) psize) k' (λ _ k', building (mm_done ++ e :: rest) [] k' ∧ same_rest k k' ∧
      shape <$> tables k' = (shape <$> tables k) ++ omap (region_shape (k_hhdm k) pbase psize) (e :: rest))) as Hnext.
  { intros k' Hb' Hsr Hsh. replace (mm_done ++ e :: rest) with ((mm_done ++ [e]) ++ rest) in * by (by rewrite <- app_assoc).
    rewrite <- (sr_hhdm _ _ Hsr) at 1. eapply wp_mono; [apply (IH _ k' Hmm Hb')|].
    - unfold off_ok. by rewrite (sr_hhdm _ _ Hsr).
    - done.
    - done.
    - intros _ k2 (Hb2 & Hs2 & Hsh2). split; [done|]. split; [by transitivity k'|].
      rewrite Hsh2, Hsh, (sr_hhdm _ _ Hsr), <- app_assoc. f_equal. cbn [omap list_omap]. by destruct (region_shape _ _ _ e). }
  destruct (usable_region e) eqn:Hus; cbn [negb].
  2: { apply Hnext; [|done|unfold region_shape; rewrite Hus; by rewrite app_nil_r]. eapply building_skip; try done. rewrite Hus. lia. }
  pose proof (mm_entry _ Hmm (length mm_done) e) as He.
  rewrite lookup_app_r, Nat.sub_diag in He by lia. specialize (He eq_refl Hus).
  wp_step. rewrite (bd_hhdm _ _ _ Hb). rewrite (base_aligned e) by done.
  pose proof (usable_length e He Hus) as Hlen. rewrite table_place by (done || lia).
  set (extra := if base e =? pbase then psize else 0).
  assert (0 <= extra < 2 ^ 40) as Hx by (subst extra; destruct (_ =? _); lia).
  do 2 wp_step. rewrite (region_end e) by done.
  set (s := ALIGN_UP (u64 (u64 (u64 (base e + extra + k_hhdm k) - k_hhdm k) + _)) PAGE_SIZE).
  assert (s = first_frame pbase psize e) as Hs.
  { unfold s. rewrite (child_phys e He Hus _ _ Hoff Hx). unfold first_frame, table_base. fold extra.
    pose proof (csize_eq e He Hus _ _ Hoff Hx) as Hc. rewrite Hc. rewrite u64_id, ALIGN_UP_page; [done|..]; unfold is_u64; Z.div_mod_to_equations; lia. }
  destruct (Z.leb_spec (base e + length_ e) s) as [Hle|Hlt]; wp_step.
  - apply Hnext; [|done|].
    2: { unfold region_shape. rewrite Hus, <- Hs, (proj2 (Z.ltb_ge _ _) Hle), app_nil_r. done. }
    eapply building_skip; try done.
    cbn [set_pmm set_mem k_pmm set_parent_table parent_table num_child_tables].
    rewrite (bd_num _ _ _ Hb), Hus, filter_usable_cons, Hus. unfold u32.
    pose proof (mm_count _ Hmm) as Hcnt. rewrite length_app in Hcnt. cbn in Hcnt.
    pose proof (bd_len _ _ _ Hb). pose proof (length_filter usable_region rest).
    rewrite Z.mod_small; lia.
  - destruct (carve_ok e He Hus (k_hhdm k) extra Hoff Hx s _ eq_refl Hlt eq_refl) as (Hc1 & Hc2 & Hc3).
    apply Hnext; [|done|].
    2: { unfold region_shape. rewrite Hus, <- Hs, (proj2 (Z.ltb_lt _ _) Hlt). unfold tables. cbn. by rewrite fmap_app. }
    eapply (building_add mm_done e rest k); try done.
    cbn. by apply Forall_replicate.
Qed.

Lemma parent_base_range mm : memmap_ok mm → 0 <= parent_base mm < 2 ^ 46.
Proof.
  intros Hmm. unfold parent_base. destruct (filter usable_region mm) as [|e us] eqn:Hf; [lia|].
  assert (e ∈ filter usable_region mm) as He by (rewrite Hf; left). apply list_elem_of_filter in He as [Hus%Is_true_true He].
  apply list_elem_of_lookup in He as [i Hi]. pose proof (mm_entry _ Hmm i e Hi Hus). pose proof (usable_length e (mm_entry _ Hmm i e Hi Hus) Hus). lia.
Qed.

Lemma parent_bytes_range mm : memmap_ok mm → 0 <= parent_bytes mm < 2 ^ 40.
Proof.
  intros Hmm. unfold parent_bytes. pose proof (mm_count _ Hmm). pose proof (length_filter usable_region mm). lia.
Qed.

Lemma grown_used k k' p : grown k k' → pstate (tables k) p ≠ Some PAGE_USED → pstate (tables k') p ≠ Some PAGE_USED.
Proof. intros Hg Hn. destruct (gr_state _ _ Hg p) as [->|[_ ->]]; done. Qed.

Lemma uninit_not_used ts p : (∀ i c, ts !! i = Some c → Forall (λ s, s = PAGE_UNINIT) (pages c)) → tables_ok ts → pstate ts p ≠ Some PAGE_USED.
Proof.
  intros Hun Hok Hst. destruct (pstate_inv _ _ _ Hst) as (i & c & Hi & Hc). rewrite (pstate_in _ i c p) in Hst by done.
  by apply (proj1 (Forall_lookup _ _) (Hun i c Hi)) in Hst.
Qed.

Lemma setup_pmm_spec mm hhdm :
  memmap_ok mm → off_ok (kernel0 hhdm) →
  wp (setup_pmm mm) (kernel0 hhdm) (λ _ k, (∃ l, pmm_inv l k) ∧ same_rest (kernel0 hhdm) k ∧
    (∀ i c, tables k !! i = Some c → ∃ e, e ∈ mm ∧ usable_region e = true ∧ carved (k_hhdm k) e c) ∧
    shape <$> tables k = omap (region_shape hhdm (parent_base mm) (parent_bytes mm)) mm ∧
    ∀ p, pstate (tables k) p ≠ Some PAGE_USED).
Proof.
  intros Hmm Hoff. pose proof (parent_base_range mm Hmm) as Hpb. pose proof (parent_bytes_range mm Hmm) as Hps. unfold setup_pmm. do 2 wp_step.
  destruct (filter usable_region mm) as [|e0 us] eqn:Hf; [by apply (mm_some _ Hmm) in Hf|].
  assert (e0 ∈ filter usable_region mm) as He0 by (rewrite Hf; left). apply list_elem_of_filter in He0 as [Hus0%Is_true_true He0].
  apply list_elem_of_lookup in He0 as [i0 Hi0].
  wp_step. unfold memset. do 3 wp_step.
  assert (ALIGN_UP (base e0) PAGE_SIZE = parent_base mm) as -> by (unfold parent_base; rewrite Hf; by apply base_aligned; [apply (mm_entry _ Hmm i0)|]).
  replace (8 + 8 * Z.of_nat (length (e0 :: us))) with (parent_bytes mm) by (unfold parent_bytes; by rewrite Hf).
  lazymatch goal with |- wp (setup_children ?m _ ?s) ?k _ => set (k0 := k); change (u64 (parent_base mm + _)) with (u64 (parent_base mm + k_hhdm k0)) at 1 end.
  eapply wp_mono.
  { apply (setup_children_spec [] mm (parent_base mm) (parent_bytes mm)); [done| |exact Hoff|done|done].
    split; try done. cbn. rewrite Hf. unfold u32. rewrite Z.mod_small; [done|].
    pose proof (mm_count _ Hmm). pose proof (length_filter usable_region mm) as Hl.
    rewrite Hf in Hl. cbn in Hl |- *. lia. }
  intros _ k (Hb & Hsr & Hsh). cbn [app] in Hb.
  assert (off_ok k) as Hoff' by (unfold off_ok; rewrite (sr_hhdm _ _ Hsr); exact Hoff).
  eapply wp_mono; [apply (pmm_fill_spec []); [by eapply building_done|lia]|].
  intros _ k' (l & Hinv & Hg & _). split_and!; [by exists l| | | |].
  - transitivity k; [by destruct Hsr; split|apply Hg].
  - intros i c Hi. assert ((shape <$> tables k) !! i = Some (shape c)) as Hi'.
    { rewrite <- (gr_shape _ _ Hg), list_lookup_fmap, Hi. done. }
    rewrite list_lookup_fmap in Hi'. destruct (tables k !! i) as [c0|] eqn:Hc0; [|done].
    injection Hi' as E1 E2 E3 E4. destruct (bd_from _ _ _ Hb i c0 Hc0) as (e & He & Hus & Hcar).
    exists e. split_and!; [done..|]. rewrite (sr_hhdm _ _ (gr_rest _ _ Hg)).
    unfold carved, table_phys in *. rewrite <- E1, <- E2, <- E3, <- E4. exact Hcar.
  - rewrite (gr_shape _ _ Hg), Hsh. done.
  - intros p. apply (grown_used k); [done|]. apply uninit_not_used; [apply (bd_uninit _ _ _ Hb)|apply (bd_tables _ _ _ Hb)].
Qed.

(** What is managed, from the geometry of the tables. *)
Lemma managed_shape mm off k l : pmm_inv l k →
  shape <$> tables k = omap (region_shape off (parent_base mm) (parent_bytes mm)) mm →
  ∀ p, is_Some (pstate (tables k) p) ↔ managed mm p.
Proof.
  intros Hinv Hsh p. pose proof (inv_tables _ _ Hinv) as Hok. unfold region_shape in Hsh. split.
  - intros [st (i & c & Hi & Hs & He)%pstate_inv]. assert (shape c ∈ shape <$> tables k) as Hin by (by eapply list_elem_of_fmap_2, list_elem_of_lookup_2).
    rewrite Hsh in Hin. apply list_elem_of_omap in Hin as (e & He' & Hr). exists e. destruct (usable_region e) eqn:Hus; [|done]. cbn [andb] in Hr.
    destruct (Z.ltb_spec (first_frame (parent_base mm) (parent_bytes mm) e) (base e + length_ e)); [|done]. injection Hr as _ E1 E2 _. rewrite E1, E2. done.
  - intros (e & He & Hus & Hp). assert (∃ a n, (a, first_frame (parent_base mm) (parent_bytes mm) e, base e + length_ e, n) ∈ shape <$> tables k) as (a & n & Hin).
    { rewrite Hsh. do 2 eexists. apply list_elem_of_omap. exists e. split; [done|]. rewrite Hus. cbn [andb]. by rewrite (proj2 (Z.ltb_lt _ _)) by lia. }
    apply list_elem_of_fmap in Hin as (c & Hc & Hin). injection Hc as _ E1 E2 _. apply list_elem_of_lookup in Hin as [i Hi].
    rewrite (pstate_in _ i c p Hok Hi) by (split; lia). apply lookup_lt_is_Some. destruct (child_index c p (proj1 Hok i c Hi)) as [Hx _]; [split; lia|].
    destruct (proj1 Hok i c Hi) as (_ & _ & _ & _ & _ & Hl). lia.
Qed.

(** The parent table, when it fits the smallest usable region, overlaps neither a
    managed frame nor another table. *)
Lemma parent_apart mm e : memmap_ok mm → parent_bytes mm <= 65536 → e ∈ mm → usable_region e = true →
  parent_base mm + parent_bytes mm <= table_base (parent_base mm) (parent_bytes mm) e ∨ base e + length_ e <= parent_base mm.
Proof.
  intros Hmm Hps He Hus. unfold table_base. destruct (Z.eqb_spec (base e) (parent_base mm)) as [->|Hne]; [left; lia|].
  unfold parent_base in *. destruct (filter usable_region mm) as [|e0 us] eqn:Hf; [by apply (mm_some _ Hmm) in Hf|].
  assert (e0 ∈ filter usable_region mm) as He0 by (rewrite Hf; left). apply list_elem_of_filter in He0 as [Hus0%Is_true_true He0].
  apply list_elem_of_lookup in He as [i Hi], He0 as [i0 Hi0]. pose proof (usable_length e0 (mm_entry _ Hmm i0 e0 Hi0 Hus0) Hus0).
  destruct (mm_apart _ Hmm i i0 e e0 Hi Hi0) as [Hx|Hx]; [by intros ->; congruence|done|done|right; lia|left; lia].
Qed.

(** (C3) Boot: from a sane memory map with at least one usable region,
    [setup_pmm] returns (its loops terminate, nothing panics) in a state that
    satisfies the invariant of the manager, with no lock held and no frame in
    use.  There is one table for every usable region that has room for a frame
    behind its tables, in the order of the map, and an address is managed exactly
    when it is in a usable region behind the tables at its start.  Every table is
    in front of the frames it describes; with up to 8191 usable regions the parent
    table overlaps neither another table nor a managed frame. *)
Theorem setup_pmm_correct mm hhdm :
  memmap_ok mm → off_ok (kernel0 hhdm) →
  ∃ k, setup_pmm mm (kernel0 hhdm) = Ok (tt, k) ∧ (∃ l, pmm_inv l k) ∧
    k_locks k = ∅ ∧ cr8 (k_cpu k) = IRQL_PASSIVE ∧
    shape <$> tables k = omap (region_shape hhdm (parent_base mm) (parent_bytes mm)) mm ∧
    (∀ p, is_Some (pstate (tables k) p) ↔ managed mm p) ∧ (∀ p, pstate (tables k) p ≠ Some PAGE_USED) ∧
    (∀ i c, tables k !! i = Some c →
       ∃ e, e ∈ mm ∧ usable_region e = true ∧ carved (k_hhdm k) e c ∧
         (parent_bytes mm <= 65536 → parent_base mm + parent_bytes mm <= table_phys (k_hhdm k) c ∨ end_ c <= parent_base mm)).
Proof.
  intros Hmm Hoff. destruct (wp_inv _ _ _ (setup_pmm_spec mm hhdm Hmm Hoff)) as ([] & k & Hr & [l Hi] & Hs & Hc & Hsh & Hu).
  exists k. split_and!; try done.
  - by exists l.
  - apply Hs.
  - by rewrite (sr_cpu _ _ Hs).
  - by apply (managed_shape mm hhdm k l).
  - intros i c Hic. destruct (Hc i c Hic) as (e & He & Hus & Hcar). exists e. split_and!; try done. intros Hps.
    assert (∃ e', e' ∈ mm ∧ usable_region e' = true ∧ c_addr c = u64 (table_base (parent_base mm) (parent_bytes mm) e' + hhdm) ∧ end_ c = base e' + length_ e') as (e' & He' & Hus' & Ha & Hen).
    { assert (shape c ∈ shape <$> tables k) as Hin by (by eapply list_elem_of_fmap_2, list_elem_of_lookup_2).
      rewrite Hsh in Hin. apply list_elem_of_omap in Hin as (e' & He' & Hr'). exists e'. unfold region_shape in Hr'.
      destruct (usable_region e'); [|done]. cbn [andb] in Hr'. destruct (_ <? _) eqn:Hlt; [|done]. by injection Hr' as -> _ -> _. }
    destruct (parent_apart mm e' Hmm Hps He' Hus') as [H|H]; [left|right; by rewrite Hen].
    unfold table_phys. rewrite (sr_hhdm _ _ Hs), Ha, u64_sub_l. cbn [k_hhdm kernel0].
    replace (_ + hhdm - hhdm) with (table_base (parent_base mm) (parent_bytes mm) e') by lia.
    apply list_elem_of_lookup in He' as [j Hj]. pose proof (mm_entry _ Hmm j e' Hj Hus'). rewrite u64_id; [done|].
    pose proof (usable_length e' (mm_entry _ Hmm j e' Hj Hus') Hus'). pose proof (parent_bytes_range mm Hmm).
    unfold is_u64, table_base. destruct (_ =? _); lia.
Qed.

(** * Allocation order *)

Lemma allocate_page_head l k p :
  pmm_inv (p :: l) k → can_lock pmm_spinlock k →
  ∃ i c, tables k !! i = Some c ∧ in_child c p ∧
    allocate_page k = Ok (p, restored k (taken (locked pmm_spinlock k) (ref_of c i p) p (read64 (k_mem k) p))).
Proof.
  intros Hinv Hlock. set (k0 := locked pmm_spinlock k).
  assert (pmm_inv (p :: l) k0) as Hinv0 by (by apply locked_inv).
  destruct (taken_free_state l k p Hinv) as [Hal Hst].
  destruct (pstate_inv _ _ _ Hst) as (i & c & Hi & Hc). exists i, c. split_and!; [done..|].
  rewrite allocate_page_split. rewrite (bind_ok _ _ _ _ _ (spinlock_lock_ok _ _ Hlock)).
  fold k0. unfold bind at 1. unfold bind at 1, gets at 1.
  rewrite (head_is_null _ k0 Hinv0), bool_decide_eq_false_2 by done. cbn [ret].
  rewrite (allocate_tail_run l k0 i c p) by done.
  rewrite (bind_ok _ _ _ tt (restored k (taken k0 (ref_of c i p) p (read64 (k_mem k) p)))); [done|].
  by apply spinlock_unlock_balanced; [|by apply (taken_allocated l k0 i c)].
Qed.

(** Round trip: the frame given back last is the frame handed out next;
    it comes back zeroed and every other frame keeps its state and contents. *)
Theorem free_then_allocate l k p :
  pmm_inv l k → can_lock pmm_spinlock k → p mod 4096 = 0 → pstate (tables k) p = Some PAGE_USED →
  ∃ k1 k2, free_page p k = Ok (tt, k1) ∧ allocate_page k1 = Ok (p, k2) ∧ pmm_inv l k2 ∧
    (∀ q, pstate (tables k2) q = pstate (tables k) q) ∧
    (∀ x, read8 (k_mem k2) x = if x / 4096 =? p / 4096 then 0 else read8 (k_mem k) x).
Proof.
  intros Hinv Hlock Hal Hst.
  destruct (wp_inv _ _ _ (free_page_spec l k p Hinv Hlock Hal Hst)) as ([] & k1 & Hr1 & Hrel & Hinv1).
  assert (can_lock pmm_spinlock k1) as Hlock1 by (eapply can_lock_same_rest; [apply Hrel|done]).
  destruct (allocate_page_head l k1 p Hinv1 Hlock1) as (i & c & Hi & Hc & Hr2).
  set (k2 := restored k1 _) in Hr2. exists k1, k2.
  pose proof (locked_inv pmm_spinlock _ _ Hinv1) as Hinv1'.
  pose proof (taken_allocated l _ i c p Hinv1' Hi Hc (read64 (k_mem k1) p)) as Hall.
  pose proof (inv_tables _ _ Hinv) as Hok. pose proof (inv_tables _ _ Hinv1) as Hok1.
  split_and!; [done|done|apply restored_inv, (taken_inv l _ i c p Hinv1' Hi Hc)|..].
  - intros q. change (tables k2) with (upd_page (tables k1) (ref_of c i p) PAGE_USED).
    rewrite (pstate_upd _ i c) by done. destruct (Z.eqb_spec (p / 4096) (q / 4096)) as [E|E].
    + rewrite <- Hst. by apply pstate_page.
    + apply Hrel. lia.
  - intros x. destruct (Z.eqb_spec (x / 4096) (p / 4096)) as [E|E]; [by apply Hall|].
    rewrite <- (re_mem _ _ _ Hrel x E). cbn. apply read8_memset_out.
    unfold PAGE_SIZE. Z.div_mod_to_equations. lia.
Qed.

(** * The page database and addresses *)

(** The state of the database after boot with the map [mm]. *)
Definition from_map (mm : list memmap_entry) (k : kernel) : Prop :=
  ∀ i c, tables k !! i = Some c → ∃ e, e ∈ mm ∧ usable_region e = true ∧ carved (k_hhdm k) e c.

Section page_ptrs.
Context (mm : list memmap_entry) (l : list Z) (k : kernel).
Context (Hmm : memmap_ok mm) (Hinv : pmm_inv l k) (Hfrom : from_map mm k).
Set Default Proof Using "All".

Lemma table_address i c :
  tables k !! i = Some c → c_addr c = table_phys (k_hhdm k) c + k_hhdm k ∧ 0 <= table_phys (k_hhdm k) c.
Proof.
  intros Hi. destruct (Hfrom i c Hi) as (e & _ & _ & Hu & Hb & Ht & He).
  destruct (proj1 (inv_tables _ _ Hinv) i c Hi) as (_ & _ & Hse & Hmax & Hn & Hl).
  destruct (inv_off _ _ Hinv) as [Ho1 Ho2]. unfold table_phys in *.
  pose proof (u64_range (c_addr c - k_hhdm k)) as Hr. unfold is_u64 in *. split; [|lia].
  destruct (Z.le_gt_cases (k_hhdm k) (c_addr c)).
  - rewrite u64_id by (unfold is_u64; lia). lia.
  - exfalso. unfold u64 in Ht.
    rewrite <- (Z.mod_add _ 1 (2 ^ 64)), Z.mod_small in Ht by lia. lia.
Qed.

Lemma page_ptr_eq i c j :
  tables k !! i = Some c → 0 <= j <= num_pages c → page_ptr c j = c_addr c + 24 + 4 * j.
Proof.
  intros Hi Hj. destruct (table_address i c Hi) as [Ha Ht].
  destruct (Hfrom i c Hi) as (e & _ & _ & Hu & Hb & Hs & He).
  destruct (proj1 (inv_tables _ _ Hinv) i c Hi) as (_ & _ & Hse & Hmax & Hn & Hl).
  destruct (inv_off _ _ Hinv). unfold page_ptr. apply u64_id. unfold is_u64. lia.
Qed.

(** The tables of different regions do not overlap. *)
Lemma tables_apart i j ci cj :
  tables k !! i = Some ci → tables k !! j = Some cj → i ≠ j →
  c_addr ci + 24 + 4 * num_pages ci <= c_addr cj ∨ c_addr cj + 24 + 4 * num_pages cj <= c_addr ci.
Proof.
  intros Hi Hj Hne.
  destruct (table_address i ci Hi) as [Hai _], (table_address j cj Hj) as [Haj _].
  destruct (Hfrom i ci Hi) as (ei & Hei & Hui & _ & Hbi & Hsi & Hndi).
  destruct (Hfrom j cj Hj) as (ej & Hej & Huj & _ & Hbj & Hsj & Hndj).
  pose proof (inv_tables _ _ Hinv) as Hok.
  destruct (proj1 Hok i ci Hi) as (_ & _ & Hsei & _), (proj1 Hok j cj Hj) as (_ & _ & Hsej & _).
  apply list_elem_of_lookup in Hei as [n Hn], Hej as [m Hm].
  destruct (decide (n = m)) as [->|Hnm].
  - exfalso. rewrite Hn in Hm. injection Hm as ->.
    destruct (proj2 Hok i j ci cj Hi Hj Hne); lia.
  - destruct (mm_apart _ Hmm n m ei ej Hn Hm Hnm Hui Huj); lia.
Qed.
End page_ptrs.

(** Round trip of the page-frame database: the [page_t] that
    [get_page_info] finds for a managed address maps back, through
    [get_phys_addr_from_page_info], to the start of the frame of that address. *)
Theorem page_info_roundtrip mm l k p st :
  memmap_ok mm → pmm_inv l k → from_map mm k → pstate (tables k) p = Some st →
  ∃ i c j, tables k !! i = Some c ∧
    get_page_info p k = Ok (Some (i, j), k) ∧
    get_phys_addr_from_page_info (page_ptr c (Z.of_nat j)) k = Ok (p - p mod 4096, k).
Proof.
  intros Hmm Hinv Hfrom Hst. pose proof (inv_tables _ _ Hinv) as Hok.
  destruct (pstate_inv _ _ _ Hst) as (i & c & Hi & Hc).
  destruct (proj1 Hok i c Hi) as (Hs & He & Hse & Hmax & Hn & Hl).
  pose proof (child_index c p (proj1 Hok i c Hi) Hc) as [Hidx _].
  exists i, c, (Z.to_nat ((p - start c) / 4096)). split_and!; [done|by apply (get_page_info_managed l)|].
  rewrite Z2Nat.id by lia. set (j := (p - start c) / 4096) in *.
  unfold get_phys_addr_from_page_info, gets. rewrite (live_tables_eq l k Hinv). do 2 f_equal.
  rewrite (page_ptr_eq mm l k Hmm Hinv Hfrom i c j) by (done || lia).
  assert (u64 (start c + u64 (j * PAGE_SIZE)) = p - p mod 4096) as Hres.
  { unfold PAGE_SIZE. rewrite (u64_id (j * 4096)) by (unfold is_u64; subst j; Z.div_mod_to_equations; lia).
    destruct Hc. rewrite u64_id by (unfold is_u64; subst j; Z.div_mod_to_equations; lia).
    subst j. Z.div_mod_to_equations. lia. }
  assert (∀ n ts, (∀ i', ts !! i' = tables k !! (n + i')%nat) → (n <= i)%nat →
    phys_of_page_loop ts (c_addr c + 24 + 4 * j) = p - p mod 4096) as Hloop.
  { intros n ts. revert n. induction ts as [|c0 ts IH]; intros n Hts Hni.
    - specialize (Hts (i - n)%nat). replace (n + (i - n))%nat with i in Hts by lia. rewrite Hi in Hts. done.
    - assert (tables k !! n = Some c0) as Hc0 by (specialize (Hts 0%nat); rewrite Nat.add_0_r in Hts; done).
      destruct (proj1 Hok n c0 Hc0) as (_ & _ & ? & _ & ? & ?).
      cbn [phys_of_page_loop]. rewrite !(page_ptr_eq mm l k Hmm Hinv Hfrom n c0) by (done || lia).
      destruct (decide (n = i)) as [->|Hne].
      + rewrite Hi in Hc0. injection Hc0 as <-.
        rewrite (proj2 (Z.leb_le _ _)), (proj2 (Z.ltb_lt _ _)) by lia. cbn [andb].
        replace (c_addr c + 24 + 4 * j - (c_addr c + 24 + 4 * 0)) with (j * 4) by lia.
        by rewrite Z.div_mul by lia.
      + pose proof (tables_apart mm l k Hmm Hinv Hfrom n i c0 c Hc0 Hi Hne).
        destruct (Z.leb_spec (c_addr c0 + 24 + 4 * 0) (c_addr c + 24 + 4 * j)),
          (Z.ltb_spec (c_addr c + 24 + 4 * j) (c_addr c0 + 24 + 4 * num_pages c0)); cbn [andb]; try lia;
        (apply (IH (S n)); [intros i'; etransitivity; [apply (Hts (S i'))|f_equal; lia]|lia]). }
  apply (Hloop 0%nat); [done|lia].
Qed.

(** * A booted kernel

    Two usable regions around a reserved one; used to evaluate the
    definitions and to show that the hypotheses of the theorems can be met. *)
Module Booted.
Definition hhdm : Z := 0xffff800000000000.
Definition memmap : list memmap_entry :=
  [mk_entry 0x1000 0x40000 LIMINE_MEMMAP_USABLE;
   mk_entry 0x100000 0x80000 LIMINE_MEMMAP_RESERVED;
   mk_entry 0x200000 0x20000 LIMINE_MEMMAP_USABLE].

Definition kernel1 : kernel :=
  match setup_pmm memmap (kernel0 hhdm) with Ok (_, k) => k | _ => kernel0 hhdm end.

Lemma memmap_sane : memmap_ok memmap.
Proof.
  split; [| |done|done].
  - intros [|[|[|i]]] e He Hu; cbn in He; [injection He as <-; cbn..|done]; cbn in *; try done;
      (split_and!; vm_compute; congruence).
  - intros [|[|[|i]]] [|[|[|j]]] e1 e2 H1 H2 Hne U1 U2; cbn in H1, H2; try done;
      injection H1 as <-; injection H2 as <-; cbn in *; try done; lia.
Qed.

Lemma off_sane : off_ok (kernel0 hhdm).
Proof. split; reflexivity || (cbn; unfold hhdm; lia). Qed.

Lemma kernel1_ok :
  (∃ l, pmm_inv l kernel1) ∧ same_rest (kernel0 hhdm) kernel1 ∧ from_map memmap kernel1.
Proof.
  destruct (wp_inv _ _ _ (setup_pmm_spec memmap hhdm memmap_sane off_sane)) as (u & k & Hr & Hi & Hs & Hf & _).
  unfold kernel1. rewrite Hr. split_and!; [exact Hi|exact Hs|exact Hf].
Qed.

#[global] Opaque kernel1.

Lemma kernel1_can_lock lk : can_lock lk kernel1.
Proof.
  destruct kernel1_ok as (_ & Hs & _). apply (can_lock_same_rest lk (kernel0 hhdm)); [done|].
  split; [cbn; unfold IRQL_DISPATCH; lia|]. cbn. apply not_elem_of_empty.
Qed.

(** A frame that is free and one that is in use after one allocation. *)
Definition free_frame : Z := 0x21f000.
Lemma free_frame_available : available kernel1 free_frame.
Proof. left. vm_compute. reflexivity. Qed.

Definition kernel2 : kernel :=
  match allocate_page kernel1 with Ok (_, k) => k | _ => kernel1 end.
Lemma kernel2_ok :
  (∃ l, pmm_inv l kernel2) ∧ same_rest kernel1 kernel2 ∧ (∀ lk, can_lock lk kernel2).
Proof.
  destruct kernel1_ok as ([l Hl] & _ & _).
  destruct (wp_inv _ _ _ (allocate_page_spec l kernel1 Hl (kernel1_can_lock _)
    (ex_intro _ _ free_frame_available))) as (p & k & Hr & Hall & Hl').
  unfold kernel2. rewrite Hr. split_and!; [exact Hl'|apply Hall|].
  intros lk. eapply can_lock_same_rest; [apply Hall|apply kernel1_can_lock].
Qed.
#[global] Opaque kernel2.

Lemma used_frame : pstate (tables kernel2) free_frame = Some PAGE_USED.
Proof. vm_compute. reflexivity. Qed.
End Booted.

(** * The hypotheses of the theorems hold on the booted kernel *)

Module Exhausted.
(** One region of one frame, in use. *)
Definition child : pmm_child_table_t :=
  mk_child Booted.hhdm 0x1000 0x2000 1 [PAGE_USED].
Definition kern : kernel :=
  set_pmm (kernel0 Booted.hhdm) (mk_pmm Booted.hhdm 0 (mk_parent 1 [child]) 1 1 1 0).

Lemma kern_tables : tables_ok (tables kern).
Proof.
  split.
  - intros [|i] c Hc; [|done]. injection Hc as <-. by vm_compute; split_and!.
  - intros [|i] [|j] ci cj Hi Hj Hne; done.
Qed.

Lemma kern_state p st : pstate (tables kern) p = Some st → st = PAGE_USED.
Proof.
  cbn. destruct (_ && _); [|done].
  destruct (Z.to_nat _) as [|[|n]]; cbn; congruence.
Qed.

Lemma kern_inv : pmm_inv [] kern.
Proof.
  split; try done; try (cbn; unfold Booted.hhdm; lia).
  - apply kern_tables.
  - constructor.
  - intros p. split; [by intros ?%not_elem_of_nil|]. intros [_ Hst]. by apply kern_state in Hst.
  - split_and!; try (cbn; lia).
    + intros c Hc. done.
    + intros [|i] [|j] st Hst; cbn in Hst; try done. injection Hst as <-. split; [done|cbn; lia].
Qed.

Lemma kern_lock lk : can_lock lk kern.
Proof. split; [cbn; unfold IRQL_DISPATCH; lia|apply not_elem_of_empty]. Qed.

Lemma kern_full q : ¬ available kern q.
Proof. by intros [H|H]; apply kern_state in H. Qed.
End Exhausted.

Lemma allocate_page_correct_witness :
  ∃ l p k', pmm_inv l Booted.kernel1 ∧ allocate_page Booted.kernel1 = Ok (p, k') ∧
    allocated p Booted.kernel1 k'.
Proof.
  destruct Booted.kernel1_ok as ([l Hl] & _).
  destruct (allocate_page_correct l Booted.kernel1 Hl (Booted.kernel1_can_lock _)
    (ex_intro _ _ Booted.free_frame_available)) as (p & k' & H1 & H2 & _).
  exists l, p, k'. split; [exact Hl|split; [exact H1|exact H2]].
Defined.

Lemma allocate_page_out_of_memory_witness :
  pmm_inv [] Exhausted.kern ∧ allocate_page Exhausted.kern = Panic "PMM: out of memory".
Proof.
  split; [exact Exhausted.kern_inv|].
  exact (allocate_page_out_of_memory [] Exhausted.kern Exhausted.kern_inv
    (Exhausted.kern_lock _) Exhausted.kern_full).
Defined.

Lemma free_page_correct_witness :
  ∃ l k', pmm_inv l Booted.kernel2 ∧ free_page Booted.free_frame Booted.kernel2 = Ok (tt, k') ∧
    released Booted.free_frame Booted.kernel2 k'.
Proof.
  destruct Booted.kernel2_ok as ([l Hl] & _ & Hlock).
  destruct (free_page_correct l Booted.kernel2 Booted.free_frame Hl (Hlock _) eq_refl Booted.used_frame)
    as (k' & H1 & H2 & _).
  exists l, k'. split; [exact Hl|split; [exact H1|exact H2]].
Defined.

Lemma free_page_error_paths_witness :
  pstate (tables Booted.kernel1) Booted.free_frame = Some PAGE_FREE ∧
  free_page Booted.free_frame Booted.kernel1 = Panic "PMM: attempted to double free".
Proof.
  assert (pstate (tables Booted.kernel1) Booted.free_frame = Some PAGE_FREE) as Hst
    by (vm_compute; reflexivity).
  split; [exact Hst|]. destruct Booted.kernel1_ok as ([l Hl] & _).
  exact (proj1 (free_page_error_paths l Booted.kernel1 Booted.free_frame Hl
    (Booted.kernel1_can_lock _)) Hst).
Defined.

Lemma free_page_region_end_panics_witness :
  free_page 0x2000 Exhausted.kern =
    Panic "PMM: attempted to get info on out of bounds page that was meant to be in range".
Proof.
  exact (proj2 (free_page_region_end_panics [] Exhausted.kern 0 Exhausted.child Exhausted.kern_inv
    (Exhausted.kern_lock _) eq_refl)).
Defined.

Lemma setup_pmm_correct_witness :
  memmap_ok Booted.memmap ∧ ∃ k l, setup_pmm Booted.memmap (kernel0 Booted.hhdm) = Ok (tt, k) ∧ pmm_inv l k.
Proof.
  split; [exact Booted.memmap_sane|].
  destruct (setup_pmm_correct Booted.memmap Booted.hhdm Booted.memmap_sane Booted.off_sane)
    as (k & Hr & [l Hl] & _).
  exists k, l. split; [exact Hr|exact Hl].
Defined.

Lemma free_then_allocate_witness :
  ∃ k1 k2, free_page Booted.free_frame Booted.kernel2 = Ok (tt, k1) ∧
    allocate_page k1 = Ok (Booted.free_frame, k2).
Proof.
  destruct Booted.kernel2_ok as ([l Hl] & _ & Hlock).
  destruct (free_then_allocate l Booted.kernel2 Booted.free_frame Hl (Hlock _) eq_refl Booted.used_frame)
    as (k1 & k2 & H1 & H2 & _).
  exists k1, k2. split; [exact H1|exact H2].
Defined.

Lemma page_info_roundtrip_witness :
  ∃ i c j, get_page_info Booted.free_frame Booted.kernel1 = Ok (Some (i, j), Booted.kernel1) ∧
    get_phys_addr_from_page_info (page_ptr c (Z.of_nat j)) Booted.kernel1 =
      Ok (Booted.free_frame, Booted.kernel1).
Proof.
  assert (pstate (tables Booted.kernel1) Booted.free_frame = Some PAGE_FREE) as Hst
    by (vm_compute; reflexivity).
  destruct Booted.kernel1_ok as ([l Hl] & _ & Hfrom).
  destruct (page_info_roundtrip Booted.memmap l Booted.kernel1 Booted.free_frame PAGE_FREE
    Booted.memmap_sane Hl Hfrom Hst) as (i & c & j & _ & H1 & H2).
  exists i, c, j. split; [exact H1|exact H2].
Defined.
