(* ===== verification/Heap.v ===== *)
(** The slab allocator of [memory/heap.c].  Slab headers and the free objects
    live in memory; a header occupies the first 32 bytes of its page:
    [other_slabs] at 0, [obj_size] at 8, [obj_am] at 16, [objects] at 24.

    At the end the small path of [malloc], [free] and [zalloc] ([libc/stdlib.c]):
    blocks of at most 1024 bytes with a 16-byte header, taken from the slab heap.
    The large path needs the page tables and the address-space allocator, which
    themselves use the small path only; it is in [Libc]. *)
From stdpp Require Import base tactics list gmap sets strings.
From Stdlib Require Import ZArith Lia.
From S2P Require Import Prelude Bits State Spinlock Pmm.

Definition SLAB_HEADER_SIZE : Z := 32.

Definition other_slabs (slab : Z) : Z := u64 slab.
Definition obj_size (slab : Z) : Z := u64 (slab + 8).
Definition obj_am (slab : Z) : Z := u64 (slab + 16).
Definition objects (slab : Z) : Z := u64 (slab + 24).

(** The loop that threads the free list through the objects: rounds
    [i, i + 1, ..., i + n - 1]. *)
Fixpoint new_slab_loop (n : nat) (i slab osize prev_obj : Z) : M kernel Z :=
  match n with
  | O => ret prev_obj
  | S n' =>
      let new_ob := u64 (slab + SLAB_HEADER_SIZE + i * osize) in
      store64 new_ob prev_obj ;;;
      new_slab_loop n' (i + 1) slab osize new_ob
  end.

Definition new_slab (osize : Z) : M kernel Z :=
  let* page := allocate_page in
  let* off := gets k_hhdm in
  let slab := u64 (page + off) in
  store64 (obj_size slab) osize ;;;
  let am := (PAGE_SIZE - SLAB_HEADER_SIZE) / osize in
  store64 (obj_am slab) am ;;;
  let prev_obj := u64 (slab + SLAB_HEADER_SIZE) in
  let* prev_obj := new_slab_loop (Z.to_nat (am - 1)) 1 slab osize prev_obj in
  store64 (objects slab) prev_obj ;;;
  ret slab.

(** One round of [while (true)] in [allocate_with_slab]. *)
Definition allocate_with_slab_round (slab : Z) : M kernel (Z + Z) :=
  let* objs := load64 (objects slab) in
  if negb (objs =? 0) then
    let* next := load64 objs in
    if negb (next =? 0) then
      store64 (objects slab) next ;;;
      let* am := load64 (obj_am slab) in
      store64 (obj_am slab) (u64 (am - 1)) ;;;
      ret (inr objs)
    else
      let* am := load64 (obj_am slab) in
      store64 (obj_am slab) (u64 (am - 1)) ;;;
      store64 (objects slab) 0 ;;;
      ret (inr objs)
  else
    let* other := load64 (other_slabs slab) in
    if negb (other =? 0) then ret (inl other)
    else
      let* osize := load64 (obj_size slab) in
      let* new_sl := new_slab osize in
      store64 (other_slabs slab) new_sl ;;;
      ret (inl new_sl).

Definition allocate_with_slab (slab : Z) : M kernel Z :=
  while_ allocate_with_slab_round slab.

Definition init_slabcache (obj_si : Z) : M kernel slab_cache :=
  let* new_sl := new_slab obj_si in
  ret (mk_cache obj_si new_sl).

Definition set_cache (i : nat) (c : slab_cache) : M kernel unit :=
  modify (λ k, set_heap k (<[i := c]> (k_heap k))).

Definition setup_heap : M kernel unit :=
  let* c := init_slabcache 32 in set_cache 0 c ;;;
  let* c := init_slabcache 64 in set_cache 1 c ;;;
  let* c := init_slabcache 128 in set_cache 2 c ;;;
  let* c := init_slabcache 256 in set_cache 3 c ;;;
  let* c := init_slabcache 512 in set_cache 4 c ;;;
  let* c := init_slabcache 1024 in set_cache 5 c.

Fixpoint kmalloc_loop (caches : list slab_cache) (sz : Z) : M kernel Z :=
  match caches with
  | [] => panic "no mem"
  | c :: caches' =>
      if sz <=? sc_size c then allocate_with_slab (sc_slabs c) else kmalloc_loop caches' sz
  end.

Definition kmalloc (sz : Z) : M kernel Z :=
  let* caches := gets k_heap in
  kmalloc_loop caches sz.

(** [hea = ptr & ~0xFFF] *)
Definition kfree (ptr : Z) : M kernel unit :=
  if ptr =? 0 then ret tt else
  let hea := ALIGN_DOWN ptr PAGE_SIZE in
  let* osize := load64 (obj_size hea) in
  memset ptr 0 osize ;;;
  let* objs := load64 (objects hea) in
  if objs =? 0 then
    store64 (objects hea) ptr ;;;
    let* am := load64 (obj_am hea) in
    store64 (obj_am hea) (u64 (am + 1))
  else
    store64 ptr objs ;;;
    store64 (objects hea) ptr ;;;
    let* am := load64 (obj_am hea) in
    store64 (obj_am hea) (u64 (am + 1)).

(** * The small path of [malloc] *)

(** [malloc] when [size <= 1024]. *)
Definition malloc_small (size : Z) : M kernel Z :=
  let* r := spinlock_lock slab_memlock in
  let* block := kmalloc (u64 (size + 16)) in
  store64 block size ;;;
  spinlock_unlock slab_memlock r ;;;
  ret (u64 (block + 16)).

(** [free] when the block's size is at most 1024. *)
Definition free_small (ptr : Z) : M kernel unit :=
  let* r := spinlock_lock slab_memlock in
  kfree (u64 (ptr - 16)) ;;;
  spinlock_unlock slab_memlock r.

(** [zalloc] of a small block. *)
Definition zalloc_small (size : Z) : M kernel Z :=
  let* ptr := malloc_small size in
  memset ptr 0 size ;;;
  ret ptr.
