(* ===== verification/FrameAlloc.v ===== *)
(** The interface between the frame allocator and its clients (the slab heap,
    the page tables): what [allocate_page] and [free_page] promise, as a
    class, and the physical memory manager as its instance. *)
From stdpp Require Import base tactics list gmap sets strings.
From Stdlib Require Import ZArith Lia.
From S2P Require Import Prelude Bits State Spinlock Pmm PmmInv.

(** [owns k x]: the byte at physical address [x] belongs to the allocator. *)
Record handed_out (owns : kernel → Z → Prop) (p : Z) (k k' : kernel) : Prop := mk_handed_out {
  ho_rest : same_rest k k';
  ho_aligned : p mod 4096 = 0;
  ho_was : owns k p;
  ho_owns : ∀ x, owns k' x ↔ owns k x ∧ x / 4096 ≠ p / 4096;
  ho_zero : ∀ x, x / 4096 = p / 4096 → read8 (k_mem k') x = 0;
  ho_mem : ∀ x, ¬ owns k x → read8 (k_mem k') x = read8 (k_mem k) x
}.

Record taken_back (owns : kernel → Z → Prop) (p : Z) (k k' : kernel) : Prop := mk_taken_back {
  tb_rest : same_rest k k';
  tb_owns : ∀ x, owns k' x ↔ owns k x ∨ x / 4096 = p / 4096;
  tb_mem : ∀ x, x / 4096 ≠ p / 4096 → read8 (k_mem k') x = read8 (k_mem k) x
}.

Class FrameAllocator (alloc : M kernel Z) (release : Z → M kernel unit) : Type := {
  fa_inv : kernel → Prop;
  fa_owns : kernel → Z → Prop;
  (** frames a client may give back *)
  fa_lent : kernel → Z → Prop;
  fa_hhdm : ∀ k, fa_inv k → 0 < k_hhdm k ∧ k_hhdm k + 2 ^ 46 <= 2 ^ 64;
  fa_range : ∀ k x, fa_inv k → fa_owns k x → 0 < x < 2 ^ 46;
  fa_page : ∀ k x y, fa_inv k → x / 4096 = y / 4096 → fa_owns k x → fa_owns k y;
  fa_lent_range : ∀ k x, fa_inv k → fa_lent k x → 0 < x < 2 ^ 46 ∧ ¬ fa_owns k x;
  fa_lent_page : ∀ k x y, fa_inv k → x / 4096 = y / 4096 → fa_lent k x → fa_lent k y;
  (** the allocator depends on the memory it owns only *)
  fa_frame : ∀ k k', fa_inv k →
    k_hhdm k' = k_hhdm k → k_pmm k' = k_pmm k →
    (∀ x, fa_owns k x → read8 (k_mem k') x = read8 (k_mem k) x) →
    fa_inv k' ∧ (∀ x, fa_owns k' x ↔ fa_owns k x) ∧ (∀ x, fa_lent k' x ↔ fa_lent k x);
  fa_alloc : ∀ k, fa_inv k → can_lock pmm_spinlock k → (∃ q, fa_owns k q) →
    wp alloc k (λ p k', fa_inv k' ∧ handed_out fa_owns p k k' ∧
      (∀ x, fa_lent k' x ↔ fa_lent k x ∨ x / 4096 = p / 4096));
  fa_release : ∀ k p, fa_inv k → can_lock pmm_spinlock k → p mod 4096 = 0 → fa_lent k p →
    wp (release p) k (λ _ k', fa_inv k' ∧ taken_back fa_owns p k k' ∧
      (∀ x, fa_lent k' x ↔ fa_lent k x ∧ x / 4096 ≠ p / 4096))
}.

(** * The physical memory manager implements it *)

Lemma pmm_inv_frame l k k' :
  k_hhdm k' = k_hhdm k → k_pmm k' = k_pmm k →
  (∀ x, available k x → read8 (k_mem k') x = read8 (k_mem k) x) →
  pmm_inv l k → pmm_inv l k'.
Proof.
  intros Hh Hp Hm Hinv. pose proof (inv_tables l k Hinv) as Hok. pose proof (inv_free l k Hinv) as Hfree.
  destruct Hinv. unfold tables in *. split; unfold tables; rewrite ?Hh, ?Hp; try done.
  eapply chain_ext; [|done]. intros p Hin. apply le_read_ext. intros x Hx. apply Hm. left.
  apply Hfree in Hin as [Hal Hst]. unfold tables. rewrite <- Hst. apply pstate_page; [done|].
  Z.div_mod_to_equations. lia.
Qed.

Lemma pmm_frame_owns k k' x : k_pmm k' = k_pmm k → available k' x ↔ available k x.
Proof. intros H. unfold available, tables. by rewrite H. Qed.

Lemma available_page k x y l :
  pmm_inv l k → x / 4096 = y / 4096 → available k x → available k y.
Proof. intros Hinv Hxy. unfold available. by rewrite (pstate_page _ x y (inv_tables l k Hinv) Hxy). Qed.

Lemma allocated_handed_out l l' p k k' :
  pmm_inv l k → pmm_inv l' k' → allocated p k k' → handed_out available p k k'.
Proof.
  intros Hinv Hinv' [R Sh A W N O Z0 Mm]. split; try done. intros x.
  destruct (decide (x / 4096 = p / 4096)) as [Heq|Hne].
  - split; [|naive_solver]. intros Hx. exfalso.
    unfold available in Hx. rewrite (pstate_page _ x p (inv_tables _ _ Hinv') Heq), N in Hx. naive_solver.
  - unfold available. destruct (O x Hne) as [->|[-> ->]]; naive_solver.
Qed.

Lemma used_after_alloc l l' p k k' x :
  pmm_inv l k → pmm_inv l' k' → allocated p k k' →
  pstate (tables k') x = Some PAGE_USED ↔ pstate (tables k) x = Some PAGE_USED ∨ x / 4096 = p / 4096.
Proof.
  intros Hinv Hinv' [R Sh A W N O Z0 Mm]. destruct (decide (x / 4096 = p / 4096)) as [Heq|Hne].
  - rewrite (pstate_page _ x p (inv_tables _ _ Hinv') Heq), N. naive_solver.
  - destruct (O x Hne) as [->|[-> ->]]; naive_solver.
Qed.

#[export, refine] Instance pmm_allocator : FrameAllocator allocate_page free_page := {
  fa_inv k := ∃ l, pmm_inv l k;
  fa_owns := available;
  fa_lent k p := pstate (tables k) p = Some PAGE_USED
}.
Proof.
  - intros k [l Hinv]. apply (inv_off l k Hinv).
  - intros k x [l Hinv] [H|H]; apply (pstate_range _ _ _ (inv_tables l k Hinv) H).
  - intros k x y [l Hinv]. by apply (available_page k x y l).
  - intros k x [l Hinv] H. split; [apply (pstate_range _ _ _ (inv_tables l k Hinv) H)|].
    unfold available. naive_solver.
  - intros k x y [l Hinv] Hxy. by rewrite (pstate_page _ x y (inv_tables l k Hinv) Hxy).
  - intros k k' [l Hinv] Hh Hp Hm. split_and!.
    + exists l. by apply (pmm_inv_frame l k k').
    + intros x. by apply pmm_frame_owns.
    + intros x. unfold tables. by rewrite Hp.
  - intros k [l Hinv] Hlock Hex. eapply wp_mono; [by apply (allocate_page_spec l)|].
    intros p k' (Hal & l' & Hinv'). split_and!; [by exists l'|by eapply allocated_handed_out|].
    intros x. by eapply used_after_alloc.
  - intros k p [l Hinv] Hlock Hal Hst. eapply wp_mono; [by apply (free_page_spec l)|].
    intros _ k' [[R Sh N O Mm] Hinv']. pose proof (inv_tables _ _ Hinv') as Hok'.
    split_and!; [by exists (p :: l)|split; [done| |done]|].
    + intros x. unfold available. destruct (decide (x / 4096 = p / 4096)) as [Heq|Hne].
      * rewrite (pstate_page _ x p Hok' Heq), N. naive_solver.
      * rewrite (O x Hne). naive_solver.
    + intros x. destruct (decide (x / 4096 = p / 4096)) as [Heq|Hne].
      * rewrite (pstate_page _ x p Hok' Heq), N. naive_solver.
      * rewrite (O x Hne). naive_solver.
Defined.

(** * Counting free frames *)

Lemma filter_not_in (p : Z) (l : list Z) : p ∉ l → filter (λ q, q ≠ p) l = l.
Proof.
  induction l as [|q l IH]; intros Hp; [done|]. apply not_elem_of_cons in Hp as [Hpq Hp].
  rewrite filter_cons, decide_True by done. by rewrite IH.
Qed.

Section enough.
Context {alloc : M kernel Z} {release : Z → M kernel unit} {FA : FrameAllocator alloc release}.

(** At least [n] frames are left. *)
Definition enough (n : Z) (k : kernel) : Prop :=
  ∃ l : list Z, NoDup l ∧ n <= Z.of_nat (length l) ∧ ∀ p, p ∈ l → p mod 4096 = 0 ∧ fa_owns k p.

Lemma enough_some n k : 0 < n → enough n k → ∃ q, fa_owns k q.
Proof.
  intros Hn ([|p l] & _ & Hlen & Hl); [cbn in Hlen; lia|]. exists p. apply Hl, elem_of_cons. by left.
Qed.

Lemma enough_mono n m k : m <= n → enough n k → enough m k.
Proof. intros Hmn (l & ? & ? & ?). exists l. split_and!; [done|lia|done]. Qed.

Lemma enough_owns n k k' : (∀ x, fa_owns k' x ↔ fa_owns k x) → enough n k → enough n k'.
Proof. intros Hio (l & ? & ? & Hl). exists l. split_and!; [done..|]. intros p Hp. rewrite Hio. auto. Qed.

Lemma enough_handed_out n p k k' :
  p mod 4096 = 0 → (∀ x, fa_owns k' x ↔ fa_owns k x ∧ x / 4096 ≠ p / 4096) →
  enough n k → enough (n - 1) k'.
Proof.
  intros Hp Hho (l & Hnd & Hlen & Hl). exists (filter (λ q, q ≠ p) l). split_and!.
  - by apply NoDup_filter.
  - assert (length l <= S (length (filter (λ q, q ≠ p) l)))%nat; [|lia].
    clear Hlen Hl. induction Hnd as [|q l Hq Hnd IH]; [cbn; lia|]. rewrite filter_cons.
    case_decide as Hd; cbn; [lia|]. destruct (decide (q = p)) as [->|]; [|done].
    rewrite filter_not_in; [lia|done].
  - intros q Hq. apply list_elem_of_filter in Hq as [Hne Hq]. destruct (Hl q Hq) as [Hal Ho]. split; [done|].
    apply Hho. split; [done|]. intros Heq. apply Hne. Z.div_mod_to_equations. lia.
Qed.
End enough.
