(* ===== verification/HeapInv.v ===== *)
(** Correctness of the slab allocator: layout of slabs in memory, the set of
    live objects, and the behaviour of [kmalloc], [kfree] and [setup_heap].
    Everything is proved against the frame-allocator interface. *)
From stdpp Require Import base tactics list gmap sets strings.
From Stdlib Require Import ZArith Lia.
From S2P Require Import Prelude Bits State Spinlock Pmm PmmInv FrameAlloc Heap.

(** * Writes confined to one page *)

Record page_write (p : Z) (k k' : kernel) : Prop := mk_page_write {
  pw_rest : same_rest k k';
  pw_pmm : k_pmm k' = k_pmm k;
  pw_mem : ∀ x, x / 4096 ≠ p / 4096 → read8 (k_mem k') x = read8 (k_mem k) x
}.

#[export] Instance page_write_refl p : Reflexive (page_write p).
Proof. intros k. by split. Qed.
#[export] Instance page_write_trans p : Transitive (page_write p).
Proof.
  intros k1 k2 k3 [R1 P1 M1] [R2 P2 M2]. split; [by transitivity k2|congruence|].
  intros x Hx. by rewrite M2, M1.
Qed.

Lemma page_write_read64 p k k' x :
  page_write p k k' → x mod 8 = 0 → x / 4096 ≠ p / 4096 → read64 (k_mem k') x = read64 (k_mem k) x.
Proof. intros Hw Hx Hne. apply le_read_ext. intros y Hy. apply (pw_mem _ _ _ Hw). Z.div_mod_to_equations. lia. Qed.

Lemma write64_page_write p k x v :
  p / 4096 = x / 4096 → p / 4096 = (x + 7) / 4096 →
  page_write p k (set_mem k (write64 (k_mem k) x v)).
Proof.
  intros H1 H2. split; [done..|]. intros y Hy. cbn. apply read8_write_le_out. Z.div_mod_to_equations. lia.
Qed.

(** * Accesses through the direct map *)

Lemma hhdm_field k p d :
  0 <= p + d < 2 ^ 64 → hhdm_phys k (u64 (u64 (p + k_hhdm k) + d)) = p + d.
Proof.
  intros H. unfold hhdm_phys. rewrite u64_add_l, u64_sub_l.
  replace (p + k_hhdm k + d - k_hhdm k) with (p + d) by lia. by apply u64_id.
Qed.

Lemma wp_load64 k ptr x (Q : Z → kernel → Prop) :
  hhdm_phys k ptr = x → Q (read64 (k_mem k) x) k → wp (load64 ptr) k Q.
Proof. intros <- HQ. by apply wp_gets. Qed.

Lemma wp_store64 k ptr x v (Q : unit → kernel → Prop) :
  hhdm_phys k ptr = x → Q tt (set_mem k (write64 (k_mem k) x v)) → wp (store64 ptr v) k Q.
Proof. intros <- HQ. by apply wp_modify. Qed.

(** * Slabs *)

Definition class_ok (sz : Z) : Prop := 32 <= sz <= 1024 ∧ sz mod 16 = 0.

(** Capacity of a slab and the objects in it. *)
Definition capacity (sz : Z) : Z := (PAGE_SIZE - SLAB_HEADER_SIZE) / sz.
Definition slot (p sz o : Z) : Prop := ∃ i, 0 <= i < capacity sz ∧ o = p + SLAB_HEADER_SIZE + i * sz.

(** [F] lists the free objects of the slab at page [p], front first. *)
Record slab_ok (m : mem_t) (off p sz : Z) (F : list Z) : Prop := mk_slab_ok {
  sl_aligned : p mod 4096 = 0;
  sl_size : read64 m (p + 8) = sz;
  sl_am : read64 m (p + 16) = Z.of_nat (length F);
  sl_objs : chain m off (read64 m (p + 24)) F;
  sl_nodup : NoDup F;
  sl_slots : ∀ o, o ∈ F → slot p sz o
}.

Lemma capacity_bounds sz : class_ok sz → 3 <= capacity sz <= 127 ∧ 32 + capacity sz * sz <= 4096.
Proof.
  intros [H _]. unfold capacity, PAGE_SIZE, SLAB_HEADER_SIZE. change (4096 - 32) with 4064.
  pose proof (Z.div_mod 4064 sz ltac:(lia)). pose proof (Z.mod_pos_bound 4064 sz ltac:(lia)).
  split; [split|].
  - apply Z.div_le_lower_bound; lia.
  - apply Z.div_le_upper_bound; lia.
  - lia.
Qed.

Lemma slot_bounds p sz o :
  class_ok sz → p mod 4096 = 0 → slot p sz o → p + 32 <= o ∧ o + sz <= p + 4096 ∧ o mod 16 = 0.
Proof.
  intros Hc Hp (i & Hi & ->). pose proof (capacity_bounds sz Hc) as [_ Hcap]. destruct Hc as [Hs Hm].
  unfold SLAB_HEADER_SIZE. split_and!; [nia|nia|].
  assert (sz = 16 * (sz / 16)) as He by (Z.div_mod_to_equations; lia).
  assert (p = 16 * (256 * (p / 4096))) as Hp' by (Z.div_mod_to_equations; lia).
  rewrite He, Hp'. replace (16 * (256 * (p / 4096)) + 32 + i * (16 * (sz / 16)))
    with ((256 * (p / 4096) + 2 + i * (sz / 16)) * 16) by lia. apply Z.mod_mul. lia.
Qed.

Lemma slot_page p sz o x :
  class_ok sz → p mod 4096 = 0 → slot p sz o → o <= x < o + sz → x / 4096 = p / 4096.
Proof.
  intros Hc Hp Ho Hx. destruct (slot_bounds p sz o Hc Hp Ho) as (? & ? & _).
  Z.div_mod_to_equations. lia.
Qed.

(** Distinct objects of a slab do not overlap. *)
Lemma slot_apart p sz o o' :
  class_ok sz → slot p sz o → slot p sz o' → o ≠ o' → o + sz <= o' ∨ o' + sz <= o.
Proof. intros [Hs _] (i & Hi & ->) (j & Hj & ->) Hne. assert (i ≠ j) by (by intros ->). nia. Qed.

(** A slab looks at its header and at the first word of its free objects. *)
Lemma slab_ok_ext m m' off p sz F :
  class_ok sz →
  (∀ x, p + 8 <= x < p + 32 → read8 m' x = read8 m x) →
  (∀ o x, o ∈ F → o <= x < o + 8 → read8 m' x = read8 m x) →
  slab_ok m off p sz F → slab_ok m' off p sz F.
Proof.
  intros Hc Hh Ho [A S Am Ob Nd Sl].
  assert (∀ x, p + 8 <= x → x + 8 <= p + 32 → read64 m' x = read64 m x) as Hr.
  { intros x H1 H2. apply le_read_ext. intros y Hy. apply Hh. lia. }
  split; rewrite ?Hr by lia; try done.
  eapply chain_ext; [|done]. intros o Hin. apply le_read_ext. intros x Hx. apply (Ho o); [done|lia].
Qed.

(** Taking the first free object: only [objects] and [obj_am] are written. *)
Lemma slab_ok_take m m' off p sz o F :
  class_ok sz → slab_ok m off p sz (o :: F) →
  (∀ x, ¬ (p + 16 <= x < p + 32) → read8 m' x = read8 m x) →
  read64 m' (p + 24) = read64 m o → read64 m' (p + 16) = Z.of_nat (length F) →
  slab_ok m' off p sz F.
Proof.
  intros Hc [A S Am [Hh Ob] Nd Sl] Hm Hob Ham.
  apply NoDup_cons in Nd as [Hno Nd]. split; try done.
  - rewrite <- S. apply le_read_ext. intros x Hx. apply Hm. lia.
  - rewrite Hob. eapply chain_ext; [|exact Ob]. intros o' Hin. apply le_read_ext. intros x Hx. apply Hm.
    destruct (slot_bounds p sz o' Hc A) as (? & _); [apply Sl, elem_of_cons; by right|]. lia.
  - intros o' Hin. apply Sl, elem_of_cons. by right.
Qed.

(** Giving an object back. *)
Lemma slab_ok_give m m' off p sz o F :
  class_ok sz → slab_ok m off p sz F → slot p sz o → o ∉ F →
  (∀ x, ¬ (p + 16 <= x < p + 32) → ¬ (o <= x < o + sz) → read8 m' x = read8 m x) →
  read64 m' (p + 24) = o + off → read64 m' (p + 16) = Z.of_nat (length F) + 1 →
  read64 m' o = read64 m (p + 24) →
  slab_ok m' off p sz (o :: F).
Proof.
  intros Hc [A S Am Ob Nd Sl] Hs Hno Hm Hob Ham Hnx.
  destruct (slot_bounds p sz o Hc A Hs) as (Hlo & Hhi & _).
  split; try done.
  - rewrite <- S. apply le_read_ext. intros x Hx. apply Hm; lia.
  - rewrite Ham. cbn. lia.
  - rewrite Hob. split; [done|]. rewrite Hnx. eapply chain_ext; [|exact Ob].
    intros o' Hin. apply le_read_ext. intros x Hx. destruct Hc as [? ?].
    destruct (slot_bounds p sz o' ltac:(done) A (Sl o' Hin)) as (? & ? & _).
    destruct (slot_apart p sz o o' ltac:(done) Hs (Sl o' Hin)) as [?|?]; [by intros ->|..]; apply Hm; lia.
  - by apply NoDup_cons.
  - intros o' [->|Hin]%elem_of_cons; [done|by apply Sl].
Qed.

(** * Building a slab *)

Fixpoint slots_down (p sz : Z) (n : nat) : list Z :=
  match n with
  | O => []
  | S n' => p + SLAB_HEADER_SIZE + Z.of_nat n' * sz :: slots_down p sz n'
  end.

Lemma elem_of_slots_down p sz n o :
  o ∈ slots_down p sz n ↔ ∃ i, 0 <= i < Z.of_nat n ∧ o = p + SLAB_HEADER_SIZE + i * sz.
Proof.
  induction n as [|n IH]; cbn [slots_down].
  - rewrite elem_of_nil. split; [done|]. intros (i & ? & _). lia.
  - rewrite elem_of_cons, IH. split.
    + intros [->|(i & ? & ->)]; [exists (Z.of_nat n)|exists i]; (split; [lia|done]).
    + intros (i & ? & ->). destruct (decide (i = Z.of_nat n)) as [->|]; [by left|right]. exists i. split; [lia|done].
Qed.

Lemma NoDup_slots_down p sz n : 0 < sz → NoDup (slots_down p sz n).
Proof.
  intros Hs. induction n as [|n IH]; cbn [slots_down]; [constructor|]. apply NoDup_cons. split; [|done].
  rewrite elem_of_slots_down. intros (i & ? & ?). nia.
Qed.

Lemma length_slots_down p sz n : length (slots_down p sz n) = n.
Proof. induction n; cbn; congruence. Qed.

Lemma new_slab_loop_spec n i k p sz :
  class_ok sz → p mod 4096 = 0 → 0 <= p < 2 ^ 46 → 0 < k_hhdm k → k_hhdm k + 2 ^ 46 <= 2 ^ 64 →
  (0 < i)%nat → Z.of_nat i + Z.of_nat n <= capacity sz →
  chain (k_mem k) (k_hhdm k) (p + SLAB_HEADER_SIZE + (Z.of_nat i - 1) * sz + k_hhdm k) (slots_down p sz i) →
  wp (new_slab_loop n (Z.of_nat i) (p + k_hhdm k) sz (p + SLAB_HEADER_SIZE + (Z.of_nat i - 1) * sz + k_hhdm k)) k
    (λ r k', r = p + SLAB_HEADER_SIZE + (Z.of_nat (i + n) - 1) * sz + k_hhdm k ∧
      page_write p k k' ∧ (∀ x, ¬ (p + 32 <= x < p + 4096) → read8 (k_mem k') x = read8 (k_mem k) x) ∧
      chain (k_mem k') (k_hhdm k) r (slots_down p sz (i + n))).
Proof.
  intros Hc Hp Hpr Ho1 Ho2. revert i k Ho1 Ho2. pose proof (capacity_bounds sz Hc) as [Hcap Hcapsz].
  assert (p + 4096 <= 2 ^ 46) as Htop by (Z.div_mod_to_equations; lia).
  induction n as [|n IH]; intros i k Ho1 Ho2 Hi Hin Hch; cbn [new_slab_loop].
  - apply wp_ret. rewrite Nat.add_0_r. done.
  - set (o := p + SLAB_HEADER_SIZE + Z.of_nat i * sz).
    assert (slot p sz o) as Hslot by (exists (Z.of_nat i); split; [lia|done]).
    destruct (slot_bounds p sz o Hc Hp Hslot) as (Hlo & Hhi & _). pose proof (proj1 Hc).
    replace (u64 (p + k_hhdm k + SLAB_HEADER_SIZE + Z.of_nat i * sz)) with (o + k_hhdm k)
      by (rewrite u64_id; [lia|unfold is_u64, o in *; lia]).
    apply wp_bind, (wp_store64 _ _ o); [apply hhdm_phys_add; lia|].
    set (v := p + SLAB_HEADER_SIZE + (Z.of_nat i - 1) * sz + k_hhdm k) in *.
    set (k1 := set_mem k (write64 (k_mem k) o v)).
    assert (page_write p k k1) as Hw1 by (apply write64_page_write; Z.div_mod_to_equations; lia).
    assert (chain (k_mem k1) (k_hhdm k) (o + k_hhdm k) (slots_down p sz (S i))) as Hch1.
    { split; [done|]. change (p + SLAB_HEADER_SIZE + Z.of_nat i * sz) with o. cbn [k1 k_mem set_mem].
      rewrite read64_write64_eq, u64_id.
      2: { unfold is_u64, v, SLAB_HEADER_SIZE, o in *. nia. }
      eapply chain_ext; [|exact Hch]. intros o' (j & Hj & ->)%elem_of_slots_down.
      apply read64_write64_ne. unfold o. nia. }
    eapply wp_mono.
    { replace (Z.of_nat i + 1) with (Z.of_nat (S i)) by lia.
      replace (o + k_hhdm k) with (p + SLAB_HEADER_SIZE + (Z.of_nat (S i) - 1) * sz + k_hhdm k1)
        by (unfold o; cbn; lia).
      apply (IH (S i) k1); cbn; try lia.
      replace (p + SLAB_HEADER_SIZE + (Z.of_nat (S i) - 1) * sz + k_hhdm k) with (o + k_hhdm k)
        by (unfold o; lia). exact Hch1. }
    intros r k' (Hr & Hw & Hm & Hch'). cbn in Hr. rewrite <- Nat.add_succ_comm. split_and!; try done.
    + by transitivity k1.
    + intros x Hx. rewrite Hm by done. apply read8_write_le_out. lia.
Qed.

(** * Lists of pages *)

Lemma chain_split m off head pre p post :
  chain m off head (pre ++ p :: post) → chain m off (read64 m p) post.
Proof. revert head. induction pre as [|q pre IH]; intros head; cbn; [naive_solver|]. intros [_ H]. eauto. Qed.

Lemma chain_snoc m m' off head pre p q :
  chain m off head (pre ++ [p]) →
  (∀ x, x ∈ pre → read64 m' x = read64 m x) → read64 m' p = q + off → read64 m' q = 0 →
  chain m' off head ((pre ++ [p]) ++ [q]).
Proof.
  revert head. induction pre as [|x pre IH]; intros head; cbn.
  - intros [-> _] _ Hp Hq. done.
  - intros [-> Hc] Hx Hp Hq. split; [done|]. rewrite Hx by (apply elem_of_cons; by left).
    apply IH; [done| |done..]. intros y Hy. apply Hx, elem_of_cons. by right.
Qed.

Lemma concat_alter_snoc {A} (L : list (list A)) i ps q :
  L !! i = Some ps → concat (alter (λ ps, ps ++ [q]) i L) ≡ₚ q :: concat L.
Proof.
  revert i. induction L as [|a L IH]; intros [|i] Hi; cbn in *; try done.
  - injection Hi as ->. rewrite <- app_assoc. cbn. symmetry. apply Permutation_middle.
  - change (list_alter ?f i L) with (alter f i L). rewrite (IH i Hi). symmetry. apply Permutation_middle.
Qed.

Lemma elem_of_concat_lookup {A} (L : list (list A)) i ps x : L !! i = Some ps → x ∈ ps → x ∈ concat L.
Proof. intros Hi Hx. apply list_elem_of_In, in_concat. exists ps. rewrite <- !list_elem_of_In. split; [by eapply list_elem_of_lookup_2|done]. Qed.

Lemma NoDup_concat_apart {A} (L : list (list A)) i j a b x :
  NoDup (concat L) → L !! i = Some a → L !! j = Some b → x ∈ a → x ∈ b → i = j.
Proof.
  revert i j. induction L as [|c L IH]; intros i j Hnd Hi Hj Ha Hb; [done|].
  cbn in Hnd. apply NoDup_app in Hnd as (_ & Hd & Hnd).
  destruct i as [|i], j as [|j]; cbn in Hi, Hj; [done|..].
  - injection Hi as ->. exfalso. apply (Hd x Ha). by eapply elem_of_concat_lookup.
  - injection Hj as ->. exfalso. apply (Hd x Hb). by eapply elem_of_concat_lookup.
  - f_equal. by apply IH.
Qed.

Lemma NoDup_concat_lookup {A} (L : list (list A)) i a : NoDup (concat L) → L !! i = Some a → NoDup a.
Proof.
  revert i. induction L as [|c L IH]; intros [|i] Hnd Hi; cbn in *; try done;
    apply NoDup_app in Hnd as (Hc & _ & Hnd); [by injection Hi as ->|eauto].
Qed.

Section heap.
Context {FA : FrameAllocator allocate_page free_page}.

(** A page the allocator does not own can be written freely. *)
Lemma fa_page_write p k k' :
  fa_inv k → ¬ fa_owns k p → page_write p k k' →
  fa_inv k' ∧ (∀ x, fa_owns k' x ↔ fa_owns k x) ∧ (∀ x, fa_lent k' x ↔ fa_lent k x).
Proof.
  intros Hinv Hno [R P Mm]. apply fa_frame; [done|apply R|done|]. intros x Hx. apply Mm. intros Heq.
  apply Hno. by apply (fa_page k x p).
Qed.

(** A fresh slab: a page taken from the allocator, all of whose objects are free. *)
Record fresh_slab (p sz : Z) (k k' : kernel) : Prop := mk_fresh_slab {
  fs_rest : same_rest k k';
  fs_inv : fa_inv k';
  fs_was : fa_owns k p;
  fs_owns : ∀ x, fa_owns k' x ↔ fa_owns k x ∧ x / 4096 ≠ p / 4096;
  fs_lent : ∀ x, fa_lent k' x ↔ fa_lent k x ∨ x / 4096 = p / 4096;
  fs_slab : slab_ok (k_mem k') (k_hhdm k') p sz (slots_down p sz (Z.to_nat (capacity sz)));
  fs_other : read64 (k_mem k') p = 0;
  fs_mem : ∀ x, ¬ fa_owns k x → read8 (k_mem k') x = read8 (k_mem k) x
}.

(** The header writes around the loop. *)
Lemma fill_slab_spec k p sz :
  class_ok sz → p mod 4096 = 0 → 0 < p < 2 ^ 46 → 0 < k_hhdm k → k_hhdm k + 2 ^ 46 <= 2 ^ 64 →
  (∀ x, x / 4096 = p / 4096 → read8 (k_mem k) x = 0) →
  wp (store64 (obj_size (p + k_hhdm k)) sz ;;;
      store64 (obj_am (p + k_hhdm k)) (capacity sz) ;;;
      let* prev_obj := new_slab_loop (Z.to_nat (capacity sz - 1)) 1 (p + k_hhdm k) sz
                         (u64 (p + k_hhdm k + SLAB_HEADER_SIZE)) in
      store64 (objects (p + k_hhdm k)) prev_obj ;;;
      ret (p + k_hhdm k)) k
    (λ slab k', slab = p + k_hhdm k ∧ page_write p k k' ∧ read64 (k_mem k') p = 0 ∧
       slab_ok (k_mem k') (k_hhdm k) p sz (slots_down p sz (Z.to_nat (capacity sz)))).
Proof.
  intros Hc Hp Hpr Ho1 Ho2 Hz. pose proof (capacity_bounds sz Hc) as [Hcap Hcapsz].
  assert (p + 4096 <= 2 ^ 46) as Htop by (Z.div_mod_to_equations; lia).
  pose proof (proj1 Hc) as Hsz.
  assert (∀ k0 d, k_hhdm k0 = k_hhdm k → 0 <= d < 4096 → hhdm_phys k0 (u64 (p + k_hhdm k + d)) = p + d) as Hf.
  { intros k0 d Hk Hd. unfold hhdm_phys. rewrite u64_sub_l, Hk.
    replace (p + k_hhdm k + d - k_hhdm k) with (p + d) by lia. apply u64_id. unfold is_u64. lia. }
  apply wp_bind, (wp_store64 _ _ (p + 8)); [by apply Hf|]. set (k1 := set_mem k _).
  apply wp_bind, (wp_store64 _ _ (p + 16)); [by apply Hf|]. set (k2 := set_mem k1 _).
  assert (page_write p k k2) as Hw2.
  { transitivity k1; apply write64_page_write; Z.div_mod_to_equations; lia. }
  replace (u64 (p + k_hhdm k + SLAB_HEADER_SIZE)) with (p + SLAB_HEADER_SIZE + (Z.of_nat 1 - 1) * sz + k_hhdm k2)
    by (rewrite u64_id; [cbn; lia|unfold is_u64, SLAB_HEADER_SIZE; lia]).
  apply wp_bind. eapply wp_mono.
  { change 1 with (Z.of_nat 1) at 1. change (p + k_hhdm k) with (p + k_hhdm k2).
    apply (new_slab_loop_spec _ 1 k2); try (done || lia). split; [done|].
    rewrite Z.mul_0_l, Z.add_0_r. cbn.
    rewrite !read64_write64_ne by (unfold SLAB_HEADER_SIZE; lia). apply le_read_zero.
    intros x Hx. apply Hz. unfold SLAB_HEADER_SIZE in Hx. Z.div_mod_to_equations. lia. }
  intros r k3 (Hr & Hw3 & Hm3 & Hch). replace (1 + Z.to_nat (capacity sz - Z.of_nat 1))%nat with (Z.to_nat (capacity sz)) in * by lia.
  change (k_hhdm k2) with (k_hhdm k) in *.
  apply wp_bind, (wp_store64 _ _ (p + 24)); [apply Hf; [apply Hw3|lia]|]. set (k4 := set_mem k3 _).
  apply wp_ret.
  assert (∀ a, p <= a → a + 8 <= p + 24 → read64 (k_mem k4) a = read64 (k_mem k2) a) as Hlow.
  { intros a H1 H2. cbn. rewrite read64_write64_ne by lia. apply le_read_ext. intros x Hx. apply Hm3. lia. }
  split_and!; [done| | |split].
  - transitivity k2; [done|]. transitivity k3; [done|]. apply write64_page_write; Z.div_mod_to_equations; lia.
  - rewrite Hlow by lia. cbn. rewrite !read64_write64_ne by lia. apply le_read_zero. intros x Hx. apply Hz.
    Z.div_mod_to_equations. lia.
  - done.
  - rewrite Hlow by lia. cbn. rewrite read64_write64_ne, read64_write64_eq by lia. apply u64_id. unfold is_u64. lia.
  - rewrite Hlow by lia. cbn. rewrite read64_write64_eq, length_slots_down, u64_id by (unfold is_u64; lia). lia.
  - cbn. rewrite read64_write64_eq, u64_id.
    2: { replace r with (p + SLAB_HEADER_SIZE + (capacity sz - 1) * sz + k_hhdm k)
           by (rewrite Hr; f_equal; f_equal; f_equal; lia). unfold is_u64, SLAB_HEADER_SIZE. nia. }
    eapply chain_ext; [|exact Hch]. intros o (j & Hj & ->)%elem_of_slots_down.
    apply read64_write64_ne. unfold SLAB_HEADER_SIZE. nia.
  - apply NoDup_slots_down. lia.
  - intros o (j & Hj & ->)%elem_of_slots_down. exists j. split; [lia|done].
Qed.

Lemma new_slab_spec k sz :
  class_ok sz → fa_inv k → can_lock pmm_spinlock k → (∃ q, fa_owns k q) →
  wp (new_slab sz) k (λ slab k', ∃ p, slab = p + k_hhdm k ∧ fresh_slab p sz k k').
Proof.
  intros Hc Hinv Hlock Hex. unfold new_slab. apply wp_bind.
  eapply wp_mono; [by apply fa_alloc|]. intros p k1 (Hinv1 & [R A W O Z0 Mm] & Hlent).
  pose proof (fa_hhdm k Hinv) as [Ho1 Ho2]. pose proof (fa_range k p Hinv W) as Hpr.
  pose proof (sr_hhdm _ _ R) as Hh1.
  apply wp_bind, wp_gets. rewrite (u64_id (p + k_hhdm k1)) by (unfold is_u64; rewrite Hh1; lia).
  eapply wp_mono; [apply fill_slab_spec; rewrite ?Hh1; done|].
  intros slab k2 (-> & Hw & Hoth & Hsl). exists p. rewrite Hh1. split; [done|].
  assert (¬ fa_owns k1 p) as Hnop by (rewrite O; naive_solver).
  destruct (fa_page_write p k1 k2 Hinv1 Hnop Hw) as (Hinv2 & Ho & Hl).
  split; try done.
  - transitivity k1; [done|apply Hw].
  - intros x. by rewrite Ho, O.
  - intros x. by rewrite Hl, Hlent.
  - by rewrite (sr_hhdm _ _ (pw_rest _ _ _ Hw)).
  - intros x Hx. rewrite (pw_mem _ _ _ Hw); [by apply Mm|]. intros Heq. apply Hx. by apply (fa_page k p x).
Qed.

(** * The heap *)

(** [slabs] gives each slab page its object size and its free objects;
    [chains] gives each cache the pages of its slabs, in order. *)
Record heap_g := mk_heap_g { slabs : gmap Z (Z * list Z); chains : list (list Z) }.

Definition cache_ok (h : heap_g) (m : mem_t) (off : Z) (c : slab_cache) (ps : list Z) : Prop :=
  class_ok (sc_size c) ∧ ps ≠ [] ∧ chain m off (sc_slabs c) ps ∧
  ∀ p, p ∈ ps → ∃ F, slabs h !! p = Some (sc_size c, F).

Record heap_inv (h : heap_g) (k : kernel) : Prop := mk_heap_inv {
  hi_fa : fa_inv k;
  hi_off : k_hhdm k mod 4096 = 0;
  hi_caches : Forall2 (cache_ok h (k_mem k) (k_hhdm k)) (k_heap k) (chains h);
  hi_slabs : ∀ p sz F, slabs h !! p = Some (sz, F) →
    class_ok sz ∧ slab_ok (k_mem k) (k_hhdm k) p sz F;
  hi_lent : ∀ p, is_Some (slabs h !! p) → fa_lent k p;
  hi_nodup : NoDup (concat (chains h))
}.

(** The object of [sz] bytes at [o] has been handed out. *)
Definition live (h : heap_g) (o sz : Z) : Prop :=
  ∃ p F, slabs h !! p = Some (sz, F) ∧ slot p sz o ∧ o ∉ F.

(** Bytes of slab pages outside every live object: the allocator's own. *)
Definition private (h : heap_g) (x : Z) : Prop :=
  ∃ p sz F, slabs h !! p = Some (sz, F) ∧ x / 4096 = p / 4096 ∧ ¬ ∃ o, live h o sz ∧ o <= x < o + sz.

Definition set_slab (h : heap_g) (p sz : Z) (F : list Z) : heap_g :=
  mk_heap_g (<[p := (sz, F)]> (slabs h)) (chains h).

Lemma slab_page_range h k p sz F :
  heap_inv h k → slabs h !! p = Some (sz, F) → p mod 4096 = 0 ∧ 0 < p < 2 ^ 46 ∧ ¬ fa_owns k p.
Proof.
  intros Hi Hp. pose proof (hi_lent h k Hi p (mk_is_Some _ _ Hp)) as Hl.
  apply (fa_lent_range k p (hi_fa h k Hi)) in Hl as [? ?].
  destruct (hi_slabs h k Hi p sz F Hp) as [_ [? _]]. done.
Qed.

Lemma slabs_apart h k p q :
  heap_inv h k → is_Some (slabs h !! p) → is_Some (slabs h !! q) → p / 4096 = q / 4096 → p = q.
Proof.
  intros Hi [[sz F] Hp] [[sz' F'] Hq] Heq.
  destruct (slab_page_range h k p sz F Hi Hp) as [? _], (slab_page_range h k q sz' F' Hi Hq) as [? _].
  Z.div_mod_to_equations. lia.
Qed.

(** Rewriting the contents of one slab. *)
Lemma heap_inv_slab h k k' p sz F F' :
  heap_inv h k → slabs h !! p = Some (sz, F) → page_write p k k' →
  read64 (k_mem k') p = read64 (k_mem k) p →
  slab_ok (k_mem k') (k_hhdm k) p sz F' →
  heap_inv (set_slab h p sz F') k'.
Proof.
  intros Hi Hp Hw Hnext Hsl. destruct (slab_page_range h k p sz F Hi Hp) as (Hal & _ & Hno).
  destruct (fa_page_write p k k' (hi_fa h k Hi) Hno Hw) as (Hfa' & Hown & Hlent).
  pose proof (sr_hhdm _ _ (pw_rest _ _ _ Hw)) as Hh. pose proof (sr_heap _ _ (pw_rest _ _ _ Hw)) as Hhp.
  split; try done.
  - rewrite Hh. apply Hi.
  - rewrite Hhp, Hh. eapply Forall2_impl; [apply Hi|]. intros c ps (Hc & Hne & Hch & Hin).
    split_and!; try done.
    + eapply chain_ext; [|done]. intros q Hq. destruct (decide (q = p)) as [->|Hqp]; [done|].
      apply (page_write_read64 p k); [done|..]; destruct (Hin q Hq) as [Fq Hq'];
        destruct (slab_page_range h k q _ _ Hi Hq') as [? _]; Z.div_mod_to_equations; lia.
    + intros q Hq. destruct (Hin q Hq) as [Fq Hq']. cbn. destruct (decide (q = p)) as [->|Hqp].
      * rewrite lookup_insert_eq. exists F'. naive_solver.
      * rewrite lookup_insert_ne by done. eauto.
  - intros q szq Fq. cbn. rewrite Hh. destruct (decide (q = p)) as [->|Hqp].
    + rewrite lookup_insert_eq. intros [= <- <-]. split; [|done]. by apply (hi_slabs h k Hi p sz F).
    + rewrite lookup_insert_ne by done. intros Hq. destruct (hi_slabs h k Hi q szq Fq Hq) as [Hc Hs].
      split; [done|]. destruct (slab_page_range h k q szq Fq Hi Hq) as [Hqal _].
      assert (∀ x, q <= x < q + 4096 → read8 (k_mem k') x = read8 (k_mem k) x) as Hsame.
      { intros x Hx. apply (pw_mem _ _ _ Hw). Z.div_mod_to_equations. lia. }
      apply (slab_ok_ext (k_mem k)); [done| | |done].
      * intros x Hx. apply Hsame. lia.
      * intros o x Ho Hx. apply Hsame. pose proof (proj1 Hc).
        destruct (slot_bounds q szq o Hc Hqal (sl_slots _ _ _ _ _ Hs o Ho)) as (? & ? & _). lia.
  - intros q Hq. rewrite Hlent. cbn in Hq. destruct (decide (q = p)) as [->|Hqp].
    + apply (hi_lent h k Hi). by eexists.
    + rewrite lookup_insert_ne in Hq by done. by apply (hi_lent h k Hi).
  - apply Hi.
Qed.

Lemma slot_owner h k p q sz sz' F F' o :
  heap_inv h k → slabs h !! p = Some (sz, F) → slabs h !! q = Some (sz', F') →
  slot p sz o → slot q sz' o → p = q.
Proof.
  intros Hi Hp Hq Hsp Hsq.
  destruct (hi_slabs h k Hi p sz F Hp) as [Hc [Hal _]], (hi_slabs h k Hi q sz' F' Hq) as [Hc' [Hal' _]].
  pose proof (proj1 Hc). pose proof (proj1 Hc').
  apply (slabs_apart h k); [done|by eexists..|].
  rewrite <- (slot_page p sz o o), <- (slot_page q sz' o o) by (done || lia). done.
Qed.

(** Only the slab of an object decides whether it is live. *)
Lemma live_at h k p sz F o s :
  heap_inv h k → slabs h !! p = Some (sz, F) → slot p sz o → live h o s ↔ s = sz ∧ o ∉ F.
Proof.
  intros Hi Hp Hs. split.
  - intros (q & Fq & Hq & Hsq & Hno). rewrite (slot_owner h k q p s sz Fq F o) in Hq by done. naive_solver.
  - intros [-> Hno]. by exists p, F.
Qed.

Lemma live_set_slab h k p sz F F' o s :
  heap_inv h k → slabs h !! p = Some (sz, F) →
  (∀ o', slot p sz o' → o' ≠ o → o' ∈ F' ↔ o' ∈ F) →
  ∀ o', o' ≠ o → live (set_slab h p sz F') o' s ↔ live h o' s.
Proof.
  intros Hi Hp Hsame o' Hne. split; intros (q & Fq & Hq & Hsq & Hno); cbn in Hq;
    (destruct (decide (q = p)) as [->|Hqp]; [|exists q, Fq; cbn; rewrite ?lookup_insert_ne in * by done; done]).
  - rewrite lookup_insert_eq in Hq. injection Hq as <- <-. exists p, F. by rewrite <- Hsame.
  - rewrite Hp in Hq. injection Hq as <- <-. exists p, F'. cbn. rewrite lookup_insert_eq. by rewrite Hsame.
Qed.

(** Live objects never overlap. *)
Lemma live_apart h k o o' s s' :
  heap_inv h k → live h o s → live h o' s' → o ≠ o' → o + s <= o' ∨ o' + s' <= o.
Proof.
  intros Hi (p & F & Hp & Hs & _) (q & G & Hq & Hs' & _) Hne.
  destruct (hi_slabs h k Hi p s F Hp) as [Hc [Hal _]], (hi_slabs h k Hi q s' G Hq) as [Hc' [Hal' _]].
  destruct (decide (p = q)) as [->|Hpq].
  - assert (s = s') as <- by congruence. by apply (slot_apart q s).
  - destruct (slot_bounds p s o Hc Hal Hs) as (? & ? & _), (slot_bounds q s' o' Hc' Hal' Hs') as (? & ? & _).
    Z.div_mod_to_equations. lia.
Qed.

(** A header byte, or a byte of a free object, is private. *)
Lemma private_header h k p sz F x :
  heap_inv h k → slabs h !! p = Some (sz, F) → p <= x < p + 32 → private h x.
Proof.
  intros Hi Hp Hx. destruct (hi_slabs h k Hi p sz F Hp) as [Hc [Hal _]].
  exists p, sz, F. split_and!; [done|Z.div_mod_to_equations; lia|].
  intros (o & (q & G & Hq & Hs & _) & Hox). destruct (hi_slabs h k Hi q sz G Hq) as [_ [Halq _]].
  destruct (slot_bounds q sz o Hc Halq Hs) as (? & ? & _). Z.div_mod_to_equations. lia.
Qed.

Lemma private_free h k p sz F o x :
  heap_inv h k → slabs h !! p = Some (sz, F) → o ∈ F → o <= x < o + sz → private h x.
Proof.
  intros Hi Hp Ho Hx. destruct (hi_slabs h k Hi p sz F Hp) as [Hc Hsl].
  pose proof (sl_slots _ _ _ _ _ Hsl o Ho) as Hs. pose proof (sl_aligned _ _ _ _ _ Hsl) as Hal.
  exists p, sz, F. split_and!; [done|by apply (slot_page p sz o)|].
  intros (o' & (q & G & Hq & Hs' & Hno) & Hx').
  assert (q = p) as ->.
  { destruct (hi_slabs h k Hi q sz G Hq) as [_ Hslq]. pose proof (sl_aligned _ _ _ _ _ Hslq) as Halq.
    apply (slabs_apart h k); [done|by eexists..|].
    by rewrite <- (slot_page q sz o' x), <- (slot_page p sz o x). }
  rewrite Hp in Hq. injection Hq as <-.
  destruct (decide (o' = o)) as [->|Hne]; [done|].
  destruct (slot_apart p sz o' o Hc Hs' Hs Hne); lia.
Qed.

(** * Allocation *)

(** Between the states of a search for a free object nothing live changes. *)
Record searched (h : heap_g) (k : kernel) (h' : heap_g) (k' : kernel) : Prop := mk_searched {
  se_inv : heap_inv h' k';
  se_rest : same_rest k k';
  se_live : ∀ o s, live h' o s ↔ live h o s;
  se_private : ∀ x, private h' x → private h x ∨ fa_owns k x;
  se_owns : ∀ x, fa_owns k' x → fa_owns k x;
  se_enough : ∀ n, enough n k → enough (n - 1) k';
  se_mem : ∀ x, ¬ fa_owns k x → ¬ private h x → read8 (k_mem k') x = read8 (k_mem k) x
}.

(** What [kmalloc] does: [o] was nobody's, is now a live object of [s] bytes,
    and no other live object, nor memory outside the heap, has changed. *)
Record obtained (o s : Z) (h : heap_g) (k : kernel) (h' : heap_g) (k' : kernel) : Prop := mk_obtained {
  ob_inv : heap_inv h' k';
  ob_rest : same_rest k k';
  ob_class : class_ok s;
  ob_fresh : ∀ s', ¬ live h o s';
  ob_where : ∀ x, o <= x < o + s → fa_owns k x ∨ private h x;
  ob_enough : ∀ n, enough n k → enough (n - 1) k';
  ob_live : ∀ o' s', live h' o' s' ↔ live h o' s' ∨ (o' = o ∧ s' = s);
  ob_mem : ∀ x, ¬ fa_owns k x → ¬ private h x → read8 (k_mem k') x = read8 (k_mem k) x
}.

Section take.
Context (h : heap_g) (k : kernel) (p sz o : Z) (F : list Z).
Context (Hi : heap_inv h k) (Hp : slabs h !! p = Some (sz, o :: F)).
Set Default Proof Using "All".

Lemma take_obtained k' :
  same_rest k k' → k_pmm k' = k_pmm k →
  (∀ x, ¬ (p + 16 <= x < p + 32) → read8 (k_mem k') x = read8 (k_mem k) x) →
  read64 (k_mem k') (p + 24) = read64 (k_mem k) o →
  read64 (k_mem k') (p + 16) = Z.of_nat (length F) →
  obtained o sz h k (set_slab h p sz F) k' ∧ (∀ x, fa_owns k' x ↔ fa_owns k x).
Proof.
  intros Hr Hpm Hm Hob Ham. destruct (hi_slabs h k Hi _ _ _ Hp) as [Hc Hsl].
  pose proof (sl_aligned _ _ _ _ _ Hsl) as Hal.
  assert (slot p sz o) as Hso by (apply (sl_slots _ _ _ _ _ Hsl), elem_of_cons; by left).
  pose proof (sl_nodup _ _ _ _ _ Hsl) as Hnd. apply NoDup_cons in Hnd as [HnoF _].
  assert (page_write p k k') as Hw.
  { split; [done..|]. intros x Hx. apply Hm. Z.div_mod_to_equations. lia. }
  assert (heap_inv (set_slab h p sz F) k') as Hi'.
  { apply (heap_inv_slab h k k' p sz (o :: F)); [done..| |by apply (slab_ok_take (k_mem k) _ _ _ _ o)].
    apply le_read_ext. intros x Hx. apply Hm. lia. }
  assert (∀ s', ¬ live h o s') as Hfresh.
  { intros s'. rewrite (live_at h k p sz (o :: F)) by done. intros [_ Hn]. apply Hn, elem_of_cons. by left. }
  destruct (slab_page_range h k p sz _ Hi Hp) as (_ & _ & Hnop).
  destruct (fa_page_write p k k' (hi_fa h k Hi) Hnop Hw) as (_ & Hown & _).
  split; [|done]. split; try done.
  - intros x Hx. right. apply (private_free h k p sz (o :: F) o); [done..|apply elem_of_cons; by left|done].
  - intros n Hn. apply (enough_mono n); [lia|]. by eapply enough_owns.
  - intros o' s'. destruct (decide (o' = o)) as [->|Hne].
    + rewrite (live_at _ k' p sz F); [|done|cbn; by rewrite lookup_insert_eq|done].
      specialize (Hfresh s'). naive_solver.
    + rewrite (live_set_slab h k p sz (o :: F) F o s' Hi Hp); [naive_solver| |done].
      intros o2 _ Hne2. rewrite elem_of_cons. naive_solver.
  - intros x Hx Hpr. apply Hm. intros Hin. apply Hpr. apply (private_header h k p sz (o :: F)); [done..|lia].
Qed.

Lemma slab_ptr_field k0 d :
  k_hhdm k0 = k_hhdm k → 0 <= d < 4096 → hhdm_phys k0 (u64 (p + k_hhdm k + d)) = p + d.
Proof.
  intros Hk Hd. destruct (slab_page_range h k _ _ _ Hi Hp) as (_ & Hr & _).
  unfold hhdm_phys. rewrite u64_sub_l, Hk.
  replace (p + k_hhdm k + d - k_hhdm k) with (p + d) by lia. apply u64_id. unfold is_u64. lia.
Qed.

Lemma round_take :
  wp (allocate_with_slab_round (p + k_hhdm k)) k (λ r k', r = inr (o + k_hhdm k) ∧
    obtained o sz h k (set_slab h p sz F) k' ∧ (∀ x, fa_owns k' x ↔ fa_owns k x)).
Proof.
  destruct (hi_slabs h k Hi _ _ _ Hp) as [Hc Hsl]. destruct (slab_page_range h k _ _ _ Hi Hp) as (Hal & Hr & _).
  assert (slot p sz o) as Hso by (apply (sl_slots _ _ _ _ _ Hsl), elem_of_cons; by left).
  destruct (slot_bounds p sz o Hc Hal Hso) as (Hlo & Hhi & _).
  pose proof (fa_hhdm k (hi_fa h k Hi)) as [Ho1 Ho2]. pose proof (proj1 Hc).
  destruct (sl_objs _ _ _ _ _ Hsl) as [Hhead Hrest]. pose proof (sl_am _ _ _ _ _ Hsl) as Ham. cbn in Ham.
  assert (Z.of_nat (length F) < 2 ^ 64 - 1) as Hlen.
  { pose proof (read64_is_u64 (k_mem k) (p + 16)) as Hu. rewrite Ham in Hu. destruct Hu. lia. }
  unfold allocate_with_slab_round. apply wp_bind, (wp_load64 _ _ (p + 24)); [by apply slab_ptr_field|].
  rewrite Hhead. rewrite (proj2 (Z.eqb_neq (o + k_hhdm k) 0)) by lia. cbn [negb].
  apply wp_bind, (wp_load64 _ _ o); [apply hhdm_phys_add; lia|].
  destruct (Z.eqb_spec (read64 (k_mem k) o) 0) as [Hz|Hnz]; cbn [negb].
  - apply wp_bind, (wp_load64 _ _ (p + 16)); [by apply slab_ptr_field|].
    apply wp_bind, (wp_store64 _ _ (p + 16)); [by apply slab_ptr_field|].
    apply wp_bind, (wp_store64 _ _ (p + 24)); [by apply slab_ptr_field|]. apply wp_ret. split; [done|].
    apply take_obtained; cbn; try done.
    + intros x Hx. unfold write64. rewrite !read8_write_le_out by lia. done.
    + rewrite read64_write64_eq, Hz. done.
    + rewrite read64_write64_ne, read64_write64_eq, u64_u64, Ham by lia. rewrite u64_id; unfold is_u64; lia.
  - apply wp_bind, (wp_store64 _ _ (p + 24)); [by apply slab_ptr_field|].
    apply wp_bind, (wp_load64 _ _ (p + 16)); [by apply slab_ptr_field|].
    apply wp_bind, (wp_store64 _ _ (p + 16)); [by apply slab_ptr_field|]. apply wp_ret. split; [done|].
    cbn [k_mem set_mem]. rewrite read64_write64_ne by lia.
    apply take_obtained; cbn; try done.
    + intros x Hx. unfold write64. rewrite !read8_write_le_out by lia. done.
    + rewrite read64_write64_ne, read64_write64_eq by lia. apply u64_id, read64_is_u64.
    + rewrite read64_write64_eq, u64_u64, Ham. rewrite u64_id; unfold is_u64; lia.
Qed.
End take.

(** ** Walking along the slabs of a cache *)

Lemma cache_lookup h k i c ps :
  heap_inv h k → k_heap k !! i = Some c → chains h !! i = Some ps → cache_ok h (k_mem k) (k_hhdm k) c ps.
Proof. intros Hi Hc Hps. pose proof (hi_caches h k Hi) as Hf. by apply (Forall2_lookup_lr _ _ _ i c ps Hf). Qed.

Lemma chain_slab h k p : heap_inv h k → p ∈ concat (chains h) → is_Some (slabs h !! p).
Proof.
  intros Hi Hp. apply list_elem_of_In, in_concat in Hp as (ps & Hps & Hp).
  apply list_elem_of_In, list_elem_of_lookup in Hps as [i Hps]. apply list_elem_of_In in Hp.
  destruct (Forall2_lookup_r _ _ _ i ps (hi_caches h k Hi) Hps) as (c & _ & _ & _ & _ & Hin).
  destruct (Hin p Hp) as [F HF]. by rewrite HF.
Qed.

Definition add_slab (h : heap_g) (i : nat) (q sz : Z) : heap_g :=
  mk_heap_g (<[q := (sz, slots_down q sz (Z.to_nat (capacity sz)))]> (slabs h))
            (alter (λ ps, ps ++ [q]) i (chains h)).

(** The chain of a cache is extended by a fresh slab [q] after its last slab [p]. *)
Section grow.
Context (h : heap_g) (k k1 k2 : kernel) (i : nat) (c : slab_cache) (pre : list Z) (p q : Z).
Context (Hi : heap_inv h k) (Hci : k_heap k !! i = Some c) (Hps : chains h !! i = Some (pre ++ [p])).
Context (Hf : fresh_slab q (sc_size c) k k1).
Context (Hw : page_write p k1 k2) (Hlow : ∀ x, ¬ (p <= x < p + 8) → read8 (k_mem k2) x = read8 (k_mem k1) x).
Context (Hlink : read64 (k_mem k2) p = q + k_hhdm k).
Set Default Proof Using "All".

Lemma grow_class : class_ok (sc_size c).
Proof. apply (cache_lookup h k i c _ Hi Hci Hps). Qed.

Lemma grow_last : is_Some (slabs h !! p).
Proof. apply (chain_slab h k); [done|]. eapply elem_of_concat_lookup; [done|]. apply elem_of_app. right. by apply list_elem_of_singleton. Qed.

Lemma grow_fresh x : is_Some (slabs h !! x) → x / 4096 ≠ q / 4096 ∧ ¬ fa_owns k x.
Proof.
  intros Hx. destruct (fa_lent_range k x (hi_fa h k Hi) (hi_lent h k Hi x Hx)) as [_ Hno]. split; [|done].
  intros Heq. apply Hno. apply (fa_page k q x); [apply Hi|by symmetry|apply Hf].
Qed.

(** Slab pages other than [p] keep their memory, [p] all but its link. *)
Lemma grow_mem x : ¬ fa_owns k x → ¬ (p <= x < p + 8) → read8 (k_mem k2) x = read8 (k_mem k) x.
Proof. intros Hx Hne. rewrite Hlow by done. by apply Hf. Qed.

Lemma grow_owned x y : is_Some (slabs h !! x) → x / 4096 = y / 4096 → ¬ fa_owns k y.
Proof.
  intros Hx Hxy Hy. destruct (grow_fresh x Hx) as [_ Hno]. apply Hno. apply (fa_page k y x); [apply Hi|by symmetry|done].
Qed.

Lemma grow_read64 x : is_Some (slabs h !! x) → x ≠ p → read64 (k_mem k2) x = read64 (k_mem k) x.
Proof.
  intros Hx Hne. destruct Hx as [[szx Fx] Hx]. destruct (slab_page_range h k x _ _ Hi Hx) as (Halx & _).
  destruct grow_last as [[szp Fp] Hp]. destruct (slab_page_range h k p _ _ Hi Hp) as (Halp & _).
  apply le_read_ext. intros y Hy. apply grow_mem.
  - apply (grow_owned x); [by eexists|Z.div_mod_to_equations; lia].
  - Z.div_mod_to_equations. lia.
Qed.

Lemma grow_slab x sz F :
  slabs h !! x = Some (sz, F) → class_ok sz ∧ slab_ok (k_mem k2) (k_hhdm k) x sz F.
Proof.
  intros Hx. destruct (hi_slabs h k Hi x sz F Hx) as [Hc Hs]. split; [done|].
  destruct (slab_page_range h k x _ _ Hi Hx) as (Halx & _). pose proof (proj1 Hc).
  destruct grow_last as [[szp Fp] Hp]. destruct (slab_page_range h k p _ _ Hi Hp) as (Halp & _).
  assert (∀ y, x + 8 <= y < x + 4096 → read8 (k_mem k2) y = read8 (k_mem k) y) as Hsame.
  { intros y Hy. apply grow_mem.
    - apply (grow_owned x); [by eexists|Z.div_mod_to_equations; lia].
    - Z.div_mod_to_equations. lia. }
  apply (slab_ok_ext (k_mem k)); [done| | |done].
  - intros y Hy. apply Hsame. lia.
  - intros o y Ho Hy. apply Hsame.
    destruct (slot_bounds x sz o Hc Halx (sl_slots _ _ _ _ _ Hs o Ho)) as (? & ? & _). lia.
Qed.
Lemma grow_fa : fa_inv k2 ∧ (∀ x, fa_owns k2 x ↔ fa_owns k1 x) ∧ (∀ x, fa_lent k2 x ↔ fa_lent k1 x).
Proof.
  apply (fa_page_write p); [apply Hf| |done]. rewrite (fs_owns _ _ _ _ Hf).
  destruct (grow_fresh p grow_last). naive_solver.
Qed.

Lemma grow_hhdm : k_hhdm k2 = k_hhdm k ∧ k_heap k2 = k_heap k.
Proof.
  split; [rewrite (sr_hhdm _ _ (pw_rest _ _ _ Hw)); apply Hf|rewrite (sr_heap _ _ (pw_rest _ _ _ Hw)); apply Hf].
Qed.

Lemma grow_new_page : q mod 4096 = 0 ∧ slabs h !! q = None ∧ q / 4096 ≠ p / 4096.
Proof.
  destruct (grow_fresh p grow_last) as [Hpq _]. split_and!; [apply Hf| |by symmetry].
  destruct (slabs h !! q) eqn:Hq; [|done]. destruct (grow_fresh q); [by eexists|done].
Qed.

Lemma grow_new_slab :
  slab_ok (k_mem k2) (k_hhdm k) q (sc_size c) (slots_down q (sc_size c) (Z.to_nat (capacity (sc_size c)))) ∧
  read64 (k_mem k2) q = 0.
Proof.
  destruct grow_new_page as (Hal & _ & Hqp). destruct grow_hhdm as [Hh _].
  pose proof (fs_slab _ _ _ _ Hf) as Hs. pose proof grow_class as Hc.
  assert (∀ y, q <= y < q + 4096 → read8 (k_mem k2) y = read8 (k_mem k1) y) as Hsame.
  { intros y Hy. apply (pw_mem _ _ _ Hw). Z.div_mod_to_equations. lia. }
  split.
  - rewrite <- (sr_hhdm _ _ (fs_rest _ _ _ _ Hf)).
    apply (slab_ok_ext (k_mem k1)); [done| | |done].
    + intros x Hx. apply Hsame. lia.
    + intros o x Ho Hx. apply Hsame. pose proof (proj1 Hc).
      destruct (slot_bounds q _ o Hc Hal (sl_slots _ _ _ _ _ Hs o Ho)) as (? & ? & _). lia.
  - rewrite <- (fs_other _ _ _ _ Hf). apply le_read_ext. intros x Hx. apply Hsame. lia.
Qed.

Lemma grow_chain j cj psj :
  k_heap k !! j = Some cj → chains h !! j = Some psj →
  cache_ok (add_slab h i q (sc_size c)) (k_mem k2) (k_hhdm k) cj (if decide (j = i) then psj ++ [q] else psj).
Proof.
  intros Hcj Hpsj. destruct (cache_lookup h k j cj psj Hi Hcj Hpsj) as (Hc & Hne & Hch & Hin).
  destruct grow_new_page as (_ & Hqn & _). destruct grow_new_slab as [_ Hq0].
  pose proof (NoDup_concat_lookup _ _ _ (hi_nodup h k Hi) Hps) as Hnd.
  assert (∀ x, x ∈ psj → ∃ F, slabs (add_slab h i q (sc_size c)) !! x = Some (sc_size cj, F)) as Hin'.
  { intros x Hx. destruct (Hin x Hx) as [F HF]. exists F. cbn. rewrite lookup_insert_ne; [done|]. congruence. }
  split; [done|]. case_decide as Hji.
  - subst j. rewrite Hci in Hcj. injection Hcj as <-. rewrite Hps in Hpsj. injection Hpsj as <-.
    split_and!; [by destruct pre| |].
    + apply (chain_snoc (k_mem k)); [done| |done..]. intros x Hx. apply grow_read64.
      * destruct (Hin x) as [F HF]; [apply elem_of_app; by left|by eexists].
      * intros ->. apply NoDup_app in Hnd as (_ & Hd & _). by apply (Hd p Hx), list_elem_of_singleton.
    + intros x [Hx|Hx%list_elem_of_singleton]%elem_of_app; [auto|]. subst x. cbn. rewrite lookup_insert_eq. eauto.
  - split_and!; [done| |done]. eapply chain_ext; [|done]. intros x Hx. apply grow_read64.
    + destruct (Hin x Hx) as [F HF]. by eexists.
    + intros ->. apply Hji. eapply (NoDup_concat_apart _ _ _ _ _ p (hi_nodup h k Hi)); try done.
      apply elem_of_app. right. by apply list_elem_of_singleton.
Qed.

Lemma grow_inv : heap_inv (add_slab h i q (sc_size c)) k2.
Proof.
  destruct grow_fa as (Hfa & Hown & Hlent), grow_hhdm as [Hh Hhp], grow_new_page as (Hal & Hqn & Hqp).
  pose proof (hi_caches h k Hi) as Hfa2.
  split; rewrite ?Hh, ?Hhp; try done.
  - apply Hi.
  - apply Forall2_same_length_lookup. split.
    { cbn. rewrite length_alter. by eapply Forall2_length. }
    intros j cj psj Hcj. cbn. destruct (Forall2_lookup_l _ _ _ j cj Hfa2 Hcj) as (ps0 & Hps0 & _).
    intros Hj. pose proof (grow_chain j cj ps0 Hcj Hps0) as Hg. case_decide as Hji.
    + subst j. rewrite list_lookup_alter_eq, Hps0 in Hj. cbn in Hj. by injection Hj as <-.
    + rewrite list_lookup_alter_ne in Hj by done. rewrite Hps0 in Hj. by injection Hj as <-.
  - intros x sz F. cbn. destruct (decide (x = q)) as [->|Hxq].
    + rewrite lookup_insert_eq. intros [= <- <-]. split; [apply grow_class|apply grow_new_slab].
    + rewrite lookup_insert_ne by done. apply grow_slab.
  - intros x Hx. rewrite Hlent, (fs_lent _ _ _ _ Hf). cbn in Hx. destruct (decide (x = q)) as [->|Hxq]; [by right|].
    rewrite lookup_insert_ne in Hx by done. left. by apply (hi_lent h k Hi).
  - cbn. rewrite (concat_alter_snoc _ _ _ _ Hps). apply NoDup_cons. split; [|apply Hi].
    intros Hq. destruct (chain_slab h k q Hi Hq). congruence.
Qed.

Lemma grow_live o s : live (add_slab h i q (sc_size c)) o s ↔ live h o s.
Proof.
  destruct grow_new_page as (_ & Hqn & _). unfold live. cbn. split.
  - intros (x & F & Hx & Hs & Hno). destruct (decide (x = q)) as [->|Hxq].
    + rewrite lookup_insert_eq in Hx. injection Hx as <- <-. exfalso. apply Hno, elem_of_slots_down.
      destruct Hs as (j & Hj & ->). exists j. split; [lia|done].
    + rewrite lookup_insert_ne in Hx by done. by exists x, F.
  - intros (x & F & Hx & Hs & Hno). exists x, F. rewrite lookup_insert_ne; [done|]. congruence.
Qed.

Lemma grow_searched : searched h k (add_slab h i q (sc_size c)) k2.
Proof.
  destruct grow_fa as (Hfa & Hown & Hlent). destruct grow_last as [[szp Fp] Hp].
  split.
  - apply grow_inv.
  - transitivity k1; [apply Hf|apply Hw].
  - apply grow_live.
  - intros x (y & sz & F & Hy & Hxy & Hno). cbn in Hy. destruct (decide (y = q)) as [->|Hyq].
    + right. apply (fa_page k q x); [apply Hi|by symmetry|apply Hf].
    + rewrite lookup_insert_ne in Hy by done. left. exists y, sz, F. split_and!; [done..|].
      intros (o & Ho & Hox). apply Hno. exists o. by rewrite grow_live.
  - intros x Hx. rewrite Hown, (fs_owns _ _ _ _ Hf) in Hx. apply Hx.
  - intros n Hn. eapply enough_owns; [exact Hown|]. eapply (enough_handed_out n q k k1); [apply Hf|apply Hf|done].
  - intros x Hx Hpr. apply grow_mem; [done|]. intros Hin. apply Hpr.
    apply (private_header h k p szp Fp); [done..|lia].
Qed.
End grow.

Lemma searched_refl h k : heap_inv h k → searched h k h k.
Proof. intros Hi. split; try done; [auto|]. intros n. apply enough_mono. lia. Qed.

Lemma searched_obtained h k h1 k1 o s h2 k2 :
  searched h k h1 k1 → obtained o s h1 k1 h2 k2 → (∀ x, fa_owns k2 x ↔ fa_owns k1 x) →
  obtained o s h k h2 k2.
Proof.
  intros [I1 R1 L1 P1 O1 E1 M1] [I2 R2 C2 F2 W2 E2 L2 M2] Hown. split; try done.
  - by transitivity k1.
  - intros s'. rewrite <- L1. apply F2.
  - intros x Hx. destruct (W2 x Hx) as [?|?]; [left; by apply O1|]. destruct (P1 x) as [?|?]; auto.
  - intros n Hn. eapply enough_owns; [exact Hown|auto].
  - intros o' s'. by rewrite L2, L1.
  - intros x Hx Hp. rewrite M2; [by apply M1|by intros ?%O1|]. intros [?|?]%P1; done.
Qed.

(** Round of the search at a slab without free objects that has a successor. *)
Lemma round_next h k p q sz post pre c i :
  heap_inv h k → k_heap k !! i = Some c → chains h !! i = Some (pre ++ p :: q :: post) →
  slabs h !! p = Some (sz, []) →
  allocate_with_slab_round (p + k_hhdm k) k = Ok (inl (q + k_hhdm k), k).
Proof.
  intros Hi Hc Hps Hp. destruct (cache_lookup h k i c _ Hi Hc Hps) as (_ & _ & Hch & Hin).
  destruct (hi_slabs h k Hi _ _ _ Hp) as [_ Hsl]. pose proof (fa_hhdm k (hi_fa h k Hi)) as [Ho1 Ho2].
  assert (∀ d, 0 <= d < 4096 → hhdm_phys k (u64 (p + k_hhdm k + d)) = p + d) as Hf.
  { intros d Hd. destruct (slab_page_range h k _ _ _ Hi Hp) as (_ & Hr & _).
    unfold hhdm_phys. rewrite u64_sub_l. replace (p + k_hhdm k + d - k_hhdm k) with (p + d) by lia.
    apply u64_id. unfold is_u64. lia. }
  apply chain_split in Hch as [Hnext _]. pose proof (sl_objs _ _ _ _ _ Hsl) as Hob. cbn in Hob.
  unfold allocate_with_slab_round, load64, bind, gets, objects, other_slabs, ret.
  rewrite Hf, Hob by lia. cbn [Z.eqb negb].
  replace (u64 (p + k_hhdm k)) with (u64 (p + k_hhdm k + 0)) by (f_equal; lia).
  rewrite Hf, Z.add_0_r, Hnext by lia.
  assert (0 < q) as Hq.
  { destruct (Hin q) as [F HF]; [apply elem_of_app; right; apply elem_of_cons; right; apply elem_of_cons; by left|].
    apply (slab_page_range h k _ _ _ Hi HF). }
  by rewrite (proj2 (Z.eqb_neq (q + k_hhdm k) 0)) by lia.
Qed.

(** Round at the last slab, which is full: a slab is added. *)
Lemma round_grow h k p pre c i :
  heap_inv h k → can_lock pmm_spinlock k → (∃ q, fa_owns k q) →
  k_heap k !! i = Some c → chains h !! i = Some (pre ++ [p]) → slabs h !! p = Some (sc_size c, []) →
  wp (allocate_with_slab_round (p + k_hhdm k)) k (λ r k', ∃ q, r = inl (q + k_hhdm k) ∧
    slabs h !! q = None ∧ searched h k (add_slab h i q (sc_size c)) k').
Proof.
  intros Hi Hlock Hex Hc Hps Hp. destruct (cache_lookup h k i c _ Hi Hc Hps) as (Hcl & _ & Hch & Hin).
  destruct (hi_slabs h k Hi _ _ _ Hp) as [_ Hsl]. pose proof (fa_hhdm k (hi_fa h k Hi)) as [Ho1 Ho2].
  destruct (slab_page_range h k _ _ _ Hi Hp) as (Hal & Hr & Hno).
  assert (∀ k0 d, k_hhdm k0 = k_hhdm k → 0 <= d < 4096 → hhdm_phys k0 (u64 (p + k_hhdm k + d)) = p + d) as Hf.
  { intros k0 d Hk Hd. unfold hhdm_phys. rewrite Hk, u64_sub_l.
    replace (p + k_hhdm k + d - k_hhdm k) with (p + d) by lia. apply u64_id. unfold is_u64. lia. }
  apply chain_split in Hch. pose proof (sl_objs _ _ _ _ _ Hsl) as Hob. cbn in Hob, Hch.
  unfold allocate_with_slab_round. apply wp_bind, (wp_load64 _ _ (p + 24)); [by apply Hf|].
  rewrite Hob. cbn [Z.eqb negb]. unfold other_slabs.
  replace (u64 (p + k_hhdm k)) with (u64 (p + k_hhdm k + 0)) by (f_equal; lia).
  apply wp_bind, (wp_load64 _ _ p); [rewrite Hf by lia; lia|]. rewrite Hch. cbn [Z.eqb negb].
  apply wp_bind, (wp_load64 _ _ (p + 8)); [by apply Hf|]. rewrite (sl_size _ _ _ _ _ Hsl).
  apply wp_bind. eapply wp_mono; [apply new_slab_spec; (done || apply Hi)|].
  intros slab k1 (q & -> & Hfr). pose proof (sr_hhdm _ _ (fs_rest _ _ _ _ Hfr)) as Hh1.
  pose proof (fa_range k q (hi_fa h k Hi) (fs_was _ _ _ _ Hfr)) as Hqr.
  apply wp_bind, (wp_store64 _ _ p); [rewrite Hf by (done || lia); lia|]. apply wp_ret.
  exists q. split; [done|].
  assert (page_write p k1 (set_mem k1 (write64 (k_mem k1) p (q + k_hhdm k)))) as Hw
    by (apply write64_page_write; Z.div_mod_to_equations; lia).
  assert (read64 (k_mem (set_mem k1 (write64 (k_mem k1) p (q + k_hhdm k)))) p = q + k_hhdm k) as Hlk.
  { cbn. rewrite read64_write64_eq. apply u64_id. unfold is_u64. lia. }
  assert (∀ x, ¬ (p <= x < p + 8) → read8 (k_mem (set_mem k1 (write64 (k_mem k1) p (q + k_hhdm k)))) x =
    read8 (k_mem k1) x) as Hlow by (intros x Hx; cbn; by apply read8_write_le_out).
  split; [|by apply (grow_searched h k k1 _ i c pre p q)].
  by apply (grow_new_page h k k1 _ i c pre p q Hi Hc Hps Hfr Hw Hlow Hlk).
Qed.

(** The state of the search: the slabs before [p] are full. *)
Definition searching (i : nat) (c : slab_cache) (h : heap_g) (k : kernel) (n slab : Z) (k' : kernel) : Prop :=
  ∃ h' pre p F post, searched h k h' k' ∧ chains h' !! i = Some (pre ++ p :: post) ∧
    slabs h' !! p = Some (sc_size c, F) ∧ slab = p + k_hhdm k ∧
    n = 2 * Z.of_nat (length post) + (if decide (F = []) then 1 else 0) ∧
    (h' = h ∧ k' = k ∨ F ≠ []).

(** A chain is shorter than the physical address space. *)
Lemma chain_length h k i ps : heap_inv h k → chains h !! i = Some ps → Z.of_nat (length ps) <= 2 ^ 46.
Proof.
  intros Hi Hps. apply (NoDup_bounded ps (2 ^ 46)).
  - by eapply NoDup_concat_lookup; [apply Hi|].
  - intros x Hx. destruct (chain_slab h k x Hi) as [[sz F] HF]; [by eapply elem_of_concat_lookup|].
    destruct (slab_page_range h k x sz F Hi HF) as (_ & ? & _). lia.
Qed.

Lemma searching_round h k i c n slab k' :
  can_lock pmm_spinlock k → (∃ q, fa_owns k q) → k_heap k !! i = Some c →
  searching i c h k n slab k' →
  wp (allocate_with_slab_round slab) k' (λ r k2, match r with
    | inl slab' => ∃ n', 0 <= n' < n ∧ searching i c h k n' slab' k2
    | inr r => ∃ o h', r = o + k_hhdm k ∧ obtained o (sc_size c) h k h' k2
    end).
Proof.
  intros Hlock Hex Hc (h' & pre & p & F & post & Hs & Hps & HF & -> & -> & Hfresh).
  pose proof (sr_hhdm _ _ (se_rest _ _ _ _ Hs)) as Hh. rewrite <- Hh.
  destruct F as [|o F].
  2: { eapply wp_mono; [by apply (round_take h' k' p (sc_size c) o F); [apply Hs|]|].
       intros r k2 (-> & Hob & Hown). exists o, (set_slab h' p (sc_size c) F). rewrite Hh. split; [done|].
       by eapply searched_obtained. }
  destruct Hfresh as [[-> ->]|]; [|done]. pose proof (se_inv _ _ _ _ Hs) as Hi.
  pose proof (cache_lookup h k i c _ Hi Hc Hps) as (Hcl & _ & _ & Hin).
  rewrite decide_True by done. destruct post as [|q post].
  - eapply wp_mono; [by apply (round_grow h k p pre c i)|]. intros r k2 (q & -> & Hqn & Hs2).
    exists 0. split; [cbn; lia|].
    exists (add_slab h i q (sc_size c)), (pre ++ [p]), q, (slots_down q (sc_size c) (Z.to_nat (capacity (sc_size c)))), [].
    pose proof (capacity_bounds _ Hcl) as [Hcap _].
    assert (slots_down q (sc_size c) (Z.to_nat (capacity (sc_size c))) ≠ []) as Hne.
    { intros Hnil. apply (f_equal length) in Hnil. rewrite length_slots_down in Hnil. cbn in Hnil. lia. }
    rewrite decide_False by done. split_and!; try done; [|cbn; by rewrite lookup_insert_eq|by right].
    cbn. by rewrite list_lookup_alter_eq, Hps.
  - eapply wp_ok; [by eapply (round_next h k p q)|].
    destruct (Hin q) as [F HF']; [apply elem_of_app; right; apply elem_of_cons; right; apply elem_of_cons; by left|].
    exists (2 * Z.of_nat (length post) + (if decide (F = []) then 1 else 0)). split; [case_decide; cbn; lia|].
    exists h, (pre ++ [p]), q, F, post. rewrite <- app_assoc. split_and!; try done. by left.
Qed.

Lemma allocate_with_slab_spec h k i c ps :
  heap_inv h k → can_lock pmm_spinlock k → (∃ q, fa_owns k q) →
  k_heap k !! i = Some c → chains h !! i = Some ps →
  wp (allocate_with_slab (sc_slabs c)) k (λ r k', ∃ o h', r = o + k_hhdm k ∧ obtained o (sc_size c) h k h' k').
Proof.
  intros Hi Hlock Hex Hc Hps. destruct (cache_lookup h k i c ps Hi Hc Hps) as (Hcl & Hne & Hch & Hin).
  pose proof (chain_length h k i ps Hi Hps) as Hlen.
  destruct ps as [|p post]; [done|]. destruct Hch as [Hhead _]. rewrite Hhead. cbn [length] in Hlen.
  destruct (Hin p) as [F HF]; [apply elem_of_cons; by left|].
  unfold allocate_with_slab.
  eapply (wp_while _ (searching i c h k) _); [intros; by apply searching_round|..].
  2: { exists h, [], p, F, post. split_and!; try done; [by apply searched_refl|by left]. }
  case_decide; lia.
Qed.

(** ** [kmalloc] and [kfree] *)

Lemma kmalloc_loop_spec h k sz j caches :
  heap_inv h k → can_lock pmm_spinlock k → (∃ q, fa_owns k q) →
  caches = drop j (k_heap k) → (∃ c, c ∈ caches ∧ sz <= sc_size c) →
  wp (kmalloc_loop caches sz) k (λ r k', ∃ o s h', r = o + k_hhdm k ∧ sz <= s ∧ obtained o s h k h' k').
Proof.
  intros Hi Hlock Hex. revert j. induction caches as [|c caches IH]; intros j Hd (c0 & Hc0 & Hsz).
  { by apply not_elem_of_nil in Hc0. }
  assert (k_heap k !! j = Some c) as Hj.
  { rewrite <- (Nat.add_0_r j), <- lookup_drop, <- Hd. done. }
  cbn [kmalloc_loop]. destruct (Z.leb_spec sz (sc_size c)) as [Hle|Hgt].
  - destruct (Forall2_lookup_l _ _ _ j c (hi_caches h k Hi) Hj) as (ps & Hps & _).
    eapply wp_mono; [by eapply (allocate_with_slab_spec h k j c ps)|].
    intros r k' (o & h' & -> & Hob). by exists o, (sc_size c), h'.
  - apply (IH (S j)).
    + rewrite <- Nat.add_1_l, Nat.add_comm. rewrite <- drop_drop, <- Hd. done.
    + apply elem_of_cons in Hc0 as [->|Hc0]; [lia|]. by exists c0.
Qed.

Lemma kmalloc_spec h k sz :
  heap_inv h k → can_lock pmm_spinlock k → (∃ q, fa_owns k q) →
  (∃ c, c ∈ k_heap k ∧ sz <= sc_size c) →
  wp (kmalloc sz) k (λ r k', ∃ o s h', r = o + k_hhdm k ∧ sz <= s ∧ obtained o s h k h' k').
Proof. intros Hi Hlock Hex Hsz. unfold kmalloc. wp_step. by apply (kmalloc_loop_spec h k sz 0). Qed.

Lemma kmalloc_loop_panics k sz caches :
  (∀ c, c ∈ caches → sc_size c < sz) → kmalloc_loop caches sz k = Panic "no mem".
Proof.
  induction caches as [|c caches IH]; intros Hc; [done|]. cbn [kmalloc_loop].
  pose proof (Hc c ltac:(apply elem_of_cons; by left)). destruct (Z.leb_spec sz (sc_size c)); [lia|].
  apply IH. intros c' Hc'. apply Hc, elem_of_cons. by right.
Qed.

(** What [kfree] does: exactly the object [o] stops being live. *)
Record given_back (o s : Z) (h : heap_g) (k : kernel) (h' : heap_g) (k' : kernel) : Prop := mk_given_back {
  gb_inv : heap_inv h' k';
  gb_rest : same_rest k k';
  gb_pmm : k_pmm k' = k_pmm k;
  gb_live : ∀ o' s', live h' o' s' ↔ live h o' s' ∧ o' ≠ o;
  gb_mem : ∀ x, ¬ private h x → ¬ (o <= x < o + s) → read8 (k_mem k') x = read8 (k_mem k) x
}.

Section give.
Context (h : heap_g) (k : kernel) (p s o : Z) (F : list Z).
Context (Hi : heap_inv h k) (Hp : slabs h !! p = Some (s, F)) (Hs : slot p s o) (Hno : o ∉ F).
Set Default Proof Using "All".

Lemma give_given_back k' :
  same_rest k k' → k_pmm k' = k_pmm k →
  (∀ x, ¬ (p + 16 <= x < p + 32) → ¬ (o <= x < o + s) → read8 (k_mem k') x = read8 (k_mem k) x) →
  read64 (k_mem k') (p + 24) = o + k_hhdm k →
  read64 (k_mem k') (p + 16) = Z.of_nat (length F) + 1 →
  read64 (k_mem k') o = read64 (k_mem k) (p + 24) →
  given_back o s h k (set_slab h p s (o :: F)) k'.
Proof.
  intros Hr Hpm Hm Hob Ham Hnx. destruct (hi_slabs h k Hi _ _ _ Hp) as [Hc Hsl].
  pose proof (sl_aligned _ _ _ _ _ Hsl) as Hal. destruct (slot_bounds p s o Hc Hal Hs) as (Hlo & Hhi & _).
  assert (page_write p k k') as Hw.
  { split; [done..|]. intros x Hx. apply Hm; Z.div_mod_to_equations; lia. }
  assert (heap_inv (set_slab h p s (o :: F)) k') as Hi'.
  { apply (heap_inv_slab h k k' p s F); [done..| |by apply (slab_ok_give (k_mem k))].
    apply le_read_ext. intros x Hx. apply Hm; lia. }
  split; try done.
  - intros o' s'. destruct (decide (o' = o)) as [->|Hne].
    + rewrite (live_at _ k' p s (o :: F)); [|done|cbn; by rewrite lookup_insert_eq|done].
      rewrite elem_of_cons. naive_solver.
    + rewrite (live_set_slab h k p s F (o :: F) o s' Hi Hp); [naive_solver| |done].
      intros o2 _ Hne2. rewrite elem_of_cons. naive_solver.
  - intros x Hpr Hx. apply Hm; [|done]. intros Hin. apply Hpr. apply (private_header h k p s F); [done..|lia].
Qed.

Lemma free_count : Z.of_nat (length F) <= 127.
Proof.
  destruct (hi_slabs h k Hi _ _ _ Hp) as [Hc Hsl]. pose proof (capacity_bounds s Hc) as [Hcap _].
  assert (F ⊆+ slots_down p s (Z.to_nat (capacity s))) as Hsub.
  { apply NoDup_submseteq; [apply Hsl|]. intros x Hx. apply elem_of_slots_down.
    destruct (sl_slots _ _ _ _ _ Hsl x Hx) as (j & Hj & ->). exists j. split; [lia|done]. }
  apply submseteq_length in Hsub. rewrite length_slots_down in Hsub. lia.
Qed.

Lemma header_of_object : ALIGN_DOWN (o + k_hhdm k) PAGE_SIZE = p + k_hhdm k.
Proof.
  destruct (hi_slabs h k Hi _ _ _ Hp) as [Hc Hsl]. destruct (slab_page_range h k _ _ _ Hi Hp) as (Hal & Hr & _).
  destruct (slot_bounds p s o Hc Hal Hs) as (Hlo & Hhi & _). pose proof (hi_off h k Hi) as Hoff.
  pose proof (fa_hhdm k (hi_fa h k Hi)) as [Ho1 Ho2]. pose proof (proj1 Hc) as Hsz.
  rewrite ALIGN_DOWN_page by (unfold is_u64; Z.div_mod_to_equations; lia).
  Z.div_mod_to_equations. lia.
Qed.

Lemma kfree_run :
  wp (kfree (o + k_hhdm k)) k (λ _ k', given_back o s h k (set_slab h p s (o :: F)) k').
Proof.
  destruct (hi_slabs h k Hi _ _ _ Hp) as [Hc Hsl]. destruct (slab_page_range h k _ _ _ Hi Hp) as (Hal & Hr & _).
  destruct (slot_bounds p s o Hc Hal Hs) as (Hlo & Hhi & _). pose proof free_count as Hcnt.
  assert (p + 4096 <= 2 ^ 46) as Htop by (Z.div_mod_to_equations; lia).
  pose proof (fa_hhdm k (hi_fa h k Hi)) as [Ho1 Ho2]. pose proof (proj1 Hc) as Hsz.
  assert (∀ k0 d, k_hhdm k0 = k_hhdm k → 0 <= d < 4096 → hhdm_phys k0 (u64 (p + k_hhdm k + d)) = p + d) as Hf.
  { intros k0 d Hk Hd. unfold hhdm_phys. rewrite Hk, u64_sub_l.
    replace (p + k_hhdm k + d - k_hhdm k) with (p + d) by lia. apply u64_id. unfold is_u64. lia. }
  assert (∀ k0, k_hhdm k0 = k_hhdm k → hhdm_phys k0 (o + k_hhdm k) = o) as Hfo.
  { intros k0 Hk. rewrite <- Hk. apply hhdm_phys_add. lia. }
  pose proof (sl_objs _ _ _ _ _ Hsl) as Hob. pose proof (sl_am _ _ _ _ _ Hsl) as Ham.
  unfold kfree. rewrite (proj2 (Z.eqb_neq (o + k_hhdm k) 0)), header_of_object by lia.
  apply wp_bind, (wp_load64 _ _ (p + 8)); [by apply Hf|]. rewrite (sl_size _ _ _ _ _ Hsl).
  unfold memset. apply wp_bind, wp_modify. rewrite Hfo by done. set (k1 := set_mem k _).
  assert (∀ d, 8 <= d → d + 8 <= 32 → read64 (k_mem k1) (p + d) = read64 (k_mem k) (p + d)) as Hk1.
  { intros d H1 H2. apply read64_memset_out. lia. }
  apply wp_bind, (wp_load64 _ _ (p + 24)); [by apply Hf|]. rewrite Hk1 by lia.
  assert (∀ x, ¬ (o <= x < o + s) → read8 (k_mem k1) x = read8 (k_mem k) x) as Hk1x
    by (intros x Hx; by apply read8_memset_out).
  destruct (Z.eqb_spec (read64 (k_mem k) (p + 24)) 0) as [Hz|Hnz].
  - apply wp_bind, (wp_store64 _ _ (p + 24)); [by apply Hf|].
    apply wp_bind, (wp_load64 _ _ (p + 16)); [by apply Hf|].
    apply (wp_store64 _ _ (p + 16)); [by apply Hf|]. cbn [k_mem set_mem]. rewrite read64_write64_ne, Hk1, Ham by lia.
    apply give_given_back; cbn [k_mem set_mem]; try done.
    + intros x Hx Hx'. unfold write64. rewrite !read8_write_le_out by lia. by apply Hk1x.
    + rewrite read64_write64_ne, read64_write64_eq by lia. apply u64_id. unfold is_u64. lia.
    + rewrite read64_write64_eq, u64_u64. apply u64_id. unfold is_u64. lia.
    + rewrite !read64_write64_ne by lia. rewrite Hz. apply read64_memset_zero; lia.
  - apply wp_bind, (wp_store64 _ _ o); [by apply Hfo|].
    apply wp_bind, (wp_store64 _ _ (p + 24)); [by apply Hf|].
    apply wp_bind, (wp_load64 _ _ (p + 16)); [by apply Hf|].
    apply (wp_store64 _ _ (p + 16)); [by apply Hf|]. cbn [k_mem set_mem]. rewrite !read64_write64_ne, Hk1, Ham by lia.
    apply give_given_back; cbn [k_mem set_mem]; try done.
    + intros x Hx Hx'. unfold write64. rewrite !read8_write_le_out by lia. by apply Hk1x.
    + rewrite read64_write64_ne, read64_write64_eq by lia. apply u64_id. unfold is_u64. lia.
    + rewrite read64_write64_eq, u64_u64. apply u64_id. unfold is_u64. lia.
    + rewrite !read64_write64_ne, read64_write64_eq by lia. apply u64_id, read64_is_u64.
Qed.
End give.

Lemma kfree_spec h k o s :
  heap_inv h k → live h o s → wp (kfree (o + k_hhdm k)) k (λ _ k', ∃ h', given_back o s h k h' k').
Proof.
  intros Hi (p & F & Hp & Hs & Hno). eapply wp_mono; [by apply (kfree_run h k p s o F)|].
  intros u k' Hg. by exists (set_slab h p s (o :: F)).
Qed.

(** ** Initialisation *)

(** A cache whose only slab is fresh joins the heap. *)
Lemma heap_inv_add h k k1 k2 q sz cs :
  heap_inv h (set_heap k cs) → class_ok sz → fresh_slab q sz k k1 →
  k_mem k2 = k_mem k1 → k_hhdm k2 = k_hhdm k1 → k_pmm k2 = k_pmm k1 →
  k_heap k2 = cs ++ [mk_cache sz (q + k_hhdm k)] →
  heap_inv (mk_heap_g (<[q := (sz, slots_down q sz (Z.to_nat (capacity sz)))]> (slabs h)) (chains h ++ [[q]])) k2.
Proof.
  intros Hi Hc Hf Em Eh Ep Ehp. pose proof (hi_fa _ _ Hi) as Hfa0.
  assert (k_hhdm k1 = k_hhdm k) as Hh1 by apply Hf.
  destruct (fa_frame (set_heap k cs) k Hfa0) as (Hfa & Hown & Hlent); [done..|].
  destruct (fa_frame k1 k2 (fs_inv _ _ _ _ Hf)) as (Hfa2 & Hown2 & Hlent2); [done..|by rewrite Em|].
  assert (∀ x, is_Some (slabs h !! x) → ¬ fa_owns k x) as Hno.
  { intros x Hx. rewrite Hown. by apply (fa_lent_range _ x Hfa0), (hi_lent _ _ Hi). }
  assert (slabs h !! q = None) as Hqn.
  { destruct (slabs h !! q) eqn:Hq; [|done]. exfalso. apply (Hno q); [by eexists|apply Hf]. }
  assert (∀ x y, is_Some (slabs h !! x) → x / 4096 = y / 4096 → read8 (k_mem k2) y = read8 (k_mem k) y) as Hsame.
  { intros x y Hx Hxy. rewrite Em. apply Hf. intros Hy. apply (Hno x Hx).
    by apply (fa_page k y x). }
  split; cbn; try rewrite Eh, Hh1; try done.
  - apply Hi.
  - rewrite Ehp. apply Forall2_app.
    + eapply Forall2_impl; [apply Hi|]. intros c ps (Hcc & Hne & Hch & Hin). cbn in Hch. split_and!; try done.
      * eapply chain_ext; [|exact Hch]. intros x Hx. destruct (Hin x Hx) as [F HF].
        destruct (hi_slabs _ _ Hi _ _ _ HF) as [_ [Hal _]].
        apply le_read_ext. intros y Hy. apply (Hsame x); [by eexists|]. Z.div_mod_to_equations. lia.
      * intros x Hx. destruct (Hin x Hx) as [F HF]. exists F. cbn. rewrite lookup_insert_ne; [done|]. congruence.
    + repeat constructor; cbn; try done.
      * by apply Hc.
      * by apply Hc.
      * apply Hc.
      * rewrite Em. apply Hf.
      * intros x ->%list_elem_of_singleton. rewrite lookup_insert_eq. eauto.
  - intros x sx F. destruct (decide (x = q)) as [->|Hxq].
    + rewrite lookup_insert_eq. intros [= <- <-]. split; [done|]. rewrite Em, <- Hh1. apply Hf.
    + rewrite lookup_insert_ne by done. intros Hx. destruct (hi_slabs _ _ Hi _ _ _ Hx) as [Hcx Hsx].
      pose proof (sl_aligned _ _ _ _ _ Hsx) as Hal. pose proof (proj1 Hcx). split; [done|].
      apply (slab_ok_ext (k_mem k)); [done| | |done].
      * intros y Hy. apply (Hsame x); [by eexists|]. Z.div_mod_to_equations. lia.
      * intros o y Ho Hy. destruct (slot_bounds x sx o Hcx Hal (sl_slots _ _ _ _ _ Hsx o Ho)) as (? & ? & _).
        apply (Hsame x); [by eexists|]. Z.div_mod_to_equations. lia.
  - intros x Hx. rewrite Hlent2, (fs_lent _ _ _ _ Hf). destruct (decide (x = q)) as [->|Hxq]; [by right|].
    rewrite lookup_insert_ne in Hx by done. left. rewrite Hlent. by apply (hi_lent _ _ Hi).
  - rewrite concat_app. cbn. apply NoDup_app. split_and!; [apply Hi| |apply NoDup_singleton].
    intros x Hx ->%list_elem_of_singleton. destruct (chain_slab _ _ q Hi Hx). congruence.
Qed.

(** The first caches have been set up, nothing is live. *)
Record heap_up (szs : list Z) (n : Z) (k0 k : kernel) (h : heap_g) : Prop := mk_heap_up {
  hu_inv : heap_inv h (set_heap k (take (length szs) (k_heap k)));
  hu_sizes : sc_size <$> take (length szs) (k_heap k) = szs;
  hu_len : length (k_heap k) = 6%nat;
  hu_live : ∀ o s, ¬ live h o s;
  hu_enough : enough n k;
  hu_cpu : k_cpu k = k_cpu k0 ∧ k_locks k = k_locks k0 ∧ k_hhdm k = k_hhdm k0 ∧
           k_pagemaps k = k_pagemaps k0 ∧ k_sched k = k_sched k0;
  hu_mem : ∀ x, ¬ fa_owns k0 x → ¬ fa_owns k x ∧ read8 (k_mem k) x = read8 (k_mem k0) x
}.

Lemma fresh_live h q sz ps o s :
  live (mk_heap_g (<[q := (sz, slots_down q sz (Z.to_nat (capacity sz)))]> (slabs h)) ps) o s → live h o s.
Proof.
  intros (x & F & Hx & Hs & Hno). cbn in Hx. destruct (decide (x = q)) as [->|Hxq].
  - rewrite lookup_insert_eq in Hx. injection Hx as <- <-. exfalso. apply Hno, elem_of_slots_down.
    destruct Hs as (j & Hj & ->). exists j. split; [lia|done].
  - rewrite lookup_insert_ne in Hx by done. by exists x, F.
Qed.

Lemma init_slabcache_spec szs n k0 k h sz :
  heap_up szs n k0 k h → can_lock pmm_spinlock k0 → 0 < n → (length szs < 6)%nat → class_ok sz →
  wp (init_slabcache sz) k (λ c k1, ∃ h',
    heap_up (szs ++ [sz]) (n - 1) k0 (set_heap k1 (<[length szs := c]> (k_heap k1))) h').
Proof.
  intros [Hi Hsz Hlen Hlive Hen (Hcpu & Hlk & Hhh & Hpm & Hsc) Hm] Hlock Hn Hlt Hc.
  assert (can_lock pmm_spinlock k) as Hlock' by (destruct Hlock; split; congruence).
  destruct (fa_frame _ k (hi_fa _ _ Hi)) as (Hfa & _ & _); [done..|].
  unfold init_slabcache. apply wp_bind.
  eapply wp_mono; [apply new_slab_spec; [done..|by eapply enough_some]|].
  intros slab k1 (q & -> & Hf). pose proof (fs_rest _ _ _ _ Hf) as R. destruct R as [R1 R2 R3 R4 R5 R6 R7].
  apply wp_ret. set (c := mk_cache sz (q + k_hhdm k)).
  set (k2 := set_heap k1 (<[length szs := c]> (k_heap k1))).
  assert (take (length (szs ++ [sz])) (k_heap k2) = take (length szs) (k_heap k) ++ [c]) as Htk.
  { cbn. rewrite R4, length_app, Nat.add_1_r, (take_S_r _ _ c); [|apply list_lookup_insert_eq; lia].
    f_equal. by rewrite take_insert_ge. }
  destruct (fa_frame k1 k2 (fs_inv _ _ _ _ Hf)) as (_ & Hown & _); [done..|].
  eexists. split; rewrite ?Htk.
  - by eapply (heap_inv_add h k k1).
  - rewrite fmap_app, Hsz. done.
  - cbn. by rewrite length_insert, R4.
  - intros o s Hl. by apply fresh_live, Hlive in Hl.
  - eapply enough_owns; [exact Hown|]. eapply (enough_handed_out n q k k1); [apply Hf|apply Hf|done].
  - cbn. split_and!; congruence.
  - intros x Hx. destruct (Hm x Hx) as [Hx' Hmx]. rewrite Hown, (fs_owns _ _ _ _ Hf). split; [naive_solver|].
    cbn. rewrite (fs_mem _ _ _ _ Hf) by done. done.
Qed.

Definition cache_sizes : list Z := [32; 64; 128; 256; 512; 1024].

Lemma setup_heap_spec k :
  fa_inv k → can_lock pmm_spinlock k → k_hhdm k mod 4096 = 0 → length (k_heap k) = 6%nat → enough 6 k →
  wp setup_heap k (λ _ k', ∃ h', heap_up cache_sizes 0 k k' h').
Proof.
  intros Hfa Hlock Hoff Hlen Hen.
  assert (heap_up [] 6 k k (mk_heap_g ∅ [])) as H0.
  { split; try done. split; cbn; try done.
    - destruct (fa_frame k (set_heap k (take 0 (k_heap k))) Hfa) as (? & _); done.
    - intros p [? [=]].
    - constructor.
    - by intros o s (p & F & [=] & _). }
  unfold setup_heap, set_cache.
  do 5 (apply wp_bind; eapply wp_mono; [eapply init_slabcache_spec; [eassumption|done|lia|cbn; lia|by split]|];
    clear H0; intros ? ? [? H0]; cbn [length app] in H0; apply wp_bind, wp_modify; cbn in H0).
  apply wp_bind. eapply wp_mono; [eapply init_slabcache_spec; [eassumption|done|lia|cbn; lia|by split]|].
  clear H0. intros ? ? [h' H0]. apply wp_modify. exists h'. exact H0.
Qed.

Lemma heap_up_done k0 k h :
  heap_up cache_sizes 0 k0 k h → heap_inv h k ∧ sc_size <$> k_heap k = cache_sizes.
Proof.
  intros [Hi Hsz Hlen _ _ _ _].
  assert (take (length cache_sizes) (k_heap k) = k_heap k) as Ht by (apply take_ge; rewrite Hlen; done).
  rewrite Ht in *. split; [|done]. replace k with (set_heap k (k_heap k)) by (by destruct k). done.
Qed.
End heap.

(** * The heap over the physical memory manager *)

(** (C4) [kmalloc]: a request that some size class can hold returns, as long as a
    frame is left, the direct-map address of a 16-byte aligned object of at
    least that size; the object was not live, overlaps no live object, and no
    live object and no memory outside the heap has changed. *)
Theorem kmalloc_correct h k sz :
  heap_inv h k → can_lock pmm_spinlock k → (∃ q, available k q) →
  (∃ c, c ∈ k_heap k ∧ sz <= sc_size c) →
  ∃ o s h' k', kmalloc sz k = Ok (o + k_hhdm k, k') ∧ sz <= s ∧ obtained o s h k h' k' ∧
    o mod 16 = 0 ∧ ∀ o' s', live h o' s' → o + s <= o' ∨ o' + s' <= o.
Proof.
  intros Hi Hlock Hex Hsz.
  destruct (wp_inv _ _ _ (kmalloc_spec h k sz Hi Hlock Hex Hsz)) as (r & k' & Hr & o & s & h' & -> & Hle & Hob).
  exists o, s, h', k'. pose proof (ob_inv _ _ _ _ _ _ Hob) as Hi'.
  assert (live h' o s) as Hl by (apply (ob_live _ _ _ _ _ _ Hob); by right).
  split_and!; [done..| |].
  - destruct Hl as (p & F & Hp & Hs & _). destruct (hi_slabs _ _ Hi' _ _ _ Hp) as [Hc Hsl].
    by apply (slot_bounds p s o Hc (sl_aligned _ _ _ _ _ Hsl)).
  - intros o' s' Hl'. apply (live_apart h' k'); [done..|by apply (ob_live _ _ _ _ _ _ Hob); left|].
    intros ->. by apply (ob_fresh _ _ _ _ _ _ Hob s').
Qed.

(** (C5) [kfree]: giving back a live object succeeds without any lock, ends the
    life of exactly that object and leaves every other live object and all
    memory outside the heap as it was; a null pointer is ignored. *)
Theorem kfree_correct h k o s :
  heap_inv h k → live h o s →
  (∃ h' k', kfree (o + k_hhdm k) k = Ok (tt, k') ∧ given_back o s h k h' k') ∧ kfree 0 k = Ok (tt, k).
Proof.
  intros Hi Hl. split; [|done].
  destruct (wp_inv _ _ _ (kfree_spec h k o s Hi Hl)) as ([] & k' & Hr & h' & Hg). by exists h', k'.
Qed.

(** [setup_heap]: with six frames left it returns; the heap has the six
    size classes, holds no live object, and no memory in use has changed. *)
Theorem setup_heap_correct l k :
  pmm_inv l k → can_lock pmm_spinlock k → k_hhdm k mod 4096 = 0 → length (k_heap k) = 6%nat → enough 6 k →
  ∃ h' k', setup_heap k = Ok (tt, k') ∧ heap_inv h' k' ∧ sc_size <$> k_heap k' = cache_sizes ∧
    (∀ o s, ¬ live h' o s) ∧ (∀ x, ¬ available k x → read8 (k_mem k') x = read8 (k_mem k) x).
Proof.
  intros Hl Hlock Hoff Hlen Hen.
  destruct (wp_inv _ _ _ (setup_heap_spec (FA := pmm_allocator) k (ex_intro _ l Hl) Hlock Hoff Hlen Hen)) as ([] & k' & Hr & h' & Hu).
  destruct (heap_up_done k k' h' Hu) as [Hi Hsz]. exists h', k'. split_and!; [done..| |].
  - apply Hu.
  - intros x Hx. by apply (hu_mem _ _ _ _ _ Hu).
Qed.

(** Size limit: a request above 1024 bytes panics, whatever the heap holds. *)
Theorem kmalloc_too_large k sz :
  sc_size <$> k_heap k = cache_sizes → 1024 < sz → kmalloc sz k = Panic "no mem".
Proof.
  intros Hs Hsz. unfold kmalloc, bind, gets. apply kmalloc_loop_panics. intros c Hc.
  assert (sc_size c ∈ cache_sizes) as Hin by (rewrite <- Hs; by apply list_elem_of_fmap_2).
  unfold cache_sizes in Hin. rewrite !elem_of_cons, elem_of_nil in Hin. lia.
Qed.
