(* ===== verification/HeapBoot.v ===== *)
(** The heap of the booted kernel: the hypotheses of the heap theorems hold on
    the state the boot sequence reaches. *)
From stdpp Require Import base tactics list gmap sets strings.
From Stdlib Require Import ZArith Lia.
From S2P Require Import Prelude Bits State Spinlock Pmm PmmInv PmmBoot FrameAlloc Heap HeapInv.

Module HeapUp.
Lemma six_frames : enough 6 Booted.kernel1.
Proof.
  exists [0x21a000; 0x21b000; 0x21c000; 0x21d000; 0x21e000; 0x21f000].
  split_and!; [repeat constructor; rewrite ?elem_of_cons, ?elem_of_nil; lia|cbn; lia|].
  intros p Hp. rewrite !elem_of_cons, elem_of_nil in Hp.
  destruct Hp as [->|[->|[->|[->|[->|[->|[]]]]]]]; (split; [reflexivity|left; vm_compute; reflexivity]).
Qed.

Lemma kernel1_rest :
  k_hhdm Booted.kernel1 = Booted.hhdm ∧ length (k_heap Booted.kernel1) = 6%nat.
Proof. destruct Booted.kernel1_ok as (_ & [] & _). split; [done|by rewrite sr_heap]. Qed.

Definition kernel3 : kernel :=
  match setup_heap Booted.kernel1 with Ok (_, k) => k | _ => Booted.kernel1 end.

Lemma kernel3_ok : ∃ h, heap_up cache_sizes 0 Booted.kernel1 kernel3 h.
Proof.
  destruct Booted.kernel1_ok as (Hl & _ & _). destruct kernel1_rest as [Hh Hlen].
  destruct (wp_inv _ _ _ (setup_heap_spec (FA := pmm_allocator) Booted.kernel1 Hl (Booted.kernel1_can_lock _)
    ltac:(rewrite Hh; reflexivity) Hlen six_frames)) as (u & k & Hr & Hu).
  unfold kernel3. by rewrite Hr.
Qed.

Lemma kernel3_lock lk : can_lock lk kernel3.
Proof.
  destruct kernel3_ok as (h & [_ _ _ _ _ (Hc & Hl & _) _]). destruct (Booted.kernel1_can_lock lk).
  split; congruence.
Qed.

Lemma kernel3_frame : available kernel3 0x210000.
Proof. left. vm_compute. reflexivity. Qed.

Lemma kernel3_class sz : sz <= 1024 → ∃ c, c ∈ k_heap kernel3 ∧ sz <= sc_size c.
Proof.
  intros Hsz. destruct kernel3_ok as (h & Hu). destruct (heap_up_done _ _ _ Hu) as [_ Hs].
  assert (1024 ∈ sc_size <$> k_heap kernel3) as Hin
    by (rewrite Hs; unfold cache_sizes; rewrite !elem_of_cons; by auto 10).
  apply list_elem_of_fmap in Hin as (c & Hc & Hin). exists c. split; [done|lia].
Qed.
#[global] Opaque kernel3.

(** The state after one allocation of 100 bytes. *)
Definition kernel4 : kernel := match kmalloc 100 kernel3 with Ok (_, k) => k | _ => kernel3 end.

Lemma kernel4_ok : ∃ h o s, heap_inv h kernel4 ∧ live h o s.
Proof.
  destruct kernel3_ok as (h & Hu). destruct (heap_up_done _ _ _ Hu) as [Hi _].
  destruct (wp_inv _ _ _ (kmalloc_spec h kernel3 100 Hi (kernel3_lock _)
    (ex_intro _ _ kernel3_frame) (kernel3_class 100 ltac:(lia)))) as (r & k & Hr & o & s & h' & -> & _ & Hob).
  unfold kernel4. rewrite Hr. exists h', o, s. split; [exact (ob_inv _ _ _ _ _ _ Hob)|].
  apply (proj2 (ob_live _ _ _ _ _ _ Hob o s)). right. split; reflexivity.
Qed.
End HeapUp.

Lemma setup_heap_correct_witness :
  ∃ h' k', setup_heap Booted.kernel1 = Ok (tt, k') ∧ heap_inv h' k'.
Proof.
  destruct Booted.kernel1_ok as ([l Hl] & _ & _). destruct HeapUp.kernel1_rest as [Hh Hlen].
  assert (k_hhdm Booted.kernel1 mod 4096 = 0) as Hoff by (rewrite Hh; reflexivity).
  destruct (setup_heap_correct l Booted.kernel1 Hl (Booted.kernel1_can_lock _) Hoff Hlen HeapUp.six_frames)
    as (h' & k' & H1 & H2 & _).
  exists h', k'. split; [exact H1|exact H2].
Defined.

Lemma kmalloc_correct_witness :
  ∃ o h k', kmalloc 100 HeapUp.kernel3 = Ok (o + k_hhdm HeapUp.kernel3, k') ∧ heap_inv h k'.
Proof.
  destruct HeapUp.kernel3_ok as (h & Hu). destruct (heap_up_done _ _ _ Hu) as [Hi _].
  destruct (kmalloc_correct h HeapUp.kernel3 100 Hi (HeapUp.kernel3_lock _)
    (ex_intro _ _ HeapUp.kernel3_frame) (HeapUp.kernel3_class 100 ltac:(lia)))
    as (o & s & h' & k' & H1 & _ & H2 & _).
  exists o, h', k'. split; [exact H1|exact (ob_inv _ _ _ _ _ _ H2)].
Defined.

Lemma kfree_correct_witness :
  ∃ h o s h' k', live h o s ∧ kfree (o + k_hhdm HeapUp.kernel4) HeapUp.kernel4 = Ok (tt, k') ∧ heap_inv h' k'.
Proof.
  destruct HeapUp.kernel4_ok as (h & o & s & Hi & Hl).
  destruct (proj1 (kfree_correct h HeapUp.kernel4 o s Hi Hl)) as (h' & k' & H1 & H2).
  exists h, o, s, h', k'. split; [exact Hl|split; [exact H1|exact (gb_inv _ _ _ _ _ _ H2)]].
Defined.

Lemma kmalloc_too_large_witness : kmalloc 1025 HeapUp.kernel3 = Panic "no mem".
Proof.
  destruct HeapUp.kernel3_ok as (h & Hu). destruct (heap_up_done _ _ _ Hu) as [_ Hs].
  exact (kmalloc_too_large HeapUp.kernel3 1025 Hs ltac:(lia)).
Defined.
