(* ===== verification/Vmm.v ===== *)
(** Page tables ([memory/vmm.c]), and at the end the processor's side of them: the
    four-level walk, and the accesses the kernel makes at virtual addresses
    outside the direct map. *)
From stdpp Require Import base tactics list gmap sets strings.
From Stdlib Require Import ZArith Lia.
From S2P Require Import Prelude Bits State Spinlock Pmm Heap.

Definition LARGE_PAGE_SIZE : Z := 0x200000.
Definition JUMBO_PAGE_SIZE : Z := 0x40000000.

Definition PTE_MASK : Z := 0x000ffffffffff000.
Definition PTE_PRESENT : Z := 0x1.
Definition PTE_WRITABLE : Z := 0x2.
Definition PTE_USER : Z := 0x4.
Definition PTE_PCD : Z := 0x10.
Definition PTE_PS : Z := 0x80.
Definition PTE_PAT : Z := 0x80.
Definition PTE_GLOBAL : Z := 0x100.
Definition PTE_LOCKED : Z := 0x200.
Definition PTE_NX : Z := 0x8000000000000000.

(** The address of the static object [kernel_pagemap]; only its identity matters. *)
Definition kernel_pagemap : Z := 0xffffffff80100000.

(** [pagemap->...] *)
Definition get_pagemap (pagemap : Z) : M kernel pagemap_t := λ k,
  match k_pagemaps k !! pagemap with
  | Some pm => Ok (pm, k)
  | None => Panic "Page Fault"
  end.
Definition put_pagemap (pagemap : Z) (pm : pagemap_t) : M kernel unit :=
  modify (λ k, set_pagemaps k (<[pagemap := pm]> (k_pagemaps k))).

Definition vmm_switch_to (pagemap : Z) : M kernel unit :=
  let* pm := get_pagemap pagemap in
  let* off := gets k_hhdm in
  modify (λ k, set_cpu k (set_cr3 (k_cpu k) (u64 (top_level pm - off)))).

(** [(virt_addr >> (12 + 9 * (level - 1))) & 0x1ff] *)
Definition pml_index (level virt_addr : Z) : Z :=
  Z.land (Z.shiftr virt_addr (12 + 9 * (level - 1))) 0x1ff.

(** [&table[i]] *)
Definition entry_ptr (table i : Z) : Z := u64 (table + 8 * i).

Definition is_present (entry : Z) : bool := negb (Z.land entry PTE_PRESENT =? 0).

(** The table an entry points to, through the direct map. *)
Definition next_table (entry off : Z) : Z := u64 (Z.land entry PTE_MASK + off).

(** [if (!(table[i] & PTE_PRESENT)) { ... allocate_page ... }], then the table it points to. *)
Definition ensure_table (table i : Z) : M kernel Z :=
  let* e := load64 (entry_ptr table i) in
  (if negb (is_present e) then
     let* new_page := allocate_page in
     store64 (entry_ptr table i) (Z.land new_page PTE_MASK) ;;;
     let* e := load64 (entry_ptr table i) in
     store64 (entry_ptr table i) (Z.lor e (Z.lor (Z.lor PTE_PRESENT PTE_WRITABLE) PTE_USER))
   else ret tt) ;;;
  let* e := load64 (entry_ptr table i) in
  let* off := gets k_hhdm in
  ret (next_table e off).

(** [table[i] = phys_addr & PTE_MASK; table[i] |= bits;] *)
Definition set_entry (table i phys_addr bits : Z) : M kernel unit :=
  store64 (entry_ptr table i) (Z.land phys_addr PTE_MASK) ;;;
  let* e := load64 (entry_ptr table i) in
  store64 (entry_ptr table i) (Z.lor e bits).

Definition vmm_map_page_sized (pagemap virt_addr phys_addr flags page_size : Z) : M kernel unit :=
  let* lock1r := spinlock_lock vmm_spinlock in
  let pml1i := pml_index 1 virt_addr in
  let pml2i := pml_index 2 virt_addr in
  let pml3i := pml_index 3 virt_addr in
  let pml4i := pml_index 4 virt_addr in
  let* pm := get_pagemap pagemap in
  let* pml3v := ensure_table (top_level pm) pml4i in
  if page_size =? JUMBO_PAGE_SIZE then
    set_entry pml3v pml3i phys_addr (Z.lor (Z.lor PTE_PRESENT PTE_PS) flags) ;;;
    spinlock_unlock vmm_spinlock lock1r
  else
  let* pml2v := ensure_table pml3v pml3i in
  if page_size =? LARGE_PAGE_SIZE then
    set_entry pml2v pml2i phys_addr (Z.lor (Z.lor PTE_PRESENT PTE_PS) flags) ;;;
    spinlock_unlock vmm_spinlock lock1r
  else
  let* pml1v := ensure_table pml2v pml2i in
  set_entry pml1v pml1i phys_addr (Z.lor PTE_PRESENT flags) ;;;
  spinlock_unlock vmm_spinlock lock1r.

Definition vmm_map_page (pagemap virt_addr phys_addr flags : Z) : M kernel unit :=
  vmm_map_page_sized pagemap virt_addr phys_addr flags PAGE_SIZE.

Definition vmm_get_phys (pagemap virt_addr : Z) : M kernel Z :=
  let* lock1r := spinlock_lock vmm_spinlock in
  let* pm := get_pagemap pagemap in
  let* off := gets k_hhdm in
  let* e4 := load64 (entry_ptr (top_level pm) (pml_index 4 virt_addr)) in
  if negb (is_present e4) then (spinlock_unlock vmm_spinlock lock1r ;;; ret 0) else
  let pml3v := next_table e4 off in
  let* e3 := load64 (entry_ptr pml3v (pml_index 3 virt_addr)) in
  if negb (is_present e3) then (spinlock_unlock vmm_spinlock lock1r ;;; ret 0) else
  let pml2v := next_table e3 off in
  let* e2 := load64 (entry_ptr pml2v (pml_index 2 virt_addr)) in
  if negb (is_present e2) then (spinlock_unlock vmm_spinlock lock1r ;;; ret 0) else
  let pml1v := next_table e2 off in
  let* e1 := load64 (entry_ptr pml1v (pml_index 1 virt_addr)) in
  if is_present e1 then
    spinlock_unlock vmm_spinlock lock1r ;;;
    let* e1 := load64 (entry_ptr pml1v (pml_index 1 virt_addr)) in
    ret (Z.land e1 PTE_MASK)
  else
    spinlock_unlock vmm_spinlock lock1r ;;;
    ret 0.

Definition invlpg (virt_addr : Z) : M kernel unit :=
  modify (λ k, let c := k_cpu k in
    set_cpu k (add_flushed c virt_addr)).

Definition vmm_unmap_page (pagemap virt_addr : Z) : M kernel unit :=
  let* lock1r := spinlock_lock vmm_spinlock in
  let* pm := get_pagemap pagemap in
  let* off := gets k_hhdm in
  let* e4 := load64 (entry_ptr (top_level pm) (pml_index 4 virt_addr)) in
  if negb (is_present e4) then spinlock_unlock vmm_spinlock lock1r else
  let pml3v := next_table e4 off in
  let* e3 := load64 (entry_ptr pml3v (pml_index 3 virt_addr)) in
  if negb (is_present e3) then spinlock_unlock vmm_spinlock lock1r else
  let pml2v := next_table e3 off in
  let* e2 := load64 (entry_ptr pml2v (pml_index 2 virt_addr)) in
  if negb (is_present e2) then spinlock_unlock vmm_spinlock lock1r else
  let pml1v := next_table e2 off in
  store64 (entry_ptr pml1v (pml_index 1 virt_addr)) 0 ;;;
  invlpg virt_addr ;;;
  spinlock_unlock vmm_spinlock lock1r.

(** [for (i = i0; i < page_count; i++)], with [n] rounds left. *)
Fixpoint vmm_map_pages_loop (n : nat) (i pagemap virt_addr phys_addr flags : Z) : M kernel unit :=
  match n with
  | O => ret tt
  | S n' =>
      vmm_map_page pagemap (u64 (virt_addr + u64 (i * PAGE_SIZE)))
                   (u64 (phys_addr + u64 (i * PAGE_SIZE))) flags ;;;
      vmm_map_pages_loop n' (i + 1) pagemap virt_addr phys_addr flags
  end.

Definition vmm_map_pages_continuous (pagemap virt_addr phys_addr page_count flags : Z) : M kernel unit :=
  vmm_map_pages_loop (Z.to_nat page_count) 0 pagemap virt_addr phys_addr flags.

(** [gb_pages] is the answer of the [cpuid] queries at the head of the function. *)
Definition vmm_map_pages_hhdm (gb_pages : bool) (pagemap virt_addr phys_addr pages flags : Z) : M kernel unit :=
  let biggest := if gb_pages then JUMBO_PAGE_SIZE else LARGE_PAGE_SIZE in
  let length := u64 (pages * PAGE_SIZE) in
  let virt_start := ALIGN_DOWN virt_addr biggest in
  let phys_start := ALIGN_DOWN phys_addr biggest in
  let virt_end := ALIGN_UP (u64 (virt_addr + length)) biggest in
  while_ (λ '(va, pa),
    if va <? virt_end then
      vmm_map_page_sized pagemap va pa flags biggest ;;;
      ret (inl (u64 (va + biggest), u64 (pa + biggest)))
    else ret (inr tt)) (virt_start, phys_start).

(** [sizeof(pagemap_t)] and [sizeof(vmm_page_range_t)] *)
Definition SIZEOF_PAGEMAP : Z := 24.
Definition SIZEOF_RANGE : Z := 56.

Definition new_pagemap : M kernel Z :=
  let* lock1r := spinlock_lock vmm_spinlock in
  let* pml4_phys := allocate_page in
  if pml4_phys =? 0 then panic "Failed to allocate new PML4 table page" else
  let* off := gets k_hhdm in
  let pml4_virt := u64 (pml4_phys + off) in
  let* kpm := get_pagemap kernel_pagemap in
  memcpy pml4_virt (top_level kpm) PAGE_SIZE ;;;
  memset pml4_virt 0 (PAGE_SIZE / 2) ;;;
  let* np := zalloc_small SIZEOF_PAGEMAP in
  let* free_range := zalloc_small SIZEOF_RANGE in
  put_pagemap np (mk_pagemap pml4_virt [mk_range free_range 0x1000 (400000000000 - 0x1000)] []) ;;;
  spinlock_unlock vmm_spinlock lock1r ;;;
  ret np.

(** [for (i = start; i < end; i++)] over the [n] entries from [i]. *)
Fixpoint free_levels (levels : nat) : Z → Z → nat → M kernel unit :=
  match levels with
  | O => λ _ _ _, ret tt
  | S levels' =>
      λ table_phys,
      fix entries (i : Z) (n : nat) : M kernel unit :=
        match n with
        | O => ret tt
        | S n' =>
            let* off := gets k_hhdm in
            let* e := load64 (entry_ptr (u64 (table_phys + off)) i) in
            (if negb (is_present e) then ret tt else
               let entry_phys := Z.land e PTE_MASK in
               (if (0 <? Z.of_nat levels') && (Z.land e PTE_PS =? 0)
                then free_levels levels' entry_phys 0 512 else ret tt) ;;;
               free_page entry_phys) ;;;
            entries (i + 1) n'
        end
  end.

(** * The processor's walk *)

Definition is_large (e : Z) : bool := negb (Z.land e PTE_PS =? 0).

(** Entry [i] of the table at physical address [t]. *)
Definition entry (m : mem_t) (t i : Z) : Z := read64 m (t + 8 * i).

(** An entry of a table of level [l] that leads to a table of the next level. *)
Definition links (l : nat) (e : Z) : bool := is_present e && negb (is_large e && negb (Nat.eqb l 4)).

(** What the processor finds for a virtual address: nothing, or the level and
    the entry that maps it. *)
Fixpoint walk (l : nat) (m : mem_t) (t va : Z) : option (nat * Z) :=
  match l with
  | O => None
  | S l' =>
      let e := entry m t (pml_index (Z.of_nat l) va) in
      if negb (is_present e) then None
      else if Nat.eqb l 1 then Some (1%nat, e)
      else if links l e then walk l' m (Z.land e PTE_MASK) va
      else Some (l, e)
  end.

(** The physical address of [va] in the address space of [cr3]. *)
Definition translate (k : kernel) (va : Z) : option Z :=
  match walk 4 (k_mem k) (Z.land (cr3 (k_cpu k)) PTE_MASK) va with
  | Some (l, e) =>
      let sz := 2 ^ (12 + 9 * (Z.of_nat l - 1)) in
      Some (Z.land e PTE_MASK / sz * sz + va mod sz)
  | None => None
  end.

(** Accesses at a mapped virtual address; an unmapped one faults. *)
Definition load8_virt (va : Z) : M kernel Z := λ k,
  match translate k va with Some pa => Ok (read8 (k_mem k) pa, k) | None => Panic "Page Fault" end.
Definition store8_virt (va v : Z) : M kernel unit := λ k,
  match translate k va with
  | Some pa => Ok (tt, set_mem k (write8 (k_mem k) pa v))
  | None => Panic "Page Fault"
  end.

(** An aligned word does not cross a page. *)
Definition load64_virt (va : Z) : M kernel Z := λ k,
  match translate k va with Some pa => Ok (read64 (k_mem k) pa, k) | None => Panic "Page Fault" end.
Definition store64_virt (va v : Z) : M kernel unit := λ k,
  match translate k va with
  | Some pa => Ok (tt, set_mem k (write64 (k_mem k) pa v))
  | None => Panic "Page Fault"
  end.

(** [memset] over [n] bytes of mapped memory. *)
Fixpoint memset_virt (n : nat) (va c : Z) : M kernel unit :=
  match n with
  | O => ret tt
  | S n' => store8_virt va c ;;; memset_virt n' (u64 (va + 1)) c
  end.
