(* ===== verification/VmmInv.v ===== *)
(** Correctness of the page tables: the address space as a partial function
    from pages to entries ([walk], the translation the processor performs),
    and how mapping, unmapping and looking up act on it. *)
From stdpp Require Import base tactics list gmap sets strings.
From Stdlib Require Import ZArith Lia.
From S2P Require Import Prelude Bits State Spinlock Pmm PmmInv FrameAlloc Heap HeapInv Vmm.

(** * Entries *)

Lemma testbit_PTE_MASK i : 0 <= i → Z.testbit PTE_MASK i = (12 <=? i) && (i <? 52).
Proof.
  intros Hi. change PTE_MASK with (Z.shiftl (Z.ones 40) 12). rewrite Z.shiftl_spec by done.
  destruct (Z.leb_spec 12 i).
  - rewrite Z.testbit_ones_nonneg by lia. cbn. destruct (Z.ltb_spec (i - 12) 40), (Z.ltb_spec i 52); lia.
  - by rewrite Z.testbit_neg_r by lia.
Qed.

Lemma land_PTE_MASK x : Z.land x PTE_MASK = (x / 4096 mod 2 ^ 40) * 4096.
Proof.
  apply Z.bits_inj'. intros i Hi. rewrite Z.land_spec, testbit_PTE_MASK by done.
  change 4096 with (2 ^ 12). rewrite <- Z.shiftl_mul_pow2, <- Z.shiftr_div_pow2 by lia.
  rewrite Z.shiftl_spec by done. destruct (Z.leb_spec 12 i); cbn.
  - destruct (Z.ltb_spec i 52).
    + rewrite Z.mod_pow2_bits_low, Z.shiftr_spec by lia. rewrite andb_true_r. f_equal. lia.
    + rewrite Z.mod_pow2_bits_high by lia. apply andb_false_r.
  - rewrite andb_false_r. by rewrite Z.testbit_neg_r by lia.
Qed.

Lemma PTE_MASK_range x : 0 <= Z.land x PTE_MASK < 2 ^ 52 ∧ Z.land x PTE_MASK mod 4096 = 0.
Proof.
  rewrite land_PTE_MASK. split; [|apply Z.mod_mul; lia].
  pose proof (Z.mod_pos_bound (x / 4096) (2 ^ 40) ltac:(lia)). lia.
Qed.

Lemma PTE_MASK_page p : 0 <= p < 2 ^ 52 → p mod 4096 = 0 → Z.land p PTE_MASK = p.
Proof. intros H1 H2. rewrite land_PTE_MASK, Z.mod_small; Z.div_mod_to_equations; lia. Qed.

(** Bits outside the mask do not change the address of an entry. *)
Lemma PTE_MASK_lor a bits : Z.land bits PTE_MASK = 0 → Z.land (Z.lor (Z.land a PTE_MASK) bits) PTE_MASK = Z.land a PTE_MASK.
Proof.
  intros Hb. rewrite Z.land_lor_distr_l, Hb, Z.lor_0_r. rewrite <- Z.land_assoc. by rewrite Z.land_diag.
Qed.

Lemma PTE_MASK_low_bit a i : 0 <= i < 12 → Z.testbit (Z.land a PTE_MASK) i = false.
Proof.
  intros Hi. rewrite Z.land_spec, testbit_PTE_MASK by lia. destruct (Z.leb_spec 12 i); [lia|]. apply andb_false_r.
Qed.

Lemma land_pow2_0 x n : 0 <= n → (Z.land x (2 ^ n) =? 0) = negb (Z.testbit x n).
Proof.
  intros Hn. destruct (Z.testbit x n) eqn:Hb; cbn.
  - apply Z.eqb_neq. intros H0. apply (f_equal (λ z, Z.testbit z n)) in H0.
    rewrite Z.land_spec, Hb, Z.pow2_bits_true, Z.bits_0 in H0 by lia. done.
  - apply Z.eqb_eq, Z.bits_inj'. intros i Hi. rewrite Z.land_spec, Z.bits_0.
    destruct (decide (i = n)) as [->|Hne]; [by rewrite Hb|]. rewrite Z.pow2_bits_false by lia. apply andb_false_r.
Qed.

Lemma is_present_bit e : is_present e = Z.testbit e 0.
Proof. unfold is_present, PTE_PRESENT. change 1 with (2 ^ 0). rewrite land_pow2_0 by lia. apply negb_involutive. Qed.

Lemma is_large_bit e : is_large e = Z.testbit e 7.
Proof. unfold is_large, PTE_PS. change 0x80 with (2 ^ 7). rewrite land_pow2_0 by lia. apply negb_involutive. Qed.

Lemma is_present_0 : is_present 0 = false.
Proof. done. Qed.

(** The entry [ensure_table] installs. *)
Definition table_bits : Z := Z.lor (Z.lor PTE_PRESENT PTE_WRITABLE) PTE_USER.

Lemma table_entry p :
  0 <= p < 2 ^ 52 → p mod 4096 = 0 →
  let e := Z.lor (Z.land p PTE_MASK) table_bits in
  is_present e = true ∧ is_large e = false ∧ Z.land e PTE_MASK = p ∧ is_u64 e.
Proof.
  intros H1 H2 e. unfold e. rewrite is_present_bit, is_large_bit. split_and!.
  - rewrite Z.lor_spec. by rewrite orb_true_r.
  - rewrite Z.lor_spec, PTE_MASK_low_bit by lia. done.
  - rewrite PTE_MASK_lor by done. by apply PTE_MASK_page.
  - rewrite PTE_MASK_page by done. split.
    + apply Z.lor_nonneg. split; [lia|done].
    + assert (Z.lor p table_bits = p + table_bits) as ->; [|change table_bits with 7; lia].
      assert (Z.land p table_bits = 0) as Hl.
      { rewrite <- (PTE_MASK_page p) by done. rewrite <- Z.land_assoc. apply Z.land_0_r. }
      rewrite Z.add_nocarry_lxor by done. by rewrite Z.lxor_lor.
Qed.

(** * The translation *)

(** The table of level [4 - d] that the walk for [va] reads, if it gets there. *)
Fixpoint tbl (d : nat) (m : mem_t) (top va : Z) : option Z :=
  match d with
  | O => Some top
  | S d' =>
      t ← tbl d' m top va;
      let e := entry m t (pml_index (Z.of_nat (4 - d')) va) in
      if links (4 - d') e then Some (Z.land e PTE_MASK) else None
  end.

Lemma pml_index_range l va : 0 <= pml_index l va < 512.
Proof.
  unfold pml_index. change 0x1ff with (Z.ones 9). rewrite Z.land_ones by lia. apply Z.mod_pos_bound. lia.
Qed.

(** Two addresses of the same page have the same indices. *)
Lemma pml_index_page l va : 1 <= l → pml_index l va = va / 4096 / 2 ^ (9 * (l - 1)) mod 512.
Proof.
  intros Hl. unfold pml_index. change 0x1ff with (Z.ones 9). rewrite Z.land_ones by lia.
  rewrite Z.shiftr_div_pow2 by lia. rewrite Z.pow_add_r, <- Z.div_div by lia. done.
Qed.

Lemma same_indices va va' :
  (∀ l, 1 <= l <= 4 → pml_index l va = pml_index l va') ↔ va / 4096 mod 2 ^ 36 = va' / 4096 mod 2 ^ 36.
Proof.
  set (n := va / 4096). set (n' := va' / 4096).
  assert (∀ n, n mod 2 ^ 36 = n mod 512 + 512 * (n / 512 mod 512) + 512 * 512 * (n / 2 ^ 18 mod 512)
    + 512 * 512 * 512 * (n / 2 ^ 27 mod 512)) as Hsplit.
  { intros x. change (2 ^ 36) with (512 * (512 * (512 * 512))).
    rewrite (Z.rem_mul_r x 512), (Z.rem_mul_r (x / 512) 512), (Z.rem_mul_r (x / 512 / 512) 512) by lia.
    rewrite !Z.div_div by lia. change (512 * 512) with (2 ^ 18). change (2 ^ 18 * 512) with (2 ^ 27). lia. }
  split.
  - intros H. rewrite !Hsplit.
    pose proof (H 1 ltac:(lia)) as H1. pose proof (H 2 ltac:(lia)) as H2.
    pose proof (H 3 ltac:(lia)) as H3. pose proof (H 4 ltac:(lia)) as H4.
    rewrite !pml_index_page in H1, H2, H3, H4 by lia. fold n n' in H1, H2, H3, H4.
    change (2 ^ (9 * (1 - 1))) with 1 in H1. change (2 ^ (9 * (2 - 1))) with 512 in H2.
    change (2 ^ (9 * (3 - 1))) with (2 ^ 18) in H3. change (2 ^ (9 * (4 - 1))) with (2 ^ 27) in H4.
    rewrite !Z.div_1_r in H1. rewrite H1, H2, H3, H4. reflexivity.
  - intros H l Hl. rewrite !pml_index_page by lia. fold n n'.
    rewrite (Z.div_mod n (2 ^ 36)), (Z.div_mod n' (2 ^ 36)), H by lia.
    assert (∀ q, (2 ^ 36 * q + n' mod 2 ^ 36) / 2 ^ (9 * (l - 1)) mod 512 = (n' mod 2 ^ 36) / 2 ^ (9 * (l - 1)) mod 512) as Hq.
    { intros q. assert (2 ^ 36 = 2 ^ (9 * (l - 1)) * (2 ^ (9 * (4 - l)) * 512)) as He.
      { change 512 with (2 ^ 9). rewrite <- !Z.pow_add_r by lia. f_equal. lia. }
      rewrite He at 1. rewrite Z.add_comm, <- !Z.mul_assoc, (Z.mul_comm (2 ^ (9 * (l - 1)))), Z.div_add by lia.
      replace (n' mod 2 ^ 36 / 2 ^ (9 * (l - 1)) + 2 ^ (9 * (4 - l)) * (512 * q))
        with (n' mod 2 ^ 36 / 2 ^ (9 * (l - 1)) + (2 ^ (9 * (4 - l)) * q) * 512) by lia.
      by rewrite Z.mod_add by lia. }
    by rewrite !Hq.
Qed.

(** * The tree of tables *)

(** [T] gives each page that holds a table its level.  Tables do not overlap,
    an entry that links leads to a table of the level below, and no table is
    linked from two places. *)
Record pt_ok (T : gmap Z nat) (m : mem_t) : Prop := mk_pt_ok {
  pt_level : ∀ t l, T !! t = Some l → (1 <= l <= 4)%nat ∧ t mod 4096 = 0 ∧ 0 <= t < 2 ^ 52;
  pt_child : ∀ t l i, T !! t = Some (S l) → (1 <= l)%nat → 0 <= i < 512 →
    links (S l) (entry m t i) = true → T !! Z.land (entry m t i) PTE_MASK = Some l;
  pt_inj : ∀ t l i t' l' i', T !! t = Some (S l) → T !! t' = Some (S l') → (1 <= l)%nat → (1 <= l')%nat →
    0 <= i < 512 → 0 <= i' < 512 →
    links (S l) (entry m t i) = true → links (S l') (entry m t' i') = true →
    Z.land (entry m t i) PTE_MASK = Z.land (entry m t' i') PTE_MASK → t = t' ∧ i = i'
}.

Section tree.
Context (T : gmap Z nat) (m : mem_t) (top : Z).
Context (Hok : pt_ok T m) (Htop : T !! top = Some 4%nat).
Set Default Proof Using "All".

Lemma tbl_level d va t : (d <= 3)%nat → tbl d m top va = Some t → T !! t = Some (4 - d)%nat.
Proof.
  revert t. induction d as [|d IH]; intros t Hd Ht; cbn in Ht; [by injection Ht as <-|].
  destruct (tbl d m top va) as [t'|] eqn:Ht'; [|done]. cbn in Ht.
  destruct (links (4 - d) _) eqn:Hl; [|done]. injection Ht as <-.
  specialize (IH t' ltac:(lia) eq_refl). replace (4 - d)%nat with (S (4 - S d)) in IH, Hl |- * by lia.
  apply (pt_child T m Hok); [done|lia|apply pml_index_range|done].
Qed.

(** Two addresses whose walks meet in a table have taken the same entries. *)
Lemma tbl_inj d va va' t :
  (d <= 3)%nat → tbl d m top va = Some t → tbl d m top va' = Some t →
  ∀ j, (j < d)%nat → pml_index (Z.of_nat (4 - j)) va = pml_index (Z.of_nat (4 - j)) va'.
Proof.
  revert t. induction d as [|d IH]; intros t Hd Ht Ht' j Hj; [lia|]. cbn in Ht, Ht'.
  destruct (tbl d m top va) as [u|] eqn:Hu; [|done]. destruct (tbl d m top va') as [u'|] eqn:Hu'; [|done].
  cbn in Ht, Ht'. destruct (links (4 - d) (entry m u _)) eqn:Hl; [|done].
  destruct (links (4 - d) (entry m u' _)) eqn:Hl'; [|done]. injection Ht as Ht. injection Ht' as Ht'.
  pose proof (tbl_level d va u ltac:(lia) Hu) as Hlu. pose proof (tbl_level d va' u' ltac:(lia) Hu') as Hlu'.
  replace (4 - d)%nat with (S (3 - d)) in * by lia.
  destruct (pt_inj T m Hok u _ _ u' _ _ Hlu Hlu' ltac:(lia) ltac:(lia) (pml_index_range _ _) (pml_index_range _ _) Hl Hl')
    as [-> Hidx]; [congruence|].
  destruct (decide (j = d)) as [->|Hne]; [by replace (4 - d)%nat with (S (3 - d)) by lia|].
  apply (IH u' ltac:(lia) eq_refl eq_refl j). lia.
Qed.

Lemma tbl_prefix m' d va va' :
  (∀ j, (j < d)%nat → pml_index (Z.of_nat (4 - j)) va = pml_index (Z.of_nat (4 - j)) va') →
  tbl d m' top va = tbl d m' top va'.
Proof.
  induction d as [|d IH]; intros Hj; [done|]. cbn [tbl]. rewrite IH by (intros; apply Hj; lia).
  rewrite (Hj d) by lia. done.
Qed.

Lemma walk_tbl m' d va t :
  (d <= 3)%nat → tbl d m' top va = Some t → walk 4 m' top va = walk (4 - d) m' t va.
Proof.
  revert t. induction d as [|d IH]; intros t Hd Ht; cbn in Ht; [by injection Ht as <-|].
  destruct (tbl d m' top va) as [u|] eqn:Hu; [|done]. cbn in Ht.
  destruct (links (4 - d) _) eqn:Hl; [|done]. injection Ht as <-.
  rewrite (IH u) by (done || lia). replace (4 - d)%nat with (S (4 - S d)) in * by lia.
  remember (4 - S d)%nat as n. cbn [walk].
  assert (is_present (entry m' u (pml_index (Z.of_nat (S n)) va)) = true) as Hp.
  { unfold links in Hl. by apply andb_prop in Hl as [? _]. }
  rewrite Hp. cbn [negb]. destruct n as [|n]; [lia|]. cbn [Nat.eqb]. by rewrite Hl.
Qed.

(** ** Writing one entry *)
Context (t : Z) (d0 : nat) (i : Z) (m' : mem_t).
Context (Ht : T !! t = Some (4 - d0)%nat) (Hd0 : (d0 <= 3)%nat) (Hi : 0 <= i < 512).
Context (Hm : ∀ t' j, is_Some (T !! t') → 0 <= j < 512 → (t' ≠ t ∨ j ≠ i) → entry m' t' j = entry m t' j).

(** The walk down to the written table is unchanged. *)
Lemma tbl_write d va : (d <= d0)%nat → tbl d m' top va = tbl d m top va.
Proof.
  induction d as [|d IH]; intros Hd; [done|]. cbn [tbl]. rewrite IH by lia.
  destruct (tbl d m top va) as [u|] eqn:Hu; [|done]. cbn.
  pose proof (tbl_level d va u ltac:(lia) Hu) as Hlu.
  rewrite Hm; [done|by eexists|apply pml_index_range|]. left. intros ->. rewrite Ht in Hlu. injection Hlu. lia.
Qed.

(** An address whose walk does not read the written entry. *)
Lemma walk_miss n va u :
  (n <= 4)%nat → tbl (4 - n) m top va = Some u → (1 <= n)%nat →
  ¬ (tbl d0 m top va = Some t ∧ pml_index (Z.of_nat (4 - d0)) va = i) →
  walk n m' u va = walk n m u va.
Proof.
  revert u. induction n as [|n IH]; intros u Hn Hu H1 Hmiss; [lia|].
  pose proof (tbl_level (4 - S n) va u ltac:(lia) Hu) as Hlu. replace (4 - (4 - S n))%nat with (S n) in Hlu by lia.
  cbn [walk]. rewrite Hm; [|by eexists|apply pml_index_range|].
  2: { destruct (decide (u = t)) as [->|]; [right|by left].
       rewrite Ht in Hlu. injection Hlu as Hl. replace (S n) with (4 - d0)%nat by lia.
       intros Heq. apply Hmiss. split; [|done]. by replace d0 with (4 - S n)%nat by lia. }
  destruct (is_present _); cbn [negb]; [|done]. destruct n as [|n]; [done|]. cbn [Nat.eqb].
  destruct (links (S (S n)) (entry m u _)) eqn:Hl; [|done].
  apply IH; [lia| |lia|done]. replace (4 - S n)%nat with (S (4 - S (S n))) by lia. cbn [tbl]. rewrite Hu. cbn.
  replace (4 - (2 - n))%nat with (S (S n)) by lia. by rewrite Hl.
Qed.

(** An address whose walk reads it. *)
Lemma walk_hit va :
  tbl d0 m top va = Some t → walk 4 m' top va = walk (4 - d0) m' t va.
Proof. intros Hva. apply walk_tbl; [done|]. by rewrite tbl_write. Qed.
End tree.

(** * Address spaces of the kernel *)

Section vmm.
Context {FA : FrameAllocator allocate_page free_page}.

Record pt_inv (T : gmap Z nat) (top : Z) (k : kernel) : Prop := mk_pt_inv {
  pi_fa : fa_inv k;
  pi_top : T !! top = Some 4%nat;
  pi_ok : pt_ok T (k_mem k);
  pi_lent : ∀ t, is_Some (T !! t) → fa_lent k t
}.

(** What an operation on the tree may do, using at most [n] frames. *)
Record pt_step (n : Z) (top : Z) (T : gmap Z nat) (k : kernel) (T' : gmap Z nat) (k' : kernel) : Prop := mk_pt_step {
  ps_inv : pt_inv T' top k';
  ps_sub : T ⊆ T';
  ps_rest : same_rest k k';
  ps_new : ∀ t, is_Some (T' !! t) → is_Some (T !! t) ∨ fa_owns k t;
  ps_owns : ∀ x, fa_owns k' x → fa_owns k x;
  ps_enough : ∀ N, enough N k → enough (N - n) k';
  ps_mem : ∀ x, ¬ fa_owns k x → (∀ t, is_Some (T !! t) → x / 4096 ≠ t / 4096) →
    read8 (k_mem k') x = read8 (k_mem k) x
}.

Lemma pt_step_refl top T k : pt_inv T top k → pt_step 0 top T k T k.
Proof. intros Hi. split; try done; [by left|]. intros N HN. by rewrite Z.sub_0_r. Qed.

Lemma pt_step_trans n1 n2 top T1 k1 T2 k2 T3 k3 :
  fa_inv k1 → pt_step n1 top T1 k1 T2 k2 → pt_step n2 top T2 k2 T3 k3 → pt_step (n1 + n2) top T1 k1 T3 k3.
Proof.
  intros Hfa [I1 S1 R1 N1 O1 E1 M1] [I2 S2 R2 N2 O2 E2 M2]. split; try done.
  - by transitivity T2.
  - by transitivity k2.
  - intros t Ht. destruct (N2 t Ht) as [H2|H2]; [by apply N1|right; by apply O1].
  - auto.
  - intros N HN. replace (N - (n1 + n2)) with (N - n1 - n2) by lia. auto.
  - intros x Hx Ht. rewrite M2; [by apply M1|by intros ?%O1|].
    intros t Ht2. destruct (N1 t Ht2) as [H1|H1]; [by apply Ht|]. intros Heq. apply Hx.
    by apply (fa_page k1 t x).
Qed.

Lemma hhdm_entry k t i :
  0 <= t < 2 ^ 52 → 0 <= i < 512 → hhdm_phys k (entry_ptr (u64 (t + k_hhdm k)) i) = t + 8 * i.
Proof. intros Ht Hi. unfold entry_ptr. apply hhdm_field. lia. Qed.

Lemma entry_ext m m' t i :
  (∀ x, t + 8 * i <= x < t + 8 * i + 8 → read8 m' x = read8 m x) → entry m' t i = entry m t i.
Proof. intros H. apply le_read_ext. intros x Hx. apply H. lia. Qed.

(** Two table entries that are not the same do not share a byte. *)
Lemma entries_apart T m t t' i j x :
  pt_ok T m → is_Some (T !! t) → is_Some (T !! t') → 0 <= i < 512 → 0 <= j < 512 → t' ≠ t ∨ j ≠ i →
  t' + 8 * j <= x < t' + 8 * j + 8 → ¬ (t + 8 * i <= x < t + 8 * i + 8).
Proof.
  intros Hok [l Hl] [l' Hl'] Hi Hj Hne Hx. destruct (pt_level T m Hok t l Hl) as (_ & ? & _).
  destruct (pt_level T m Hok t' l' Hl') as (_ & ? & _).
  destruct (decide (t' = t)) as [->|]; [lia|]. Z.div_mod_to_equations. lia.
Qed.

(** Writing an entry that does not link. *)
Lemma pt_ok_leaf T m m' t l i :
  pt_ok T m → T !! t = Some l → 0 <= i < 512 →
  (∀ t' j, is_Some (T !! t') → 0 <= j < 512 → t' ≠ t ∨ j ≠ i → entry m' t' j = entry m t' j) →
  (l = 1%nat ∨ links l (entry m' t i) = false) → pt_ok T m'.
Proof.
  intros Hok Ht Hi Hm Hnl.
  assert (∀ t' l' j, T !! t' = Some (S l') → (1 <= l')%nat → 0 <= j < 512 →
    links (S l') (entry m' t' j) = true → entry m' t' j = entry m t' j) as Hsame.
  { intros t' l' j Ht' Hl' Hj Hlk. apply Hm; [by eexists|done|].
    destruct (decide (t' = t)) as [->|]; [right; intros ->|by left].
    rewrite Ht in Ht'. injection Ht' as ->. destruct Hnl as [?|Hnl]; [lia|congruence]. }
  split.
  - apply Hok.
  - intros t' l' j Ht' Hl' Hj Hlk. rewrite (Hsame t' l' j) in * by done. by apply (pt_child T m Hok).
  - intros t1 l1 i1 t2 l2 i2 H1 H2 Hl1 Hl2 Hi1 Hi2 Hk1 Hk2 Heq.
    rewrite (Hsame t1 l1 i1), (Hsame t2 l2 i2) in * by done.
    by apply (pt_inj T m Hok t1 l1 i1 t2 l2 i2).
Qed.

(** Linking a fresh, empty table [c]. *)
Lemma pt_ok_link T m m' t l i c :
  pt_ok T m → T !! t = Some (S l) → (1 <= l <= 3)%nat → 0 <= i < 512 →
  (∀ t' j, is_Some (T !! t') → 0 <= j < 512 → t' ≠ t ∨ j ≠ i → entry m' t' j = entry m t' j) →
  T !! c = None → c mod 4096 = 0 → 0 <= c < 2 ^ 52 → (∀ j, 0 <= j < 512 → entry m' c j = 0) →
  Z.land (entry m' t i) PTE_MASK = c → pt_ok (<[c := l]> T) m'.
Proof.
  intros Hok Ht Hl Hi Hm Hc Hcal Hcr Hz Hnew.
  assert (∀ t' l' j, <[c := l]> T !! t' = Some (S l') → (1 <= l')%nat → 0 <= j < 512 →
    links (S l') (entry m' t' j) = true →
    T !! t' = Some (S l') ∧ ((t' = t ∧ j = i ∧ l' = l) ∨ ((t' ≠ t ∨ j ≠ i) ∧ entry m' t' j = entry m t' j))) as Hcase.
  { intros t' l' j Ht' Hl' Hj Hlk. destruct (decide (t' = c)) as [->|Hne].
    - rewrite lookup_insert_eq in Ht'. rewrite Hz in Hlk by done. done.
    - rewrite lookup_insert_ne in Ht' by done. split; [done|].
      destruct (decide (t' = t)) as [->|]; [destruct (decide (j = i)) as [->|]|].
      + left. rewrite Ht in Ht'. by injection Ht' as ->.
      + right. split; [by right|]. apply Hm; [by eexists|done|by right].
      + right. split; [by left|]. apply Hm; [by eexists|done|by left]. }
  assert (∀ t' l' j, T !! t' = Some (S l') → (1 <= l')%nat → 0 <= j < 512 →
    links (S l') (entry m t' j) = true → Z.land (entry m t' j) PTE_MASK ≠ c) as Hold.
  { intros t' l' j Ht' Hl' Hj Hlk Heq. pose proof (pt_child T m Hok t' l' j Ht' Hl' Hj Hlk) as Hin. congruence. }
  split.
  - intros t' l'. destruct (decide (t' = c)) as [->|Hne].
    + rewrite lookup_insert_eq. intros [= <-]. split_and!; try done; lia.
    + rewrite lookup_insert_ne by done. apply Hok.
  - intros t' l' j Ht' Hl' Hj Hlk. destruct (Hcase t' l' j Ht' Hl' Hj Hlk) as (HT & [(-> & -> & ->)|(Hne & He)]).
    + by rewrite Hnew, lookup_insert_eq.
    + rewrite He in *. pose proof (Hold t' l' j HT Hl' Hj Hlk). rewrite lookup_insert_ne by congruence.
      by apply (pt_child T m Hok).
  - intros t1 l1 i1 t2 l2 i2 H1 H2 Hl1 Hl2 Hi1 Hi2 Hk1 Hk2 Heq.
    destruct (Hcase t1 l1 i1 H1 Hl1 Hi1 Hk1) as (HT1 & [(-> & -> & ->)|(Hne1 & He1)]),
      (Hcase t2 l2 i2 H2 Hl2 Hi2 Hk2) as (HT2 & [(-> & -> & ->)|(Hne2 & He2)]); [done|..].
    + exfalso. rewrite He2 in *. by apply (Hold t2 l2 i2 HT2 Hl2 Hi2 Hk2); congruence.
    + exfalso. rewrite He1 in *. by apply (Hold t1 l1 i1 HT1 Hl1 Hi1 Hk1); congruence.
    + rewrite He1, He2 in *. by apply (pt_inj T m Hok t1 l1 i1 t2 l2 i2).
Qed.

Lemma u64_lor a b : is_u64 a → is_u64 b → u64 (Z.lor a b) = Z.lor a b.
Proof.
  intros Ha Hb. rewrite <- (u64_id a), <- (u64_id b) by done. unfold u64.
  rewrite <- !Z.land_ones by lia. rewrite <- Z.land_lor_distr_l, <- Z.land_assoc, Z.land_diag. done.
Qed.

Lemma PTE_MASK_u64 x : is_u64 (Z.land x PTE_MASK).
Proof. destruct (PTE_MASK_range x) as [? _]. unfold is_u64. lia. Qed.

(** A state that differs from [k] in one entry of one table. *)
Record entry_write (t i v : Z) (k k' : kernel) : Prop := mk_entry_write {
  ew_page : page_write t k k';
  ew_bytes : ∀ x, ¬ (t + 8 * i <= x < t + 8 * i + 8) → read8 (k_mem k') x = read8 (k_mem k) x;
  ew_new : entry (k_mem k') t i = v
}.

Lemma entry_write_other T t i v k k' t' j :
  pt_ok T (k_mem k) → is_Some (T !! t) → 0 <= i < 512 → entry_write t i v k k' →
  is_Some (T !! t') → 0 <= j < 512 → t' ≠ t ∨ j ≠ i → entry (k_mem k') t' j = entry (k_mem k) t' j.
Proof.
  intros Hok Ht Hi Hw Ht' Hj Hne. apply entry_ext. intros x Hx. apply (ew_bytes _ _ _ _ _ Hw).
  by apply (entries_apart T (k_mem k) t t' i j).
Qed.

(** [store64] of an entry. *)
Lemma store_entry T t l i v k :
  pt_ok T (k_mem k) → T !! t = Some l → 0 <= i < 512 →
  store64 (entry_ptr (u64 (t + k_hhdm k)) i) v k = Ok (tt, set_mem k (write64 (k_mem k) (t + 8 * i) v)) ∧
  entry_write t i (u64 v) k (set_mem k (write64 (k_mem k) (t + 8 * i) v)).
Proof.
  intros Hok Ht Hi. destruct (pt_level _ _ Hok t l Ht) as (_ & Hal & Hr). split.
  - unfold store64, modify. by rewrite hhdm_entry by (done || lia).
  - split.
    + apply write64_page_write; Z.div_mod_to_equations; lia.
    + intros x Hx. apply read8_write_le_out. lia.
    + apply read64_write64_eq.
Qed.

Lemma entry_write_trans t i v1 v2 k k1 k2 :
  entry_write t i v1 k k1 → entry_write t i v2 k1 k2 → entry_write t i v2 k k2.
Proof.
  intros [P1 B1 N1] [P2 B2 N2]. split; [by transitivity k1| |done]. intros x Hx. by rewrite B2, B1.
Qed.

Lemma load_entry T t l i k (Q : Z → kernel → Prop) :
  pt_ok T (k_mem k) → T !! t = Some l → 0 <= i < 512 →
  Q (entry (k_mem k) t i) k → wp (load64 (entry_ptr (u64 (t + k_hhdm k)) i)) k Q.
Proof.
  intros Hok Ht Hi HQ. destruct (pt_level _ _ Hok t l Ht) as (_ & Hal & Hr).
  apply (wp_load64 _ _ (t + 8 * i)); [apply hhdm_entry; (done || lia)|done].
Qed.

(** [t[i] = a; t[i] |= bits;] *)
Lemma set_bits_spec T t l i a bits k (Q : unit → kernel → Prop) :
  pt_ok T (k_mem k) → T !! t = Some l → 0 <= i < 512 → is_u64 a → is_u64 bits → (l = 1%nat ∨ links l a = false) →
  (∀ k', entry_write t i (Z.lor a bits) k k' → Q tt k') →
  wp (store64 (entry_ptr (u64 (t + k_hhdm k)) i) a ;;;
      let* e := load64 (entry_ptr (u64 (t + k_hhdm k)) i) in
      store64 (entry_ptr (u64 (t + k_hhdm k)) i) (Z.lor e bits)) k Q.
Proof.
  intros Hok Ht Hi Ha Hb Hnl HQ. destruct (store_entry T t l i a k Hok Ht Hi) as [Hs Hw].
  apply wp_bind. eapply wp_ok; [exact Hs|]. set (k1 := set_mem k _) in *.
  assert (pt_ok T (k_mem k1)) as Hok1.
  { apply (pt_ok_leaf T (k_mem k) _ t l i); [done..| |].
    - intros t' j Ht' Hj Hne. by apply (entry_write_other T t i (u64 a) k).
    - rewrite (ew_new _ _ _ _ _ Hw), u64_id by done. done. }
  change (k_hhdm k) with (k_hhdm k1). apply wp_bind, (load_entry T t l); [done..|].
  rewrite (ew_new _ _ _ _ _ Hw), (u64_id a) by done.
  destruct (store_entry T t l i (Z.lor a bits) k1 Hok1 Ht Hi) as [Hs2 Hw2].
  eapply wp_ok; [exact Hs2|]. apply HQ. rewrite u64_lor in Hw2 by done. by eapply entry_write_trans.
Qed.

(** An entry write keeps the allocator and, if it does not link, the tree. *)
Lemma entry_write_step T top t l i v k k' :
  pt_inv T top k → T !! t = Some l → 0 <= i < 512 → entry_write t i v k k' →
  l = 1%nat ∨ links l v = false → pt_step 0 top T k T k'.
Proof.
  intros [Hfa Htop Hok Hlent] Ht Hi Hw Hnl.
  destruct (fa_lent_range k t Hfa (Hlent t (mk_is_Some _ _ Ht))) as [_ Hno].
  destruct (fa_page_write t k k' Hfa Hno (ew_page _ _ _ _ _ Hw)) as (Hfa' & Hown & Hlent').
  split; try done.
  - split; [done..| |].
    + apply (pt_ok_leaf T (k_mem k) _ t l i); [done..| |by rewrite (ew_new _ _ _ _ _ Hw)].
      intros t' j Ht' Hj Hne. by apply (entry_write_other T t i v k).
    + intros t' Ht'. rewrite Hlent'. auto.
  - apply Hw.
  - by left.
  - intros x. by rewrite Hown.
  - intros N HN. rewrite Z.sub_0_r. by eapply enough_owns.
  - intros x Hx Hne. apply (pw_mem _ _ _ (ew_page _ _ _ _ _ Hw)). apply Hne. by eexists.
Qed.

(** ** Making sure a table exists *)

(** The walk of [va] is not cut short by a large page above level [lvl]. *)
Definition fits (lvl : nat) (m : mem_t) (top va : Z) : Prop :=
  ∀ l e, walk 4 m top va = Some (l, e) → (l <= lvl)%nat.

Lemma fits_links T m top lvl va d t :
  pt_ok T m → T !! top = Some 4%nat → fits lvl m top va → (1 <= lvl)%nat → (lvl < 4 - d)%nat →
  tbl d m top va = Some t →
  let e := entry m t (pml_index (Z.of_nat (4 - d)) va) in
  is_present e = true → links (4 - d) e = true.
Proof.
  intros Hok Htop Hf Hlvl Hd Ht e Hp. unfold e in *. destruct (links (4 - d) (entry m t _)) eqn:Hl; [done|].
  exfalso. specialize (Hf (4 - d)%nat (entry m t (pml_index (Z.of_nat (4 - d)) va))). rewrite (walk_tbl T m top Hok Htop m d va t) in Hf by (done || lia).
  destruct (4 - d)%nat as [|n] eqn:Hn; [lia|]. cbn [walk] in Hf. rewrite Hp in Hf. cbn [negb] in Hf.
  destruct n as [|n]; [lia|]. cbn [Nat.eqb] in Hf. rewrite Hl in Hf. specialize (Hf eq_refl). lia.
Qed.

Lemma walk_zero n m c va :
  (∀ j, 0 <= j < 512 → entry m c j = 0) → walk n m c va = None.
Proof. intros Hz. destruct n as [|n]; [done|]. cbn [walk]. by rewrite Hz by apply pml_index_range. Qed.

Section link.
Context (T : gmap Z nat) (top va t c : Z) (d : nat) (k k1 : kernel).
Let i : Z := pml_index (Z.of_nat (4 - d)) va.
Context (Hinv : pt_inv T top k) (Hd : (d <= 2)%nat) (Ht : tbl d (k_mem k) top va = Some t).
Context (Habs : is_present (entry (k_mem k) t i) = false).
Context (Hfa1 : fa_inv k1) (Hho : handed_out fa_owns c k k1)
  (Hlent1 : ∀ x, fa_lent k1 x ↔ fa_lent k x ∨ x / 4096 = c / 4096).
Set Default Proof Using "All".

Lemma link_level : T !! t = Some (4 - d)%nat.
Proof. apply (tbl_level T (k_mem k) top (pi_ok _ _ _ Hinv) (pi_top _ _ _ Hinv) d va); [lia|done]. Qed.

Lemma link_not_owned t' x : is_Some (T !! t') → x / 4096 = t' / 4096 → ¬ fa_owns k x.
Proof.
  intros Ht' Heq Ho. destruct (fa_lent_range k t' (pi_fa _ _ _ Hinv) (pi_lent _ _ _ Hinv t' Ht')) as [_ Hno].
  apply Hno. apply (fa_page k x t'); [apply Hinv|done|done].
Qed.

Lemma link_range : 0 <= c < 2 ^ 52 ∧ c mod 4096 = 0.
Proof. pose proof (fa_range k c (pi_fa _ _ _ Hinv) (ho_was _ _ _ _ Hho)). split; [lia|apply Hho]. Qed.

Lemma link_fresh t' : is_Some (T !! t') → t' / 4096 ≠ c / 4096.
Proof. intros Ht' Heq. by apply (link_not_owned t' c Ht'); [symmetry|apply Hho]. Qed.

Lemma link_alloc_entry t' j : is_Some (T !! t') → 0 <= j < 512 → entry (k_mem k1) t' j = entry (k_mem k) t' j.
Proof.
  intros [l' Ht'] Hj. destruct (pt_level _ _ (pi_ok _ _ _ Hinv) t' l' Ht') as (_ & Hal & _).
  apply entry_ext. intros x Hx. apply (ho_mem _ _ _ _ Hho). apply (link_not_owned t'); [by eexists|].
  Z.div_mod_to_equations. lia.
Qed.

Lemma link_ok1 : pt_ok T (k_mem k1).
Proof.
  apply (pt_ok_leaf T (k_mem k) _ t (4 - d) i); [apply Hinv|apply link_level|apply pml_index_range| |].
  - intros t' j Ht' Hj _. by apply link_alloc_entry.
  - right. rewrite link_alloc_entry; [|by rewrite link_level; eexists|apply pml_index_range].
    unfold links. by rewrite Habs.
Qed.

Context (k2 : kernel) (Hw : entry_write t i (Z.lor (Z.land c PTE_MASK) table_bits) k1 k2).

Lemma link_entry t' j :
  is_Some (T !! t') → 0 <= j < 512 → t' ≠ t ∨ j ≠ i → entry (k_mem k2) t' j = entry (k_mem k) t' j.
Proof.
  intros Ht' Hj Hne. rewrite (entry_write_other T t i (Z.lor (Z.land c PTE_MASK) table_bits) k1 k2 t' j link_ok1); [by apply link_alloc_entry|..]; try done.
  - by rewrite link_level.
  - apply pml_index_range.
Qed.

Lemma link_zero j : 0 <= j < 512 → entry (k_mem k2) c j = 0.
Proof.
  intros Hj. destruct link_range as [_ Hal]. apply le_read_zero. intros x Hx.
  rewrite (pw_mem _ _ _ (ew_page _ _ _ _ _ Hw)).
  - apply (ho_zero _ _ _ _ Hho). Z.div_mod_to_equations. lia.
  - pose proof (link_fresh t ltac:(by rewrite link_level)). Z.div_mod_to_equations. lia.
Qed.

Lemma link_new :
  links (4 - d) (entry (k_mem k2) t i) = true ∧ Z.land (entry (k_mem k2) t i) PTE_MASK = c.
Proof.
  rewrite (ew_new _ _ _ _ _ Hw). destruct link_range as [Hr Hal].
  destruct (table_entry c Hr Hal) as (H1 & H2 & H3 & _). unfold links. rewrite H1, H2. done.
Qed.

Lemma link_walk va' : walk 4 (k_mem k2) top va' = walk 4 (k_mem k) top va'.
Proof.
  pose proof (pi_ok _ _ _ Hinv) as Hok. pose proof (pi_top _ _ _ Hinv) as Htop.
  pose proof (pml_index_range (Z.of_nat (4 - d)) va) as Hi.
  destruct (decide (tbl d (k_mem k) top va' = Some t ∧ pml_index (Z.of_nat (4 - d)) va' = i)) as [[Ht' Hi']|Hmiss].
  - rewrite (walk_hit T (k_mem k) top Hok Htop t d i (k_mem k2) link_level ltac:(lia) Hi link_entry va' Ht').
    rewrite (walk_tbl T (k_mem k) top Hok Htop (k_mem k) d va' t) by (done || lia).
    pose proof link_zero as Hz. destruct link_new as [Hl Hc].
    assert (is_present (entry (k_mem k2) t i) = true) as Hp.
    { unfold links in Hl. by apply andb_prop in Hl as [? _]. }
    destruct (4 - d)%nat as [|n] eqn:Hn; [lia|]. cbn [walk]. rewrite Hi', Habs, Hp. cbn [negb].
    destruct n as [|n]; [lia|]. cbn [Nat.eqb]. rewrite Hl, Hc. by apply walk_zero.
  - apply (walk_miss T (k_mem k) top Hok Htop t d i (k_mem k2) link_level ltac:(lia) Hi link_entry 4 va' top);
      [lia|done|lia|done].
Qed.

Lemma link_step : pt_step 1 top T k (<[c := 3 - d]> T)%nat k2.
Proof.
  pose proof link_level as Htl. destruct link_range as [Hcr Hcal]. destruct link_new as [_ Hnew].
  assert (is_Some (T !! t)) as Hts by (by rewrite Htl).
  assert (T !! c = None) as Hc.
  { destruct (T !! c) eqn:E; [|done]. by destruct (link_fresh c ltac:(by rewrite E)). }
  assert (¬ fa_owns k1 t) as Hno1.
  { rewrite (ho_owns _ _ _ _ Hho). intros [Ho _]. by apply (link_not_owned t t). }
  destruct (fa_page_write t k1 k2 Hfa1 Hno1 (ew_page _ _ _ _ _ Hw)) as (Hfa2 & Hown & Hlent).
  split.
  - split; [done| | |].
    + rewrite lookup_insert_ne; [apply Hinv|]. intros ->. pose proof (pi_top _ _ _ Hinv). congruence.
    + apply (pt_ok_link T (k_mem k) _ t (3 - d) i c); try done.
      * apply Hinv.
      * rewrite Htl. f_equal. lia.
      * lia.
      * apply pml_index_range.
      * apply link_entry.
      * apply link_zero.
    + intros t' Ht'. rewrite Hlent, Hlent1. destruct (decide (t' = c)) as [->|Hne]; [by right|].
      rewrite lookup_insert_ne in Ht' by done. left. by apply (pi_lent _ _ _ Hinv).
  - by apply insert_subseteq.
  - transitivity k1; [apply Hho|apply Hw].
  - intros t' Ht'. destruct (decide (t' = c)) as [->|Hne]; [right; apply Hho|left].
    by rewrite lookup_insert_ne in Ht'.
  - intros x. rewrite Hown, (ho_owns _ _ _ _ Hho). naive_solver.
  - intros N HN. eapply enough_owns; [exact Hown|]. eapply (enough_handed_out N c k k1); [apply Hho|apply Hho|done].
  - intros x Hx Hne. rewrite (pw_mem _ _ _ (ew_page _ _ _ _ _ Hw)) by (by apply Hne). by apply Hho.
Qed.

Lemma link_tbl : tbl (S d) (k_mem k2) top va = Some c.
Proof.
  pose proof (pi_ok _ _ _ Hinv) as Hok. pose proof (pi_top _ _ _ Hinv) as Htop.
  cbn [tbl]. rewrite (tbl_write T (k_mem k) top Hok Htop t d i (k_mem k2) link_level ltac:(lia)
    (pml_index_range _ _) link_entry d va ltac:(lia)), Ht. cbn. destruct link_new as [Hl Hc]. fold i. by rewrite Hl, Hc.
Qed.
End link.

Lemma ensure_table_spec T top va t d k :
  pt_inv T top k → (d <= 2)%nat → tbl d (k_mem k) top va = Some t →
  (let e := entry (k_mem k) t (pml_index (Z.of_nat (4 - d)) va) in is_present e = true → links (4 - d) e = true) →
  can_lock pmm_spinlock k → enough 1 k →
  wp (ensure_table (u64 (t + k_hhdm k)) (pml_index (Z.of_nat (4 - d)) va)) k (λ r k', ∃ T' c,
    r = u64 (c + k_hhdm k) ∧ tbl (S d) (k_mem k') top va = Some c ∧ pt_step 1 top T k T' k' ∧
    (∀ va', walk 4 (k_mem k') top va' = walk 4 (k_mem k) top va')).
Proof.
  intros Hinv Hd Ht Hlk Hlock Hen. set (i := pml_index (Z.of_nat (4 - d)) va) in *.
  pose proof (pml_index_range (Z.of_nat (4 - d)) va : 0 <= i < 512) as Hi.
  pose proof (pi_ok _ _ _ Hinv) as Hok. pose proof (pi_top _ _ _ Hinv) as Htop.
  pose proof (tbl_level T (k_mem k) top Hok Htop d va t ltac:(lia) Ht) as Htl.
  unfold ensure_table. apply wp_bind, (load_entry T t (4 - d)); [done..|].
  destruct (is_present (entry (k_mem k) t i)) eqn:Hp; cbn [negb].
  - specialize (Hlk Hp). apply wp_bind, wp_ret, wp_bind, (load_entry T t (4 - d)); [done..|].
    apply wp_bind, wp_gets, wp_ret. exists T, (Z.land (entry (k_mem k) t i) PTE_MASK). split_and!; try done.
    + cbn [tbl]. rewrite Ht. cbn. fold i. by rewrite Hlk.
    + destruct (pt_step_refl top T k Hinv) as [? ? ? ? ? E ?]. split; try done.
      intros N HN. by apply (enough_mono N); [lia|].
  - apply wp_bind, wp_bind. eapply wp_mono; [apply fa_alloc; [apply Hinv|done|by apply (enough_some 1)]|].
    intros c k1 (Hfa1 & Hho & Hlent1).
    pose proof (sr_hhdm _ _ (ho_rest _ _ _ _ Hho)) as Hh1. rewrite <- Hh1.
    assert (pt_ok T (k_mem k1)) as Hok1 by (by eapply (link_ok1 T top va t c d k k1)).
    assert (links (4 - d) (Z.land c PTE_MASK) = false) as Hnl.
    { unfold links. rewrite is_present_bit, PTE_MASK_low_bit by lia. done. }
    apply (set_bits_spec T t (4 - d)); [done|done|done|apply PTE_MASK_u64|split; done|by right|].
    intros k2 Hw. fold table_bits in Hw.
    assert (k_hhdm k2 = k_hhdm k1) as Hh2 by apply Hw.
    pose proof (link_step T top va t c d k k1 Hinv Hd Ht Hp Hfa1 Hho Hlent1 k2 Hw) as Hst.
    pose proof (link_tbl T top va t c d k k1 Hinv Hd Ht Hp Hfa1 Hho Hlent1 k2 Hw) as Htb.
    pose proof (link_new T top va t c d k k1 Hinv Hd Ht Hp Hfa1 Hho Hlent1 k2 Hw) as [_ Hc].
    rewrite <- Hh2. pose proof (ps_inv _ _ _ _ _ _ Hst) as Hinv2.
    apply wp_bind, (load_entry (<[c := (3 - d)%nat]> T) t (4 - d)); [apply Hinv2| |done|].
    { eapply lookup_weaken; [exact Htl|apply Hst]. }
    apply wp_bind, wp_gets, wp_ret. exists (<[c := (3 - d)%nat]> T), c. split_and!; try done.
    + unfold next_table. fold i in Hc. by rewrite Hc.
    + apply (link_walk T top va t c d k k1 Hinv Hd Ht Hp Hfa1 Hho Hlent1 k2 Hw).
Qed.

(** ** Installing a mapping *)

(** Virtual addresses that one entry of level [lvl] maps together. *)
Definition same_slot (lvl : nat) (va va' : Z) : Prop :=
  ∀ l, (lvl <= l <= 4)%nat → pml_index (Z.of_nat l) va = pml_index (Z.of_nat l) va'.

Lemma set_leaf_spec T top va t lvl pa bits k :
  pt_inv T top k → (1 <= lvl <= 3)%nat → tbl (4 - lvl) (k_mem k) top va = Some t → is_u64 bits →
  is_present bits = true → (lvl = 1%nat ∨ is_large bits = true) →
  wp (set_entry (u64 (t + k_hhdm k)) (pml_index (Z.of_nat lvl) va) pa bits) k (λ _ k',
    pt_step 0 top T k T k' ∧
    (∀ va', (same_slot lvl va va' →
               walk 4 (k_mem k') top va' = Some (lvl, Z.lor (Z.land pa PTE_MASK) bits)) ∧
            (¬ same_slot lvl va va' → walk 4 (k_mem k') top va' = walk 4 (k_mem k) top va'))).
Proof.
  intros Hinv Hlvl Ht Hb Hpb Hlb. set (i := pml_index (Z.of_nat lvl) va).
  pose proof (pml_index_range (Z.of_nat lvl) va : 0 <= i < 512) as Hi.
  pose proof (pi_ok _ _ _ Hinv) as Hok. pose proof (pi_top _ _ _ Hinv) as Htop.
  pose proof (tbl_level T (k_mem k) top Hok Htop (4 - lvl) va t ltac:(lia) Ht) as Htl.
  set (e := Z.lor (Z.land pa PTE_MASK) bits).
  assert (is_present e = true) as Hpe.
  { unfold e. rewrite is_present_bit, Z.lor_spec, <- (is_present_bit bits), Hpb. apply orb_true_r. }
  assert (lvl = 1%nat ∨ links lvl e = false) as Hnl.
  { destruct Hlb as [?|Hlb]; [by left|right]. unfold links, e.
    rewrite is_large_bit, Z.lor_spec, <- (is_large_bit bits), Hlb, orb_true_r.
    destruct (Nat.eqb_spec lvl 4); [lia|]. apply andb_false_r. }
  replace (4 - (4 - lvl))%nat with lvl in Htl by lia.
  unfold set_entry. apply (set_bits_spec T t lvl); [done..|apply PTE_MASK_u64|done| |].
  { right. unfold links. rewrite is_present_bit, PTE_MASK_low_bit by lia. done. }
  intros k' Hw. pose proof (entry_write_step T top t lvl i e k k' Hinv Htl Hi Hw Hnl) as Hst.
  split; [done|]. intros va'.
  assert (∀ t' j, is_Some (T !! t') → 0 <= j < 512 → t' ≠ t ∨ j ≠ i →
    entry (k_mem k') t' j = entry (k_mem k) t' j) as Hm.
  { intros t' j. apply (entry_write_other T t i e k k'); [done|by eexists|done|done]. }
  assert (T !! t = Some (4 - (4 - lvl))%nat) as Htl' by (rewrite Htl; f_equal; lia).
  assert (∀ j, (j < 4 - lvl)%nat → (lvl <= 4 - j <= 4)%nat) as Hlv by (intros; lia).
  split.
  - intros Hs. rewrite (walk_hit T (k_mem k) top Hok Htop t (4 - lvl) i (k_mem k') Htl' ltac:(lia) Hi Hm va').
    + replace (4 - (4 - lvl))%nat with lvl by lia. destruct lvl as [|n]; [lia|]. cbn [walk].
      rewrite <- (Hs (S n)) by lia. fold i. rewrite (ew_new _ _ _ _ _ Hw). fold e. rewrite Hpe. cbn [negb].
      destruct n as [|n]; [done|]. cbn [Nat.eqb]. destruct Hnl as [?|Hnl]; [lia|]. by rewrite Hnl.
    + rewrite <- Ht. symmetry. apply (tbl_prefix T (k_mem k) top Hok Htop). intros j Hj. apply Hs. lia.
  - intros Hns. apply (walk_miss T (k_mem k) top Hok Htop t (4 - lvl) i (k_mem k') Htl' ltac:(lia) Hi Hm 4 va' top);
      [lia|done|lia|].
    intros [Ht' Hi']. apply Hns. intros l Hl. replace (4 - (4 - lvl))%nat with lvl in Hi' by lia.
    destruct (decide (l = lvl)) as [->|Hne]; [done|].
    pose proof (tbl_inj T (k_mem k) top Hok Htop (4 - lvl) va va' t ltac:(lia) Ht Ht' (4 - l)%nat ltac:(lia)) as Hj.
    by replace (4 - (4 - l))%nat with l in Hj by lia.
Qed.

(** ** The operations *)

(** The page map at address [pm] has its top table at physical address [top]. *)
Definition has_top (pm top : Z) (k : kernel) : Prop :=
  ∃ p, k_pagemaps k !! pm = Some p ∧ top_level p = u64 (top + k_hhdm k).

Lemma pt_inv_ext T top k k' :
  k_mem k' = k_mem k → k_hhdm k' = k_hhdm k → k_pmm k' = k_pmm k → pt_inv T top k →
  pt_inv T top k' ∧ (∀ x, fa_owns k' x ↔ fa_owns k x).
Proof.
  intros Em Eh Ep [Hfa Htop Hok Hl]. destruct (fa_frame k k' Hfa Eh Ep) as (Hfa' & Ho & Hl'); [by rewrite Em|].
  split; [|done]. split; [done..|by rewrite Em|]. intros t Ht. rewrite Hl'. auto.
Qed.

Lemma pt_step_locked lk n top T k T' k1 :
  pt_inv T top k → pt_step n top T (locked lk k) T' k1 → pt_step n top T k T' (restored k k1).
Proof.
  intros Hi [I S R N O E Mm].
  destruct (pt_inv_ext T top k (locked lk k)) as [_ Ho]; [done..|].
  destruct (pt_inv_ext T' top k1 (restored k k1)) as [I' Ho']; [done..|].
  split; try done.
  - by eapply restored_same_rest.
  - intros t Ht. rewrite <- Ho. auto.
  - intros x. rewrite <- Ho, Ho'. auto.
  - intros M HM. eapply enough_owns; [exact Ho'|]. apply E. eapply enough_owns; [exact Ho|done].
  - intros x Hx. apply Mm. by rewrite Ho.
Qed.

Lemma locked_can_lock l1 l2 k :
  can_lock l1 k → l1 ≠ l2 → l2 ∉ k_locks k → can_lock l2 (locked l1 k).
Proof. intros [H1 H2] Hne Hn. split; [cbn; unfold IRQL_DISPATCH; lia|]. cbn. set_solver. Qed.

Definition page_size_of (lvl : nat) : Z :=
  if Nat.eqb lvl 3 then JUMBO_PAGE_SIZE else if Nat.eqb lvl 2 then LARGE_PAGE_SIZE else PAGE_SIZE.
Definition leaf_bits (lvl : nat) (flags : Z) : Z :=
  if Nat.eqb lvl 1 then Z.lor PTE_PRESENT flags else Z.lor (Z.lor PTE_PRESENT PTE_PS) flags.

(** The entry that maps [pa] with [flags] at level [lvl]. *)
Definition leaf_entry (lvl : nat) (pa flags : Z) : Z := Z.lor (Z.land pa PTE_MASK) (leaf_bits lvl flags).

(** The address space [walk] describes maps [va] to [e] and is otherwise unchanged. *)
Definition mapped (lvl : nat) (va e top : Z) (m m' : mem_t) : Prop :=
  ∀ va', (same_slot lvl va va' → walk 4 m' top va' = Some (lvl, e)) ∧
         (¬ same_slot lvl va va' → walk 4 m' top va' = walk 4 m top va').

Lemma leaf_bits_ok lvl flags :
  is_u64 flags → (1 <= lvl)%nat →
  is_u64 (leaf_bits lvl flags) ∧ is_present (leaf_bits lvl flags) = true ∧
  (lvl = 1%nat ∨ is_large (leaf_bits lvl flags) = true).
Proof.
  intros Hf Hl. unfold leaf_bits. destruct (Nat.eqb_spec lvl 1) as [->|Hne].
  - split_and!; [|by rewrite is_present_bit, Z.lor_spec|by left].
    rewrite <- u64_lor; [apply u64_range|done|done].
  - split_and!; [|by rewrite is_present_bit, Z.lor_spec|right; by rewrite is_large_bit, Z.lor_spec].
    rewrite <- u64_lor; [apply u64_range|done|done].
Qed.

(** One level of the descent, from the table of level [4 - d]. *)
Lemma descend lvl T top va t d k :
  pt_inv T top k → (1 <= lvl)%nat → (lvl < 4 - d)%nat → (d <= 2)%nat → tbl d (k_mem k) top va = Some t →
  fits lvl (k_mem k) top va → can_lock pmm_spinlock k → enough 1 k →
  wp (ensure_table (u64 (t + k_hhdm k)) (pml_index (Z.of_nat (4 - d)) va)) k (λ r k', ∃ T' c,
    r = u64 (c + k_hhdm k') ∧ tbl (S d) (k_mem k') top va = Some c ∧ pt_step 1 top T k T' k' ∧
    can_lock pmm_spinlock k' ∧ fits lvl (k_mem k') top va ∧
    (∀ va', walk 4 (k_mem k') top va' = walk 4 (k_mem k) top va')).
Proof.
  intros Hinv Hl1 Hl2 Hd Ht Hf Hlock Hen. eapply wp_mono.
  { apply (ensure_table_spec T top va t d k Hinv Hd Ht); [|done..].
    apply (fits_links T (k_mem k) top lvl); [apply Hinv|apply Hinv|done..]. }
  intros r k' (T' & c & -> & Htb & Hst & Hw). exists T', c. pose proof (ps_rest _ _ _ _ _ _ Hst) as R.
  rewrite (sr_hhdm _ _ R). split_and!; try done.
  - by eapply can_lock_same_rest.
  - intros l e. rewrite Hw. apply Hf.
Qed.

Lemma finish_map lvl T top va t pa flags k :
  pt_inv T top k → (1 <= lvl <= 3)%nat → is_u64 flags → tbl (4 - lvl) (k_mem k) top va = Some t →
  wp (set_entry (u64 (t + k_hhdm k)) (pml_index (Z.of_nat lvl) va) pa (leaf_bits lvl flags)) k (λ _ k',
    pt_step 0 top T k T k' ∧ mapped lvl va (leaf_entry lvl pa flags) top (k_mem k) (k_mem k')).
Proof.
  intros Hinv Hl Hf Ht. destruct (leaf_bits_ok lvl flags Hf ltac:(lia)) as (H1 & H2 & H3).
  eapply wp_mono; [by apply (set_leaf_spec T top va t lvl)|]. intros u k' [Hst Hw]. by split.
Qed.

Lemma vmm_map_page_sized_spec lvl pm T top va pa flags k :
  pt_inv T top k → has_top pm top k → (1 <= lvl <= 3)%nat → fits lvl (k_mem k) top va → is_u64 flags →
  can_lock vmm_spinlock k → can_lock pmm_spinlock k → enough 3 k →
  wp (vmm_map_page_sized pm va pa flags (page_size_of lvl)) k (λ _ k', ∃ T',
    pt_step 3 top T k T' k' ∧ mapped lvl va (leaf_entry lvl pa flags) top (k_mem k) (k_mem k')).
Proof.
  intros Hinv (p & Hpm & Htp) Hl Hfit Hf Hlk1 Hlk2 Hen. unfold vmm_map_page_sized.
  apply wp_bind, wp_spinlock_lock; [done|]. set (k0 := locked vmm_spinlock k).
  apply wp_bind. eapply wp_ok; [unfold get_pagemap; change (k_pagemaps k0) with (k_pagemaps k); by rewrite Hpm|].
  rewrite Htp. change (k_hhdm k) with (k_hhdm k0).
  destruct (pt_inv_ext T top k k0) as [Hi0 Ho0]; [done..|].
  assert (can_lock pmm_spinlock k0) as Hlk0 by (apply locked_can_lock; [done|done|apply Hlk2]).
  assert (enough 3 k0) as Hen0 by (by eapply enough_owns).
  (* the rest, with the unlock, from the state [kn] of the last descent *)
  assert (∀ n T' kn t, 0 <= n <= 3 → pt_step n top T k0 T' kn → tbl (4 - lvl) (k_mem kn) top va = Some t →
    (∀ va', walk 4 (k_mem kn) top va' = walk 4 (k_mem k) top va') →
    wp (set_entry (u64 (t + k_hhdm kn)) (pml_index (Z.of_nat lvl) va) pa (leaf_bits lvl flags) ;;;
        spinlock_unlock vmm_spinlock (cr8 (k_cpu k))) kn (λ _ k', ∃ T',
      pt_step 3 top T k T' k' ∧ mapped lvl va (leaf_entry lvl pa flags) top (k_mem k) (k_mem k'))) as Hend.
  { intros n T' kn t Hn Hst Htb Hwk. apply wp_bind.
    eapply wp_mono; [apply (finish_map lvl T' top); [apply Hst|done..]|]. intros u k1 [Hst1 Hmap].
    assert (pt_step 3 top T k0 T' k1) as Hst2.
    { pose proof (pt_step_trans _ _ _ _ _ _ _ _ _ (pi_fa _ _ _ Hi0) Hst Hst1) as [? ? ? ? ? E ?]. split; try done.
      intros N HN. eapply (enough_mono (N - (n + 0))); [lia|]. by apply E. }
    apply (wp_unlock_balanced _ k); [done|apply Hst2|]. exists T'. split; [by eapply pt_step_locked|].
    intros va'. rewrite <- Hwk. apply Hmap. }
  apply wp_bind. eapply wp_mono.
  { apply (descend lvl T top va top 0 k0); try (done || lia). apply (enough_mono 3); [lia|done]. }
  intros r1 k1 (T1 & t3 & -> & Htb1 & Hst1 & Hlock1 & Hf1 & Hw1).
  destruct (Z.eqb_spec (page_size_of lvl) JUMBO_PAGE_SIZE) as [E3|E3].
  { assert (lvl = 3%nat) as -> by (destruct lvl as [|[|[|[|]]]]; done || lia).
    by apply (Hend 1 T1 k1 t3); [lia|..]. }
  assert (lvl ≠ 3%nat) as Hn3 by (by intros ->).
  apply wp_bind. eapply wp_mono.
  { apply (descend lvl T1 top va t3 1 k1); try (done || lia); [apply Hst1|].
    apply (enough_mono (3 - 1)); [lia|]. by apply Hst1. }
  intros r2 k2 (T2 & t2 & -> & Htb2 & Hst2 & Hlock2 & Hf2 & Hw2).
  pose proof (pt_step_trans _ _ _ _ _ _ _ _ _ (pi_fa _ _ _ Hi0) Hst1 Hst2) as Hst12.
  destruct (Z.eqb_spec (page_size_of lvl) LARGE_PAGE_SIZE) as [E2|E2].
  { assert (lvl = 2%nat) as -> by (destruct lvl as [|[|[|[|]]]]; done || lia).
    apply (Hend (1 + 1) T2 k2 t2); [lia|done|done|]. intros va'. by rewrite Hw2, Hw1. }
  assert (lvl = 1%nat) as -> by (destruct lvl as [|[|[|[|]]]]; done || lia).
  apply wp_bind. eapply wp_mono.
  { apply (descend 1 T2 top va t2 2 k2); try (done || lia); [apply Hst2|].
    apply (enough_mono (3 - (1 + 1))); [lia|]. by apply Hst12. }
  intros r3 k3 (T3 & t1 & -> & Htb3 & Hst3 & Hlock3 & Hf3 & Hw3).
  pose proof (pt_step_trans _ _ _ _ _ _ _ _ _ (pi_fa _ _ _ Hi0) Hst12 Hst3) as Hst123.
  apply (Hend (1 + 1 + 1) T3 k3 t1); [lia|done|done|]. intros va'. by rewrite Hw3, Hw2, Hw1.
Qed.

(** ** Looking up *)

Lemma restored_locked l k : can_lock l k → restored k (locked l k) = k.
Proof. intros _. unfold restored, locked. by destruct k as [? ? [] ? ? ? ? ? ?]. Qed.

(** The frame an address space gives a virtual address. *)
Definition frame_of (w : option (nat * Z)) : Z :=
  match w with Some (1%nat, e) => Z.land e PTE_MASK | _ => 0 end.

Lemma load_next k e i (Q : Z → kernel → Prop) :
  0 <= i < 512 → Q (entry (k_mem k) (Z.land e PTE_MASK) i) k →
  wp (load64 (entry_ptr (next_table e (k_hhdm k)) i)) k Q.
Proof.
  intros Hi HQ. apply (wp_load64 _ _ (Z.land e PTE_MASK + 8 * i)); [|done].
  apply hhdm_entry; [apply PTE_MASK_range|done].
Qed.

Lemma vmm_get_phys_spec pm top va k :
  has_top pm top k → 0 <= top < 2 ^ 52 → fits 1 (k_mem k) top va → can_lock vmm_spinlock k →
  wp (vmm_get_phys pm va) k (λ r k', r = frame_of (walk 4 (k_mem k) top va) ∧ k' = k).
Proof.
  intros (p & Hpm & Htp) Htop Hfit Hlk. unfold vmm_get_phys.
  apply wp_bind, wp_spinlock_lock; [done|]. set (k0 := locked vmm_spinlock k).
  assert (∀ r, r = frame_of (walk 4 (k_mem k) top va) →
    wp (spinlock_unlock vmm_spinlock (cr8 (k_cpu k)) ;;; ret r) k0
      (λ r k', r = frame_of (walk 4 (k_mem k) top va) ∧ k' = k)) as Hend.
  { intros r ->. apply wp_bind, wp_unlock_balanced; [done..|]. apply wp_ret. split; [done|by apply restored_locked]. }
  apply wp_bind. eapply wp_ok; [unfold get_pagemap; change (k_pagemaps k0) with (k_pagemaps k); by rewrite Hpm|].
  apply wp_bind, wp_gets. rewrite Htp. change (k_hhdm k) with (k_hhdm k0).
  apply wp_bind, (wp_load64 _ _ (top + 8 * pml_index 4 va)); [apply hhdm_entry; [done|apply pml_index_range]|].
  change (read64 (k_mem k0) (top + 8 * pml_index 4 va)) with (entry (k_mem k) top (pml_index 4 va)).
  unfold fits in Hfit. revert Hend Hfit. cbn [walk Nat.eqb].
  change (Z.of_nat 4) with 4. change (Z.of_nat 3) with 3. change (Z.of_nat 2) with 2. change (Z.of_nat 1) with 1.
  set (e4 := entry (k_mem k) top (pml_index 4 va)).
  destruct (is_present e4) eqn:P4; cbn [negb]; intros Hend Hfit; [|by apply Hend].
  assert (links 4 e4 = true) as L4 by (unfold links; by rewrite P4, andb_false_r).
  rewrite L4 in *. apply wp_bind, load_next; [apply pml_index_range|].
  change (k_mem k0) with (k_mem k). set (e3 := entry (k_mem k) _ (pml_index 3 va)) in *.
  destruct (is_present e3) eqn:P3; cbn [negb] in *; [|by apply Hend].
  destruct (links 3 e3) eqn:L3; [|by specialize (Hfit _ _ eq_refl); lia].
  apply wp_bind, load_next; [apply pml_index_range|].
  change (k_mem k0) with (k_mem k). set (e2 := entry (k_mem k) _ (pml_index 2 va)) in *.
  destruct (is_present e2) eqn:P2; cbn [negb] in *; [|by apply Hend].
  destruct (links 2 e2) eqn:L2; [|by specialize (Hfit _ _ eq_refl); lia].
  apply wp_bind, load_next; [apply pml_index_range|].
  change (k_mem k0) with (k_mem k). set (e1 := entry (k_mem k) _ (pml_index 1 va)) in *.
  destruct (is_present e1) eqn:P1; cbn [negb] in *; [|by apply Hend].
  apply wp_bind, wp_unlock_balanced; [done..|].
  replace (restored k k0) with k by (symmetry; by apply restored_locked).
  apply wp_bind. change (k_hhdm k0) with (k_hhdm k). apply load_next; [apply pml_index_range|]. by apply wp_ret.
Qed.

(** ** Unmapping *)

Definition flush (va : Z) (k : kernel) : kernel :=
  let c := k_cpu k in
  set_cpu k (add_flushed c va).

(** [va] is unmapped, everything else is as before, and the processor has been
    told if there was something to unmap. *)
Record unmapped (va top : Z) (T : gmap Z nat) (k k' : kernel) : Prop := mk_unmapped {
  um_walk : ∀ va', (same_slot 1 va va' → walk 4 (k_mem k') top va' = None) ∧
    (¬ same_slot 1 va va' → walk 4 (k_mem k') top va' = walk 4 (k_mem k) top va');
  um_state : ∃ k1, pt_step 0 top T k T k1 ∧ (k' = flush va k1 ∨ k' = k ∧ walk 4 (k_mem k) top va = None)
}.

Lemma same_slot_refl lvl va : same_slot lvl va va.
Proof. done. Qed.

Lemma walk_same_slot n m t va va' :
  same_slot 1 va va' → (n <= 4)%nat → walk n m t va = walk n m t va'.
Proof.
  intros Hs. revert t. induction n as [|n IH]; intros t Hn; [done|]. cbn [walk].
  rewrite (Hs (S n)) by lia. destruct (is_present _); [|done]. cbn [negb]. destruct (Nat.eqb _ _); [done|].
  destruct (links _ _); [|done]. apply IH. lia.
Qed.

Lemma clear_leaf_spec T top va t k :
  pt_inv T top k → tbl 3 (k_mem k) top va = Some t →
  wp (store64 (entry_ptr (u64 (t + k_hhdm k)) (pml_index 1 va)) 0) k (λ _ k', pt_step 0 top T k T k' ∧
    (∀ va', (same_slot 1 va va' → walk 4 (k_mem k') top va' = None) ∧
            (¬ same_slot 1 va va' → walk 4 (k_mem k') top va' = walk 4 (k_mem k) top va'))).
Proof.
  intros Hinv Ht. set (i := pml_index 1 va). pose proof (pml_index_range 1 va : 0 <= i < 512) as Hi.
  pose proof (pi_ok _ _ _ Hinv) as Hok. pose proof (pi_top _ _ _ Hinv) as Htop.
  pose proof (tbl_level T (k_mem k) top Hok Htop 3 va t ltac:(lia) Ht) as Htl. cbn in Htl.
  destruct (store_entry T t 1 i 0 k Hok Htl Hi) as [Hs Hw]. eapply wp_ok; [exact Hs|]. set (k' := set_mem k _) in *.
  assert (∀ t' j, is_Some (T !! t') → 0 <= j < 512 → t' ≠ t ∨ j ≠ i →
    entry (k_mem k') t' j = entry (k_mem k) t' j) as Hm.
  { intros t' j. apply (entry_write_other T t i (u64 0) k k'); [done|by eexists|done|done]. }
  split; [apply (entry_write_step T top t 1 i (u64 0)); [done..|by left]|]. intros va'. split.
  - intros Hss. rewrite (walk_hit T (k_mem k) top Hok Htop t 3 i (k_mem k') Htl ltac:(lia) Hi Hm va').
    + cbn [Nat.sub walk]. rewrite <- (Hss 1%nat) by lia. fold i.
      change (pml_index (Z.of_nat 1) va) with i. rewrite (ew_new _ _ _ _ _ Hw). done.
    + rewrite <- Ht. symmetry. apply (tbl_prefix T (k_mem k) top Hok Htop). intros j Hj. apply Hss. lia.
  - intros Hns. apply (walk_miss T (k_mem k) top Hok Htop t 3 i (k_mem k') Htl ltac:(lia) Hi Hm 4 va' top);
      [lia|done|lia|].
    intros [Ht' Hi']. apply Hns. intros l Hl. destruct (decide (l = 1)%nat) as [->|Hne]; [by symmetry|].
    pose proof (tbl_inj T (k_mem k) top Hok Htop 3 va va' t ltac:(lia) Ht Ht' (4 - l)%nat ltac:(lia)) as Hj.
    by replace (4 - (4 - l))%nat with l in Hj by lia.
Qed.

Lemma unlock_flushed l va k k1 :
  can_lock l k → same_rest (locked l k) k1 →
  spinlock_unlock l (cr8 (k_cpu k)) (flush va k1) = Ok (tt, flush va (restored k k1)).
Proof.
  intros Hlk Hs. pose proof (spinlock_unlock_balanced l k k1 Hlk Hs) as Hb.
  destruct Hlk as [Hirql Hfree]. assert (k_cpu k1 = set_cr8 (k_cpu k) IRQL_DISPATCH) as Hc by apply Hs.
  rewrite spinlock_unlock_ok in Hb by (rewrite Hc; cbn; lia).
  rewrite spinlock_unlock_ok by (unfold flush; cbn; rewrite Hc; cbn; lia). injection Hb as Hb Hl.
  assert (restored k k1 = set_cpu (set_locks k1 (k_locks k1 ∖ {[l]})) (set_cr8 (k_cpu k1) (cr8 (k_cpu k)))) as ->
    by (unfold restored; by rewrite Hb, Hl). done.
Qed.

Lemma vmm_unmap_page_spec pm T top va k :
  pt_inv T top k → has_top pm top k → fits 1 (k_mem k) top va → can_lock vmm_spinlock k →
  wp (vmm_unmap_page pm va) k (λ _ k', unmapped va top T k k').
Proof.
  intros Hinv (p & Hpm & Htp) Hfit Hlk. unfold vmm_unmap_page.
  apply wp_bind, wp_spinlock_lock; [done|]. set (k0 := locked vmm_spinlock k).
  destruct (pt_level T (k_mem k) (pi_ok _ _ _ Hinv) top 4 (pi_top _ _ _ Hinv)) as (_ & _ & Htop).
  destruct (pt_inv_ext T top k k0) as [Hi0 _]; [done..|].
  assert (walk 4 (k_mem k) top va = None →
    wp (spinlock_unlock vmm_spinlock (cr8 (k_cpu k))) k0 (λ _ k', unmapped va top T k k')) as Hend.
  { intros Hn. apply wp_unlock_balanced; [done..|]. unfold k0. rewrite restored_locked by done. split.
    - intros va'. split; [|done]. intros Hs. by rewrite <- (walk_same_slot 4 (k_mem k) top va va' Hs).
    - exists k. split; [by apply pt_step_refl|by right]. }
  apply wp_bind. eapply wp_ok; [unfold get_pagemap; change (k_pagemaps k0) with (k_pagemaps k); by rewrite Hpm|].
  apply wp_bind, wp_gets. rewrite Htp. change (k_hhdm k) with (k_hhdm k0).
  apply wp_bind, (wp_load64 _ _ (top + 8 * pml_index 4 va)); [apply hhdm_entry; [done|apply pml_index_range]|].
  change (read64 (k_mem k0) (top + 8 * pml_index 4 va)) with (entry (k_mem k) top (pml_index 4 va)).
  unfold fits in Hfit. revert Hend Hfit. cbn [walk Nat.eqb].
  change (Z.of_nat 4) with 4. change (Z.of_nat 3) with 3. change (Z.of_nat 2) with 2. change (Z.of_nat 1) with 1.
  set (e4 := entry (k_mem k) top (pml_index 4 va)).
  destruct (is_present e4) eqn:P4; cbn [negb]; intros Hend Hfit; [|by apply Hend].
  assert (links 4 e4 = true) as L4 by (unfold links; by rewrite P4, andb_false_r).
  rewrite L4 in *. apply wp_bind, load_next; [apply pml_index_range|].
  change (k_mem k0) with (k_mem k). set (e3 := entry (k_mem k) _ (pml_index 3 va)) in *.
  destruct (is_present e3) eqn:P3; cbn [negb] in *; [|by apply Hend].
  destruct (links 3 e3) eqn:L3; [|by specialize (Hfit _ _ eq_refl); lia].
  apply wp_bind, load_next; [apply pml_index_range|].
  change (k_mem k0) with (k_mem k). set (e2 := entry (k_mem k) _ (pml_index 2 va)) in *.
  destruct (is_present e2) eqn:P2; cbn [negb] in *; [|by apply Hend].
  destruct (links 2 e2) eqn:L2; [|by specialize (Hfit _ _ eq_refl); lia].
  clear Hend Hfit. apply wp_bind. eapply wp_mono.
  { apply (clear_leaf_spec T top va (Z.land e2 PTE_MASK) k0 Hi0). change (k_mem k0) with (k_mem k).
    unfold tbl, mbind, option_bind. change (Z.of_nat (4 - 0)) with 4. change (Z.of_nat (4 - 1)) with 3.
    change (Z.of_nat (4 - 2)) with 2. fold e4. change (4 - 0)%nat with 4%nat. rewrite L4. fold e3.
    change (4 - 1)%nat with 3%nat. rewrite L3. fold e2. change (4 - 2)%nat with 2%nat. by rewrite L2. }
  intros u k1 [Hst Hwalk]. apply wp_bind. unfold invlpg. apply wp_modify. fold (flush va k1).
  eapply wp_ok; [apply unlock_flushed; [done|apply Hst]|]. split; [done|].
  exists (restored k k1). split; [by eapply pt_step_locked|by left].
Qed.

(** ** Ranges of pages *)

(** Distance of [va'] from [va] in pages, in the 48-bit address space. *)
Definition page_dist (va va' : Z) : Z := (va' / 4096 - va / 4096) mod 2 ^ 36.

Lemma same_slot_dist va va' i :
  0 <= i < 2 ^ 36 → same_slot 1 (va + i * 4096) va' ↔ page_dist va va' = i.
Proof.
  intros Hi. unfold page_dist. transitivity ((va + i * 4096) / 4096 mod 2 ^ 36 = va' / 4096 mod 2 ^ 36).
  - rewrite <- same_indices. unfold same_slot. split.
    + intros H l Hl. specialize (H (Z.to_nat l) ltac:(lia)). by rewrite Z2Nat.id in H by lia.
    + intros H l Hl. apply H. lia.
  - rewrite Z.div_add by lia. split; intros H.
    + rewrite Zminus_mod, <- H, <- Zminus_mod.
      replace (va / 4096 + i - va / 4096) with i by lia. by apply Z.mod_small.
    + rewrite <- H. rewrite Zplus_mod_idemp_r. f_equal. lia.
Qed.

Definition mapped_range (i n va pa flags top : Z) (m m' : mem_t) : Prop :=
  ∀ va', walk 4 m' top va' =
    if (i <=? page_dist va va') && (page_dist va va' <? i + n)
    then Some (1%nat, leaf_entry 1 (u64 (pa + page_dist va va' * PAGE_SIZE)) flags)
    else walk 4 m top va'.

Lemma page_dist_range va va' : 0 <= page_dist va va' < 2 ^ 36.
Proof. apply Z.mod_pos_bound. lia. Qed.

Lemma mapped_range_cons i n va pa flags top m m1 m2 :
  0 <= i < 2 ^ 36 → 0 <= n →
  mapped 1 (va + i * PAGE_SIZE) (leaf_entry 1 (u64 (pa + i * PAGE_SIZE)) flags) top m m1 →
  mapped_range (i + 1) n va pa flags top m1 m2 → mapped_range i (n + 1) va pa flags top m m2.
Proof.
  intros Hi Hn H1 H2 va'. rewrite (H2 va'). destruct (H1 va') as [Hin Hout].
  pose proof (page_dist_range va va') as Hd. unfold PAGE_SIZE in *.
  destruct (decide (page_dist va va' = i)) as [He|Hne].
  - rewrite Hin by (by apply same_slot_dist). rewrite He.
    destruct (Z.leb_spec (i + 1) i); [lia|]. cbn [andb].
    by rewrite Z.leb_refl, (proj2 (Z.ltb_lt _ _)) by lia.
  - rewrite Hout by (by rewrite same_slot_dist).
    destruct (Z.leb_spec (i + 1) (page_dist va va')), (Z.ltb_spec (page_dist va va') (i + 1 + n)),
      (Z.leb_spec i (page_dist va va')), (Z.ltb_spec (page_dist va va') (i + (n + 1))); cbn [andb]; try done; lia.
Qed.

Lemma vmm_map_pages_loop_spec n i pm T top va pa flags k :
  pt_inv T top k → has_top pm top k → is_u64 flags → 0 <= i → i + Z.of_nat n <= 2 ^ 36 →
  0 <= va → va + (i + Z.of_nat n) * PAGE_SIZE <= 2 ^ 64 →
  (∀ va', i <= page_dist va va' → fits 1 (k_mem k) top va') →
  can_lock vmm_spinlock k → can_lock pmm_spinlock k → enough (3 * Z.of_nat n) k →
  wp (vmm_map_pages_loop n i pm va pa flags) k (λ _ k', ∃ T',
    pt_step (3 * Z.of_nat n) top T k T' k' ∧ mapped_range i (Z.of_nat n) va pa flags top (k_mem k) (k_mem k')).
Proof.
  revert i T k. induction n as [|n IH]; intros i T k Hinv Htp Hf Hi Hin Hva Hvn Hfit Hlk1 Hlk2 Hen; cbn [vmm_map_pages_loop].
  { apply wp_ret. exists T. split; [by apply pt_step_refl|]. intros va'.
    destruct (Z.leb_spec i (page_dist va va')), (Z.ltb_spec (page_dist va va') (i + Z.of_nat 0)); cbn [andb]; done || lia. }
  assert (u64 (i * PAGE_SIZE) = i * PAGE_SIZE) as Hu by (apply u64_id; unfold is_u64, PAGE_SIZE in *; lia).
  rewrite Hu, (u64_id (va + _)) by (unfold is_u64, PAGE_SIZE in *; lia).
  apply wp_bind. unfold vmm_map_page. change PAGE_SIZE with (page_size_of 1) at 3. eapply wp_mono.
  { apply (vmm_map_page_sized_spec 1 pm T top); try (done || lia).
    - apply Hfit. pose proof (proj1 (same_slot_dist va (va + i * PAGE_SIZE) i ltac:(lia)) (same_slot_refl 1 _)) as Hd.
      unfold PAGE_SIZE in *. lia.
    - apply (enough_mono (3 * Z.of_nat (S n))); [lia|done]. }
  intros _ k1 (T1 & Hst & Hmap). pose proof (ps_rest _ _ _ _ _ _ Hst) as R. eapply wp_mono.
  { apply (IH (i + 1) T1 k1); try (done || lia).
    - apply Hst.
    - destruct Htp as (p & Hp & Ht). exists p. by rewrite (sr_pagemaps _ _ R), (sr_hhdm _ _ R).
    - intros va' Hd l e. pose proof (page_dist_range va va') as Hr.
      rewrite (proj2 (Hmap va')); [by apply Hfit; lia|].
      unfold PAGE_SIZE. rewrite same_slot_dist; lia.
    - by eapply can_lock_same_rest.
    - by eapply can_lock_same_rest.
    - apply (enough_mono (3 * Z.of_nat (S n) - 3)); [lia|]. by apply Hst. }
  intros u k2 (T2 & Hst2 & Hmap2). exists T2. split.
  - replace (3 * Z.of_nat (S n)) with (3 + 3 * Z.of_nat n) by lia.
    eapply pt_step_trans; [apply Hinv|done|done].
  - replace (Z.of_nat (S n)) with (Z.of_nat n + 1) by lia.
    eapply mapped_range_cons; [lia|lia|exact Hmap|exact Hmap2].
Qed.
End vmm.

(** * The page tables over the physical memory manager *)

Lemma has_top_rest pm top k k' : same_rest k k' → has_top pm top k → has_top pm top k'.
Proof. intros R (p & Hp & Ht). exists p. by rewrite (sr_pagemaps _ _ R), (sr_hhdm _ _ R). Qed.

(** (C6) Mapping: installing a page of 4 KiB, 2 MiB or 1 GiB ([lvl] 1, 2, 3)
    returns, creates the missing tables from at most three frames, makes the
    processor's walk find exactly the requested entry for every address of
    that page, changes the translation of no other address, touches no memory
    but the tables and the frames it took, and releases the lock. *)
Theorem vmm_map_page_correct lvl pm T top va pa flags k :
  pt_inv T top k → has_top pm top k → (1 <= lvl <= 3)%nat → fits lvl (k_mem k) top va → is_u64 flags →
  can_lock vmm_spinlock k → can_lock pmm_spinlock k → enough 3 k →
  ∃ T' k', vmm_map_page_sized pm va pa flags (page_size_of lvl) k = Ok (tt, k') ∧
    pt_step 3 top T k T' k' ∧ mapped lvl va (leaf_entry lvl pa flags) top (k_mem k) (k_mem k').
Proof.
  intros H1 H2 H3 H4 H5 H6 H7 H8.
  destruct (wp_inv _ _ _ (vmm_map_page_sized_spec lvl pm T top va pa flags k H1 H2 H3 H4 H5 H6 H7 H8))
    as ([] & k' & Hr & T' & Hst & Hm). by exists T', k'.
Qed.

(** (C7) Mapping then looking up: when no large page is in the way of [va], a
    4 KiB mapping succeeds and afterwards [vmm_get_phys] returns the mapped frame
    for every address of the page; for any other address that is not inside a
    large page it returns what it returned before.  Large pages elsewhere, such as
    those of the direct map, do not matter.  Looking up changes nothing. *)
Theorem map_then_get_phys pm T top va pa flags k :
  pt_inv T top k → has_top pm top k → fits 1 (k_mem k) top va → is_u64 flags →
  Z.land flags PTE_MASK = 0 → can_lock vmm_spinlock k → can_lock pmm_spinlock k → enough 3 k →
  ∃ k', vmm_map_page pm va pa flags k = Ok (tt, k') ∧
    ∀ va', page_dist va va' = 0 ∧ vmm_get_phys pm va' k' = Ok (Z.land pa PTE_MASK, k') ∨
      page_dist va va' ≠ 0 ∧ (fits 1 (k_mem k) top va' →
        ∃ r, vmm_get_phys pm va' k = Ok (r, k) ∧ vmm_get_phys pm va' k' = Ok (r, k')).
Proof.
  intros Hi Ht Hfit Hf Hfm Hl1 Hl2 Hen.
  destruct (wp_inv _ _ _ (vmm_map_page_sized_spec 1 pm T top va pa flags k Hi Ht ltac:(lia) Hfit Hf Hl1 Hl2 Hen))
    as ([] & k' & Hr & T' & Hst & Hmap). exists k'. split; [exact Hr|].
  pose proof (ps_rest _ _ _ _ _ _ Hst) as R. intros va'.
  destruct (pt_level T (k_mem k) (pi_ok _ _ _ Hi) top 4 (pi_top _ _ _ Hi)) as (_ & _ & Htop).
  assert (same_slot 1 va va' ↔ page_dist va va' = 0) as Hss.
  { rewrite <- (same_slot_dist va va' 0) by lia. by rewrite Z.add_0_r. }
  assert (fits 1 (k_mem k') top va' → vmm_get_phys pm va' k' = Ok (frame_of (walk 4 (k_mem k') top va'), k')) as Hget.
  { intros Hfit'. by destruct (wp_inv _ _ _ (vmm_get_phys_spec pm top va' k' (has_top_rest _ _ _ _ R Ht) Htop Hfit'
      (can_lock_same_rest _ _ _ R Hl1))) as (r & k0 & Hg' & -> & ->). }
  destruct (decide (page_dist va va' = 0)) as [Hd|Hd]; [left|right]; (split; [done|]).
  - assert (walk 4 (k_mem k') top va' = Some (1%nat, leaf_entry 1 pa flags)) as Hw by (by apply (proj1 (Hmap va')), Hss).
    rewrite Hget, Hw; [|intros l e; rewrite Hw; intros [= <- <-]; lia]. cbn [frame_of]. unfold leaf_entry. rewrite PTE_MASK_lor; [done|].
    unfold leaf_bits. cbn [Nat.eqb]. by rewrite Z.land_lor_distr_l, Hfm.
  - intros Hfo. assert (walk 4 (k_mem k') top va' = walk 4 (k_mem k) top va') as Hw by (apply (proj2 (Hmap va')); by rewrite Hss).
    destruct (wp_inv _ _ _ (vmm_get_phys_spec pm top va' k Ht Htop Hfo Hl1)) as (r & k0 & Hg & -> & ->).
    eexists. split; [exact Hg|]. rewrite <- Hw. apply Hget. unfold fits. by rewrite Hw.
Qed.

(** (C8) Unmapping: the page of [va] is no longer mapped, every other address
    translates as before, and if a mapping was removed the processor's cached
    translation of it was invalidated; nothing else in memory changed. *)
Theorem vmm_unmap_page_correct pm T top va k :
  pt_inv T top k → has_top pm top k → fits 1 (k_mem k) top va → can_lock vmm_spinlock k →
  ∃ k', vmm_unmap_page pm va k = Ok (tt, k') ∧ unmapped va top T k k'.
Proof.
  intros H1 H2 H3 H4.
  destruct (wp_inv _ _ _ (vmm_unmap_page_spec pm T top va k H1 H2 H3 H4)) as ([] & k' & Hr & Hu). by exists k'.
Qed.

(** Ranges: [vmm_map_pages_continuous] maps the [n] pages from [va] to the
    [n] consecutive frames from [pa] and changes no other translation. *)
Theorem vmm_map_pages_continuous_correct pm T top va pa n flags k :
  pt_inv T top k → has_top pm top k → is_u64 flags → 0 <= n <= 2 ^ 36 → 0 <= va →
  va + n * PAGE_SIZE <= 2 ^ 64 → (∀ va', fits 1 (k_mem k) top va') →
  can_lock vmm_spinlock k → can_lock pmm_spinlock k → enough (3 * n) k →
  ∃ T' k', vmm_map_pages_continuous pm va pa n flags k = Ok (tt, k') ∧
    pt_step (3 * n) top T k T' k' ∧ mapped_range 0 n va pa flags top (k_mem k) (k_mem k').
Proof.
  intros Hi Ht Hf Hn Hva Hvn Hfit Hl1 Hl2 Hen. unfold vmm_map_pages_continuous.
  destruct (wp_inv _ _ _ (vmm_map_pages_loop_spec (Z.to_nat n) 0 pm T top va pa flags k Hi Ht Hf ltac:(lia)
    ltac:(lia) Hva ltac:(rewrite Z2Nat.id; lia) (λ va' _, Hfit va') Hl1 Hl2 ltac:(rewrite Z2Nat.id; (done || lia))))
    as ([] & k' & Hr & T' & Hst & Hm). rewrite !Z2Nat.id in * by lia. by exists T', k'.
Qed.
