(* ===== verification/MallocInv.v ===== *)
(** Correctness of small blocks: [malloc], [zalloc] and [free] up to the size
    the slab heap can serve, and the sizes it cannot. *)
From stdpp Require Import base tactics list gmap sets strings.
From Stdlib Require Import ZArith Lia.
From S2P Require Import Prelude Bits State Spinlock Pmm PmmInv FrameAlloc Heap HeapInv Vmm VmmInv PmmBoot HeapBoot.

Section malloc.
Context {FA : FrameAllocator allocate_page free_page}.

(** ** Clients write outside the heap's private memory *)

(** Writes that respect the heap's and the allocator's memory. *)
Record client_write (h : heap_g) (k k' : kernel) : Prop := mk_client_write {
  cw_rest : same_rest k k';
  cw_pmm : k_pmm k' = k_pmm k;
  cw_mem : ∀ x, private h x ∨ fa_owns k x → read8 (k_mem k') x = read8 (k_mem k) x
}.

Lemma heap_inv_client h k k' :
  heap_inv h k → client_write h k k' →
  heap_inv h k' ∧ (∀ x, fa_owns k' x ↔ fa_owns k x) ∧ (∀ x, fa_lent k' x ↔ fa_lent k x).
Proof.
  intros Hi [R P Mm]. pose proof (sr_hhdm _ _ R) as Hh.
  destruct (fa_frame k k' (hi_fa h k Hi) Hh P) as (Hfa & Ho & Hl); [auto|]. split; [|done]. split; try done.
  - rewrite Hh. apply Hi.
  - rewrite (sr_heap _ _ R), Hh. eapply Forall2_impl; [apply Hi|]. intros c ps (Hc & Hne & Hch & Hin).
    split_and!; try done. eapply chain_ext; [|done]. intros p Hp. destruct (Hin p Hp) as [F HF].
    apply le_read_ext. intros x Hx. apply Mm. left. apply (private_header h k p (sc_size c) F); [done..|lia].
  - intros p sz F Hp. destruct (hi_slabs h k Hi p sz F Hp) as [Hc Hs]. split; [done|]. rewrite Hh.
    pose proof (proj1 Hc). apply (slab_ok_ext (k_mem k)); [done| | |done].
    + intros x Hx. apply Mm. left. apply (private_header h k p sz F); [done..|lia].
    + intros o x Ho' Hx. apply Mm. left. apply (private_free h k p sz F o); [done..|lia].
  - intros p Hp. rewrite Hl. by apply (hi_lent h k Hi).
  - apply Hi.
Qed.

(** Taking a frame does not disturb the heap. *)
Lemma heap_inv_alloc h k p k' :
  heap_inv h k → fa_inv k' → handed_out fa_owns p k k' →
  (∀ x, fa_lent k' x ↔ fa_lent k x ∨ x / 4096 = p / 4096) → heap_inv h k'.
Proof.
  intros Hi Hfa [R _ _ _ _ Mm] Hl. pose proof (sr_hhdm _ _ R) as Hh.
  assert (∀ q sz F x, slabs h !! q = Some (sz, F) → q <= x < q + 4096 → read8 (k_mem k') x = read8 (k_mem k) x) as Hsame.
  { intros q sz F x Hq Hx. apply Mm. intros Ho. destruct (slab_page_range h k q sz F Hi Hq) as (Hal & _ & Hno).
    apply Hno. apply (fa_page k x q); [apply Hi| |done]. Z.div_mod_to_equations. lia. }
  split; try done.
  - rewrite Hh. apply Hi.
  - rewrite (sr_heap _ _ R), Hh. eapply Forall2_impl; [apply Hi|]. intros c ps (Hc & Hne & Hch & Hin).
    split_and!; try done. eapply chain_ext; [|done]. intros q Hq. destruct (Hin q Hq) as [F HF].
    apply le_read_ext. intros x Hx. apply (Hsame q (sc_size c) F); [done|lia].
  - intros q sz F Hq. destruct (hi_slabs h k Hi q sz F Hq) as [Hc Hs]. split; [done|]. rewrite Hh.
    pose proof (proj1 Hc). apply (slab_ok_ext (k_mem k)); [done| | |done].
    + intros x Hx. apply (Hsame q sz F); [done|lia].
    + intros o x Ho Hx. apply (Hsame q sz F); [done|].
      destruct (slot_bounds q sz o Hc (sl_aligned _ _ _ _ _ Hs) (sl_slots _ _ _ _ _ Hs o Ho)) as (? & ? & _). lia.
  - intros q Hq. rewrite Hl. left. by apply (hi_lent h k Hi).
  - apply Hi.
Qed.

(** A live object is neither private nor the allocator's. *)
Lemma live_client h k o s x :
  heap_inv h k → live h o s → o <= x < o + s → ¬ private h x ∧ ¬ fa_owns k x.
Proof.
  intros Hi Hl Hx. pose proof Hl as (p & F & Hp & Hs & Hno). destruct (hi_slabs h k Hi p s F Hp) as [Hc Hsl].
  pose proof (sl_aligned _ _ _ _ _ Hsl) as Hal. pose proof (slot_page p s o x Hc Hal Hs Hx) as Hpg. split.
  - intros (q & sz & G & Hq & Hxq & Hn). apply Hn. exists o.
    assert (q = p) as -> by (apply (slabs_apart h k); [done|by eexists..|congruence]).
    rewrite Hp in Hq. injection Hq as <- <-. done.
  - intros Ho. destruct (slab_page_range h k p s F Hi Hp) as (_ & _ & Hn). apply Hn.
    by apply (fa_page k x p); [apply Hi|..].
Qed.

Lemma live_range h k o s :
  heap_inv h k → live h o s → 0 < o ∧ o + s <= 2 ^ 46 ∧ 32 <= s ∧ o mod 16 = 0.
Proof.
  intros Hi (p & F & Hp & Hs & _). destruct (hi_slabs h k Hi p s F Hp) as [Hc Hsl].
  destruct (slab_page_range h k p s F Hi Hp) as (Hal & Hr & _). destruct (slot_bounds p s o Hc Hal Hs) as (? & ? & ?).
  pose proof (proj1 Hc). split_and!; try done; Z.div_mod_to_equations; lia.
Qed.

(** ** Blocks *)

(** [ptr] is a block of [size] bytes that [malloc] returned; its object is [o]. *)
Record block (h : heap_g) (k : kernel) (o s ptr size : Z) : Prop := mk_block {
  bl_live : live h o s;
  bl_ptr : ptr = o + 16 + k_hhdm k;
  bl_fits : size + 16 <= s;
  bl_size : read64 (k_mem k) o = size
}.

(** What taking a small block does. *)
Record block_taken (o s ptr size : Z) (h : heap_g) (k : kernel) (h' : heap_g) (k' : kernel) : Prop := mk_block_taken {
  bt_inv : heap_inv h' k';
  bt_rest : same_rest k k';
  bt_block : block h' k' o s ptr size;
  bt_fresh : ∀ s', ¬ live h o s';
  bt_where : ∀ x, o <= x < o + s → fa_owns k x ∨ private h x;
  bt_enough : ∀ n, enough n k → enough (n - 1) k';
  bt_live : ∀ o' s', live h' o' s' ↔ live h o' s' ∨ (o' = o ∧ s' = s);
  bt_mem : ∀ x, ¬ fa_owns k x → ¬ private h x → read8 (k_mem k') x = read8 (k_mem k) x
}.

Definition can_serve (k : kernel) (size : Z) : Prop := ∃ c, c ∈ k_heap k ∧ size + 16 <= sc_size c.

Lemma heap_inv_ext h k k' :
  k_mem k' = k_mem k → k_hhdm k' = k_hhdm k → k_pmm k' = k_pmm k → k_heap k' = k_heap k →
  heap_inv h k → heap_inv h k' ∧ (∀ x, fa_owns k' x ↔ fa_owns k x).
Proof.
  intros Em Eh Ep Ehp [Hfa Hoff Hc Hs Hl Hn].
  destruct (fa_frame k k' Hfa Eh Ep) as (Hfa' & Ho & Hl'); [by rewrite Em|]. split; [|done].
  split; rewrite ?Em, ?Eh, ?Ehp; try done. intros p Hp. rewrite Hl'. auto.
Qed.

Lemma malloc_small_spec h k size :
  heap_inv h k → can_lock slab_memlock k → can_lock pmm_spinlock k → (∃ q, fa_owns k q) →
  0 <= size <= 1024 → can_serve k size →
  wp (malloc_small size) k (λ ptr k', ∃ o s h', block_taken o s ptr size h k h' k').
Proof.
  intros Hi Hl1 Hl2 Hex Hsz Hserve. unfold malloc_small.
  apply wp_bind, wp_spinlock_lock; [done|]. set (k0 := locked slab_memlock k).
  destruct (heap_inv_ext h k k0) as [Hi0 Ho0]; [done..|].
  rewrite (u64_id (size + 16)) by (unfold is_u64; lia).
  apply wp_bind. eapply wp_mono.
  { apply (kmalloc_spec h k0); [done|apply locked_can_lock; [done|done|apply Hl2]| |done].
    destruct Hex as [q Hq]. exists q. by rewrite Ho0. }
  intros r k1 (o & s & h1 & -> & Hle & [I1 R1 C1 F1 W1 E1 L1 M1]).
  change (k_hhdm k0) with (k_hhdm k). assert (k_hhdm k1 = k_hhdm k) as Hh1 by apply R1.
  assert (live h1 o s) as Hlv by (apply L1; by right).
  destruct (live_range h1 k1 o s I1 Hlv) as (Hlo & Hhi & Hs & _).
  pose proof (fa_hhdm k (hi_fa h k Hi)) as [Hoff1 Hoff2].
  apply wp_bind, (wp_store64 _ _ o); [rewrite <- Hh1; apply hhdm_phys_add; lia|]. set (k2 := set_mem k1 _).
  assert (∀ x, o <= x < o + 8 → ¬ private h1 x ∧ ¬ fa_owns k1 x) as Hcl
    by (intros x Hx; apply (live_client h1 k1 o s); [done..|lia]).
  assert (client_write h1 k1 k2) as Hcw.
  { split; [done..|]. intros x Hx. cbn. apply read8_write_le_out. intros Hin. destruct (Hcl x Hin). naive_solver. }
  destruct (heap_inv_client h1 k1 k2 I1 Hcw) as (I2 & Ho2 & _).
  apply wp_bind, (wp_unlock_balanced _ k); [done|by transitivity k1|]. apply wp_ret.
  destruct (heap_inv_ext h1 k2 (restored k k2)) as [I3 Ho3]; try done.
  exists o, s, h1. split; try done.
  - eapply restored_same_rest. by transitivity k1.
  - split; try done.
    + rewrite u64_id; [cbn; rewrite Hh1; lia|unfold is_u64; lia].
    + cbn. rewrite read64_write64_eq. apply u64_id. unfold is_u64. lia.
  - intros x Hx. rewrite <- Ho0. by apply W1.
  - intros n Hn. eapply enough_owns; [exact Ho3|]. eapply enough_owns; [exact Ho2|]. apply E1.
    eapply enough_owns; [exact Ho0|done].
  - intros x Hx Hp. cbn. unfold write64. rewrite read8_write_le_out.
    + rewrite M1; [done|by rewrite Ho0|done].
    + intros Hin. destruct (W1 x) as [?|?]; [lia|by apply Hx, Ho0|done].
Qed.

(** What giving a small block back does. *)
Record block_given (o s : Z) (h : heap_g) (k : kernel) (h' : heap_g) (k' : kernel) : Prop := mk_block_given {
  bg_inv : heap_inv h' k';
  bg_rest : same_rest k k';
  bg_live : ∀ o' s', live h' o' s' ↔ live h o' s' ∧ o' ≠ o;
  bg_mem : ∀ x, ¬ private h x → ¬ (o <= x < o + s) → read8 (k_mem k') x = read8 (k_mem k) x
}.

Lemma free_small_spec h k o s ptr size :
  heap_inv h k → can_lock slab_memlock k → block h k o s ptr size →
  wp (free_small ptr) k (λ _ k', ∃ h', block_given o s h k h' k').
Proof.
  intros Hi Hlk [Hlv -> _ _]. unfold free_small.
  apply wp_bind, wp_spinlock_lock; [done|]. set (k0 := locked slab_memlock k).
  destruct (heap_inv_ext h k k0) as [Hi0 Ho0]; [done..|].
  destruct (live_range h k o s Hi Hlv) as (Hlo & Hhi & Hs & _).
  pose proof (fa_hhdm k (hi_fa h k Hi)) as [Hoff1 Hoff2].
  replace (u64 (o + 16 + k_hhdm k - 16)) with (o + k_hhdm k0)
    by (rewrite u64_id; [cbn; lia|unfold is_u64; lia]).
  apply wp_bind. eapply wp_mono; [by apply (kfree_spec h k0 o s)|].
  intros u k1 (h' & [I1 R1 P1 L1 M1]). apply (wp_unlock_balanced _ k); [done..|].
  destruct (heap_inv_ext h' k1 (restored k k1)) as [I2 _]; [done..|].
  exists h'. split; try done. by eapply restored_same_rest.
Qed.

(** [zalloc]: as [malloc], and the block reads as zero. *)
Lemma zalloc_small_spec h k size :
  heap_inv h k → can_lock slab_memlock k → can_lock pmm_spinlock k → (∃ q, fa_owns k q) →
  0 <= size <= 1024 → can_serve k size →
  wp (zalloc_small size) k (λ ptr k', ∃ o s h', block_taken o s ptr size h k h' k' ∧
    ∀ x, o + 16 <= x < o + 16 + size → read8 (k_mem k') x = 0).
Proof.
  intros Hi Hl1 Hl2 Hex Hsz Hserve. unfold zalloc_small.
  apply wp_bind. eapply wp_mono; [by apply (malloc_small_spec h)|].
  intros ptr k1 (o & s & h1 & [I1 R1 [Hlv -> Hfit Hrd] F1 W1 E1 L1 M1]).
  destruct (live_range h1 k1 o s I1 Hlv) as (Hlo & Hhi & Hs & _).
  unfold memset. apply wp_bind, wp_modify, wp_ret. rewrite hhdm_phys_add by lia. set (k2 := set_mem k1 _).
  assert (client_write h1 k1 k2) as Hcw.
  { split; [done..|]. intros x Hx. apply read8_memset_out. intros Hin.
    destruct (live_client h1 k1 o s x I1 Hlv ltac:(lia)). naive_solver. }
  destruct (heap_inv_client h1 k1 k2 I1 Hcw) as (I2 & Ho2 & _).
  exists o, s, h1. split; [split; try done|].
  - by transitivity k1.
  - split; try done. rewrite <- Hrd. apply read64_memset_out. lia.
  - intros n Hn. eapply enough_owns; [exact Ho2|auto].
  - intros x Hx Hp. transitivity (read8 (k_mem k1) x); [|by apply M1]. apply read8_memset_out. intros Hin.
    destruct (W1 x) as [?|?]; [lia|done..].
  - intros x Hx. by apply read8_memset_in.
Qed.
End malloc.
