(* ===== verification/Vma.v ===== *)
(** The allocator of virtual address ranges ([memory/vma.h], [memory/vma.c]).

    The red-black trees of [obsd-tree.h] are kept as their in-order sequences:
    for ranges that are sorted and apart, which every operation maintains, the
    descent of [RB_INSERT] and [RB_FIND] finds the same place as a scan.
    [RbFacts.vma_trees_refine] shows that the trees implement these sequences.
    [free] is a parameter, because the C function [free] itself calls [vfree]. *)
From stdpp Require Import base tactics list gmap sets strings.
From Stdlib Require Import ZArith Lia.
From S2P Require Import Prelude Bits State Spinlock Pmm Heap Vmm.

Definition VALLOC_RANGE_START : Z := 0xFFFFA00000000000.
Definition VALLOC_RANGE_END : Z := 0xFFFFE00000000000.

Definition in_range (ra rb x : Z) : bool := (ra <=? x) && (x <? rb).

Definition vmm_cmp_range (left right : vmm_page_range_t) : Z :=
  if in_range (vaddr right) (u64 (vaddr right + size right)) (vaddr left) then 0
  else if vaddr left <? vaddr right then -1
  else if vaddr right <? vaddr left then 1
  else 0.

(** * Trees *)

(** [RB_INSERT]: an element that compares equal is kept and nothing is inserted. *)
Fixpoint rb_insert (elm : vmm_page_range_t) (t : list vmm_page_range_t) : list vmm_page_range_t :=
  match t with
  | [] => [elm]
  | x :: t' =>
      if vmm_cmp_range elm x <? 0 then elm :: t
      else if vmm_cmp_range elm x =? 0 then t
      else x :: rb_insert elm t'
  end.

(** [RB_FIND] *)
Definition rb_find (elm : vmm_page_range_t) (t : list vmm_page_range_t) : option vmm_page_range_t :=
  snd <$> list_find (λ x, vmm_cmp_range elm x = 0) t.

(** [RB_REMOVE]: the node itself is taken out. *)
Definition rb_remove (elm : vmm_page_range_t) (t : list vmm_page_range_t) : list vmm_page_range_t :=
  filter (λ x, r_ptr x ≠ r_ptr elm) t.

Definition set_free_ranges (pagemap : Z) (f : list vmm_page_range_t → list vmm_page_range_t) : M kernel unit :=
  let* pm := get_pagemap pagemap in
  put_pagemap pagemap (mk_pagemap (top_level pm) (f (free_ranges pm)) (used_ranges pm)).
Definition set_used_ranges (pagemap : Z) (f : list vmm_page_range_t → list vmm_page_range_t) : M kernel unit :=
  let* pm := get_pagemap pagemap in
  put_pagemap pagemap (mk_pagemap (top_level pm) (free_ranges pm) (f (used_ranges pm))).

(** A node of [sizeof(vmm_page_range_t)] bytes. *)
Definition malloc_range (vaddr size : Z) : M kernel vmm_page_range_t :=
  let* p := malloc_small SIZEOF_RANGE in
  ret (mk_range p vaddr size).

(** * Operations *)

Definition valloc_init : M kernel unit :=
  let* free_range := malloc_range VALLOC_RANGE_START (VALLOC_RANGE_END - VALLOC_RANGE_START) in
  set_free_ranges kernel_pagemap (rb_insert free_range).

(** [valloc(pagemap, size)] *)
Definition valloc_any (pagemap size0 : Z) : M kernel Z :=
  if size0 =? 0 then ret 0 else
  let* lock1r := spinlock_lock vma_spinlock in
  let sz := ALIGN_UP size0 PAGE_SIZE in
  let* pm := get_pagemap pagemap in
  if bool_decide (free_ranges pm = []) then (spinlock_unlock vma_spinlock lock1r ;;; ret 0) else
  match list_find (λ range, sz <= size range) (free_ranges pm) with
  | None => spinlock_unlock vma_spinlock lock1r ;;; ret 0
  | Some (_, range) =>
      set_free_ranges pagemap (rb_remove range) ;;;
      if size range =? sz then
        set_used_ranges pagemap (rb_insert range) ;;;
        spinlock_unlock vma_spinlock lock1r ;;;
        ret (vaddr range)
      else
      let* split_range := malloc_range (vaddr range) sz in
      let range := mk_range (r_ptr range) (u64 (vaddr range + sz)) (u64 (size range - sz)) in
      set_free_ranges pagemap (rb_insert range) ;;;
      set_used_ranges pagemap (rb_insert split_range) ;;;
      spinlock_unlock vma_spinlock lock1r ;;;
      ret (vaddr split_range)
  end.

Section with_free.
Context (free : Z → M kernel unit).

(** [valloc(pagemap, size, fixed_addr, noreplace)] *)
Definition valloc_at (pagemap size0 fixed_addr0 : Z) (noreplace : bool) : M kernel Z :=
  if negb (IS_ALIGNED fixed_addr0 PAGE_SIZE) then ret 0 else
  let sz := ALIGN_UP size0 PAGE_SIZE in
  let* lock1r := spinlock_lock vma_spinlock in
  let* pm := get_pagemap pagemap in
  let uresult := rb_find (mk_range 0 fixed_addr0 0) (used_ranges pm) in
  if noreplace && bool_decide (is_Some uresult) then (spinlock_unlock vma_spinlock lock1r ;;; ret 0) else
  if match uresult with Some u => sz <=? size u | None => false end
  then (spinlock_unlock vma_spinlock lock1r ;;; ret fixed_addr0) else
  let fixed_addr := match uresult with Some u => u64 (fixed_addr0 + size u) | None => fixed_addr0 end in
  let sz := match uresult with Some u => u64 (sz - size u) | None => sz end in
  match rb_find (mk_range 0 fixed_addr 0) (free_ranges pm) with
  | None => spinlock_unlock vma_spinlock lock1r ;;; ret 0
  | Some fresult =>
      set_free_ranges pagemap (rb_remove fresult) ;;;
      if fixed_addr =? vaddr fresult then
        if sz =? size fresult then
          set_used_ranges pagemap (rb_insert fresult) ;;;
          spinlock_unlock vma_spinlock lock1r ;;;
          ret (vaddr fresult)
        else
          let* split_range := malloc_range (vaddr fresult) sz in
          let fresult := mk_range (r_ptr fresult) (u64 (vaddr fresult + sz)) (u64 (size fresult - sz)) in
          set_free_ranges pagemap (rb_insert fresult) ;;;
          set_used_ranges pagemap (rb_insert split_range) ;;;
          spinlock_unlock vma_spinlock lock1r ;;;
          ret (vaddr split_range)
      else
      let pre_size := u64 (fixed_addr - vaddr fresult) in
      let post_size := u64 (u64 (size fresult - pre_size) - sz) in
      let* alloc_range := malloc_range fixed_addr sz in
      set_used_ranges pagemap (rb_insert alloc_range) ;;;
      (if 0 <? pre_size
       then set_free_ranges pagemap (rb_insert (mk_range (r_ptr fresult) (vaddr fresult) pre_size))
       else free (r_ptr fresult)) ;;;
      (if 0 <? post_size then
         let* post_range := malloc_range (u64 (fixed_addr + sz)) post_size in
         set_free_ranges pagemap (rb_insert post_range)
       else ret tt) ;;;
      spinlock_unlock vma_spinlock lock1r ;;;
      ret fixed_addr
  end.

(** [vfree(pagemap, vaddr, size)] *)
Definition vfree (pagemap vaddr0 size0 : Z) : M kernel Z :=
  if negb (IS_ALIGNED vaddr0 PAGE_SIZE) then ret 0 else
  let sz := ALIGN_UP size0 PAGE_SIZE in
  let* lock1r := spinlock_lock vma_spinlock in
  let* pm := get_pagemap pagemap in
  match rb_find (mk_range 0 vaddr0 0) (used_ranges pm) with
  | None => spinlock_unlock vma_spinlock lock1r ;;; ret 0
  | Some uresult =>
      if u64 (vaddr uresult + size uresult) <? u64 (vaddr0 + sz)
      then (spinlock_unlock vma_spinlock lock1r ;;; ret 0) else
      set_used_ranges pagemap (rb_remove uresult) ;;;
      if vaddr uresult =? vaddr0 then
        if size uresult =? sz then
          set_free_ranges pagemap (rb_insert uresult) ;;;
          spinlock_unlock vma_spinlock lock1r ;;;
          ret 1
        else
          let* split_range := malloc_range (vaddr uresult) sz in
          let uresult := mk_range (r_ptr uresult) (u64 (vaddr uresult + sz)) (u64 (size uresult - sz)) in
          set_used_ranges pagemap (rb_insert uresult) ;;;
          set_free_ranges pagemap (rb_insert split_range) ;;;
          spinlock_unlock vma_spinlock lock1r ;;;
          ret 2
      else
      let pre_size := u64 (vaddr0 - vaddr uresult) in
      let post_size := u64 (u64 (size uresult - pre_size) - sz) in
      let* alloc_range := malloc_range vaddr0 sz in
      set_free_ranges pagemap (rb_insert alloc_range) ;;;
      (if 0 <? pre_size
       then set_used_ranges pagemap (rb_insert (mk_range (r_ptr uresult) (vaddr uresult) pre_size))
       else free (r_ptr uresult)) ;;;
      (if 0 <? post_size then
         let* post_range := malloc_range (u64 (vaddr0 + sz)) post_size in
         set_used_ranges pagemap (rb_insert post_range)
       else ret tt) ;;;
      spinlock_unlock vma_spinlock lock1r ;;;
      ret 3
  end.
End with_free.
