(* ===== verification/VmaInv.v ===== *)
(** Correctness of the address-range allocator: free and used ranges stay
    sorted, apart and page-aligned, and each operation moves exactly the
    requested range from one set to the other. *)
From stdpp Require Import base tactics list gmap sets strings.
From Stdlib Require Import ZArith Lia Sorting.Sorted.
From S2P Require Import Prelude Bits State Spinlock Pmm PmmInv FrameAlloc Heap HeapInv Vmm VmmInv MallocInv Vma.

(** * Ranges *)

Definition range_ok (r : vmm_page_range_t) : Prop :=
  0 < vaddr r ∧ 0 < size r ∧ vaddr r + size r < 2 ^ 64 ∧ vaddr r mod 4096 = 0 ∧ size r mod 4096 = 0.

Definition before (a b : vmm_page_range_t) : Prop := vaddr a + size a <= vaddr b.
Definition apart (a b : vmm_page_range_t) : Prop := before a b ∨ before b a.

(** A tree: in order and without overlap. *)
Definition tree_ok (t : list vmm_page_range_t) : Prop :=
  StronglySorted before t ∧ (∀ r, r ∈ t → range_ok r).

(** The addresses a tree covers. *)
Definition covers (t : list vmm_page_range_t) (x : Z) : Prop := ∃ r, r ∈ t ∧ vaddr r <= x < vaddr r + size r.

Lemma tree_ok_cons r t : tree_ok (r :: t) ↔ range_ok r ∧ (∀ r', r' ∈ t → before r r') ∧ tree_ok t.
Proof.
  unfold tree_ok. split.
  - intros [Hs Hr]. apply StronglySorted_inv in Hs as [Hs Hf]. rewrite Forall_forall in Hf.
    split_and!; [apply Hr, elem_of_cons; by left|intros r' Hr'; by apply Hf|done|].
    intros r' Hr'. apply Hr, elem_of_cons. by right.
  - intros (Hr & Hb & Hs & Ht). split; [|intros r' [->|Hr']%elem_of_cons; auto].
    constructor; [done|]. rewrite Forall_forall. intros r' Hr'. by apply Hb.
Qed.

(** The comparison on well-formed ranges. *)
Lemma vmm_cmp_range_spec x r :
  range_ok r →
  (vaddr x < vaddr r → vmm_cmp_range x r = -1) ∧
  (vaddr r <= vaddr x < vaddr r + size r → vmm_cmp_range x r = 0) ∧
  (vaddr r + size r <= vaddr x → vmm_cmp_range x r = 1).
Proof.
  intros (H1 & H2 & H3 & _ & _). unfold vmm_cmp_range, in_range.
  rewrite (u64_id (vaddr r + size r)) by (unfold is_u64; lia).
  split_and!; intros; destruct (Z.leb_spec (vaddr r) (vaddr x)), (Z.ltb_spec (vaddr x) (vaddr r + size r)),
    (Z.ltb_spec (vaddr x) (vaddr r)), (Z.ltb_spec (vaddr r) (vaddr x)); cbn; done || lia.
Qed.

(** ** Insertion *)

Lemma rb_insert_spec x t :
  tree_ok t → range_ok x → (∀ r, r ∈ t → apart x r) →
  tree_ok (rb_insert x t) ∧ ∀ r, r ∈ rb_insert x t ↔ r = x ∨ r ∈ t.
Proof.
  intros Ht Hx. induction t as [|y t IH]; intros Ha; cbn [rb_insert].
  { split; [|intros r; by rewrite elem_of_cons]. rewrite tree_ok_cons. split_and!; [done| |done].
    by intros r ?%not_elem_of_nil. }
  apply tree_ok_cons in Ht as (Hy & Hb & Ht). destruct (vmm_cmp_range_spec x y Hy) as (C1 & C2 & C3).
  pose proof Hx as (Hx1 & Hx2 & _). pose proof Hy as (Hy1 & Hy2 & _).
  destruct (Ha y ltac:(apply elem_of_cons; by left)) as [Hxy|Hyx]; unfold before in *.
  - rewrite C1 by lia. cbn. split; [|intros r; by rewrite elem_of_cons].
    rewrite !tree_ok_cons. split_and!; try done.
    intros r [->|Hr]%elem_of_cons; [done|]. specialize (Hb r Hr). unfold before. lia.
  - rewrite C3 by lia. cbn. destruct IH as [IH1 IH2]; [done|intros r Hr; apply Ha, elem_of_cons; by right|].
    split; [|intros r; rewrite !elem_of_cons, IH2; tauto].
    rewrite tree_ok_cons. split_and!; [done| |done]. intros r [->|Hr]%IH2; [done|by apply Hb].
Qed.

Lemma rb_find_Some a t r :
  tree_ok t → rb_find (mk_range 0 a 0) t = Some r → r ∈ t ∧ vaddr r <= a < vaddr r + size r.
Proof.
  intros [_ Ht] Hf. unfold rb_find in Hf. apply fmap_Some in Hf as ([i r'] & Hf & ->). cbn.
  apply list_find_Some in Hf as (Hi & Hc & _). apply list_elem_of_lookup_2 in Hi. split; [done|].
  destruct (vmm_cmp_range_spec (mk_range 0 a 0) r' (Ht r' Hi)) as (C1 & C2 & C3). cbn in *. lia.
Qed.

Lemma rb_find_None a t : tree_ok t → rb_find (mk_range 0 a 0) t = None → ¬ covers t a.
Proof.
  intros [_ Ht] Hf (r & Hr & Hin). unfold rb_find in Hf. apply fmap_None in Hf.
  apply list_find_None in Hf. rewrite Forall_forall in Hf. apply (Hf r Hr).
  by apply (vmm_cmp_range_spec (mk_range 0 a 0) r (Ht r Hr)).
Qed.

(** ** Removal *)

Lemma tree_ok_filter P `{!∀ r, Decision (P r)} t : tree_ok t → tree_ok (filter P t).
Proof.
  induction t as [|y t IH]; intros Ht; [done|]. apply tree_ok_cons in Ht as (Hy & Hb & Ht).
  rewrite filter_cons. case_decide; [|auto]. rewrite tree_ok_cons. split_and!; [done| |auto].
  intros r [_ Hr]%list_elem_of_filter. auto.
Qed.

Lemma rb_remove_spec x t :
  tree_ok t → (∀ r, r ∈ t → r_ptr r = r_ptr x → r = x) →
  tree_ok (rb_remove x t) ∧ ∀ r, r ∈ rb_remove x t ↔ r ∈ t ∧ r ≠ x.
Proof.
  intros Ht Hp. split; [by apply tree_ok_filter|]. intros r. unfold rb_remove. rewrite list_elem_of_filter.
  split; [intros [Hne Hr]; split; [done|by intros ->]|]. intros [Hr Hne]. split; [|done].
  intros Heq. apply Hne. by apply Hp.
Qed.

(** Two elements of a tree are the same or apart. *)
Lemma tree_apart t a b : tree_ok t → a ∈ t → b ∈ t → a = b ∨ apart a b.
Proof.
  induction t as [|y t IH]; intros Ht Ha Hb; [by apply not_elem_of_nil in Ha|].
  apply tree_ok_cons in Ht as (Hy & Hbf & Ht). apply elem_of_cons in Ha, Hb.
  destruct Ha as [->|Ha], Hb as [->|Hb]; [by left|right; left; auto|right; right; auto|auto].
Qed.

Lemma covers_remove x t y :
  tree_ok t → x ∈ t → range_ok x → (∀ r, r ∈ t → r_ptr r = r_ptr x → r = x) →
  covers (rb_remove x t) y ↔ covers t y ∧ ¬ (vaddr x <= y < vaddr x + size x).
Proof.
  intros Ht Hx Hxo Hp. destruct (rb_remove_spec x t Ht Hp) as [_ Hin]. split.
  - intros (r & Hr & Hy). apply Hin in Hr as [Hr Hne]. split; [by exists r|].
    destruct (tree_apart t r x Ht Hr Hx) as [->|[Hb|Hb]]; [done|..]; unfold before in Hb; lia.
  - intros [(r & Hr & Hy) Hn]. exists r. rewrite Hin. split; [|done]. split; [done|]. by intros ->.
Qed.

Lemma covers_insert x t y :
  tree_ok t → range_ok x → (∀ r, r ∈ t → apart x r) →
  covers (rb_insert x t) y ↔ covers t y ∨ vaddr x <= y < vaddr x + size x.
Proof.
  intros Ht Hx Ha. destruct (rb_insert_spec x t Ht Hx Ha) as [_ Hin]. unfold covers. split.
  - intros (r & [->|Hr]%Hin & Hy); [by right|left; by exists r].
  - intros [(r & Hr & Hy)|Hy]; [exists r|exists x]; rewrite Hin; auto.
Qed.

(** A range is apart from a tree when it covers nothing of it. *)
Lemma apart_covers x t :
  tree_ok t → range_ok x → (∀ y, vaddr x <= y < vaddr x + size x → ¬ covers t y) → ∀ r, r ∈ t → apart x r.
Proof.
  intros [_ Ht] (Hx1 & Hx2 & _) Hn r Hr. destruct (Ht r Hr) as (Hr1 & Hr2 & _). unfold apart, before.
  destruct (Z.le_gt_cases (vaddr x + size x) (vaddr r)); [by left|].
  destruct (Z.le_gt_cases (vaddr r + size r) (vaddr x)); [by right|]. exfalso.
  apply (Hn (Z.max (vaddr x) (vaddr r))); [lia|]. exists r. split; [done|lia].
Qed.

(** ** One step at a time, on trees *)

Definition inside (r : vmm_page_range_t) (y : Z) : Prop := vaddr r <= y < vaddr r + size r.

Lemma rb_insert_perm x t :
  tree_ok t → range_ok x → (∀ r, r ∈ t → apart x r) → rb_insert x t ≡ₚ x :: t.
Proof.
  intros Ht Hx. induction t as [|y t IH]; intros Ha; cbn [rb_insert]; [done|].
  apply tree_ok_cons in Ht as (Hy & Hb & Ht). destruct (vmm_cmp_range_spec x y Hy) as (C1 & C2 & C3).
  pose proof Hx as (Hx1 & Hx2 & _). pose proof Hy as (Hy1 & Hy2 & _).
  destruct (Ha y ltac:(apply elem_of_cons; by left)) as [Hxy|Hyx]; unfold before in *.
  - by rewrite C1 by lia.
  - rewrite C3 by lia. cbn. rewrite IH by (try done; intros r Hr; apply Ha, elem_of_cons; by right). constructor.
Qed.

Lemma insert_step t x :
  tree_ok t → range_ok x → (∀ y, inside x y → ¬ covers t y) →
  tree_ok (rb_insert x t) ∧ (∀ y, covers (rb_insert x t) y ↔ covers t y ∨ inside x y) ∧ rb_insert x t ≡ₚ x :: t.
Proof.
  intros Ht Hx Hn. pose proof (apart_covers x t Ht Hx Hn) as Ha. split_and!.
  - by apply rb_insert_spec.
  - intros y. by apply covers_insert.
  - by apply rb_insert_perm.
Qed.

Lemma rb_remove_perm x t :
  NoDup (r_ptr <$> t) → x ∈ t → t ≡ₚ x :: rb_remove x t.
Proof.
  unfold rb_remove. induction t as [|y t IH]; intros Hnd Hx; [by apply not_elem_of_nil in Hx|].
  cbn in Hnd. apply NoDup_cons in Hnd as [Hny Hnd]. rewrite filter_cons. apply elem_of_cons in Hx as [->|Hx].
  - rewrite decide_False by naive_solver. constructor. clear IH Hnd.
    induction t as [|z t IH]; [done|]. rewrite filter_cons, decide_True.
    + constructor. apply IH. intros Hin. apply Hny. by apply elem_of_cons; right.
    + intros Heq. apply Hny. apply elem_of_cons. by left.
  - rewrite decide_True.
    + rewrite (IH Hnd Hx) at 1. constructor.
    + intros Heq. apply Hny. rewrite Heq. by apply list_elem_of_fmap_2.
Qed.

Lemma NoDup_ptr t a b : NoDup (r_ptr <$> t) → a ∈ t → b ∈ t → r_ptr a = r_ptr b → a = b.
Proof.
  intros Hnd Ha Hb Heq. apply list_elem_of_lookup in Ha as [i Hi], Hb as [j Hj].
  assert (i = j) as -> by (eapply (NoDup_lookup (r_ptr <$> t)); [done|rewrite list_lookup_fmap, Hi; done|
    rewrite list_lookup_fmap, Hj; cbn; congruence]). congruence.
Qed.

Lemma remove_step t x :
  tree_ok t → NoDup (r_ptr <$> t) → x ∈ t →
  tree_ok (rb_remove x t) ∧ (∀ y, covers (rb_remove x t) y ↔ covers t y ∧ ¬ inside x y) ∧ t ≡ₚ x :: rb_remove x t.
Proof.
  intros Ht Hnd Hx. assert (∀ r, r ∈ t → r_ptr r = r_ptr x → r = x) as Hp by (intros; by eapply NoDup_ptr).
  split_and!; [by apply rb_remove_spec| |by apply rb_remove_perm].
  intros y. apply covers_remove; try done. by apply Ht.
Qed.

Fixpoint pieces_ok (rs : list vmm_page_range_t) : Prop :=
  match rs with
  | [] => True
  | r :: rs' => range_ok r ∧ (∀ y, inside r y → ¬ covers rs' y) ∧ pieces_ok rs'
  end.

Lemma covers_cons r t y : covers (r :: t) y ↔ inside r y ∨ covers t y.
Proof.
  unfold covers, inside. split.
  - intros (r' & [->|Hr]%elem_of_cons & Hy); [by left|right; by exists r'].
  - intros [Hy|(r' & Hr & Hy)]; [exists r|exists r']; rewrite elem_of_cons; auto.
Qed.

Lemma covers_nil y : ¬ covers [] y.
Proof. by intros (r & ?%not_elem_of_nil & _). Qed.

Lemma covers_one r y : covers [r] y ↔ inside r y.
Proof. rewrite covers_cons. pose proof (covers_nil y). tauto. Qed.

(** Inserting the pieces, the last of the list first. *)
Lemma insert_all rs t :
  pieces_ok rs → tree_ok t → (∀ y, covers rs y → ¬ covers t y) →
  tree_ok (foldr rb_insert t rs) ∧ (∀ y, covers (foldr rb_insert t rs) y ↔ covers t y ∨ covers rs y) ∧
  foldr rb_insert t rs ≡ₚ rs ++ t.
Proof.
  induction rs as [|r rs IH]; intros Hp Ht Hd; cbn [foldr app].
  { split_and!; [done| |done]. intros y. pose proof (covers_nil y). tauto. }
  destruct Hp as (Hr & Hrd & Hp). destruct IH as (I1 & I2 & I3); [done..| |].
  { intros y Hy. apply Hd, covers_cons. by right. }
  destruct (insert_step (foldr rb_insert t rs) r) as (S1 & S2 & S3); [done..| |].
  { intros y Hy. rewrite I2. intros [Hc|Hc]; [by apply (Hd y); [apply covers_cons; left|]|by apply (Hrd y)]. }
  split_and!; [done| |].
  - intros y. rewrite S2, I2, covers_cons. tauto.
  - rewrite S3. by rewrite I3.
Qed.

(** The range [sz] from [a] leaves [A] and joins [B]. *)
Record moved (a sz : Z) (A B A' B' : list vmm_page_range_t) : Prop := mk_moved {
  mv_from : ∀ y, covers A' y ↔ covers A y ∧ ¬ (a <= y < a + sz);
  mv_to : ∀ y, covers B' y ↔ covers B y ∨ a <= y < a + sz;
  mv_was : ∀ y, a <= y < a + sz → covers A y
}.

Lemma perm_shuffle {X} (x y : X) a b c : x :: (a ++ b) ++ y :: c ≡ₚ (y :: a) ++ (x :: b) ++ c.
Proof.
  cbn. rewrite <- (Permutation_middle (a ++ b) c y), (perm_swap y x). constructor.
  rewrite <- app_assoc. apply Permutation_middle.
Qed.

(** Moving a part [y] of the node [x] of [A] to [B]; the rest of [x] becomes [rs]. *)
Lemma move_part A B x y rs :
  tree_ok A → tree_ok B → (∀ z, covers A z → ¬ covers B z) → NoDup (r_ptr <$> A ++ B) →
  x ∈ A → range_ok y → pieces_ok rs →
  (∀ z, inside x z ↔ inside y z ∨ covers rs z) → (∀ z, inside y z → ¬ covers rs z) →
  let A' := foldr rb_insert (rb_remove x A) rs in
  let B' := rb_insert y B in
  tree_ok A' ∧ tree_ok B' ∧ (∀ z, covers A' z → ¬ covers B' z) ∧
  r_ptr x :: (r_ptr <$> A' ++ B') ≡ₚ (r_ptr <$> y :: rs) ++ (r_ptr <$> A ++ B) ∧
  moved (vaddr y) (size y) A B A' B'.
Proof.
  intros HA HB Hd Hnd Hx Hy Hrs Hsplit Hyr A' B'.
  assert (NoDup (r_ptr <$> A)) as HndA by (rewrite fmap_app in Hnd; by apply NoDup_app in Hnd as [? _]).
  destruct (remove_step A x HA HndA Hx) as (R1 & R2 & R3).
  destruct (insert_all rs (rb_remove x A)) as (I1 & I2 & I3); [done..| |].
  { intros z Hz. rewrite R2. intros [_ Hn]. apply Hn, Hsplit. by right. }
  assert (∀ z, inside x z → covers A z) as HxA by (intros z Hz; by exists x).
  destruct (insert_step B y) as (S1 & S2 & S3); [done..| |].
  { intros z Hz. apply Hd, HxA, Hsplit. by left. }
  split_and!; [done|done| | |split].
  - intros z Hz. unfold B'. rewrite S2. unfold A' in Hz. rewrite I2, R2 in Hz.
    destruct Hz as [[Hz Hn]|Hz].
    + intros [Hb|Hb]; [by apply (Hd z)|]. apply Hn, Hsplit. by left.
    + intros [Hb|Hb]; [apply (Hd z); [apply HxA, Hsplit; by right|done]|by apply (Hyr z)].
  - pose proof (fmap_Permutation r_ptr _ _ I3) as P1. pose proof (fmap_Permutation r_ptr _ _ S3) as P2.
    pose proof (fmap_Permutation r_ptr _ _ R3) as P3. rewrite fmap_app in P1. cbn [fmap list_fmap] in P2, P3.
    rewrite !fmap_app. unfold A', B'. rewrite P1, P2, P3. apply perm_shuffle.
  - intros z. unfold A'. rewrite I2, R2. pose proof (Hsplit z) as Hs. pose proof (Hyr z). pose proof (HxA z).
    change (vaddr y <= z < vaddr y + size y) with (inside y z).
    assert (inside x z ∨ ¬ inside x z) by (unfold inside; lia). tauto.
  - intros z. unfold B'. by rewrite S2.
  - intros z Hz. apply HxA, Hsplit. by left.
Qed.

(** * The state *)

Section vma.
Context {FA : FrameAllocator allocate_page free_page}.

(** The page map at [pm] with its free ranges [F] and used ranges [U]. *)
Record vma_inv (h : heap_g) (pm top : Z) (F U : list vmm_page_range_t) (k : kernel) : Prop := mk_vma_inv {
  vi_map : k_pagemaps k !! pm = Some (mk_pagemap top F U);
  vi_free : tree_ok F;
  vi_used : tree_ok U;
  vi_disj : ∀ x, covers F x → ¬ covers U x;
  vi_ptrs : NoDup (r_ptr <$> F ++ U);
  vi_nodes : ∀ p, p ∈ r_ptr <$> F ++ U → ∃ o s, block h k o s p SIZEOF_RANGE;
  vi_heap : heap_inv h k
}.

Definition with_ranges (pm top : Z) (F U : list vmm_page_range_t) (k : kernel) : kernel :=
  set_pagemaps k (<[pm := mk_pagemap top F U]> (k_pagemaps k)).

Lemma wp_set_free pm top F U f k (Q : unit → kernel → Prop) :
  k_pagemaps k !! pm = Some (mk_pagemap top F U) → Q tt (with_ranges pm top (f F) U k) →
  wp (set_free_ranges pm f) k Q.
Proof. intros Hp HQ. unfold set_free_ranges, get_pagemap, put_pagemap, wp, bind, modify. by rewrite Hp. Qed.

Lemma wp_set_used pm top F U f k (Q : unit → kernel → Prop) :
  k_pagemaps k !! pm = Some (mk_pagemap top F U) → Q tt (with_ranges pm top F (f U) k) →
  wp (set_used_ranges pm f) k Q.
Proof. intros Hp HQ. unfold set_used_ranges, get_pagemap, put_pagemap, wp, bind, modify. by rewrite Hp. Qed.

Lemma with_ranges_lookup pm top F U k : k_pagemaps (with_ranges pm top F U k) !! pm = Some (mk_pagemap top F U).
Proof. cbn. by rewrite lookup_insert_eq. Qed.

(** What the heap and the locks need for [n] nodes. *)
Definition can_alloc (n : Z) (k : kernel) : Prop :=
  can_lock slab_memlock k ∧ can_lock pmm_spinlock k ∧ enough n k ∧ can_serve k SIZEOF_RANGE.

(** Blocks survive the allocation of another block. *)
Lemma block_kept h k o s p sz o' s' ptr' size' h' k' :
  heap_inv h k → block h k o s p sz → block_taken o' s' ptr' size' h k h' k' → block h' k' o s p sz.
Proof.
  intros Hi [Hl -> Hf Hr] Hb. pose proof (sr_hhdm _ _ (bt_rest _ _ _ _ _ _ _ _ Hb)) as Hh. split; try done.
  - apply (bt_live _ _ _ _ _ _ _ _ Hb). by left.
  - by rewrite Hh.
  - rewrite <- Hr. destruct (live_range h k o s Hi Hl) as (_ & _ & ? & _). apply le_read_ext. intros x Hx.
    destruct (live_client h k o s x Hi Hl ltac:(lia)). by apply (bt_mem _ _ _ _ _ _ _ _ Hb).
Qed.

Lemma block_ext h k k' o s p sz :
  k_mem k' = k_mem k → k_hhdm k' = k_hhdm k → block h k o s p sz → block h k' o s p sz.
Proof. intros Em Eh [H1 H2 H3 H4]. split; rewrite ?Em, ?Eh; done. Qed.

Lemma malloc_range_spec h k va sz :
  heap_inv h k → can_alloc 1 k →
  wp (malloc_range va sz) k (λ r k', ∃ o s p h', r = mk_range p va sz ∧ block_taken o s p SIZEOF_RANGE h k h' k').
Proof.
  intros Hi (H1 & H2 & H3 & H4). unfold malloc_range. apply wp_bind.
  eapply wp_mono.
  { apply (malloc_small_spec h); try done. by apply (enough_some 1). }
  intros p k' (o & s & h' & Hb). apply wp_ret. by exists o, s, p, h'.
Qed.

(** ** The nodes during a critical section *)

Record nodes_inv (ps : list Z) (h : heap_g) (n : Z) (k : kernel) : Prop := mk_nodes_inv {
  ni_heap : heap_inv h k;
  ni_alloc : can_alloc n k;
  ni_nodup : NoDup ps;
  ni_blocks : ∀ p, p ∈ ps → ∃ o s, block h k o s p SIZEOF_RANGE
}.

Lemma nodes_inv_ext ps h n k k' :
  k_mem k' = k_mem k → k_hhdm k' = k_hhdm k → k_pmm k' = k_pmm k → k_heap k' = k_heap k →
  k_cpu k' = k_cpu k → k_locks k' = k_locks k → nodes_inv ps h n k → nodes_inv ps h n k'.
Proof.
  intros Em Eh Ep Ehp Ec El [Hi (H1 & H2 & H3 & H4) Hnd Hb].
  destruct (heap_inv_ext h k k') as [Hi' Ho]; [done..|]. split; try done.
  - unfold can_alloc, can_lock, can_serve in *. rewrite Ec, El, Ehp.
    split; [done|split; [done|split; [by eapply enough_owns|done]]].
  - intros p Hp. destruct (Hb p Hp) as (o & s & Hbl). exists o, s. by eapply block_ext; [..|exact Hbl].
Qed.

(** Entering: the lock is held and the trees may have been written. *)
Lemma nodes_enter n h pm top F U k F' U' :
  vma_inv h pm top F U k → can_lock vma_spinlock k → can_alloc n k →
  nodes_inv (r_ptr <$> F ++ U) h n (with_ranges pm top F' U' (locked vma_spinlock k)).
Proof.
  intros Hv Hlk (Hl1 & Hl2 & Hq & Hs).
  destruct (heap_inv_ext h k (with_ranges pm top F' U' (locked vma_spinlock k))) as [Hi Ho]; [done..|apply Hv|].
  split; [done| |apply Hv|].
  - split_and!; [| |by eapply enough_owns|done].
    + apply (locked_can_lock vma_spinlock slab_memlock k); [done|done|apply Hl1].
    + apply (locked_can_lock vma_spinlock pmm_spinlock k); [done|done|apply Hl2].
  - intros p Hp. destruct (vi_nodes _ _ _ _ _ _ Hv p Hp) as (o & s & Hb). exists o, s. by eapply block_ext; [..|exact Hb].
Qed.

(** Allocating a node: it is not one of the nodes in use. *)
Lemma nodes_malloc ps h n k va sz :
  nodes_inv ps h n k → 0 < n →
  wp (malloc_range va sz) k (λ r k', ∃ p h', r = mk_range p va sz ∧ same_rest k k' ∧ nodes_inv (p :: ps) h' (n - 1) k').
Proof.
  intros [Hi (H1 & H2 & H3 & H4) Hnd Hb] Hn. eapply wp_mono.
  { apply (malloc_range_spec h); [done|]. split_and!; try done. by apply (enough_mono n); [lia|]. }
  intros r k' (o & s & p & h' & -> & Hbt). pose proof (bt_rest _ _ _ _ _ _ _ _ Hbt) as R. exists p, h'.
  split_and!; try done. split.
  - apply Hbt.
  - split_and!; [by eapply can_lock_same_rest..|by apply Hbt|]. unfold can_serve. by rewrite (sr_heap _ _ R).
  - apply NoDup_cons. split; [|done]. intros Hin. destruct (Hb p Hin) as (o' & s' & [Hl Hp _ _]).
    pose proof (bt_block _ _ _ _ _ _ _ _ Hbt) as [_ Hp' _ _]. rewrite (sr_hhdm _ _ R) in Hp'.
    assert (o' = o) as -> by lia. by apply (bt_fresh _ _ _ _ _ _ _ _ Hbt s').
  - intros q [->|Hq]%elem_of_cons; [exists o, s; apply Hbt|].
    destruct (Hb q Hq) as (o' & s' & Hbl). exists o', s'. by eapply (block_kept h).
Qed.

(** The pure part of a state change: [new] are the nodes that were added. *)
Definition trees_done (F U F' U' : list vmm_page_range_t) (new : list Z) : Prop :=
  tree_ok F' ∧ tree_ok U' ∧ (∀ x, covers F' x → ¬ covers U' x) ∧ r_ptr <$> F' ++ U' ≡ₚ new ++ (r_ptr <$> F ++ U).

(** [move_part] with the roles of the two trees, without and with a new node. *)
Lemma move_whole A B x :
  tree_ok A → tree_ok B → (∀ z, covers A z → ¬ covers B z) → NoDup (r_ptr <$> A ++ B) → x ∈ A →
  trees_done A B (rb_remove x A) (rb_insert x B) [] ∧
  moved (vaddr x) (size x) A B (rb_remove x A) (rb_insert x B).
Proof.
  intros HA HB Hd Hnd Hx. pose proof (proj2 HA x Hx) as Hxo.
  destruct (move_part A B x x [] HA HB Hd Hnd Hx Hxo I) as (M1 & M2 & M3 & M4 & M5);
    [intros z; pose proof (covers_nil z); tauto|intros z _; apply covers_nil|]. cbn [foldr] in *.
  split; [|done]. split_and!; try done. by apply (Permutation_cons_inv (a := r_ptr x)) in M4.
Qed.

Lemma move_front A B x p sz :
  tree_ok A → tree_ok B → (∀ z, covers A z → ¬ covers B z) → NoDup (r_ptr <$> A ++ B) → x ∈ A →
  0 < sz < size x → sz mod 4096 = 0 →
  let x' := mk_range (r_ptr x) (vaddr x + sz) (size x - sz) in
  let y := mk_range p (vaddr x) sz in
  trees_done A B (rb_insert x' (rb_remove x A)) (rb_insert y B) [p] ∧
  moved (vaddr x) sz A B (rb_insert x' (rb_remove x A)) (rb_insert y B).
Proof.
  intros HA HB Hd Hnd Hx Hsz Hal x' y. pose proof (proj2 HA x Hx) as (Hx1 & Hx2 & Hx3 & Hx4 & Hx5).
  assert (range_ok y) as Hy by (split_and!; cbn; try done; lia).
  assert (range_ok x') as Hx' by (split_and!; cbn; try lia; Z.div_mod_to_equations; lia).
  destruct (move_part A B x y [x'] HA HB Hd Hnd Hx Hy) as (M1 & M2 & M3 & M4 & M5).
  { split_and!; [done|intros z _; apply covers_nil|done]. }
  { intros z. rewrite covers_one. unfold inside. cbn. lia. }
  { intros z. rewrite covers_one. unfold inside. cbn. lia. }
  cbn [foldr] in *. split; [|done]. split_and!; try done.
  cbn in M4. rewrite (perm_swap (r_ptr x) p) in M4. by apply (Permutation_cons_inv (a := r_ptr x)) in M4.
Qed.

(** A part inside the node: the rest before it, and after it if there is any. *)
Lemma move_tail A B x p a :
  tree_ok A → tree_ok B → (∀ z, covers A z → ¬ covers B z) → NoDup (r_ptr <$> A ++ B) → x ∈ A →
  vaddr x < a < vaddr x + size x → a mod 4096 = 0 →
  let sz := vaddr x + size x - a in
  let pre := mk_range (r_ptr x) (vaddr x) (a - vaddr x) in
  let y := mk_range p a sz in
  trees_done A B (rb_insert pre (rb_remove x A)) (rb_insert y B) [p] ∧
  moved a sz A B (rb_insert pre (rb_remove x A)) (rb_insert y B).
Proof.
  intros HA HB Hd Hnd Hx Ha Hal sz pre y. pose proof (proj2 HA x Hx) as (Hx1 & Hx2 & Hx3 & Hx4 & Hx5).
  assert (range_ok y) as Hy by (split_and!; cbn; try (done || lia); unfold sz; Z.div_mod_to_equations; lia).
  assert (range_ok pre) as Hpre by (split_and!; cbn; try (done || lia); Z.div_mod_to_equations; lia).
  destruct (move_part A B x y [pre] HA HB Hd Hnd Hx Hy) as (M1 & M2 & M3 & M4 & M5).
  { split_and!; [done|intros z _; apply covers_nil|done]. }
  { intros z. rewrite covers_one. unfold inside, sz. cbn. lia. }
  { intros z. rewrite covers_one. unfold inside, sz. cbn. lia. }
  cbn [foldr] in *. split; [|done]. split_and!; try done.
  cbn in M4. rewrite (perm_swap (r_ptr x) p) in M4. by apply (Permutation_cons_inv (a := r_ptr x)) in M4.
Qed.

Lemma move_middle A B x p p2 a sz :
  tree_ok A → tree_ok B → (∀ z, covers A z → ¬ covers B z) → NoDup (r_ptr <$> A ++ B) → x ∈ A →
  vaddr x < a → 0 < sz → a + sz < vaddr x + size x → a mod 4096 = 0 → sz mod 4096 = 0 →
  let pre := mk_range (r_ptr x) (vaddr x) (a - vaddr x) in
  let post := mk_range p2 (a + sz) (vaddr x + size x - (a + sz)) in
  let y := mk_range p a sz in
  trees_done A B (rb_insert post (rb_insert pre (rb_remove x A))) (rb_insert y B) [p2; p] ∧
  moved a sz A B (rb_insert post (rb_insert pre (rb_remove x A))) (rb_insert y B).
Proof.
  intros HA HB Hd Hnd Hx Ha Hsz Hend Hal Hal2 pre post y. pose proof (proj2 HA x Hx) as (Hx1 & Hx2 & Hx3 & Hx4 & Hx5).
  assert (range_ok y) as Hy by (split_and!; cbn; try (done || lia)).
  assert (range_ok pre) as Hpre by (split_and!; cbn; try (done || lia); Z.div_mod_to_equations; lia).
  assert (range_ok post) as Hpost by (split_and!; cbn; try (done || lia); Z.div_mod_to_equations; lia).
  destruct (move_part A B x y [post; pre] HA HB Hd Hnd Hx Hy) as (M1 & M2 & M3 & M4 & M5).
  { split; [done|split; [|split; [done|split; [intros z _; apply covers_nil|done]]]].
    intros z. rewrite covers_one. unfold inside. cbn. lia. }
  { intros z. rewrite covers_cons, covers_one. unfold inside. cbn. lia. }
  { intros z. rewrite covers_cons, covers_one. unfold inside. cbn. lia. }
  cbn [foldr] in *. split; [|done]. split_and!; try done. cbn in M4.
  rewrite (perm_swap (r_ptr x) p2), (perm_swap (r_ptr x) p) in M4. apply (Permutation_cons_inv (a := r_ptr x)) in M4.
  rewrite M4. apply perm_swap.
Qed.

(** ** Moving a range between the two trees

    [valloc] moves a range from the free to the used ranges, [vfree] the other
    way; the two share their three cases.  With [b] true the range comes from
    the free ranges.  [A] is the tree it comes from, [B] the one it goes to. *)

Definition set_side (b : bool) : Z → (list vmm_page_range_t → list vmm_page_range_t) → M kernel unit :=
  if b then set_free_ranges else set_used_ranges.
Definition sides_inv (b : bool) (h : heap_g) (pm top : Z) (A B : list vmm_page_range_t) (k : kernel) : Prop :=
  if b then vma_inv h pm top A B k else vma_inv h pm top B A k.
Definition with_sides (b : bool) (pm top : Z) (A B : list vmm_page_range_t) (k : kernel) : kernel :=
  if b then with_ranges pm top A B k else with_ranges pm top B A k.

(** What a successful operation guarantees: the range moved, the invariant
    holds, the lock and everything outside this page map is as before. *)
Definition transferred (b : bool) (a sz : Z) (pm top : Z) (A B : list vmm_page_range_t) (k k' : kernel) : Prop :=
  ∃ h' A' B', sides_inv b h' pm top A' B' k' ∧ moved a sz A B A' B' ∧ same_rest (with_sides b pm top A' B' k) k'.

Lemma sides_inv_trees b h pm top A B k :
  sides_inv b h pm top A B k →
  tree_ok A ∧ tree_ok B ∧ (∀ z, covers A z → ¬ covers B z) ∧ NoDup (r_ptr <$> A ++ B).
Proof.
  destruct b; intros [_ H1 H2 H3 H4 _ _]; split_and!; try done.
  - intros z Ha Hb. by apply (H3 z).
  - by rewrite fmap_app, (Permutation_app_comm (r_ptr <$> A)), <- fmap_app.
Qed.

(** Inside the critical section entered from [k0]: the trees are now [A] and
    [B], [ps] are the nodes in use and [n] more can be allocated. *)
Record busy (b : bool) (k0 : kernel) (pm top : Z) (A B : list vmm_page_range_t) (ps : list Z) (h : heap_g) (n : Z)
    (k : kernel) : Prop := mk_busy {
  bz_rest : same_rest (with_sides b pm top A B (locked vma_spinlock k0)) k;
  bz_nodes : nodes_inv ps h n k
}.

Lemma busy_lookup b k0 pm top A B ps h n k :
  busy b k0 pm top A B ps h n k →
  k_pagemaps k !! pm = Some (if b then mk_pagemap top A B else mk_pagemap top B A).
Proof. intros [R _]. rewrite (sr_pagemaps _ _ R). destruct b; cbn; by rewrite lookup_insert_eq. Qed.

Lemma busy_set b k0 pm top A B ps h n k A' B' :
  busy b k0 pm top A B ps h n k → busy b k0 pm top A' B' ps h n (with_sides b pm top A' B' k).
Proof.
  intros [[R1 R2 R3 R4 R5 R6 R7 R8] Hn]. split; [|by eapply nodes_inv_ext; [..|exact Hn]; destruct b].
  destruct b; (split; [done..| |done|done|done]); cbn in *; rewrite R5; by rewrite insert_insert_eq.
Qed.

Lemma busy_enter b n h pm top A B k :
  sides_inv b h pm top A B k → can_lock vma_spinlock k → can_alloc n k →
  busy b k pm top A B (r_ptr <$> A ++ B) h n (locked vma_spinlock k).
Proof.
  intros Hv Hlk Hca. split.
  - destruct b; (split; [done..| |done|done|done]); cbn; rewrite insert_id; (done || apply Hv).
  - destruct b.
    + eapply nodes_inv_ext; [..|apply (nodes_enter n h pm top A B k [] [] Hv Hlk Hca)]; done.
    + assert (nodes_inv (r_ptr <$> B ++ A) h n (locked vma_spinlock k)) as [H1 H2 H3 H4]
        by (eapply nodes_inv_ext; [..|apply (nodes_enter n h pm top B A k [] [] Hv Hlk Hca)]; done).
      assert (r_ptr <$> A ++ B ≡ₚ r_ptr <$> B ++ A) as Hp by (rewrite !fmap_app; apply Permutation_app_comm).
      split; [done..|by rewrite Hp|]. intros p. rewrite Hp. apply H4.
Qed.

Lemma busy_from b k0 pm top A B ps h n k f (Q : unit → kernel → Prop) :
  busy b k0 pm top A B ps h n k → (∀ k', busy b k0 pm top (f A) B ps h n k' → Q tt k') → wp (set_side b pm f) k Q.
Proof.
  intros Hb HQ. pose proof (busy_lookup _ _ _ _ _ _ _ _ _ _ Hb) as Hl.
  pose proof (HQ _ (busy_set _ _ _ _ _ _ _ _ _ _ (f A) B Hb)) as HQ'.
  destruct b; [by eapply wp_set_free|by eapply wp_set_used].
Qed.

Lemma busy_to b k0 pm top A B ps h n k f (Q : unit → kernel → Prop) :
  busy b k0 pm top A B ps h n k → (∀ k', busy b k0 pm top A (f B) ps h n k' → Q tt k') →
  wp (set_side (negb b) pm f) k Q.
Proof.
  intros Hb HQ. pose proof (busy_lookup _ _ _ _ _ _ _ _ _ _ Hb) as Hl.
  pose proof (HQ _ (busy_set _ _ _ _ _ _ _ _ _ _ A (f B) Hb)) as HQ'.
  destruct b; [by eapply wp_set_used|by eapply wp_set_free].
Qed.

Lemma busy_malloc b k0 pm top A B ps h n k va sz (Q : vmm_page_range_t → kernel → Prop) :
  busy b k0 pm top A B ps h n k → 0 < n →
  (∀ p h' k', busy b k0 pm top A B (p :: ps) h' (n - 1) k' → Q (mk_range p va sz) k') →
  wp (malloc_range va sz) k Q.
Proof.
  intros [R Hn] Hpos HQ. eapply wp_mono; [by apply (nodes_malloc ps h n)|].
  intros r k' (p & h' & -> & R' & Hn'). apply (HQ p h'). split; [by transitivity k|done].
Qed.

(** Leaving with the range moved. *)
Lemma busy_end b k pm top A B h' new n A' B' k3 a sz (r : Z) (Q : Z → kernel → Prop) :
  can_lock vma_spinlock k → busy b k pm top A' B' (new ++ (r_ptr <$> A ++ B)) h' n k3 →
  trees_done A B A' B' new → moved a sz A B A' B' →
  (∀ k', transferred b a sz pm top A B k k' → Q r k') →
  wp (spinlock_unlock vma_spinlock (cr8 (k_cpu k)) ;;; ret r) k3 Q.
Proof.
  intros Hlk [R [Hi _ Hnd Hb]] (HA & HB & Hd & Hp) Hm HQ. apply wp_bind.
  assert (same_rest (locked vma_spinlock (with_sides b pm top A' B' k)) k3) as R' by (by destruct b).
  assert (can_lock vma_spinlock (with_sides b pm top A' B' k)) as Hlk' by (by destruct b).
  replace (cr8 (k_cpu k)) with (cr8 (k_cpu (with_sides b pm top A' B' k))) by (by destruct b).
  apply wp_unlock_balanced; [done..|]. apply wp_ret, HQ.
  set (k4 := restored (with_sides b pm top A' B' k) k3). exists h', A', B'.
  destruct (heap_inv_ext h' k3 k4) as [Hi' _]; [done..|].
  split; [|split; [done|by eapply restored_same_rest]].
  assert (k_pagemaps k4 !! pm = Some (if b then mk_pagemap top A' B' else mk_pagemap top B' A')) as Hl.
  { cbn. rewrite (sr_pagemaps _ _ R). destruct b; cbn; by rewrite lookup_insert_eq. }
  assert (∀ p, p ∈ r_ptr <$> A' ++ B' → ∃ o s, block h' k4 o s p SIZEOF_RANGE) as Hbl.
  { intros p Hin. rewrite Hp in Hin. destruct (Hb p Hin) as (o & s & Hbl). exists o, s.
    by eapply block_ext; [..|exact Hbl]. }
  destruct b; (split; try done).
  - by rewrite Hp.
  - intros z Hz Hz'. by apply (Hd z).
  - rewrite fmap_app, Permutation_app_comm, <- fmap_app. by rewrite Hp.
  - intros p Hin. apply Hbl. by rewrite fmap_app, Permutation_app_comm, <- fmap_app.
Qed.

(** *** The three cases *)
Section cases.
Context (b : bool) (h : heap_g) (pm top : Z) (A B : list vmm_page_range_t) (k : kernel).
Context (x : vmm_page_range_t) (a sz r : Z) (Q : Z → kernel → Prop).
Context (Hv : sides_inv b h pm top A B k) (Hlk : can_lock vma_spinlock k).
Context (Hx : x ∈ A) (Ha : vaddr x <= a) (Hend : a + sz <= vaddr x + size x) (Hsz : 0 < sz).
Context (Hal : a mod 4096 = 0) (Hal2 : sz mod 4096 = 0).
Context (HQ : ∀ k', transferred b a sz pm top A B k k' → Q r k').
Set Default Proof Using "All".

Let done_and_ret : M kernel Z := spinlock_unlock vma_spinlock (cr8 (k_cpu k)) ;;; ret r.

Lemma case_range : 0 < vaddr x ∧ 0 < size x ∧ vaddr x + size x < 2 ^ 64.
Proof. destruct (sides_inv_trees _ _ _ _ _ _ _ Hv) as (HA & _). destruct (proj2 HA x Hx) as (? & ? & ? & _). done. Qed.

Lemma case_whole n k1 :
  busy b k pm top (rb_remove x A) B (r_ptr <$> A ++ B) h n k1 → vaddr x = a → size x = sz →
  wp (set_side (negb b) pm (rb_insert x) ;;; done_and_ret) k1 Q.
Proof.
  intros Hb Ea Es. destruct (sides_inv_trees _ _ _ _ _ _ _ Hv) as (HA & HB & Hd & Hnd).
  destruct (move_whole A B x HA HB Hd Hnd Hx) as [Ht Hm]. rewrite Ea, Es in Hm.
  apply wp_bind. eapply busy_to; [done|]. intros k2 Hb2. by eapply (busy_end b k pm top A B h [] n).
Qed.

Lemma case_front (rf : vmm_page_range_t → Z) n k1 :
  busy b k pm top (rb_remove x A) B (r_ptr <$> A ++ B) h n k1 → 0 < n → vaddr x = a → sz < size x →
  (∀ p, rf (mk_range p (vaddr x) sz) = r) →
  wp (let* split_range := malloc_range (vaddr x) sz in
      set_side b pm (rb_insert (mk_range (r_ptr x) (u64 (vaddr x + sz)) (u64 (size x - sz)))) ;;;
      set_side (negb b) pm (rb_insert split_range) ;;;
      spinlock_unlock vma_spinlock (cr8 (k_cpu k)) ;;; ret (rf split_range)) k1 Q.
Proof.
  intros Hb Hn Ea Es Hrf. destruct (sides_inv_trees _ _ _ _ _ _ _ Hv) as (HA & HB & Hd & Hnd).
  destruct case_range as (Hx1 & Hx2 & Hx3).
  apply wp_bind. eapply busy_malloc; [done..|]. intros p h' k2 Hb2.
  destruct (move_front A B x p sz HA HB Hd Hnd Hx ltac:(lia) Hal2) as [Ht Hm]. rewrite Ea in Hm at 1.
  rewrite (u64_id (vaddr x + sz)), (u64_id (size x - sz)) by (unfold is_u64; lia).
  apply wp_bind. eapply busy_from; [done|]. intros k3 Hb3.
  apply wp_bind. eapply busy_to; [done|]. intros k4 Hb4. rewrite Hrf. by eapply (busy_end b k pm top A B h' [p]).
Qed.

Lemma case_middle free n k1 :
  busy b k pm top (rb_remove x A) B (r_ptr <$> A ++ B) h n k1 → 1 < n → vaddr x < a →
  wp (let pre_size := u64 (a - vaddr x) in
      let post_size := u64 (u64 (size x - pre_size) - sz) in
      let* alloc_range := malloc_range a sz in
      set_side (negb b) pm (rb_insert alloc_range) ;;;
      (if 0 <? pre_size
       then set_side b pm (rb_insert (mk_range (r_ptr x) (vaddr x) pre_size))
       else free (r_ptr x)) ;;;
      (if 0 <? post_size then
         let* post_range := malloc_range (u64 (a + sz)) post_size in
         set_side b pm (rb_insert post_range)
       else ret tt) ;;; done_and_ret) k1 Q.
Proof.
  intros Hb Hn Hlt. destruct (sides_inv_trees _ _ _ _ _ _ _ Hv) as (HA & HB & Hd & Hnd).
  destruct case_range as (Hx1 & Hx2 & Hx3).
  cbv zeta. rewrite (u64_id (a - vaddr x)) by (unfold is_u64; lia).
  rewrite (u64_id (size x - (a - vaddr x))) by (unfold is_u64; lia).
  rewrite (u64_id (size x - (a - vaddr x) - sz)), (u64_id (a + sz)) by (unfold is_u64; lia).
  apply wp_bind. eapply busy_malloc; [done|lia|]. intros p h' k2 Hb2.
  apply wp_bind. eapply busy_to; [done|]. intros k3 Hb3.
  rewrite (proj2 (Z.ltb_lt 0 (a - vaddr x))) by lia.
  apply wp_bind. eapply busy_from; [done|]. intros k4 Hb4.
  destruct (Z.ltb_spec 0 (size x - (a - vaddr x) - sz)) as [Hpost|Hpost].
  - apply wp_bind, wp_bind. eapply busy_malloc; [done|lia|]. intros p2 h2 k5 Hb5.
    destruct (move_middle A B x p p2 a sz HA HB Hd Hnd Hx Hlt Hsz ltac:(lia) Hal Hal2) as [Ht Hm].
    replace (vaddr x + size x - (a + sz)) with (size x - (a - vaddr x) - sz) in Ht, Hm by lia.
    eapply busy_from; [done|]. intros k6 Hb6. by eapply (busy_end b k pm top A B h2 [p2; p]).
  - apply wp_bind, wp_ret.
    destruct (move_tail A B x p a HA HB Hd Hnd Hx ltac:(lia) Hal) as [Ht Hm].
    replace (vaddr x + size x - a) with sz in Ht, Hm by lia. by eapply (busy_end b k pm top A B h' [p]).
Qed.
End cases.

(** An unsuccessful operation leaves everything as it was. *)
Lemma leave_unchanged k (r : Z) (Q : Z → kernel → Prop) :
  can_lock vma_spinlock k → Q r k →
  wp (spinlock_unlock vma_spinlock (cr8 (k_cpu k)) ;;; ret r) (locked vma_spinlock k) Q.
Proof.
  intros Hlk HQ. apply wp_bind, wp_unlock_balanced; [done..|]. apply wp_ret. by rewrite restored_locked.
Qed.

(** ** [valloc] *)


(** ** [vfree] *)

Definition free_outcome (pm top : Z) (F U : list vmm_page_range_t) (k : kernel) (a sz r : Z) (k' : kernel) : Prop :=
  (r = 0 ∧ k' = k ∧ ¬ ∃ x, x ∈ U ∧ vaddr x <= a ∧ a + sz <= vaddr x + size x) ∨
  (1 <= r <= 3 ∧ transferred false a sz pm top U F k k').

Lemma vfree_spec free h pm top F U k a size0 :
  vma_inv h pm top F U k → can_lock vma_spinlock k → can_alloc 2 k →
  0 < size0 <= 2 ^ 64 - 4096 → 0 <= a → a mod 4096 = 0 → a + ALIGN_UP size0 PAGE_SIZE < 2 ^ 64 →
  wp (vfree free pm a size0) k (free_outcome pm top F U k a (ALIGN_UP size0 PAGE_SIZE)).
Proof.
  intros Hv Hlk Hca Hs0 Ha0 Hal Hmax. destruct (ALIGN_UP_page_bounds size0 ltac:(lia)) as [Hb1 Hb2].
  set (sz := ALIGN_UP size0 PAGE_SIZE) in *. unfold vfree.
  rewrite (proj2 (IS_ALIGNED_page a ltac:(unfold is_u64; lia)) Hal). cbn [negb]. fold sz.
  apply wp_bind, wp_spinlock_lock; [done|]. pose proof (vi_used _ _ _ _ _ _ Hv) as HU.
  pose proof (busy_enter false 2 h pm top U F k Hv Hlk Hca) as Hb.
  apply wp_bind. eapply wp_ok; [unfold get_pagemap; by rewrite (busy_lookup _ _ _ _ _ _ _ _ _ _ Hb)|]. cbn [used_ranges].
  destruct (rb_find (mk_range 0 a 0) U) as [x|] eqn:Hf.
  2: { apply leave_unchanged; [done|]. left. split_and!; try done. intros (x & Hx & H1 & H2).
       apply (rb_find_None a U HU Hf). exists x. split; [done|lia]. }
  destruct (rb_find_Some a U x HU Hf) as [Hx Hxa]. pose proof (proj2 HU x Hx) as (Hx1 & Hx2 & Hx3 & _).
  replace (u64 (vaddr x + size x) <? u64 (a + sz)) with (vaddr x + size x <? a + sz)
    by (rewrite !u64_id; [done|unfold is_u64; lia..]).
  destruct (Z.ltb_spec (vaddr x + size x) (a + sz)) as [Hshort|Hfit].
  { apply leave_unchanged; [done|]. left. split_and!; try done. intros (x' & Hx' & H1 & H2).
    destruct (tree_apart U x x' HU Hx Hx') as [->|[Hbf|Hbf]]; [lia|unfold before in Hbf..]; lia. }
  apply wp_bind. apply (busy_from false _ _ _ _ _ _ _ _ _ _ _ Hb). intros k1 Hb1'.
  destruct (Z.eqb_spec (vaddr x) a) as [Ea|Ea].
  - destruct (Z.eqb_spec (size x) sz) as [Es|Es].
    + eapply (case_whole false h pm top U F k x a sz); try (done || lia). intros k' Ht. right. by split.
    + eapply (case_front false h pm top U F k x a sz 2 _) with (rf := λ _, 2); try (done || lia). intros k' Ht. right. by split.
  - eapply (case_middle false h pm top U F k x a sz); try (done || lia). intros k' Ht. right. by split.
Qed.

(** ** [valloc] at a fixed address *)

(** The look-ups of an address inside a free range. *)
Lemma found_free h pm top F U k x a :
  vma_inv h pm top F U k → x ∈ F → vaddr x <= a < vaddr x + size x →
  rb_find (mk_range 0 a 0) U = None ∧ rb_find (mk_range 0 a 0) F = Some x.
Proof.
  intros Hv Hx Hxa. pose proof (vi_free _ _ _ _ _ _ Hv) as HF. pose proof (vi_used _ _ _ _ _ _ Hv) as HU. split.
  - destruct (rb_find (mk_range 0 a 0) U) as [u|] eqn:Hu; [|done]. exfalso.
    apply (vi_disj _ _ _ _ _ _ Hv a); [by exists x|exists u; exact (rb_find_Some a U u HU Hu)].
  - destruct (rb_find (mk_range 0 a 0) F) as [y|] eqn:Hf.
    2: { exfalso. apply (rb_find_None a F HF Hf). by exists x. }
    destruct (rb_find_Some a F y HF Hf) as [Hy Hya].
    destruct (tree_apart F y x HF Hy Hx) as [->|[Hbf|Hbf]]; [done|unfold before in Hbf..]; lia.
Qed.

(** The request lies in one free range and not in a used one. *)
Lemma valloc_at_spec free h pm top F U k x size0 a noreplace :
  vma_inv h pm top F U k → can_lock vma_spinlock k → can_alloc 2 k →
  0 < size0 <= 2 ^ 64 - 4096 → a mod 4096 = 0 →
  x ∈ F → vaddr x <= a → a + ALIGN_UP size0 PAGE_SIZE <= vaddr x + size x →
  wp (valloc_at free pm size0 a noreplace) k (λ r k',
    r = a ∧ transferred true a (ALIGN_UP size0 PAGE_SIZE) pm top F U k k').
Proof.
  intros Hv Hlk Hca Hs0 Hal Hx Hxa Hfit. destruct (ALIGN_UP_page_bounds size0 ltac:(lia)) as [Hb1 Hb2].
  set (sz := ALIGN_UP size0 PAGE_SIZE) in *. unfold valloc_at.
  pose proof (vi_free _ _ _ _ _ _ Hv) as HF. pose proof (vi_used _ _ _ _ _ _ Hv) as HU.
  pose proof (proj2 HF x Hx) as (Hx1 & Hx2 & Hx3 & _).
  rewrite (proj2 (IS_ALIGNED_page a ltac:(unfold is_u64; lia)) Hal). cbn [negb]. fold sz.
  apply wp_bind, wp_spinlock_lock; [done|].
  pose proof (busy_enter true 2 h pm top F U k Hv Hlk Hca) as Hb.
  apply wp_bind. eapply wp_ok; [unfold get_pagemap; by rewrite (busy_lookup _ _ _ _ _ _ _ _ _ _ Hb)|].
  cbn [used_ranges free_ranges].
  destruct (found_free h pm top F U k x a Hv Hx ltac:(lia)) as [Hu Hf].
  rewrite Hu, bool_decide_eq_false_2, andb_false_r, Hf by (by intros [? ?]).
  apply wp_bind. apply (busy_from true _ _ _ _ _ _ _ _ _ _ _ Hb). intros k1 Hb1'.
  destruct (Z.eqb_spec a (vaddr x)) as [Ea|Ea].
  - destruct (Z.eqb_spec sz (size x)) as [Es|Es].
    + eapply (case_whole true h pm top F U k x a sz); done || lia.
    + cbn [r_ptr vaddr size]. eapply (case_front true h pm top F U k x a sz a _) with (rf := vaddr); done || lia.
  - eapply (case_middle true h pm top F U k x a sz); done || lia.
Qed.

(** ** A request that a free range does not hold

    Only the first address of a fixed-address request is looked up. *)

Lemma rb_insert_elem x t r : r ∈ rb_insert x t → r = x ∨ r ∈ t.
Proof.
  induction t as [|y t IH]; cbn [rb_insert]; [intros ->%list_elem_of_singleton; by left|].
  destruct (vmm_cmp_range x y <? 0); [rewrite elem_of_cons; tauto|].
  destruct (vmm_cmp_range x y =? 0); [by right|].
  intros [->|Hr]%elem_of_cons; [right; apply elem_of_cons; by left|].
  destruct (IH Hr) as [->|Hin]; [by left|right; apply elem_of_cons; by right].
Qed.

Lemma rb_insert_new x t :
  (∀ r, r ∈ t → range_ok r ∧ ¬ inside r (vaddr x)) → x ∈ rb_insert x t.
Proof.
  induction t as [|y t IH]; cbn [rb_insert]; intros Ht; [by apply list_elem_of_singleton|].
  destruct (Ht y ltac:(apply elem_of_cons; by left)) as [Hy Hn]. unfold inside in Hn.
  destruct (vmm_cmp_range_spec x y Hy) as (C1 & C2 & C3).
  destruct (Z.ltb_spec (vmm_cmp_range x y) 0); [apply elem_of_cons; by left|].
  destruct (Z.eqb_spec (vmm_cmp_range x y) 0); [lia|].
  apply elem_of_cons. right. apply IH. intros r Hr. apply Ht, elem_of_cons. by right.
Qed.

Lemma busy_leave b k pm top A B ps h n k3 (r : Z) :
  can_lock vma_spinlock k → busy b k pm top A B ps h n k3 →
  wp (spinlock_unlock vma_spinlock (cr8 (k_cpu k)) ;;; ret r) k3
    (λ r' k', r' = r ∧ same_rest (with_sides b pm top A B k) k').
Proof.
  intros Hlk [R _]. apply wp_bind.
  assert (same_rest (locked vma_spinlock (with_sides b pm top A B k)) k3) as R' by (by destruct b).
  assert (can_lock vma_spinlock (with_sides b pm top A B k)) as Hlk' by (by destruct b).
  replace (cr8 (k_cpu k)) with (cr8 (k_cpu (with_sides b pm top A B k))) by (by destruct b).
  apply wp_unlock_balanced; [done..|]. apply wp_ret. split; [done|by eapply restored_same_rest].
Qed.

(** The ranges after such a request: the whole request is used, and the free
    range behind it has a size that wrapped around. *)
Definition overcommitted (pm top a sz over : Z) (k k' : kernel) : Prop :=
  ∃ F' U' p q,
    same_rest (with_ranges pm top F' U' k) k' ∧
    mk_range p a sz ∈ U' ∧ mk_range q (a + sz) (2 ^ 64 - over) ∈ F'.

Lemma u64_below x : - 2 ^ 64 <= x < 0 → u64 x = 2 ^ 64 + x.
Proof. intros Hx. unfold u64. rewrite <- (Z_mod_plus_full x 1 (2 ^ 64)). rewrite Z.mod_small; lia. Qed.

Lemma valloc_at_over free h pm top F U k x size0 a noreplace :
  vma_inv h pm top F U k → can_lock vma_spinlock k → can_alloc 2 k →
  0 < size0 <= 2 ^ 64 - 4096 → a mod 4096 = 0 → x ∈ F →
  vaddr x <= a < vaddr x + size x → vaddr x + size x < a + ALIGN_UP size0 PAGE_SIZE < 2 ^ 64 →
  ¬ covers F (a + ALIGN_UP size0 PAGE_SIZE) →
  wp (valloc_at free pm size0 a noreplace) k (λ r k', r = a ∧
    overcommitted pm top a (ALIGN_UP size0 PAGE_SIZE) (a + ALIGN_UP size0 PAGE_SIZE - (vaddr x + size x)) k k').
Proof.
  intros Hv Hlk Hca Hs0 Hal Hx Hxa Hover HnF. destruct (ALIGN_UP_page_bounds size0 ltac:(lia)) as [Hsz1 Hsz2].
  set (sz := ALIGN_UP size0 PAGE_SIZE) in *. unfold valloc_at.
  pose proof (vi_free _ _ _ _ _ _ Hv) as HF. pose proof (vi_used _ _ _ _ _ _ Hv) as HU.
  pose proof (proj2 HF x Hx) as (Hx1 & Hx2 & Hx3 & Hx4 & Hx5).
  rewrite (proj2 (IS_ALIGNED_page a ltac:(unfold is_u64; lia)) Hal). cbn [negb]. fold sz.
  apply wp_bind, wp_spinlock_lock; [done|].
  pose proof (busy_enter true 2 h pm top F U k Hv Hlk Hca) as Hb.
  apply wp_bind. eapply wp_ok; [unfold get_pagemap; by rewrite (busy_lookup _ _ _ _ _ _ _ _ _ _ Hb)|].
  cbn [used_ranges free_ranges].
  assert (¬ covers U a) as HnU by (apply (vi_disj _ _ _ _ _ _ Hv); exists x; split; [done|lia]).
  destruct (found_free h pm top F U k x a Hv Hx ltac:(lia)) as [Hu Hf].
  rewrite Hu, bool_decide_eq_false_2, andb_false_r, Hf by (by intros [? ?]).
  assert (∀ p, mk_range p a sz ∈ rb_insert (mk_range p a sz) U) as HinU.
  { intros p. apply rb_insert_new. intros r Hr. split; [exact (proj2 HU r Hr)|]. intros Hi. apply HnU. by exists r. }
  assert (∀ r, r ∈ rb_remove x F → range_ok r ∧ ¬ inside r (a + sz)) as HinF.
  { intros r [_ Hr]%list_elem_of_filter. split; [exact (proj2 HF r Hr)|]. intros Hi. apply HnF. by exists r. }
  apply wp_bind. apply (busy_from true _ _ _ _ _ _ _ _ _ _ _ Hb). intros k1 Hb1'.
  destruct (Z.eqb_spec a (vaddr x)) as [Ea|Ea].
  - destruct (Z.eqb_spec sz (size x)) as [Es|Es]; [lia|]. cbn [r_ptr vaddr size].
    apply wp_bind. eapply busy_malloc; [done|lia|]. intros p h' k2 Hb2. rewrite <- Ea in *.
    rewrite (u64_id (a + sz)), (u64_below (size x - sz)) by (unfold is_u64; lia).
    apply wp_bind. apply (busy_from true _ _ _ _ _ _ _ _ _ _ _ Hb2). intros k3 Hb3.
    apply wp_bind. apply (busy_to true _ _ _ _ _ _ _ _ _ _ _ Hb3). intros k4 Hb4. cbn [vaddr].
    eapply wp_mono; [exact (busy_leave true k _ _ _ _ _ _ _ _ _ Hlk Hb4)|]. intros r k' [-> R]. split; [done|].
    eexists _, _, p, (r_ptr x). split; [exact R|]. split; [apply HinU|].
    replace (2 ^ 64 + (size x - sz)) with (2 ^ 64 - (a + sz - (a + size x))) by lia. by apply rb_insert_new.
  - cbv zeta. rewrite (u64_id (a - vaddr x)) by (unfold is_u64; lia).
    rewrite (u64_id (size x - (a - vaddr x))) by (unfold is_u64; lia).
    rewrite (u64_below (size x - (a - vaddr x) - sz)), (u64_id (a + sz)) by (unfold is_u64; lia).
    replace (2 ^ 64 + (size x - (a - vaddr x) - sz)) with (2 ^ 64 - (a + sz - (vaddr x + size x))) by lia.
    apply wp_bind. eapply busy_malloc; [done|lia|]. intros p h' k2 Hb2.
    apply wp_bind. apply (busy_to true _ _ _ _ _ _ _ _ _ _ _ Hb2). intros k3 Hb3.
    rewrite (proj2 (Z.ltb_lt 0 (a - vaddr x))) by lia.
    apply wp_bind. apply (busy_from true _ _ _ _ _ _ _ _ _ _ _ Hb3). intros k4 Hb4.
    rewrite (proj2 (Z.ltb_lt 0 (2 ^ 64 - (a + sz - (vaddr x + size x))))) by lia.
    apply wp_bind, wp_bind. eapply busy_malloc; [done|lia|]. intros p2 h2 k5 Hb5.
    apply (busy_from true _ _ _ _ _ _ _ _ _ _ _ Hb5). intros k6 Hb6.
    eapply wp_mono; [exact (busy_leave true k _ _ _ _ _ _ _ _ _ Hlk Hb6)|]. intros r k' [-> R]. split; [done|].
    eexists _, _, p, p2. split; [exact R|]. split; [apply HinU|]. apply rb_insert_new.
    intros r [->|Hr]%rb_insert_elem; [|by apply HinF]. unfold inside. cbn. split; [|lia].
    split_and!; cbn; try (done || lia). Z.div_mod_to_equations; lia.
Qed.
End vma.

(** * Claims *)


(** (C10) [vfree]: releasing a range inside one used range makes exactly that
    range free again (whatever part of the used range it is); a range that no
    single used range contains is refused and nothing changes. *)
Theorem vfree_correct free h pm top F U k a size0 :
  vma_inv h pm top F U k → can_lock vma_spinlock k → can_alloc 2 k →
  0 < size0 <= 2 ^ 64 - 4096 → 0 <= a → a mod 4096 = 0 → a + ALIGN_UP size0 PAGE_SIZE < 2 ^ 64 →
  ∃ r k', vfree free pm a size0 k = Ok (r, k') ∧ free_outcome pm top F U k a (ALIGN_UP size0 PAGE_SIZE) r k'.
Proof.
  intros H1 H2 H3 H4 H5 H6 H7. exact (wp_inv _ _ _ (vfree_spec free h pm top F U k a size0 H1 H2 H3 H4 H5 H6 H7)).
Qed.

(** [valloc] at a fixed address: when the request lies inside one free
    range it succeeds at that address and moves exactly the requested range. *)
Theorem valloc_fixed_correct free h pm top F U k x size0 a noreplace :
  vma_inv h pm top F U k → can_lock vma_spinlock k → can_alloc 2 k →
  0 < size0 <= 2 ^ 64 - 4096 → a mod 4096 = 0 →
  x ∈ F → vaddr x <= a → a + ALIGN_UP size0 PAGE_SIZE <= vaddr x + size x →
  ∃ k', valloc_at free pm size0 a noreplace k = Ok (a, k') ∧
    transferred true a (ALIGN_UP size0 PAGE_SIZE) pm top F U k k'.
Proof.
  intros H1 H2 H3 H4 H5 H6 H7 H8.
  destruct (wp_inv _ _ _ (valloc_at_spec free h pm top F U k x size0 a noreplace H1 H2 H3 H4 H5 H6 H7 H8))
    as (r & k' & Hr & -> & Ht). by exists k'.
Qed.

(** (C39) Overcommitment at a fixed address: a request that starts inside a free
    range and reaches beyond it, where nothing is free, is granted as if the
    range held it.  Every address of the request is recorded as used, those
    behind the free range too, which were not free; and a free range now starts
    behind the request whose size wrapped around at 2^64, so the trees no longer
    satisfy the allocator's invariant. *)
Theorem valloc_fixed_overcommit free h pm top F U k x size0 a noreplace :
  vma_inv h pm top F U k → can_lock vma_spinlock k → can_alloc 2 k →
  0 < size0 <= 2 ^ 64 - 4096 → a mod 4096 = 0 → x ∈ F → vaddr x <= a < vaddr x + size x →
  vaddr x + size x < a + ALIGN_UP size0 PAGE_SIZE < 2 ^ 64 →
  (∀ y, vaddr x + size x <= y <= a + ALIGN_UP size0 PAGE_SIZE → ¬ covers F y) →
  ∃ k' F' U' q, valloc_at free pm size0 a noreplace k = Ok (a, k') ∧
    same_rest (with_ranges pm top F' U' k) k' ∧
    (∀ y, a <= y < a + ALIGN_UP size0 PAGE_SIZE → covers U' y) ∧
    mk_range q (a + ALIGN_UP size0 PAGE_SIZE) (2 ^ 64 - (a + ALIGN_UP size0 PAGE_SIZE - (vaddr x + size x))) ∈ F' ∧
    ¬ ∃ h', vma_inv h' pm top F' U' k'.
Proof.
  intros H1 H2 H3 H4 H5 H6 H7 H8 H9.
  destruct (wp_inv _ _ _ (valloc_at_over free h pm top F U k x size0 a noreplace H1 H2 H3 H4 H5 H6 H7 H8
    (H9 (a + ALIGN_UP size0 PAGE_SIZE) ltac:(lia)))) as (r & k' & Hr & -> & F' & U' & p & q & R & HU & HF).
  exists k', F', U', q. split; [done|]. split; [done|]. split; [|split; [done|]].
  - intros y Hy. eexists. split; [exact HU|exact Hy].
  - intros (h' & Hv). destruct (proj2 (vi_free _ _ _ _ _ _ Hv) _ HF) as (_ & _ & Hend & _).
    destruct (proj2 (vi_free _ _ _ _ _ _ H1) x H6) as (? & ? & _). cbn [vaddr size] in Hend. lia.
Qed.
