(* ===== verification/Libc.v ===== *)
(** [malloc], [free], [zalloc] and [calloc] ([libc/stdlib.c]) with the large
    path, and the operation of [memory/vmm.c] that needs them. *)
From stdpp Require Import base tactics list gmap sets strings.
From Stdlib Require Import ZArith Lia.
From S2P Require Import Prelude Bits State Spinlock Pmm Heap Vmm Vma.

(** Small blocks lie in the direct map, large ones in the range of [valloc]:
    their memory is reached through the page tables. *)
Definition in_valloc (ptr : Z) : bool := (VALLOC_RANGE_START <=? ptr) && (ptr <? VALLOC_RANGE_END).

(** [for (off = 0; off < aligned_size; off += PAGE_SIZE)] with [n] rounds left. *)
Fixpoint malloc_map_loop (n : nat) (block off : Z) : M kernel unit :=
  match n with
  | O => ret tt
  | S n' =>
      let* pa := allocate_page in
      vmm_map_page kernel_pagemap (u64 (block + off)) pa (Z.lor PTE_WRITABLE PTE_NX) ;;;
      malloc_map_loop n' block (off + PAGE_SIZE)
  end.

Definition malloc (size : Z) : M kernel Z :=
  if size <=? 1024 then malloc_small size
  else
    let* block := valloc_any kernel_pagemap (u64 (size + 16)) in
    let aligned_size := ALIGN_UP (u64 (size + 16)) PAGE_SIZE in
    malloc_map_loop (Z.to_nat (aligned_size / PAGE_SIZE)) block 0 ;;;
    store64_virt block size ;;;
    ret (u64 (block + 16)).

Fixpoint free_unmap_loop (n : nat) (block off : Z) : M kernel unit :=
  match n with
  | O => ret tt
  | S n' =>
      let vaddr := u64 (block + off) in
      let* phys := vmm_get_phys kernel_pagemap vaddr in
      vmm_unmap_page kernel_pagemap vaddr ;;;
      (if phys =? 0 then ret tt else free_page phys) ;;;
      free_unmap_loop n' block (off + PAGE_SIZE)
  end.

(** [depth] bounds the recursion through [vfree]: the nodes that [vfree]
    releases are small blocks, so two levels are enough. *)
Fixpoint free_depth (depth : nat) (ptr : Z) : M kernel unit :=
  match depth with
  | O => hang
  | S depth' =>
      let block := u64 (ptr - 16) in
      let* size :=
        (if in_valloc block then load64_virt block else load64 block) in
      if size <=? 1024 then free_small ptr
      else
        let total_size := ALIGN_UP (u64 (size + 16)) PAGE_SIZE in
        free_unmap_loop (Z.to_nat (total_size / PAGE_SIZE)) block 0 ;;;
        vfree (free_depth depth') kernel_pagemap block (u64 (size + 16)) ;;;
        ret tt
  end.

Definition free (ptr : Z) : M kernel unit := free_depth 2 ptr.

(** [memset] over a block of either kind. *)
Definition memset_block (ptr c n : Z) : M kernel unit :=
  if in_valloc ptr then memset_virt (Z.to_nat n) ptr c else memset ptr c n.

Definition zalloc (size : Z) : M kernel Z :=
  let* ptr := malloc size in
  memset_block ptr 0 size ;;;
  ret ptr.

Definition calloc (nmemb size : Z) : M kernel Z :=
  if (nmemb =? 0) || (size =? 0) then malloc 0
  else if (2 ^ 64 - 1) / size <? nmemb then ret 0
  else
    let total := u64 (nmemb * size) in
    let* ptr := malloc total in
    memset_block ptr 0 total ;;;
    ret ptr.

(** * [delete_pagemap] of [memory/vmm.c] *)

Fixpoint free_ranges_loop (rs : list vmm_page_range_t) : M kernel unit :=
  match rs with
  | [] => ret tt
  | curr :: rs' => free (r_ptr curr) ;;; free_ranges_loop rs'
  end.

Definition delete_pagemap (pagemap : Z) : M kernel unit :=
  if pagemap =? 0 then ret tt else
  let* pm := get_pagemap pagemap in
  if top_level pm =? 0 then ret tt else
  let* off := gets k_hhdm in
  let top_phys := u64 (top_level pm - off) in
  free_levels 4 top_phys 0 256 ;;;
  free_page top_phys ;;;
  put_pagemap pagemap (mk_pagemap 0 (free_ranges pm) (used_ranges pm)) ;;;
  free_ranges_loop (free_ranges pm) ;;;
  set_free_ranges pagemap (λ _, []) ;;;
  free_ranges_loop (used_ranges pm) ;;;
  set_used_ranges pagemap (λ _, []) ;;;
  free pagemap ;;;
  modify (λ k, set_pagemaps k (delete pagemap (k_pagemaps k))).
