(* ===== verification/VmBoot.v ===== *)
(** Address spaces of the booted kernel: the hypotheses of the page-table and
    address-range theorems hold on states the kernel reaches. *)
From stdpp Require Import base tactics list gmap sets strings.
From Stdlib Require Import ZArith Lia Sorting.Sorted.
From S2P Require Import Prelude Bits State Spinlock Pmm PmmInv PmmBoot FrameAlloc Heap HeapInv HeapBoot MallocInv Vmm VmmInv Vma VmaInv Libc.

(** * A fresh top table

    A page map whose top table has just been allocated maps nothing. *)
Section fresh_top.
Context {FA : FrameAllocator allocate_page free_page}.
Context (k k4 : kernel) (top : Z) (pms : gmap Z pagemap_t).
Context (Hfa : fa_inv k) (Hfa4 : fa_inv k4) (Hho : handed_out fa_owns top k k4).
Context (Hlent : ∀ x, fa_lent k4 x ↔ fa_lent k x ∨ x / 4096 = top / 4096).
Set Default Proof Using "All".

Lemma fresh_top_page : 0 < top < 2 ^ 46 ∧ top mod 4096 = 0.
Proof. split; [exact (fa_range _ _ Hfa (ho_was _ _ _ _ Hho))|exact (ho_aligned _ _ _ _ Hho)]. Qed.

Lemma fresh_top_entry i : 0 <= i < 512 → entry (k_mem (set_pagemaps k4 pms)) top i = 0.
Proof.
  intros Hi. destruct fresh_top_page as [_ Hal].
  apply le_read_zero. intros x Hx. apply (ho_zero _ _ _ _ Hho). Z.div_mod_to_equations. lia.
Qed.

Lemma fresh_top_fits lvl va : fits lvl (k_mem (set_pagemaps k4 pms)) top va.
Proof. intros l e. cbn [walk]. rewrite fresh_top_entry by apply pml_index_range. done. Qed.

Lemma fresh_top_inv : pt_inv {[ top := 4%nat ]} top (set_pagemaps k4 pms).
Proof.
  destruct fresh_top_page as [Hr Hal].
  destruct (fa_frame k4 (set_pagemaps k4 pms) Hfa4) as (Hfa5 & _ & Hl5); [done..|].
  assert (∀ t l, ({[ top := 4%nat ]} : gmap Z nat) !! t = Some l → t = top ∧ l = 4%nat) as HT.
  { intros t l Ht. apply lookup_singleton_Some in Ht as [<- <-]. done. }
  split; [done|apply lookup_singleton_eq|split|].
  - intros t l Ht. destruct (HT t l Ht) as [-> ->]. split_and!; (done || lia).
  - intros t l i Ht _ Hi Hl. destruct (HT _ _ Ht) as [-> _]. rewrite fresh_top_entry in Hl by done. done.
  - intros t l i t' l' i' Ht _ _ _ Hi _ Hl. destruct (HT _ _ Ht) as [-> _]. rewrite fresh_top_entry in Hl by done. done.
  - intros t [l Ht]. destruct (HT _ _ Ht) as [-> _]. apply Hl5, Hlent. by right.
Qed.
End fresh_top.

(** Neither the locks nor the heap look at the page maps. *)
Lemma set_pagemaps_lock lk k pms : can_lock lk k → can_lock lk (set_pagemaps k pms).
Proof. done. Qed.
Lemma set_pagemaps_serves k pms n : can_serve k n → can_serve (set_pagemaps k pms) n.
Proof. done. Qed.
Lemma can_serve_rest k k' n : same_rest k k' → can_serve k n → can_serve k' n.
Proof. intros R. unfold can_serve. by rewrite (sr_heap _ _ R). Qed.
Lemma set_pagemaps_enough {FA : FrameAllocator allocate_page free_page} n k pms :
  fa_inv k → enough n k → enough n (set_pagemaps k pms).
Proof. intros Hfa. apply enough_owns. by apply (fa_frame k). Qed.
Lemma set_pagemaps_top k pm top F U :
  has_top pm top (set_pagemaps k {[ pm := mk_pagemap (u64 (top + k_hhdm k)) F U ]}).
Proof. eexists. split; [apply lookup_singleton_eq|reflexivity]. Qed.
Lemma set_pagemaps_heap {FA : FrameAllocator allocate_page free_page} h k pms : heap_inv h k → heap_inv h (set_pagemaps k pms).
Proof. intros Hi. by apply (heap_inv_ext h k). Qed.


Module VmUp.
(** A page for the top table of the kernel's page map. *)
Definition top : Z := match allocate_page HeapUp.kernel3 with Ok (p, _) => p | _ => 0 end.
Definition kernel4 : kernel := match allocate_page HeapUp.kernel3 with Ok (_, k) => k | _ => HeapUp.kernel3 end.
Definition kernel5 : kernel :=
  set_pagemaps kernel4 {[ kernel_pagemap := mk_pagemap (u64 (top + k_hhdm kernel4)) [] [] ]}.

Lemma kernel3_inv : ∃ h, heap_inv h HeapUp.kernel3 ∧ sc_size <$> k_heap HeapUp.kernel3 = cache_sizes.
Proof. destruct HeapUp.kernel3_ok as (h & Hu). exists h. exact (heap_up_done _ _ _ Hu). Qed.

Lemma kernel4_alloc :
  ∃ h, heap_inv h kernel4 ∧ handed_out available top HeapUp.kernel3 kernel4 ∧
    (∀ x, fa_lent kernel4 x ↔ fa_lent HeapUp.kernel3 x ∨ x / 4096 = top / 4096).
Proof.
  destruct kernel3_inv as (h & Hi & _).
  destruct (wp_inv _ _ _ (fa_alloc HeapUp.kernel3 (hi_fa _ _ Hi) (HeapUp.kernel3_lock _)
    (ex_intro _ _ HeapUp.kernel3_frame))) as (p & k & Hr & Hfa & Hho & Hl).
  exists h. unfold top, kernel4. rewrite Hr.
  split; [exact (heap_inv_alloc h _ p k Hi Hfa Hho Hl)|split; [exact Hho|exact Hl]].
Qed.
#[global] Opaque top kernel4.

Lemma kernel5_lock lk : can_lock lk kernel5.
Proof.
  destruct kernel4_alloc as (_ & _ & Hho & _). apply set_pagemaps_lock.
  exact (can_lock_same_rest lk HeapUp.kernel3 kernel4 (ho_rest _ _ _ _ Hho) (HeapUp.kernel3_lock lk)).
Qed.

Lemma kernel5_heap : ∃ h, heap_inv h kernel5.
Proof.
  destruct kernel4_alloc as (h & Hi & _). exists h. exact (set_pagemaps_heap h kernel4 _ Hi).
Qed.

Definition T : gmap Z nat := {[ top := 4%nat ]}.

Lemma kernel5_pt : pt_inv T top kernel5.
Proof.
  destruct kernel4_alloc as (h & Hi & Hho & Hl). destruct kernel3_inv as (h3 & Hi3 & _).
  exact (fresh_top_inv HeapUp.kernel3 kernel4 top _ (hi_fa _ _ Hi3) (hi_fa _ _ Hi) Hho Hl).
Qed.

Lemma kernel5_top : has_top kernel_pagemap top kernel5.
Proof. exact (set_pagemaps_top kernel4 kernel_pagemap top [] []). Qed.

Lemma kernel5_fits lvl va : fits lvl (k_mem kernel5) top va.
Proof.
  destruct kernel4_alloc as (h & Hi & Hho & Hl). destruct kernel3_inv as (h3 & Hi3 & _).
  exact (fresh_top_fits HeapUp.kernel3 kernel4 top _ (hi_fa _ _ Hi3) (hi_fa _ _ Hi) Hho Hl lvl va).
Qed.

Lemma kernel5_frames : enough 12 kernel5.
Proof.
  exists [0x20b000; 0x20c000; 0x20d000; 0x20e000; 0x20f000; 0x210000; 0x211000; 0x212000; 0x213000; 0x214000; 0x215000; 0x20a000].
  split_and!; [repeat constructor; rewrite ?elem_of_cons, ?elem_of_nil; lia|cbn; lia|].
  intros p Hp. rewrite !elem_of_cons, elem_of_nil in Hp.
  destruct Hp as [->|[->|[->|[->|[->|[->|[->|[->|[->|[->|[->|[->|[]]]]]]]]]]]]]; (split; [reflexivity|left; vm_compute; reflexivity]).
Qed.
Lemma kernel5_three : enough 3 kernel5.
Proof. exact (enough_mono 12 3 _ ltac:(lia) kernel5_frames). Qed.
End VmUp.

(** * A page map with one range *)
Section one_range.
Context {FA : FrameAllocator allocate_page free_page}.
Context (h h' : heap_g) (k k' : kernel) (o s p pm top va sz : Z).
Context (Hb : block_taken o s p SIZEOF_RANGE h k h' k') (Hr : range_ok (mk_range p va sz)).
Set Default Proof Using "All".

Lemma one_tree : tree_ok [mk_range p va sz].
Proof.
  apply tree_ok_cons. split_and!; [done|by intros r ?%not_elem_of_nil|].
  split; [constructor|by intros r ?%not_elem_of_nil].
Qed.
Lemma no_tree : tree_ok [].
Proof. split; [constructor|by intros r ?%not_elem_of_nil]. Qed.

Lemma one_block pms q :
  q ∈ [p] → ∃ o s, block h' (set_pagemaps k' pms) o s q SIZEOF_RANGE.
Proof.
  intros ->%list_elem_of_singleton. exists o, s. eapply block_ext; [..|exact (bt_block _ _ _ _ _ _ _ _ Hb)]; done.
Qed.

Lemma one_free : vma_inv h' pm top [mk_range p va sz] [] (set_pagemaps k' {[ pm := mk_pagemap top [mk_range p va sz] [] ]}).
Proof.
  split; [apply lookup_singleton_eq|apply one_tree|apply no_tree| |apply NoDup_singleton|apply one_block|].
  - intros x _. apply covers_nil.
  - apply set_pagemaps_heap. exact (bt_inv _ _ _ _ _ _ _ _ Hb).
Qed.

Lemma one_used : vma_inv h' pm top [] [mk_range p va sz] (set_pagemaps k' {[ pm := mk_pagemap top [] [mk_range p va sz] ]}).
Proof.
  split; [apply lookup_singleton_eq|apply no_tree|apply one_tree| |apply NoDup_singleton|apply one_block|].
  - intros x Hx. by apply covers_nil in Hx.
  - apply set_pagemaps_heap. exact (bt_inv _ _ _ _ _ _ _ _ Hb).
Qed.
End one_range.

Module RangesUp.
(** The ranges [new_pagemap] gives a user address space. *)
Definition user_start : Z := 0x1000.
Definition user_size : Z := 400000000000 - 0x1000.
Definition pm : Z := 0x70000.

Definition node : Z := match malloc_small SIZEOF_RANGE VmUp.kernel5 with Ok (p, _) => p | _ => 0 end.
Definition kernel6 : kernel := match malloc_small SIZEOF_RANGE VmUp.kernel5 with Ok (_, k) => k | _ => VmUp.kernel5 end.
Definition range : vmm_page_range_t := mk_range node user_start user_size.
Definition with_free : kernel := set_pagemaps kernel6 {[ pm := mk_pagemap 0 [range] [] ]}.
Definition with_used : kernel := set_pagemaps kernel6 {[ pm := mk_pagemap 0 [] [range] ]}.

Lemma kernel5_serves : can_serve VmUp.kernel5 SIZEOF_RANGE.
Proof.
  destruct VmUp.kernel4_alloc as (_ & _ & Hho & _). destruct (HeapUp.kernel3_class 1024 ltac:(lia)) as (c & Hc & Hs).
  apply set_pagemaps_serves. apply (can_serve_rest HeapUp.kernel3 VmUp.kernel4); [exact (ho_rest _ _ _ _ Hho)|].
  exists c. split; [exact Hc|unfold SIZEOF_RANGE; lia].
Qed.

Lemma kernel6_taken : ∃ o s h h', block_taken o s node SIZEOF_RANGE h VmUp.kernel5 h' kernel6.
Proof.
  destruct VmUp.kernel5_heap as (h & Hi).
  destruct (wp_inv _ _ _ (malloc_small_spec h VmUp.kernel5 SIZEOF_RANGE Hi (VmUp.kernel5_lock _) (VmUp.kernel5_lock _)
    (enough_some 12 _ ltac:(lia) VmUp.kernel5_frames) ltac:(unfold SIZEOF_RANGE; lia) kernel5_serves))
    as (p & k & Hr & o & s & h' & Hb).
  exists o, s, h, h'. unfold node, kernel6. rewrite Hr. exact Hb.
Qed.
#[global] Opaque node kernel6.

Lemma range_sane : range_ok range.
Proof. split_and!; reflexivity. Qed.

Lemma kernel6_alloc pms : can_alloc 2 (set_pagemaps kernel6 pms) ∧ can_lock vma_spinlock (set_pagemaps kernel6 pms).
Proof.
  destruct kernel6_taken as (o & s & h & h' & Hb). pose proof (bt_rest _ _ _ _ _ _ _ _ Hb) as R.
  assert (∀ lk, can_lock lk kernel6) as Hl by (intros lk; exact (can_lock_same_rest lk _ _ R (VmUp.kernel5_lock lk))).
  split; [|apply set_pagemaps_lock, Hl]. split; [apply set_pagemaps_lock, Hl|split; [apply set_pagemaps_lock, Hl|split]].
  - apply set_pagemaps_enough; [exact (hi_fa _ _ (bt_inv _ _ _ _ _ _ _ _ Hb))|].
    apply (enough_mono (12 - 1)); [lia|]. exact (bt_enough _ _ _ _ _ _ _ _ Hb 12 VmUp.kernel5_frames).
  - apply set_pagemaps_serves. exact (can_serve_rest VmUp.kernel5 kernel6 _ R kernel5_serves).
Qed.

Lemma free_ok : ∃ h, vma_inv h pm 0 [range] [] with_free.
Proof.
  destruct kernel6_taken as (o & s & h & h' & Hb). exists h'.
  exact (one_free h h' VmUp.kernel5 kernel6 o s node pm 0 user_start user_size Hb range_sane).
Qed.
Lemma used_ok : ∃ h, vma_inv h pm 0 [] [range] with_used.
Proof.
  destruct kernel6_taken as (o & s & h & h' & Hb). exists h'.
  exact (one_used h h' VmUp.kernel5 kernel6 o s node pm 0 user_start user_size Hb range_sane).
Qed.
End RangesUp.

(** * The hypotheses of the page-table theorems hold *)

Lemma vmm_map_page_correct_witness :
  ∃ T' k', vmm_map_page_sized kernel_pagemap 0x400000 0x210000 PTE_WRITABLE (page_size_of 1) VmUp.kernel5 = Ok (tt, k') ∧
    pt_step 3 VmUp.top VmUp.T VmUp.kernel5 T' k'.
Proof.
  destruct (vmm_map_page_correct 1 kernel_pagemap VmUp.T VmUp.top 0x400000 0x210000 PTE_WRITABLE VmUp.kernel5
    VmUp.kernel5_pt VmUp.kernel5_top ltac:(lia) (VmUp.kernel5_fits 1 _) ltac:(split; reflexivity || (unfold PTE_WRITABLE; lia))
    (VmUp.kernel5_lock _) (VmUp.kernel5_lock _) VmUp.kernel5_three) as (T' & k' & H1 & H2 & _).
  exists T', k'. split; [exact H1|exact H2].
Defined.

(** With a large page of the direct map in the same page map. *)
Lemma map_then_get_phys_witness :
  ∃ k6 k', vmm_map_page_sized kernel_pagemap Booted.hhdm 0 PTE_WRITABLE (page_size_of 2) VmUp.kernel5 = Ok (tt, k6) ∧
    walk 4 (k_mem k6) VmUp.top Booted.hhdm = Some (2%nat, leaf_entry 2 0 PTE_WRITABLE) ∧
    vmm_map_page kernel_pagemap 0x400000 0x210000 PTE_WRITABLE k6 = Ok (tt, k') ∧
    vmm_get_phys kernel_pagemap 0x400123 k' = Ok (0x210000, k').
Proof.
  assert (is_u64 PTE_WRITABLE) as Hw by (split; reflexivity || (unfold PTE_WRITABLE; lia)).
  destruct (wp_inv _ _ _ (vmm_map_page_sized_spec 2 kernel_pagemap VmUp.T VmUp.top Booted.hhdm 0 PTE_WRITABLE VmUp.kernel5
    VmUp.kernel5_pt VmUp.kernel5_top ltac:(lia) (VmUp.kernel5_fits 2 _) Hw (VmUp.kernel5_lock _) (VmUp.kernel5_lock _)
    VmUp.kernel5_three)) as ([] & k6 & H6 & T6 & Hst & Hmap).
  pose proof (ps_rest _ _ _ _ _ _ Hst) as R.
  assert (fits 1 (k_mem k6) VmUp.top 0x400000) as Hfit.
  { unfold fits. rewrite (proj2 (Hmap 0x400000)); [exact (VmUp.kernel5_fits 1 _)|].
    intros Hs. specialize (Hs 4%nat ltac:(lia)). discriminate Hs. }
  destruct (map_then_get_phys kernel_pagemap T6 VmUp.top 0x400000 0x210000 PTE_WRITABLE k6 (ps_inv _ _ _ _ _ _ Hst)
    (has_top_rest _ _ _ _ R VmUp.kernel5_top) Hfit Hw eq_refl (can_lock_same_rest _ _ _ R (VmUp.kernel5_lock _))
    (can_lock_same_rest _ _ _ R (VmUp.kernel5_lock _))
    (enough_mono (12 - 3) 3 _ ltac:(lia) (ps_enough _ _ _ _ _ _ Hst 12 VmUp.kernel5_frames))) as (k' & H1 & H2).
  exists k6, k'. split; [exact H6|split; [exact (proj1 (Hmap Booted.hhdm) (λ l _, eq_refl))|split; [exact H1|]]].
  destruct (H2 0x400123) as [[_ Hg]|[Hd _]]; [exact Hg|exfalso; apply Hd; reflexivity].
Defined.

Lemma vmm_unmap_page_correct_witness :
  ∃ k', vmm_unmap_page kernel_pagemap 0x400000 VmUp.kernel5 = Ok (tt, k') ∧
    unmapped 0x400000 VmUp.top VmUp.T VmUp.kernel5 k'.
Proof.
  exact (vmm_unmap_page_correct kernel_pagemap VmUp.T VmUp.top 0x400000 VmUp.kernel5
    VmUp.kernel5_pt VmUp.kernel5_top (VmUp.kernel5_fits 1 _) (VmUp.kernel5_lock _)).
Defined.

Lemma vmm_map_pages_continuous_correct_witness :
  ∃ k', vmm_map_pages_continuous kernel_pagemap 0x400000 0x210000 4 PTE_WRITABLE VmUp.kernel5 = Ok (tt, k').
Proof.
  destruct (vmm_map_pages_continuous_correct kernel_pagemap VmUp.T VmUp.top 0x400000 0x210000 4 PTE_WRITABLE VmUp.kernel5
    VmUp.kernel5_pt VmUp.kernel5_top ltac:(split; reflexivity || (unfold PTE_WRITABLE; lia)) ltac:(lia) ltac:(lia)
    ltac:(unfold PAGE_SIZE; lia) (VmUp.kernel5_fits 1) (VmUp.kernel5_lock _) (VmUp.kernel5_lock _) VmUp.kernel5_frames)
    as (T' & k' & H1 & _).
  exists k'. exact H1.
Defined.

(** * And those of the address-range theorems *)


Lemma vfree_correct_witness :
  ∃ r k', vfree free RangesUp.pm 0x3000 0x2000 RangesUp.with_used = Ok (r, k').
Proof.
  destruct RangesUp.used_ok as (h & Hv). destruct (RangesUp.kernel6_alloc {[ RangesUp.pm := mk_pagemap 0 [] [RangesUp.range] ]}) as (Ha & Hl).
  destruct (vfree_correct free h RangesUp.pm 0 [] [RangesUp.range] RangesUp.with_used 0x3000 0x2000 Hv Hl Ha
    ltac:(lia) ltac:(lia) eq_refl eq_refl) as (r & k' & Hr & _).
  exists r, k'. exact Hr.
Defined.

Lemma valloc_fixed_correct_witness :
  ∃ k', valloc_at free RangesUp.pm 0x2000 0x3000 true RangesUp.with_free = Ok (0x3000, k').
Proof.
  destruct RangesUp.free_ok as (h & Hv). destruct (RangesUp.kernel6_alloc {[ RangesUp.pm := mk_pagemap 0 [RangesUp.range] [] ]}) as (Ha & Hl).
  destruct (valloc_fixed_correct free h RangesUp.pm 0 [RangesUp.range] [] RangesUp.with_free RangesUp.range 0x2000 0x3000 true
    Hv Hl Ha ltac:(lia) eq_refl (proj2 (list_elem_of_singleton _ _) eq_refl) ltac:(vm_compute; discriminate) ltac:(vm_compute; discriminate))
    as (k' & Hr & _).
  exists k'. exact Hr.
Defined.

(** Two pages at the last page of the user range. *)
Lemma valloc_fixed_overcommit_witness :
  ∃ k', valloc_at free RangesUp.pm 0x2000 (400000000000 - 0x1000) true RangesUp.with_free =
    Ok (400000000000 - 0x1000, k').
Proof.
  destruct RangesUp.free_ok as (h & Hv). destruct (RangesUp.kernel6_alloc {[ RangesUp.pm := mk_pagemap 0 [RangesUp.range] [] ]}) as (Ha & Hl).
  destruct (valloc_fixed_overcommit free h RangesUp.pm 0 [RangesUp.range] [] RangesUp.with_free RangesUp.range 0x2000
    (400000000000 - 0x1000) true Hv Hl Ha ltac:(lia) eq_refl (proj2 (list_elem_of_singleton _ _) eq_refl)
    ltac:(split; [discriminate|reflexivity]) ltac:(split; reflexivity)) as (k' & F' & U' & q & Hr & _).
  - intros y [Hy _] (r & ->%list_elem_of_singleton & [_ Hr]). lia.
  - exists k'. exact Hr.
Defined.
