(* ===== verification/LibcInv.v ===== *)
(** Correctness of [malloc], [free] and [calloc] for blocks of the slab heap,
    and the requests they cannot serve. *)
From stdpp Require Import base tactics list gmap sets strings.
From Stdlib Require Import ZArith Lia.
From S2P Require Import Prelude Bits State Spinlock Pmm PmmInv PmmBoot FrameAlloc Heap HeapInv HeapBoot MallocInv Vmm VmmInv Vma VmaInv Libc VmBoot.

Lemma malloc_is_small size : size <= 1024 → malloc size = malloc_small size.
Proof. intros H. unfold malloc. by rewrite (proj2 (Z.leb_le _ _) H). Qed.

(** [free] of a small block goes to the heap. *)
Lemma free_spec h k o s ptr size :
  heap_inv h k → can_lock slab_memlock k → block h k o s ptr size → size <= 1024 →
  in_valloc (o + k_hhdm k) = false →
  wp (free ptr) k (λ _ k', ∃ h', block_given o s h k h' k').
Proof.
  intros Hi Hlk Hb Hsz Hnv. pose proof Hb as [Hlv Hptr Hfit Hrd].
  destruct (live_range h k o s Hi Hlv) as (Hlo & Hhi & Hs & _). pose proof (fa_hhdm k (hi_fa h k Hi)) as [Ho1 Ho2].
  unfold free. cbn [free_depth].
  assert (u64 (ptr - 16) = o + k_hhdm k) as Hu by (subst ptr; rewrite u64_id; [lia|unfold is_u64; lia]).
  rewrite Hu, Hnv. apply wp_bind, (wp_load64 _ _ o); [apply hhdm_phys_add; lia|]. rewrite Hrd.
  rewrite (proj2 (Z.leb_le _ _) Hsz). by apply (free_small_spec h k o s ptr size).
Qed.

(** The direct map of every managed frame ends below the range of [valloc]. *)
Definition direct_map_low (k : kernel) : Prop :=
  ∀ x st, pstate (tables k) x = Some st → x + k_hhdm k < VALLOC_RANGE_START.

(** Where a new block lies was managed memory. *)
Lemma taken_managed h k x :
  heap_inv h k → fa_owns k x ∨ private h x → ∃ st, pstate (tables k) x = Some st.
Proof.
  intros Hi [[H|H]|(p & sz & F & Hp & Hxp & _)]; [by eexists..|].
  exists PAGE_USED. apply (fa_lent_page (FrameAllocator := pmm_allocator) k p x (hi_fa h k Hi)); [done|].
  apply (hi_lent h k Hi). by eexists.
Qed.

(** (C14) Round trip: a block of up to 1008 bytes can be allocated, is distinct
    from every live object, and freeing it makes the set of live objects what
    it was, with the contents of all of them unchanged throughout. *)
Theorem malloc_free_roundtrip h k size :
  heap_inv h k → can_lock slab_memlock k → can_lock pmm_spinlock k → (∃ q, available k q) →
  sc_size <$> k_heap k = cache_sizes → direct_map_low k → 0 <= size <= 1008 →
  ∃ o s ptr h1 k1 h2 k2,
    malloc size k = Ok (ptr, k1) ∧ free ptr k1 = Ok (tt, k2) ∧
    block_taken o s ptr size h k h1 k1 ∧ heap_inv h2 k2 ∧ same_rest k k2 ∧
    (∀ o' s', live h2 o' s' ↔ live h o' s') ∧
    (∀ o' s' x, live h o' s' → o' <= x < o' + s' →
       read8 (k_mem k1) x = read8 (k_mem k) x ∧ read8 (k_mem k2) x = read8 (k_mem k) x).
Proof.
  intros Hi Hl1 Hl2 Hex Hcs Hoff Hsz.
  assert (can_serve k size) as Hserve.
  { assert (1024 ∈ sc_size <$> k_heap k) as Hin by (rewrite Hcs; unfold cache_sizes; rewrite !elem_of_cons; by auto 10).
    apply list_elem_of_fmap in Hin as (c & Hc & Hin). exists c. split; [done|lia]. }
  rewrite malloc_is_small by lia.
  destruct (wp_inv _ _ _ (malloc_small_spec h k size Hi Hl1 Hl2 Hex ltac:(lia) Hserve))
    as (ptr & k1 & Hr1 & o & s & h1 & Hbt).
  pose proof Hbt as [I1 R1 B1 F1 W1 E1 L1 M1]. pose proof (bl_live _ _ _ _ _ _ B1) as Hlv.
  destruct (live_range h1 k1 o s I1 Hlv) as (Hlo & Hhi & Hs & _).
  assert (in_valloc (o + k_hhdm k1) = false) as Hnv.
  { destruct (taken_managed h k o Hi (W1 o ltac:(lia))) as [st Hst]. apply Hoff in Hst.
    unfold in_valloc. rewrite (sr_hhdm _ _ R1). by rewrite (proj2 (Z.leb_gt _ _)). }
  destruct (wp_inv _ _ _ (free_spec h1 k1 o s ptr size I1 (can_lock_same_rest _ _ _ R1 Hl1) B1 ltac:(lia) Hnv))
    as ([] & k2 & Hr2 & h2 & [I2 R2 L2 M2]).
  exists o, s, ptr, h1, k1, h2, k2. split_and!; try done.
  - by transitivity k1.
  - intros o' s'. rewrite L2, L1. split; [naive_solver|]. intros Hl. split; [by left|]. intros ->. by apply (F1 s').
  - intros o' s' x Hl Hx. destruct (live_client h k o' s' x Hi Hl Hx) as [Hnp Hno].
    assert (read8 (k_mem k1) x = read8 (k_mem k) x) as H1 by (by apply M1). split; [done|].
    assert (live h1 o' s') as Hl1' by (apply L1; by left).
    destruct (live_client h1 k1 o' s' x I1 Hl1' Hx) as [Hnp1 _].
    rewrite M2; [done|done|]. intros Hin. apply (F1 s').
    destruct (decide (o' = o)) as [->|Hne]; [done|]. destruct (live_apart h1 k1 o' o s' s I1 Hl1' Hlv Hne); lia.
Qed.

(** The gap below the large path: a request of 1009 to 1024 bytes is sent
    to the slab heap, whose largest object cannot hold it with its header, and
    panics; larger requests would be served by the page allocator. *)
Theorem malloc_gap_panics k size :
  can_lock slab_memlock k → sc_size <$> k_heap k = cache_sizes → 1009 <= size <= 1024 →
  malloc size k = Panic "no mem".
Proof.
  intros Hlk Hcs Hsz. rewrite malloc_is_small by lia. unfold malloc_small.
  rewrite (bind_ok _ _ _ _ _ (spinlock_lock_ok _ _ Hlk)). apply bind_panic.
  rewrite u64_id by (unfold is_u64; lia). unfold kmalloc, bind, gets. apply kmalloc_loop_panics. intros c Hc.
  assert (sc_size c ∈ cache_sizes) as Hin by (rewrite <- Hcs; by apply list_elem_of_fmap_2).
  unfold cache_sizes in Hin. rewrite !elem_of_cons, elem_of_nil in Hin. lia.
Qed.

(** [calloc] detects overflow: when the product does not fit in 64 bits it
    returns NULL and changes nothing; when it fits and is not zero it allocates
    exactly the product. *)
Theorem calloc_overflow nmemb size k :
  is_u64 nmemb → is_u64 size → 0 < nmemb → 0 < size →
  (2 ^ 64 <= nmemb * size → calloc nmemb size k = Ok (0, k)) ∧
  (nmemb * size < 2 ^ 64 → calloc nmemb size k =
     (let* ptr := malloc (nmemb * size) in memset_block ptr 0 (nmemb * size) ;;; ret ptr) k).
Proof.
  intros [Hn0 Hn1] [Hs0 Hs1] Hn Hs. unfold calloc.
  rewrite (proj2 (Z.eqb_neq nmemb 0)), (proj2 (Z.eqb_neq size 0)) by lia. cbn [orb].
  assert ((2 ^ 64 - 1) / size < nmemb ↔ 2 ^ 64 <= nmemb * size) as Hdiv.
  { split; intros H; [|apply Z.div_lt_upper_bound; lia].
    pose proof (Z.mul_succ_div_gt (2 ^ 64 - 1) size ltac:(lia)). nia. }
  destruct (Z.ltb_spec ((2 ^ 64 - 1) / size) nmemb) as [Hlt|Hge]; (split; intros H; try lia).
  - done.
  - by rewrite u64_id by (unfold is_u64; nia).
Qed.

(** * The hypotheses hold *)

Lemma tables_low k b :
  forallb (λ c, end_ c <=? b) (tables k) = true → ∀ x st, pstate (tables k) x = Some st → x < b.
Proof.
  intros H x st (i & c & Hc & [_ Hx])%pstate_inv.
  rewrite forallb_forall in H. specialize (H c). rewrite Z.leb_le in H.
  apply list_elem_of_lookup_2, list_elem_of_In in Hc. specialize (H Hc). lia.
Qed.

Lemma kernel3_hhdm : k_hhdm HeapUp.kernel3 = Booted.hhdm.
Proof.
  destruct HeapUp.kernel3_ok as (h0 & Hu). destruct (hu_cpu _ _ _ _ _ Hu) as (_ & _ & H & _).
  rewrite H. exact (proj1 HeapUp.kernel1_rest).
Qed.

Lemma kernel3_low : direct_map_low HeapUp.kernel3.
Proof.
  intros x st Hst. rewrite kernel3_hhdm. unfold Booted.hhdm, VALLOC_RANGE_START.
  pose proof (tables_low HeapUp.kernel3 (2 ^ 45) ltac:(vm_compute; reflexivity) x st Hst). lia.
Qed.

Lemma malloc_free_roundtrip_witness :
  ∃ ptr k1 k2, malloc 100 HeapUp.kernel3 = Ok (ptr, k1) ∧ free ptr k1 = Ok (tt, k2).
Proof.
  destruct VmUp.kernel3_inv as (h & Hi & Hcs).
  destruct (malloc_free_roundtrip h HeapUp.kernel3 100 Hi (HeapUp.kernel3_lock _) (HeapUp.kernel3_lock _)
    (ex_intro _ _ HeapUp.kernel3_frame) Hcs kernel3_low ltac:(lia)) as (o & s & ptr & h1 & k1 & h2 & k2 & H1 & H2 & _).
  exists ptr, k1, k2. split; [exact H1|exact H2].
Defined.

Lemma malloc_gap_panics_witness : malloc 1024 HeapUp.kernel3 = Panic "no mem".
Proof.
  destruct VmUp.kernel3_inv as (h & Hi & Hcs).
  exact (malloc_gap_panics HeapUp.kernel3 1024 (HeapUp.kernel3_lock _) Hcs ltac:(lia)).
Defined.

Lemma calloc_overflow_witness : calloc (2 ^ 33) (2 ^ 31) HeapUp.kernel3 = Ok (0, HeapUp.kernel3).
Proof.
  exact (proj1 (calloc_overflow (2 ^ 33) (2 ^ 31) HeapUp.kernel3 ltac:(split; lia) ltac:(split; lia)
    ltac:(lia) ltac:(lia)) ltac:(lia)).
Defined.
