(* ===== verification/Str.v ===== *)
(** C strings: [libc/string.c], [libc/ctype.c] and the number parsers of
    [libc/stdlib.c].

    A [char *] that is only read is the function from an index to the byte it
    holds, so that a string literal and a string in memory are treated alike.
    Plain [char] is signed; the model keeps the byte, which is the same for
    (in)equality and for comparisons with letters and digits (a byte of 128 or
    more is below or above all of them, and in no class). *)
From stdpp Require Import base tactics list strings.
From Stdlib Require Import ZArith Lia Ascii.
From S2P Require Import Prelude.

Definition chr (a : ascii) : Z := Z.of_N (N_of_ascii a).
Definition bytes (s : string) : list Z := chr <$> String.list_ascii_of_string s.

Definition cstring : Type := Z → Z.
(** The string at address [s]; a string literal. *)
Definition at_ (m : mem_t) (s : Z) : cstring := λ i, read8 m (s + i).
Definition of_list (l : list Z) : cstring := λ i, if i <? 0 then 0 else default 0 (l !! Z.to_nat i).
Definition lit (s : string) : cstring := of_list (bytes s).
(** [s + n] *)
Definition advance (n : Z) (s : cstring) : cstring := λ i, s (n + i).

(** * [string.c] *)

(** The copying loops of [memmove]: upwards [n] bytes, downwards from [n]. *)
Fixpoint copy_up (n : nat) (m : mem_t) (dst src : Z) : mem_t :=
  match n with
  | O => m
  | S n' => copy_up n' (write8 m dst (read8 m src)) (dst + 1) (src + 1)
  end.
Fixpoint copy_down (n : nat) (m : mem_t) (dst src : Z) : mem_t :=
  match n with
  | O => m
  | S n' => copy_down n' (write8 m (dst + Z.of_nat n') (read8 m (src + Z.of_nat n'))) dst src
  end.

Definition memmove (dest src n : Z) : M mem_t Z :=
  (if dest <? src then modify (λ m, copy_up (Z.to_nat n) m dest src)
   else if src <? dest then modify (λ m, copy_down (Z.to_nat n) m dest src)
   else ret tt) ;;;
  ret dest.

Definition memcmp {S} (s1 s2 : cstring) (n : Z) : M S Z :=
  while_ (λ i,
    if i <? n then
      if negb (s1 i =? s2 i) then ret (inr (if s1 i <? s2 i then -1 else 1)) else ret (inl (i + 1))
    else ret (inr 0)) 0.

Definition strcmp {S} (s1 s2 : cstring) : M S Z :=
  while_ (λ i,
    if negb (s1 i =? 0) && (s1 i =? s2 i) then ret (inl (i + 1)) else ret (inr (s1 i - s2 i))) 0.

Definition strncmp {S} (s1 s2 : cstring) (n : Z) : M S Z :=
  let* i := while_ (λ i,
    if (i <? n) && negb (s1 i =? 0) && (s1 i =? s2 i) then ret (inl (i + 1)) else ret (inr i)) 0 in
  ret (if i =? n then 0 else s1 i - s2 i).

Definition strcpy (strDest strSrc : Z) : M mem_t Z :=
  while_ (λ i,
    let* c := gets (λ m, read8 m (strSrc + i)) in
    modify (λ m, write8 m (strDest + i) c) ;;;
    ret (if negb (c =? 0) then inl (i + 1) else inr strDest)) 0.

Definition strlen {S} (str : cstring) : M S Z :=
  while_ (λ i, ret (if negb (str i =? 0) then inl (i + 1) else inr i)) 0.

(** The index of the byte found; [None] is NULL. *)
Definition strchr {S} (s : cstring) (c : Z) : M S (option Z) :=
  while_ (λ i,
    ret (if negb (s i =? 0) then (if s i =? c then inr (Some i) else inl (i + 1))
         else inr (if c =? 0 then Some i else None))) 0.

(** * [ctype.c] *)

Definition toupper (c : Z) : Z := if (chr "a" <=? c) && (c <=? chr "z") then c - 32 else c.
Definition tolower (c : Z) : Z := if (chr "A" <=? c) && (c <=? chr "Z") then c + 32 else c.

(** * [strtoll] and [strtoull] *)

Definition digit_of (c : Z) : option Z :=
  if (chr "0" <=? c) && (c <=? chr "9") then Some (c - chr "0")
  else if (chr "a" <=? c) && (c <=? chr "z") then Some (c - chr "a" + 10)
  else if (chr "A" <=? c) && (c <=? chr "Z") then Some (c - chr "A" + 10)
  else None.

(** The prefix: the base and the number of characters to skip. *)
Definition number_base (str : cstring) (base : Z) : Z * Z :=
  if base =? 0 then
    if (str 0 =? chr "0") && ((str 1 =? chr "x") || (str 1 =? chr "X")) then (16, 2)
    else if (str 0 =? chr "0") && (str 1 =? chr "o") then (8, 2)
    else if (str 0 =? chr "0") && (str 1 =? chr "b") then (2, 2)
    else (10, 0)
  else (base, 0).

Definition strtoll {S} (str : cstring) (base : Z) : M S Z :=
  let neg := str 0 =? chr "-" in
  let str := if neg then advance 1 str else if str 0 =? chr "+" then advance 1 str else str in
  let '(base, skip) := number_base str base in
  let str := advance skip str in
  let* value := while_ (λ '(i, value),
    if str i =? 0 then ret (inr value)
    else match digit_of (str i) with
    | None => ret (inr value)
    | Some digit =>
        if base <=? digit then ret (inr value)
        else let* p := mul_i 64 value base in
             let* v := add_i 64 p digit in
             ret (inl (i + 1, v))
    end) (0, 0) in
  ret (if neg then - value else value).

Definition strtoull {S} (str : cstring) (base : Z) : M S Z :=
  let '(base, skip) := number_base str base in
  let str := advance skip str in
  while_ (λ '(i, value),
    if str i =? 0 then ret (inr value)
    else match digit_of (str i) with
    | None => ret (inr value)
    | Some digit =>
        if base <=? digit then ret (inr value)
        else ret (inl (i + 1, u64 (u64 (value * base) + digit)))
    end) (0, 0).
