(* ===== verification/StrInv.v ===== *)
(** The string functions compute what their list-level definitions say, and
    they terminate on every terminated string. *)
From stdpp Require Import base tactics list sets strings.
From Stdlib Require Import ZArith Lia Ascii.
From S2P Require Import Prelude Str.

(** [f] is a terminated string with the bytes [l]. *)
Record holds (f : cstring) (l : list Z) : Prop := mk_holds {
  holds_byte : ∀ i x, l !! i = Some x → f (Z.of_nat i) = x ∧ 0 < x;
  holds_end : f (Z.of_nat (length l)) = 0;
  holds_len : Z.of_nat (length l) < 2 ^ 63
}.

(** A state-preserving computation with a known result. *)
Lemma wp_eq {S A} (m : M S A) s (r : A) : wp m s (λ b s', b = r ∧ s' = s) → m s = Ok (r, s).
Proof. intros (a & s' & H & -> & ->)%wp_inv. done. Qed.

Lemma holds_lookup f l i : holds f l → 0 <= i < Z.of_nat (length l) →
  ∃ x, l !! Z.to_nat i = Some x ∧ f i = x ∧ 0 < x.
Proof.
  intros H Hi. destruct (lookup_lt_is_Some_2 l (Z.to_nat i)) as [x Hx]; [lia|].
  exists x. split; [done|]. destruct (holds_byte f l H _ _ Hx) as [Hf ?]. split; [|done]. rewrite <- Hf. f_equal. lia.
Qed.

Lemma holds_at f l i : holds f l → 0 <= i <= Z.of_nat (length l) → f i = default 0 (l !! Z.to_nat i).
Proof.
  intros H Hi. destruct (decide (i = Z.of_nat (length l))) as [->|Hne].
  - rewrite (holds_end f l H), Nat2Z.id. by rewrite lookup_ge_None_2.
  - destruct (holds_lookup f l i H ltac:(lia)) as (x & Hx & -> & _). by rewrite Hx.
Qed.

Lemma of_list_holds l : (∀ x, x ∈ l → 0 < x) → Z.of_nat (length l) < 2 ^ 63 → holds (of_list l) l.
Proof.
  intros Hp Hlen. split; [| |done].
  - intros i x Hx. unfold of_list. destruct (Z.ltb_spec (Z.of_nat i) 0); [lia|]. rewrite Nat2Z.id, Hx.
    split; [done|]. apply Hp. by eapply list_elem_of_lookup_2.
  - unfold of_list. destruct (Z.ltb_spec (Z.of_nat (length l)) 0); [lia|]. rewrite Nat2Z.id. by rewrite lookup_ge_None_2.
Qed.

Lemma holds_tail f x l : holds f (x :: l) → holds (advance 1 f) l.
Proof.
  intros [Hb He Hl]. cbn [length] in *. split; [| |lia].
  - intros i y Hy. unfold advance. replace (1 + Z.of_nat i) with (Z.of_nat (S i)) by lia. by apply Hb.
  - unfold advance. rewrite <- He. f_equal. lia.
Qed.

Lemma holds_head f x l : holds f (x :: l) → f 0 = x ∧ 0 < x.
Proof. intros H. exact (holds_byte f _ H 0%nat x eq_refl). Qed.

Lemma holds_drop f l n : (n <= length l)%nat → holds f l → holds (advance (Z.of_nat n) f) (drop n l).
Proof.
  intros Hn [Hb He Hl]. split.
  - intros i x Hx. rewrite lookup_drop in Hx. unfold advance. rewrite <- Nat2Z.inj_add. by apply Hb.
  - unfold advance. rewrite length_drop, <- He. f_equal. lia.
  - rewrite length_drop. lia.
Qed.

(** * [strlen] *)
Lemma strlen_spec {S} (s : S) f l : holds f l → strlen f s = Ok (Z.of_nat (length l), s).
Proof.
  intros H. pose proof (holds_len f l H). apply wp_eq. unfold strlen.
  apply (wp_while _ (λ n i s', s' = s ∧ 0 <= i ∧ i + n = Z.of_nat (length l)) _) with (n := Z.of_nat (length l)); [|lia|split_and!; lia || done].
  intros n i s' Hn (-> & Hi & Hin). apply wp_ret. destruct (Z.eqb_spec (f i) 0) as [E|E]; cbn.
  - destruct (decide (n = 0)) as [->|]; [split; [lia|done]|].
    destruct (holds_lookup f l i H ltac:(lia)) as (x & _ & ? & ?). lia.
  - exists (n - 1). destruct (decide (n = 0)) as [->|]; [|split_and!; (done || lia)].
    exfalso. apply E. replace i with (Z.of_nat (length l)) by lia. exact (holds_end f l H).
Qed.

(** * [strcmp] *)

(** The reference: the difference of the first bytes that differ. *)
Fixpoint cmp_bytes (l1 l2 : list Z) : Z :=
  match l1, l2 with
  | [], [] => 0
  | [], y :: _ => - y
  | x :: _, [] => x
  | x :: l1', y :: l2' => if x =? y then cmp_bytes l1' l2' else x - y
  end.

Lemma cmp_bytes_eq l1 l2 :
  (∀ x, x ∈ l1 → 0 < x) → (∀ x, x ∈ l2 → 0 < x) → cmp_bytes l1 l2 = 0 ↔ l1 = l2.
Proof.
  revert l2. induction l1 as [|x l1 IH]; intros [|y l2] H1 H2; cbn [cmp_bytes]; try done.
  - split; [|done]. pose proof (H2 y ltac:(left)). lia.
  - split; [|done]. pose proof (H1 x ltac:(left)). lia.
  - destruct (Z.eqb_spec x y) as [->|Hne]; [|split; [lia|congruence]].
    rewrite IH; [|intros; apply H1; by right|intros; apply H2; by right]. split; [by intros ->|by intros [= ->]].
Qed.

Lemma cmp_bytes_drop l1 l2 i :
  take i l1 = take i l2 → (i <= length l1)%nat → (i <= length l2)%nat →
  cmp_bytes l1 l2 = cmp_bytes (drop i l1) (drop i l2).
Proof.
  revert l1 l2. induction i as [|i IH]; intros l1 l2 Ht H1 H2; [by rewrite !drop_0|].
  destruct l1 as [|x l1], l2 as [|y l2]; cbn in *; try lia. injection Ht as -> Ht.
  rewrite Z.eqb_refl. apply IH; (done || lia).
Qed.

Lemma strcmp_spec {S} (s : S) f g l1 l2 :
  holds f l1 → holds g l2 → strcmp f g s = Ok (cmp_bytes l1 l2, s).
Proof.
  intros H1 H2. pose proof (holds_len f l1 H1). apply wp_eq. unfold strcmp.
  apply (wp_while _ (λ n i s', s' = s ∧ 0 <= i ∧ i + n = Z.of_nat (length l1) ∧ i <= Z.of_nat (length l2) ∧
    take (Z.to_nat i) l1 = take (Z.to_nat i) l2) _) with (n := Z.of_nat (length l1));
    [|lia|split_and!; lia || done].
  intros n i s' Hn (-> & Hi & Hin & Hi2 & Ht).
  rewrite (holds_at f l1 i H1), (holds_at g l2 i H2) by lia.
  rewrite (cmp_bytes_drop l1 l2 (Z.to_nat i)) by (done || lia).
  destruct (drop (Z.to_nat i) l1) as [|x r1] eqn:D1.
  - rewrite (lookup_ge_None_2 l1) by (apply (f_equal length) in D1; rewrite length_drop in D1; cbn in D1; lia).
    cbn. apply wp_ret. destruct (drop (Z.to_nat i) l2) as [|y r2] eqn:D2.
    + by rewrite (lookup_ge_None_2 l2) by (apply (f_equal length) in D2; rewrite length_drop in D2; cbn in D2; lia).
    + assert (l2 !! Z.to_nat i = Some y) as ->; [|done].
      rewrite <- (Nat.add_0_r (Z.to_nat i)), <- lookup_drop, D2. done.
  - assert (l1 !! Z.to_nat i = Some x) as E1 by (rewrite <- (Nat.add_0_r (Z.to_nat i)), <- lookup_drop, D1; done).
    pose proof (proj2 (holds_byte f l1 H1 _ _ E1)) as Hx. rewrite E1. cbn [default from_option id].
    assert (i < Z.of_nat (length l1)) by (apply lookup_lt_Some in E1; lia).
    destruct (drop (Z.to_nat i) l2) as [|y r2] eqn:D2.
    + rewrite (lookup_ge_None_2 l2) by (apply (f_equal length) in D2; rewrite length_drop in D2; cbn in D2; lia).
      cbn. replace (x =? 0) with false by lia. apply wp_ret. split; [lia|done].
    + assert (l2 !! Z.to_nat i = Some y) as E2 by (rewrite <- (Nat.add_0_r (Z.to_nat i)), <- lookup_drop, D2; done).
      rewrite E2. cbn [default from_option id cmp_bytes]. replace (x =? 0) with false by lia. cbn [negb andb id].
      destruct (Z.eqb_spec x y) as [->|Hne]; apply wp_ret; [|done].
      exists (n - 1). apply lookup_lt_Some in E2 as Hl2. split; [lia|]. split_and!; try (done || lia).
      replace (Z.to_nat (i + 1)) with (Datatypes.S (Z.to_nat i)) by lia.
      by rewrite (take_S_r l1 _ y), (take_S_r l2 _ y), Ht.
Qed.

Lemma strcmp_zero {S} (s : S) f g l1 l2 :
  holds f l1 → holds g l2 → (∃ r, strcmp f g s = Ok (r, s) ∧ (r = 0 ↔ l1 = l2)).
Proof.
  intros H1 H2. exists (cmp_bytes l1 l2). split; [by apply strcmp_spec|].
  apply cmp_bytes_eq; intros x (i & Hx)%list_elem_of_lookup_1.
  - apply (holds_byte f l1 H1 i x Hx).
  - apply (holds_byte g l2 H2 i x Hx).
Qed.

(** * [memmove] *)

Lemma read8_copy_up n m dst src x :
  dst < src →
  read8 (copy_up n m dst src) x =
    if (dst <=? x) && (x <? dst + Z.of_nat n) then read8 m (src + (x - dst)) else read8 m x.
Proof.
  revert m dst src. induction n as [|n IH]; intros m dst src H; cbn [copy_up].
  - destruct (Z.leb_spec dst x), (Z.ltb_spec x (dst + Z.of_nat 0)); cbn; try done; lia.
  - rewrite IH by lia. rewrite !read8_write8.
    destruct (Z.leb_spec (dst + 1) x), (Z.ltb_spec x (dst + 1 + Z.of_nat n)),
      (Z.leb_spec dst x), (Z.ltb_spec x (dst + Z.of_nat (S n))),
      (Z.eqb_spec (src + 1 + (x - (dst + 1))) dst), (Z.eqb_spec x dst); cbn; try lia; subst;
      try (rewrite (Z.mod_small (read8 _ _)) by apply read8_range); f_equal; lia.
Qed.

Lemma read8_copy_down n m dst src x :
  src < dst →
  read8 (copy_down n m dst src) x =
    if (dst <=? x) && (x <? dst + Z.of_nat n) then read8 m (src + (x - dst)) else read8 m x.
Proof.
  revert m. induction n as [|n IH]; intros m H; cbn [copy_down].
  - destruct (Z.leb_spec dst x), (Z.ltb_spec x (dst + Z.of_nat 0)); cbn; try done; lia.
  - rewrite IH by lia. rewrite !read8_write8.
    destruct (Z.leb_spec dst x), (Z.ltb_spec x (dst + Z.of_nat n)), (Z.ltb_spec x (dst + Z.of_nat (S n))),
      (Z.eqb_spec (src + (x - dst)) (dst + Z.of_nat n)), (Z.eqb_spec x (dst + Z.of_nat n)); cbn; try lia; subst;
      try (rewrite (Z.mod_small (read8 _ _)) by apply read8_range); f_equal; lia.
Qed.

(** (C30) [memmove] copies as if through a temporary buffer: whatever the
    overlap of the two ranges, afterwards the destination holds the bytes the
    source held before, and every other byte is unchanged. *)
Theorem memmove_correct dest src n m :
  0 <= n →
  ∃ m', memmove dest src n m = Ok (dest, m') ∧
    ∀ x, read8 m' x = if (dest <=? x) && (x <? dest + n) then read8 m (src + (x - dest)) else read8 m x.
Proof.
  intros Hn. unfold memmove, bind, modify, ret.
  destruct (Z.ltb_spec dest src) as [Hlt|]; [|destruct (Z.ltb_spec src dest) as [Hlt|]]; (eexists; split; [done|]); intros x.
  - rewrite read8_copy_up by done. by rewrite Z2Nat.id by lia.
  - rewrite read8_copy_down by done. by rewrite Z2Nat.id by lia.
  - replace src with dest by lia. destruct (_ && _); [f_equal; lia|done].
Qed.

(** * Number parsing *)

(** Digits are numbers below 36, written with digits and letters of either case. *)
Definition is_digit_char (d c : Z) : Prop := digit_of c = Some d.

Definition value (base : Z) (ds : list Z) : Z := foldl (λ v d, v * base + d) 0 ds.

Lemma digit_of_pos c d : digit_of c = Some d → 0 < c ∧ 0 <= d < 36.
Proof.
  unfold digit_of. change (chr "0") with 48. change (chr "9") with 57. change (chr "a") with 97.
  change (chr "z") with 122. change (chr "A") with 65. change (chr "Z") with 90.
  destruct (Z.leb_spec 48 c), (Z.leb_spec c 57), (Z.leb_spec 97 c), (Z.leb_spec c 122), (Z.leb_spec 65 c), (Z.leb_spec c 90);
    cbn; intros [= <-]; lia.
Qed.

Lemma value_app base ds d : value base (ds ++ [d]) = value base ds * base + d.
Proof. unfold value. by rewrite foldl_app. Qed.

Lemma value_nonneg base ds : 0 <= base → (∀ d, d ∈ ds → 0 <= d) → 0 <= value base ds.
Proof.
  intros Hb. induction ds as [|d ds IH] using rev_ind; intros Hd; [done|]. rewrite value_app.
  assert (0 <= value base ds) by (apply IH; intros e He; apply Hd; set_solver). pose proof (Hd d ltac:(set_solver)). nia.
Qed.

Lemma value_take_le base ds n :
  2 <= base → (∀ d, d ∈ ds → 0 <= d) → value base (take n ds) <= value base ds.
Proof.
  intros Hb. induction ds as [|d ds IH] using rev_ind; intros Hd; [by rewrite take_nil|].
  assert (∀ e, e ∈ ds → 0 <= e) as Hd' by (intros; apply Hd; set_solver).
  pose proof (value_nonneg base ds ltac:(lia) Hd'). pose proof (Hd d ltac:(set_solver)).
  destruct (decide (n <= length ds)%nat).
  - rewrite take_app_le by done. rewrite value_app. specialize (IH Hd'). nia.
  - rewrite take_ge; [done|]. rewrite length_app. cbn. lia.
Qed.

(** One round of the parsing loop reads one digit. *)
Section parse.
Context (f : cstring) (base : Z) (l ds : list Z).
Context (Hf : holds f l) (Hds : Forall2 is_digit_char ds l) (Hb : 2 <= base <= 36) (Hlt : ∀ d, d ∈ ds → d < base).
Context (bound : Z) (Hfit : value base ds < bound).
Set Default Proof Using "All".

Lemma parse_digit i :
  0 <= i < Z.of_nat (length ds) →
  ∃ d, ds !! Z.to_nat i = Some d ∧ digit_of (f i) = Some d ∧ 0 < f i ∧ 0 <= d < base.
Proof.
  intros Hi. pose proof (Forall2_length _ _ _ Hds) as Hlen.
  destruct (lookup_lt_is_Some_2 ds (Z.to_nat i)) as [d Hd]; [lia|].
  destruct (Forall2_lookup_l _ _ _ _ _ Hds Hd) as (c & Hc & Hdc). exists d.
  destruct (holds_lookup f l i Hf ltac:(lia)) as (c' & Hc' & Hfi & ?). rewrite Hc in Hc'. injection Hc' as <-.
  split_and!; [done|by rewrite Hfi|lia|by apply (digit_of_pos c)|]. apply Hlt. by eapply list_elem_of_lookup_2.
Qed.

Lemma parse_end : f (Z.of_nat (length ds)) = 0.
Proof. rewrite (Forall2_length _ _ _ Hds). exact (holds_end f l Hf). Qed.

Lemma digits_nonneg d : d ∈ ds → 0 <= d.
Proof.
  intros (i & Hi)%list_elem_of_lookup_1. destruct (Forall2_lookup_l _ _ _ _ _ Hds Hi) as (c & _ & Hd).
  by apply (digit_of_pos c).
Qed.

(** The value after one more digit. *)
Lemma parse_next i d :
  0 <= i < Z.of_nat (length ds) → ds !! Z.to_nat i = Some d →
  value base (take (Z.to_nat (i + 1)) ds) = value base (take (Z.to_nat i) ds) * base + d.
Proof. intros Hi Hd. replace (Z.to_nat (i + 1)) with (S (Z.to_nat i)) by lia. by rewrite (take_S_r _ _ d), value_app. Qed.

Lemma parse_bound n : 0 <= value base (take n ds) < bound.
Proof.
  pose proof (value_take_le base ds n ltac:(lia) digits_nonneg).
  split; [|lia]. apply value_nonneg; [lia|]. intros d Hd%elem_of_take. apply digits_nonneg.
  destruct Hd as (i & Hi & _). by eapply list_elem_of_lookup_2.
Qed.

Lemma parse_len : Z.of_nat (length ds) < 2 ^ 64.
Proof. rewrite (Forall2_length _ _ _ Hds). pose proof (holds_len f l Hf). lia. Qed.

Lemma parse_ll {S} (s : S) :
  bound <= 2 ^ 63 →
  while_ (λ '(i, value),
    if f i =? 0 then ret (inr value)
    else match digit_of (f i) with
    | None => ret (inr value)
    | Some digit =>
        if base <=? digit then ret (inr value)
        else let* p := mul_i 64 value base in
             let* v := add_i 64 p digit in
             ret (inl (i + 1, v))
    end) (0, 0) s = Ok (value base ds, s).
Proof.
  intros Hbound. apply wp_eq. apply (wp_while _ (λ n '(i, v) s', s' = s ∧ 0 <= i ∧ i + n = Z.of_nat (length ds) ∧
    v = value base (take (Z.to_nat i) ds)) _) with (n := Z.of_nat (length ds)); [|pose proof parse_len; lia|split_and!; (lia || done)].
  intros n [i v] s' Hn (-> & Hi & Hin & ->). destruct (decide (n = 0)) as [->|Hne].
  - replace i with (Z.of_nat (length ds)) by lia. rewrite parse_end. cbn. by rewrite Nat2Z.id, take_ge by done.
  - destruct (parse_digit i ltac:(lia)) as (d & Hd & -> & Hpos & Hdb). replace (f i =? 0) with false by lia.
    replace (base <=? d) with false by lia. pose proof (parse_next i d ltac:(lia) Hd) as Hnext.
    pose proof (parse_bound (Z.to_nat (i + 1))). pose proof (parse_bound (Z.to_nat i)).
    apply wp_bind. eapply wp_ok; [apply checked_ok; nia|].
    apply wp_bind. eapply wp_ok; [apply checked_ok; nia|]. wp_step.
    exists (n - 1). split_and!; (done || lia).
Qed.

Lemma parse_ull {S} (s : S) :
  bound <= 2 ^ 64 →
  while_ (λ '(i, value),
    if f i =? 0 then ret (inr value)
    else match digit_of (f i) with
    | None => ret (inr value)
    | Some digit =>
        if base <=? digit then ret (inr value)
        else ret (inl (i + 1, u64 (u64 (value * base) + digit)))
    end) (0, 0) s = Ok (value base ds, s).
Proof.
  intros Hbound. apply wp_eq. apply (wp_while _ (λ n '(i, v) s', s' = s ∧ 0 <= i ∧ i + n = Z.of_nat (length ds) ∧
    v = value base (take (Z.to_nat i) ds)) _) with (n := Z.of_nat (length ds)); [|pose proof parse_len; lia|split_and!; (lia || done)].
  intros n [i v] s' Hn (-> & Hi & Hin & ->). destruct (decide (n = 0)) as [->|Hne].
  - replace i with (Z.of_nat (length ds)) by lia. rewrite parse_end. cbn. by rewrite Nat2Z.id, take_ge by done.
  - destruct (parse_digit i ltac:(lia)) as (d & Hd & -> & Hpos & Hdb). replace (f i =? 0) with false by lia.
    replace (base <=? d) with false by lia. pose proof (parse_next i d ltac:(lia) Hd) as Hnext.
    pose proof (parse_bound (Z.to_nat (i + 1))). pose proof (parse_bound (Z.to_nat i)).
    wp_step. exists (n - 1). split_and!; try (done || lia).
    rewrite u64_add_l, u64_id by (unfold is_u64; lia). done.
Qed.
End parse.

(** The sign and the radix prefix of a numeral. *)
Inductive sign_prefix : list Z → bool → Prop :=
  | sign_none : sign_prefix [] false
  | sign_plus : sign_prefix [chr "+"] false
  | sign_minus : sign_prefix [chr "-"] true.

Inductive radix_prefix : Z → list Z → Z → Prop :=
  | radix_given base : 2 <= base <= 36 → radix_prefix base [] base
  | radix_dec : radix_prefix 0 [] 10
  | radix_hex : radix_prefix 0 (bytes "0x") 16
  | radix_HEX : radix_prefix 0 (bytes "0X") 16
  | radix_oct : radix_prefix 0 (bytes "0o") 8
  | radix_bin : radix_prefix 0 (bytes "0b") 2.

Lemma advance_0 f : ∀ i, advance 0 f i = f i.
Proof. intros i. unfold advance. f_equal. Qed.

Lemma holds_ext f g l : (∀ i, f i = g i) → holds f l → holds g l.
Proof. intros H [Hb He Hl]. split; [|by rewrite <- H|done]. intros i x Hx. rewrite <- H. by apply Hb. Qed.

Lemma digit_not_letter c d : digit_of c = Some d → d < 10 → c ≠ chr "x" ∧ c ≠ chr "X" ∧ c ≠ chr "o" ∧ c ≠ chr "b".
Proof. intros H Hd. split_and!; intros ->; vm_compute in H; injection H as <-; lia. Qed.

(** After the prefix the digits follow. *)
Lemma number_base_spec f base0 pre base l ds :
  radix_prefix base0 pre base → holds f (pre ++ l) → Forall2 is_digit_char ds l → (∀ d, d ∈ ds → d < base) →
  2 <= base <= 36 ∧ ∃ skip, number_base f base0 = (base, skip) ∧ holds (advance skip f) l.
Proof.
  intros Hp Hf Hds Hlt. assert (holds (advance (Z.of_nat (length pre)) f) l) as Hrest.
  { rewrite <- (drop_app_length pre l). apply holds_drop; [rewrite length_app; lia|done]. }
  destruct Hp as [base Hb| | | | |]; (split; [lia|]).
  { exists 0. split; [|done]. unfold number_base. by replace (base =? 0) with false by lia. }
  { exists 0. split; [|done]. unfold number_base. cbn [Z.eqb app] in *.
    assert (f 1 ≠ chr "x" ∧ f 1 ≠ chr "X" ∧ f 1 ≠ chr "o" ∧ f 1 ≠ chr "b" ∨ f 0 = 0) as [(?&?&?&?)|E].
    { destruct l as [|c [|c' l]]; [right; exact (holds_end f _ Hf)| |].
      - left. rewrite (holds_end f _ Hf : f 1 = 0). by split_and!.
      - left. inversion Hds as [|d ? ds' ? H1 H2]; subst. inversion H2 as [|d' ? ds2 ? H3 H4]; subst.
        rewrite (proj1 (holds_byte f _ Hf 1%nat c' eq_refl) : f 1 = c').
        apply (digit_not_letter c' d'); [done|]. apply Hlt. set_solver. }
    - rewrite (proj2 (Z.eqb_neq (f 1) (chr "x"))), (proj2 (Z.eqb_neq (f 1) (chr "X"))),
        (proj2 (Z.eqb_neq (f 1) (chr "o"))), (proj2 (Z.eqb_neq (f 1) (chr "b"))) by done.
      by rewrite !andb_false_r.
    - rewrite E. done. }
  all: exists 2; split; [|exact Hrest]; unfold number_base; cbn [Z.eqb];
    rewrite (proj1 (holds_byte f _ Hf 0%nat _ eq_refl) : f 0 = _), (proj1 (holds_byte f _ Hf 1%nat _ eq_refl) : f 1 = _); done.
Qed.

(** A numeral without sign does not start with one. *)
Lemma numeral_start f base0 pre base l ds :
  radix_prefix base0 pre base → holds f (pre ++ l) → Forall2 is_digit_char ds l →
  f 0 ≠ chr "-" ∧ f 0 ≠ chr "+".
Proof.
  intros Hp Hf Hds. assert (f 0 = 0 ∨ is_Some (digit_of (f 0))) as [->|[d Hd]]; [|done|].
  - destruct Hp; cbn [app] in *.
    1,2: destruct Hds as [|d c ds l Hd]; [left; exact (holds_end f _ Hf)|right];
      rewrite (proj1 (holds_byte f _ Hf 0%nat _ eq_refl) : f 0 = _); by eexists.
    all: right; rewrite (proj1 (holds_byte f _ Hf 0%nat _ eq_refl) : f 0 = _); by eexists.
  - split; intros E; rewrite E in Hd; done.
Qed.

(** [strtoll] parses numerals: an optional sign, a radix prefix when the
    base is 0, and digits of either case below the base give the number they
    denote, whenever its magnitude fits in 63 bits. *)
Theorem strtoll_correct {S} (s : S) f base0 base sg neg pre l ds :
  sign_prefix sg neg → radix_prefix base0 pre base → holds f (sg ++ pre ++ l) →
  Forall2 is_digit_char ds l → (∀ d, d ∈ ds → d < base) → value base ds < 2 ^ 63 →
  strtoll f base0 s = Ok (if neg then - value base ds else value base ds, s).
Proof.
  intros Hsg Hp Hf Hds Hlt Hfit. unfold strtoll.
  assert (∃ g, holds g (pre ++ l) ∧ (f 0 =? chr "-") = neg ∧
    (if f 0 =? chr "-" then advance 1 f else if f 0 =? chr "+" then advance 1 f else f) = g) as (g & Hg & -> & ->).
  { destruct Hsg.
    - exists f. destruct (numeral_start f base0 pre base l ds Hp Hf Hds) as [H1 H2].
      rewrite !(proj2 (Z.eqb_neq _ _)) by done. done.
    - exists (advance 1 f). destruct (holds_head f _ _ Hf) as [-> _]. by split; [apply (holds_tail f _ _ Hf)|].
    - exists (advance 1 f). destruct (holds_head f _ _ Hf) as [-> _]. by split; [apply (holds_tail f _ _ Hf)|]. }
  destruct (number_base_spec g base0 pre base l ds Hp Hg Hds Hlt) as (Hb & skip & -> & Hrest).
  by rewrite (bind_ok _ _ _ _ _ (parse_ll (advance skip g) base l ds Hrest Hds Hb Hlt (2 ^ 63) Hfit s ltac:(lia))).
Qed.

Lemma strtoll_correct_witness : strtoll (lit "-0x1F") 0 tt = Ok (-31, tt).
Proof.
  apply (strtoll_correct tt (lit "-0x1F") 0 16 [chr "-"] true (bytes "0x") (bytes "1F") [1; 15]).
  - apply sign_minus.
  - apply radix_hex.
  - apply of_list_holds; [|done]. apply Forall_forall. repeat constructor.
  - repeat constructor.
  - intros d Hd. rewrite !elem_of_cons, elem_of_nil in Hd. lia.
  - reflexivity.
Defined.

Lemma memmove_correct_witness :
  ∃ m', memmove 101 100 10 (λ x, x) = Ok (101, m') ∧ read8 m' 105 = 104.
Proof.
  destruct (memmove_correct 101 100 10 (λ x, x) ltac:(lia)) as (m' & H1 & H2).
  exists m'. split; [exact H1|rewrite H2; reflexivity].
Defined.
