(* ===== verification/Kbd.v ===== *)
(** Keyboard and mouse: the two ring buffers ([drivers/keyboard.c],
    [drivers/x86_64/ps2.c]), the interrupt handler that fills them
    ([interupts/ps2.c]) and the cursor ([drivers/mouse.c]).  Pixels drawn by the
    cursor go to the framebuffer and are not part of the state. *)
From stdpp Require Import base tactics list gmap sets strings.
From Stdlib Require Import ZArith Lia.
From S2P Require Import Prelude Bits State Spinlock Str.

(** * [drivers/keyboard.c] *)

Definition get_keyboard : M kernel ring := gets (λ k, keyboard (k_dev k)).
Definition put_keyboard (r : ring) : M kernel unit := modify (λ k, set_dev k (set_keyboard (k_dev k) r)).

Definition kbdDevicePush (c : Z) : M kernel unit :=
  let* lock1r := spinlock_lock keyboard_buffer_lock in
  let* r := get_keyboard in
  let next := u8 (rg_write r + 1) in
  if next =? rg_read r then spinlock_unlock keyboard_buffer_lock lock1r
  else
    put_keyboard (mk_ring next (rg_read r) (<[Z.to_nat (rg_write r) := u8 c]> (rg_buf r))) ;;;
    spinlock_unlock keyboard_buffer_lock lock1r.

(** [return_data] is the list of the bytes stored, first one first. *)
Definition kbdDeviceRead (read_length : Z) : M kernel (Z * list Z) :=
  let* lock1r := spinlock_lock keyboard_buffer_lock in
  let* r := while_ (λ '(bytes_read, return_data),
    if bytes_read <? read_length then
      let* r := get_keyboard in
      if rg_read r =? rg_write r then ret (inr (bytes_read, return_data))
      else
        put_keyboard (mk_ring (rg_write r) (u8 (rg_read r + 1)) (rg_buf r)) ;;;
        ret (inl (bytes_read + 1, return_data ++ [default 0 (rg_buf r !! Z.to_nat (rg_read r))]))
    else ret (inr (bytes_read, return_data))) (0, []) in
  spinlock_unlock keyboard_buffer_lock lock1r ;;;
  ret r.

Definition kbdDeviceWrite (write_length : Z) : M kernel Z := ret (-1).

(** * The raw buffer of [drivers/x86_64/ps2.c] *)

Definition get_ps2Kbd : M kernel ring := gets (λ k, ps2Kbd (k_dev k)).
Definition put_ps2Kbd (r : ring) : M kernel unit := modify (λ k, set_dev k (set_ps2Kbd (k_dev k) r)).

(** [for (i = 0; i < read_length; i++)] with [n] rounds left. *)
Fixpoint ps2Kbd_read_loop (n : nat) (bytes_read : Z) (return_data : list Z) : M kernel (Z * list Z) :=
  match n with
  | O => ret (bytes_read, return_data)
  | S n' =>
      let* r := get_ps2Kbd in
      if rg_write r =? rg_read r then ret (bytes_read, return_data)
      else
        put_ps2Kbd (mk_ring (rg_write r) (u8 (rg_read r + 1)) (rg_buf r)) ;;;
        ps2Kbd_read_loop n' (bytes_read + 1) (return_data ++ [default 0 (rg_buf r !! Z.to_nat (rg_read r))])
  end.
Definition ps2KbdDeviceRead (read_length : Z) : M kernel (Z * list Z) :=
  ps2Kbd_read_loop (Z.to_nat read_length) 0 [].

Definition ps2KbdDeviceWrite (write_length : Z) : M kernel Z := ret (-1).

(** * [drivers/mouse.c] *)

Definition MOUSE_LB : Z := 1.
Definition MOUSE_RB : Z := 2.
Definition MOUSE_MB : Z := 4.
Definition MOUSE_B4 : Z := 8.
Definition MOUSE_B5 : Z := 16.

Record mouse_ev_t := mk_mouse_ev { ev_buttons : Z; ev_x : Z; ev_y : Z; ev_z : Z }.

Section mouse.
(** Size of the framebuffer. *)
Context (FB_WIDTH FB_HEIGHT : Z).

Definition update_cursor (dx dy : Z) : M kernel unit :=
  let* d := gets k_dev in
  let* x := add_i 32 (cursor_x d) dx in
  let* y := add_i 32 (cursor_y d) dy in
  let x := if x <? 0 then 0 else x in
  let x := if FB_WIDTH <=? x then FB_WIDTH - 1 else x in
  let y := if y <? 0 then 0 else y in
  let y := if FB_HEIGHT <=? y then FB_HEIGHT - 1 else y in
  modify (λ k, set_dev k (set_cursor (k_dev k) (is_mouse_test d) x y)).

Definition enable_mouse_test : M kernel unit :=
  modify (λ k, let d := k_dev k in set_dev k (set_cursor d 1 (cursor_x d) (cursor_y d))) ;;;
  update_cursor 0 0.

Definition handle_mouse_event (event : mouse_ev_t) : M kernel unit :=
  let* test := gets (λ k, is_mouse_test (k_dev k)) in
  if negb (test =? 0) then update_cursor (ev_x event) (ev_y event) else ret tt.

(** * [interupts/ps2.c] *)

Definition ascii_table (entries : list (Z * string)) (scancode : Z) : Z :=
  foldr (λ '(first, s) rest,
    if (first <=? scancode) && (scancode <? first + Z.of_nat (String.length s))
    then default 0 (bytes s !! Z.to_nat (scancode - first)) else rest) 0 entries.

Definition asciiNoShift (scancode : Z) : Z :=
  if scancode =? 0x1C then 10 else if scancode =? 0x0E then 8
  else ascii_table [(0x02, "1234567890-="); (0x10, "qwertyuiop[]"); (0x1E, "asdfghjkl;'`");
                    (0x2C, "zxcvbnm,./"); (0x39, " ")]%string scancode.

(** The double quote is written by its code. *)
Definition asciiShift (scancode : Z) : Z :=
  if scancode =? 0x1C then 10 else if scancode =? 0x0E then 8 else if scancode =? 0x28 then 34
  else ascii_table [(0x02, "!@#$%^&*()_+"); (0x10, "QWERTYUIOP{}"); (0x1E, "ASDFGHJKL:"); (0x29, "~");
                    (0x2C, "ZXCVBNM<>?"); (0x39, " ")]%string scancode.

Definition bit (x mask : Z) : bool := negb (Z.land x mask =? 0).

(** The event decoded from a packet. *)
Definition mouse_event (buf : list Z) : mouse_ev_t :=
  let b n := default 0 (buf !! n) in
  let x := i8 (b 1%nat - (if bit (b 0%nat) 0x10 then 0x100 else 0)) in
  let y := i8 (b 2%nat - (if bit (b 0%nat) 0x20 then 0x100 else 0)) in
  let z := i8 (Z.land (b 3%nat) 0x7 * (if bit (b 3%nat) 0x8 then -1 else 1)) in
  let buttons :=
    Z.lor (Z.lor (Z.lor (Z.lor (if bit (b 0%nat) 1 then MOUSE_LB else 0) (if bit (b 0%nat) 2 then MOUSE_RB else 0))
      (if bit (b 0%nat) 4 then MOUSE_MB else 0)) (if bit (b 0%nat) 0x10 then MOUSE_B4 else 0))
      (if bit (b 0%nat) 0x20 then MOUSE_B5 else 0) in
  mk_mouse_ev buttons x (i8 (- y)) z.

(** The label [raw]: the scancode goes to the raw buffer if there is room. *)
Definition ps2_raw (scancode : Z) : M kernel unit :=
  let* r := get_ps2Kbd in
  let next_head := u8 (rg_write r + 1) in
  if negb (next_head =? rg_read r) then
    put_ps2Kbd (mk_ring next_head (rg_read r) (<[Z.to_nat (rg_write r) := scancode]> (rg_buf r)))
  else ret tt.

Definition ps2_key (scancode : Z) : M kernel unit :=
  let* d := gets k_dev in
  let* n := add_i 32 (ps2InteruptsTriggered d) 1 in
  modify (λ k, set_dev k (set_keys (k_dev k) n (shiftPressed d) (extended d))) ;;;
  if scancode =? 0xE0 then
    modify (λ k, set_dev k (set_keys (k_dev k) n (shiftPressed d) 1)) ;;; ps2_raw scancode
  else if scancode =? 0x2A then
    modify (λ k, set_dev k (set_keys (k_dev k) n 1 (extended d))) ;;; ps2_raw scancode
  else if scancode =? 0xAA then
    modify (λ k, set_dev k (set_keys (k_dev k) n 0 (extended d))) ;;; ps2_raw scancode
  else if bit scancode 0x80 then ps2_raw scancode
  else
    kbdDevicePush (if negb (shiftPressed d =? 0) then asciiShift scancode else asciiNoShift scancode) ;;;
    (if extended d =? 1 then
       modify (λ k, set_dev k (set_keys (k_dev k) n (shiftPressed d) 0))
     else ret tt) ;;;
    ps2_raw scancode.

Definition ps2_mouse (scancode : Z) : M kernel unit :=
  modify (λ k, let d := k_dev k in
    set_dev k (set_mouse d (mouse_ptr d + 1) (<[Z.to_nat (mouse_ptr d) := scancode]> (mouse_buffer d)))) ;;;
  let* d := gets k_dev in
  if mouse_ptr d =? 3 then
    handle_mouse_event (mouse_event (mouse_buffer d)) ;;;
    modify (λ k, set_dev k (set_mouse (k_dev k) 0 (mouse_buffer (k_dev k))))
  else ret tt.

(** [input]: what the controller's status and data ports return, one pair per
    round; when the list is used up the status bit is clear. *)
Fixpoint ps2_isr (input : list (Z * Z)) : M kernel unit :=
  match input with
  | [] => ret tt
  | (status, scancode) :: input' =>
      if negb (bit status 1) then ret tt
      else
        (if negb (bit status 0x20) then ps2_key scancode else ps2_mouse scancode) ;;;
        ps2_isr input'
  end.
End mouse.
