(* ===== verification/KbdInv.v ===== *)
(** The keyboard buffer is a bounded FIFO queue, and the raw scancode buffer
    too; the cursor stays on the screen. *)
From stdpp Require Import base tactics list gmap sets strings.
From Stdlib Require Import ZArith Lia.
From S2P Require Import Prelude Bits State Spinlock Str StrInv Kbd.

Record ring_ok (r : ring) : Prop := mk_ring_ok {
  ro_write : 0 <= rg_write r < 256;
  ro_read : 0 <= rg_read r < 256;
  ro_buf : length (rg_buf r) = 256%nat
}.

Definition rlen (r : ring) : Z := (rg_write r - rg_read r) mod 256.
Definition cell (r : ring) (i : Z) : Z := default 0 (rg_buf r !! Z.to_nat ((rg_read r + i) mod 256)).
(** What the buffer holds, oldest first. *)
Definition contents (r : ring) : list Z := cell r <$> seqZ 0 (rlen r).

Lemma length_contents r : Z.of_nat (length (contents r)) = rlen r.
Proof. unfold contents. rewrite length_fmap, length_seqZ. pose proof (Z.mod_pos_bound (rg_write r - rg_read r) 256). unfold rlen. lia. Qed.

Definition push_ring (c : Z) (r : ring) : ring :=
  mk_ring (u8 (rg_write r + 1)) (rg_read r) (<[Z.to_nat (rg_write r) := c]> (rg_buf r)).
Definition pop_ring (r : ring) : ring := mk_ring (rg_write r) (u8 (rg_read r + 1)) (rg_buf r).

Lemma full_ring r : ring_ok r → u8 (rg_write r + 1) = rg_read r ↔ rlen r = 255.
Proof. intros [W R _]. unfold rlen, u8. change (2 ^ 8) with 256. Z.div_mod_to_equations. lia. Qed.

Lemma empty_ring r : ring_ok r → rg_read r = rg_write r ↔ rlen r = 0.
Proof. intros [W R _]. unfold rlen. Z.div_mod_to_equations. lia. Qed.

Lemma push_ring_ok r c :
  ring_ok r → rlen r < 255 → ring_ok (push_ring c r) ∧ contents (push_ring c r) = contents r ++ [c].
Proof.
  intros Ho Hl. pose proof Ho as [W R B]. split.
  - split; cbn; [|done|by rewrite length_insert]. unfold u8. apply Z.mod_pos_bound. lia.
  - assert (rlen (push_ring c r) = rlen r + 1) as Hlen.
    { unfold rlen, push_ring, u8 in *. cbn. change (2 ^ 8) with 256 in *. Z.div_mod_to_equations. lia. }
    unfold contents. rewrite Hlen. assert (0 <= rlen r) by (unfold rlen; apply Z.mod_pos_bound; lia).
    rewrite seqZ_app by lia. rewrite fmap_app. change (seqZ (0 + rlen r) 1) with [0 + rlen r]. cbn [fmap list_fmap]. f_equal.
    + apply list_fmap_ext. intros j i (-> & Hj)%lookup_seqZ. unfold cell, push_ring. cbn.
      rewrite list_lookup_insert_ne; [done|]. unfold rlen in *. Z.div_mod_to_equations. lia.
    + f_equal. unfold cell, push_ring. cbn.
      replace ((rg_read r + (0 + rlen r)) mod 256) with (rg_write r) by (unfold rlen; Z.div_mod_to_equations; lia).
      rewrite list_lookup_insert_eq; [done|]. lia.
Qed.

Lemma pop_ring_ok r :
  ring_ok r → rg_read r ≠ rg_write r →
  ring_ok (pop_ring r) ∧ contents r = default 0 (rg_buf r !! Z.to_nat (rg_read r)) :: contents (pop_ring r).
Proof.
  intros Ho Hne. pose proof Ho as [W R B]. split.
  - split; cbn; [done| |done]. unfold u8. apply Z.mod_pos_bound. lia.
  - assert (rlen r = 1 + rlen (pop_ring r)) as Hlen.
    { unfold rlen, pop_ring, u8 in *. cbn. change (2 ^ 8) with 256 in *. Z.div_mod_to_equations. lia. }
    assert (0 <= rlen (pop_ring r)) by (unfold rlen; apply Z.mod_pos_bound; lia).
    unfold contents at 1. rewrite Hlen, seqZ_app by lia. rewrite fmap_app. change (seqZ 0 1) with [0].
    cbn [fmap list_fmap app]. f_equal.
    + unfold cell. rewrite Z.add_0_r, Z.mod_small by lia. done.
    + unfold contents. replace (seqZ (0 + 1) (rlen (pop_ring r))) with (Z.add 1 <$> seqZ 0 (rlen (pop_ring r))) by (by rewrite fmap_add_seqZ).
      rewrite <- list_fmap_compose.
      apply list_fmap_ext. intros j i (-> & Hj)%lookup_seqZ. unfold cell, pop_ring. cbn. do 3 f_equal.
      unfold u8. change (2 ^ 8) with 256. rewrite Zplus_mod_idemp_l. f_equal. lia.
Qed.

(** * The abstract queue *)

Inductive kbd_op := Push (c : Z) | Read (n : Z).

(** What each operation gives back and leaves: at most 255 bytes are kept,
    pushing on a full queue drops the byte, reading takes the oldest bytes. *)
Definition queue_step (q : list Z) (op : kbd_op) : list Z * list Z :=
  match op with
  | Push c => ([], if Z.of_nat (length q) <? 255 then q ++ [u8 c] else q)
  | Read n => (take (Z.to_nat n) q, drop (Z.to_nat n) q)
  end.
Fixpoint queue_run (q : list Z) (ops : list kbd_op) : list (list Z) * list Z :=
  match ops with
  | [] => ([], q)
  | op :: ops' =>
      let '(out, q1) := queue_step q op in
      let '(outs, q2) := queue_run q1 ops' in
      (out :: outs, q2)
  end.

(** The same operations on the keyboard device. *)
Definition kbd_step (op : kbd_op) : M kernel (list Z) :=
  match op with
  | Push c => kbdDevicePush c ;;; ret []
  | Read n => let* r := kbdDeviceRead n in ret (snd r)
  end.
Fixpoint kbd_run (ops : list kbd_op) : M kernel (list (list Z)) :=
  match ops with
  | [] => ret []
  | op :: ops' =>
      let* out := kbd_step op in
      let* outs := kbd_run ops' in
      ret (out :: outs)
  end.

(** * Locked updates of the buffer *)

Definition with_keyboard (r : ring) (k : kernel) : kernel := set_dev k (set_keyboard (k_dev k) r).

Lemma unlock_keyboard k r :
  can_lock keyboard_buffer_lock k →
  spinlock_unlock keyboard_buffer_lock (cr8 (k_cpu k)) (with_keyboard r (locked keyboard_buffer_lock k)) =
    Ok (tt, with_keyboard r k).
Proof.
  intros [Hirql Hfree]. rewrite spinlock_unlock_ok by (cbn; lia). do 2 f_equal.
  destruct k as [m hh cpu locks pm he pgs sc ms dev]. unfold with_keyboard, locked, set_dev, set_cpu, set_locks. cbn in *.
  replace (({[keyboard_buffer_lock]} ∪ locks) ∖ {[keyboard_buffer_lock]}) with locks
    by (rewrite difference_union_distr_l_L, difference_diag_L, union_empty_l_L, difference_disjoint_L; [done|set_solver]).
  by destruct cpu.
Qed.

Lemma with_keyboard_id k : with_keyboard (keyboard (k_dev k)) k = k.
Proof. by destruct k as [? ? ? ? ? ? ? ? ? []]. Qed.

Lemma with_keyboard_lock r k : can_lock keyboard_buffer_lock k → can_lock keyboard_buffer_lock (with_keyboard r k).
Proof. done. Qed.

Lemma push_spec k c :
  can_lock keyboard_buffer_lock k → ring_ok (keyboard (k_dev k)) →
  ∃ r, kbdDevicePush c k = Ok (tt, with_keyboard r k) ∧ ring_ok r ∧
    contents r = snd (queue_step (contents (keyboard (k_dev k))) (Push c)).
Proof.
  intros Hl Ho. set (r := keyboard (k_dev k)) in *. unfold kbdDevicePush.
  rewrite (bind_ok _ _ _ _ _ (spinlock_lock_ok _ _ Hl)). unfold get_keyboard, put_keyboard, bind, gets, modify.
  change (keyboard (k_dev (locked keyboard_buffer_lock k))) with r. cbn [queue_step snd]. rewrite length_contents.
  pose proof (Z.mod_pos_bound (rg_write r - rg_read r) 256 ltac:(lia)) as Hb. pose proof (full_ring r Ho) as Hfull.
  destruct (Z.eqb_spec (u8 (rg_write r + 1)) (rg_read r)) as [E|E].
  - exists r. split_and!; [|done|].
    + rewrite <- (with_keyboard_id (locked keyboard_buffer_lock k)). exact (unlock_keyboard k r Hl).
    + rewrite (proj2 (Z.ltb_ge _ _)); [done|]. apply Hfull in E. lia.
  - fold (rlen r) in Hb. assert (rlen r ≠ 255) by (intros H; by apply Hfull in H). assert (rlen r < 255) as Hlt by lia.
    exists (push_ring (u8 c) r). destruct (push_ring_ok r (u8 c) Ho Hlt) as [Ho' Hc]. split_and!; [|done|].
    + exact (unlock_keyboard k (push_ring (u8 c) r) Hl).
    + by rewrite (proj2 (Z.ltb_lt _ _) Hlt).
Qed.

(** The state and the data after reading up to [n] bytes. *)
Definition read_done (k : kernel) (n : Z) (q : list Z) (a : Z * list Z) (k' : kernel) : Prop :=
  ∃ r, a = (Z.of_nat (length (take (Z.to_nat n) q)), take (Z.to_nat n) q) ∧
    k' = with_keyboard r k ∧ ring_ok r ∧ contents r = drop (Z.to_nat n) q.

Lemma read_finish k n q r :
  let j := Z.min n (Z.of_nat (length q)) in
  0 <= n → can_lock keyboard_buffer_lock k → ring_ok r → contents r = drop (Z.to_nat j) q →
  wp (bind (spinlock_unlock keyboard_buffer_lock (cr8 (k_cpu k))) (λ _, ret (j, take (Z.to_nat j) q)))
    (with_keyboard r (locked keyboard_buffer_lock k)) (read_done k n q).
Proof.
  intros j Hn Hl Ho Hc. apply wp_bind. eapply wp_ok; [by apply unlock_keyboard|]. apply wp_ret. exists r.
  assert (take (Z.to_nat j) q = take (Z.to_nat n) q ∧ drop (Z.to_nat j) q = drop (Z.to_nat n) q) as [Ht Hd].
  { unfold j. destruct (decide (n <= Z.of_nat (length q))); [by rewrite Z.min_l by lia|].
    rewrite Z.min_r, Nat2Z.id by lia. rewrite !take_ge, !drop_ge by lia. done. }
  rewrite <- Ht, <- Hd. split_and!; try done. f_equal. rewrite length_take. unfold j. lia.
Qed.

Lemma read_spec k n :
  can_lock keyboard_buffer_lock k → ring_ok (keyboard (k_dev k)) → 0 <= n →
  wp (kbdDeviceRead n) k (read_done k n (contents (keyboard (k_dev k)))).
Proof.
  intros Hl Ho Hn. set (q := contents (keyboard (k_dev k))).
  unfold kbdDeviceRead. apply wp_bind, wp_spinlock_lock; [done|]. set (k0 := locked _ k). apply wp_bind.
  set (j0 := Z.min n (Z.of_nat (length q))).
  assert (0 <= rlen (keyboard (k_dev k)) < 256) as Hq by (unfold rlen; apply Z.mod_pos_bound; lia).
  rewrite <- length_contents in Hq. fold q in Hq.
  apply (wp_while _ (λ m '(b, data) s, ∃ r, s = with_keyboard r k0 ∧ ring_ok r ∧ 0 <= b <= j0 ∧ b + m = Z.of_nat (length q) ∧
    data = take (Z.to_nat b) q ∧ contents r = drop (Z.to_nat b) q)
    (λ a s', wp _ s' _)) with (n := Z.of_nat (length q)); [|lia|].
  - intros m [b data] s Hm (r & -> & Hor & Hb & Hbm & -> & Hc).
    assert (b = j0 → wp (bind (spinlock_unlock keyboard_buffer_lock (cr8 (k_cpu k))) (λ _, ret (b, take (Z.to_nat b) q)))
      (with_keyboard r k0) (read_done k n q)) as Hdone by (intros ->; by apply read_finish).
    destruct (Z.ltb_spec b n) as [Hlt|Hge].
    2: { apply wp_ret, Hdone. unfold j0 in *. lia. }
    unfold get_keyboard. apply wp_bind, wp_gets. cbn [with_keyboard set_dev set_keyboard k_dev keyboard].
    pose proof (empty_ring r Hor) as He. pose proof (length_contents r) as Hlc. rewrite Hc, length_drop in Hlc.
    destruct (Z.eqb_spec (rg_read r) (rg_write r)) as [E|E].
    + apply wp_ret, Hdone. apply He in E. unfold j0 in *. lia.
    + destruct (pop_ring_ok r Hor E) as [Hor' Hc']. unfold put_keyboard. wp_step.
      assert (rlen r ≠ 0) by naive_solver. rewrite Hc in Hc'.
      assert (q !! Z.to_nat b = Some (default 0 (rg_buf r !! Z.to_nat (rg_read r)))) as Hqb.
      { rewrite <- (Nat.add_0_r (Z.to_nat b)), <- lookup_drop, Hc'. done. }
      exists (m - 1). split; [lia|]. exists (pop_ring r). split_and!; try (done || lia).
      * replace (Z.to_nat (b + 1)) with (S (Z.to_nat b)) by lia. by rewrite (take_S_r _ _ _ Hqb).
      * replace (Z.to_nat (b + 1)) with (Z.to_nat b + 1)%nat by lia. by rewrite <- drop_drop, Hc'.
  - exists (keyboard (k_dev k)). split_and!; try (done || lia).
    exact (eq_sym (with_keyboard_id k0)).
Qed.

Lemma kbd_step_spec k op :
  can_lock keyboard_buffer_lock k → ring_ok (keyboard (k_dev k)) → (∀ n, op = Read n → 0 <= n) →
  let q := contents (keyboard (k_dev k)) in
  ∃ r, kbd_step op k = Ok (fst (queue_step q op), with_keyboard r k) ∧ ring_ok r ∧ contents r = snd (queue_step q op).
Proof.
  intros Hl Ho Hn q. destruct op as [c|n]; unfold kbd_step.
  - destruct (push_spec k c Hl Ho) as (r & H & ? & ?). exists r. by rewrite (bind_ok _ _ _ _ _ H).
  - destruct (wp_inv _ _ _ (read_spec k n Hl Ho (Hn n eq_refl))) as (a & k' & H & r & -> & -> & ? & ?).
    exists r. by rewrite (bind_ok _ _ _ _ _ H).
Qed.

(** (C23) The keyboard device refines a bounded FIFO queue: for every sequence
    of pushes and reads, from any well-formed buffer, every operation returns,
    each read yields exactly what the queue of at most 255 bytes yields, the
    buffer ends up holding the queue's contents, and nothing else of the kernel
    changes. *)
Theorem kbd_refines_queue ops k :
  can_lock keyboard_buffer_lock k → ring_ok (keyboard (k_dev k)) → (∀ n, Read n ∈ ops → 0 <= n) →
  ∃ r, let '(outs, q) := queue_run (contents (keyboard (k_dev k))) ops in
    kbd_run ops k = Ok (outs, with_keyboard r k) ∧ ring_ok r ∧ contents r = q.
Proof.
  revert k. induction ops as [|op ops IH]; intros k Hl Ho Hn; cbn [queue_run kbd_run].
  - exists (keyboard (k_dev k)). by rewrite with_keyboard_id.
  - destruct (kbd_step_spec k op Hl Ho) as (r & H & Ho' & Hc); [intros n ->; apply Hn; by left|].
    destruct (queue_step _ op) as [out q1] eqn:E. cbn in H, Hc.
    destruct (IH (with_keyboard r k) (with_keyboard_lock r k Hl) Ho') as (r' & H'); [intros n Hin; apply Hn; by right|].
    cbn [with_keyboard set_dev set_keyboard k_dev keyboard] in H'. rewrite Hc in H'.
    destruct (queue_run q1 ops) as [outs q2]. destruct H' as (H1 & H2 & H3). exists r'. split_and!; try done.
    rewrite (bind_ok _ _ _ _ _ H). by rewrite (bind_ok _ _ _ _ _ H1).
Qed.

Lemma kbd_refines_queue_witness :
  ∃ r, kbd_run [Push 104; Push 105; Read 1; Push 33; Read 5] (kernel0 0) =
         Ok ([[]; []; [104]; []; [105; 33]], with_keyboard r (kernel0 0)).
Proof.
  destruct (kbd_refines_queue [Push 104; Push 105; Read 1; Push 33; Read 5] (kernel0 0)) as (r & H & _).
  - split; [cbn; unfold IRQL_DISPATCH; lia|apply not_elem_of_empty].
  - split; [cbn; lia|cbn; lia|reflexivity].
  - intros n Hn. rewrite !elem_of_cons in Hn. set_solver by lia.
  - exists r. exact H.
Defined.

(** * The raw buffer *)

Definition with_ps2Kbd (r : ring) (k : kernel) : kernel := set_dev k (set_ps2Kbd (k_dev k) r).

Lemma ps2_raw_spec k c :
  ring_ok (ps2Kbd (k_dev k)) →
  ∃ r, ps2_raw c k = Ok (tt, with_ps2Kbd r k) ∧ ring_ok r ∧
    contents r = (if Z.of_nat (length (contents (ps2Kbd (k_dev k)))) <? 255
                  then contents (ps2Kbd (k_dev k)) ++ [c] else contents (ps2Kbd (k_dev k))).
Proof.
  intros Ho. set (r := ps2Kbd (k_dev k)) in *. unfold ps2_raw, get_ps2Kbd, put_ps2Kbd, bind, gets. fold r.
  rewrite length_contents. pose proof (full_ring r Ho) as Hfull.
  assert (0 <= rlen r < 256) by (unfold rlen; apply Z.mod_pos_bound; lia).
  destruct (Z.eqb_spec (u8 (rg_write r + 1)) (rg_read r)) as [E|E]; cbn [negb].
  - exists r. split_and!; [by destruct k as [? ? ? ? ? ? ? ? ? []]|done|].
    rewrite (proj2 (Z.ltb_ge _ _)); [done|]. apply Hfull in E. lia.
  - assert (rlen r ≠ 255) by (intros H'; by apply Hfull in H'). assert (rlen r < 255) as Hlt by lia.
    exists (push_ring c r). destruct (push_ring_ok r c Ho Hlt) as [Ho' Hc]. split_and!; [done..|].
    by rewrite (proj2 (Z.ltb_lt _ _) Hlt).
Qed.

(** * The interrupt handler *)

Section isr.
Context (FB_WIDTH FB_HEIGHT : Z) (HW : 0 < FB_WIDTH < 2 ^ 30) (HH : 0 < FB_HEIGHT < 2 ^ 30).

(** Every index the handler uses is in bounds, and the cursor is on the screen. *)
Record dev_ok (d : dev_t) : Prop := mk_dev_ok {
  do_kbd : ring_ok (keyboard d);
  do_ps2 : ring_ok (ps2Kbd d);
  do_ptr : 0 <= mouse_ptr d < 3;
  do_buf : length (mouse_buffer d) = 4%nat;
  do_x : 0 <= cursor_x d < FB_WIDTH;
  do_y : 0 <= cursor_y d < FB_HEIGHT
}.

(** The handler changes devices only. *)
Definition dev_step (n : Z) (k k' : kernel) : Prop :=
  ∃ d, k' = set_dev k d ∧ dev_ok d ∧ ps2InteruptsTriggered d = ps2InteruptsTriggered (k_dev k) + n.

Set Default Proof Using "All".

Lemma ps2_raw_dev k c :
  dev_ok (k_dev k) → wp (ps2_raw c) k (λ _ k', dev_step 0 k k').
Proof.
  intros Hd. destruct (ps2_raw_spec k c (do_ps2 _ Hd)) as (r & H & Ho & _). eapply wp_ok; [exact H|].
  eexists. split_and!; [done| |cbn; lia]. by destruct Hd.
Qed.

Lemma dev_step_trans n m k k1 k2 : dev_step n k k1 → dev_step m k1 k2 → dev_step (n + m) k k2.
Proof. intros (d1 & -> & H1 & E1) (d2 & -> & H2 & E2). exists d2. split_and!; [done..|]. cbn in *. lia. Qed.

(** A change of devices followed by the raw buffer. *)
Lemma then_raw k c n d :
  dev_ok d → ps2InteruptsTriggered d = ps2InteruptsTriggered (k_dev k) + n →
  wp (ps2_raw c) (set_dev k d) (λ _ k', dev_step n k k').
Proof.
  intros Hd Hn. eapply wp_mono; [by apply ps2_raw_dev|]. intros u k' H.
  replace n with (n + 0) by lia. eapply dev_step_trans; [|exact H]. by exists d.
Qed.

Lemma set_dev_set k d d' : set_dev (set_dev k d) d' = set_dev k d'.
Proof. done. Qed.

Lemma ps2_key_dev k c :
  dev_ok (k_dev k) → can_lock keyboard_buffer_lock k →
  0 <= ps2InteruptsTriggered (k_dev k) < 2 ^ 31 - 1 →
  wp (ps2_key c) k (λ _ k', dev_step 1 k k').
Proof.
  intros Hd Hl Hc. unfold ps2_key. apply wp_bind, wp_gets, wp_bind.
  eapply wp_ok; [apply checked_ok; cbn; lia|]. apply wp_bind, wp_modify.
  destruct (c =? 0xE0); [|destruct (c =? 0x2A); [|destruct (c =? 0xAA); [|destruct (bit c 0x80)]]].
  1-3: apply wp_bind, wp_modify; rewrite !set_dev_set; apply then_raw; [by destruct Hd|done].
  { apply then_raw; [by destruct Hd|done]. }
  set (k1 := set_dev k _). apply wp_bind.
  destruct (push_spec k1 (if negb (shiftPressed (k_dev k) =? 0) then asciiShift c else asciiNoShift c)) as (r & H & Ho & _);
    [done|by destruct Hd|]. eapply wp_ok; [exact H|]. apply wp_bind.
  destruct (extended (k_dev k) =? 1); wp_step; unfold with_keyboard, k1; rewrite !set_dev_set; apply then_raw; (done || by destruct Hd).
Qed.

Lemma update_cursor_dev k dx dy d :
  k_dev k = d → 0 <= mouse_ptr d <= 3 → ring_ok (keyboard d) → ring_ok (ps2Kbd d) → length (mouse_buffer d) = 4%nat →
  0 <= cursor_x d < FB_WIDTH → 0 <= cursor_y d < FB_HEIGHT → -128 <= dx <= 128 → -128 <= dy <= 128 →
  wp (update_cursor FB_WIDTH FB_HEIGHT dx dy) k (λ _ k', ∃ x y, 0 <= x < FB_WIDTH ∧ 0 <= y < FB_HEIGHT ∧
    k' = set_dev k (set_cursor d (is_mouse_test d) x y)).
Proof.
  intros <- Hp H1 H2 Hb Hx Hy Hdx Hdy. unfold update_cursor. apply wp_bind, wp_gets.
  apply wp_bind. eapply wp_ok; [apply checked_ok; cbn; lia|].
  apply wp_bind. eapply wp_ok; [apply checked_ok; cbn; lia|]. apply wp_modify. do 2 eexists. split_and!; [..|done].
  all: destruct (Z.ltb_spec (cursor_x (k_dev k) + dx) 0), (Z.ltb_spec (cursor_y (k_dev k) + dy) 0).
  all: repeat match goal with |- context [Z.leb ?a ?b] => destruct (Z.leb_spec a b) end; lia.
Qed.

Lemma i8_range n : -128 <= i8 n < 128.
Proof. unfold i8, signed. change (2 ^ (8 - 1)) with 128. pose proof (Z.mod_pos_bound (n + 128) (2 ^ 8)). lia. Qed.

Lemma ps2_mouse_dev k c :
  dev_ok (k_dev k) → wp (ps2_mouse FB_WIDTH FB_HEIGHT c) k (λ _ k', dev_step 0 k k').
Proof.
  intros [H1 H2 Hp Hb Hx Hy]. unfold ps2_mouse. apply wp_bind, wp_modify, wp_bind, wp_gets.
  cbn [k_dev set_dev set_mouse mouse_ptr mouse_buffer]. set (buf := <[_ := c]> _).
  assert (length buf = 4%nat) as Hbuf by (unfold buf; by rewrite length_insert).
  destruct (Z.eqb_spec (mouse_ptr (k_dev k) + 1) 3) as [E|E].
  - unfold handle_mouse_event. apply wp_bind, wp_bind, wp_gets.
    set (k1 := set_dev k _). destruct (negb _).
    + eapply wp_mono; [apply (update_cursor_dev k1 _ _ _ eq_refl)|];
        try (subst k1; cbn; done || lia); try (unfold mouse_event; cbn [ev_x ev_y]; match goal with |- _ <= i8 ?n <= _ => pose proof (i8_range n); lia end).
      intros u k2 (x & y & Hx' & Hy' & ->). cbn beta. apply wp_modify.
      eexists. split; [done|]. split; [split; (done || cbn; lia)|cbn; lia].
    + apply wp_ret, wp_modify. eexists. split; [done|]. split; [split; (done || cbn; lia)|cbn; lia].
  - apply wp_ret. eexists. split; [done|]. split; [split; (done || cbn; lia)|cbn; lia].
Qed.

Lemma ps2_isr_dev input k :
  dev_ok (k_dev k) → can_lock keyboard_buffer_lock k → 0 <= ps2InteruptsTriggered (k_dev k) →
  ps2InteruptsTriggered (k_dev k) + Z.of_nat (length input) < 2 ^ 31 →
  wp (ps2_isr FB_WIDTH FB_HEIGHT input) k (λ _ k', ∃ n, 0 <= n <= Z.of_nat (length input) ∧ dev_step n k k').
Proof.
  revert k. induction input as [|[status c] input IH]; intros k Hd Hl Hc0 Hc; cbn [ps2_isr length] in *.
  { apply wp_ret. exists 0. split; [cbn; lia|]. exists (k_dev k). split_and!; [by destruct k|done|lia]. }
  destruct (negb (bit status 1)).
  { apply wp_ret. exists 0. split; [lia|]. exists (k_dev k). split_and!; [by destruct k|done|lia]. }
  apply wp_bind. apply wp_mono with (P := λ _ k', ∃ n, 0 <= n <= 1 ∧ dev_step n k k').
  - destruct (negb (bit status 0x20)).
    + eapply wp_mono; [apply ps2_key_dev; (done || lia)|]. intros u k' H. exists 1. split; [lia|done].
    + eapply wp_mono; [by apply ps2_mouse_dev|]. intros u k' H. exists 0. split; [lia|done].
  - intros u k1 (n & Hn & Hs). pose proof Hs as (d & -> & Hd1 & E1).
    eapply wp_mono; [apply IH; [done|done|cbn; lia|cbn; lia]|]. intros u2 k2 (m & Hm & Hs2).
    exists (n + m). split; [lia|]. by eapply dev_step_trans.
Qed.
End isr.

(** Safety of the PS/2 interrupt handler: whatever bytes the controller
    delivers, it returns, with every buffer index in bounds, both buffers well
    formed and the cursor on the screen, having changed device state only and
    released the keyboard lock it took. *)
Theorem ps2_isr_safe FB_WIDTH FB_HEIGHT input k :
  0 < FB_WIDTH < 2 ^ 30 → 0 < FB_HEIGHT < 2 ^ 30 →
  dev_ok FB_WIDTH FB_HEIGHT (k_dev k) → can_lock keyboard_buffer_lock k →
  0 <= ps2InteruptsTriggered (k_dev k) → ps2InteruptsTriggered (k_dev k) + Z.of_nat (length input) < 2 ^ 31 →
  ∃ d, ps2_isr FB_WIDTH FB_HEIGHT input k = Ok (tt, set_dev k d) ∧ dev_ok FB_WIDTH FB_HEIGHT d.
Proof.
  intros HW HH Hd Hl H0 Hc.
  destruct (wp_inv _ _ _ (ps2_isr_dev FB_WIDTH FB_HEIGHT HW HH input k Hd Hl H0 Hc)) as ([] & k' & H & n & _ & d & -> & Hd' & _).
  by exists d.
Qed.

Lemma ps2_isr_safe_witness :
  ∃ d, ps2_isr 1024 768 [(1, 0x1E); (0x21, 8); (0x21, 200); (0x21, 5); (1, 0xE0)] (kernel0 0) = Ok (tt, set_dev (kernel0 0) d).
Proof.
  destruct (ps2_isr_safe 1024 768 [(1, 0x1E); (0x21, 8); (0x21, 200); (0x21, 5); (1, 0xE0)] (kernel0 0)
    ltac:(lia) ltac:(lia)) as (d & H & _).
  - split; try (cbn; lia); split; cbn; (lia || reflexivity).
  - split; [cbn; unfold IRQL_DISPATCH; lia|apply not_elem_of_empty].
  - cbn; lia.
  - cbn; lia.
  - exists d. exact H.
Defined.

(** The typed letter arrives: pressing and releasing [a] with shift held makes
    the device deliver an upper-case letter. *)
Example typed_shift_a :
  match (ps2_isr 1024 768 [(1, 0x2A); (1, 0x1E); (1, 0x9E); (1, 0xAA)] ;;; kbdDeviceRead 8) (kernel0 0) with
  | Ok (r, _) => r = (1, bytes "A")
  | _ => False
  end.
Proof. vm_compute. reflexivity. Qed.

(** A movement of 128 or more in one packet is reported in the wrong direction:
    the 9-bit value is cut to a signed byte. *)
Example mouse_event_wraps : ev_x (mouse_event [8; 200; 0; 0]) = -56.
Proof. reflexivity. Qed.
