(* ===== verification/Sched.v ===== *)
(** The scheduler ([scheduler/scheduler.c]) and the reaper
    ([scheduler/workers/reaper.c]).

    Thread structs are kept by address in [thread_tab]; [next_thread] links
    them into a ring, and [threads] points to the running one. *)
From stdpp Require Import base tactics list gmap sets strings.
From Stdlib Require Import ZArith Lia.
From S2P Require Import Prelude Bits State Spinlock Pmm Heap Vmm Vma Libc.

Definition THREAD_STATE_RUNNING : Z := 0.
Definition THREAD_STATE_REAPING : Z := 1.
Definition THREAD_STATE_ZOMBIE : Z := 2.

Definition STACK_SIZE : Z := 65536.
Definition SIZEOF_THREAD : Z := 624.
Definition SIZEOF_FD : Z := 24.

Record args_t := mk_args { arg1 : Z; arg2 : Z; arg3 : Z; arg4 : Z; arg5 : Z; arg6 : Z }.
Definition NO_ARGS : args_t := mk_args 0 0 0 0 0 0.

(** * Access to the scheduler's data *)

Definition set_threads (s : sched_t) (p : Z) : sched_t :=
  mk_sched p (thread_tab s) (next_thread_id s) (threads_to_reap s) (current_thread s).
Definition set_thread_tab (s : sched_t) (t : gmap Z thread) : sched_t :=
  mk_sched (threads s) t (next_thread_id s) (threads_to_reap s) (current_thread s).
Definition set_next_thread_id (s : sched_t) (n : Z) : sched_t :=
  mk_sched (threads s) (thread_tab s) n (threads_to_reap s) (current_thread s).
Definition set_threads_to_reap (s : sched_t) (p : Z) : sched_t :=
  mk_sched (threads s) (thread_tab s) (next_thread_id s) p (current_thread s).
Definition set_current_thread (s : sched_t) (p : Z) : sched_t :=
  mk_sched (threads s) (thread_tab s) (next_thread_id s) (threads_to_reap s) p.

Definition modify_sched (f : sched_t → sched_t) : M kernel unit := modify (λ k, set_sched k (f (k_sched k))).
Definition modify_cpu (f : cpu_t → cpu_t) : M kernel unit := modify (λ k, set_cpu k (f (k_cpu k))).

(** [*p] for a thread; the sanitizer rejects a null pointer. *)
Definition get_thread (p : Z) : M kernel thread := λ k,
  match thread_tab (k_sched k) !! p with
  | Some t => Ok (t, k)
  | None => Panic "UBSAN: Type missmatch"
  end.
Definition put_thread (p : Z) (t : thread) : M kernel unit :=
  modify_sched (λ s, set_thread_tab s (<[p := t]> (thread_tab s))).

Definition set_next (t : thread) (n : Z) : thread :=
  mk_thread (threadId t) (t_stack t) (stack_top t) (krsp t) (ursp t) (t_pagemap t) (heap_pos t) (next_fd t)
    (fds_ptr t) (fds t) (is_user_task t) (sleep_awake_time t) (thread_state t) n (t_fsbase t) (fpu_state t).
Definition set_krsp (t : thread) (v : Z) : thread :=
  mk_thread (threadId t) (t_stack t) (stack_top t) v (ursp t) (t_pagemap t) (heap_pos t) (next_fd t)
    (fds_ptr t) (fds t) (is_user_task t) (sleep_awake_time t) (thread_state t) (next_thread t) (t_fsbase t) (fpu_state t).
Definition set_user_regs (t : thread) (fs fp : Z) : thread :=
  mk_thread (threadId t) (t_stack t) (stack_top t) (krsp t) (ursp t) (t_pagemap t) (heap_pos t) (next_fd t)
    (fds_ptr t) (fds t) (is_user_task t) (sleep_awake_time t) (thread_state t) (next_thread t) fs fp.
Definition set_thread_state (t : thread) (v : Z) : thread :=
  mk_thread (threadId t) (t_stack t) (stack_top t) (krsp t) (ursp t) (t_pagemap t) (heap_pos t) (next_fd t)
    (fds_ptr t) (fds t) (is_user_task t) (sleep_awake_time t) v (next_thread t) (t_fsbase t) (fpu_state t).
Definition set_sleep (t : thread) (v : Z) : thread :=
  mk_thread (threadId t) (t_stack t) (stack_top t) (krsp t) (ursp t) (t_pagemap t) (heap_pos t) (next_fd t)
    (fds_ptr t) (fds t) (is_user_task t) v (thread_state t) (next_thread t) (t_fsbase t) (fpu_state t).
Definition set_fds (t : thread) (n : Z) (l : list fd) : thread :=
  mk_thread (threadId t) (t_stack t) (stack_top t) (krsp t) (ursp t) (t_pagemap t) (heap_pos t) n
    (fds_ptr t) l (is_user_task t) (sleep_awake_time t) (thread_state t) (next_thread t) (t_fsbase t) (fpu_state t).

(** * Creating threads *)

(** Addresses of code. *)
Record code := mk_code { addr_task_quit : Z; addr_thread_init_trampoline : Z }.

(** [*--stack = v] for the values in order. *)
Fixpoint push_all (stack : Z) (vs : list Z) : M kernel Z :=
  match vs with
  | [] => ret stack
  | v :: vs' =>
      let stack := u64 (stack - 8) in
      store64_virt stack v ;;;
      push_all stack vs'
  end.

(** The critical section of [create_thread]. *)
Definition link_thread (had_threads : bool) (new_thread : Z) : M kernel unit :=
  let* lock1r := spinlock_lock scheduler_spinlock in
  let* t := get_thread new_thread in
  (if negb had_threads then
     modify_sched (λ s, set_threads s new_thread) ;;;
     put_thread new_thread (set_next t new_thread)
   else
     let* cur := gets (λ k, threads (k_sched k)) in
     let* c := get_thread cur in
     put_thread new_thread (set_next t (next_thread c)) ;;;
     let* c := get_thread cur in
     put_thread cur (set_next c new_thread)) ;;;
  spinlock_unlock scheduler_spinlock lock1r.

Definition create_thread (code : code) (entry_point pagemap : Z) (args : args_t) : M kernel unit :=
  let* had_threads := gets (λ k, negb (threads (k_sched k) =? 0)) in
  let* new_thread := malloc SIZEOF_THREAD in
  memset_block new_thread 0 SIZEOF_THREAD ;;;
  let* fds_p := malloc (256 * SIZEOF_FD) in
  memset_block fds_p 0 (256 * SIZEOF_FD) ;;;
  let* stack := malloc STACK_SIZE in
  memset_block stack 0 STACK_SIZE ;;;
  let stack_top := Z.land (u64 (stack + STACK_SIZE)) (2 ^ 64 - 1 - 0xF3) in
  let* id := gets (λ k, next_thread_id (k_sched k)) in
  modify_sched (λ s, set_next_thread_id s (i32 (id + 1))) ;;;
  let user := negb (pagemap =? 0) in
  let entry_point := if entry_point =? 0 then addr_task_quit code else entry_point in
  let* krsp := push_all stack_top
    [0; addr_task_quit code; entry_point; addr_thread_init_trampoline code;
     arg1 args; arg2 args; arg3 args; arg4 args; arg5 args; arg6 args] in
  put_thread new_thread
    (mk_thread (u64 id) stack stack_top krsp 0 (if user then pagemap else kernel_pagemap) 0xB0000000 11
       fds_p (replicate 256 (mk_fd 0 0 0)) (if user then 1 else 0) 0 THREAD_STATE_RUNNING 0 0 0) ;;;
  link_thread had_threads new_thread.

(** * Switching threads *)

(** [switch.asm]: the callee-saved registers are pushed, the stack pointer is
    exchanged and the scheduler lock is released; the registers are popped and
    [ret] takes the return address off the new stack. *)
Definition thread_switch (irqs old_thread new_rsp : Z) : M kernel unit :=
  let* rsp := gets (λ k, c_rsp (k_cpu k)) in
  let* t := get_thread old_thread in
  put_thread old_thread (set_krsp t (u64 (rsp - 48))) ;;;
  modify_cpu (λ c, set_rsp c new_rsp) ;;;
  spinlock_unlock_nil scheduler_spinlock irqs ;;;
  modify_cpu (λ c, set_rsp c (u64 (new_rsp + 56))).

Section schedule.
(** Milliseconds that pass between two readings of the timer. *)
Context (elapsed : Z → Z).

(** [timer_get_ms]: a pointer to the reading routine of the timer in use. *)
Definition timer_get_ms : M kernel Z :=
  let* t := gets k_ms in
  modify (λ k, set_ms k (t + elapsed t)) ;;;
  ret t.

(** [while (threads->sleep_awake_time > timer_get_ms())] *)
Definition skip_sleeping : M kernel unit :=
  while_ (λ _ : unit,
    let* p := gets (λ k, threads (k_sched k)) in
    let* t := get_thread p in
    let* now := timer_get_ms in
    if now <? sleep_awake_time t then
      modify_sched (λ s, set_threads s (next_thread t)) ;;;
      ret (inl tt)
    else ret (inr tt)) tt.

(** [while (next_thread->thread_state == THREAD_STATE_REAPING)] *)
Definition unlink_reaping (previous_thread next : Z) : M kernel Z :=
  while_ (λ next,
    let* t := get_thread next in
    if thread_state t =? THREAD_STATE_REAPING then
      let* lock2r := spinlock_lock reaper_spinlock in
      let to_reap := next in
      let* p := get_thread previous_thread in
      put_thread previous_thread (set_next p (next_thread t)) ;;;
      let* t := get_thread next in
      modify_sched (λ s, set_threads s (next_thread t)) ;;;
      let next := next_thread t in
      let* r := get_thread to_reap in
      put_thread to_reap (set_next r 0) ;;;
      let* head := gets (λ k, threads_to_reap (k_sched k)) in
      (if head =? 0 then modify_sched (λ s, set_threads_to_reap s to_reap)
       else
         let* r := get_thread to_reap in
         put_thread to_reap (set_next r head) ;;;
         modify_sched (λ s, set_threads_to_reap s to_reap)) ;;;
      spinlock_unlock reaper_spinlock lock2r ;;;
      ret (inl next)
    else ret (inr next)) next.

(** From [vmm_switch_to] on. *)
Definition switch_threads (fred_enbled : bool) (lock1r previous_thread next : Z) : M kernel unit :=
  let* n := get_thread next in
  vmm_switch_to (t_pagemap n) ;;;
  (if fred_enbled then modify_cpu (λ c, set_fred_rsp0 c (stack_top n)) else ret tt) ;;;
  modify_cpu (λ c, set_tss_rsp0 c (stack_top n)) ;;;
  let* p := get_thread previous_thread in
  (if negb (is_user_task p =? 0) then
     let* cpu := gets k_cpu in
     put_thread previous_thread (set_user_regs p (fsbas cpu) (fpu cpu))
   else ret tt) ;;;
  (if negb (is_user_task n =? 0) then
     modify_cpu (λ c, set_fsbas (set_fpu c (fpu_state n)) (t_fsbase n))
   else ret tt) ;;;
  modify_sched (λ s, set_current_thread s next) ;;;
  thread_switch lock1r previous_thread (krsp n).

(** [stub_holds]: the debugger stub is enabled and forbids preemption. *)
Definition schedule (stub_holds fred_enbled : bool) : M kernel unit :=
  if stub_holds then ret tt
  else
    let* _ := spinlock_lock scheduler_spinlock in
    let lock1r := 0 in
    let* previous_thread := gets (λ k, threads (k_sched k)) in
    let* p := get_thread previous_thread in
    modify_sched (λ s, set_threads s (next_thread p)) ;;;
    skip_sleeping ;;;
    let* next := gets (λ k, threads (k_sched k)) in
    let* next := unlink_reaping previous_thread next in
    if next =? previous_thread then spinlock_unlock scheduler_spinlock lock1r
    else switch_threads fred_enbled lock1r previous_thread next.
End schedule.

Definition get_current_thread : M kernel Z :=
  let* lock1r := spinlock_lock scheduler_spinlock in
  let* tmp := gets (λ k, threads (k_sched k)) in
  spinlock_unlock scheduler_spinlock lock1r ;;;
  ret tmp.

(** * The reaper *)

Definition get_next_thread_to_reap : M kernel Z :=
  let* lock1r := spinlock_lock reaper_spinlock in
  let* head := gets (λ k, threads_to_reap (k_sched k)) in
  if head =? 0 then spinlock_unlock reaper_spinlock lock1r ;;; ret 0
  else
    let* t := get_thread head in
    modify_sched (λ s, set_threads_to_reap s (next_thread t)) ;;;
    put_thread head (set_next t 0) ;;;
    spinlock_unlock reaper_spinlock lock1r ;;;
    ret head.

(** One round of [reaper_thread]. *)
Definition reaper_round (elapsed : Z → Z) (stub_holds fred_enbled : bool) : M kernel unit :=
  let* thread := get_next_thread_to_reap in
  if negb (thread =? 0) then
    let* t := get_thread thread in
    delete_pagemap (t_pagemap t) ;;;
    free (fds_ptr t) ;;;
    free (t_stack t) ;;;
    free thread ;;;
    modify_sched (λ s, set_thread_tab s (delete thread (thread_tab s)))
  else schedule elapsed stub_holds fred_enbled.
