(* ===== verification/SchedInv.v ===== *)
(** Correctness of the scheduler: the ring of threads, the choice of the next
    thread, the save and restore of its context, and the reaper's list. *)
From stdpp Require Import base tactics list gmap sets strings.
From Stdlib Require Import ZArith Lia.
From S2P Require Import Prelude Bits State Spinlock Pmm Heap Vmm Vma Libc Sched.

#[local] Arguments spinlock_unlock : simpl never.
#[local] Arguments spinlock_unlock_nil : simpl never.

(** * Linked threads *)

(** The threads [l] are linked in order and the last one leads to [z]. *)
Fixpoint path (tab : gmap Z thread) (l : list Z) (z : Z) : Prop :=
  match l with
  | [] => True
  | a :: l' => (∃ t, tab !! a = Some t ∧ next_thread t = hd z l') ∧ path tab l' z
  end.

Lemma path_app tab l1 l2 z : path tab (l1 ++ l2) z ↔ path tab l1 (hd z l2) ∧ path tab l2 z.
Proof.
  induction l1 as [|a l1 IH]; cbn [app path]; [tauto|]. rewrite IH.
  replace (hd z (l1 ++ l2)) with (hd (hd z l2) l1) by (by destruct l1). tauto.
Qed.

(** Only the links of the members matter. *)
Lemma path_ext tab tab' l z :
  (∀ a t, a ∈ l → tab !! a = Some t → ∃ t', tab' !! a = Some t' ∧ next_thread t' = next_thread t) →
  path tab l z → path tab' l z.
Proof.
  induction l as [|a l IH]; intros H; [done|]. intros [(t & Ht & Hn) Hp]. split.
  - destruct (H a t ltac:(left) Ht) as (t' & ? & ?). exists t'. split; [done|congruence].
  - apply IH; [|done]. intros b u Hb. apply H. by right.
Qed.

Lemma path_lookup tab l z a : path tab l z → a ∈ l → ∃ t, tab !! a = Some t.
Proof.
  induction l as [|b l IH]; [by intros _ ?%not_elem_of_nil|]. intros [(t & Ht & _) Hp] [->|Hin]%elem_of_cons; [by exists t|].
  by apply IH.
Qed.

(** A ring: the first one runs, the last one leads back to it. *)
Record ring_of (k : kernel) (l : list Z) : Prop := mk_ring_of {
  ri_nodup : NoDup l;
  ri_path : path (thread_tab (k_sched k)) l (threads (k_sched k));
  ri_head : ∃ l', l = threads (k_sched k) :: l';
  ri_len : Z.of_nat (length l) < 2 ^ 62;
  ri_null : 0 ∉ l
}.

Definition thread_at (k : kernel) (a : Z) : option thread := thread_tab (k_sched k) !! a.

(** * Reading threads *)

Lemma wp_get_thread k a t (Q : thread → kernel → Prop) :
  thread_at k a = Some t → Q t k → wp (get_thread a) k Q.
Proof. intros Ht HQ. unfold wp, get_thread. unfold thread_at in Ht. by rewrite Ht. Qed.

(** * Skipping sleeping threads *)

Section skip.
Context (elapsed : Z → Z) (Helapsed : ∀ t, 0 <= elapsed t).
Set Default Proof Using "All".

Definition at_thread (k : kernel) (p t : Z) : kernel := set_ms (set_sched k (set_threads (k_sched k) p)) t.

Definition sleeping (k : kernel) (now : Z) (a : Z) : Prop :=
  ∃ t, thread_at k a = Some t ∧ now < sleep_awake_time t.
Definition awake (k : kernel) (now : Z) (a : Z) : Prop :=
  ∃ t, thread_at k a = Some t ∧ sleep_awake_time t <= now.

(** The time after [n] readings of the timer. *)
Definition reading (t0 : Z) (n : nat) : Z := Nat.iter n (λ t, t + elapsed t) t0.

(** The first thread of the candidates [c] that is awake when it is asked. *)
Lemma skip_sleeping_spec k c z pre0 y0 post0 :
  path (thread_tab (k_sched k)) c z → c = pre0 ++ y0 :: post0 → Z.of_nat (length pre0) < 2 ^ 63 →
  awake k (k_ms k) y0 → hd z c = threads (k_sched k) →
  wp (skip_sleeping elapsed) k (λ _ k', ∃ pre y post now t,
    c = pre ++ y :: post ∧ (∀ a, a ∈ pre → sleeping k (k_ms k) a) ∧ awake k now y ∧
    now = reading (k_ms k) (length pre) ∧ k_ms k <= now <= t ∧ k' = at_thread k y t).
Proof.
  intros Hpath Hc Hlen Haw Hhd. unfold skip_sleeping.
  apply (wp_while _ (λ n _ s, ∃ pre rest0 t, c = pre ++ rest0 ++ y0 :: post0 ∧ n = Z.of_nat (length rest0) ∧ (t = reading (k_ms k) (length pre) ∧ k_ms k <= t) ∧
    (∀ a, a ∈ pre → sleeping k (k_ms k) a) ∧ s = at_thread k (hd y0 rest0) t)) with (n := Z.of_nat (length pre0)); [|lia|].
  - intros n [] s Hn (pre & rest0 & t & Hc' & -> & [Hrd Ht] & Hpre & ->).
    apply wp_bind, wp_gets. cbn [at_thread k_sched set_ms set_sched set_threads threads].
    set (cur := hd y0 rest0).
    assert (∃ post, rest0 ++ y0 :: post0 = cur :: post) as [post Hpost] by (destruct rest0; by eexists).
    rewrite Hc', Hpost in Hpath. apply path_app in Hpath as [_ [(u & Hu & Hnext) _]].
    apply wp_bind. apply (wp_get_thread _ _ u); [exact Hu|]. unfold timer_get_ms. do 3 wp_step. cbn [k_ms set_ms at_thread].
    destruct (Z.ltb_spec t (sleep_awake_time u)) as [Hlt|Hge].
    + wp_step. wp_step. destruct rest0 as [|r rest0].
      { cbn in cur. destruct Haw as (v & Hv & Hle). unfold thread_at in Hv. unfold cur in Hu. rewrite Hu in Hv. injection Hv as <-. lia. }
      cbn in Hpost. injection Hpost as <-. exists (Z.of_nat (length rest0)). split; [cbn; lia|].
      exists (pre ++ [cur]), rest0, (t + elapsed t). split_and!; [|done| |specialize (Helapsed t); lia| |].
      * rewrite Hc'. cbn. by rewrite <- app_assoc.
      * rewrite length_app, Nat.add_comm. cbn. by rewrite Hrd.
      * intros a [Ha|Ha]%elem_of_app; [by apply Hpre|]. apply list_elem_of_singleton in Ha as ->. exists u. split; [exact Hu|lia].
      * unfold at_thread, set_ms, set_sched. cbn. do 2 f_equal. rewrite Hnext. by destruct rest0.
    + apply wp_ret. exists pre, cur, post, t, (t + elapsed t).
      split_and!; [by rewrite Hc', Hpost|done|by exists u|done|lia|specialize (Helapsed t); lia|done].
  - exists [], pre0, (k_ms k). split_and!; [done|done|done|lia|by intros a ?%not_elem_of_nil|].
    unfold at_thread. replace (hd y0 pre0) with (threads (k_sched k)); [by destruct k as [? ? ? ? ? ? ? [] ? ?]|].
    rewrite <- Hhd, Hc. by destruct pre0.
Qed.
End skip.

(** * The context switch *)

(** The thread that leaves the processor, and the registers of the one that gets it. *)
Definition saved (c : cpu_t) (p : thread) : thread :=
  set_krsp (if negb (is_user_task p =? 0) then set_user_regs p (fsbas c) (fpu c) else p) (u64 (c_rsp c - 48)).
Definition resumed (fred : bool) (top : Z) (n : thread) (c : cpu_t) : cpu_t :=
  let c := set_cr3 c top in
  let c := if fred then set_fred_rsp0 c (stack_top n) else c in
  let c := set_tss_rsp0 c (stack_top n) in
  let c := if negb (is_user_task n =? 0) then set_fsbas (set_fpu c (fpu_state n)) (t_fsbase n) else c in
  set_rsp (set_cr8 c 0) (u64 (krsp n + 56)).

Definition after_switch (fred : bool) (x y : Z) (p n : thread) (pm : pagemap_t) (k : kernel) : kernel :=
  set_locks (set_cpu (set_sched k (set_current_thread
      (set_thread_tab (k_sched k) (<[x := saved (k_cpu k) p]> (thread_tab (k_sched k)))) y))
    (resumed fred (u64 (top_level pm - k_hhdm k)) n (k_cpu k)))
    (k_locks k ∖ {[scheduler_spinlock]}).

Lemma get_thread_ok k a t : thread_at k a = Some t → get_thread a k = Ok (t, k).
Proof. intros Ht. unfold get_thread, thread_at in *. by rewrite Ht. Qed.

Lemma vmm_switch_ok k a pm :
  k_pagemaps k !! a = Some pm →
  vmm_switch_to a k = Ok (tt, set_cpu k (set_cr3 (k_cpu k) (u64 (top_level pm - k_hhdm k)))).
Proof. intros H. unfold vmm_switch_to, get_pagemap, bind. by rewrite H. Qed.

(** A conditional change of registers. *)
Lemma cpu_if (b : bool) (f : cpu_t → cpu_t) k :
  (if b then modify_cpu f else ret tt) k = Ok (tt, set_cpu k (if b then f (k_cpu k) else k_cpu k)).
Proof. destruct b; [done|]. by rewrite set_cpu_id. Qed.

Definition put_tab (x : Z) (t : thread) (k : kernel) : kernel :=
  set_sched k (set_thread_tab (k_sched k) (<[x := t]> (thread_tab (k_sched k)))).

Lemma put_tab_id x t k : thread_at k x = Some t → put_tab x t k = k.
Proof.
  intros Ht. unfold put_tab. rewrite insert_id by exact Ht. by destruct k as [? ? ? ? ? ? ? [] ? ?].
Qed.

Lemma save_if k x p :
  thread_at k x = Some p →
  (if negb (is_user_task p =? 0) then
     let* cpu := gets k_cpu in put_thread x (set_user_regs p (fsbas cpu) (fpu cpu))
   else ret tt) k =
  Ok (tt, put_tab x (if negb (is_user_task p =? 0) then set_user_regs p (fsbas (k_cpu k)) (fpu (k_cpu k)) else p) k).
Proof. intros Hp. destruct (negb _); [done|]. by rewrite put_tab_id. Qed.

Lemma thread_switch_ok k x t rsp :
  thread_at k x = Some t → 0 <= cr8 (k_cpu k) →
  thread_switch 0 x rsp k =
    Ok (tt, set_cpu (set_locks (put_tab x (set_krsp t (u64 (c_rsp (k_cpu k) - 48))) k) (k_locks k ∖ {[scheduler_spinlock]}))
              (set_rsp (set_cr8 (k_cpu k) 0) (u64 (rsp + 56)))).
Proof.
  intros Ht Hc. unfold thread_switch. rewrite (bind_ok (gets _) _ _ _ _ eq_refl).
  rewrite (bind_ok _ _ _ _ _ (get_thread_ok k x t Ht)). unfold put_thread, modify_sched, modify_cpu.
  rewrite (bind_ok (modify _) _ _ tt _ eq_refl), (bind_ok (modify _) _ _ tt _ eq_refl).
  unfold spinlock_unlock_nil.
  match goal with |- bind _ _ ?s = _ => rewrite (bind_ok _ _ s tt _ (spinlock_unlock_ok _ s 0 (conj (Z.le_refl 0) Hc))) end.
  done.
Qed.

Lemma switch_threads_spec fred k x y p n pm :
  thread_at k x = Some p → thread_at k y = Some n → k_pagemaps k !! t_pagemap n = Some pm → 0 <= cr8 (k_cpu k) →
  switch_threads fred 0 x y k = Ok (tt, after_switch fred x y p n pm k).
Proof.
  intros Hp Hn Hpm Hirql. unfold switch_threads.
  rewrite (bind_ok _ _ _ _ _ (get_thread_ok k y n Hn)).
  rewrite (bind_ok _ _ _ _ _ (vmm_switch_ok k _ pm Hpm)). set (k1 := set_cpu k _).
  rewrite (bind_ok _ _ _ _ _ (cpu_if _ _ _)). set (k2 := set_cpu k1 _).
  unfold modify_cpu at 1. rewrite (bind_ok (modify _) _ _ tt _ eq_refl). set (k3 := set_cpu k2 _).
  rewrite (bind_ok _ _ _ _ _ (get_thread_ok k3 x p Hp)).
  rewrite (bind_ok _ _ _ _ _ (save_if k3 x p Hp)). set (p1 := if negb (is_user_task p =? 0) then _ else _). set (k4 := put_tab x p1 k3).
  rewrite (bind_ok _ _ _ _ _ (cpu_if _ _ _)). set (k5 := set_cpu k4 _).
  unfold modify_sched. rewrite (bind_ok (modify _) _ _ tt _ eq_refl). set (k6 := set_sched k5 _).
  assert (thread_at k6 x = Some p1) as Hp6 by apply lookup_insert_eq.
  assert (0 <= cr8 (k_cpu k6)) as Hc6.
  { unfold k6, k5, k4, k3, k2, k1. cbn. destruct (negb (is_user_task n =? 0)), fred; exact Hirql. }
  rewrite (thread_switch_ok k6 x p1 (krsp n) Hp6 Hc6). do 2 f_equal.
  assert (c_rsp (k_cpu k6) = c_rsp (k_cpu k)) as -> by (destruct fred, (negb (is_user_task n =? 0)) eqn:E; unfold k6, k5; rewrite ?E; reflexivity).
  assert (p1 = if negb (is_user_task p =? 0) then set_user_regs p (fsbas (k_cpu k)) (fpu (k_cpu k)) else p) as Ep
    by (unfold p1; destruct fred; reflexivity).
  assert (set_rsp (set_cr8 (k_cpu k6) 0) (u64 (krsp n + 56)) = resumed fred (u64 (top_level pm - k_hhdm k)) n (k_cpu k)) as -> by reflexivity.
  unfold after_switch, saved. rewrite <- Ep. unfold put_tab, k6, k5, k4, put_tab.
  unfold set_cpu, set_locks, set_sched, set_current_thread, set_thread_tab. cbn. by rewrite insert_insert_eq.
Qed.

(** * Taking dead threads out of the ring *)

Definition reap_one (x a : Z) (p t : thread) (s : sched_t) : sched_t :=
  set_threads_to_reap (set_threads (set_thread_tab s
    (<[a := set_next t (threads_to_reap s)]> (<[x := set_next p (next_thread t)]> (thread_tab s)))) (next_thread t)) a.

Lemma set_next_twice t a b : set_next (set_next t a) b = set_next t b.
Proof. done. Qed.
Lemma set_next_id t : set_next t (next_thread t) = t.
Proof. by destruct t. Qed.

(** Releasing a lock after a change of the scheduler's data only. *)
Lemma unlock_sched l k s :
  can_lock l k →
  spinlock_unlock l (cr8 (k_cpu k)) (set_sched (locked l k) s) = Ok (tt, set_sched k s).
Proof.
  intros [Hirql Hfree]. rewrite spinlock_unlock_ok by (cbn; lia). do 2 f_equal.
  destruct k as [m hh cpu locks pm he pgs sc ms dev]. unfold locked, set_sched, set_cpu, set_locks. cbn in *.
  replace (({[l]} ∪ locks) ∖ {[l]}) with locks
    by (rewrite difference_union_distr_l_L, difference_diag_L, union_empty_l_L, difference_disjoint_L; [done|set_solver]).
  by destruct cpu.
Qed.

Lemma reap_body_spec k x a p t :
  thread_at k x = Some p → thread_at k a = Some t → x ≠ a → can_lock reaper_spinlock k → 0 < a →
  (let* lock2r := spinlock_lock reaper_spinlock in
   let* p := get_thread x in
   put_thread x (set_next p (next_thread t)) ;;;
   let* t := get_thread a in
   modify_sched (λ s, set_threads s (next_thread t)) ;;;
   let* r := get_thread a in
   put_thread a (set_next r 0) ;;;
   let* head := gets (λ k, threads_to_reap (k_sched k)) in
   (if head =? 0 then modify_sched (λ s, set_threads_to_reap s a)
    else
      let* r := get_thread a in
      put_thread a (set_next r head) ;;;
      modify_sched (λ s, set_threads_to_reap s a)) ;;;
   spinlock_unlock reaper_spinlock lock2r ;;;
   ret (inl (next_thread t) : Z + Z)) k = Ok (inl (next_thread t), set_sched k (reap_one x a p t (k_sched k))).
Proof.
  intros Hp Ht Hne Hl Ha. rewrite (bind_ok _ _ _ _ _ (spinlock_lock_ok _ _ Hl)).
  rewrite (bind_ok _ _ _ _ _ (get_thread_ok (locked _ k) x p Hp)).
  unfold put_thread, modify_sched. rewrite (bind_ok (modify _) _ _ tt _ eq_refl).
  set (k1 := set_sched _ _). assert (thread_at k1 a = Some t) as Ht1 by (unfold thread_at, k1; cbn; by rewrite lookup_insert_ne).
  rewrite (bind_ok _ _ _ _ _ (get_thread_ok k1 a t Ht1)), (bind_ok (modify _) _ _ tt _ eq_refl).
  set (k2 := set_sched _ _). rewrite (bind_ok _ _ _ _ _ (get_thread_ok k2 a t Ht1)), (bind_ok (modify _) _ _ tt _ eq_refl).
  set (k3 := set_sched _ _). rewrite (bind_ok (gets _) _ _ _ _ eq_refl).
  change (threads_to_reap (k_sched k3)) with (threads_to_reap (k_sched k)).
  assert (∃ k4, (if threads_to_reap (k_sched k) =? 0 then modify (λ k0, set_sched k0 (set_threads_to_reap (k_sched k0) a))
    else let* r := get_thread a in
         modify (λ k0, set_sched k0 (set_thread_tab (k_sched k0) (<[a := set_next r (threads_to_reap (k_sched k))]> (thread_tab (k_sched k0))))) ;;;
         modify (λ k0, set_sched k0 (set_threads_to_reap (k_sched k0) a))) k3 = Ok (tt, k4) ∧
    k4 = set_sched (locked reaper_spinlock k) (reap_one x a p t (k_sched k))) as (k4 & Hk4 & ->).
  { destruct (Z.eqb_spec (threads_to_reap (k_sched k)) 0) as [E|E].
    - eexists. split; [done|]. unfold reap_one. rewrite E. reflexivity.
    - assert (thread_at k3 a = Some (set_next t 0)) as Ht3 by apply lookup_insert_eq.
      rewrite (bind_ok _ _ _ _ _ (get_thread_ok k3 a _ Ht3)), (bind_ok (modify _) _ _ tt _ eq_refl).
      eexists. split; [done|]. rewrite set_next_twice. unfold reap_one, k3, k2, k1. cbn.
      unfold set_sched, set_threads_to_reap, set_thread_tab, set_threads. cbn. by rewrite insert_insert_eq. }
  rewrite (bind_ok _ _ _ _ _ Hk4). by rewrite (bind_ok _ _ _ _ _ (unlock_sched _ _ _ Hl)).
Qed.

(** Of a run of dead threads, [done] have been moved to the reaper's list [R],
    latest first, and [todo] are left before [y]. *)
Record reaped (x y : Z) (p : thread) (R done todo : list Z) (s0 s : sched_t) : Prop := mk_reaped {
  rp_threads : threads s = hd y todo;
  rp_head : threads_to_reap s = hd 0 (reverse done ++ R);
  rp_x : thread_tab s !! x = Some (if bool_decide (done = []) then p else set_next p (hd y todo));
  rp_done : ∀ a t, a ∈ done → thread_tab s0 !! a = Some t → ∃ n, thread_tab s !! a = Some (set_next t n);
  rp_other : ∀ a, a ≠ x → a ∉ done → thread_tab s !! a = thread_tab s0 !! a;
  rp_chain : path (thread_tab s) (reverse done ++ R) 0;
  rp_id : next_thread_id s = next_thread_id s0;
  rp_current : current_thread s = current_thread s0
}.

Definition reaping (k : kernel) (a : Z) : Prop := ∃ t, thread_at k a = Some t ∧ thread_state t = THREAD_STATE_REAPING.
Definition not_reaping (k : kernel) (a : Z) : Prop := ∃ t, thread_at k a = Some t ∧ thread_state t ≠ THREAD_STATE_REAPING.

Lemma reaped_step x y p R done a todo s0 s t :
  reaped x y p R done (a :: todo) s0 s → thread_tab s0 !! a = Some t → next_thread t = hd y todo →
  x ≠ a → a ∉ done → a ∉ R → x ∉ done → x ∉ R →
  reaped x y p R (done ++ [a]) todo s0 (reap_one x a (if bool_decide (done = []) then p else set_next p a) t s).
Proof.
  intros [H1 H2 H3 H4 H5 H6 H7 H8] Ht Hn Hxa Ha HaR Hx HxR. cbn [hd] in *. split; cbn.
  - done.
  - by rewrite reverse_app.
  - rewrite lookup_insert_ne by done. rewrite lookup_insert_eq. rewrite (bool_decide_eq_false_2 (done ++ [a] = [])) by (by destruct done).
    rewrite Hn. by case_bool_decide.
  - intros b u Hb Hu. destruct (decide (b = a)) as [->|Hba].
    + rewrite lookup_insert_eq. rewrite Ht in Hu. injection Hu as <-. by eexists.
    + rewrite lookup_insert_ne by done. apply elem_of_app in Hb as [Hb|Hb%list_elem_of_singleton]; [|done].
      rewrite lookup_insert_ne by (intros ->; done). by apply H4.
  - intros b Hbx Hb. apply not_elem_of_app in Hb as [Hb Hba%not_elem_of_cons]. destruct Hba as [Hba _].
    rewrite !lookup_insert_ne by done. by apply H5.
  - rewrite reverse_app. cbn [reverse rev_append app path]. split.
    + eexists. rewrite lookup_insert_eq. split; [done|]. exact H2.
    + apply (path_ext (thread_tab s)); [|exact H6]. intros b u Hb Hu. exists u. split; [|done].
      apply elem_of_app in Hb. rewrite elem_of_reverse in Hb.
      rewrite !lookup_insert_ne; [done|intros <-; tauto..].
  - done.
  - done.
Qed.

Lemma unlink_reaping_spec k x y p R rs :
  thread_at k x = Some p → path (thread_tab (k_sched k)) rs y →
  (∀ a, a ∈ rs → reaping k a ∧ 0 < a) → not_reaping k y → NoDup rs → x ∉ rs → x ∉ R → (∀ a, a ∈ rs → a ∉ R) →
  path (thread_tab (k_sched k)) R 0 → threads_to_reap (k_sched k) = hd 0 R → threads (k_sched k) = hd y rs →
  Z.of_nat (length rs) < 2 ^ 63 → can_lock reaper_spinlock k →
  wp (unlink_reaping x (hd y rs)) k (λ r k', r = y ∧ ∃ s, k' = set_sched k s ∧ reaped x y p R rs [] (k_sched k) s).
Proof.
  intros Hp Hpath Hrs (n & Hn & Hst) Hnd Hx HxR HrsR HR Hhead Hthr Hlen Hl. unfold unlink_reaping.
  apply (wp_while _ (λ m next s, ∃ done todo s', rs = done ++ todo ∧ m = Z.of_nat (length todo) ∧ next = hd y todo ∧
    s = set_sched k s' ∧ reaped x y p R done todo (k_sched k) s')) with (n := Z.of_nat (length rs)); [|lia|].
  2: { exists [], rs, (k_sched k). split_and!; try done; [by destruct k|]. split; try done.
       by intros a t ?%not_elem_of_nil. }
  intros m next s Hm (done & [|a todo] & s' & Hrs' & -> & -> & -> & Hrp); cbn [hd].
  - assert (∃ n', thread_at (set_sched k s') y = Some n' ∧ thread_state n' ≠ THREAD_STATE_REAPING) as (n' & Hn' & Hst').
    { rewrite app_nil_r in Hrs'. subst done. destruct (decide (y = x)) as [->|Hyx].
      - eexists. split; [exact (rp_x _ _ _ _ _ _ _ _ Hrp)|]. unfold thread_at in *. rewrite Hn in Hp. injection Hp as ->. by case_bool_decide.
      - exists n. split; [|done]. unfold thread_at. cbn. rewrite (rp_other _ _ _ _ _ _ _ _ Hrp y Hyx); [done|].
        intros Hy. destruct (Hrs y Hy) as [(u & Hu & Hus) _]. unfold thread_at in *. congruence. }
    apply wp_bind. apply (wp_get_thread _ _ n' _ Hn'). rewrite (proj2 (Z.eqb_neq _ _) Hst'). apply wp_ret.
    rewrite app_nil_r in Hrs'. subst done. split; [done|]. by exists s'.
  - assert (a ∈ rs) as Hain by (rewrite Hrs'; apply elem_of_app; right; left).
    destruct (Hrs a Hain) as [(t & Ht & Hts) Hpos].
    rewrite Hrs' in Hnd, Hx, Hpath. apply NoDup_app in Hnd as (_ & Hdisj & [Ha _]%NoDup_cons).
    apply not_elem_of_app in Hx as [Hxd Hxt]. apply not_elem_of_cons in Hxt as [Hxa _].
    assert (a ∉ done) as Had by (intros Hd; by apply (Hdisj a Hd); left).
    apply path_app in Hpath as [_ [(t' & Ht' & Hnext) _]]. unfold thread_at in Ht. rewrite Ht in Ht'. injection Ht' as <-.
    assert (thread_at (set_sched k s') a = Some t) as Hta.
    { unfold thread_at. cbn. rewrite (rp_other _ _ _ _ _ _ _ _ Hrp a); [done|by intros ->|done]. }
    pose proof (rp_x _ _ _ _ _ _ _ _ Hrp) as Hpx. cbn [hd] in Hpx.
    apply wp_bind. apply (wp_get_thread _ _ t _ Hta). rewrite (proj2 (Z.eqb_eq _ _) Hts).
    eapply wp_ok; [exact (reap_body_spec (set_sched k s') x a _ t Hpx Hta Hxa Hl Hpos)|]. cbn [hd length].
    exists (Z.of_nat (length todo)). split; [lia|].
    exists (done ++ [a]), todo, (reap_one x a (if bool_decide (done = []) then p else set_next p a) t s').
    split_and!; [by rewrite <- app_assoc|done|done|done|].
    apply (reaped_step x y p R done a todo (k_sched k) s' t); try done. by apply HrsR.
Qed.

(** * [schedule] *)

(** The processor has been given to [y], the scheduler's data being [s]
    except for what the context switch saves in [x]. *)
Record dispatched (fred : bool) (x y : Z) (s : sched_t) (k k' : kernel) : Prop := mk_dispatched {
  dp_mem : k_mem k' = k_mem k;
  dp_frame : k_hhdm k' = k_hhdm k ∧ k_locks k' = k_locks k ∧ k_pmm k' = k_pmm k ∧ k_heap k' = k_heap k ∧
    k_pagemaps k' = k_pagemaps k ∧ k_dev k' = k_dev k;
  dp_threads : threads (k_sched k') = threads s ∧ threads_to_reap (k_sched k') = threads_to_reap s;
  dp_stay : x = y → k_sched k' = s ∧ k_cpu k' = set_cr8 (k_cpu k) 0;
  dp_switch : x ≠ y → ∃ p n pm,
    thread_tab s !! x = Some p ∧ thread_tab s !! y = Some n ∧ k_pagemaps k !! t_pagemap n = Some pm ∧
    k_cpu k' = resumed fred (u64 (top_level pm - k_hhdm k)) n (k_cpu k) ∧
    thread_tab (k_sched k') = <[x := saved (k_cpu k) p]> (thread_tab s) ∧ current_thread (k_sched k') = y
}.

Lemma unlock_locks l k : can_lock l k → ({[l]} ∪ k_locks k) ∖ {[l]} = k_locks k.
Proof.
  intros [_ H]. rewrite difference_union_distr_l_L, difference_diag_L, union_empty_l_L, difference_disjoint_L; [done|set_solver].
Qed.

(** The end of [schedule], from the state in which the next thread is known. *)
Lemma dispatch_spec fred k s t x y p n :
  can_lock scheduler_spinlock k → thread_tab s !! x = Some p → thread_tab s !! y = Some n →
  is_Some (k_pagemaps k !! t_pagemap n) →
  wp (if y =? x then spinlock_unlock scheduler_spinlock 0 else switch_threads fred 0 x y)
     (set_ms (set_sched (locked scheduler_spinlock k) s) t) (λ _ k', dispatched fred x y s k k').
Proof.
  intros Hl Hp Hn [pm Hpm]. destruct (Z.eqb_spec y x) as [->|Hne].
  - eapply wp_ok; [apply spinlock_unlock_ok; cbn; unfold IRQL_DISPATCH; lia|].
    split; cbn; try done. split_and!; try done. by apply unlock_locks.
  - eapply wp_ok; [apply (switch_threads_spec fred _ x y p n pm); try done; cbn; unfold IRQL_DISPATCH; lia|].
    split; cbn; try done; [split_and!; try done; by apply unlock_locks|]. intros _.
    exists p, n, pm. split_and!; try done. unfold resumed. by destruct fred, (negb (is_user_task n =? 0)).
Qed.

Lemma ring_candidates k x l :
  ring_of k (x :: l) → path (thread_tab (k_sched k)) (l ++ [x]) (hd x l) ∧ threads (k_sched k) = x.
Proof.
  intros [Hnd Hp (l' & Heq) _ _]. injection Heq as Hx _. rewrite <- Hx in Hp. destruct Hp as [(t & Ht & Hn) Hp].
  split; [|done]. apply path_app. split; [done|]. split; [|done]. by exists t.
Qed.

Section schedule.
Context (elapsed : Z → Z) (Helapsed : ∀ t, 0 <= elapsed t) (fred : bool).
Set Default Proof Using "All".

(** The threads of the ring have address spaces. *)
Definition have_pagemaps (k : kernel) (l : list Z) : Prop :=
  ∀ a t, a ∈ l → thread_at k a = Some t → is_Some (k_pagemaps k !! t_pagemap t).

Lemma unlink_none k x y : not_reaping k y → unlink_reaping x y k = Ok (y, k).
Proof using.
  intros (n & Hn & Hst).
  assert (wp (unlink_reaping x y) k (λ r k', r = y ∧ k' = k)) as (? & ? & ? & -> & ->)%wp_inv; [|done].
  unfold unlink_reaping. apply (wp_while _ (λ _ a s, a = y ∧ s = k)) with (n := 0); [|lia|done].
  intros m a s _ [-> ->]. apply wp_bind. apply (wp_get_thread _ _ n _ Hn). by rewrite (proj2 (Z.eqb_neq _ _) Hst).
Qed.

(** Selection: from the lock to the first thread that is awake. *)
Lemma select_spec k x l y0 (Q : unit → kernel → Prop) :
  ring_of k (x :: l) → can_lock scheduler_spinlock k → y0 ∈ l ++ [x] → awake k (k_ms k) y0 →
  (∀ pre y post now t, l ++ [x] = pre ++ y :: post → (∀ a, a ∈ pre → sleeping k (k_ms k) a) → awake k now y →
    now = reading elapsed (k_ms k) (length pre) → k_ms k <= now <= t →
    wp (let* next := unlink_reaping x y in
        if next =? x then spinlock_unlock scheduler_spinlock 0 else switch_threads fred 0 x next)
       (set_ms (set_sched (locked scheduler_spinlock k) (set_threads (k_sched k) y)) t) Q) →
  wp (schedule elapsed false fred) k Q.
Proof.
  intros Hr Hl Hy0 Haw HQ. destruct (ring_candidates k x l Hr) as [Hpath Hx]. pose proof (ri_len _ _ Hr) as Hlen.
  unfold schedule. apply wp_bind, wp_spinlock_lock; [done|]. apply wp_bind, wp_gets.
  change (threads (k_sched (locked scheduler_spinlock k))) with (threads (k_sched k)). rewrite Hx.
  destruct (path_lookup _ _ _ x Hpath) as [p Hp]; [apply elem_of_app; right; left|].
  apply wp_bind. apply (wp_get_thread _ _ p); [exact Hp|]. unfold modify_sched. wp_step. set (k1 := set_sched _ _).
  assert (next_thread p = hd x l) as Hnext.
  { apply path_app in Hpath as [_ [(p' & Hp' & Hn') _]]. cbn in Hn'. rewrite <- Hn'. rewrite Hp in Hp'. by injection Hp' as ->. }
  apply list_elem_of_split in Hy0 as (pre0 & post0 & Hc).
  apply wp_bind. eapply wp_mono; [apply (skip_sleeping_spec elapsed Helapsed k1 (l ++ [x]) (hd x l) pre0 y0 post0 Hpath Hc)|].
  - apply (f_equal length) in Hc. rewrite !length_app in Hc. cbn in Hlen, Hc. lia.
  - exact Haw.
  - unfold k1. cbn. rewrite Hnext. by destruct l.
  - intros u k2 (pre & y & post & now & t & Hc' & Hpre & Hy & Hrd & Ht & ->). apply wp_bind, wp_gets.
    cbn [at_thread k_sched set_ms set_sched set_threads threads].
    exact (HQ pre y post now t Hc' Hpre Hy Hrd Ht).
Qed.

(** Rotating a ring. *)
Lemma ring_rotate k k' x l pre y post :
  ring_of k (x :: l) → l ++ [x] = pre ++ y :: post → threads (k_sched k') = y →
  (∀ a t, thread_at k a = Some t → ∃ t', thread_at k' a = Some t' ∧ next_thread t' = next_thread t) →
  ring_of k' (y :: post ++ pre).
Proof using.
  intros Hr Hc Hy Hext. destruct (ring_candidates k x l Hr) as [Hpath Hx]. destruct Hr as [Hnd _ _ Hlen Hnull].
  assert (x :: l ≡ₚ y :: post ++ pre) as Hperm.
  { rewrite Permutation_cons_append, Hc. by rewrite Permutation_app_comm. }
  rewrite Hc in Hpath. apply path_app in Hpath as [Hp1 Hp2].
  split.
  - by rewrite <- Hperm.
  - apply (path_ext (thread_tab (k_sched k))); [intros a t _; apply Hext|]. rewrite Hy.
    change (y :: post ++ pre) with ((y :: post) ++ pre). apply path_app. cbn [hd] in Hp1. split; [|done].
    replace (hd y pre) with (hd x l); [exact Hp2|].
    destruct pre as [|c pre], l as [|d l]; cbn in Hc |- *; congruence.
  - rewrite Hy. by eexists.
  - by rewrite <- Hperm.
  - by rewrite <- Hperm.
Qed.
End schedule.

Lemma schedule_spec elapsed fred k x l y0 :
  (∀ t, 0 <= elapsed t) → ring_of k (x :: l) → can_lock scheduler_spinlock k → have_pagemaps k (x :: l) →
  (∀ a, a ∈ x :: l → not_reaping k a) → y0 ∈ x :: l → awake k (k_ms k) y0 →
  wp (schedule elapsed false fred) k (λ _ k', ∃ pre y post now,
    l ++ [x] = pre ++ y :: post ∧ (∀ a, a ∈ pre → sleeping k (k_ms k) a) ∧ awake k now y ∧ k_ms k <= now ∧
    ring_of k' (y :: post ++ pre) ∧ dispatched fred x y (set_threads (k_sched k) y) k k').
Proof.
  intros He Hr Hl Hpms Hnr Hy0 Haw.
  assert (∀ a, a ∈ l ++ [x] ↔ a ∈ x :: l) as Hin by set_solver.
  apply (select_spec elapsed He fred k x l y0); [done|done|by apply Hin|done|].
  intros pre y post now t Hc Hpre Hy _ Ht. set (k1 := set_ms _ t).
  assert (y ∈ x :: l) as Hyin by (apply Hin; rewrite Hc; apply elem_of_app; right; left).
  destruct (Hnr y Hyin) as (n & Hn & Hst). destruct (Hnr x ltac:(left)) as (p & Hp & _).
  apply wp_bind. eapply wp_ok; [apply unlink_none; by exists n|].
  eapply wp_mono; [apply (dispatch_spec fred k (set_threads (k_sched k) y) t x y p n Hl Hp Hn); by apply (Hpms y)|].
  intros u k' Hd. exists pre, y, post, now. split_and!; try done; [lia|].
  apply (ring_rotate k k' x l pre y post Hr Hc); [apply Hd|].
  intros a v Hv. destruct (decide (x = y)) as [Hxy|Hxy].
  - destruct (dp_stay _ _ _ _ _ _ Hd Hxy) as [Hs _]. exists v. unfold thread_at. by rewrite Hs.
  - destruct (dp_switch _ _ _ _ _ _ Hd Hxy) as (p' & n' & pm & Hp' & _ & _ & _ & Htab & _). unfold thread_at. rewrite Htab.
    destruct (decide (a = x)) as [->|Hax]; [|rewrite lookup_insert_ne by done; by exists v].
    rewrite lookup_insert_eq. eexists. split; [done|]. cbn in Hp'. unfold thread_at in Hv. rewrite Hv in Hp'.
    injection Hp' as <-. unfold saved. by destruct (negb _).
Qed.

(** (C15) Scheduling: with no dead thread in the ring and some thread awake,
    [schedule] returns, having given the processor to the first thread after
    the running one that is awake when it is looked at; the threads it passed
    over are all asleep, the ring has been rotated to start with the chosen
    thread and no thread has been lost, and the switch loads that thread's
    address space, stacks and registers and saves those of the other, with the
    lock released and interrupts of every level allowed. *)
Theorem schedule_correct elapsed fred k x l y0 :
  (∀ t, 0 <= elapsed t) → ring_of k (x :: l) → can_lock scheduler_spinlock k → have_pagemaps k (x :: l) →
  (∀ a, a ∈ x :: l → not_reaping k a) → y0 ∈ x :: l → awake k (k_ms k) y0 →
  ∃ pre y post now k', schedule elapsed false fred k = Ok (tt, k') ∧
    l ++ [x] = pre ++ y :: post ∧ (∀ a, a ∈ pre → sleeping k (k_ms k) a) ∧ awake k now y ∧ k_ms k <= now ∧
    ring_of k' (y :: post ++ pre) ∧ dispatched fred x y (set_threads (k_sched k) y) k k'.
Proof.
  intros He Hr Hl Hpms Hnr Hy0 Haw.
  destruct (wp_inv _ _ _ (schedule_spec elapsed fred k x l y0 He Hr Hl Hpms Hnr Hy0 Haw)) as ([] & k' & H & pre & y & post & now & H').
  by exists pre, y, post, now, k'.
Qed.

(** ** Dead threads *)

(** The reaper's list: threads outside the ring. *)
Record reap_list (k : kernel) (R : list Z) : Prop := mk_reap_list {
  rl_path : path (thread_tab (k_sched k)) R 0;
  rl_head : threads_to_reap (k_sched k) = hd 0 R
}.

Lemma saved_next c p : next_thread (saved c p) = next_thread p.
Proof. unfold saved. by destruct (negb _). Qed.

(** The links survive the context switch. *)
Lemma dispatched_links fred x y s k k' a t :
  dispatched fred x y s k k' → thread_tab s !! a = Some t →
  ∃ t', thread_at k' a = Some t' ∧ next_thread t' = next_thread t.
Proof.
  intros Hd Ht. unfold thread_at. destruct (decide (x = y)) as [Hxy|Hxy].
  - destruct (dp_stay _ _ _ _ _ _ Hd Hxy) as [-> _]. by exists t.
  - destruct (dp_switch _ _ _ _ _ _ Hd Hxy) as (p & n & pm & Hp & _ & _ & _ & -> & _).
    destruct (decide (a = x)) as [->|Hax]; [|rewrite lookup_insert_ne by done; by exists t].
    rewrite lookup_insert_eq. eexists. split; [done|]. rewrite saved_next. congruence.
Qed.

(** Taking [rs] out of the ring, with the threads [pre] before them that were
    passed over, leaves a ring. *)
Lemma reaped_ring k k' x pre rs rest y post p s R :
  ring_of k (x :: pre ++ rs ++ rest) → rest ++ [x] = y :: post → rs ≠ [] → reaped x y p R rs [] (k_sched k) s →
  threads (k_sched k') = y →
  (∀ a t, thread_tab s !! a = Some t → ∃ t', thread_at k' a = Some t' ∧ next_thread t' = next_thread t) →
  ring_of k' (y :: post).
Proof.
  intros Hr Hrest Hrs Hrp Hy Hext. destruct (ring_candidates k x _ Hr) as [Hpath _]. destruct Hr as [Hnd _ _ Hlen Hnull].
  apply NoDup_cons in Hnd as [Hx Hnd]. apply NoDup_app in Hnd as (_ & _ & Hnd). apply NoDup_app in Hnd as (Hnd1 & Hdisj & Hnd2).
  apply not_elem_of_app in Hx as [_ Hx]. apply not_elem_of_app in Hx as [Hx1 Hx2].
  rewrite <- !app_assoc, Hrest in Hpath. apply path_app in Hpath as [_ Hpath]. apply path_app in Hpath as [_ Hpath]. rewrite <- Hrest in Hpath |- *.
  apply path_app in Hpath as [Hp1 _]. cbn [hd] in Hp1. split.
  - apply NoDup_app. split_and!; [done| |apply NoDup_singleton]. intros a Ha Hax. apply list_elem_of_singleton in Hax as ->. done.
  - rewrite Hy. apply (path_ext (thread_tab s)); [intros a t _; apply Hext|]. apply path_app. split.
    + apply (path_ext (thread_tab (k_sched k))); [|exact Hp1]. intros a t Ha Ht. exists t. split; [|done].
      rewrite (rp_other _ _ _ _ _ _ _ _ Hrp); [done|by intros ->|]. intros Hrsa. by apply (Hdisj a Hrsa).
    + split; [|done]. eexists. split; [exact (rp_x _ _ _ _ _ _ _ _ Hrp)|]. by rewrite bool_decide_eq_false_2 by done.
  - rewrite Hy. by exists post.
  - rewrite length_cons, !length_app in Hlen. rewrite length_app. cbn. lia.
  - apply not_elem_of_cons in Hnull as [H0 H1]. apply not_elem_of_app in H1 as [_ H1]. apply not_elem_of_app in H1 as [_ H1].
    rewrite elem_of_app, list_elem_of_singleton. naive_solver.
Qed.

(** The first dead thread is selected: those before it are asleep when they are
    asked, and it is awake from the beginning. *)
Lemma selected_dead elapsed k pre r l pre' y' post' now :
  pre ++ r :: l = pre' ++ y' :: post' → (∀ i a, pre !! i = Some a → sleeping k (reading elapsed (k_ms k) i) a) → awake k (k_ms k) r →
  (∀ a, a ∈ pre' → sleeping k (k_ms k) a) → awake k now y' → now = reading elapsed (k_ms k) (length pre') → y' = r.
Proof.
  intros Hc Hsl Haw Hpre' Hy' Hnow. destruct (Nat.lt_trichotomy (length pre') (length pre)) as [Hlt|[Heq|Hgt]].
  - exfalso. assert (pre !! length pre' = Some y') as Hi.
    { assert ((pre ++ r :: l) !! length pre' = Some y') as E by (rewrite Hc; by apply list_lookup_middle). by rewrite lookup_app_l in E. }
    destruct (Hsl _ _ Hi) as (u & Hu & ?), Hy' as (u' & Hu' & ?). rewrite Hu in Hu'. injection Hu' as <-. lia.
  - apply (f_equal (λ c, c !! length pre')) in Hc. rewrite list_lookup_middle in Hc by done. rewrite list_lookup_middle in Hc by done. by injection Hc.
  - exfalso. assert (r ∈ pre') as Hr.
    { apply list_elem_of_lookup. exists (length pre). assert ((pre' ++ y' :: post') !! length pre = Some r) as E by (rewrite <- Hc; by apply list_lookup_middle).
      by rewrite lookup_app_l in E. }
    destruct (Hpre' r Hr) as (u & Hu & ?), Haw as (u' & Hu' & ?). rewrite Hu in Hu'. injection Hu' as <-. lia.
Qed.

(** Collecting the dead threads [rs]: the running thread is linked to the thread
    behind them, past the sleeping threads [pre] before them. *)
Lemma collect_spec elapsed fred k x pre rs rest y post R :
  (∀ t, 0 <= elapsed t) → ring_of k (x :: pre ++ rs ++ rest) → rest ++ [x] = y :: post → rs ≠ [] →
  can_lock scheduler_spinlock k → reaper_spinlock ∉ k_locks k → have_pagemaps k (x :: pre ++ rs ++ rest) →
  (∀ i a, pre !! i = Some a → sleeping k (reading elapsed (k_ms k) i) a) →
  (∀ a, a ∈ rs → reaping k a) → awake k (k_ms k) (hd 0 rs) → not_reaping k y →
  reap_list k R → (∀ a, a ∈ x :: rs → a ∉ R) → (∀ a, a ∈ rs → 0 < a) →
  wp (schedule elapsed false fred) k (λ _ k', ring_of k' (y :: post) ∧ reap_list k' (reverse rs ++ R) ∧
    ∃ s, dispatched fred x y s k k' ∧ (∀ a, a ≠ x → a ∉ rs → thread_tab s !! a = thread_at k a)).
Proof.
  intros He Hr Hrest Hrs Hl Hrl Hpms Hsl Hdead Haw (n & Hn & Hst) [HR1 HR2] HdisjR Hpos.
  destruct rs as [|r rs]; [done|]. cbn [hd] in Haw.
  destruct (ring_candidates k x _ Hr) as [Hpath Hx].
  destruct (path_lookup _ _ _ x Hpath) as [p Hp]; [apply elem_of_app; right; left|].
  apply (select_spec elapsed He fred k x (pre ++ (r :: rs) ++ rest) r); [done|done|set_solver|done|].
  intros pre' y' post' now t Hc Hpre' Hy' Hnow Ht.
  assert (y' = r) as ->.
  { rewrite <- !app_assoc in Hc. cbn [app] in Hc. by apply (selected_dead elapsed k pre r (rs ++ rest ++ [x]) pre' y' post' now). }
  set (k1 := set_ms _ t). pose proof (ri_nodup _ _ Hr) as Hnd. apply NoDup_cons in Hnd as [Hxn Hnd].
  apply not_elem_of_app in Hxn as [_ Hxn]. apply not_elem_of_app in Hxn as [Hxrs Hxrest]. apply NoDup_app in Hnd as (_ & _ & Hnd). apply NoDup_app in Hnd as (Hnd & Hdj & _).
  assert (y ∉ r :: rs) as Hyrs.
  { intros Hin. destruct (Hdead y Hin) as (u & Hu & Hus). unfold thread_at in *. congruence. }
  rewrite <- !app_assoc, Hrest in Hpath. apply path_app in Hpath as [_ Hpath]. apply path_app in Hpath as [Hpath1 _]. cbn [hd] in Hpath1.
  pose proof (ri_len _ _ Hr) as Hlen. rewrite length_cons, !length_app, length_cons in Hlen.
  apply wp_bind. eapply wp_mono; [apply (unlink_reaping_spec k1 x y p R (r :: rs)); try done|].
  - intros a Ha. split; [by apply Hdead|by apply Hpos].
  - by exists n.
  - by apply HdisjR; left.
  - intros a Ha. apply HdisjR. by right.
  - cbn [length]. lia.
  - split; [cbn; unfold IRQL_DISPATCH; lia|]. cbn. set_solver.
  - intros q k2 (-> & s & -> & Hrp1).
    assert (reaped x y p R (r :: rs) [] (k_sched k) s) as Hrp by (by destruct Hrp1). change (set_sched k1 s) with (set_ms (set_sched (locked scheduler_spinlock k) s) t).
    assert (∃ n', thread_tab s !! y = Some n' ∧ t_pagemap n' = t_pagemap n) as (n' & Hn' & Hpmn).
    { destruct (decide (y = x)) as [->|Hyx].
      - eexists. split; [exact (rp_x _ _ _ _ _ _ _ _ Hrp)|]. unfold thread_at in *. rewrite Hp in Hn. by injection Hn as ->.
      - exists n. rewrite (rp_other _ _ _ _ _ _ _ _ Hrp y Hyx Hyrs). by split. }
    eapply wp_mono; [apply (dispatch_spec fred k s t x y _ n' Hl (rp_x _ _ _ _ _ _ _ _ Hrp) Hn')|].
    { rewrite Hpmn. apply (Hpms y n); [|done]. assert (y ∈ rest ++ [x]) as Hy by (rewrite Hrest; left). set_solver. }
    intros u k' Hd. split_and!.
    + apply (reaped_ring k k' x pre (r :: rs) rest y post p s R Hr Hrest Hrs Hrp).
      * rewrite (proj1 (dp_threads _ _ _ _ _ _ Hd)). exact (rp_threads _ _ _ _ _ _ _ _ Hrp).
      * intros a v. by apply (dispatched_links fred x y s k k').
    + split.
      * apply (path_ext (thread_tab s)); [|exact (rp_chain _ _ _ _ _ _ _ _ Hrp)].
        intros a v _. by apply (dispatched_links fred x y s k k').
      * rewrite (proj2 (dp_threads _ _ _ _ _ _ Hd)). exact (rp_head _ _ _ _ _ _ _ _ Hrp).
    + exists s. split; [done|]. exact (rp_other _ _ _ _ _ _ _ _ Hrp).
Qed.

(** (C22) Dead threads are collected: when the threads directly after the running
    one are dead and the first of them is awake, [schedule] takes exactly these
    out of the ring, puts them on the reaper's list, keeps all the others in
    their order and dispatches the first thread behind them. *)
Theorem schedule_collects_dead elapsed fred k x rs rest y post R :
  (∀ t, 0 <= elapsed t) → ring_of k (x :: rs ++ rest) → rest ++ [x] = y :: post → rs ≠ [] →
  can_lock scheduler_spinlock k → reaper_spinlock ∉ k_locks k → have_pagemaps k (x :: rs ++ rest) →
  (∀ a, a ∈ rs → reaping k a) → awake k (k_ms k) (hd 0 rs) → not_reaping k y →
  reap_list k R → (∀ a, a ∈ x :: rs → a ∉ R) → (∀ a, a ∈ rs → 0 < a) →
  ∃ k', schedule elapsed false fred k = Ok (tt, k') ∧
    ring_of k' (y :: post) ∧ reap_list k' (reverse rs ++ R) ∧
    ∃ s, dispatched fred x y s k k' ∧ (∀ a, a ≠ x → a ∉ rs → thread_tab s !! a = thread_at k a).
Proof.
  intros He Hr Hrest Hrs Hl Hrl Hpms Hdead Haw Hy HR HdisjR Hpos.
  destruct (wp_inv _ _ _ (collect_spec elapsed fred k x [] rs rest y post R He Hr Hrest Hrs Hl Hrl Hpms ltac:(done) Hdead Haw Hy HR HdisjR Hpos))
    as ([] & k' & H & H'). by exists k'.
Qed.

(** (C40) Sleeping threads are lost: when the threads [pre] between the running
    one and the next dead ones are asleep, collecting the dead threads links the
    running thread past them.  Afterwards the ring consists of the threads behind
    the dead ones and the running one; the sleeping threads, whose structures have
    not changed, are neither in the ring nor on the reaper's list, so that they
    never run again. *)
Theorem schedule_loses_sleeper elapsed fred k x pre rs rest y post R :
  (∀ t, 0 <= elapsed t) → ring_of k (x :: pre ++ rs ++ rest) → rest ++ [x] = y :: post → rs ≠ [] →
  can_lock scheduler_spinlock k → reaper_spinlock ∉ k_locks k → have_pagemaps k (x :: pre ++ rs ++ rest) →
  (∀ i a, pre !! i = Some a → sleeping k (reading elapsed (k_ms k) i) a) →
  (∀ a, a ∈ rs → reaping k a) → awake k (k_ms k) (hd 0 rs) → not_reaping k y →
  reap_list k R → (∀ a, a ∈ x :: pre ++ rs → a ∉ R) → (∀ a, a ∈ rs → 0 < a) →
  ∃ k', schedule elapsed false fred k = Ok (tt, k') ∧ ring_of k' (y :: post) ∧ reap_list k' (reverse rs ++ R) ∧
    ∀ a, a ∈ pre → (a ∉ y :: post) ∧ (a ∉ reverse rs ++ R) ∧ thread_at k' a = thread_at k a.
Proof.
  intros He Hr Hrest Hrs Hl Hrl Hpms Hsl Hdead Haw Hy HR HdisjR Hpos.
  destruct (wp_inv _ _ _ (collect_spec elapsed fred k x pre rs rest y post R He Hr Hrest Hrs Hl Hrl Hpms Hsl Hdead Haw Hy HR ltac:(set_solver) Hpos))
    as ([] & k' & H & Hring & Hreap & s & Hd & Hs). exists k'. split_and!; try done.
  intros a Ha. pose proof (ri_nodup _ _ Hr) as Hnd. apply NoDup_cons in Hnd as [Hx Hnd]. apply NoDup_app in Hnd as (_ & Hdj & _).
  specialize (Hdj a Ha). rewrite <- Hrest. split_and!; [set_solver|rewrite elem_of_app, elem_of_reverse; set_solver|].
  assert (a ≠ x) as Hax by set_solver. rewrite <- (Hs a Hax) by set_solver. unfold thread_at.
  destruct (decide (x = y)) as [Hxy|Hxy]; [by destruct (dp_stay _ _ _ _ _ _ Hd Hxy) as [-> _]|].
  destruct (dp_switch _ _ _ _ _ _ Hd Hxy) as (p & n & pm & _ & _ & _ & _ & -> & _). by rewrite lookup_insert_ne.
Qed.

(** * New threads *)

Lemma link_thread_behind k a x t p :
  can_lock scheduler_spinlock k → thread_at k a = Some t → thread_at k x = Some p → threads (k_sched k) = x → a ≠ x →
  link_thread true a k = Ok (tt, set_sched k (set_thread_tab (k_sched k)
    (<[x := set_next p a]> (<[a := set_next t (next_thread p)]> (thread_tab (k_sched k)))))).
Proof.
  intros Hl Ht Hp Hx Hax. unfold link_thread. rewrite (bind_ok _ _ _ _ _ (spinlock_lock_ok _ _ Hl)).
  rewrite (bind_ok _ _ _ _ _ (get_thread_ok (locked _ k) a t Ht)). cbn [negb].
  set (m := bind (gets _) _).
  assert (m (locked scheduler_spinlock k) = Ok (tt, set_sched (locked scheduler_spinlock k) (set_thread_tab (k_sched k)
    (<[x := set_next p a]> (<[a := set_next t (next_thread p)]> (thread_tab (k_sched k))))))) as Hm.
  { unfold m. rewrite (bind_ok (gets _) _ _ _ _ eq_refl).
    change (threads (k_sched (locked scheduler_spinlock k))) with (threads (k_sched k)). rewrite Hx.
    rewrite (bind_ok _ _ _ _ _ (get_thread_ok (locked _ k) x p Hp)). unfold put_thread, modify_sched.
    rewrite (bind_ok (modify _) _ _ tt _ eq_refl). set (k1 := set_sched _ _).
    assert (thread_at k1 x = Some p) as Hp1 by (unfold thread_at, k1; cbn; by rewrite lookup_insert_ne).
    rewrite (bind_ok _ _ _ _ _ (get_thread_ok k1 x p Hp1)). reflexivity. }
  rewrite (bind_ok _ _ _ _ _ Hm). by apply unlock_sched.
Qed.

Lemma link_thread_first k a t :
  can_lock scheduler_spinlock k → thread_at k a = Some t →
  link_thread false a k = Ok (tt, set_sched k (set_thread_tab (set_threads (k_sched k) a)
    (<[a := set_next t a]> (thread_tab (k_sched k))))).
Proof.
  intros Hl Ht. unfold link_thread. rewrite (bind_ok _ _ _ _ _ (spinlock_lock_ok _ _ Hl)).
  rewrite (bind_ok _ _ _ _ _ (get_thread_ok (locked _ k) a t Ht)). cbn [negb]. unfold put_thread, modify_sched.
  match goal with |- bind ?m _ ?s = _ => rewrite (bind_ok m _ s tt _ eq_refl) end. exact (unlock_sched _ _ _ Hl).
Qed.

(** A new thread joins the ring directly after the running one, so it is
    the next to be considered, all others keep their order, and the first
    thread ever created forms a ring of its own. *)
Theorem link_thread_correct k a t :
  can_lock scheduler_spinlock k → thread_at k a = Some t → a ≠ 0 →
  (∀ x l, ring_of k (x :: l) → a ∉ x :: l → Z.of_nat (length l) + 2 < 2 ^ 62 →
     ∃ k', link_thread true a k = Ok (tt, k') ∧ ring_of k' (x :: a :: l) ∧
       ∀ b u, thread_at k b = Some u → ∃ n, thread_at k' b = Some (set_next u n)) ∧
  (∃ k', link_thread false a k = Ok (tt, k') ∧ ring_of k' [a] ∧ thread_at k' a = Some (set_next t a)).
Proof.
  intros Hl Ht Ha0. split.
  - intros x l Hr Hnin Hlen. destruct (ring_candidates k x l Hr) as [Hpath Hx]. apply not_elem_of_cons in Hnin as [Hax Hal].
    destruct Hr as [Hnd Hp _ _ Hnull]. rewrite Hx in Hp. destruct Hp as [(p & Hp & Hn) Hp'].
    eexists. split; [exact (link_thread_behind k a x t p Hl Ht Hp Hx Hax)|]. apply NoDup_cons in Hnd as [Hxl Hndl]. split; [split|]; cbn.
    + rewrite !NoDup_cons. split_and!; [|done|done]. rewrite elem_of_cons. naive_solver.
    + split; [eexists; by rewrite lookup_insert_eq|]. split.
      * eexists. rewrite lookup_insert_ne, lookup_insert_eq by done. split; [done|]. cbn. rewrite Hn. by destruct l.
      * apply (path_ext (thread_tab (k_sched k))); [|by rewrite Hx]. intros b u Hb Hu. exists u. split; [|done].
        rewrite !lookup_insert_ne; [done|intros ->; done..].
    + rewrite Hx. by eexists.
    + lia.
    + rewrite !elem_of_cons. rewrite elem_of_cons in Hnull. naive_solver.
    + intros b u Hu. unfold thread_at in *. cbn. destruct (decide (b = x)) as [->|Hbx].
      { rewrite lookup_insert_eq. rewrite Hp in Hu. injection Hu as <-. by eexists. }
      rewrite lookup_insert_ne by done. destruct (decide (b = a)) as [->|Hba].
      { rewrite lookup_insert_eq. rewrite Ht in Hu. injection Hu as <-. by eexists. }
      rewrite lookup_insert_ne by done. exists (next_thread u). by rewrite set_next_id.
  - eexists. split; [exact (link_thread_first k a t Hl Ht)|]. split; [|apply lookup_insert_eq]. split; cbn.
    + apply NoDup_singleton.
    + split; [|done]. eexists. by rewrite lookup_insert_eq.
    + by eexists.
    + lia.
    + rewrite list_elem_of_singleton. naive_solver.
Qed.
