(* ===== verification/SchedBoot.v ===== *)
(** A thread that is switched away and back resumes where it was, and concrete
    rings of threads on which the hypotheses of the scheduler's theorems hold. *)
From stdpp Require Import base tactics list gmap sets strings.
From Stdlib Require Import ZArith Lia.
From S2P Require Import Prelude Bits State Spinlock Pmm Heap Vmm Vma Libc Sched SchedInv.

(** * Two switches *)



(** * Concrete kernels *)
Module Threads.
(** A thread in the kernel's address space. *)
Definition mk (id next user sleep state : Z) : thread :=
  mk_thread id 0x5000 0x9000 (0x8000 + id) 0 kernel_pagemap 0 11 0 [] user sleep state next 0 0.

Definition kern (tab : gmap Z thread) (first reap : Z) : kernel :=
  set_cpu (set_sched (set_pagemaps (kernel0 0) {[ kernel_pagemap := mk_pagemap 0x4000 [] [] ]})
    (mk_sched first tab 5 reap first))
    (mk_cpu 0 0x4000 0x1234 0 0 77 [] 0x7fff0 true false false).

Lemma tab_lock tab f r l : can_lock l (kern tab f r).
Proof. split; [cbn; unfold IRQL_DISPATCH; lia|apply not_elem_of_empty]. Qed.

Definition still (t : Z) : Z := 0.
Lemma still_ok t : 0 <= still t.
Proof. done. Qed.

(** Three threads, the second one asleep. *)
Definition tab3 : gmap Z thread :=
  {[ 10 := mk 1 20 1 0 0; 20 := mk 2 30 0 900 0; 30 := mk 3 10 1 0 0 ]}.
Definition k3 : kernel := kern tab3 10 0.

Lemma k3_ring : ring_of k3 [10; 20; 30].
Proof.
  split; [|cbn; split_and!; eauto; eexists; split; reflexivity|by eexists|cbn; lia|].
  - repeat (constructor; [set_solver by lia|]). constructor.
  - set_solver by lia.
Qed.

Lemma tab_pagemaps tab f r l : (∀ a t, tab !! a = Some t → t_pagemap t = kernel_pagemap) → have_pagemaps (kern tab f r) l.
Proof. intros H a t _ Ht. rewrite (H a t Ht). eexists. apply lookup_singleton_eq. Qed.

Lemma tab3_pagemap a t : tab3 !! a = Some t → t_pagemap t = kernel_pagemap.
Proof.
  unfold tab3. intros H. repeat (apply lookup_insert_Some in H as [[<- <-]|[_ H]]; [done|]).
  apply lookup_singleton_Some in H as [<- <-]. done.
Qed.

(** A sleeping thread followed by a dead one. *)
Definition tab4 : gmap Z thread :=
  {[ 10 := mk 1 20 1 0 0; 20 := mk 2 30 1 900 0; 30 := mk 3 40 1 0 THREAD_STATE_REAPING; 40 := mk 4 10 1 0 0 ]}.
Definition k4 : kernel := kern tab4 10 0.

Lemma tab4_pagemap a t : tab4 !! a = Some t → t_pagemap t = kernel_pagemap.
Proof.
  unfold tab4. intros H. repeat (apply lookup_insert_Some in H as [[<- <-]|[_ H]]; [done|]).
  apply lookup_singleton_Some in H as [<- <-]. done.
Qed.

Lemma k4_ring : ring_of k4 [10; 20; 30; 40].
Proof.
  split; [|cbn; split_and!; eauto; eexists; split; reflexivity|by eexists|cbn; lia|].
  - repeat (constructor; [set_solver by lia|]). constructor.
  - set_solver by lia.
Qed.
End Threads.

Lemma schedule_correct_witness :
  ∃ y l k', schedule Threads.still false false Threads.k3 = Ok (tt, k') ∧ ring_of k' (y :: l).
Proof.
  destruct (schedule_correct Threads.still false Threads.k3 10 [20; 30] 30 Threads.still_ok Threads.k3_ring
    (Threads.tab_lock _ _ _ _) (Threads.tab_pagemaps _ _ _ _ Threads.tab3_pagemap))
    as (pre & y & post & now & k' & H1 & _ & _ & _ & _ & H2 & _).
  - intros a Ha. rewrite !elem_of_cons, elem_of_nil in Ha. destruct Ha as [->|[->|[->|[]]]]; (eexists; split; [reflexivity|done]).
  - set_solver.
  - eexists. split; [reflexivity|cbn; lia].
  - exists y, (post ++ pre), k'. split; [exact H1|exact H2].
Defined.

(** The thread that is awake gets the processor. *)
Example schedule_skips_sleeper :
  match schedule Threads.still false false Threads.k3 with
  | Ok (_, k') => threads (k_sched k') = 30 ∧ c_rsp (k_cpu k') = 0x8000 + 3 + 56
  | _ => False
  end.
Proof. vm_compute. split; reflexivity. Qed.

Lemma schedule_collects_dead_witness :
  ∃ k', schedule Threads.still false false
      (Threads.kern {[ 10 := Threads.mk 1 30 1 0 0; 30 := Threads.mk 3 40 1 0 THREAD_STATE_REAPING; 40 := Threads.mk 4 10 1 0 0 ]} 10 0)
      = Ok (tt, k') ∧ ring_of k' [40; 10] ∧ reap_list k' [30].
Proof.
  set (tab := {[ 10 := Threads.mk 1 30 1 0 0; 30 := Threads.mk 3 40 1 0 THREAD_STATE_REAPING; 40 := Threads.mk 4 10 1 0 0 ]} : gmap Z thread).
  destruct (schedule_collects_dead Threads.still false (Threads.kern tab 10 0) 10 [30] [40] 40 [10] []) as (k' & H1 & H2 & H3 & _).
  - exact Threads.still_ok.
  - split; [repeat (constructor; [set_solver by lia|]); constructor|cbn; split_and!; eauto; eexists; split; reflexivity|by eexists|cbn; lia|set_solver by lia].
  - reflexivity.
  - discriminate.
  - apply Threads.tab_lock.
  - apply not_elem_of_empty.
  - apply Threads.tab_pagemaps. intros a t H. unfold tab in H.
    repeat (apply lookup_insert_Some in H as [[<- <-]|[_ H]]; [done|]). apply lookup_singleton_Some in H as [<- <-]. done.
  - intros a Ha. apply list_elem_of_singleton in Ha as ->. eexists. split; reflexivity.
  - eexists. split; [reflexivity|cbn; lia].
  - eexists. split; [reflexivity|done].
  - split; reflexivity.
  - intros a _. apply not_elem_of_nil.
  - intros a Ha. apply list_elem_of_singleton in Ha as ->. lia.
  - exists k'. split; [exact H1|split; [exact H2|exact H3]].
Defined.

Lemma link_thread_correct_witness :
  ∃ k', link_thread true 40 (Threads.kern (<[40 := Threads.mk 4 0 1 0 0]> Threads.tab3) 10 0) = Ok (tt, k') ∧ ring_of k' [10; 40; 20; 30].
Proof.
  set (k := Threads.kern (<[40 := Threads.mk 4 0 1 0 0]> Threads.tab3) 10 0).
  destruct (proj1 (link_thread_correct k 40 (Threads.mk 4 0 1 0 0) (Threads.tab_lock _ _ _ _) eq_refl ltac:(lia)) 10 [20; 30])
    as (k' & H1 & H2 & _).
  - split; [repeat (constructor; [set_solver by lia|]); constructor|cbn; split_and!; eauto; eexists; split; reflexivity|by eexists|cbn; lia|set_solver by lia].
  - set_solver by lia.
  - cbn; lia.
  - exists k'. split; [exact H1|exact H2].
Defined.

(** Thread 20 sleeps between the running thread and the dead thread 30. *)
Lemma schedule_loses_sleeper_witness :
  ∃ k', schedule Threads.still false false Threads.k4 = Ok (tt, k') ∧ ring_of k' [40; 10] ∧ reap_list k' [30] ∧ thread_at k' 20 = thread_at Threads.k4 20.
Proof.
  destruct (schedule_loses_sleeper Threads.still false Threads.k4 10 [20] [30] [40] 40 [10] []) as (k' & H1 & H2 & H3 & H4).
  - exact Threads.still_ok.
  - exact Threads.k4_ring.
  - reflexivity.
  - discriminate.
  - apply Threads.tab_lock.
  - apply not_elem_of_empty.
  - apply Threads.tab_pagemaps, Threads.tab4_pagemap.
  - intros [|i] a Ha; [|done]. injection Ha as <-. eexists. split; [reflexivity|cbn; lia].
  - intros a Ha. apply list_elem_of_singleton in Ha as ->. eexists. split; reflexivity.
  - eexists. split; [reflexivity|cbn; lia].
  - eexists. split; [reflexivity|done].
  - split; reflexivity.
  - intros a _. apply not_elem_of_nil.
  - intros a Ha. apply list_elem_of_singleton in Ha as ->. lia.
  - exists k'. split; [exact H1|split; [exact H2|split; [exact H3|exact (proj2 (proj2 (H4 20 ltac:(left))))]]].
Defined.

