(* ===== verification/Io.v ===== *)
(** The machine around the kernel: device registers, model-specific registers
    and the CPU's control instructions, the globals of the drivers, and the
    accessors of [drivers/x86_64/ports.h], [msr.c], [cpuid.c], [utils/mmio.h]
    and [rflags.h].

    Hardware is an interface, [Hardware]: what a read returns may depend on
    everything the kernel did before.  Every access is recorded in the log, so
    that a theorem can say which accesses a driver makes and in which order. *)
From stdpp Require Import base tactics list gmap strings.
From Stdlib Require Import ZArith Lia.
From S2P Require Import Prelude Bits State.

(** * Accesses *)
Inductive event :=
  | Out8 (port v : Z) | In8 (port : Z) | In32 (port : Z)
  | Rdmsr (msr : Z) | Wrmsr (msr v : Z)
  | Rdtsc
  | MmioRd (width addr : Z) | MmioWr (width addr v : Z)
  | Rdcr (n : Z) | Wrcr (n v : Z)
  | Rddr (n : Z) | Wrdr (n v : Z)
  | Lgdt (base limit : Z) | Lidt (base limit : Z) | Ltr (sel : Z) | ReloadSegments
  | StoreTable (n : Z)   (* sgdt, sidt (base and limit), sldt, str *)
  | Hlt | Barrier
  | Printf (fmt : string) (args : list Z)   (* a call of printf *)
  | Term (bytes : list Z).                  (* flanterm_write *)

#[export] Instance event_eq_dec : EqDecision event.
Proof. solve_decision. Defined.

Record cpuid_regs := mk_cpuid { eax : Z; ebx : Z; ecx : Z; edx : Z }.

(** What the hardware answers, given the log (latest access first). *)
Class Hardware := {
  hw_read : list event → event → Z;
  hw_cpuid : list event → Z → Z → cpuid_regs
}.

(** [enum MSRs] of [drivers/x86_64/msr.h]. *)
Inductive MSRs :=
  | APIC_BASE | FRED_CONFIG | FRED_RSP0 | FRED_RSP1 | FRED_RSP2 | FRED_RSP3 | FRED_STKLVLS
  | x2APIC_ID | x2APIC_EOI | x2APIC_SVR | x2APIC_TIMER | x2APIC_TIMER_LINT0 | x2APIC_TIMER_LINT1 | x2APIC_TIMER_ICOUNT
  | x2APIC_TIMER_CCOUNT | x2APIC_TIMER_DIVIDE | TSC | TSC_DEADLINE | EFER | STAR | LSTAR
  | CSTAR | SFMASK | FSBAS | UGSBAS | KGSBAS.

Definition msr_number (m : MSRs) : Z :=
  match m with
  | APIC_BASE => 0x0000001B
  | FRED_CONFIG => 0x000001D4
  | FRED_RSP0 => 0x000001CC
  | FRED_RSP1 => 0x000001CD
  | FRED_RSP2 => 0x000001CE
  | FRED_RSP3 => 0x000001CF
  | FRED_STKLVLS => 0x000001D0
  | x2APIC_ID => 0x00000802
  | x2APIC_EOI => 0x0000080B
  | x2APIC_SVR => 0x0000080F
  | x2APIC_TIMER => 0x00000832
  | x2APIC_TIMER_LINT0 => 0x00000835
  | x2APIC_TIMER_LINT1 => 0x00000836
  | x2APIC_TIMER_ICOUNT => 0x00000838
  | x2APIC_TIMER_CCOUNT => 0x00000839
  | x2APIC_TIMER_DIVIDE => 0x0000083E
  | TSC => 0x00000010
  | TSC_DEADLINE => 0x000006E0
  | EFER => 0xC0000080
  | STAR => 0xC0000081
  | LSTAR => 0xC0000082
  | CSTAR => 0xC0000083
  | SFMASK => 0xC0000084
  | FSBAS => 0xC0000100
  | UGSBAS => 0xC0000101
  | KGSBAS => 0xC0000102
  end.

(** * Globals of the drivers *)
Inductive gvar :=
  | currentTimerSource | shouldSchedule | tsc_frequency | tsc_good
  | hpet_address | hpet_frequency | acpi_timer_address | acpi_timer_address_type
  | apic_address | serial_port | serial_enabled | serial_works | serial_buffer_index
  | cr4_smap_enabled | fred_enbled | dbg_enabled | dbgstub_enabled | ioapic_count
  | panic_count | xorshift_x | sink | line_len | archive | FB_WIDTH | FB_HEIGHT | fb_address | fb_pitch.

#[export] Instance gvar_eq_dec : EqDecision gvar.
Proof. solve_decision. Defined.

(** The function pointers, by the functions that are ever stored in them. *)
Inductive unmask_fn := unmask_irq_stub | use_pic_unmask_irq | use_ioapic_unmask_irq.
Inductive eoi_fn := send_eoi_stub | use_pic_send_eoi | use_xapic_send_eoi | use_x2apic_send_eoi.
Inductive sleep_fn := sleep_stub | use_pit_sleep_ms | use_hpet_sleep_ms | use_acpi_mmio_sleep_ms | use_acpi_port_sleep_ms.
Inductive get_ms_fn := get_ms_stub | use_xapic_get_ms | use_x2apic_get_ms.
Inductive get_id_fn := get_id_null | use_xapic_get_id | use_x2apic_get_id.
Inductive timer_isr_fn := timer_isr_null | use_xapic_deadline | use_xapic_periodic | use_x2apic_deadline | use_x2apic_periodic.

Record fptrs := mk_fptrs {
  f_unmask_irq : unmask_fn;
  f_send_eoi : eoi_fn;
  f_sleep_ms : sleep_fn;
  f_get_ms : get_ms_fn;
  f_apic_get_id : get_id_fn;
  f_apic_timer_isr : timer_isr_fn
}.

Record ioapic_t := mk_ioapic { address : Z; gsib : Z }.
Record ioapic_irq_overide_t := mk_overide { irq : Z; gsi : Z }.

(** Segment and interrupt descriptors ([gdt.h], [idt.c]). *)
Record GDTGDTEntry := mk_gdt {
  limit_low : Z; base_low : Z; base_mid : Z; access : Z; limit_high : Z; flags : Z; base_high : Z
}.
Inductive GDTEntry := gdt_entry (e : GDTGDTEntry) | tss_addr (a : Z).
Record IDTEntry := mk_idt {
  offset_low : Z; selector : Z; ist : Z; type_attr : Z; offset_mid : Z; offset_high : Z; zero : Z
}.

(** [struct file]: the functions that are ever stored in a file. *)
Inductive file_ops := tarfs_ops | kbd_ops | ps2Kbd_ops | serial_ops | tty_ops.
Record file := mk_file { path : list Z; ops : file_ops }.

(** [struct interrupt_frame] of [interupts/interupts.h]. *)
Record interrupt_frame := mk_frame {
  f_r15 : Z; f_r14 : Z; f_r13 : Z; f_r12 : Z; f_r11 : Z; f_r10 : Z; f_r9 : Z; f_r8 : Z;
  f_rbp : Z; f_rdi : Z; f_rsi : Z; f_rdx : Z; f_rcx : Z; f_rbx : Z; f_rax : Z;
  f_vector : Z; f_error : Z;
  f_ip : Z; f_cs : Z; f_flags : Z; f_rsp : Z; f_ss : Z
}.

Definition frame0 : interrupt_frame := mk_frame 0 0 0 0 0 0 0 0 0 0 0 0 0 0 0 0 0 0 0 0 0 0.

(** The globals of [drivers/dbgstub/dbgstub.c]; a buffer is a list of bytes. *)
Record stub_t := mk_stub {
  dbgstub_send_buffer : list Z;
  dbgstub_packet_send_buffer : list Z;
  dbgstub_packet_recv_buffer : list Z;
  dbgstub_packet_buffer_index : Z;
  last_frame : interrupt_frame;
  dbgstub_middle_of_packet : bool;
  dbgstub_end_of_packet : bool;
  dbgstub_end_of_packet_count : Z;
  dbgstub_paused : bool;
  dbgstub_continue : bool
}.
Definition stub0 : stub_t := mk_stub [] [] [] 0 frame0 false false 0 true false.

Record sys := mk_sys {
  s_k : kernel;
  s_log : list event;
  s_var : gvar → Z;
  s_fn : fptrs;
  s_ioapics : list ioapic_t;                   (* the list behind ioapic_head *)
  s_overides : list ioapic_irq_overide_t;      (* behind ioapic_irq_overide_head *)
  s_gdt : list GDTEntry;
  s_idt : list IDTEntry;
  s_tss_ist : list Z;
  s_serial_buffer : list Z;
  s_hbreakpoints : list Z;
  s_line_buffer : list Z;
  s_files : list file;                         (* the list behind files *)
  s_syscalls : bool;                           (* init_syscall has filled the table *)
  s_stub : stub_t
}.

Definition with_k (s : sys) (k : kernel) : sys :=
  mk_sys k (s_log s) (s_var s) (s_fn s) (s_ioapics s) (s_overides s) (s_gdt s) (s_idt s) (s_tss_ist s) (s_serial_buffer s) (s_hbreakpoints s) (s_line_buffer s) (s_files s) (s_syscalls s) (s_stub s).
Definition with_log (s : sys) (l : list event) : sys :=
  mk_sys (s_k s) l (s_var s) (s_fn s) (s_ioapics s) (s_overides s) (s_gdt s) (s_idt s) (s_tss_ist s) (s_serial_buffer s) (s_hbreakpoints s) (s_line_buffer s) (s_files s) (s_syscalls s) (s_stub s).
Definition with_var (s : sys) (v : gvar → Z) : sys :=
  mk_sys (s_k s) (s_log s) v (s_fn s) (s_ioapics s) (s_overides s) (s_gdt s) (s_idt s) (s_tss_ist s) (s_serial_buffer s) (s_hbreakpoints s) (s_line_buffer s) (s_files s) (s_syscalls s) (s_stub s).
Definition with_fn (s : sys) (f : fptrs) : sys :=
  mk_sys (s_k s) (s_log s) (s_var s) f (s_ioapics s) (s_overides s) (s_gdt s) (s_idt s) (s_tss_ist s) (s_serial_buffer s) (s_hbreakpoints s) (s_line_buffer s) (s_files s) (s_syscalls s) (s_stub s).
Definition with_ioapics (s : sys) (l : list ioapic_t) : sys :=
  mk_sys (s_k s) (s_log s) (s_var s) (s_fn s) l (s_overides s) (s_gdt s) (s_idt s) (s_tss_ist s) (s_serial_buffer s) (s_hbreakpoints s) (s_line_buffer s) (s_files s) (s_syscalls s) (s_stub s).
Definition with_overides (s : sys) (l : list ioapic_irq_overide_t) : sys :=
  mk_sys (s_k s) (s_log s) (s_var s) (s_fn s) (s_ioapics s) l (s_gdt s) (s_idt s) (s_tss_ist s) (s_serial_buffer s) (s_hbreakpoints s) (s_line_buffer s) (s_files s) (s_syscalls s) (s_stub s).
Definition with_gdt (s : sys) (l : list GDTEntry) : sys :=
  mk_sys (s_k s) (s_log s) (s_var s) (s_fn s) (s_ioapics s) (s_overides s) l (s_idt s) (s_tss_ist s) (s_serial_buffer s) (s_hbreakpoints s) (s_line_buffer s) (s_files s) (s_syscalls s) (s_stub s).
Definition with_idt (s : sys) (l : list IDTEntry) : sys :=
  mk_sys (s_k s) (s_log s) (s_var s) (s_fn s) (s_ioapics s) (s_overides s) (s_gdt s) l (s_tss_ist s) (s_serial_buffer s) (s_hbreakpoints s) (s_line_buffer s) (s_files s) (s_syscalls s) (s_stub s).
Definition with_tss_ist (s : sys) (l : list Z) : sys :=
  mk_sys (s_k s) (s_log s) (s_var s) (s_fn s) (s_ioapics s) (s_overides s) (s_gdt s) (s_idt s) l (s_serial_buffer s) (s_hbreakpoints s) (s_line_buffer s) (s_files s) (s_syscalls s) (s_stub s).
Definition with_serial_buffer (s : sys) (l : list Z) : sys :=
  mk_sys (s_k s) (s_log s) (s_var s) (s_fn s) (s_ioapics s) (s_overides s) (s_gdt s) (s_idt s) (s_tss_ist s) l (s_hbreakpoints s) (s_line_buffer s) (s_files s) (s_syscalls s) (s_stub s).
Definition with_hbreakpoints (s : sys) (l : list Z) : sys :=
  mk_sys (s_k s) (s_log s) (s_var s) (s_fn s) (s_ioapics s) (s_overides s) (s_gdt s) (s_idt s) (s_tss_ist s) (s_serial_buffer s) l (s_line_buffer s) (s_files s) (s_syscalls s) (s_stub s).
Definition with_line_buffer (s : sys) (l : list Z) : sys :=
  mk_sys (s_k s) (s_log s) (s_var s) (s_fn s) (s_ioapics s) (s_overides s) (s_gdt s) (s_idt s) (s_tss_ist s) (s_serial_buffer s) (s_hbreakpoints s) l (s_files s) (s_syscalls s) (s_stub s).
Definition with_files (s : sys) (l : list file) : sys :=
  mk_sys (s_k s) (s_log s) (s_var s) (s_fn s) (s_ioapics s) (s_overides s) (s_gdt s) (s_idt s) (s_tss_ist s) (s_serial_buffer s) (s_hbreakpoints s) (s_line_buffer s) l (s_syscalls s) (s_stub s).
Definition with_syscalls (s : sys) (b : bool) : sys :=
  mk_sys (s_k s) (s_log s) (s_var s) (s_fn s) (s_ioapics s) (s_overides s) (s_gdt s) (s_idt s) (s_tss_ist s) (s_serial_buffer s) (s_hbreakpoints s) (s_line_buffer s) (s_files s) b (s_stub s).
Definition with_stub (s : sys) (t : stub_t) : sys :=
  mk_sys (s_k s) (s_log s) (s_var s) (s_fn s) (s_ioapics s) (s_overides s) (s_gdt s) (s_idt s) (s_tss_ist s) (s_serial_buffer s) (s_hbreakpoints s) (s_line_buffer s) (s_files s) (s_syscalls s) t.

Definition rd (x : gvar) : M sys Z := gets (λ s, s_var s x).
Definition upd_var (f : gvar → Z) (x : gvar) (v : Z) : gvar → Z :=
  λ y, if bool_decide (y = x) then v else f y.
Definition wr (x : gvar) (v : Z) : M sys unit := modify (λ s, with_var s (upd_var (s_var s) x v)).

Lemma upd_var_eq f x v : upd_var f x v x = v.
Proof. unfold upd_var. by rewrite bool_decide_eq_true_2. Qed.
Lemma upd_var_ne f x y v : y ≠ x → upd_var f x v y = f y.
Proof. intros H. unfold upd_var. by rewrite bool_decide_eq_false_2. Qed.

Definition set_unmask_irq (v : unmask_fn) : M sys unit := modify (λ s, let f := s_fn s in
  with_fn s (mk_fptrs v (f_send_eoi f) (f_sleep_ms f) (f_get_ms f) (f_apic_get_id f) (f_apic_timer_isr f))).
Definition set_send_eoi (v : eoi_fn) : M sys unit := modify (λ s, let f := s_fn s in
  with_fn s (mk_fptrs (f_unmask_irq f) v (f_sleep_ms f) (f_get_ms f) (f_apic_get_id f) (f_apic_timer_isr f))).
Definition set_sleep_ms (v : sleep_fn) : M sys unit := modify (λ s, let f := s_fn s in
  with_fn s (mk_fptrs (f_unmask_irq f) (f_send_eoi f) v (f_get_ms f) (f_apic_get_id f) (f_apic_timer_isr f))).
Definition set_get_ms (v : get_ms_fn) : M sys unit := modify (λ s, let f := s_fn s in
  with_fn s (mk_fptrs (f_unmask_irq f) (f_send_eoi f) (f_sleep_ms f) v (f_apic_get_id f) (f_apic_timer_isr f))).
Definition set_apic_get_id (v : get_id_fn) : M sys unit := modify (λ s, let f := s_fn s in
  with_fn s (mk_fptrs (f_unmask_irq f) (f_send_eoi f) (f_sleep_ms f) (f_get_ms f) v (f_apic_timer_isr f))).
Definition set_apic_timer_isr (v : timer_isr_fn) : M sys unit := modify (λ s, let f := s_fn s in
  with_fn s (mk_fptrs (f_unmask_irq f) (f_send_eoi f) (f_sleep_ms f) (f_get_ms f) (f_apic_get_id f) v)).

(** A kernel operation run by a driver. *)
Definition kern {A} (m : M kernel A) : M sys A := λ s,
  match m (s_k s) with
  | Ok (a, k) => Ok (a, with_k s k)
  | Panic msg => Panic msg
  | Hang => Hang
  end.

Lemma wp_kern {A} (m : M kernel A) s Q :
  wp m (s_k s) (λ a k, Q a (with_k s k)) → wp (kern m) s Q.
Proof. unfold wp, kern. by destruct (m (s_k s)) as [[a k]| |]. Qed.

Definition emit (e : event) : M sys unit := modify (λ s, with_log s (e :: s_log s)).

(** [printf] in a driver records the call; [Stdio] has the function itself, with
    the formatter and the character output. *)
Definition printf (fmt : string) (args : list Z) : M sys unit := emit (Printf fmt args).

(** The state in which [kmain] starts: zeroed globals and the initialisers. *)
Definition fn0 : fptrs := mk_fptrs unmask_irq_stub send_eoi_stub sleep_stub get_ms_stub get_id_null timer_isr_null.
Definition var0 (x : gvar) : Z := if bool_decide (x = serial_port) then 0x3F8 else 0.
Definition gdt0 : GDTGDTEntry := mk_gdt 0 0 0 0 0 0 0.
Definition sys0 (k : kernel) : sys :=
  mk_sys k [] var0 fn0 [] [] (replicate 8 (gdt_entry gdt0)) (replicate 256 (mk_idt 0 0 0 0 0 0 0))
    (replicate 7 0) (replicate 256 0) (replicate 4 0) (replicate 256 0) [] false stub0.

Section ports.
Context `{Hardware}.

(** A read access of [w] bits. *)
Definition access_read (w : Z) (e : event) : M sys Z :=
  let* l := gets s_log in
  emit e ;;;
  ret (hw_read l e mod 2 ^ w).

(** * [drivers/x86_64/ports.h] *)
Definition outb (port val : Z) : M sys unit := emit (Out8 (u16 port) (u8 val)).
Definition inb (port : Z) : M sys Z := access_read 8 (In8 (u16 port)).
Definition io_wait : M sys unit := outb 0x80 0.
Definition outbd (port val : Z) : M sys unit := io_wait ;;; outb port val ;;; io_wait.
Definition inbd (port : Z) : M sys Z :=
  io_wait ;;; let* r := inb port in io_wait ;;; ret r.
Definition inl_ (port : Z) : M sys Z := access_read 32 (In32 (u16 port)).

(** * [drivers/x86_64/msr.c]: two halves in edx and eax *)
Definition rdmsr (msr : Z) : M sys Z :=
  let* v := access_read 64 (Rdmsr msr) in
  let low := u32 v in let high := u32 (Z.shiftr v 32) in
  ret (low + Z.shiftl high 32).
Definition wrmsr (msr value : Z) : M sys unit :=
  let low := Z.land value 0xFFFFFFFF in let high := u32 (Z.shiftr value 32) in
  emit (Wrmsr msr (low + Z.shiftl high 32)) ;;;
  (if msr =? msr_number FSBAS then kern (modify (λ k, set_cpu k (set_fsbas (k_cpu k) (low + Z.shiftl high 32)))) else ret tt).

(** * [drivers/x86_64/timers/tsc.h] *)
Definition read_tsc : M sys Z :=
  let* v := access_read 64 Rdtsc in
  let lo := u32 v in let hi := u32 (Z.shiftr v 32) in
  ret (Z.lor (Z.shiftl hi 32) lo).

(** * [utils/mmio.h] *)
Definition mmio_write_offset_64 (base_addr offset value : Z) : M sys unit := emit (MmioWr 64 (u64 (base_addr + offset)) (u64 value)).
Definition mmio_read_offset_64 (base_addr offset : Z) : M sys Z := access_read 64 (MmioRd 64 (u64 (base_addr + offset))).
Definition mmio_write_offset_32 (base_addr offset value : Z) : M sys unit := emit (MmioWr 32 (u64 (base_addr + offset)) (u32 value)).
Definition mmio_read_offset_32 (base_addr offset : Z) : M sys Z := access_read 32 (MmioRd 32 (u64 (base_addr + offset))).
Definition mmio_write_offset_8 (base_addr offset value : Z) : M sys unit := emit (MmioWr 8 (u64 (base_addr + offset)) (u8 value)).
Definition mmio_read_offset_8 (base_addr offset : Z) : M sys Z := access_read 8 (MmioRd 8 (u64 (base_addr + offset))).
Definition mmio_write_64 (addr value : Z) : M sys unit := emit (MmioWr 64 addr (u64 value)).
Definition mmio_read_64 (addr : Z) : M sys Z := access_read 64 (MmioRd 64 addr).
Definition mmio_write_32 (addr value : Z) : M sys unit := emit (MmioWr 32 addr (u32 value)).
Definition mmio_read_32 (addr : Z) : M sys Z := access_read 32 (MmioRd 32 addr).
Definition mmio_write_8 (addr value : Z) : M sys unit := emit (MmioWr 8 addr (u8 value)).
Definition mmio_read_8 (addr : Z) : M sys Z := access_read 8 (MmioRd 8 addr).

(** Control and debug registers. *)
Definition read_cr (n : Z) : M sys Z := access_read 64 (Rdcr n).
Definition write_cr (n v : Z) : M sys unit := emit (Wrcr n v).
Definition read_dr (n : Z) : M sys Z := access_read 64 (Rddr n).
Definition write_dr (n v : Z) : M sys unit := emit (Wrdr n v).

(** * [drivers/x86_64/rflags.h] *)
Definition rflags_set_ac : M sys unit :=
  let* smap := rd cr4_smap_enabled in
  if negb (smap =? 0) then kern (modify (λ k, set_cpu k (set_ac (k_cpu k) true))) else ret tt.
Definition rflags_clr_ac : M sys unit :=
  let* smap := rd cr4_smap_enabled in
  if negb (smap =? 0) then kern (modify (λ k, set_cpu k (set_ac (k_cpu k) false))) else ret tt.
End ports.

(** * Shared lemmas *)

(** Both halves of a 64-bit value put together again. *)
Lemma halves v : u32 v + Z.shiftl (u32 (Z.shiftr v 32)) 32 = u64 v.
Proof.
  unfold u32, u64. rewrite Z.shiftl_mul_pow2, Z.shiftr_div_pow2 by lia.
  replace (2 ^ 64) with (2 ^ 32 * 2 ^ 32) by reflexivity.
  rewrite (Z.rem_mul_r v) by lia. lia.
Qed.

Lemma halves_or v : Z.lor (Z.shiftl (u32 (Z.shiftr v 32)) 32) (u32 v) = u64 v.
Proof.
  rewrite <- halves, Z.add_comm, <- Z.add_lor_land.
  assert (Z.land (Z.shiftl (u32 (Z.shiftr v 32)) 32) (u32 v) = 0) as ->; [|lia].
  apply Z.bits_inj'. intros n Hn. rewrite Z.land_spec, Z.bits_0.
  destruct (Z.ltb_spec n 32).
  - by rewrite Z.shiftl_spec_low by lia.
  - unfold u32. rewrite (Z.mod_pow2_bits_high v) by lia. by rewrite andb_false_r.
Qed.
