(* ===== verification/Cpu.v ===== *)
(** Processor identification and set-up: [cpuid.c], [crX.c], [drX.h], [drX.c],
    [gdt.c], [idt.c] and the set-up half of [fred/fred.c]. *)
From stdpp Require Import base tactics list gmap strings.
From Stdlib Require Import ZArith Lia Ascii.
From S2P Require Import Prelude Bits State Io Str.

(** The anonymous enum of [cpuid.h]. *)
Inductive cpuid_const :=
  | CPUID_GET_MAX_STANDARD | CPUID_GET_FEATURES | CPUID_GET_FEATURES_EXT
  | CPUID_GET_FREQ_INFO1 | CPUID_GET_FREQ_INFO2 | CPUID_GET_MAX_EXTENDED
  | CPUID_GET_EXT_FEATURES | CPUID_GET_CAPABILITES
  | CPUID_1GB_PAGES | CPUID_x2APIC | CPUID_ADJUST_TSC | CPUID_INVARIANT_TSC
  | CPUID_LAPIC_TSC | CPUID_HYPERVISOR | CPUID_SMEP | CPUID_SMAP | CPUID_FRED
  | CPUID_EAX | CPUID_EBX | CPUID_ECX | CPUID_EDX
  | CPUID_NO_SUBLEAF | CPUID_SUBLEAF_1.

Definition cpuid_value (c : cpuid_const) : Z :=
  match c with
  | CPUID_GET_MAX_STANDARD => 0x00000000
  | CPUID_GET_FEATURES => 0x00000001
  | CPUID_GET_FEATURES_EXT => 0x00000007
  | CPUID_GET_FREQ_INFO1 => 0x00000015
  | CPUID_GET_FREQ_INFO2 => 0x00000016
  | CPUID_GET_MAX_EXTENDED => 0x80000000
  | CPUID_GET_EXT_FEATURES => 0x80000001
  | CPUID_GET_CAPABILITES => 0x80000007
  | CPUID_1GB_PAGES => 26
  | CPUID_x2APIC => 21
  | CPUID_ADJUST_TSC => 1
  | CPUID_INVARIANT_TSC => 8
  | CPUID_LAPIC_TSC => 24
  | CPUID_HYPERVISOR => 31
  | CPUID_SMEP => 7
  | CPUID_SMAP => 20
  | CPUID_FRED => 17
  | CPUID_EAX => chr "a"
  | CPUID_EBX => chr "b"
  | CPUID_ECX => chr "c"
  | CPUID_EDX => chr "d"
  | CPUID_NO_SUBLEAF => 0
  | CPUID_SUBLEAF_1 => 1
  end.
#[warnings="-uniform-inheritance"] Coercion cpuid_value : cpuid_const >-> Z.
Coercion msr_number : MSRs >-> Z.

Section cpu.
Context `{Hardware}.

(** * [cpuid.c] *)
Definition cpuid (leaf subleaf : Z) : M sys cpuid_regs :=
  let* l := gets s_log in
  let r := hw_cpuid l leaf subleaf in
  ret (mk_cpuid (u32 (eax r)) (u32 (ebx r)) (u32 (ecx r)) (u32 (edx r))).

Definition cpuid_standard_supported (leaf : Z) : M sys Z :=
  let* r := cpuid CPUID_GET_MAX_STANDARD 0 in
  ret (if eax r <? leaf then 0 else 1).

Definition cpuid_extended_supported (leaf : Z) : M sys Z :=
  let* r := cpuid CPUID_GET_MAX_EXTENDED 0 in
  ret (if eax r <? leaf then 0 else 1).

Definition cpu_feature_bit (leaf subleaf reg bit : Z) : M sys Z :=
  if (bit <? 0) || (31 <? bit) then ret 0
  else
    let* r := cpuid leaf subleaf in
    match (if reg =? chr "a" then Some (eax r) else if reg =? chr "b" then Some (ebx r)
           else if reg =? chr "c" then Some (ecx r) else if reg =? chr "d" then Some (edx r) else None) with
    | Some value => ret (Z.land (Z.shiftr value bit) 1)
    | None => ret 0
    end.

(** The four bytes of a register, as [memcpy] copies them. *)
Definition reg_bytes (r : Z) : list Z :=
  [Z.land r 0xFF; Z.land (Z.shiftr r 8) 0xFF; Z.land (Z.shiftr r 16) 0xFF; Z.land (Z.shiftr r 24) 0xFF].

Definition get_cpu_vendor : M sys (list Z) :=
  let* r := cpuid 0 0 in
  ret (reg_bytes (ebx r) ++ reg_bytes (edx r) ++ reg_bytes (ecx r) ++ [0]).

Definition get_hypervisor_id : M sys (list Z) :=
  let* hv := cpu_feature_bit 1 0 (chr "c") CPUID_HYPERVISOR in
  if negb (hv =? 0) then
    let* r := cpuid 0x40000000 0 in
    ret (reg_bytes (ebx r) ++ reg_bytes (ecx r) ++ reg_bytes (edx r) ++ [0])
  else ret (bytes "REALHARDWARE" ++ [0]).

Fixpoint cpu_name_loop (leaves : list Z) (name : list Z) : M sys (list Z) :=
  match leaves with
  | [] => ret name
  | i :: leaves' =>
      let* regs := cpuid i 0 in
      cpu_name_loop leaves' (name ++ reg_bytes (eax regs) ++ reg_bytes (ebx regs) ++ reg_bytes (ecx regs) ++ reg_bytes (edx regs))
  end.

Definition get_cpu_name : M sys (list Z) :=
  let* r := cpuid 0x80000000 0 in
  if eax r <? 0x80000004 then ret (bytes "NO CPU NAME" ++ [0])
  else
    let* name := cpu_name_loop [0x80000002; 0x80000003; 0x80000004] [] in
    ret (name ++ [0]).

(** * [crX.c] *)
Definition setup_cr0 : M sys unit :=
  let* rax := read_cr 0 in
  let rax := Z.clearbit rax 2 in    (* EM *)
  let rax := Z.clearbit rax 3 in    (* TS *)
  let rax := Z.setbit rax 1 in      (* MP *)
  let rax := Z.setbit rax 5 in      (* NE *)
  write_cr 0 rax ;;;
  printf "CRX: CR0 Setup\n" [].

(** [mov %cr4, %rax; bts $n, %rax; mov %rax, %cr4] *)
Definition cr4_set (n : Z) : M sys unit :=
  let* rax := read_cr 4 in write_cr 4 (Z.setbit rax n).

Definition setup_cr4 : M sys unit :=
  (let* rax := read_cr 4 in
   write_cr 4 (Z.setbit (Z.setbit (Z.setbit rax 4) 9) 10)) ;;;
  (let* sup := cpuid_standard_supported CPUID_GET_FEATURES_EXT in
   if negb (sup =? 0) then
     (let* smep := cpu_feature_bit CPUID_GET_FEATURES_EXT CPUID_NO_SUBLEAF CPUID_EBX CPUID_SMEP in
      if negb (smep =? 0) then cr4_set 20 ;;; printf "CRX: SMEP Enabled\n" []
      else printf "CRX: SMEP could not be enabled\n" []) ;;;
     (let* smap := cpu_feature_bit CPUID_GET_FEATURES_EXT CPUID_NO_SUBLEAF CPUID_EBX CPUID_SMAP in
      if negb (smap =? 0) then cr4_set 21 ;;; wr cr4_smap_enabled 1 ;;; printf "CRX: SMAP Enabled\n" []
      else wr cr4_smap_enabled 0 ;;; printf "CRX: SMAP could not be enabled\n" [])
   else printf "CRX: SMEP or SMAP could not be enabled\n" []) ;;;
  printf "CRX: CR4 Setup\n" [].

Definition setup_control_registers : M sys unit := setup_cr0 ;;; setup_cr4.

(** * [drX.h], [drX.c] *)
Definition drx_setbp (reg value : Z) : M sys unit :=
  if (0 <=? reg) && (reg <=? 3) then write_dr reg value else ret tt.

Definition drx_enablebp (reg : Z) : M sys unit :=
  let* dr7 := read_dr 7 in
  write_dr 7 (Z.lor dr7 (Z.shiftl 1 (reg * 2))).

Definition drx_disablebp (reg : Z) : M sys unit :=
  let* dr7 := read_dr 7 in
  write_dr 7 (Z.ldiff dr7 (Z.shiftl 3 (reg * 2))).

(** The second [asm] has [dr6 & ~0xF] as its input operand, but the
    instruction reads [dr6] once more: the register is not written. *)
Definition drx_cnc_bp : M sys bool :=
  let* dr6 := read_dr 6 in
  read_dr 6 ;;;
  ret (negb (Z.land dr6 0xF =? 0)).

Definition get_bp (i : Z) : M sys Z := gets (λ s, default 0 (s_hbreakpoints s !! Z.to_nat i)).
Definition put_bp (i v : Z) : M sys unit :=
  modify (λ s, with_hbreakpoints s (<[Z.to_nat i := v]> (s_hbreakpoints s))).

Fixpoint drx_alloc_loop (idx : list Z) (addr : Z) : M sys bool :=
  match idx with
  | [] => ret false
  | i :: idx' =>
      let* b := get_bp i in
      if b =? addr then ret false
      else if b =? 0 then
        put_bp i addr ;;; drx_setbp i addr ;;; drx_enablebp i ;;; ret true
      else drx_alloc_loop idx' addr
  end.

Definition drx_alloc_bp (addr : Z) : M sys bool :=
  if addr =? 0 then ret false else drx_alloc_loop [0; 1; 2; 3] addr.

Fixpoint drx_free_loop (idx : list Z) (addr : Z) : M sys bool :=
  match idx with
  | [] => ret false
  | i :: idx' =>
      let* b := get_bp i in
      if b =? addr then
        put_bp i 0 ;;; drx_setbp i 0 ;;; drx_enablebp i ;;; ret true
      else drx_free_loop idx' addr
  end.

Definition drx_free_bp (addr : Z) : M sys bool :=
  if addr =? 0 then ret false else drx_free_loop [0; 1; 2; 3] addr.
End cpu.

(** * [gdt.c] *)
Definition SIZEOF_TSS : Z := 104.

(** The addresses the linker gives to the objects the set-up code names. *)
Record symbols := mk_symbols {
  addr_tss : Z; addr_gdt : Z; addr_df_stack : Z; addr_nmi_stack : Z; addr_dbg_stack : Z;
  addr_idt : Z; addr_isr : Z → Z;          (* isr0xNN by vector *)
  addr_fred_entry : Z; addr_fred_kernel_stack : Z; addr_fred_df_stack : Z; addr_fred_nmi_stack : Z;
  addr_syscall_handler : Z;
  addr_safe_memcpy : Z * Z * Z;            (* start, end, fail *)
  addr_safe_strlen : Z * Z * Z
}.

Section descriptors.
Context `{Hardware} (sy : symbols).

Definition put_gdt (num : Z) (e : GDTEntry) : M sys unit :=
  modify (λ s, with_gdt s (<[Z.to_nat num := e]> (s_gdt s))).

Definition gdt_fill_entry (num access flags : Z) : M sys unit :=
  put_gdt num (gdt_entry (mk_gdt 0 0 0 access 0 (Z.land flags 0xF) 0)).

Definition gdt_set_tss (num : Z) : M sys unit :=
  let tss_base := addr_tss sy in
  put_gdt num (gdt_entry (mk_gdt
    (u16 (SIZEOF_TSS - 1))
    (Z.land tss_base 0xffff)
    (Z.land (Z.shiftr tss_base 16) 0xff)
    0x89
    (Z.land (Z.shiftr (SIZEOF_TSS - 1) 16) 0x0F)
    0
    (Z.land (Z.shiftr tss_base 24) 0xff))) ;;;
  put_gdt (num + 1) (tss_addr (Z.shiftr tss_base 32)).

Definition setup_gdt : M sys unit :=
  gdt_fill_entry 0 0 0 ;;;
  gdt_fill_entry 1 0x9A 0xA ;;;
  gdt_fill_entry 2 0x92 0xC ;;;
  gdt_fill_entry 3 0xFA 0xC ;;;
  gdt_fill_entry 4 0xF2 0xC ;;;
  gdt_fill_entry 5 0xFA 0xA ;;;
  gdt_set_tss 6 ;;;
  modify (λ s, with_tss_ist s
    (<[0%nat := u64 (addr_df_stack sy + 4096)]>
      (<[1%nat := u64 (addr_nmi_stack sy + 4096)]>
        (<[2%nat := u64 (addr_dbg_stack sy + 4096 * 2)]> (s_tss_ist s))))) ;;;
  emit (Lgdt (addr_gdt sy) (8 * 8 - 1)) ;;;
  emit ReloadSegments ;;;
  emit (Ltr 0x30) ;;;
  wrmsr UGSBAS 0 ;;;
  wrmsr KGSBAS 0 ;;;
  printf "GDT: GDT Setup\n" [].

(** * [idt.c] *)
Definition set_idt_entry (index ist attr handler : Z) : M sys unit :=
  let addr := handler in
  index_ok index 256 ;;;
  modify (λ s, with_idt s (<[Z.to_nat index := mk_idt
    (Z.land addr 0xFFFF) 0x08 (u8 ist) (u8 attr)
    (Z.land (Z.shiftr addr 16) 0xFFFF) (u32 (Z.shiftr addr 32)) 0]> (s_idt s))).

Fixpoint idt_default_loop (n : nat) (i : Z) : M sys unit :=
  match n with
  | O => ret tt
  | S n' => set_idt_entry i 0 0x8E (addr_isr sy 0x16) ;;; idt_default_loop n' (i + 1)
  end.

Definition INTERRUPT_HANDLER_DEBUG_TRAP : Z := 0x01.
Definition INTERRUPT_HANDLER_BREAKPOINT_TRAP : Z := 0x03.
Definition INTERRUPT_HANDLER_DOUBLE_FAULT : Z := 0x08.
Definition INTERRUPT_HANDLER_GENERAL_PROTECTION_FAULT : Z := 0x0D.
Definition INTERRUPT_HANDLER_PAGE_FAULT : Z := 0x0E.
Definition INTERRUPT_HANDLER_PS2 : Z := 0x21.
Definition INTERRUPT_HANDLER_PS2_MOUSE : Z := 0x20 + 12.
Definition INTERRUPT_HANDLER_SERIAL : Z := 0x24.
Definition INTERRUPT_HANDLER_APIC_TIMER : Z := 0x20.
Definition INTERRUPT_HANDLER_SPURIOUS_PIC_1 : Z := 0x27.
Definition INTERRUPT_HANDLER_SPURIOUS_PIC_2 : Z := 0x2F.
Definition INTERRUPT_HANDLER_SPURIOUS_APIC : Z := 0xFF.
Definition INTERRUPT_HANDLER_HIGH_PRIORITY_SERIAL : Z := 0xF0.

Definition setup_idt : M sys unit :=
  idt_default_loop 256 0 ;;;
  set_idt_entry INTERRUPT_HANDLER_DEBUG_TRAP 3 0x8E (addr_isr sy 0x01) ;;;
  set_idt_entry INTERRUPT_HANDLER_BREAKPOINT_TRAP 3 0x8E (addr_isr sy 0x03) ;;;
  set_idt_entry INTERRUPT_HANDLER_DOUBLE_FAULT 1 0x8E (addr_isr sy 0x08) ;;;
  set_idt_entry INTERRUPT_HANDLER_GENERAL_PROTECTION_FAULT 0 0x8E (addr_isr sy 0x0D) ;;;
  set_idt_entry INTERRUPT_HANDLER_PAGE_FAULT 0 0x8E (addr_isr sy 0x0E) ;;;
  set_idt_entry INTERRUPT_HANDLER_APIC_TIMER 0 0x8E (addr_isr sy 0x20) ;;;
  set_idt_entry INTERRUPT_HANDLER_PS2 0 0x8E (addr_isr sy 0x21) ;;;
  set_idt_entry INTERRUPT_HANDLER_PS2_MOUSE 0 0x8E (addr_isr sy 0x21) ;;;
  set_idt_entry INTERRUPT_HANDLER_SERIAL 0 0x8E (addr_isr sy 0x24) ;;;
  set_idt_entry INTERRUPT_HANDLER_SPURIOUS_PIC_1 0 0x8E (addr_isr sy 0x27) ;;;
  set_idt_entry INTERRUPT_HANDLER_SPURIOUS_PIC_2 0 0x8E (addr_isr sy 0x2F) ;;;
  set_idt_entry INTERRUPT_HANDLER_SPURIOUS_APIC 0 0x8E (addr_isr sy 0xFF) ;;;
  set_idt_entry INTERRUPT_HANDLER_HIGH_PRIORITY_SERIAL 0 0x8E (addr_isr sy 0xF0) ;;;
  emit (Lidt (addr_idt sy) (256 * 16 - 1)) ;;;
  printf "IDT: IDT Setup\n" [].

(** * [fred/fred.c]: set-up *)
Definition STAR_VALUE : Z := Z.lor (Z.shiftl (Z.lor 0x18 3) 48) (Z.shiftl 0x08 32).

Definition setup_fred : M sys bool :=
  let* r := cpuid CPUID_GET_FEATURES_EXT CPUID_NO_SUBLEAF in
  if eax r <=? 1 then
    let* fred := cpu_feature_bit CPUID_GET_FEATURES_EXT CPUID_SUBLEAF_1 CPUID_EAX CPUID_FRED in
    if fred =? 0 then ret false
    else
      cr4_set 32 ;;;
      wrmsr STAR STAR_VALUE ;;;
      wrmsr FRED_CONFIG (addr_fred_entry sy) ;;;
      wrmsr FRED_RSP0 (u64 (addr_fred_kernel_stack sy + 4096)) ;;;
      wrmsr FRED_RSP2 (u64 (addr_fred_df_stack sy + 4096)) ;;;
      wrmsr FRED_RSP3 (u64 (addr_fred_nmi_stack sy + 4096)) ;;;
      wrmsr FRED_STKLVLS 0 ;;;
      printf "FRED: FRED Setup\n" [] ;;;
      wr fred_enbled 1 ;;;
      ret true
  else ret false.
End descriptors.
