(* ===== verification/Timers.v ===== *)
(** Time sources: [timers/pit.c], [timers/hept.c], [acpi/acpi_timer.c],
    [timers/tsc.c], their selection in [drivers/timer.c], and the speaker
    driven by the same chip ([pcspkr.c]).

    A sleep polls a free-running counter; how often the loop goes round is
    the hardware's choice, so a loop that waits for ever is a [Hang]. *)
From stdpp Require Import base tactics list gmap strings.
From Stdlib Require Import ZArith Lia.
From S2P Require Import Prelude Bits State Io Str Cpu.

Definition TIMER_SOURCE_NONE : Z := 0.
Definition TIMER_SOURCE_PIT : Z := 1.
Definition TIMER_SOURCE_HPET : Z := 2.
Definition TIMER_SOURCE_TSC : Z := 3.
Definition TIMER_SOURCE_ACPI : Z := 4.

Definition PIT_CONTROL_PORT : Z := 0x43.
Definition PIT_CHANNEL0_PORT : Z := 0x40.
Definition PIT_FREQUENCY : Z := 1193182.

Definition HPET_CAPABILITES : Z := 0x00.
Definition HPET_CONFIG : Z := 0x10.
Definition HPET_COUNTER : Z := 0xF0.

Definition ACPI_ADDRESS_TYPE_MMIO : Z := 0.
Definition ACPI_ADDRESS_TYPE_PORT_IO : Z := 1.
Definition ACPI_TIMER_FREQUENCY : Z := 3579545.

Section timers.
Context `{Hardware}.

(** * [timers/pit.c] *)
Definition read_pit_count : M sys Z :=
  outb 0x43 0 ;;;
  let* lo := inb 0x40 in
  let* hi := inb 0x40 in
  ret (Z.lor lo (Z.shiftl hi 8)).

Definition pit_wanted_ticks (ms : Z) : Z := u32 (u64 (u64 (ms * PIT_FREQUENCY) + 999) / 1000).

Definition pit_divisor (wanted_ticks : Z) : Z :=
  let divisor := if 0xFFFF <? wanted_ticks then 0xFFFF else wanted_ticks in
  if divisor <? 100 then 100 else divisor.

(** The ticks between two readings of a counter that counts down from [divisor]. *)
Definition pit_delta (divisor prev_count current_count : Z) : Z :=
  if prev_count <? current_count then u32 (prev_count + u32 (divisor - current_count))
  else prev_count - current_count.

Definition pit_round (wanted_ticks divisor : Z) (st : Z * Z) : M sys (Z * Z + unit) :=
  let '(elapsed_ticks, prev_count) := st in
  if elapsed_ticks <? wanted_ticks then
    let* current_count := read_pit_count in
    ret (inl (u32 (elapsed_ticks + pit_delta divisor prev_count current_count), current_count))
  else ret (inr tt).

Definition pit_sleep_ms (ms : Z) : M sys unit :=
  let wanted_ticks := pit_wanted_ticks ms in
  let divisor := pit_divisor wanted_ticks in
  outbd PIT_CONTROL_PORT 0x34 ;;;
  outbd PIT_CHANNEL0_PORT (Z.land divisor 0xFF) ;;;
  outbd PIT_CHANNEL0_PORT (Z.land (Z.shiftr divisor 8) 0xFF) ;;;
  let* prev_count := read_pit_count in
  while_ (pit_round wanted_ticks divisor) (0, prev_count).

Definition setup_pit : M sys unit :=
  set_sleep_ms use_pit_sleep_ms ;;;
  wr currentTimerSource TIMER_SOURCE_PIT.

(** * [pcspkr.c] *)
Definition play_sound (dx : Z) : M sys unit :=
  let dx := u16 dx in
  outb 0x43 0xB6 ;;;
  outb 0x42 (Z.land dx 0xFF) ;;;
  outb 0x42 (Z.land (Z.shiftr dx 8) 0xFF) ;;;
  let* al := inb 0x61 in
  outb 0x61 (Z.lor al 0x03).

Definition stop_sound : M sys unit :=
  let* al := inb 0x61 in
  outb 0x61 (Z.land al 0xFC).

(** * [timers/hept.c] *)
Definition hpet_round (start ticks_needed : Z) (_ : unit) : M sys (unit + unit) :=
  let* base := rd hpet_address in
  let* now := mmio_read_offset_64 base HPET_COUNTER in
  ret (if u64 (now - start) <? ticks_needed then inl tt else inr tt).

Definition hpet_blocking_sleep_ms (ms : Z) : M sys unit :=
  let* base := rd hpet_address in
  let* freq := rd hpet_frequency in
  if (base =? 0) || (freq =? 0) then ret tt
  else
    let* start := mmio_read_offset_64 base HPET_COUNTER in
    let ticks_needed := u64 (freq * ms) / 1000 in
    while_ (hpet_round start ticks_needed) tt.

Definition setup_hpet : M sys bool :=
  let* base := rd hpet_address in
  if base =? 0 then ret false
  else
    let* hpet_caps := mmio_read_offset_64 base HPET_CAPABILITES in
    let tick_period := Z.shiftr hpet_caps 32 in
    let* freq := div_u 1000000000000000 tick_period in
    wr hpet_frequency freq ;;;
    printf "HPET: Detected Frequency: %ldMHz\n" [freq / 1000000] ;;;
    mmio_write_offset_64 base HPET_CONFIG 1 ;;;
    wr currentTimerSource TIMER_SOURCE_HPET ;;;
    set_sleep_ms use_hpet_sleep_ms ;;;
    ret true.

(** * [acpi/acpi_timer.c] *)
Definition acpi_tick_delta (last_tick current_tick : Z) : Z := u32 (current_tick - last_tick).

Definition acpi_mmio_round (ticks_needed : Z) (st : Z * Z) : M sys (Z * Z + unit) :=
  let '(ticks_elapsed, last_tick) := st in
  if ticks_elapsed <? ticks_needed then
    let* a := rd acpi_timer_address in
    let* v := mmio_read_32 a in
    let current_tick := Z.land v 0xFFFFFF in
    ret (inl (u64 (ticks_elapsed + acpi_tick_delta last_tick current_tick), current_tick))
  else ret (inr tt).

Definition acpi_timer_mmio_blocking_sleep_ms (ms : Z) : M sys unit :=
  let* a := rd acpi_timer_address in
  if a =? 0 then ret tt
  else
    let ticks_needed := u64 (ACPI_TIMER_FREQUENCY * ms) / 1000 in
    let* v := mmio_read_32 a in
    while_ (acpi_mmio_round ticks_needed) (0, Z.land v 0xFFFFFF).

Definition acpi_port_round (ticks_needed : Z) (st : Z * Z) : M sys (Z * Z + unit) :=
  let '(ticks_elapsed, last_tick) := st in
  if ticks_elapsed <? ticks_needed then
    let* a := rd acpi_timer_address in
    let* v := inl_ a in
    let current_tick := Z.land v 0xFFFFFF in
    ret (inl (u64 (ticks_elapsed + acpi_tick_delta last_tick current_tick), current_tick))
  else ret (inr tt).

Definition acpi_timer_port_io_blocking_sleep_ms (ms : Z) : M sys unit :=
  let* a := rd acpi_timer_address in
  if a =? 0 then ret tt
  else
    let ticks_needed := u64 (ACPI_TIMER_FREQUENCY * ms) / 1000 in
    let* v := inl_ a in
    while_ (acpi_port_round ticks_needed) (0, Z.land v 0xFFFFFF).

(** Both branches of [setup_acpi_timer] have this shape. *)
Definition acpi_timer_probe (read : M sys Z) (fn : sleep_fn) : M sys bool :=
  let* v := read in
  if negb (v =? 0) then
    wr currentTimerSource TIMER_SOURCE_ACPI ;;; set_sleep_ms fn ;;; ret true
  else
    printf "ACPI Timer: Timer read zero; Retrying\n" [] ;;;
    io_wait ;;; io_wait ;;; io_wait ;;; io_wait ;;;
    let* v := read in
    if negb (v =? 0) then
      wr currentTimerSource TIMER_SOURCE_ACPI ;;; set_sleep_ms fn ;;; ret true
    else
      printf "ACPI Timer: Failed to read\n" [] ;;;
      ret false.

Definition setup_acpi_timer : M sys bool :=
  let* a := rd acpi_timer_address in
  if a =? 0 then ret false
  else
    let* t := rd acpi_timer_address_type in
    if t =? ACPI_ADDRESS_TYPE_MMIO then acpi_timer_probe (mmio_read_32 a) use_acpi_mmio_sleep_ms
    else if t =? ACPI_ADDRESS_TYPE_PORT_IO then acpi_timer_probe (inl_ a) use_acpi_port_sleep_ms
    else ret true.

(** * [drivers/timer.c]: the function pointer [timer_blocking_sleep_ms] *)
Definition timer_blocking_sleep_ms (ms : Z) : M sys unit :=
  let* f := gets (λ s, f_sleep_ms (s_fn s)) in
  match f with
  | sleep_stub => panic "Timer services used before ready; timer_blocking_sleep_ms()"
  | use_pit_sleep_ms => pit_sleep_ms ms
  | use_hpet_sleep_ms => hpet_blocking_sleep_ms ms
  | use_acpi_mmio_sleep_ms => acpi_timer_mmio_blocking_sleep_ms ms
  | use_acpi_port_sleep_ms => acpi_timer_port_io_blocking_sleep_ms ms
  end.

(** * [timers/tsc.c] *)
Fixpoint tsc_calibrate_loop (n : nat) (total_tsc_delta : Z) : M sys Z :=
  match n with
  | O => ret total_tsc_delta
  | S n' =>
      let* start := read_tsc in
      timer_blocking_sleep_ms 50 ;;;
      let* end_ := read_tsc in
      tsc_calibrate_loop n' (u64 (total_tsc_delta + u64 (end_ - start)))
  end.

(** The label [end]. *)
Definition tsc_end : M sys bool :=
  let* freq := rd tsc_frequency in
  if freq <? 10000000 then
    printf "TSC: TSC Unusable for timing: Calibration showed invalid frequency of %ldMHz\n" [freq / 1000000] ;;;
    wr tsc_good 0 ;;; ret false
  else
    let* good := rd tsc_good in
    (if negb (good =? 0) then
       wr currentTimerSource TIMER_SOURCE_TSC ;;;
       printf "TSC: Usable TSC found with frequency of %ldMHz\n" [freq / 1000000]
     else ret tt) ;;;
    ret (negb (good =? 0)).

Definition tsc_calibrate : M sys bool :=
  let* src := rd currentTimerSource in
  if src =? TIMER_SOURCE_NONE then
    printf "TSC: TSC Unusable for timing: No timer source to calibrate\n" [] ;;;
    wr tsc_good 0 ;;; ret false
  else
    let* total_tsc_delta := tsc_calibrate_loop 3 0 in
    wr tsc_frequency (u64 (total_tsc_delta * 20) / 3) ;;;
    wr tsc_good 1 ;;;
    tsc_end.

Definition setup_tsc : M sys bool :=
  let* ext := cpuid_extended_supported CPUID_GET_CAPABILITES in
  let* variant :=
    (if negb (ext =? 0) then
       let* inv := cpu_feature_bit CPUID_GET_CAPABILITES CPUID_NO_SUBLEAF CPUID_EDX CPUID_INVARIANT_TSC in
       ret (inv =? 0)
     else ret false) in
  if variant then
    printf "TSC: TSC Unusable for timing: TSC is variant\n" [] ;;;
    wr tsc_good 0 ;;; ret false
  else
    let* std := cpuid_standard_supported CPUID_GET_FREQ_INFO1 in
    if negb (std =? 0) then
      let* info := cpuid CPUID_GET_FREQ_INFO1 CPUID_NO_SUBLEAF in
      if negb (eax info =? 0) && negb (ebx info =? 0) && negb (ecx info =? 0) then
        wr tsc_frequency (u64 (ecx info * (ebx info / eax info))) ;;;
        wr tsc_good 1 ;;;
        tsc_end
      else tsc_calibrate
    else tsc_calibrate.

Definition setup_timer : M sys unit :=
  printf "TIMER: Using ACPI Timer to calibrate other timers\n" [] ;;;
  (let* acpi := setup_acpi_timer in
   if acpi then ret tt
   else
     printf "TIMER: ACPI Timer timer not found; Falling back to HPET\n" [] ;;;
     let* hpet := setup_hpet in
     if hpet then ret tt
     else
       printf "TIMER: HPET timer not found; Falling back to PIT\n" [] ;;;
       setup_pit) ;;;
  setup_tsc ;;;
  printf "TIMER: Timers setup\n" [].
End timers.
