(* ===== verification/Apic.v ===== *)
(** Interrupt controllers: the legacy PIC ([pic.c]), the I/O APICs
    ([apic/ioapic.c]), the local APIC in its two flavours ([apic/apic.c],
    [apic/x2apic.c]) and the function pointers that select among them
    ([irq.c]). *)
From stdpp Require Import base tactics list gmap strings.
From Stdlib Require Import ZArith Lia.
From S2P Require Import Prelude Bits State Spinlock Pmm Heap Vmm Vma Libc Io Str Cpu Timers.

Definition PIC1_COMMAND : Z := 0x20.
Definition PIC1_DATA : Z := 0x21.
Definition PIC2_COMMAND : Z := 0xA0.
Definition PIC2_DATA : Z := 0xA1.
Definition ICW1_ICW4 : Z := 0x01.
Definition ICW1_INIT : Z := 0x10.
Definition ICW4_8086 : Z := 0x01.
Definition CASCADE_IRQ : Z := 2.

Definition IOAPIC_DEST_SHIFT : Z := 56.
Definition IOAPIC_REG_VER : Z := 0x01.
Definition IOAPIC_REG_REDTBL_BASE : Z := 0x10.

Definition APIC_MODE_TSC_DEADLINE : Z := 0x40000.
Definition APIC_MODE_PERIODIC : Z := 0x20000.
Definition APIC_MODE_MASKED : Z := 0x10000.

Definition APIC_REGISTER_ID : Z := 0x020.
Definition APIC_REGISTER_EOI : Z := 0x0B0.
Definition APIC_REGISTER_SVR : Z := 0x0F0.
Definition APIC_REGISTER_TIMER : Z := 0x320.
Definition APIC_REGISTER_DIVIDE : Z := 0x3E0.
Definition APIC_REGISTER_ICOUNT : Z := 0x380.
Definition APIC_REGISTER_CCOUNT : Z := 0x390.

Definition PTE_PWT : Z := 0x8.
Definition MMIO_FLAGS : Z := Z.lor (Z.lor (Z.lor (Z.lor PTE_PRESENT PTE_WRITABLE) PTE_NX) PTE_PCD) PTE_PWT.

Section apic.
Context `{Hardware}.

(** * [pic.c] *)
Definition pic_send_eoi (irq : Z) : M sys unit :=
  (if 8 <=? irq then outb PIC2_COMMAND 0x20 else ret tt) ;;;
  outb PIC1_COMMAND 0x20.

Definition pic_unmask_irq (IRQline : Z) : M sys unit :=
  let port := if IRQline <? 8 then PIC1_DATA else PIC2_DATA in
  let line := if IRQline <? 8 then IRQline else IRQline - 8 in
  let* value := inb port in
  shift_ok 32 line ;;;
  outb port (Z.land value (Z.lnot (Z.shiftl 1 line))).

Definition setup_pic (offset1 offset2 : Z) : M sys unit :=
  outbd PIC1_COMMAND (Z.lor ICW1_INIT ICW1_ICW4) ;;;
  outbd PIC2_COMMAND (Z.lor ICW1_INIT ICW1_ICW4) ;;;
  outbd PIC1_DATA offset1 ;;;
  outbd PIC2_DATA offset2 ;;;
  outbd PIC1_DATA (Z.shiftl 1 CASCADE_IRQ) ;;;
  outbd PIC2_DATA 2 ;;;
  outbd PIC1_DATA ICW4_8086 ;;;
  outbd PIC2_DATA ICW4_8086 ;;;
  outbd PIC1_DATA 0xFF ;;;
  outbd PIC2_DATA 0xFF ;;;
  set_unmask_irq use_pic_unmask_irq ;;;
  set_send_eoi use_pic_send_eoi ;;;
  printf "PIC: PIC Setup\n" [].

(** * The local APIC's identifier and end of interrupt *)
Definition xapic_get_id : M sys Z :=
  let* base := rd apic_address in
  let* v := mmio_read_offset_32 base APIC_REGISTER_ID in
  ret (Z.land (Z.shiftr v 24) 0xFF).

Definition xapic_send_eoi : M sys unit :=
  let* base := rd apic_address in
  mmio_write_offset_32 base APIC_REGISTER_EOI 0.

Definition x2apic_send_eoi : M sys unit := wrmsr x2APIC_EOI 0.

Definition x2apic_get_id : M sys Z :=
  let* v := rdmsr x2APIC_ID in ret (u32 v).

(** A call through [apic_get_id]; the pointer starts as NULL. *)
Definition apic_get_id : M sys Z :=
  let* f := gets (λ s, f_apic_get_id (s_fn s)) in
  match f with
  | get_id_null => panic "Page Fault"
  | use_xapic_get_id => xapic_get_id
  | use_x2apic_get_id => x2apic_get_id
  end.

(** * [apic/ioapic.c] *)
Definition ioapic_read (ioapic : ioapic_t) (reg : Z) : M sys Z :=
  mmio_write_32 (address ioapic) reg ;;;
  mmio_read_32 (u64 (address ioapic + 16)).

Definition ioapic_write (ioapic : ioapic_t) (reg value : Z) : M sys unit :=
  mmio_write_32 (address ioapic) reg ;;;
  mmio_write_32 (u64 (address ioapic + 16)) value.

Definition ioapic_max_entries (ioapic : ioapic_t) : M sys Z :=
  let* version := ioapic_read ioapic IOAPIC_REG_VER in
  ret (Z.land (Z.shiftr version 16) 0xFF).

Definition ioapic_set_entry (ioapic : ioapic_t) (index data : Z) : M sys unit :=
  ioapic_write ioapic (IOAPIC_REG_REDTBL_BASE + index * 2) (u32 data) ;;;
  ioapic_write ioapic (IOAPIC_REG_REDTBL_BASE + index * 2 + 1) (u32 (Z.shiftr data 32)).

Definition ioapic_map_irq (ioapic : ioapic_t) (irq vector destination : Z) : M sys unit :=
  let* stub := rd dbgstub_enabled in
  let vector := if (irq =? 4) && negb (stub =? 0) then 0xF0 else vector in
  let redirect := Z.lor vector (Z.shiftl destination IOAPIC_DEST_SHIFT) in
  ioapic_set_entry ioapic irq redirect.

Fixpoint find_overide (l : list ioapic_irq_overide_t) (i : Z) : Z :=
  match l with
  | [] => i
  | o :: l' => if irq o =? i then gsi o else find_overide l' i
  end.

Fixpoint find_ioapic (l : list ioapic_t) (actual_irq : Z) : M sys (option ioapic_t) :=
  match l with
  | [] => ret None
  | a :: l' =>
      let* max_entries := ioapic_max_entries a in
      if (gsib a <=? actual_irq) && (actual_irq <? u32 (gsib a + max_entries)) then ret (Some a)
      else find_ioapic l' actual_irq
  end.

Definition ioapic_unmask_irq (irq : Z) : M sys unit :=
  let* os := gets s_overides in
  let actual_irq := find_overide os irq in
  let* l := gets s_ioapics in
  let* found := find_ioapic l actual_irq in
  match found with
  | None => printf "IOAPIC: Failed to find IOAPIC to map IRQ %d\n" [irq]
  | Some current_ioapic =>
      let* id := apic_get_id in
      ioapic_map_irq current_ioapic actual_irq (u8 (irq + 0x20)) (u8 id)
  end.

Definition setup_ioapic : M sys bool :=
  let* l := gets s_ioapics in
  match l with
  | [] => printf "IOAPIC: Your computer has no IOAPIC???????\n" [] ;;; ret false
  | _ :: _ =>
      set_unmask_irq use_ioapic_unmask_irq ;;;
      printf "IOAPIC: IOAPIC Setup\n" [] ;;;
      ret true
  end.

(** * [irq.c]: the two function pointers *)
Definition unmask_irq (irq : Z) : M sys unit :=
  let* f := gets (λ s, f_unmask_irq (s_fn s)) in
  match f with
  | unmask_irq_stub => panic "IRQ tried to be unmasked before IRQ drivers setup"
  | use_pic_unmask_irq => pic_unmask_irq irq
  | use_ioapic_unmask_irq => ioapic_unmask_irq irq
  end.

Definition send_eoi (irq : Z) : M sys unit :=
  let* f := gets (λ s, f_send_eoi (s_fn s)) in
  match f with
  | send_eoi_stub => panic "EOI attempted to be sent before IRQ drivers setup"
  | use_pic_send_eoi => pic_send_eoi irq
  | use_xapic_send_eoi => xapic_send_eoi
  | use_x2apic_send_eoi => x2apic_send_eoi
  end.

Definition cli : M sys unit := kern (modify (λ k, set_cpu k (set_if (k_cpu k) false))).
Definition sti : M sys unit := kern (modify (λ k, set_cpu k (set_if (k_cpu k) true))).

Definition setup_irqs : M sys unit :=
  cli ;;;
  setup_pic 0x20 0x28 ;;;
  (let* ok := setup_ioapic in
   if ok then ret tt else printf "IRQ: IOAPIC Failed to setup; Falling back to legacy PIC\n" []) ;;;
  sti ;;;
  printf "IRQ: IRQ System Setup\n" [].

(** * Timer interrupts

    [k_ms] is the counter of the driver in use ([xapic_timer_ms] or
    [x2apic_timer_ms]): only one of the two drivers is ever set up. *)
Definition count_ms : M sys unit := kern (modify (λ k, set_ms k (u64 (k_ms k + 1)))).

Definition request_preempt : M sys unit :=
  let* sched := rd shouldSchedule in
  if negb (sched =? 0) then kern (modify (λ k, set_dev k (set_preempt (k_dev k) true))) else ret tt.

Definition arm_deadline : M sys unit :=
  let* now := read_tsc in
  let* freq := rd tsc_frequency in
  wrmsr TSC_DEADLINE (u64 (now + freq / 1000)).

Definition xapic_get_ms : M sys Z := gets (λ s, k_ms (s_k s)).
Definition xapic_tsc_deadline_isr : M sys unit := count_ms ;;; arm_deadline ;;; request_preempt.
Definition xapic_periodic_isr : M sys unit := count_ms ;;; request_preempt.
Definition x2apic_get_ms : M sys Z := gets (λ s, k_ms (s_k s)).
Definition x2apic_tsc_deadline_isr : M sys unit := count_ms ;;; arm_deadline ;;; request_preempt.
Definition x2apic_periodic_isr : M sys unit := count_ms ;;; request_preempt.

(** A call through [apic_timer_isr]. *)
Definition apic_timer_isr : M sys unit :=
  let* f := gets (λ s, f_apic_timer_isr (s_fn s)) in
  match f with
  | timer_isr_null => panic "Page Fault"
  | use_xapic_deadline => xapic_tsc_deadline_isr
  | use_xapic_periodic => xapic_periodic_isr
  | use_x2apic_deadline => x2apic_tsc_deadline_isr
  | use_x2apic_periodic => x2apic_periodic_isr
  end.

(** A call through [timer_get_ms]. *)
Definition get_ms : M sys Z :=
  let* f := gets (λ s, f_get_ms (s_fn s)) in
  match f with
  | get_ms_stub => panic "Timer services used before ready; timer_get_ms()"
  | use_xapic_get_ms => xapic_get_ms
  | use_x2apic_get_ms => x2apic_get_ms
  end.

(** * [apic/x2apic.c]: set-up *)
Definition apic_bit (base n : Z) : Z := Z.land (Z.shiftr base n) 1.

(** The tests of [tsc_good] and of the TSC deadline feature. *)
Definition has_tsc_deadline : M sys bool :=
  let* std := cpuid_standard_supported CPUID_GET_FEATURES in
  let* good := rd tsc_good in
  if negb (std =? 0) && negb (good =? 0) then
    let* f := cpu_feature_bit CPUID_GET_FEATURES CPUID_NO_SUBLEAF CPUID_ECX CPUID_LAPIC_TSC in
    ret (negb (f =? 0))
  else ret false.

Definition setup_x2apic : M sys unit :=
  set_send_eoi use_x2apic_send_eoi ;;;
  set_get_ms use_x2apic_get_ms ;;;
  set_apic_get_id use_x2apic_get_id ;;;
  let* apic_base := rdmsr APIC_BASE in
  let apic_enabled := apic_bit apic_base 11 in
  let x2apic_enabled := apic_bit apic_base 10 in
  let* apic_base :=
    (if apic_enabled =? 0 then
       let b := Z.lor apic_base (Z.shiftl 1 11) in wrmsr APIC_BASE b ;;; ret b
     else ret apic_base) in
  (if x2apic_enabled =? 0 then wrmsr APIC_BASE (Z.lor apic_base (Z.shiftl 1 10)) else ret tt) ;;;
  let* apic_svr := rdmsr x2APIC_SVR in
  wrmsr x2APIC_SVR (Z.lor apic_svr 0x1FF) ;;;
  let* deadline := has_tsc_deadline in
  if deadline then
    printf "x2APIC: Setup using TSC Deadline Mode\n" [] ;;;
    set_apic_timer_isr use_x2apic_deadline ;;;
    set_get_ms use_x2apic_get_ms ;;;
    wrmsr x2APIC_TIMER (Z.lor 0x20 APIC_MODE_TSC_DEADLINE) ;;;
    emit Barrier ;;;
    arm_deadline
  else
    printf "x2APIC: Setup using Periodic Mode\n" [] ;;;
    wrmsr x2APIC_TIMER_DIVIDE 0x3 ;;;
    wrmsr x2APIC_TIMER_ICOUNT 0xFFFFFFFF ;;;
    timer_blocking_sleep_ms 10 ;;;
    wrmsr x2APIC_TIMER APIC_MODE_MASKED ;;;
    let* ccount := rdmsr x2APIC_TIMER_CCOUNT in
    let ticksIn10ms := u32 (0xFFFFFFFF - ccount) in
    wrmsr x2APIC_TIMER_DIVIDE 0x3 ;;;
    wrmsr x2APIC_TIMER (Z.lor 0x20 APIC_MODE_PERIODIC) ;;;
    wrmsr x2APIC_TIMER_ICOUNT (ticksIn10ms / 10) ;;;
    set_get_ms use_x2apic_get_ms ;;;
    set_apic_timer_isr use_x2apic_periodic.

(** * [apic/apic.c]: set-up *)
Definition setup_apic : M sys Z :=
  let* x2apic_supported := cpu_feature_bit CPUID_GET_FEATURES CPUID_NO_SUBLEAF CPUID_ECX CPUID_x2APIC in
  if negb (x2apic_supported =? 0) then setup_x2apic ;;; ret 2
  else
    set_apic_get_id use_xapic_get_id ;;;
    set_send_eoi use_xapic_send_eoi ;;;
    let* apic_base := rdmsr APIC_BASE in
    (if apic_bit apic_base 11 =? 0 then wrmsr APIC_BASE (Z.lor apic_base (Z.shiftl 1 11)) else ret tt) ;;;
    let* base2 := rdmsr APIC_BASE in
    let apic_phys_address := ALIGN_DOWN base2 PAGE_SIZE in
    let* va := kern (valloc_any kernel_pagemap (PAGE_SIZE * 2)) in
    wr apic_address va ;;;
    kern (vmm_map_page kernel_pagemap va apic_phys_address MMIO_FLAGS) ;;;
    kern (vmm_map_page kernel_pagemap (u64 (va + PAGE_SIZE)) apic_phys_address MMIO_FLAGS) ;;;
    let* apic_svr := mmio_read_offset_32 va APIC_REGISTER_SVR in
    mmio_write_offset_32 va APIC_REGISTER_SVR (Z.lor apic_svr 0x1FF) ;;;
    let* deadline := has_tsc_deadline in
    if deadline then
      printf "xAPIC: Setup using TSC Deadline Mode\n" [] ;;;
      set_apic_timer_isr use_xapic_deadline ;;;
      set_get_ms use_xapic_get_ms ;;;
      mmio_write_offset_32 va APIC_REGISTER_TIMER (Z.lor 0x20 APIC_MODE_TSC_DEADLINE) ;;;
      emit Barrier ;;;
      arm_deadline ;;;
      ret 0
    else
      set_get_ms use_xapic_get_ms ;;;
      set_apic_timer_isr use_xapic_periodic ;;;
      printf "xAPIC: Setup using Periodic Mode\n" [] ;;;
      mmio_write_offset_32 va APIC_REGISTER_DIVIDE 0x3 ;;;
      mmio_write_offset_32 va APIC_REGISTER_ICOUNT 0xFFFFFFFF ;;;
      timer_blocking_sleep_ms 10 ;;;
      mmio_write_offset_32 va APIC_REGISTER_TIMER APIC_MODE_MASKED ;;;
      let* ccount := mmio_read_offset_32 va APIC_REGISTER_CCOUNT in
      let ticksIn10ms := u32 (0xFFFFFFFF - ccount) in
      mmio_write_offset_32 va APIC_REGISTER_DIVIDE 0x3 ;;;
      mmio_write_offset_32 va APIC_REGISTER_TIMER (Z.lor 0x20 APIC_MODE_PERIODIC) ;;;
      mmio_write_offset_32 va APIC_REGISTER_ICOUNT (ticksIn10ms / 10) ;;;
      ret 0.
End apic.
