(* ===== verification/Serial.v ===== *)
(** The serial port ([serial.h], [serial.c]), the terminal device ([tty.c]) and
    the character output of [libc/stdio.c] that feeds both. *)
From stdpp Require Import base tactics list gmap strings.
From Stdlib Require Import ZArith Lia Ascii.
From S2P Require Import Prelude Bits State Spinlock Pmm Heap Vmm Vma Libc Io Str Cpu Timers Apic.

Definition SERIAL_RX_BUFF : Z := 0.
Definition SERIAL_TX_BUFF : Z := 0.
Definition SERIAL_INTR_CONF : Z := 1.
Definition SERIAL_DLAB_DIV_LO : Z := 0.
Definition SERIAL_DLAB_DIV_HI : Z := 1.
Definition SERIAL_FIFO_CONF : Z := 2.
Definition SERIAL_LINE_CONF : Z := 3.
Definition SERIAL_MODEM_CONF : Z := 4.
Definition SERIAL_LINE_INFO : Z := 5.
Definition SERIAL_SCRATCH_REG : Z := 7.
Definition SERIAL_FIFO_THRESH_1b : Z := 0x00.
Definition SERIAL_FIFO_ENABLE : Z := 0x01.
Definition SERIAL_FIFO_RX_FLUSH : Z := 0x02.
Definition SERIAL_FIFO_TX_FLUSH : Z := 0x04.
Definition SERIAL_LCR_8BIT : Z := 0x03.
Definition SERIAL_LCR_1STOP : Z := 0x00.
Definition SERIAL_LCR_PARITY_NONE : Z := 0x00.
Definition SERIAL_MCR_TX_ENABLE : Z := 0x01.
Definition SERIAL_MCR_RX_ENABLE : Z := 0x02.
Definition SERIAL_MCR_IRQ_ENABLE : Z := 0x08.
Definition SERIAL_MCR_LOOP_ENABLE : Z := 0x10.
Definition SERIAL_115200_BAUD : Z := 1.
Definition SERIAL_DLAB_BIT : Z := 0x80.
Definition SERIAL_DATA_READY_BIT : Z := 0x01.
Definition SERIAL_TX_EMPTY_BIT : Z := 0x20.
Definition SERIAL_TEST_MAGIC : Z := 0x69.
Definition SERIAL_TEST_RETRIES : nat := 5.

(** [register_file] of [filesystem/filesystem.c], with the [struct file] its
    callers allocate and fill before. *)
Definition SIZEOF_FILE : Z := 272.
Definition SIZEOF_FILE_NODE : Z := 16.

Definition register_file (f : file) : M sys Z :=
  kern (malloc SIZEOF_FILE_NODE) ;;;
  modify (λ s, with_files s (f :: s_files s)) ;;;
  ret 1.

Definition new_file (p : string) (o : file_ops) : M sys Z :=
  kern (malloc SIZEOF_FILE) ;;;
  register_file (mk_file (bytes p) o).

Section serial.
Context `{Hardware}.

(** * [serial.h] *)
Definition serial_transmit_empty : M sys Z :=
  let* port := rd serial_port in
  let* v := inbd (port + SERIAL_LINE_INFO) in
  ret (Z.land v SERIAL_TX_EMPTY_BIT).

Definition serial_data_ready : M sys Z :=
  let* port := rd serial_port in
  let* v := inbd (port + SERIAL_LINE_INFO) in
  ret (Z.land v SERIAL_DATA_READY_BIT).

(** [while (!serial_transmit_empty());] *)
Definition wait_transmit_empty : M sys unit :=
  while_ (λ _ : unit, let* v := serial_transmit_empty in ret (if v =? 0 then inl tt else inr tt)) tt.

Definition serial_send (c : Z) : M sys unit :=
  wait_transmit_empty ;;;
  let* port := rd serial_port in
  outbd (port + SERIAL_RX_BUFF) c.

Definition serial_read : M sys Z :=
  let* port := rd serial_port in
  let* v := inbd (port + SERIAL_RX_BUFF) in
  ret (i8 v).

Definition serial_read_blocking : M sys Z :=
  while_ (λ _ : unit, let* v := serial_data_ready in ret (if v =? 0 then inl tt else inr tt)) tt ;;;
  serial_read.

(** * [serial.c] *)
Fixpoint serialDeviceRead_loop (n : nat) (return_data : list Z) : M sys (list Z) :=
  match n with
  | O => ret return_data
  | S n' =>
      let* i := rd serial_buffer_index in
      let* c := gets (λ s, default 0 (s_serial_buffer s !! Z.to_nat i)) in
      modify (λ s, with_serial_buffer s (<[Z.to_nat i := 0]> (s_serial_buffer s))) ;;;
      wr serial_buffer_index (u8 (i - 1)) ;;;
      serialDeviceRead_loop n' (return_data ++ [c])
  end.

Definition serialDeviceRead (read_length : Z) : M sys (Z * list Z) :=
  let* d := serialDeviceRead_loop (Z.to_nat read_length) [] in
  ret (1, d).

(** [serial_send_string(string, write_length)] *)
Definition send_string_round (string : cstring) (write_length : Z) (i : Z) : M sys (Z + Z) :=
  if negb (string i =? 0) && (i <? write_length) then
    let c := string i in
    (if c =? 10 then serial_send 13 else ret tt) ;;;
    serial_send c ;;;
    ret (inl (i + 1))
  else ret (inr i).

Definition serial_send_string (string : cstring) (write_length : Z) : M sys Z :=
  wait_transmit_empty ;;;
  while_ (send_string_round string write_length) 0.

Definition serial_send_string1 (string : cstring) : M sys unit :=
  let* n := strlen string in
  serial_send_string string (i32 n) ;;;
  ret tt.

Definition serialDeviceWrite (write_data : cstring) (write_length : Z) : M sys Z :=
  serial_send_string write_data write_length ;;;
  ret write_length.

Definition serial_set_dlab (port : Z) (setting : bool) : M sys unit :=
  let* lcr := inbd (port + SERIAL_LINE_CONF) in
  if setting then outbd (port + SERIAL_LINE_CONF) (Z.lor lcr SERIAL_DLAB_BIT)
  else outbd (port + SERIAL_LINE_CONF) (Z.land lcr (Z.lnot SERIAL_DLAB_BIT)).

Definition serial_set_divisor (port divsor : Z) : M sys unit :=
  serial_set_dlab port true ;;;
  outbd (port + SERIAL_DLAB_DIV_LO) (Z.land divsor 0xff) ;;;
  outbd (port + SERIAL_DLAB_DIV_HI) (Z.land (Z.shiftr divsor 8) 0xff) ;;;
  serial_set_dlab port false.

Definition serial_set_interrupts (port setting : Z) : M sys unit :=
  serial_set_dlab port false ;;;
  outbd (port + SERIAL_INTR_CONF) setting.

Definition serial_set_mcr (port setting : Z) : M sys unit := outbd (port + SERIAL_MODEM_CONF) setting.
Definition serial_set_lcr (port lcr : Z) : M sys unit := outbd (port + SERIAL_LINE_CONF) lcr.
Definition serial_set_fifo (port fifo : Z) : M sys unit := outbd (port + SERIAL_FIFO_CONF) fifo.

Fixpoint serial_test_loop (n : nat) (port : Z) : M sys bool :=
  match n with
  | O => ret false
  | S n' =>
      outbd (port + SERIAL_TX_BUFF) SERIAL_TEST_MAGIC ;;;
      timer_blocking_sleep_ms 1 ;;;
      let* v := inbd (port + SERIAL_RX_BUFF) in
      if v =? SERIAL_TEST_MAGIC then ret true else serial_test_loop n' port
  end.

Definition serial_test (port : Z) : M sys bool :=
  serial_set_divisor port SERIAL_115200_BAUD ;;;
  serial_set_lcr port (Z.lor (Z.lor SERIAL_LCR_8BIT SERIAL_LCR_1STOP) SERIAL_LCR_PARITY_NONE) ;;;
  serial_set_fifo port (Z.lor SERIAL_FIFO_TX_FLUSH SERIAL_FIFO_RX_FLUSH) ;;;
  serial_set_mcr port (Z.lor (Z.lor SERIAL_MCR_TX_ENABLE SERIAL_MCR_RX_ENABLE) SERIAL_MCR_LOOP_ENABLE) ;;;
  serial_set_dlab port false ;;;
  serial_test_loop SERIAL_TEST_RETRIES port.

Definition setup_serial : M sys unit :=
  let* en := rd serial_enabled in
  if en =? 0 then ret tt
  else
    let* port := rd serial_port in
    serial_set_interrupts port 0 ;;;
    let* ok := serial_test port in
    if negb ok then
      outbd (port + SERIAL_SCRATCH_REG) SERIAL_TEST_MAGIC ;;;
      let* v := inbd (port + SERIAL_SCRATCH_REG) in
      (if v =? SERIAL_TEST_MAGIC then
         printf "\x1b[93mSERIAL: Serial on I/O port 0x%x exists but failed self test; Continuing anyways\x1b[0m\n" [port]
       else ret tt) ;;;
      printf "SERIAL: Failed to init; Do you lack a serial port at I/O port 0x%x?\n" [port] ;;;
      wr serial_works 0
    else
      serial_set_divisor port SERIAL_115200_BAUD ;;;
      serial_set_lcr port (Z.lor (Z.lor SERIAL_LCR_8BIT SERIAL_LCR_1STOP) SERIAL_LCR_PARITY_NONE) ;;;
      serial_set_fifo port (Z.lor (Z.lor (Z.lor SERIAL_FIFO_ENABLE SERIAL_FIFO_THRESH_1b) SERIAL_FIFO_TX_FLUSH) SERIAL_FIFO_RX_FLUSH) ;;;
      serial_set_mcr port (Z.lor (Z.lor SERIAL_MCR_TX_ENABLE SERIAL_MCR_RX_ENABLE) SERIAL_MCR_IRQ_ENABLE) ;;;
      serial_set_dlab port false ;;;
      serial_set_interrupts port 1 ;;;
      wr serial_works 1 ;;;
      unmask_irq 4 ;;;
      printf "SERIAL: Setup serial on I/O port 0x%x\n" [port] ;;;
      new_file "/dev/term/stty" serial_ops ;;;
      ret tt.

(** * [libc/stdio.c] *)
Definition internal_putc (c : Z) : M sys unit :=
  let ch := i8 c in
  (let* p := rd panic_count in
   if p =? 0 then
     let* lock1r := kern (spinlock_lock stdio_spinlock) in
     emit (Term [u8 ch]) ;;;
     kern (spinlock_unlock stdio_spinlock lock1r)
   else emit (Term [u8 ch])) ;;;
  (let* hv := cpu_feature_bit 1 0 (chr "c") CPUID_HYPERVISOR in
   if negb (hv =? 0) then outb 0xE9 ch else ret tt) ;;;
  (let* w := rd serial_works in
   if negb (w =? 0) then
     (if ch =? 10 then serial_send 13 else ret tt) ;;;
     serial_send ch
   else ret tt).

(** * [drivers/tty.c] *)
Definition ttyDeviceRead : M sys Z := ret (-1).

Definition ttyDeviceWrite (write_data : cstring) (write_length : Z) : M sys Z :=
  emit (Term (map (λ i, write_data (Z.of_nat i)) (seq 0 (Z.to_nat write_length)))) ;;;
  (let* w := rd serial_works in
   if negb (w =? 0) then serial_send_string write_data write_length ;;; ret tt else ret tt) ;;;
  ret write_length.

Definition setup_tty : M sys unit :=
  new_file "/dev/term/tty" tty_ops ;;;
  printf "TTY: TTY device setup at /dev/term/tty\n" [].
End serial.

(** * The controller of keyboard and mouse ([drivers/x86_64/ps2.c]) *)
Definition PS2_DATA_PORT : Z := 0x60.
Definition PS2_STATUS_PORT : Z := 0x64.
Definition PS2_COMMAND_PORT : Z := 0x64.
Definition PS2_TIMEOUT_RW : Z := 100000.
Definition PS2_TIMEOUT_MS : nat := 50.
Definition PS2_STATUS_INPUT_BUFFER_FULL : Z := 0x02.
Definition PS2_STATUS_OUTPUT_BUFFER_FULL : Z := 0x01.
Definition PS2_CONTROLLER_CMD_ENABLE_PORT_1 : Z := 0xAE.
Definition PS2_CONTROLLER_CMD_ENABLE_PORT_2 : Z := 0xA8.
Definition PS2_CONTROLLER_CMD_DISABLE_PORT_1 : Z := 0xAD.
Definition PS2_CONTROLLER_CMD_DISABLE_PORT_2 : Z := 0xA7.
Definition PS2_CONTROLLER_CMD_READ_CONFIG : Z := 0x20.
Definition PS2_CONTROLLER_CMD_WRITE_CONFIG : Z := 0x60.
Definition PS2_CONTROLLER_CMD_TALK_TO_PORT2 : Z := 0xD4.
Definition PS2_CONTROLLER_CONF_BYTE_MASK : Z := 0x43.
Definition PS2_DEVICE_CMD_RESET : Z := 0xFF.
Definition PS2_DEVICE_CMD_RESET_ACK : Z := 0xFA.
Definition PS2_KBD_CMD_SET_SCANCODE_SET : Z := 0xF0.
Definition PS2_KDB_SCANCODE_SET_1 : Z := 0x43.
Definition PS2_MOUSE_SET_DEFAULT_CONF : Z := 0xF6.
Definition PS2_MOUSE_ENABLE : Z := 0xF4.
Definition PS2_KBD_IRQ : Z := 0x01.
Definition PS2_MOUSE_IRQ : Z := 0x0C.

Section ps2.
Context `{Hardware}.

(** [while (--t && busy()) io_wait();]: [busy] tells whether to go on waiting. *)
Definition ps2_wait_round (busy : Z → bool) (t : Z) : M sys (Z + Z) :=
  let t := t - 1 in
  if t =? 0 then ret (inr t)
  else
    let* st := inb PS2_STATUS_PORT in
    if busy st then io_wait ;;; ret (inl t) else ret (inr t).

Definition ps2_wait_write : M sys bool :=
  let* t := while_ (ps2_wait_round (λ st, negb (Z.land st PS2_STATUS_INPUT_BUFFER_FULL =? 0))) PS2_TIMEOUT_RW in
  ret (0 <? t).

Definition ps2_wait_read : M sys bool :=
  let* t := while_ (ps2_wait_round (λ st, Z.land st PS2_STATUS_OUTPUT_BUFFER_FULL =? 0)) PS2_TIMEOUT_RW in
  ret (0 <? t).

Definition ps2_cmd (cmd : Z) : M sys unit := ps2_wait_write ;;; outbd PS2_COMMAND_PORT cmd.
Definition ps2_data (data : Z) : M sys unit := ps2_wait_write ;;; outbd PS2_DATA_PORT data.
Definition ps2_read : M sys Z := ps2_wait_read ;;; inbd PS2_DATA_PORT.

Fixpoint ps2_flush_loop (n : nat) : M sys unit :=
  match n with
  | O => ret tt
  | S n' => inbd PS2_DATA_PORT ;;; ps2_flush_loop n'
  end.
Definition ps2_flush : M sys unit := ps2_flush_loop 16.

(** [for (int i = PS2_TIMEOUT_MS; i != 0; i--)]: wait for the reset's answer. *)
Fixpoint ps2_reset_loop (n : nat) : M sys unit :=
  match n with
  | O => ret tt
  | S n' =>
      let* st := inb PS2_STATUS_PORT in
      let* done :=
        (if negb (Z.land st PS2_STATUS_OUTPUT_BUFFER_FULL =? 0) then
           let* response := inb PS2_DATA_PORT in
           ret (response =? PS2_DEVICE_CMD_RESET_ACK)
         else ret false) in
      if done then ret tt
      else timer_blocking_sleep_ms 1 ;;; ps2_reset_loop n'
  end.

Definition setup_ps2 : M sys unit :=
  ps2_cmd PS2_CONTROLLER_CMD_DISABLE_PORT_1 ;;;
  ps2_cmd PS2_CONTROLLER_CMD_DISABLE_PORT_2 ;;;
  ps2_flush ;;;
  ps2_cmd PS2_CONTROLLER_CMD_READ_CONFIG ;;;
  let* config := ps2_read in
  let config := Z.lor config PS2_CONTROLLER_CONF_BYTE_MASK in
  ps2_cmd PS2_CONTROLLER_CMD_WRITE_CONFIG ;;;
  ps2_data config ;;;
  ps2_cmd PS2_CONTROLLER_CMD_ENABLE_PORT_1 ;;;
  ps2_data PS2_DEVICE_CMD_RESET ;;;
  ps2_reset_loop PS2_TIMEOUT_MS ;;;
  ps2_data PS2_KBD_CMD_SET_SCANCODE_SET ;;;
  ps2_data PS2_KDB_SCANCODE_SET_1 ;;;
  ps2_flush ;;;
  ps2_cmd PS2_CONTROLLER_CMD_ENABLE_PORT_2 ;;;
  ps2_cmd PS2_CONTROLLER_CMD_TALK_TO_PORT2 ;;;
  ps2_data PS2_DEVICE_CMD_RESET ;;;
  ps2_reset_loop PS2_TIMEOUT_MS ;;;
  ps2_cmd PS2_CONTROLLER_CMD_TALK_TO_PORT2 ;;;
  ps2_data PS2_MOUSE_SET_DEFAULT_CONF ;;;
  ps2_cmd PS2_CONTROLLER_CMD_TALK_TO_PORT2 ;;;
  ps2_data PS2_MOUSE_ENABLE ;;;
  ps2_flush ;;;
  unmask_irq PS2_KBD_IRQ ;;;
  unmask_irq PS2_MOUSE_IRQ ;;;
  new_file "/dev/ps2/kbd" ps2Kbd_ops ;;;
  printf "PS/2: PS/2 Keyboard Setup\n" [].
End ps2.
