(* ===== verification/Acpi.v ===== *)
(** ACPI tables ([acpi/acpi_tables.h], [acpi_tables.c], [acpi.c]): the root
    pointer's checksum, the search for a table, and the three tables the kernel
    reads.  Tables lie in physical memory and are reached through the direct
    map; a [struct] is the address it starts at. *)
From stdpp Require Import base tactics list gmap strings.
From Stdlib Require Import ZArith Lia.
From S2P Require Import Prelude Bits State Spinlock Pmm Heap Vmm Vma Libc Io Str Cpu Timers Apic.

(** Fields of packed structures in memory, by their offset. *)
Definition mem8 (ptr : Z) : M sys Z := gets (λ s, read8 (k_mem (s_k s)) (hhdm_phys (s_k s) ptr)).
Definition mem32 (ptr : Z) : M sys Z := gets (λ s, read32 (k_mem (s_k s)) (hhdm_phys (s_k s) ptr)).
Definition mem64 (ptr : Z) : M sys Z := gets (λ s, read64 (k_mem (s_k s)) (hhdm_phys (s_k s) ptr)).
Definition mem_str (ptr : Z) : M sys cstring := gets (λ s, at_ (k_mem (s_k s)) (hhdm_phys (s_k s) ptr)).
Definition hhdm : M sys Z := gets (λ s, k_hhdm (s_k s)).

(** [struct RSDP], [struct XSDP] *)
Module RSDP.
Definition size : Z := 20.
Definition checksum (p : Z) := mem8 (p + 8).
Definition revision (p : Z) := mem8 (p + 15).
Definition rsdtAddress (p : Z) := mem32 (p + 16).
End RSDP.

Module XSDP.
Definition size : Z := 36.
Definition length (p : Z) := mem32 (p + 20).
Definition xsdtAddress (p : Z) := mem64 (p + 24).
End XSDP.

(** [struct ACPISDTHeader]: the signature comes first. *)
Module ACPISDTHeader.
Definition size : Z := 36.
Definition length (p : Z) := mem32 (p + 4).
End ACPISDTHeader.

(** [struct FADT], with the generic address of the timer. *)
Module FADT.
Definition pmTimerBlock (p : Z) := mem32 (p + 76).
Definition pmTimerLength (p : Z) := mem8 (p + 91).
Definition xPMTimerBlock_address_space_id (p : Z) := mem8 (p + 208).
Definition xPMTimerBlock_address (p : Z) := mem64 (p + 212).
End FADT.

Module HPET.
Definition address_address (p : Z) := mem64 (p + 44).
End HPET.

Module MADT.
Definition size : Z := 44.
Definition header_size : Z := 2.
Definition type (p : Z) := mem8 p.
Definition length (p : Z) := mem8 (p + 1).
(** [struct MADT_ioapic] *)
Definition ioapic_address (p : Z) := mem32 (p + 4).
Definition gsib (p : Z) := mem32 (p + 8).
(** [struct MADT_isr_override] *)
Definition irq_source (p : Z) := mem8 (p + 3).
Definition gsi (p : Z) := mem32 (p + 4).
End MADT.

Definition MADT_TYPE_LAPIC : Z := 0.
Definition MADT_TYPE_IOAPIC : Z := 1.
Definition MADT_TYPE_ISR_OVERRIDE : Z := 2.
Definition MADT_TYPE_IOAPIC_NMI : Z := 3.
Definition MADT_TYPE_LAPIC_NMI : Z := 4.
Definition MADT_TYPE_LAPIC_ADDR_OVR : Z := 5.
Definition MADT_TYPE_PLX2APIC : Z := 9.

Section acpi.
(** [rsdp_request.response->address] *)
Context (rsdp : Z).

Fixpoint sum_bytes (n : nat) (p checksum : Z) : M sys Z :=
  match n with
  | O => ret checksum
  | S n' => let* b := mem8 p in sum_bytes n' (p + 1) (u64 (checksum + b))
  end.

Definition acpi_verify_rsdp : M sys bool :=
  if rsdp =? 0 then printf "ACPI: No RSDP Found\n" [] ;;; ret false
  else
    let* rev := RSDP.revision rsdp in
    printf "ACPI: RSDP found at %p rev %d\n" [rsdp; rev] ;;;
    let* checksumV1 := sum_bytes (Z.to_nat RSDP.size) rsdp 0 in
    (if negb (u8 checksumV1 =? 0) then printf "ACPI: RSDP ChecksumV1 is bad\n" [] else ret tt) ;;;
    if negb (rev =? 2) then ret true
    else
      let* checksumV2 := sum_bytes (Z.to_nat XSDP.size) rsdp 0 in
      (if negb (u8 checksumV2 =? 0) then printf "ACPI: RSDP ChecksumV2 is bad\n" [] else ret tt) ;;;
      ret true.

(** The loop over the pointers of an RSDT or XSDT: [i] of [entries], read by [pointer]. *)
Definition find_round (pointer : Z → M sys Z) (signature : string) (entries i : Z) : M sys (Z + Z) :=
  if i <? entries then
    let* p := pointer i in
    let* off := hhdm in
    let header := u64 (p + off) in
    let* sig := mem_str header in
    let* c := strncmp sig (lit signature) 4 in
    ret (if c =? 0 then inr header else inl (i + 1))
  else ret (inr 0).

Definition acpi_find_sdt_rsdt (signature : string) : M sys Z :=
  let* addr := RSDP.rsdtAddress rsdp in
  let* off := hhdm in
  let rsdt := u64 (addr + off) in
  let* len := ACPISDTHeader.length rsdt in
  let entries := i32 (u64 (len - ACPISDTHeader.size) / 4) in
  while_ (find_round (λ i, mem32 (rsdt + ACPISDTHeader.size + 4 * i)) signature entries) 0.

Definition acpi_find_sdt_xsdt (signature : string) : M sys Z :=
  let* addr := XSDP.xsdtAddress rsdp in
  let* off := hhdm in
  let xsdt := u64 (addr + off) in
  let* len := ACPISDTHeader.length xsdt in
  let entries := i32 (u64 (len - ACPISDTHeader.size) / 8) in
  while_ (find_round (λ i, mem64 (xsdt + ACPISDTHeader.size + 8 * i)) signature entries) 0.

Definition acpi_find_sdt (signature : string) : M sys Z :=
  let* rev := RSDP.revision rsdp in
  if rev <? 2 then acpi_find_sdt_rsdt signature else acpi_find_sdt_xsdt signature.

(** [valloc(&kernel_pagemap, PAGE_SIZE * 2)] and the two [vmm_map_page] calls. *)
Definition map_registers (phys : Z) : M sys Z :=
  let* va := kern (valloc_any kernel_pagemap (PAGE_SIZE * 2)) in
  kern (vmm_map_page kernel_pagemap va phys MMIO_FLAGS) ;;;
  kern (vmm_map_page kernel_pagemap (u64 (va + PAGE_SIZE)) (u64 (phys + PAGE_SIZE)) MMIO_FLAGS) ;;;
  ret va.

Definition acpi_parse_fadt : M sys unit :=
  let* fadt := acpi_find_sdt "FACP" in
  if negb (fadt =? 0) then
    (let* len := FADT.pmTimerLength fadt in
     if negb (len =? 4) then printf "ACPI: No ACPI Timer found???\n" [] else ret tt) ;;;
    let* a := FADT.xPMTimerBlock_address fadt in
    if negb (a =? 0) then
      let* space := FADT.xPMTimerBlock_address_space_id fadt in
      if space =? ACPI_ADDRESS_TYPE_MMIO then
        let* va := map_registers a in
        wr acpi_timer_address va ;;;
        wr acpi_timer_address_type ACPI_ADDRESS_TYPE_MMIO ;;;
        printf "ACPI: Found ACPI Timer at %08lx\n" [a]
      else if space =? ACPI_ADDRESS_TYPE_PORT_IO then
        wr acpi_timer_address a ;;;
        wr acpi_timer_address_type ACPI_ADDRESS_TYPE_PORT_IO ;;;
        printf "ACPI: Found ACPI Timer on I/O port 0x%lx\n" [a]
      else printf "ACPI: ACPI Timer on bad address space type %d\n" [space]
    else
      let* blk := FADT.pmTimerBlock fadt in
      wr acpi_timer_address blk ;;;
      wr acpi_timer_address_type ACPI_ADDRESS_TYPE_PORT_IO ;;;
      printf "ACPI: Found ACPI Timer on I/O port 0x%x\n" [blk]
  else printf "ACPI: No FADT Table found???\n" [].

Definition acpi_parse_hpet : M sys unit :=
  let* hpet := acpi_find_sdt "HPET" in
  if negb (hpet =? 0) then
    let* a := HPET.address_address hpet in
    let* va := map_registers a in
    wr hpet_address va ;;;
    printf "ACPI: Found HPET at 0x%08lx\n" [a]
  else ret tt.

(** [case MADT_TYPE_IOAPIC] *)
Definition madt_ioapic (ptr : Z) : M sys unit :=
  let* phys := MADT.ioapic_address ptr in
  let* va := kern (valloc_any kernel_pagemap (PAGE_SIZE * 2)) in
  kern (vmm_map_page kernel_pagemap va phys MMIO_FLAGS) ;;;
  kern (vmm_map_page kernel_pagemap (u64 (va + PAGE_SIZE)) (u32 (phys + PAGE_SIZE)) MMIO_FLAGS) ;;;
  kern (malloc 24) ;;;
  let* g := MADT.gsib ptr in
  modify (λ s, with_ioapics s (s_ioapics s ++ [mk_ioapic va g])) ;;;
  (let* n := rd ioapic_count in wr ioapic_count (u32 (n + 1))) ;;;
  printf "ACPI: Found IOAPIC at 0x%08x\n" [phys].

(** [case MADT_TYPE_ISR_OVERRIDE] *)
Definition madt_isr_override (ptr : Z) : M sys unit :=
  let* src := MADT.irq_source ptr in
  let* g := MADT.gsi ptr in
  if negb (src =? g) then
    kern (malloc 16) ;;;
    modify (λ s, with_overides s (s_overides s ++ [mk_overide src (u8 g)])) ;;;
    printf "ACPI: Found IRQ Overide for irq %u to gsi %u\n" [src; g]
  else ret tt.

Definition madt_entry (ptr ty len : Z) : M sys unit :=
  if ty =? MADT_TYPE_IOAPIC then madt_ioapic ptr
  else if ty =? MADT_TYPE_ISR_OVERRIDE then madt_isr_override ptr
  else if bool_decide (ty ∈ [MADT_TYPE_LAPIC; MADT_TYPE_IOAPIC_NMI; MADT_TYPE_LAPIC_NMI;
                             MADT_TYPE_LAPIC_ADDR_OVR; MADT_TYPE_PLX2APIC]) then ret tt
  else printf "ACPI: Unknown MADT entry: %d (Len: %d)\n" [ty; len].

Definition madt_round (end_ ptr : Z) : M sys (Z + unit) :=
  if ptr + MADT.header_size <=? end_ then
    let* len := MADT.length ptr in
    if end_ <? ptr + len then ret (inr tt)
    else
      let* ty := MADT.type ptr in
      madt_entry ptr ty len ;;;
      ret (inl (ptr + len))
  else ret (inr tt).

Definition acpi_parse_madt : M sys unit :=
  let* madt_base := acpi_find_sdt "APIC" in
  if madt_base =? 0 then ret tt
  else
    let* len := ACPISDTHeader.length madt_base in
    while_ (madt_round (madt_base + len)) (madt_base + MADT.size).

Definition acpi_parse_tables : M sys unit :=
  acpi_parse_fadt ;;; acpi_parse_madt ;;; acpi_parse_hpet ;;;
  printf "ACPI: Tables Parsed\n" [].

Definition setup_acpi : M sys bool :=
  let* status := acpi_verify_rsdp in
  if negb status then printf "ACPI: Unable to setup ACPI\n" [] ;;; ret false
  else acpi_parse_tables ;;; ret true.
End acpi.
