(* ===== verification/Uaccess.v ===== *)
(** Access to user memory from the kernel ([utils/safe_user_funcs.c] and the
    two routines of [safe_user_funcs.asm]) and the fault handler's side of it.

    A byte access succeeds or faults as the page tables and SMAP decide; a
    fault inside the copy routine is redirected by the page-fault handler to
    the routine's failure exit, so the copy returns -1 and keeps the bytes it
    has written. *)
From stdpp Require Import base tactics list gmap strings.
From Stdlib Require Import ZArith Lia.
From S2P Require Import Prelude Bits State Vmm Vma Io Cpu.

Definition USER_TOP : Z := 0x0000800000000000.
Definition KERNEL_BASE : Z := 0xFFFF800000000000.

Definition is_kernel_range (p len : Z) : bool :=
  let wrap := (2 ^ 64 - 1 - p) <? len in
  negb wrap && (Z.land (Z.land p (u64 (p + len))) KERNEL_BASE =? KERNEL_BASE).

Definition is_user_range (p len : Z) : bool := negb (is_kernel_range p len).

(** * Byte accesses *)

(** Addresses between the halves are not canonical: the access faults. *)
Definition canonical (va : Z) : bool := (va <? USER_TOP) || (KERNEL_BASE <=? va).

(** The direct map is present from boot on; all else goes through the tables.
    CR0.WP is set, so a store needs a writable page; with SMAP, a user page is
    reachable only while AC is set. *)
Definition resolve (smap : bool) (k : kernel) (write : bool) (va : Z) : option Z :=
  if negb (canonical va) then None
  else if (k_hhdm k <=? va) && (va <? VALLOC_RANGE_START) then Some (hhdm_phys k va)
  else
    match walk 4 (k_mem k) (Z.land (cr3 (k_cpu k)) PTE_MASK) va with
    | Some (_, e) =>
        if write && (Z.land e PTE_WRITABLE =? 0) then None
        else if smap && negb (c_ac (k_cpu k)) && negb (Z.land e PTE_USER =? 0) then None
        else translate k va
    | None => None
    end.

Definition smap_on (s : sys) : bool := negb (s_var s cr4_smap_enabled =? 0).

Definition try_load8 (va : Z) : M sys (option Z) := gets (λ s,
  match resolve (smap_on s) (s_k s) false va with
  | Some pa => Some (read8 (k_mem (s_k s)) pa)
  | None => None
  end).

Definition try_store8 (va v : Z) : M sys bool := λ s,
  match resolve (smap_on s) (s_k s) true va with
  | Some pa => Ok (true, with_k s (set_mem (s_k s) (write8 (k_mem (s_k s)) pa v)))
  | None => Ok (false, s)
  end.

(** * [safe_user_funcs.asm] *)

(** [rep movsb]; [false] is the return value -1. *)
Fixpoint safe_memcpy_asm (n : nat) (dst src : Z) : M sys bool :=
  match n with
  | O => ret true
  | S n' =>
      let* c := try_load8 src in
      match c with
      | None => ret false
      | Some v =>
          let* ok := try_store8 dst v in
          if ok then safe_memcpy_asm n' (u64 (dst + 1)) (u64 (src + 1)) else ret false
      end
  end.

(** The counter starts at [eax] and stops at 4096; [n] rounds are left. *)
Fixpoint safe_strlen_loop (n : nat) (string eax : Z) : M sys Z :=
  match n with
  | O => ret (-1)
  | S n' =>
      let* c := try_load8 (u64 (string + eax)) in
      match c with
      | None => ret (-1)
      | Some v => if v =? 0 then ret eax else safe_strlen_loop n' string (eax + 1)
      end
  end.

Definition safe_strlen_asm (string : Z) : M sys Z := safe_strlen_loop 4096 string 0.

(** * [safe_user_funcs.c] *)
Definition copy_to_user (udst ksrc len : Z) : M sys Z :=
  if negb (is_user_range udst len) || negb (is_kernel_range ksrc len) then ret (-1)
  else
    rflags_set_ac ;;;
    let* ok := safe_memcpy_asm (Z.to_nat len) udst ksrc in
    if negb ok then rflags_clr_ac ;;; ret (-1)
    else rflags_clr_ac ;;; ret 0.

Definition copy_from_user (kdst usrc len : Z) : M sys Z :=
  if negb (is_kernel_range kdst len) || negb (is_user_range usrc len) then ret (-1)
  else
    rflags_set_ac ;;;
    let* ok := safe_memcpy_asm (Z.to_nat len) kdst usrc in
    if negb ok then rflags_clr_ac ;;; ret (-1)
    else rflags_clr_ac ;;; ret 0.

Definition strlen_user (string : Z) : M sys Z :=
  if negb (is_user_range string 4096) then ret (-1)
  else
    rflags_set_ac ;;;
    let* len := safe_strlen_asm string in
    rflags_clr_ac ;;;
    if len <? 0 then ret (-1) else ret len.

Definition safe_read_byte (addr : Z) : M sys Z :=
  let* c := try_load8 addr in
  match c with
  | None => ret 0xFFFF
  | Some v => ret v
  end.

Definition safe_write_byte (addr value : Z) : M sys Z :=
  let* ok := try_store8 addr value in
  if ok then ret 0 else ret 0xFFFF.

(** * The redirection of faults *)
Definition set_ip (f : interrupt_frame) (v : Z) : interrupt_frame :=
  mk_frame (f_r15 f) (f_r14 f) (f_r13 f) (f_r12 f) (f_r11 f) (f_r10 f) (f_r9 f) (f_r8 f)
    (f_rbp f) (f_rdi f) (f_rsi f) (f_rdx f) (f_rcx f) (f_rbx f) (f_rax f)
    (f_vector f) (f_error f) v (f_cs f) (f_flags f) (f_rsp f) (f_ss f).

(** [Some] is the return value 0, with the frame as changed. *)
Definition fault_handle_safe_funcs (sy : symbols) (frame : interrupt_frame) : option interrupt_frame :=
  let '(cs, ce, cf) := addr_safe_memcpy sy in
  let '(ls, le, lf) := addr_safe_strlen sy in
  if (cs <=? f_ip frame) && (f_ip frame <? ce) then Some (set_ip frame cf)
  else if (ls <=? f_ip frame) && (f_ip frame <? le) then Some (set_ip frame lf)
  else None.

(** * Correctness *)

Lemma kernel_range_spec p len :
  0 <= p < 2 ^ 64 → 0 <= len < 2 ^ 64 →
  is_kernel_range p len = true ↔ KERNEL_BASE <= p ∧ p + len < 2 ^ 64.
Proof.
  intros Hp Hlen. unfold is_kernel_range.
  assert (∀ a, 0 <= a < 2 ^ 64 → Z.land a KERNEL_BASE = KERNEL_BASE ↔ KERNEL_BASE <= a) as Hmask.
  { intros a Ha. assert (KERNEL_BASE = Z.shiftl (Z.ones 17) 47) as HK by reflexivity.
    assert (Z.land a KERNEL_BASE = a / 2 ^ 47 * 2 ^ 47) as ->.
    { rewrite HK, <- (Z.shiftl_mul_pow2 (a / 2 ^ 47)), <- Z.shiftr_div_pow2 by lia.
      apply Z.bits_inj'. intros n Hn. rewrite Z.land_spec.
      destruct (Z.ltb_spec n 47).
      { rewrite !Z.shiftl_spec_low by lia. by rewrite andb_false_r. }
      rewrite !Z.shiftl_spec_high by lia. rewrite Z.shiftr_spec by lia.
      replace (n - 47 + 47) with n by lia.
      destruct (Z.ltb_spec (n - 47) 17).
      - rewrite Z.ones_spec_low by lia. by rewrite andb_true_r.
      - rewrite Z.ones_spec_high by lia. rewrite andb_false_r. symmetry.
        rewrite <- (Z.mod_small a (2 ^ 64)) by lia. by apply Z.mod_pow2_bits_high; lia. }
    change KERNEL_BASE with (131071 * 2 ^ 47).
    pose proof (Z.div_mod a (2 ^ 47) ltac:(lia)). pose proof (Z.mod_pos_bound a (2 ^ 47) ltac:(lia)).
    split; intros; nia. }
  destruct (Z.ltb_spec (2 ^ 64 - 1 - p) len) as [Hw|Hw]; cbn [negb andb].
  { split; [done|]. lia. }
  rewrite Z.eqb_eq. rewrite (u64_id (p + len)) by (unfold is_u64; lia).
  rewrite (Z.land_comm p), <- Z.land_assoc.
  split.
  - intros Heq. split; [|lia]. apply Hmask; [done|].
    rewrite <- Heq at 2. rewrite (Z.land_comm (p + len)), <- Z.land_assoc.
    apply Z.bits_inj'. intros n Hn. rewrite <- Heq at 1. rewrite !Z.land_spec.
    by destruct (Z.testbit p n), (Z.testbit KERNEL_BASE n), (Z.testbit (p + len) n).
  - intros [HK _]. rewrite (proj2 (Hmask p Hp) HK). apply Hmask; lia.
Qed.
