(* ===== verification/Kgz.v ===== *)
(** The gzip decompressor [kernel/deps/kgz_singleheader.h]: arena, bit stream,
    output buffer and Huffman trees.

    A pointer to bytes is the function from an offset to the byte there, so that
    an access beyond an object is visible as an offset out of its range.  An
    index out of a fixed array and a NULL dereference end in the sanitizer's
    panics.  [KGZ_MALLOC], [KGZ_MEMCPY] and the like are the kernel's [malloc],
    [memcpy], ... *)
From stdpp Require Import base tactics list strings.
From Stdlib Require Import ZArith Lia.
From S2P Require Import Prelude Str.

(** Run a computation on a part of the state. *)
Definition zoom {S T A} (view : S → T) (update : S → T → S) (m : M T A) : M S A := λ s,
  match m (view s) with
  | Ok (a, t) => Ok (a, update s t)
  | Panic msg => Panic msg
  | Hang => Hang
  end.

Definition KGZ_HUFFMAN_CACHE : Z := 10.
Definition TABLE_BITS : Z := KGZ_HUFFMAN_CACHE.
Definition MAX_BITS : Z := 15.

(** * Arena: [buffer] is the address of the block, 0 for NULL.

    The arenas are locals of [kgz_gzip_decompress]: pointers to them are never
    NULL. *)
Record kgz_arena := mk_arena { a_buffer : Z; a_capacity : Z; a_offset : Z }.

Definition kgz_arena_init {S} (malloc : Z → M S Z) (capacity : Z) : M S kgz_arena :=
  let* buffer := malloc capacity in
  if buffer =? 0 then ret (mk_arena buffer 0 0) else ret (mk_arena buffer capacity 0).

Definition kgz_arena_reset : M kgz_arena unit :=
  modify (λ a, mk_arena (a_buffer a) (a_capacity a) 0).

Definition kgz_arena_allocate (size alignment : Z) : M kgz_arena Z :=
  let* a := get in
  if a_buffer a =? 0 then ret 0
  else if (alignment =? 0) || negb (Z.land alignment (alignment - 1) =? 0) then ret 0
  else
    let base := a_buffer a in
    let current := u64 (base + a_offset a) in
    let aligned := Z.land (u64 (current + alignment - 1)) (u64 (Z.lnot (alignment - 1))) in
    let new_offset := u64 (u64 (aligned - base) + size) in
    if a_capacity a <? new_offset then ret 0
    else
      modify (λ a, mk_arena (a_buffer a) (a_capacity a) new_offset) ;;;
      ret aligned.

Definition kgz_arena_free {S} (free : Z → M S unit) (arena : kgz_arena) : M S kgz_arena :=
  free (a_buffer arena) ;;;
  ret (mk_arena 0 0 0).

(** * Bit stream *)
Record kgz_bitstream := mk_stream {
  s_data : cstring;
  data_len : Z;
  current_byte : Z;
  current_bit : Z;
  bit_buffer : Z;
  bits_in_buffer : Z
}.

(** One round of the loop of [kgz_bitstream_fill]; [p] is [data + cur_byte]. *)
Definition fill_round (p : cstring) (len : Z) (st : Z * Z * Z) : M kgz_bitstream (Z * Z * Z + Z * Z) :=
  let '(bits, cur_byte, buf) := st in
  if (bits <=? 56) && (cur_byte <? len) then
    ret (inl (u8 (bits + 8), u64 (cur_byte + 1), Z.lor buf (u64 (Z.shiftl (p cur_byte) bits))))
  else ret (inr (bits, buf)).

Definition kgz_bitstream_fill : M kgz_bitstream unit :=
  let* s := get in
  let bits := bits_in_buffer s in
  let cur_byte := u64 (current_byte s + Z.shiftr (current_bit s + bits) 3) in
  let* r := while_ (fill_round (s_data s) (data_len s)) (bits, cur_byte, bit_buffer s) in
  modify (λ s, mk_stream (s_data s) (data_len s) (current_byte s) (current_bit s) (snd r) (fst r)).

(** [stream->bit_buffer >>= bits; ... stream->current_bit &= 7]; a shift by 64
    or more is the sanitizer's. *)
Definition drop_bits (bits : Z) : M kgz_bitstream unit :=
  shift_ok 64 bits ;;;
  modify (λ s,
    let bit := u8 (current_bit s + bits) in
    mk_stream (s_data s) (data_len s) (u64 (current_byte s + bit / 8)) (Z.land bit 7)
      (Z.shiftr (bit_buffer s) bits) (u8 (bits_in_buffer s - bits))).

(** [(bits == 64) ? ~0ULL : ((1ULL << bits) - 1)] *)
Definition bit_mask (bits : Z) : M kgz_bitstream Z :=
  if bits =? 64 then ret (2 ^ 64 - 1)
  else shift_ok 64 bits ;;; ret (u64 (Z.shiftl 1 bits - 1)).

(** [if (stream->bits_in_buffer < bits) kgz_bitstream_fill(stream)], and the
    masked buffer. *)
Definition masked_bits (bits : Z) : M kgz_bitstream Z :=
  let* s := get in
  (if bits_in_buffer s <? bits then kgz_bitstream_fill else ret tt) ;;;
  let* mask := bit_mask bits in
  gets (λ s, u32 (Z.land (bit_buffer s) mask)).

Definition kgz_bitstream_getbits (bits : Z) : M kgz_bitstream Z :=
  if bits =? 0 then ret 0
  else
    let* result := masked_bits bits in
    drop_bits bits ;;;
    ret result.

Definition kgz_bitstream_peek (bits : Z) : M kgz_bitstream Z :=
  if bits =? 0 then ret 0 else masked_bits bits.

Definition kgz_bitstream_consume (bits : Z) : M kgz_bitstream unit :=
  if bits =? 0 then ret tt else drop_bits bits.

Definition kgz_bitstream_align : M kgz_bitstream unit :=
  modify (λ s,
    if negb (current_bit s =? 0)
    then mk_stream (s_data s) (data_len s) (u64 (current_byte s + 1)) 0 0 0
    else mk_stream (s_data s) (data_len s) (current_byte s) (current_bit s) 0 0).

Definition kgz_bitstream_read_u8 : M kgz_bitstream Z :=
  let* r := kgz_bitstream_getbits 8 in ret (u8 r).

Definition kgz_bitstream_read_u16 : M kgz_bitstream Z :=
  let* s := get in
  if (current_bit s =? 0) && (u64 (current_byte s + 1) <? data_len s) then
    let lo := s_data s (current_byte s) in
    let hi := s_data s (u64 (current_byte s + 1)) in
    let word := u16 (Z.lor (Z.lor 0 lo) (Z.shiftl hi 8)) in
    modify (λ s, mk_stream (s_data s) (data_len s) (u64 (current_byte s + 2)) (current_bit s) (bit_buffer s) (bits_in_buffer s)) ;;;
    ret word
  else
    let* r := kgz_bitstream_getbits 16 in ret (u16 r).

(** * Output buffer

    [b_data] is the memory from the buffer's first byte on; [b_printed] the
    messages given to [KGZ_PRINTF], latest first. *)
Record kgz_buffer := mk_buffer {
  b_data : mem_t;
  b_size : Z;
  b_capacity : Z;
  b_printed : list (string * list Z)
}.

Definition kgz_printf (fmt : string) (args : list Z) : M kgz_buffer unit :=
  modify (λ b, mk_buffer (b_data b) (b_size b) (b_capacity b) ((fmt, args) :: b_printed b)).

(** [buffer->data] changes to [d], [buffer->size] to [n]. *)
Definition set_buffer (d : mem_t) (n : Z) : M kgz_buffer unit :=
  modify (λ b, mk_buffer d n (b_capacity b) (b_printed b)).

Definition kgz_buffer_insert (byte : Z) : M kgz_buffer bool :=
  let* b := get in
  if b_capacity b <=? b_size b then
    kgz_printf "output buffer overflow: size %zu capacity %zu\n" [b_size b; b_capacity b] ;;;
    ret false
  else
    set_buffer (write8 (b_data b) (b_size b) byte) (u64 (b_size b + 1)) ;;;
    ret true.

(** [KGZ_MEMCPY] from memory that is not the buffer. *)
Fixpoint copy_from (n : nat) (m : mem_t) (dst : Z) (src : cstring) (i : Z) : mem_t :=
  match n with
  | O => m
  | S n' => copy_from n' (write8 m (dst + i) (src i)) dst src (i + 1)
  end.

Definition kgz_buffer_insert_bulk (src : cstring) (len : Z) : M kgz_buffer bool :=
  let* b := get in
  if b_capacity b <? u64 (b_size b + len) then
    kgz_printf "output buffer overflow: need %zu have %zu\n" [len; u64 (b_capacity b - b_size b)] ;;;
    ret false
  else
    set_buffer (copy_from (Z.to_nat len) (b_data b) (b_size b) src 0) (u64 (b_size b + len)) ;;;
    ret true.

(** [for (i = 0; i < length; i++) dest[i] = src[i]] is [copy_up]. *)
Definition kgz_buffer_lz77copy (distance length : Z) : M kgz_buffer bool :=
  let* b := get in
  if b_size b <? distance then ret false
  else if b_capacity b <? u64 (b_size b + length) then
    kgz_printf "output buffer overflow during backcopy\n" [] ;;;
    ret false
  else
    let dest := b_size b in
    let src := dest - distance in
    let d := b_data b in
    set_buffer
      (if distance =? 1 then memset_bytes d dest (read8 d src) length
       else if length <=? distance then movsb (Z.to_nat length) d dest src
       else copy_up (Z.to_nat length) d dest src)
      (u64 (b_size b + length)) ;;;
    ret true.

(** * Huffman trees *)
Inductive huffman_node_type := HUFFMAN_NODE_TYPE_INTERNAL | HUFFMAN_NODE_TYPE_SYMBOL.

(** The members of the union overlap: [symbol.symbol] is the low half of
    [internal.zero_index]. *)
Record huffman_node := mk_node { n_type : huffman_node_type; zero_index : Z; one_index : Z }.
Definition SIZEOF_NODE : Z := 12.

Definition node_symbol (n : huffman_node) : Z := u16 (zero_index n).
Definition set_symbol (n : huffman_node) (symbol : Z) : huffman_node :=
  mk_node HUFFMAN_NODE_TYPE_SYMBOL (i32 (Z.lor (Z.land (u32 (zero_index n)) 0xffff0000) symbol)) (one_index n).

Record huffman_cache_entry := mk_entry { e_symbol : Z; e_length : Z }.
Definition SIZEOF_ENTRY : Z := 4.

(** [nodes] holds the first [nodes_count] elements of the array at [nodes_ptr]. *)
Record kgz_huffman_tree := mk_tree {
  table : list huffman_cache_entry;
  root_index : Z;
  nodes : list huffman_node;
  nodes_ptr : Z;
  nodes_capacity : Z
}.
Definition SIZEOF_TREE : Z := 4120.
Definition nodes_count (t : kgz_huffman_tree) : Z := Z.of_nat (length (nodes t)).

Definition set_nodes (t : kgz_huffman_tree) (ns : list huffman_node) : kgz_huffman_tree :=
  mk_tree (table t) (root_index t) ns (nodes_ptr t) (nodes_capacity t).
Definition set_table (t : kgz_huffman_tree) (tb : list huffman_cache_entry) : kgz_huffman_tree :=
  mk_tree tb (root_index t) (nodes t) (nodes_ptr t) (nodes_capacity t).

(** [NULL] is [None]. *)
Definition get_node (t : kgz_huffman_tree) (index : Z) : option huffman_node :=
  if (index <? 0) || (nodes_count t <=? index) then None else nodes t !! Z.to_nat index.

(** A member of [*p]. *)
Definition deref {S A} (p : option A) : M S A :=
  match p with Some a => ret a | None => panic "UBSAN: Type missmatch" end.

(** A tree under construction and the arena its memory comes from. *)
Definition builder : Type := kgz_huffman_tree * kgz_arena.
Definition in_arena {A} (m : M kgz_arena A) : M builder A := zoom snd (λ b a, (b.1, a)) m.
Definition modify_tree (f : kgz_huffman_tree → kgz_huffman_tree) : M builder unit := modify (λ b, (f b.1, b.2)).

Definition load_node (index : Z) : M builder huffman_node :=
  let* t := gets fst in deref (get_node t index).
Definition store_node (index : Z) (f : huffman_node → huffman_node) : M builder unit :=
  let* n := load_node index in
  modify_tree (λ t, set_nodes t (<[Z.to_nat index := f n]> (nodes t))).

(** [if (tree->nodes_count >= tree->nodes_capacity) ...]: room for one more node. *)
Definition grow_nodes : M builder bool :=
  let* t := gets fst in
  if nodes_capacity t <=? nodes_count t then
    let* new_capacity := (if nodes_capacity t =? 0 then ret 16 else mul_i 32 (nodes_capacity t) 2) in
    let* new_nodes := in_arena (kgz_arena_allocate (u64 (SIZEOF_NODE * u64 new_capacity)) 8) in
    if new_nodes =? 0 then ret false
    else
      modify_tree (λ t, mk_tree (table t) (root_index t) (nodes t) new_nodes new_capacity) ;;;
      ret true
  else ret true.

Definition alloc_new_node : M builder Z :=
  let* ok := grow_nodes in
  if ok then
    let* index := gets (λ b, nodes_count b.1) in
    modify_tree (λ t, set_nodes t (nodes t ++ [mk_node HUFFMAN_NODE_TYPE_INTERNAL (-1) (-1)])) ;;;
    ret index
  else ret (-1).

Definition child (bit : Z) (n : huffman_node) : Z := if bit =? 0 then zero_index n else one_index n.
Definition set_child (bit new_index : Z) (n : huffman_node) : huffman_node :=
  if bit =? 0 then mk_node (n_type n) new_index (one_index n) else mk_node (n_type n) (zero_index n) new_index.

(** The loop of [insert_code]: bits [n - 1] down to 0; [None] is [return false]. *)
Fixpoint insert_path (n : nat) (code current_index : Z) : M builder (option Z) :=
  match n with
  | O => ret (Some current_index)
  | S i =>
      let bit := Z.land (Z.shiftr code (Z.of_nat i)) 1 in
      let* nd := load_node current_index in
      let* ok :=
        (if child bit nd =? -1 then
           let* new_index := alloc_new_node in
           if new_index =? -1 then ret false
           else store_node current_index (set_child bit new_index) ;;; ret true
         else ret true) in
      if negb ok then ret None
      else
        let* nd := load_node current_index in
        insert_path i code (child bit nd)
  end.

Definition insert_code (code len symbol : Z) : M builder bool :=
  let* t := gets fst in
  let* r := insert_path (Z.to_nat len) code (root_index t) in
  match r with
  | None => ret false
  | Some current_index =>
      store_node current_index (λ n, set_symbol n symbol) ;;;
      ret true
  end.

(** [bits] rounds. *)
Fixpoint bit_reverse_loop (bits : nat) (code result : Z) : Z :=
  match bits with
  | O => result
  | S bits' =>
      let result := u32 (Z.shiftl result 1) in
      let result := if negb (Z.land code 1 =? 0) then Z.lor result 1 else result in
      bit_reverse_loop bits' (Z.shiftr code 1) result
  end.
Definition bit_reverse (code bits : Z) : Z := bit_reverse_loop (Z.to_nat bits) code 0.

(** [bl_count]: how many symbols have each length; [None] when one is too long. *)
Fixpoint count_lengths (lens : list Z) (bl_count : list Z) : option (list Z) :=
  match lens with
  | [] => Some bl_count
  | l :: lens' =>
      if MAX_BITS <? l then None
      else if l =? 0 then count_lengths lens' bl_count
      else count_lengths lens' (alter (λ c, u64 (c + 1)) (Z.to_nat l) bl_count)
  end.

(** [next_code[bits]] from [bl_count[bits - 1]], for each [bits] from 1 on. *)
Fixpoint next_code_loop (counts : list Z) (code : Z) : list Z :=
  match counts with
  | [] => []
  | c :: counts' =>
      let code := u32 (Z.shiftl (u32 (code + u32 c)) 1) in
      u16 code :: next_code_loop counts' code
  end.
Definition next_codes (bl_count : list Z) : list Z :=
  0 :: next_code_loop (take (Z.to_nat MAX_BITS) (<[0%nat := 0]> bl_count)) 0.

(** [for (fill = rev_code; fill < (1u << TABLE_BITS); fill += stride)] *)
Definition fill_table (rev_code stride sym symbol_length : Z) : M builder unit :=
  while_ (λ fill,
    if fill <? 2 ^ TABLE_BITS then
      modify_tree (λ t, set_table t (<[Z.to_nat fill := mk_entry sym (i8 symbol_length)]> (table t))) ;;;
      ret (inl (u32 (fill + stride)))
    else ret (inr tt)) rev_code.

(** The loop that inserts the symbols from [sym] on; [false] is [return NULL]. *)
Fixpoint insert_symbols (lens : list Z) (sym : Z) (next_code : list Z) : M builder bool :=
  match lens with
  | [] => ret true
  | symbol_length :: lens' =>
      if symbol_length =? 0 then insert_symbols lens' (u16 (sym + 1)) next_code
      else
        let code := default 0 (next_code !! Z.to_nat symbol_length) in
        let* ok := insert_code code symbol_length sym in
        if negb ok then ret false
        else
          let next_code := <[Z.to_nat symbol_length := u16 (code + 1)]> next_code in
          (if TABLE_BITS <? symbol_length then ret tt
           else fill_table (bit_reverse code symbol_length) (u32 (Z.shiftl 1 symbol_length)) sym symbol_length) ;;;
          insert_symbols lens' (u16 (sym + 1)) next_code
  end.

Definition leaf_count (symbol_lengths : list Z) : Z :=
  Z.of_nat (length (filter (λ l, negb (l =? 0)) symbol_lengths)).
Definition initial_capacity (symbol_lengths : list Z) : Z :=
  if 0 <? leaf_count symbol_lengths then
    let need := leaf_count symbol_lengths * 2 - 1 in
    if 16 <? need then need else 16
  else 16.

(** From the allocation of the root to the last symbol. *)
Definition build_tree (symbol_lengths : list Z) : M builder bool :=
  let* root := alloc_new_node in
  modify_tree (λ t, mk_tree (table t) root (nodes t) (nodes_ptr t) (nodes_capacity t)) ;;;
  if root =? -1 then ret false
  else
    match count_lengths symbol_lengths (replicate (Z.to_nat (MAX_BITS + 1)) 0) with
    | None => ret false
    | Some bl_count =>
        modify_tree (λ t, set_table t (replicate (Z.to_nat (2 ^ TABLE_BITS)) (mk_entry 0xffff (-1)))) ;;;
        insert_symbols symbol_lengths 0 (next_codes bl_count)
    end.

(** [symbol_lengths] has [symbol_count] elements. *)
Definition kgz_huffman_tree_create (symbol_lengths : list Z) : M kgz_arena (option kgz_huffman_tree) :=
  let* tree := kgz_arena_allocate SIZEOF_TREE 8 in
  if tree =? 0 then ret None
  else
    let capacity := initial_capacity symbol_lengths in
    let* ns := kgz_arena_allocate (u64 (SIZEOF_NODE * capacity)) 8 in
    if ns =? 0 then ret None
    else λ arena,
      match build_tree symbol_lengths (mk_tree [] 0 [] ns capacity, arena) with
      | Ok (ok, (t, arena')) => Ok (if ok : bool then Some t else None, arena')
      | Panic msg => Panic msg
      | Hang => Hang
      end.

(** [while (1)] of [kgz_huffman_tree_lookup_slow], at [current_node]. *)
Definition slow_round (t : kgz_huffman_tree) (bits : Z) (st : option huffman_node * Z)
    : M kgz_bitstream (option huffman_node * Z + option Z) :=
  let '(current_node, current_length) := st in
  let* nd := deref current_node in
  match n_type nd with
  | HUFFMAN_NODE_TYPE_SYMBOL =>
      kgz_bitstream_consume current_length ;;;
      ret (inr (Some (node_symbol nd)))
  | HUFFMAN_NODE_TYPE_INTERNAL =>
      let bit := Z.land (Z.shiftr bits current_length) 1 in
      let index := if negb (bit =? 0) then one_index nd else zero_index nd in
      if index =? -1 then
        kgz_bitstream_consume current_length ;;;
        ret (inr None)
      else
        let current_node := get_node t index in
        let current_length := u32 (current_length + 1) in
        if 15 <? current_length then
          kgz_bitstream_consume current_length ;;;
          ret (inr None)
        else ret (inl (current_node, current_length))
  end.

(** The symbol, or [None] for [return false]. *)
Definition kgz_huffman_tree_lookup_slow (t : kgz_huffman_tree) (bits : Z) : M kgz_bitstream (option Z) :=
  match get_node t (root_index t) with
  | None => ret None
  | Some nd => while_ (slow_round t bits) (Some nd, 0)
  end.

Definition kgz_huffman_tree_lookup (t : kgz_huffman_tree) : M kgz_bitstream (option Z) :=
  let* bits := kgz_bitstream_peek MAX_BITS in
  let entry := default (mk_entry 0 0) (table t !! Z.to_nat (Z.land bits (2 ^ TABLE_BITS - 1))) in
  if 0 <? e_length entry then
    kgz_bitstream_consume (u32 (e_length entry)) ;;;
    ret (Some (e_symbol entry))
  else kgz_huffman_tree_lookup_slow t bits.
