(* ===== verification/Inflate.v ===== *)
(** The blocks of a deflate stream and the gzip container:
    [kgz_deflate_decompress] and [kgz_gzip_decompress] of
    [kernel/deps/kgz_singleheader.h]. *)
From stdpp Require Import base tactics list strings.
From Stdlib Require Import ZArith Lia.
From S2P Require Import Prelude Str Kgz.

Definition kgz_base_length : list Z :=
  [3; 4; 5; 6; 7; 8; 9; 10; 11; 13; 15; 17; 19; 23; 27; 31; 35; 43; 51; 59; 67; 83; 99; 115; 131; 163; 195; 227; 258].
Definition kgz_length_extra_bits : list Z :=
  [0; 0; 0; 0; 0; 0; 0; 0; 1; 1; 1; 1; 2; 2; 2; 2; 3; 3; 3; 3; 4; 4; 4; 4; 5; 5; 5; 5; 0].
Definition kgz_base_dist : list Z :=
  [1; 2; 3; 4; 5; 7; 9; 13; 17; 25; 33; 49; 65; 97; 129; 193; 257; 385; 513; 769; 1025; 1537; 2049; 3073; 4097; 6145; 8193; 12289; 16385; 24577].
Definition kgz_dist_extra_bits : list Z :=
  [0; 0; 0; 0; 1; 1; 2; 2; 3; 3; 4; 4; 5; 5; 6; 6; 7; 7; 8; 8; 9; 9; 10; 10; 11; 11; 12; 12; 13; 13].
Definition kgz_clen_alpha_order : list Z := [16; 17; 18; 0; 8; 7; 9; 6; 10; 5; 11; 4; 12; 3; 13; 2; 14; 1; 15].

(** * Arrays with a fixed bound *)

(** [arr[i]] *)
Definition load_at {S A} (arr : list A) (i : Z) : M S A :=
  match arr !! Z.to_nat i with
  | Some x => index_ok i (Z.of_nat (length arr)) ;;; ret x
  | None => panic "UBSAN: Out of bounds"
  end.
(** [arr[i] = x], the array afterwards. *)
Definition store_at {S A} (arr : list A) (i : Z) (x : A) : M S (list A) :=
  index_ok i (Z.of_nat (length arr)) ;;; ret (<[Z.to_nat i := x]> arr).

(** * Decompression context *)
Record kgz_decompression_context := mk_context {
  fixed_huffman_tree : kgz_huffman_tree;
  bitstream : kgz_bitstream;
  output_buffer : kgz_buffer;
  arena_alloc : kgz_arena
}.

Definition stream {A} (m : M kgz_bitstream A) : M kgz_decompression_context A :=
  zoom bitstream (λ c b, mk_context (fixed_huffman_tree c) b (output_buffer c) (arena_alloc c)) m.
Definition buffer {A} (m : M kgz_buffer A) : M kgz_decompression_context A :=
  zoom output_buffer (λ c b, mk_context (fixed_huffman_tree c) (bitstream c) b (arena_alloc c)) m.
Definition arena {A} (m : M kgz_arena A) : M kgz_decompression_context A :=
  zoom arena_alloc (λ c a, mk_context (fixed_huffman_tree c) (bitstream c) (output_buffer c) a) m.

(** * Stored blocks *)
Definition kgz_dflt_handle_stored : M kgz_decompression_context bool :=
  stream kgz_bitstream_align ;;;
  let* len := stream kgz_bitstream_read_u16 in
  let* nlen := stream kgz_bitstream_read_u16 in
  let not_nlen := Z.land (Z.lnot nlen) 0xffff in
  if negb (len =? not_nlen) then
    buffer (kgz_printf "invalid stored block with len %u and nlen %u\n" [len; not_nlen]) ;;;
    ret false
  else
    let* s := gets bitstream in
    let avail := u64 (data_len s - current_byte s) in
    let len := if avail <? len then u16 avail else len in
    let src := advance (current_byte s) (s_data s) in
    let* ok := buffer (kgz_buffer_insert_bulk src len) in
    if negb ok then ret false
    else
      stream (modify (λ s, mk_stream (s_data s) (data_len s) (u64 (current_byte s + len)) (current_bit s)
                             (bit_buffer s) (bits_in_buffer s))) ;;;
      ret true.

(** * Dynamic Huffman tables *)

(** [for (i = 0; i < hclen + 4; i++)], with [n] rounds left. *)
Fixpoint read_hsym_lengths (n : nat) (i : Z) (hsym_lengths : list Z) : M kgz_decompression_context (list Z) :=
  match n with
  | O => ret hsym_lengths
  | S n' =>
      let* k := load_at kgz_clen_alpha_order i in
      let* v := stream (kgz_bitstream_getbits 3) in
      let* hsym_lengths := store_at hsym_lengths k (u16 v) in
      read_hsym_lengths n' (i + 1) hsym_lengths
  end.

(** [for (j = 0; j < times; j++, i++) sym_lengths[i] = value], with [n] rounds
    left; [limit] is the second condition of the loop, where it has one. *)
Fixpoint repeat_length (n : nat) (limit : option Z) (i value : Z) (sym_lengths : list Z) : M kgz_decompression_context (Z * list Z) :=
  match n with
  | O => ret (i, sym_lengths)
  | S n' =>
      if match limit with Some l => i <? l | None => true end then
        let* sym_lengths := store_at sym_lengths i value in
        repeat_length n' limit (i + 1) value sym_lengths
      else ret (i, sym_lengths)
  end.

(** One round of the loop over the code lengths; [None] is [return false]. *)
Definition sym_lengths_round (htree : kgz_huffman_tree) (total : Z) (st : Z * list Z)
    : M kgz_decompression_context (Z * list Z + option (list Z)) :=
  let '(i, sym_lengths) := st in
  if i <? total then
    let* v := stream (kgz_huffman_tree_lookup htree) in
    match v with
    | None => ret (inr None)
    | Some symbol =>
        if symbol <=? 15 then
          let* sym_lengths := store_at sym_lengths i symbol in
          ret (inl (i + 1, sym_lengths))
        else if symbol =? 16 then
          let* b := stream (kgz_bitstream_getbits 2) in
          let times := u8 (u8 b + 3) in
          if i <=? 0 then ret (inr None)
          else
            let* value := load_at sym_lengths (i - 1) in
            let* r := repeat_length (Z.to_nat times) None i value sym_lengths in
            ret (inl r)
        else if symbol =? 17 then
          let* b := stream (kgz_bitstream_getbits 3) in
          let times := u8 (u8 b + 3) in
          let* r := repeat_length (Z.to_nat times) (Some total) i 0 sym_lengths in
          ret (inl r)
        else if symbol =? 18 then
          let* b := stream (kgz_bitstream_getbits 7) in
          let times := u8 (u8 b + 11) in
          let* r := repeat_length (Z.to_nat times) (Some total) i 0 sym_lengths in
          ret (inl r)
        else ret (inl (i, sym_lengths))
    end
  else ret (inr (Some sym_lengths)).

(** [*ltree] and [*dtree]; [None] is [return false]. *)
Definition create_dynamic_huffman_tables : M kgz_decompression_context (option (kgz_huffman_tree * kgz_huffman_tree)) :=
  let* d := stream (kgz_bitstream_peek (5 + 5 + 4)) in
  stream (kgz_bitstream_consume (5 + 5 + 4)) ;;;
  let hlit := Z.land d 0x1f in
  let hdist := Z.land (Z.shiftr d 5) 0x1f in
  let hclen := Z.land (Z.shiftr d 10) 0xf in
  let* hsym_lengths := read_hsym_lengths (Z.to_nat (hclen + 4)) 0 (replicate 19 0) in
  let* htree := arena (kgz_huffman_tree_create hsym_lengths) in
  match htree with
  | None => ret None
  | Some htree =>
      let total := (hlit + 257) + (hdist + 1) in
      let* r := while_ (sym_lengths_round htree total) (0, replicate (288 + 32) 0) in
      match r with
      | None => ret None
      | Some sym_lengths =>
          let* dtree := arena (kgz_huffman_tree_create
                           (take (Z.to_nat (hdist + 1)) (drop (Z.to_nat (hlit + 257)) sym_lengths))) in
          let* ltree := arena (kgz_huffman_tree_create (take (Z.to_nat (hlit + 257)) sym_lengths)) in
          match dtree, ltree with
          | Some dtree, Some ltree => ret (Some (ltree, dtree))
          | _, _ => ret None
          end
      end
  end.

(** * Compressed blocks *)

(** The five bits of a fixed distance code, reversed. *)
Fixpoint reverse5 (n : nat) (distance_symbol rev : Z) : Z :=
  match n with
  | O => rev
  | S n' => reverse5 n' (Z.shiftr distance_symbol 1) (u16 (Z.lor (Z.shiftl rev 1) (Z.land distance_symbol 1)))
  end.

(** [dtree] is [None] in a block with fixed codes; the result is [None] for
    [return false]. *)
Definition read_distance_symbol (dtree : option kgz_huffman_tree) : M kgz_decompression_context (option Z) :=
  match dtree with
  | Some dtree => stream (kgz_huffman_tree_lookup dtree)
  | None =>
      let* b := stream (kgz_bitstream_getbits 5) in
      ret (Some (reverse5 5 (u16 b) 0))
  end.

(** From a length symbol to the copy. *)
Definition handle_match (dtree : option kgz_huffman_tree) (symbol : Z) : M kgz_decompression_context bool :=
  let* extra_length_bits := load_at kgz_length_extra_bits (symbol - 257) in
  let* base := load_at kgz_base_length (symbol - 257) in
  let* b := stream (kgz_bitstream_getbits extra_length_bits) in
  let length := u16 (base + u16 b) in
  let* ds := read_distance_symbol dtree in
  match ds with
  | None => ret false
  | Some distance_symbol =>
      let* extra_dist_bits := load_at kgz_dist_extra_bits distance_symbol in
      let* b := stream (kgz_bitstream_getbits extra_dist_bits) in
      let extra_dist := u16 b in
      let* base := load_at kgz_base_dist distance_symbol in
      let distance := u16 (base + extra_dist) in
      buffer (kgz_buffer_lz77copy distance length)
  end.

(** One round of the loop of [kgz_dflt_handle_huffman]. *)
Definition huffman_round (ltree : kgz_huffman_tree) (dtree : option kgz_huffman_tree) (_ : unit) : M kgz_decompression_context (unit + bool) :=
  let* s := gets bitstream in
  if data_len s <=? current_byte s then ret (inr true)
  else
    let* v := stream (kgz_huffman_tree_lookup ltree) in
    match v with
    | None => ret (inr true)
    | Some symbol =>
        if symbol <? 256 then
          let* ok := buffer (kgz_buffer_insert (u8 symbol)) in
          if negb ok then ret (inr false) else ret (inl tt)
        else if symbol =? 256 then ret (inr true)
        else
          let* ok := handle_match dtree symbol in
          if negb ok then ret (inr false) else ret (inl tt)
    end.

Definition kgz_dflt_handle_huffman (dynamic : bool) : M kgz_decompression_context bool :=
  if dynamic then
    let* r := create_dynamic_huffman_tables in
    match r with
    | None => ret false
    | Some (ltree, dtree) => while_ (huffman_round ltree (Some dtree)) tt
    end
  else
    let* ltree := gets fixed_huffman_tree in
    while_ (huffman_round ltree None) tt.

(** * The stream of blocks *)

(** One round of the loop of [kgz_deflate_decompress]. *)
Definition deflate_round (last_block : bool) : M kgz_decompression_context (bool + bool) :=
  if last_block then ret (inr true)
  else
    let* b := stream (kgz_bitstream_getbits 1) in
    let last_block := b =? 1 in
    let* b := stream (kgz_bitstream_getbits 2) in
    let block_type := u8 b in
    if block_type =? 3 then ret (inr false)
    else
      let* success :=
        (if block_type =? 0 then kgz_dflt_handle_stored
         else if block_type =? 1 then kgz_dflt_handle_huffman false
         else kgz_dflt_handle_huffman true) in
      arena kgz_arena_reset ;;;
      if negb success then ret (inr false) else ret (inl last_block).

Definition kgz_deflate_decompress : M kgz_decompression_context bool := while_ deflate_round false.

(** * The gzip container *)
Definition FTEXT : Z := 1.
Definition FHCRC : Z := 2.
Definition FEXTRA : Z := 4.
Definition FNAME : Z := 8.
Definition FCOMMENT : Z := 16.

(** [CHECK_BOUNDS] lets the function go on. *)
Definition CHECK_BOUNDS (curr size needed : Z) : bool := u64 (curr + needed) <=? size.

(** [while (true)] over a zero-terminated field; [None] is [return NULL]. *)
Definition skip_string {S} (u8data : cstring) (data_size current_byte : Z) : M S (option Z) :=
  while_ (λ cur,
    if negb (CHECK_BOUNDS cur data_size 1) then ret (inr None)
    else if u8data cur =? 0 then ret (inr (Some (u64 (cur + 1))))
    else ret (inl (u64 (cur + 1)))) current_byte.

(** [if (flag & bit) ...] around a step of the header. *)
Definition optional {S} (flag bit : Z) (step : Z → M S (option Z)) (cur : option Z) : M S (option Z) :=
  match cur with
  | None => ret None
  | Some cur => if negb (Z.land flag bit =? 0) then step cur else ret (Some cur)
  end.

Definition skip_extra {S} (u8data : cstring) (data_size current_byte : Z) : M S (option Z) :=
  if negb (CHECK_BOUNDS current_byte data_size 2) then ret None
  else
    let xlen := u16 (Z.lor (Z.lor 0 (u8data current_byte)) (Z.shiftl (u8data (u64 (current_byte + 1))) 8)) in
    let current_byte := u64 (current_byte + 2) in
    if negb (CHECK_BOUNDS current_byte data_size xlen) then ret None
    else ret (Some (u64 (current_byte + xlen))).

Definition skip_bytes {S} (n data_size current_byte : Z) : M S (option Z) :=
  if negb (CHECK_BOUNDS current_byte data_size n) then ret None else ret (Some (u64 (current_byte + n))).

(** The offset of the deflate stream; [None] is [return NULL]. *)
Definition gzip_header {S} (u8data : cstring) (data_size : Z) : M S (option Z) :=
  if negb (CHECK_BOUNDS 0 data_size 2) then ret None
  else if negb (u8data 0 =? 0x1F) || negb (u8data 1 =? 0x8B) then ret None
  else if negb (CHECK_BOUNDS 2 data_size 1) then ret None
  else if negb (u8data 2 =? 8) then ret None
  else if negb (CHECK_BOUNDS 3 data_size 1) then ret None
  else
    let flag := u8data 3 in
    let* cur := skip_bytes 6 data_size 4 in
    let* cur := optional flag FEXTRA (skip_extra u8data data_size) cur in
    let* cur := optional flag FNAME (skip_string u8data data_size) cur in
    let* cur := optional flag FCOMMENT (skip_string u8data data_size) cur in
    let* cur := optional flag FHCRC (skip_bytes 2 data_size) cur in
    match cur with
    | None => ret None
    | Some current_byte => if negb (CHECK_BOUNDS current_byte data_size 9) then ret None else ret (Some current_byte)
    end.

(** The size in the last four bytes. *)
Definition footer_size (u8data : cstring) (data_size : Z) : Z :=
  let footer_offset := u64 (data_size - 8) in
  let byte i := u8data (u64 (footer_offset + i)) in
  Z.lor (Z.lor (Z.lor (Z.lor 0 (byte 4)) (u32 (Z.shiftl (byte 5) 8))) (u32 (Z.shiftl (byte 6) 16))) (u32 (Z.shiftl (byte 7) 24)).

(** The code lengths of the fixed literal/length tree. *)
Definition fixed_codes : list Z :=
  map (λ i, if i <=? 143 then 8 else if i <=? 255 then 9 else if i <=? 279 then 7 else 8) (seqZ 0 288).

(** What the decompressor needs from the kernel: blocks of memory with their
    bytes, and the console. *)
Class Blocks (S : Type) := {
  blk_malloc : Z → M S Z;
  blk_free : Z → M S unit;
  blk_bytes : S → Z → mem_t;                 (* the bytes from a pointer on *)
  blk_store : Z → Z → mem_t → M S unit;      (* pointer, number of bytes, bytes *)
  blk_printf : string → list Z → M S unit
}.

Section gzip.
Context {S : Type} `{Blocks S}.

Fixpoint print_all (msgs : list (string * list Z)) : M S unit :=
  match msgs with
  | [] => ret tt
  | (fmt, args) :: msgs' => blk_printf fmt args ;;; print_all msgs'
  end.

(** [kgz_deflate_decompress(&context)] on the block of the output buffer. *)
Definition run_deflate (tree : kgz_huffman_tree) (bs : kgz_bitstream) (out capacity : Z) (a : kgz_arena) : M S bool :=
  let* d := gets (λ s, blk_bytes s out) in
  match kgz_deflate_decompress (mk_context tree bs (mk_buffer d 0 capacity []) a) with
  | Ok (success, c) =>
      blk_store out (b_size (output_buffer c)) (b_data (output_buffer c)) ;;;
      print_all (rev (b_printed (output_buffer c))) ;;;
      ret success
  | Panic msg => panic msg
  | Hang => hang
  end.

Definition ARENA_SIZE : Z := 1024 * 32 + SIZEOF_ENTRY * 3 * 2 ^ KGZ_HUFFMAN_CACHE.
Definition FIXED_ARENA_SIZE : Z := 1024 * 24 + SIZEOF_ENTRY * 1 * 2 ^ KGZ_HUFFMAN_CACHE.

(** The output with [*data_size_out] and [*buffer_size_out]; [None] is NULL. *)
Definition kgz_gzip_decompress (data data_size : Z) : M S (option (Z * Z * Z)) :=
  let* u8data := gets (λ s i, read8 (blk_bytes s data) i) in
  let* cur := gzip_header u8data data_size in
  match cur with
  | None => ret None
  | Some current_byte =>
      let deflate_bitstream := mk_stream (advance current_byte u8data) (u64 (data_size - current_byte - 8)) 0 0 0 0 in
      let decompressed_size := footer_size u8data data_size in
      let capacity := u32 (decompressed_size + 1024) in
      let* out := blk_malloc capacity in
      let* arena_alloc := kgz_arena_init blk_malloc ARENA_SIZE in
      let* fixed_huffman_arena := kgz_arena_init blk_malloc FIXED_ARENA_SIZE in
      match kgz_huffman_tree_create fixed_codes fixed_huffman_arena with
      | Ok (Some tree, fixed_huffman_arena) =>
          let* success := run_deflate tree deflate_bitstream out capacity arena_alloc in
          kgz_arena_free blk_free arena_alloc ;;;
          kgz_arena_free blk_free fixed_huffman_arena ;;;
          if negb success then
            blk_free out ;;;
            ret None
          else ret (Some (out, decompressed_size, capacity))
      | Ok (None, fixed_huffman_arena) =>
          kgz_arena_free blk_free arena_alloc ;;;
          kgz_arena_free blk_free fixed_huffman_arena ;;;
          blk_free out ;;;
          ret None
      | Panic msg => panic msg
      | Hang => hang
      end
  end.
End gzip.
