(* ===== verification/Fs.v ===== *)
(** The file table ([filesystem/filesystem.c]), the archive file system on the
    initial ramdisk ([filesystem/tarfs/tarfs.c]) and the keyboard's device file
    ([drivers/keyboard.c]).

    A path is the list of its bytes without the terminator; a read returns the
    bytes it stores.  A compressed archive is unpacked by [kgz_gzip_decompress]
    ([Inflate]), on the kernel's blocks of memory. *)
From stdpp Require Import base tactics list gmap strings.
From Stdlib Require Import ZArith Lia.
From S2P Require Import Prelude Bits State Spinlock Pmm Heap Vmm Vma Libc Str Kbd Io Cpu Timers Apic Serial Uaccess Kgz Inflate.

(** Memory behind a kernel pointer; nothing is mapped where it reads as 0. *)
Definition kstr (s : sys) (ptr : Z) : cstring := λ i,
  match resolve false (s_k s) false (u64 (ptr + i)) with
  | Some pa => read8 (k_mem (s_k s)) pa
  | None => 0
  end.

(** The first [n] bytes, and a whole string. *)
Definition take_bytes (f : cstring) (n : Z) : list Z := map (λ i, f (Z.of_nat i)) (seq 0 (Z.to_nat n)).
Definition string_at {S} (f : cstring) : M S (list Z) :=
  let* n := strlen f in ret (take_bytes f n).

(** * [tarfs.c] *)
Section tarfs.
(** The bytes from [archive] on. *)
Context (arc : cstring).

Fixpoint oct2bin_loop (size : nat) (c : cstring) (i n : Z) : M sys Z :=
  match size with
  | O => ret n
  | S size' =>
      let* n8 := mul_i 32 n 8 in
      let* n' := add_i 32 n8 (c i - 48) in
      oct2bin_loop size' c (i + 1) n'
  end.

Definition oct2bin (str : cstring) (size : Z) : M sys Z := oct2bin_loop (Z.to_nat size) str 0 0.

(** [!memcmp(ptr + 257, "ustar", 5)], with [ptr] an offset in the archive. *)
Definition is_header (ptr : Z) : M sys bool :=
  let* c := memcmp (advance (ptr + 257) arc) (lit "ustar") 5 in ret (c =? 0).

Definition header_size (ptr : Z) : M sys Z := oct2bin (advance (ptr + 0x7c) arc) 11.

(** [ptr += (((filesize + 511) / 512) + 1) * 512] *)
Definition next_header (ptr filesize : Z) : M sys Z :=
  let* a := add_i 32 filesize 511 in
  let* b := add_i 32 (Z.quot a 512) 1 in
  let* c := mul_i 32 b 512 in
  ret (ptr + c).

Definition tarfsRead_round (path : cstring) (read_length ptr : Z) : M sys (Z + Z * list Z) :=
  let* h := is_header ptr in
  if h then
    let* filesize := header_size ptr in
    let* n := strlen path in
    let* c := memcmp (advance (ptr + 1) arc) path (n + 1) in
    if c =? 0 then
      let bytes_to_copy := if filesize <? read_length then filesize else read_length in
      ret (inr (bytes_to_copy, take_bytes (advance (ptr + 512) arc) bytes_to_copy))
    else
      let* ptr' := next_header ptr filesize in ret (inl ptr')
  else ret (inr (-1, [])).

Definition tarfsRead (path : cstring) (read_length : Z) : M sys (Z * list Z) :=
  while_ (tarfsRead_round path read_length) 0.

Definition tarfsGetFize_round (tarPath : cstring) (ptr : Z) : M sys (Z + Z) :=
  let* h := is_header ptr in
  if h then
    let* filesize := header_size ptr in
    let* n := strlen tarPath in
    let* c := memcmp (advance ptr arc) tarPath (n + 1) in
    if c =? 0 then ret (inr filesize)
    else
      let* ptr' := next_header ptr filesize in ret (inl ptr')
  else ret (inr (-1)).

(** [tarPath] has 256 bytes: a longer path runs over the stack. *)
Definition tarfsGetFize (path : cstring) : M sys Z :=
  let* n := strlen path in
  if 255 <=? n then panic "stack overflow"
  else while_ (tarfsGetFize_round (of_list (46 :: take_bytes path n))) 0.

Definition tarfsWrite : M sys Z := ret (-1).

(** The loop of [init_tarfs] that registers the files. *)
Definition mount_round (ptr : Z) : M sys (Z + unit) :=
  let* h := is_header ptr in
  if h then
    let* filesize := header_size ptr in
    (if 0 <? filesize then
       kern (malloc SIZEOF_FILE) ;;;
       let* p := string_at (advance (ptr + 1) arc) in
       register_file (mk_file p tarfs_ops) ;;;
       ret tt
     else ret tt) ;;;
    let* ptr' := next_header ptr filesize in
    ret (inl ptr')
  else ret (inr tt).

Definition mount : M sys unit := while_ mount_round 0.
End tarfs.

(** [struct limine_file], as far as the code reads it. *)
Record limine_file := mk_module { m_address : Z; m_size : Z; m_path : list Z; m_string : option (list Z) }.

(** Bytes of a block, written at a kernel pointer. *)
Fixpoint store_block (n : nat) (ptr : Z) (m : mem_t) (i : Z) : M sys unit :=
  match n with
  | O => ret tt
  | S n' =>
      let* ok := try_store8 (u64 (ptr + i)) (read8 m i) in
      if ok then store_block n' ptr m (i + 1) else panic "Page Fault"
  end.

(** The decompressor's memory comes from [malloc]. *)
#[export] Instance kernel_blocks : Blocks sys := {
  blk_malloc n := kern (malloc n);
  blk_free p := kern (free p);
  blk_bytes s p := kstr s p;
  blk_store p n m := store_block (Z.to_nat n) p m 0;
  blk_printf := printf
}.

(** [archive = kgz_gzip_decompress(..., nullptr, nullptr)] *)
Definition decompress (m : limine_file) : M sys unit :=
  printf "TARFS: initramfs is compressed with gzip\n" [] ;;;
  printf "TARFS: decompressing initramfs\n" [] ;;;
  let* r := kgz_gzip_decompress (m_address m) (m_size m) in
  wr archive (match r with Some (p, _, _) => p | None => 0 end).

(** The module labelled as the initramfs. *)
Fixpoint find_labelled (ms : list limine_file) : M sys unit :=
  match ms with
  | [] => ret tt
  | m :: ms' =>
      match m_string m with
      | None => find_labelled ms'
      | Some label =>
          let* c := strcmp (of_list label) (lit "initramfs") in
          if c =? 0 then
            let* len := strlen (of_list (m_path m)) in
            let* gz := (if 3 <=? len then strcmp (advance (len - 3) (of_list (m_path m))) (lit ".gz") else ret 1) in
            if gz =? 0 then decompress m else wr archive (m_address m)
          else find_labelled ms'
      end
  end.

(** The default path. *)
Fixpoint find_default (ms : list limine_file) : M sys unit :=
  match ms with
  | [] => ret tt
  | m :: ms' =>
      let* c := strcmp (of_list (m_path m)) (lit "/initramfs.tar") in
      if c =? 0 then wr archive (m_address m)
      else
        let* c := strcmp (of_list (m_path m)) (lit "/initramfs.tar.gz") in
        if c =? 0 then decompress m else find_default ms'
  end.

Definition init_tarfs (modules : list limine_file) : M sys Z :=
  find_labelled modules ;;;
  find_default modules ;;;
  let* a := rd archive in
  if a =? 0 then panic "TARFS: Could not find initramfs.tar"
  else
    let* arc := gets (λ s, kstr s a) in
    mount arc ;;;
    printf "TARFS: initramfs Mounted\n" [] ;;;
    ret 0.

(** * [filesystem.c]: calls through the pointers of [struct file] *)
Section files.
Context `{Hardware}.

Definition file_read (o : file_ops) (path : cstring) (read_length : Z) : M sys (Z * list Z) :=
  match o with
  | tarfs_ops =>
      let* a := rd archive in
      let* arc := gets (λ s, kstr s a) in
      tarfsRead arc path read_length
  | kbd_ops => kern (kbdDeviceRead read_length)
  | ps2Kbd_ops => kern (ps2KbdDeviceRead read_length)
  | serial_ops => serialDeviceRead read_length
  | tty_ops => let* r := ttyDeviceRead in ret (r, [])
  end.

Definition file_write (o : file_ops) (write_data : cstring) (write_length : Z) : M sys Z :=
  match o with
  | tarfs_ops => tarfsWrite
  | kbd_ops => kern (kbdDeviceWrite write_length)
  | ps2Kbd_ops => kern (ps2KbdDeviceWrite write_length)
  | serial_ops => serialDeviceWrite write_data write_length
  | tty_ops => ttyDeviceWrite write_data write_length
  end.

Fixpoint find_file (l : list file) (path : cstring) : M sys (option file) :=
  match l with
  | [] => ret None
  | current :: l' =>
      let* c := strcmp (of_list (Io.path current)) path in
      if c =? 0 then ret (Some current) else find_file l' path
  end.

Definition fs_read (path : cstring) (read_length : Z) : M sys (Z * list Z) :=
  let* l := gets s_files in
  let* f := find_file l path in
  match f with
  | Some current => file_read (ops current) path read_length
  | None => ret (-1, [])
  end.

Definition fs_write (path : cstring) (write_data : cstring) (write_length : Z) : M sys Z :=
  let* l := gets s_files in
  let* f := find_file l path in
  match f with
  | Some current => file_write (ops current) write_data write_length
  | None => ret (-1)
  end.

(** * [drivers/keyboard.c] *)
Definition setup_keyboard : M sys unit :=
  new_file "/dev/kbd" kbd_ops ;;;
  printf "KEYBOARD: Keyboard Glob Device Setup\n" [].
End files.
