(* ===== verification/Elf.v ===== *)
(** Executables: the header check ([elf/elf_checker.c]), the loader
    ([elf/elf_loader.c]), and the mapping of the kernel's own image when paging
    is set up ([setup_vmm] of [memory/vmm.c]). *)
From stdpp Require Import base tactics list gmap strings.
From Stdlib Require Import ZArith Lia Ascii.
From S2P Require Import Prelude Bits State Spinlock Pmm Heap Vmm Vma Libc Str Io Cpu Kbd Timers Apic Serial Uaccess Fs.

Definition ELF_32_BIT : Z := 1.
Definition ELF_64_BIT : Z := 2.
Definition ELF_LITTLE_ENDIAN : Z := 1.
Definition ELF_BIG_ENDIAN : Z := 2.
Definition ELF_HEADER_VER : Z := 1.
Definition ELF_VER : Z := 1.
Definition ELF_SYSV_ABI : Z := 0.
Definition ELF_EXECUTABLE_TYPE : Z := 0x02.
Definition ELF_X86_64_ARCH : Z := 0x3E.
Definition ELF_PROG_PT_LOAD_TYPE : Z := 1.
Definition ELF_PROG_EXEC_FLAG : Z := 0x1.
Definition ELF_PROG_WRITE : Z := 0x2.

(** A little-endian field of [n] bytes. *)
Fixpoint field (n : nat) (f : cstring) (off : Z) : Z :=
  match n with
  | O => 0
  | S n' => f off + 256 * field n' f (off + 1)
  end.

Record elf_header_64 := mk_elf_header {
  magic : list Z; bits : Z; endianness : Z; header_version : Z; abi : Z;
  e_type : Z; arch : Z; elf_version : Z;
  entry_point : Z; program_header_table : Z;
  program_header_size : Z; program_header_entries : Z
}.

Definition elf_header (f : cstring) : elf_header_64 :=
  mk_elf_header [f 0; f 1; f 2; f 3] (f 4) (f 5) (f 6) (f 7)
    (field 2 f 16) (field 2 f 18) (field 4 f 20) (field 8 f 24) (field 8 f 32) (field 2 f 54) (field 2 f 56).

Record elf_program_header_64 := mk_ph {
  ph_type : Z; ph_flags : Z; ph_offset : Z; virt_addr : Z; file_size : Z; mem_size : Z; alignment : Z
}.

Definition SIZEOF_PH : Z := 56.
Definition program_header (f : cstring) (o : Z) : elf_program_header_64 :=
  mk_ph (field 4 f o) (field 4 f (o + 4)) (field 8 f (o + 8)) (field 8 f (o + 16)) (field 8 f (o + 32))
    (field 8 f (o + 40)) (field 8 f (o + 48)).

Definition program_headers (f : cstring) : list elf_program_header_64 :=
  let h := elf_header f in
  map (λ i, program_header f (program_header_table h + SIZEOF_PH * Z.of_nat i)) (seq 0 (Z.to_nat (program_header_entries h))).

(** * [elf_checker.c] *)
Definition verify_elf_magic (header : elf_header_64) : bool :=
  bool_decide (magic header = [0x7F; chr "E"; chr "L"; chr "F"]).

Definition bad_elf (msg : string) : M sys bool := printf msg [] ;;; ret false.

Definition verify_elf_64 (f : cstring) : M sys bool :=
  let header := elf_header f in
  if negb (verify_elf_magic header) then bad_elf "ELF: BAD ELF FILE\n"
  else if negb (header_version header =? ELF_HEADER_VER) then bad_elf "ELF: BAD ELF FILE\n"
  else if negb (elf_version header =? ELF_VER) then bad_elf "ELF: BAD ELF FILE\n"
  else if negb (bits header =? ELF_64_BIT) && negb (bits header =? ELF_32_BIT) then bad_elf "ELF: BAD ELF FILE\n"
  else
    (if bits header =? ELF_32_BIT then printf "ELF: 32 Bit Elf File; Not Supported\n" [] else ret tt) ;;;
    if negb (endianness header =? ELF_LITTLE_ENDIAN) then
      bad_elf (if endianness header =? ELF_BIG_ENDIAN then "ELF: Big Endian Elf File; Not Supported\n" else "ELF: BAD ELF FILE\n")
    else if negb (arch header =? ELF_X86_64_ARCH) then bad_elf "ELF: Unkown Arch Detected; Not Supported\n"
    else if negb (abi header =? ELF_SYSV_ABI) then bad_elf "ELF: Unkown Arch Detected; Not Supported\n"
    else if negb (e_type header =? ELF_EXECUTABLE_TYPE) then bad_elf "ELF: Unkown Type Detected; Not Supported\n"
    else ret true.

(** * [elf_loader.c] *)
Record elf_info := mk_elf_info { ei_entry_point : Z; ei_phdr : Z; ei_phentsize : Z; ei_phnum : Z }.

(** Copy from any kernel memory to the direct map. *)
Fixpoint kcopy (n : nat) (dst src : Z) : M sys unit :=
  match n with
  | O => ret tt
  | S n' =>
      let* c := try_load8 src in
      match c with
      | None => panic "Page Fault"
      | Some v =>
          kern (modify (λ k, set_mem k (write8 (k_mem k) (hhdm_phys k dst) v))) ;;;
          kcopy n' (u64 (dst + 1)) (u64 (src + 1))
      end
  end.

(** The page range of a segment: where its pages start, how far into the first
    one the segment begins, how many there are. *)
Definition seg_pages (ph : elf_program_header_64) : Z :=
  let start := virt_addr ph in
  let end_ := u64 (start + mem_size ph) in
  let aligned_start := ALIGN_DOWN start PAGE_SIZE in
  let aligned_end := ALIGN_UP end_ PAGE_SIZE in
  u64 (aligned_end - aligned_start) / PAGE_SIZE.

Definition seg_base (ph : elf_program_header_64) : Z :=
  if 1 <? alignment ph then Z.ldiff (virt_addr ph) (alignment ph - 1) else virt_addr ph.

Definition seg_offset (ph : elf_program_header_64) : Z := u64 (virt_addr ph - seg_base ph).

Definition seg_flags (ph : elf_program_header_64) : Z :=
  let fl := Z.lor PTE_PRESENT PTE_USER in
  let fl := if negb (Z.land (ph_flags ph) ELF_PROG_WRITE =? 0) then Z.lor fl PTE_WRITABLE else fl in
  if Z.land (ph_flags ph) ELF_PROG_EXEC_FLAG =? 0 then Z.lor fl PTE_NX else fl.

(** The state of the loop over the pages: [p], [currentVirtAddr], [src], [fileRemaining]. *)
Record seg_state := mk_seg { sg_p : Z; sg_va : Z; sg_src : Z; sg_remaining : Z }.

(** What page [p] of a segment takes from the file. *)
Definition page_offset (vaddr_offset : Z) (st : seg_state) : Z := if sg_p st =? 0 then vaddr_offset else 0.
Definition page_space (vaddr_offset : Z) (st : seg_state) : Z := u64 (PAGE_SIZE - page_offset vaddr_offset st).
Definition page_copy (vaddr_offset : Z) (st : seg_state) : Z :=
  let space := page_space vaddr_offset st in
  if sg_remaining st <? space then sg_remaining st else space.
Definition seg_next (vaddr_offset : Z) (st : seg_state) : seg_state :=
  let toCopy := page_copy vaddr_offset st in
  mk_seg (sg_p st + 1) (u64 (sg_va st + PAGE_SIZE)) (u64 (sg_src st + toCopy)) (u64 (sg_remaining st - toCopy)).

Definition load_page_round (pagemap pte_flags pagesToMap vaddr_offset : Z) (st : seg_state) : M sys (seg_state + unit) :=
  if sg_p st <? pagesToMap then
    let* ppage := kern allocate_page in
    let* off := gets (λ s, k_hhdm (s_k s)) in
    let vpage := u64 (ppage + off) in
    kern (vmm_map_page pagemap (sg_va st) ppage pte_flags) ;;;
    let offset := page_offset vaddr_offset st in
    let space := page_space vaddr_offset st in
    let toCopy := page_copy vaddr_offset st in
    (if negb (offset =? 0) then kern (State.memset vpage 0 offset) else ret tt) ;;;
    (if negb (toCopy =? 0) then kcopy (Z.to_nat toCopy) (u64 (vpage + offset)) (sg_src st) else ret tt) ;;;
    (if toCopy <? space then kern (State.memset (u64 (vpage + offset + toCopy)) 0 (space - toCopy)) else ret tt) ;;;
    ret (inl (seg_next vaddr_offset st))
  else ret (inr tt).

Definition load_segment (file pagemap : Z) (ph : elf_program_header_64) : M sys unit :=
  if negb (ph_type ph =? ELF_PROG_PT_LOAD_TYPE) then ret tt
  else
    let vaddr_offset := seg_offset ph in
    kern (valloc_at free pagemap (u64 (mem_size ph + vaddr_offset)) (seg_base ph) false) ;;;
    while_ (load_page_round pagemap (seg_flags ph) (seg_pages ph) vaddr_offset)
      (mk_seg 0 (seg_base ph) (u64 (file + ph_offset ph)) (file_size ph)).

Fixpoint load_segments (file pagemap : Z) (phs : list elf_program_header_64) : M sys unit :=
  match phs with
  | [] => ret tt
  | ph :: phs' => load_segment file pagemap ph ;;; load_segments file pagemap phs'
  end.

Fixpoint find_load_base (phs : list elf_program_header_64) : Z :=
  match phs with
  | [] => 0
  | ph :: phs' => if ph_type ph =? ELF_PROG_PT_LOAD_TYPE then u64 (virt_addr ph - ph_offset ph) else find_load_base phs'
  end.

Definition load_elf (file pagemap : Z) : M sys elf_info :=
  let* f := gets (λ s, kstr s file) in
  let* ok := verify_elf_64 f in
  if negb ok then
    printf "ELF: Failed to load ELF file; VALIDATION FAILED\n" [] ;;;
    ret (mk_elf_info 0 0 0 0)
  else
    let header := elf_header f in
    let phs := program_headers f in
    load_segments file pagemap phs ;;;
    ret (mk_elf_info (entry_point header) (u64 (find_load_base phs + program_header_table header))
           (program_header_size header) (program_header_entries header)).

(** * [setup_vmm] of [memory/vmm.c] *)

(** What the boot loader reports: the kernel's image and where it put it. *)
Record boot_image := mk_image { physical_base : Z; executable_file : Z }.

Fixpoint setup_vmm_tables (n : nat) (i pml4_virt : Z) : M kernel unit :=
  match n with
  | O => ret tt
  | S n' =>
      let* pa := allocate_page in
      store64 (entry_ptr pml4_virt i) pa ;;;
      let* e := load64 (entry_ptr pml4_virt i) in
      store64 (entry_ptr pml4_virt i) (Z.lor e (Z.lor (Z.lor PTE_PRESENT PTE_WRITABLE) PTE_LOCKED)) ;;;
      setup_vmm_tables n' (i + 1) pml4_virt
  end.

Definition kernel_seg_flags (stub : bool) (ph : elf_program_header_64) : Z :=
  let fl := Z.lor PTE_PRESENT PTE_GLOBAL in
  let fl := if negb (Z.land (ph_flags ph) ELF_PROG_WRITE =? 0) then Z.lor fl PTE_WRITABLE else fl in
  let fl := if stub then Z.lor fl PTE_WRITABLE else fl in
  if Z.land (ph_flags ph) ELF_PROG_EXEC_FLAG =? 0 then Z.lor fl PTE_NX else fl.

Fixpoint map_kernel_segments (stub : bool) (phys_base : Z) (phs : list elf_program_header_64) : M kernel unit :=
  match phs with
  | [] => ret tt
  | ph :: phs' =>
      (if ph_type ph =? ELF_PROG_PT_LOAD_TYPE then
         vmm_map_pages_continuous kernel_pagemap (virt_addr ph)
           (u64 (phys_base + virt_addr ph - 0xffffffff80000000))
           (ALIGN_UP (mem_size ph) PAGE_SIZE / PAGE_SIZE) (kernel_seg_flags stub ph)
       else ret tt) ;;;
      map_kernel_segments stub phys_base phs'
  end.

Fixpoint map_direct (gb_pages hypervisor : bool) (entries : list memmap_entry) : M kernel unit :=
  match entries with
  | [] => ret tt
  | e :: entries' =>
      let map_base := ALIGN_DOWN (base e) PAGE_SIZE in
      let page_count := ALIGN_UP (length_ e) PAGE_SIZE / 4096 in
      let fl := Z.lor (Z.lor PTE_PRESENT PTE_WRITABLE) PTE_NX in
      let fl := match type_ e with
                | LIMINE_MEMMAP_FRAMEBUFFER => if hypervisor then fl else Z.lor fl (Z.lor PTE_PCD PTE_PAT)
                | _ => fl
                end in
      let* off := gets k_hhdm in
      vmm_map_pages_hhdm gb_pages kernel_pagemap (u64 (map_base + off)) map_base page_count fl ;;;
      map_direct gb_pages hypervisor entries'
  end.

Section setup_vmm.
Context `{Hardware}.

Definition setup_vmm (img : boot_image) (memmap : list memmap_entry) : M sys unit :=
  let* pml4_phys := kern allocate_page in
  let* off := gets (λ s, k_hhdm (s_k s)) in
  let pml4_virt := u64 (pml4_phys + off) in
  kern (setup_vmm_tables 255 256 pml4_virt) ;;;
  kern (let* pm := gets (λ k, default (mk_pagemap 0 [] []) (k_pagemaps k !! kernel_pagemap)) in
        put_pagemap kernel_pagemap (mk_pagemap pml4_virt (free_ranges pm) (used_ranges pm))) ;;;
  let* f := gets (λ s, kstr s (executable_file img)) in
  let* ok := verify_elf_64 f in
  if negb ok then panic "VMM: Kernel elf file was invalid"
  else
    let* stub := rd dbgstub_enabled in
    kern (map_kernel_segments (negb (stub =? 0)) (physical_base img) (program_headers f)) ;;;
    let* ext := cpuid_extended_supported CPUID_GET_EXT_FEATURES in
    let* gb := cpu_feature_bit CPUID_GET_EXT_FEATURES CPUID_NO_SUBLEAF CPUID_EDX CPUID_1GB_PAGES in
    (if negb (ext =? 0) then
       printf (if negb (gb =? 0) then "VMM: Using 1GB Pages for HHDM\n" else "VMM: Using 2MB Pages for HHDM\n") []
     else ret tt) ;;;
    let* hv := cpu_feature_bit 1 0 (chr "c") CPUID_HYPERVISOR in
    let gb_pages := negb (ext =? 0) && negb (gb =? 0) in
    kern (map_direct gb_pages (negb (hv =? 0)) memmap) ;;;
    kern (vmm_switch_to kernel_pagemap) ;;;
    printf "VMM: Virtual Memory Manager Setup\n" [].
End setup_vmm.
