(* ===== verification/Fb.v ===== *)
(** The framebuffer ([drivers/fb_renderer.c]) with its font
    ([misc/font8x8_basic.h]) and the cursor's pixels ([drivers/mouse.c]).  The
    framebuffer lies in physical memory behind the direct map. *)
From stdpp Require Import base tactics list gmap strings.
From Stdlib Require Import ZArith Lia.
From S2P Require Import Prelude Bits State Io Str.

Definition FONT_WIDTH : nat := 8.
Definition FONT_HEIGHT : nat := 8.

Definition font8x8_basic : list (list Z) :=
  [[0x00; 0x00; 0x00; 0x00; 0x00; 0x00; 0x00; 0x00];
   [0x00; 0x00; 0x00; 0x00; 0x00; 0x00; 0x00; 0x00];
   [0x00; 0x00; 0x00; 0x00; 0x00; 0x00; 0x00; 0x00];
   [0x00; 0x00; 0x00; 0x00; 0x00; 0x00; 0x00; 0x00];
   [0x00; 0x00; 0x00; 0x00; 0x00; 0x00; 0x00; 0x00];
   [0x00; 0x00; 0x00; 0x00; 0x00; 0x00; 0x00; 0x00];
   [0x00; 0x00; 0x00; 0x00; 0x00; 0x00; 0x00; 0x00];
   [0x00; 0x00; 0x00; 0x00; 0x00; 0x00; 0x00; 0x00];
   [0x00; 0x00; 0x00; 0x00; 0x00; 0x00; 0x00; 0x00];
   [0x00; 0x00; 0x00; 0x00; 0x00; 0x00; 0x00; 0x00];
   [0x00; 0x00; 0x00; 0x00; 0x00; 0x00; 0x00; 0x00];
   [0x00; 0x00; 0x00; 0x00; 0x00; 0x00; 0x00; 0x00];
   [0x00; 0x00; 0x00; 0x00; 0x00; 0x00; 0x00; 0x00];
   [0x00; 0x00; 0x00; 0x00; 0x00; 0x00; 0x00; 0x00];
   [0x00; 0x00; 0x00; 0x00; 0x00; 0x00; 0x00; 0x00];
   [0x00; 0x00; 0x00; 0x00; 0x00; 0x00; 0x00; 0x00];
   [0x00; 0x00; 0x00; 0x00; 0x00; 0x00; 0x00; 0x00];
   [0x00; 0x00; 0x00; 0x00; 0x00; 0x00; 0x00; 0x00];
   [0x00; 0x00; 0x00; 0x00; 0x00; 0x00; 0x00; 0x00];
   [0x00; 0x00; 0x00; 0x00; 0x00; 0x00; 0x00; 0x00];
   [0x00; 0x00; 0x00; 0x00; 0x00; 0x00; 0x00; 0x00];
   [0x00; 0x00; 0x00; 0x00; 0x00; 0x00; 0x00; 0x00];
   [0x00; 0x00; 0x00; 0x00; 0x00; 0x00; 0x00; 0x00];
   [0x00; 0x00; 0x00; 0x00; 0x00; 0x00; 0x00; 0x00];
   [0x00; 0x00; 0x00; 0x00; 0x00; 0x00; 0x00; 0x00];
   [0x00; 0x00; 0x00; 0x00; 0x00; 0x00; 0x00; 0x00];
   [0x00; 0x00; 0x00; 0x00; 0x00; 0x00; 0x00; 0x00];
   [0x00; 0x00; 0x00; 0x00; 0x00; 0x00; 0x00; 0x00];
   [0x00; 0x00; 0x00; 0x00; 0x00; 0x00; 0x00; 0x00];
   [0x00; 0x00; 0x00; 0x00; 0x00; 0x00; 0x00; 0x00];
   [0x00; 0x00; 0x00; 0x00; 0x00; 0x00; 0x00; 0x00];
   [0x00; 0x00; 0x00; 0x00; 0x00; 0x00; 0x00; 0x00];
   [0x00; 0x00; 0x00; 0x00; 0x00; 0x00; 0x00; 0x00];
   [0x18; 0x3C; 0x3C; 0x18; 0x18; 0x00; 0x18; 0x00];
   [0x36; 0x36; 0x00; 0x00; 0x00; 0x00; 0x00; 0x00];
   [0x36; 0x36; 0x7F; 0x36; 0x7F; 0x36; 0x36; 0x00];
   [0x0C; 0x3E; 0x03; 0x1E; 0x30; 0x1F; 0x0C; 0x00];
   [0x00; 0x63; 0x33; 0x18; 0x0C; 0x66; 0x63; 0x00];
   [0x1C; 0x36; 0x1C; 0x6E; 0x3B; 0x33; 0x6E; 0x00];
   [0x06; 0x06; 0x03; 0x00; 0x00; 0x00; 0x00; 0x00];
   [0x18; 0x0C; 0x06; 0x06; 0x06; 0x0C; 0x18; 0x00];
   [0x06; 0x0C; 0x18; 0x18; 0x18; 0x0C; 0x06; 0x00];
   [0x00; 0x66; 0x3C; 0xFF; 0x3C; 0x66; 0x00; 0x00];
   [0x00; 0x0C; 0x0C; 0x3F; 0x0C; 0x0C; 0x00; 0x00];
   [0x00; 0x00; 0x00; 0x00; 0x00; 0x0C; 0x0C; 0x06];
   [0x00; 0x00; 0x00; 0x3F; 0x00; 0x00; 0x00; 0x00];
   [0x00; 0x00; 0x00; 0x00; 0x00; 0x0C; 0x0C; 0x00];
   [0x60; 0x30; 0x18; 0x0C; 0x06; 0x03; 0x01; 0x00];
   [0x3E; 0x63; 0x73; 0x7B; 0x6F; 0x67; 0x3E; 0x00];
   [0x0C; 0x0E; 0x0C; 0x0C; 0x0C; 0x0C; 0x3F; 0x00];
   [0x1E; 0x33; 0x30; 0x1C; 0x06; 0x33; 0x3F; 0x00];
   [0x1E; 0x33; 0x30; 0x1C; 0x30; 0x33; 0x1E; 0x00];
   [0x38; 0x3C; 0x36; 0x33; 0x7F; 0x30; 0x78; 0x00];
   [0x3F; 0x03; 0x1F; 0x30; 0x30; 0x33; 0x1E; 0x00];
   [0x1C; 0x06; 0x03; 0x1F; 0x33; 0x33; 0x1E; 0x00];
   [0x3F; 0x33; 0x30; 0x18; 0x0C; 0x0C; 0x0C; 0x00];
   [0x1E; 0x33; 0x33; 0x1E; 0x33; 0x33; 0x1E; 0x00];
   [0x1E; 0x33; 0x33; 0x3E; 0x30; 0x18; 0x0E; 0x00];
   [0x00; 0x0C; 0x0C; 0x00; 0x00; 0x0C; 0x0C; 0x00];
   [0x00; 0x0C; 0x0C; 0x00; 0x00; 0x0C; 0x0C; 0x06];
   [0x18; 0x0C; 0x06; 0x03; 0x06; 0x0C; 0x18; 0x00];
   [0x00; 0x00; 0x3F; 0x00; 0x00; 0x3F; 0x00; 0x00];
   [0x06; 0x0C; 0x18; 0x30; 0x18; 0x0C; 0x06; 0x00];
   [0x1E; 0x33; 0x30; 0x18; 0x0C; 0x00; 0x0C; 0x00];
   [0x3E; 0x63; 0x7B; 0x7B; 0x7B; 0x03; 0x1E; 0x00];
   [0x0C; 0x1E; 0x33; 0x33; 0x3F; 0x33; 0x33; 0x00];
   [0x3F; 0x66; 0x66; 0x3E; 0x66; 0x66; 0x3F; 0x00];
   [0x3C; 0x66; 0x03; 0x03; 0x03; 0x66; 0x3C; 0x00];
   [0x1F; 0x36; 0x66; 0x66; 0x66; 0x36; 0x1F; 0x00];
   [0x7F; 0x46; 0x16; 0x1E; 0x16; 0x46; 0x7F; 0x00];
   [0x7F; 0x46; 0x16; 0x1E; 0x16; 0x06; 0x0F; 0x00];
   [0x3C; 0x66; 0x03; 0x03; 0x73; 0x66; 0x7C; 0x00];
   [0x33; 0x33; 0x33; 0x3F; 0x33; 0x33; 0x33; 0x00];
   [0x1E; 0x0C; 0x0C; 0x0C; 0x0C; 0x0C; 0x1E; 0x00];
   [0x78; 0x30; 0x30; 0x30; 0x33; 0x33; 0x1E; 0x00];
   [0x67; 0x66; 0x36; 0x1E; 0x36; 0x66; 0x67; 0x00];
   [0x0F; 0x06; 0x06; 0x06; 0x46; 0x66; 0x7F; 0x00];
   [0x63; 0x77; 0x7F; 0x7F; 0x6B; 0x63; 0x63; 0x00];
   [0x63; 0x67; 0x6F; 0x7B; 0x73; 0x63; 0x63; 0x00];
   [0x1C; 0x36; 0x63; 0x63; 0x63; 0x36; 0x1C; 0x00];
   [0x3F; 0x66; 0x66; 0x3E; 0x06; 0x06; 0x0F; 0x00];
   [0x1E; 0x33; 0x33; 0x33; 0x3B; 0x1E; 0x38; 0x00];
   [0x3F; 0x66; 0x66; 0x3E; 0x36; 0x66; 0x67; 0x00];
   [0x1E; 0x33; 0x07; 0x0E; 0x38; 0x33; 0x1E; 0x00];
   [0x3F; 0x2D; 0x0C; 0x0C; 0x0C; 0x0C; 0x1E; 0x00];
   [0x33; 0x33; 0x33; 0x33; 0x33; 0x33; 0x3F; 0x00];
   [0x33; 0x33; 0x33; 0x33; 0x33; 0x1E; 0x0C; 0x00];
   [0x63; 0x63; 0x63; 0x6B; 0x7F; 0x77; 0x63; 0x00];
   [0x63; 0x63; 0x36; 0x1C; 0x1C; 0x36; 0x63; 0x00];
   [0x33; 0x33; 0x33; 0x1E; 0x0C; 0x0C; 0x1E; 0x00];
   [0x7F; 0x63; 0x31; 0x18; 0x4C; 0x66; 0x7F; 0x00];
   [0x1E; 0x06; 0x06; 0x06; 0x06; 0x06; 0x1E; 0x00];
   [0x03; 0x06; 0x0C; 0x18; 0x30; 0x60; 0x40; 0x00];
   [0x1E; 0x18; 0x18; 0x18; 0x18; 0x18; 0x1E; 0x00];
   [0x08; 0x1C; 0x36; 0x63; 0x00; 0x00; 0x00; 0x00];
   [0x00; 0x00; 0x00; 0x00; 0x00; 0x00; 0x00; 0xFF];
   [0x0C; 0x0C; 0x18; 0x00; 0x00; 0x00; 0x00; 0x00];
   [0x00; 0x00; 0x1E; 0x30; 0x3E; 0x33; 0x6E; 0x00];
   [0x07; 0x06; 0x06; 0x3E; 0x66; 0x66; 0x3B; 0x00];
   [0x00; 0x00; 0x1E; 0x33; 0x03; 0x33; 0x1E; 0x00];
   [0x38; 0x30; 0x30; 0x3e; 0x33; 0x33; 0x6E; 0x00];
   [0x00; 0x00; 0x1E; 0x33; 0x3f; 0x03; 0x1E; 0x00];
   [0x1C; 0x36; 0x06; 0x0f; 0x06; 0x06; 0x0F; 0x00];
   [0x00; 0x00; 0x6E; 0x33; 0x33; 0x3E; 0x30; 0x1F];
   [0x07; 0x06; 0x36; 0x6E; 0x66; 0x66; 0x67; 0x00];
   [0x0C; 0x00; 0x0E; 0x0C; 0x0C; 0x0C; 0x1E; 0x00];
   [0x30; 0x00; 0x30; 0x30; 0x30; 0x33; 0x33; 0x1E];
   [0x07; 0x06; 0x66; 0x36; 0x1E; 0x36; 0x67; 0x00];
   [0x0E; 0x0C; 0x0C; 0x0C; 0x0C; 0x0C; 0x1E; 0x00];
   [0x00; 0x00; 0x33; 0x7F; 0x7F; 0x6B; 0x63; 0x00];
   [0x00; 0x00; 0x1F; 0x33; 0x33; 0x33; 0x33; 0x00];
   [0x00; 0x00; 0x1E; 0x33; 0x33; 0x33; 0x1E; 0x00];
   [0x00; 0x00; 0x3B; 0x66; 0x66; 0x3E; 0x06; 0x0F];
   [0x00; 0x00; 0x6E; 0x33; 0x33; 0x3E; 0x30; 0x78];
   [0x00; 0x00; 0x3B; 0x6E; 0x66; 0x06; 0x0F; 0x00];
   [0x00; 0x00; 0x3E; 0x03; 0x1E; 0x30; 0x1F; 0x00];
   [0x08; 0x0C; 0x3E; 0x0C; 0x0C; 0x2C; 0x18; 0x00];
   [0x00; 0x00; 0x33; 0x33; 0x33; 0x33; 0x6E; 0x00];
   [0x00; 0x00; 0x33; 0x33; 0x33; 0x1E; 0x0C; 0x00];
   [0x00; 0x00; 0x63; 0x6B; 0x7F; 0x7F; 0x36; 0x00];
   [0x00; 0x00; 0x63; 0x36; 0x1C; 0x36; 0x63; 0x00];
   [0x00; 0x00; 0x33; 0x33; 0x33; 0x3E; 0x30; 0x1F];
   [0x00; 0x00; 0x3F; 0x19; 0x0C; 0x26; 0x3F; 0x00];
   [0x38; 0x0C; 0x0C; 0x07; 0x0C; 0x0C; 0x38; 0x00];
   [0x18; 0x18; 0x18; 0x00; 0x18; 0x18; 0x18; 0x00];
   [0x07; 0x0C; 0x0C; 0x38; 0x0C; 0x0C; 0x07; 0x00];
   [0x6E; 0x3B; 0x00; 0x00; 0x00; 0x00; 0x00; 0x00];
   [0x00; 0x00; 0x00; 0x00; 0x00; 0x00; 0x00; 0x00]].

Definition store32 (ptr v : Z) : M sys unit :=
  kern (modify (λ k, set_mem k (write32 (k_mem k) (hhdm_phys k ptr) v))).

Definition pixel_ptr (addr pitch x y : Z) : Z :=
  u64 (addr + 4 * (u64 (y * Z.shiftr pitch 2) + x)).

Definition plotPixel (x y color : Z) : M sys unit :=
  let* w := rd FB_WIDTH in
  let* h := rd FB_HEIGHT in
  if (w <=? x) || (h <=? y) || (x <? 0) || (y <? 0) then ret tt
  else
    let* addr := rd fb_address in
    let* pitch := rd fb_pitch in
    store32 (pixel_ptr addr pitch x y) color.

(** A loop over [i], [i + 1], ... ([n] of them). *)
Fixpoint for_ (n : nat) (i : Z) (body : Z → M sys unit) : M sys unit :=
  match n with
  | O => ret tt
  | S n' => body i ;;; for_ n' (i + 1) body
  end.

Definition printChar (c x y : Z) : M sys unit :=
  let index := i8 c in
  for_ FONT_HEIGHT 0 (λ row,
    index_ok index 128 ;;;
    let bits := default 0 (default [] (font8x8_basic !! Z.to_nat index) !! Z.to_nat row) in
    for_ FONT_WIDTH 0 (λ col,
      let* px := add_i 32 x col in
      let* py := add_i 32 y row in
      if Z.testbit bits col then plotPixel px py 0xFFFFFFFF else plotPixel px py 0x00000000)).

Definition printString (str : cstring) (x y : Z) : M sys unit :=
  while_ (λ '(i, x),
    if negb (str i =? 0) then
      printChar (str i) x y ;;;
      let* x' := add_i 32 x 8 in
      ret (inl (i + 1, x'))
    else ret (inr tt)) (0, x).

Definition drawImage (image : Z → Z) (width height x0 y0 scaleX scaleY : Z) : M sys unit :=
  let scaleX := if scaleX <=? 0 then 1 else scaleX in
  let scaleY := if scaleY <=? 0 then 1 else scaleY in
  for_ (Z.to_nat height) 0 (λ y,
    for_ (Z.to_nat width) 0 (λ x,
      let* yw := mul_i 32 y width in
      let* idx := add_i 32 yw x in
      let color := image idx in
      for_ (Z.to_nat scaleY) 0 (λ dy,
        for_ (Z.to_nat scaleX) 0 (λ dx,
          let* sx := mul_i 32 x scaleX in
          let* ax := add_i 32 x0 sx in
          let* px := add_i 32 ax dx in
          let* sy := mul_i 32 y scaleY in
          let* ay := add_i 32 y0 sy in
          let* py := add_i 32 ay dy in
          plotPixel px py color)))).

(** * [drivers/mouse.c]: the cursor's pixels *)
Definition draw_cursor : M sys unit :=
  let* d := gets (λ s, k_dev (s_k s)) in
  let x := cursor_x d in
  let y := cursor_y d in
  let color := 0xFFFFFF in
  for_ 11 (-5) (λ i, if negb (i =? 0) then let* py := add_i 32 y i in plotPixel x py color else ret tt) ;;;
  for_ 11 (-5) (λ i, if negb (i =? 0) then let* px := add_i 32 x i in plotPixel px y color else ret tt) ;;;
  plotPixel x y 0xFF0000.

Definition clear_cursor_area : M sys unit :=
  for_ 21 (-10) (λ i,
    for_ 21 (-10) (λ j,
      let* d := gets (λ s, k_dev (s_k s)) in
      let* px := add_i 32 (cursor_x d) i in
      let* py := add_i 32 (cursor_y d) j in
      plotPixel px py 0x000000)).
