(* ===== verification/Dbgstub.v ===== *)
(** The debugger stub ([drivers/dbgstub/dbgstub.c]): a server of the GDB remote
    protocol on the serial line.  The three buffers are byte lists; a store past
    the end of one is a heap overflow and ends the run. *)
From stdpp Require Import base tactics list gmap strings.
From Stdlib Require Import ZArith Lia Ascii.
From S2P Require Import Prelude Bits State Spinlock Pmm Heap Vmm Vma Libc Str Io Cpu Timers Apic Serial Uaccess.

Definition DBGSTUB_PACKET_BUFFER_SIZE : Z := 4096.
Definition STUB_ALLOC : Z := DBGSTUB_PACKET_BUFFER_SIZE + 16.
Definition SIZEOF_FRAME : Z := 176.

Definition get_stub : M sys stub_t := gets s_stub.
Definition mod_stub (f : stub_t → stub_t) : M sys unit := modify (λ s, with_stub s (f (s_stub s))).

Definition set_send_buffer (b : list Z) (t : stub_t) : stub_t :=
  mk_stub b (dbgstub_packet_send_buffer t) (dbgstub_packet_recv_buffer t) (dbgstub_packet_buffer_index t) (last_frame t)
    (dbgstub_middle_of_packet t) (dbgstub_end_of_packet t) (dbgstub_end_of_packet_count t) (dbgstub_paused t) (dbgstub_continue t).
Definition set_packet_send (b : list Z) (t : stub_t) : stub_t :=
  mk_stub (dbgstub_send_buffer t) b (dbgstub_packet_recv_buffer t) (dbgstub_packet_buffer_index t) (last_frame t)
    (dbgstub_middle_of_packet t) (dbgstub_end_of_packet t) (dbgstub_end_of_packet_count t) (dbgstub_paused t) (dbgstub_continue t).
Definition set_recv (b : list Z) (i : Z) (t : stub_t) : stub_t :=
  mk_stub (dbgstub_send_buffer t) (dbgstub_packet_send_buffer t) b i (last_frame t)
    (dbgstub_middle_of_packet t) (dbgstub_end_of_packet t) (dbgstub_end_of_packet_count t) (dbgstub_paused t) (dbgstub_continue t).
Definition set_last_frame (f : interrupt_frame) (t : stub_t) : stub_t :=
  mk_stub (dbgstub_send_buffer t) (dbgstub_packet_send_buffer t) (dbgstub_packet_recv_buffer t) (dbgstub_packet_buffer_index t) f
    (dbgstub_middle_of_packet t) (dbgstub_end_of_packet t) (dbgstub_end_of_packet_count t) (dbgstub_paused t) (dbgstub_continue t).
Definition set_framing (middle end_ : bool) (count : Z) (t : stub_t) : stub_t :=
  mk_stub (dbgstub_send_buffer t) (dbgstub_packet_send_buffer t) (dbgstub_packet_recv_buffer t) (dbgstub_packet_buffer_index t) (last_frame t)
    middle end_ count (dbgstub_paused t) (dbgstub_continue t).
Definition set_run (paused continue : bool) (t : stub_t) : stub_t :=
  mk_stub (dbgstub_send_buffer t) (dbgstub_packet_send_buffer t) (dbgstub_packet_recv_buffer t) (dbgstub_packet_buffer_index t) (last_frame t)
    (dbgstub_middle_of_packet t) (dbgstub_end_of_packet t) (dbgstub_end_of_packet_count t) paused continue.

Definition set_fflags (f : interrupt_frame) (v : Z) : interrupt_frame :=
  mk_frame (f_r15 f) (f_r14 f) (f_r13 f) (f_r12 f) (f_r11 f) (f_r10 f) (f_r9 f) (f_r8 f)
    (f_rbp f) (f_rdi f) (f_rsi f) (f_rdx f) (f_rcx f) (f_rbx f) (f_rax f)
    (f_vector f) (f_error f) (f_ip f) (f_cs f) v (f_rsp f) (f_ss f).

Definition heap_store (i n : Z) : M sys unit :=
  if (0 <=? i) && (i <? n) then ret tt else panic "heap overflow".

Definition store_packet (i v : Z) : M sys unit :=
  heap_store i STUB_ALLOC ;;;
  mod_stub (λ t, set_packet_send (<[Z.to_nat i := u8 v]> (dbgstub_packet_send_buffer t)) t).
Definition store_send (i v : Z) : M sys unit :=
  heap_store i STUB_ALLOC ;;;
  mod_stub (λ t, set_send_buffer (<[Z.to_nat i := u8 v]> (dbgstub_send_buffer t)) t).
Definition store_recv (i v : Z) : M sys unit :=
  heap_store i STUB_ALLOC ;;;
  mod_stub (λ t, set_recv (<[Z.to_nat i := u8 v]> (dbgstub_packet_recv_buffer t)) (dbgstub_packet_buffer_index t) t).

Definition hex_digit (n : Z) : Z := lit "0123456789abcdef" n.

Section dbgstub.
Context `{Hardware}.

Definition dbgstub_init : M sys unit :=
  kern (zalloc STUB_ALLOC) ;;;
  kern (zalloc STUB_ALLOC) ;;;
  kern (zalloc STUB_ALLOC) ;;;
  kern (zalloc SIZEOF_FRAME) ;;;
  mod_stub (λ t,
    let z := replicate (Z.to_nat STUB_ALLOC) 0 in
    set_last_frame frame0 (set_recv z (dbgstub_packet_buffer_index t) (set_packet_send z (set_send_buffer z t)))).

(** The string [dbgstub_send] is given: a literal, or one of the buffers, which
    it may overwrite while it reads. *)
Inductive stub_src := Lit (s : string) | SendBuffer | PacketSendBuffer.

Definition src_at (src : stub_src) (j : Z) : M sys Z :=
  gets (λ s, match src with
    | Lit l => lit l j
    | SendBuffer => of_list (dbgstub_send_buffer (s_stub s)) j
    | PacketSendBuffer => of_list (dbgstub_packet_send_buffer (s_stub s)) j
    end).

(** [j] characters are sent; the next one goes to position [j + 1]. *)
Definition send_round (src : stub_src) (st : Z * Z) : M sys (Z * Z + Z * Z) :=
  let '(j, checksum) := st in
  let* b := src_at src j in
  if b =? 0 then ret (inr (j, checksum))
  else
    store_packet (j + 1) b ;;;
    serial_send b ;;;
    ret (inl (j + 1, u8 (checksum + b))).

Definition dbgstub_send (src : stub_src) : M sys unit :=
  store_packet 0 (chr "$") ;;;
  serial_send (chr "$") ;;;
  let* r := while_ (send_round src) (0, 0) in
  let i := fst r + 1 in
  let checksum := snd r in
  serial_send (chr "#") ;;;
  store_packet i (chr "#") ;;;
  let hi := hex_digit (Z.land (Z.shiftr checksum 4) 0xF) in
  store_packet (i + 1) hi ;;;
  serial_send hi ;;;
  let lo := hex_digit (Z.land checksum 0xF) in
  store_packet (i + 2) lo ;;;
  serial_send lo ;;;
  store_packet (i + 3) 0.

Definition recv : M sys cstring := gets (λ s, of_list (dbgstub_packet_recv_buffer (s_stub s))).

Definition validate_round (buf : cstring) (st : Z * Z) : M sys (Z * Z + Z * Z) :=
  let '(i, sum) := st in
  if negb (buf i =? chr "#") then ret (inl (i + 1, u8 (sum + buf i))) else ret (inr (i, sum)).

Definition dbgstub_validate_packet : M sys bool :=
  let* buf := recv in
  if negb (buf 0 =? chr "$") && negb (buf 0 =? chr "%") then serial_send (chr "-") ;;; ret false
  else
    let* r := while_ (validate_round buf) (1, 0) in
    let i := fst r in
    let* packet_checksum_n := strtoll (of_list [buf (i + 1); buf (i + 2)]) 16 in
    if snd r =? u64 packet_checksum_n then serial_send (chr "+") ;;; ret true
    else serial_send (chr "-") ;;; ret false.

(** * Register packets *)
Definition bswap64 (v : Z) : Z :=
  Z.shiftl (Z.land v 0xFF) 56 + Z.shiftl (Z.land (Z.shiftr v 8) 0xFF) 48 +
  Z.shiftl (Z.land (Z.shiftr v 16) 0xFF) 40 + Z.shiftl (Z.land (Z.shiftr v 24) 0xFF) 32 +
  Z.shiftl (Z.land (Z.shiftr v 32) 0xFF) 24 + Z.shiftl (Z.land (Z.shiftr v 40) 0xFF) 16 +
  Z.shiftl (Z.land (Z.shiftr v 48) 0xFF) 8 + Z.land (Z.shiftr v 56) 0xFF.
Definition bswap32 (v : Z) : Z :=
  Z.shiftl (Z.land v 0xFF) 24 + Z.shiftl (Z.land (Z.shiftr v 8) 0xFF) 16 +
  Z.shiftl (Z.land (Z.shiftr v 16) 0xFF) 8 + Z.land (Z.shiftr v 24) 0xFF.

(** [for (i = width - 1; i >= 0; i--)]: the digits, most significant first. *)
Fixpoint hex_digits (width : nat) (v : Z) : list Z :=
  match width with
  | O => []
  | S w => hex_digits w (Z.shiftr v 4) ++ [hex_digit (Z.land v 0xf)]
  end.

Definition PACK_REG (reg_val : Z) (width : nat) : list Z :=
  let v := if Nat.eqb width 16 then bswap64 reg_val else bswap32 (u32 reg_val) in
  hex_digits width v.

Definition UNPACK_REG (ptr : cstring) (width : nat) : M sys Z :=
  let* val := strtoull (of_list (map (λ i, ptr (Z.of_nat i)) (seq 0 width))) 16 in
  ret (if Nat.eqb width 16 then bswap64 val else bswap32 (u32 val)).

(** The registers in the order of the packet, with their widths in digits. *)
Definition frame_regs (f : interrupt_frame) : list (Z * nat) :=
  [(f_rax f, 16%nat); (f_rbx f, 16%nat); (f_rcx f, 16%nat); (f_rdx f, 16%nat);
   (f_rsi f, 16%nat); (f_rdi f, 16%nat); (f_rbp f, 16%nat); (f_rsp f, 16%nat);
   (f_r8 f, 16%nat); (f_r9 f, 16%nat); (f_r10 f, 16%nat); (f_r11 f, 16%nat);
   (f_r12 f, 16%nat); (f_r13 f, 16%nat); (f_r14 f, 16%nat); (f_r15 f, 16%nat);
   (f_ip f, 16%nat); (f_flags f, 8%nat); (f_cs f, 8%nat); (f_ss f, 8%nat)].

Definition pack_frame (f : interrupt_frame) : list Z :=
  concat (map (λ '(v, w), PACK_REG v w) (frame_regs f)).

Fixpoint unpack_regs (widths : list nat) (ptr : cstring) : M sys (list Z) :=
  match widths with
  | [] => ret []
  | w :: ws =>
      let* v := UNPACK_REG ptr w in
      let* vs := unpack_regs ws (advance (Z.of_nat w) ptr) in
      ret (v :: vs)
  end.

Definition regs_frame (f : interrupt_frame) (l : list Z) : interrupt_frame :=
  let r n := default 0 (l !! n) in
  mk_frame (r 15%nat) (r 14%nat) (r 13%nat) (r 12%nat) (r 11%nat) (r 10%nat) (r 9%nat) (r 8%nat)
    (r 6%nat) (r 5%nat) (r 4%nat) (r 3%nat) (r 2%nat) (r 1%nat) (r 0%nat)
    (f_vector f) (f_error f) (r 16%nat) (r 18%nat) (r 17%nat) (r 7%nat) (r 19%nat).

Definition unpack_frame (f : interrupt_frame) (ptr : cstring) : M sys interrupt_frame :=
  let* l := unpack_regs (map snd (frame_regs f)) ptr in
  ret (regs_frame f l).

Fixpoint put_send (l : list Z) (i : Z) : M sys unit :=
  match l with
  | [] => ret tt
  | c :: l' => store_send i c ;;; put_send l' (i + 1)
  end.

(** * Memory packets *)
Definition read_round (addr length k : Z) : M sys (Z + bool) :=
  if k <? length then
    let* byte := safe_read_byte (u64 (addr + k)) in
    if byte =? 0xFFFF then ret (inr false)
    else
      store_send (k * 2) (hex_digit (Z.shiftr byte 4)) ;;;
      store_send (k * 2 + 1) (hex_digit (Z.land byte 0xf)) ;;;
      ret (inl (k + 1))
  else ret (inr true).

Definition packet_m : M sys unit :=
  let* buf := recv in
  let args := advance 2 buf in
  let* comma := strchr args (chr ",") in
  match comma with
  | None => dbgstub_send (Lit "E00")
  | Some c =>
      store_recv (2 + c) 0 ;;;
      let* buf := recv in
      let args := advance 2 buf in
      let* addr := strtoull args 16 in
      let* length := strtoull (advance (c + 1) args) 16 in
      if length =? 0 then dbgstub_send (Lit "E01")
      else
        let* ok := while_ (read_round addr length) 0 in
        if negb ok then dbgstub_send (Lit "E02")
        else store_send (length * 2) 0 ;;; dbgstub_send SendBuffer
  end.

Definition write_round (data : cstring) (addr length k : Z) : M sys (Z + bool) :=
  if k <? length then
    let* value := strtoull (of_list [data (k * 2); data (k * 2 + 1)]) 16 in
    let* res := safe_write_byte (u64 (addr + k)) (u8 value) in
    if res =? 0xFFFF then ret (inr false) else ret (inl (k + 1))
  else ret (inr true).

Definition packet_M : M sys unit :=
  let* buf := recv in
  let args := advance 2 buf in
  let* comma := strchr args (chr ",") in
  let* colon := strchr args (chr ":") in
  match comma, colon with
  | Some c, Some d =>
      if d <? c then dbgstub_send (Lit "E00")
      else
        store_recv (2 + c) 0 ;;;
        store_recv (2 + d) 0 ;;;
        let* buf := recv in
        let args := advance 2 buf in
        let* addr := strtoull args 16 in
        let* length := strtoull (advance (c + 1) args) 16 in
        let data := advance (d + 1) args in
        let* n := strlen data in
        if (length =? 0) || (n <? u64 (length * 2)) then dbgstub_send (Lit "E01")
        else
          let* ok := while_ (write_round data addr length) 0 in
          dbgstub_send (Lit (if ok then "OK" else "E03"))
  | _, _ => dbgstub_send (Lit "E00")
  end.

Definition clear_tf : M sys unit :=
  mod_stub (λ t, set_last_frame (set_fflags (last_frame t) (Z.ldiff (f_flags (last_frame t)) 0x100)) t).

Definition starts (prefix : string) (n : Z) : M sys bool :=
  let* buf := recv in
  let* c := strncmp (lit prefix) buf n in ret (c =? 0).

Notation "'if_starts' p n 'then' a 'else' b" := (let* hit := starts p n in if hit then a else b)
  (at level 10, p at level 0, n at level 0, a at level 200, b at level 200).

Definition dbgstub_process_packet : M sys unit :=
  let* status := dbgstub_validate_packet in
  if negb status then ret tt
  else if_starts "$qSupported" 11 then
    dbgstub_send (Lit "PacketSize=4000;hwbreak+;swbreak-;multiprocess-;multi-wp-addr-")
  else if_starts "$qAttached" 10 then dbgstub_send (Lit "1")
  else if_starts "$?" 2 then dbgstub_send (Lit "S05")
  else if_starts "$g" 2 then
    (let* t := get_stub in
     put_send (pack_frame (last_frame t) ++ [0]) 0 ;;;
     dbgstub_send SendBuffer)
  else if_starts "$G" 2 then
    (let* t := get_stub in
     let* buf := recv in
     let* f := unpack_frame (last_frame t) (advance 2 buf) in
     mod_stub (set_last_frame f) ;;;
     dbgstub_send (Lit "OK"))
  else if_starts "$m" 2 then packet_m
  else if_starts "$M" 2 then packet_M
  else if_starts "$z1" 3 then
    (let* buf := recv in
     let* addr := strtoull (advance 4 buf) 16 in
     let* ok := drx_free_bp addr in
     dbgstub_send (Lit (if ok then "OK" else "E.INVALID_BREAKPOINT")))
  else if_starts "$Z1" 3 then
    (let* buf := recv in
     let* addr := strtoull (advance 4 buf) 16 in
     let* ok := drx_alloc_bp addr in
     dbgstub_send (Lit (if ok then "OK" else "E.OUT_OF_HARDWARE_BREAKPOINTS")))
  else if_starts "$c" 2 then (clear_tf ;;; mod_stub (set_run false true))
  else if_starts "$C" 2 then (clear_tf ;;; mod_stub (set_run false true))
  else if_starts "$s" 2 then mod_stub (set_run true true)
  else dbgstub_send (Lit "").

(** * One received character *)

(** The [switch]: whether the character is stored. *)
Definition rx_switch (c : Z) (frame : interrupt_frame) : M sys (bool * interrupt_frame) :=
  let* t := get_stub in
  let middle := dbgstub_middle_of_packet t in
  if c =? 3 then
    if negb middle then
      mod_stub (set_run true false) ;;;
      ret (false, set_fflags frame (Z.lor (f_flags frame) 0x100))
    else ret (false, frame)
  else if c =? chr "+" then ret (middle, frame)
  else if c =? chr "-" then
    if negb middle then dbgstub_send PacketSendBuffer ;;; ret (false, frame) else ret (true, frame)
  else if c =? chr "}" then panic "DBGSTUB: unhandled escaped charater"
  else if c =? chr "$" then
    mod_stub (λ t, set_recv (dbgstub_packet_recv_buffer t) 0 (set_framing true false (dbgstub_end_of_packet_count t) t)) ;;;
    ret (true, frame)
  else if c =? chr "%" then
    (if middle then ret tt
     else mod_stub (λ t, set_recv (dbgstub_packet_recv_buffer t) 0 (set_framing true false (dbgstub_end_of_packet_count t) t))) ;;;
    ret (true, frame)
  else if c =? chr "#" then
    mod_stub (set_framing false true 0) ;;; ret (true, frame)
  else ret (true, frame).

Definition dbgstub_rx (c : Z) (frame : interrupt_frame) : M sys interrupt_frame :=
  let* t := get_stub in
  if dbgstub_packet_buffer_index t =? DBGSTUB_PACKET_BUFFER_SIZE then panic "DBGSTUB: Packet buffer overflow"
  else
    let* r := rx_switch c frame in
    let frame := snd r in
    if negb (fst r) then ret frame
    else
      (let* t := get_stub in
       store_recv (dbgstub_packet_buffer_index t) c ;;;
       mod_stub (λ t, set_recv (dbgstub_packet_recv_buffer t) (u32 (dbgstub_packet_buffer_index t + 1)) t)) ;;;
      mod_stub (λ t, if dbgstub_end_of_packet t
        then set_framing (dbgstub_middle_of_packet t) true (u8 (dbgstub_end_of_packet_count t + 1)) t else t) ;;;
      let* t := get_stub in
      if dbgstub_end_of_packet_count t =? 3 then
        store_recv (dbgstub_packet_buffer_index t + 1) 0 ;;;
        mod_stub (λ t, set_recv (dbgstub_packet_recv_buffer t) 0 (set_framing false false 0 t)) ;;;
        dbgstub_process_packet ;;;
        ret frame
      else ret frame.

(** * Exceptions *)

(** [while (dbgstub_paused)]: the serial interrupt changes the flags while the
    loop spins; [rx] is what it has received when the loop looks again. *)
Definition dbgstub_exception (rx : list Z) (frame : interrupt_frame) : M sys interrupt_frame :=
  let* irql := kern (irql_raise 14) in
  let* hit := drx_cnc_bp in
  let* frame :=
    (if hit then
       mod_stub (set_run true false) ;;;
       ret (set_fflags frame (Z.lor (Z.lor (f_flags frame) 0x10000) 0x100))
     else ret frame) in
  mod_stub (set_last_frame frame) ;;;
  dbgstub_send (Lit "S05") ;;;
  while_ (λ pending,
    let* t := get_stub in
    if dbgstub_paused t then
      if dbgstub_continue t then
        mod_stub (set_run true false) ;;; ret (inr tt)
      else
        match pending with
        | [] => hang
        | c :: rest => dbgstub_rx c frame ;;; ret (inl rest)
        end
    else ret (inr tt)) rx ;;;
  kern (irql_lower irql) ;;;
  let* t := get_stub in
  ret (last_frame t).

Definition dbgstub_should_preempt : M sys bool := gets (λ s, negb (dbgstub_paused (s_stub s))).
End dbgstub.
