(* ===== verification/Intr.v ===== *)
(** Interrupts: the panic path ([utils/panic.c]), the handlers of
    [interupts/*.c] and their dispatcher [dispatch_interupt]. *)
From stdpp Require Import base tactics list gmap strings.
From Stdlib Require Import ZArith Lia Ascii.
From S2P Require Import Prelude Bits State Spinlock Pmm Heap Vmm Vma Libc Str Kbd Sched Io Cpu Timers Apic Serial Uaccess Fb Dbgstub.

(** * [utils/panic.c] *)
Record symbol := mk_symbol { sym_name : Z; sym_address : Z; sym_size : Z }.

(** One step of the generator behind the message of the day. *)
Definition xorshift64star_step (x : Z) : Z :=
  let x := Z.lxor x (Z.shiftr x 12) in
  let x := Z.lxor x (u64 (Z.shiftl x 25)) in
  Z.lxor x (Z.shiftr x 27).

Definition xorshift64star_out (x : Z) : Z := u64 (x * 0x2545F4914F6CDD1D).

Definition find_symbol (symbols : list symbol) (ip : Z) : option symbol :=
  snd <$> list_find (λ s, sym_address s <= ip ∧ ip < u64 (sym_address s + sym_size s)) symbols.

Section panic.
Context `{Hardware}.

(** [while (rbp_ptr && frames++ < 64)]: the chain of frame pointers. *)
Definition trace_round (symbols : list symbol) (st : Z * Z * Z) : M sys (Z * Z * Z + unit) :=
  let '(rbp, prev_rbp, frames) := st in
  if (rbp =? 0) || negb (frames <? 64) then ret (inr tt)
  else if negb (Z.land rbp 0xF =? 0) then ret (inr tt)
  else if rbp <? 0x4000 then ret (inr tt)
  else if negb (prev_rbp =? 0) && (rbp <=? prev_rbp) then ret (inr tt)
  else
    let* s := get in
    match resolve (smap_on s) (s_k s) false rbp with
    | None => panic "Page Fault"
    | Some pa =>
        let next_rbp := read64 (k_mem (s_k s)) pa in
        let rip := read64 (k_mem (s_k s)) (pa + 8) in
        (match find_symbol symbols rip with
         | Some sy => printf "%s: 0x%016lx + 0x%08lx\n" [sym_name sy; sym_address sy; u64 (rip - sym_address sy)]
         | None => printf "unknown: 0x%016lx\n" [rip]
         end) ;;;
        ret (inl (next_rbp, rbp, frames + 1))
    end.

Definition stack_trace (symbols : list symbol) (rbp : Z) : M sys unit :=
  while_ (trace_round symbols) (rbp, 0, 0).

(** The generator's state [x] is a static variable. *)
Definition xorshift64star : M sys Z :=
  (let* x := rd xorshift_x in
   if x =? 0 then let* t := read_tsc in wr xorshift_x t else ret tt) ;;;
  let* x := rd xorshift_x in
  wr xorshift_x (xorshift64star_step x) ;;;
  ret (xorshift64star_out (xorshift64star_step x)).

(** Draw until a value falls below the largest multiple of the range. *)
Definition rand_round (limit : Z) (_ : unit) : M sys (unit + Z) :=
  let* x := xorshift64star in
  if limit <=? x then ret (inl tt) else ret (inr x).

Definition rand_limit (range : Z) : Z := 2 ^ 64 - 1 - (2 ^ 64 - 1) mod range.

Definition rand_between (min max : Z) : M sys Z :=
  let lo := if max <? min then max else min in
  let hi := if max <? min then min else max in
  let* d := sub_i 32 hi lo in
  let* r := add_i 32 d 1 in
  let range := u64 r in
  let* x := while_ (rand_round (rand_limit range)) tt in
  ret (i32 (u64 (lo + x mod range))).

(** [error_mssages] has this many lines; which one is printed is its index. *)
Definition ERROR_MESSAGES : Z := 61.
Definition INTERRUPTED_VECTORS : list Z :=
  [INTERRUPT_HANDLER_DOUBLE_FAULT; INTERRUPT_HANDLER_GENERAL_PROTECTION_FAULT; INTERRUPT_HANDLER_PAGE_FAULT].

(** [%08b %08b %08b %08b] of the low half of a register. *)
Definition four_bytes (v : Z) : list Z :=
  [Z.land (Z.shiftr (i32 v) 24) 0xFF; Z.land (Z.shiftr (i32 v) 16) 0xFF; Z.land (Z.shiftr (i32 v) 8) 0xFF; Z.land (i32 v) 0xFF].

Definition dump_frame (frame : interrupt_frame) : M sys unit :=
  printf "\033[38;2;175;56;255mGeneral Registers:\n" [] ;;;
  printf "RAX=0x%016lx RBX=0x%016lx\n" [f_rax frame; f_rbx frame] ;;;
  printf "RCX=0x%016lx RDX=0x%016lx\n" [f_rcx frame; f_rdx frame] ;;;
  printf "RSI=0x%016lx RDI=0x%016lx\n" [f_rsi frame; f_rdi frame] ;;;
  printf "RBP=0x%016lx RSP=0x%016lx\n" [f_rbp frame; f_rsp frame] ;;;
  printf "R8 =0x%016lx R9 =0x%016lx\n" [f_r8 frame; f_r9 frame] ;;;
  printf "R10=0x%016lx R11=0x%016lx\n" [f_r10 frame; f_r11 frame] ;;;
  printf "R12=0x%016lx R13=0x%016lx\n" [f_r12 frame; f_r13 frame] ;;;
  printf "R14=0x%016lx R15=0x%016lx\n" [f_r14 frame; f_r15 frame] ;;;
  printf "\033[38;2;231;133;255mInterrupt Frame:\n" [] ;;;
  printf "IP=0x%016lx SP=0x%016lx\n" [f_ip frame; f_rsp frame] ;;;
  printf "SS=0x%016lx CS=0x%016lx\n" [f_ss frame; f_cs frame] ;;;
  printf "FLAGS: %08b %08b %08b %08b\n" (four_bytes (f_flags frame)) ;;;
  printf "ERROR: %08b %08b %08b %08b\n" (four_bytes (f_error frame)).

(** The symbol the interrupted instruction belongs to.  The test
    [frame->flags | PANIC_FLAGS_FRAME] is always true. *)
Definition dump_symbol (symbols : list symbol) (frame : interrupt_frame) : M sys unit :=
  if bool_decide (f_vector frame ∈ INTERRUPTED_VECTORS) then
    match find_symbol symbols (f_ip frame) with
    | Some sy => printf "%s: 0x%016lx + 0x%08lx\n" [sym_name sy; sym_address sy; u64 (f_ip frame - sym_address sy)]
    | None => ret tt
    end
  else ret tt.

(** [%lx]: hexadecimal digits without leading zeros. *)
Fixpoint lx_digits (n : nat) (v : Z) : list Z :=
  match n with
  | O => []
  | S n' => (if v <? 16 then [] else lx_digits n' (Z.shiftr v 4)) ++ [hex_digit (Z.land v 0xF)]
  end.

Definition kernel_panic_image_data_width : Z := 32.
Definition kernel_panic_image_data_height : Z := 18.

(** The picture that is printed last. *)
Definition panic_picture : list string := [
  "                                                                                                    \n";
  "                                         @@@@@@@@@@@@@@@@@@@@@                                      \n";
  "                                     @@@@                     @@@                                   \n";
  "                                   @@                            @@                                 \n";
  "                                 @@                                @@                               \n";
  "                               @@                                    @@                             \n";
  "                             @@                                       @@                            \n";
  "                            @@                                          @                           \n";
  "                           @@                                            @                          \n";
  "                           @                                             @@                         \n";
  "                          @                                               @@                        \n";
  "                         @@                                               @@                        \n";
  "                         @@                                                @                        \n";
  "                         @                                                 @@                       \n";
  "                        @@                                                  @                       \n";
  "                        @@                                                  @                       \n";
  "                       @@@                                                  @                       \n";
  "                    @@@  @                                                 @@@@                     \n";
  "                   @     @@                                                @@  @                    \n";
  "                  @      @@                                                @@   @                   \n";
  "                 @@       @@                                              @@    @                   \n";
  "                 @@        @                                             @@@    @                   \n";
  "                 @         @@    @@@@ @                                  @@     @@                  \n";
  "                 @          @@   @ @@@ @                               @@       @@                  \n";
  "                @@           @@ @@ @@  @ @             @@@@@@         @@        @@                  \n";
  "                @@             @@@ @@  @@@@         @@@@  @@ @      @@          @@                  \n";
  "                @@               @     @  @@@@   @@@@ @@  @@  @   @@            @@                  \n";
  "                 @                @       @ @@  @  @   @      @@@@              @@                  \n";
  "                 @               @        @@@@@@@@          @@@                 @@                  \n";
  "                 @              @         @       @@@@@       @@                @                   \n";
  "                 @@          @@@         @@           @         @              @@                   \n";
  "                 @@         @@           @            @@         @@@           @@                   \n";
  "                 @@         @           @@             @@          @@         @@                    \n";
  "@@@@@@@@@@@@@@@@@@@        @            @@@@@@@@@@@@@@@@@@           @@       @@@@@@@@@@@@@@@@@@@@@@\n";
  "                 @@       @            @@@              @@@            @@     @@                    \n";
  "                  @@     @            @                   @@            @@   @@@                    \n";
  "                  @@@   @            @                     @@            @   @@                     \n";
  "                    @               @@                      @@              @@@                     \n";
  "                     @             @@                        @@             @@                      \n";
  "                      @           @                           @@           @                        \n";
  "                       @@@@@@@@@@@                             @@@@@@@@@@@@                         \n"
].

Fixpoint print_lines (l : list string) : M sys unit :=
  match l with
  | [] => ret tt
  | line :: l' => printf line [] ;;; print_lines l'
  end.

Section dump.
Context (symbols : list symbol) (kernel_panic_image : Z → Z) (rbp : Z).

(** A panic during a panic only draws on the framebuffer. *)
Definition panic_again (message : string) (frame : interrupt_frame) : M sys unit :=
  let* w := rd FB_WIDTH in
  let* h := rd FB_HEIGHT in
  let scaleX := w / kernel_panic_image_data_width in
  let scaleY := h / kernel_panic_image_data_height in
  let scaleX := if scaleX <? 1 then 1 else scaleX in
  let scaleY := if scaleY <? 1 then 1 else scaleY in
  drawImage kernel_panic_image kernel_panic_image_data_width kernel_panic_image_data_height 0 0 scaleX scaleY ;;;
  printString (lit "The kernel is fucked 2: Electric Boogaloo (Panic Paniced)") 0 0 ;;;
  printString (lit message) 100 100 ;;;
  printString (of_list (lx_digits 16 (f_ip frame))) 300 300.

(** Everything before the processor halts. *)
Definition panic_dump (message : string) (frame : interrupt_frame) : M sys unit :=
  cli ;;;
  let* cr0 := read_cr 0 in
  let* cr2 := read_cr 2 in
  let* cr3 := read_cr 3 in
  let* cr4 := read_cr 4 in
  let* cr8 := kern get_irql in
  let* gdtr_base := access_read 64 (StoreTable 0) in
  let* gdtr_limit := access_read 16 (StoreTable 1) in
  let* idtr_base := access_read 64 (StoreTable 2) in
  let* idtr_limit := access_read 16 (StoreTable 3) in
  let* ldt := access_read 16 (StoreTable 4) in
  let* tr := access_read 16 (StoreTable 5) in
  stop_sound ;;;
  let* n := rd panic_count in
  if 0 <? n then panic_again message frame
  else
    wr panic_count (n + 1) ;;;
    (let* i := rand_between 0 (ERROR_MESSAGES - 1) in printf "\033[38;2;100;93;232m%s\033[0m\n" [i]) ;;;
    printf (String.append "\033[38;2;255;48;48m" (String.append message "\033[0m\n")) [] ;;;
    dump_frame frame ;;;
    printf "\033[38;2;255;238;0mControl Registers:\n" [] ;;;
    printf "CR0: %08b %08b %08b %08b\n" (four_bytes cr0) ;;;
    printf "CR4: %08b %08b %08b %08b\n" (four_bytes cr4) ;;;
    printf "CR8: %08b %08b %08b %08b\n" (four_bytes cr8) ;;;
    printf "CR2=0x%016lx CR3=0x%016lx\n" [cr2; cr3] ;;;
    printf "\033[38;2;76;230;112mMisc:\n" [] ;;;
    printf "GDTR Base=0x%016lx GDTR Limit=0x%08x\n" [gdtr_base; gdtr_limit] ;;;
    printf "IDTR Base=0x%016lx IDTR Limit=0x%08x\n" [idtr_base; idtr_limit] ;;;
    printf "LDT=%08x TR=%08x\n" [ldt; tr] ;;;
    printf "\033[38;2;26;237;209mStack Trace:\n" [] ;;;
    dump_symbol symbols frame ;;;
    stack_trace symbols rbp ;;;
    printf "\x1b[0m" [] ;;;
    print_lines panic_picture ;;;
    printf "god damn it; \033[38;2;255;0;0mhalting;\033[0m\033[?25l" [] ;;;
    play_sound 1000.
End dump.

(** [panic_interrupt_frame] never returns: the callers' view of it. *)
Definition panic_interrupt_frame {A} (message : string) (frame : interrupt_frame) : M sys A := panic message.
End panic.

(** * The handlers *)

(** [interupts/page_fault.c]: the message before the address. *)
Definition pf_message (error : Z) : string :=
  let p := Z.testbit error 0 in
  let rw := Z.testbit error 1 in
  let us := Z.testbit error 2 in
  let id := Z.testbit error 4 in
  let who := if us then "User" else "Kernel" in
  let action := if rw then "write to" else "read from" in
  let type := if p then "read only" else "non present" in
  let action := if negb rw && id then "execute" else action in
  let type := if id && p && negb rw then "no execute" else type in
  String.append "PF: " (String.append who (String.append " process tried to "
    (String.append action (String.append " a " (String.append type " page"))))).

Section isr.
Context `{Hardware} (sy : symbols) (elapsed : Z → Z).

Definition double_fault_isr (frame : interrupt_frame) : M sys interrupt_frame :=
  panic_interrupt_frame "Double Fault" frame.

Definition generic_isr (frame : interrupt_frame) : M sys interrupt_frame :=
  panic_interrupt_frame "Unhandled interupt" frame.

Definition gp_fault_isr (frame : interrupt_frame) : M sys interrupt_frame :=
  match fault_handle_safe_funcs sy frame with
  | Some frame' => ret frame'
  | None => panic_interrupt_frame "General Protection Fault" frame
  end.

Definition page_fault_isr (frame : interrupt_frame) : M sys interrupt_frame :=
  match fault_handle_safe_funcs sy frame with
  | Some frame' => ret frame'
  | None =>
      let error := Z.land (f_error frame) 0x7f in
      if Z.testbit error 3 then panic_interrupt_frame "PF: Reserved bit set" frame
      else
        let* cr2 := read_cr 2 in
        panic_interrupt_frame (pf_message error) frame
  end.

Definition spurious_isr : M sys unit := ret tt.

(** [interupts/serial.c] *)
Definition serial_isr_round (frame : interrupt_frame) : M sys (interrupt_frame + interrupt_frame) :=
  let* ready := serial_data_ready in
  if ready =? 0 then ret (inr frame)
  else
    let* c := serial_read in
    let* stub := rd dbgstub_enabled in
    if negb (stub =? 0) then
      let* frame' := dbgstub_rx (u8 c) frame in ret (inl frame')
    else if negb (c =? 0) then
      let* i := rd serial_buffer_index in
      modify (λ s, with_serial_buffer s (<[Z.to_nat i := u8 c]> (s_serial_buffer s))) ;;;
      wr serial_buffer_index (u8 (i + 1)) ;;;
      kern (kbdDevicePush c) ;;;
      ret (inl frame)
    else ret (inl frame).

Definition serial_isr (frame : interrupt_frame) : M sys interrupt_frame :=
  while_ serial_isr_round frame.

(** [ps2_isr] of [interupts/ps2.c] with the controller's ports; what a byte does
    is [Kbd.ps2_key] and [Kbd.ps2_mouse]. *)
Definition ps2_port_round (status : Z) : M sys (Z + unit) :=
  if negb (bit status 1) then ret (inr tt)
  else
    let* scancode := inbd 0x60 in
    let* w := rd FB_WIDTH in
    let* h := rd FB_HEIGHT in
    (if negb (bit status 0x20) then kern (ps2_key scancode) else kern (ps2_mouse w h scancode)) ;;;
    let* status' := inbd 0x64 in
    ret (inl status').

Definition ps2_port_isr : M sys unit :=
  let* status := inbd 0x64 in
  while_ ps2_port_round status.

Definition swapgs : M sys unit := kern (modify (λ k, set_cpu k (set_user_gs (k_cpu k) (negb (user_gs (k_cpu k)))))).

Definition from_user (frame : interrupt_frame) : bool := negb (Z.land (f_cs frame) 0x3 =? 0).

Definition swapgs_if_user (frame : interrupt_frame) : M sys unit :=
  if from_user frame then
    let* fred := rd fred_enbled in
    if fred =? 0 then swapgs else ret tt
  else ret tt.

(** A call of [schedule] by the rest of the kernel. *)
Definition schedule_now : M sys unit :=
  let* stub := rd dbgstub_enabled in
  let* pre := dbgstub_should_preempt in
  let* fred := rd fred_enbled in
  kern (schedule elapsed (negb (stub =? 0) && negb pre) (negb (fred =? 0))).

(** [task_quit] of [scheduler/scheduler.c]: the thread is marked and gives the
    processor away until another thread runs; it never comes back. *)
Definition task_quit : M sys unit :=
  let* me := kern get_current_thread in
  let* t := kern (get_thread me) in
  kern (put_thread me (set_thread_state t THREAD_STATE_REAPING)) ;;;
  while_ (λ _ : unit,
    schedule_now ;;;
    let* now := gets (λ s, threads (k_sched (s_k s))) in
    ret (if now =? me then inl tt else inr tt)) tt.

(** One round of [idle_thread] ([scheduler/workers/idle.c]). *)
Definition idle_round : M sys unit :=
  kern (modify (λ k, set_dev k (set_preempt (k_dev k) true))) ;;;
  emit Hlt.

(** The [switch] over the vector.  The timer's case falls through to the PS/2
    handler.  [rx] is what the debugger sends while the stub waits. *)
Definition dispatch_switch (rx : list Z) (frame : interrupt_frame) : M sys interrupt_frame :=
  let v := f_vector frame in
  if (v =? INTERRUPT_HANDLER_BREAKPOINT_TRAP) || (v =? INTERRUPT_HANDLER_DEBUG_TRAP) then
    let* stub := rd dbgstub_enabled in
    if negb (stub =? 0) then dbgstub_exception rx frame else ret frame
  else if v =? INTERRUPT_HANDLER_DOUBLE_FAULT then double_fault_isr frame
  else if v =? INTERRUPT_HANDLER_GENERAL_PROTECTION_FAULT then gp_fault_isr frame
  else if v =? INTERRUPT_HANDLER_PAGE_FAULT then page_fault_isr frame
  else if v =? INTERRUPT_HANDLER_APIC_TIMER then
    apic_timer_isr ;;;
    let* ms := get_ms in
    (if ms mod 500 <? 250 then printf "\x1b[?25h" [] else printf "\x1b[?25l" []) ;;;
    ps2_port_isr ;;; ret frame
  else if (v =? INTERRUPT_HANDLER_PS2_MOUSE) || (v =? INTERRUPT_HANDLER_PS2) then
    ps2_port_isr ;;; ret frame
  else if (v =? INTERRUPT_HANDLER_HIGH_PRIORITY_SERIAL) || (v =? INTERRUPT_HANDLER_SERIAL) then serial_isr frame
  else if (v =? INTERRUPT_HANDLER_SPURIOUS_PIC_1) || (v =? INTERRUPT_HANDLER_SPURIOUS_PIC_2)
       || (v =? INTERRUPT_HANDLER_SPURIOUS_APIC) then spurious_isr ;;; ret frame
  else generic_isr frame.

(** [uninit] is what the stack holds where [old_irql] lies: below vector 0x20
    the variable is read without having been written. *)
Definition dispatch_interupt (uninit : Z) (rx : list Z) (frame : interrupt_frame) : M sys interrupt_frame :=
  (if from_user frame then rflags_clr_ac else ret tt) ;;;
  swapgs_if_user frame ;;;
  let new_irql := Z.land (Z.shiftr (f_vector frame) 4) 0xf in
  let* old_irql :=
    (if IRQL_DISPATCH <=? new_irql then
       let* old := kern (irql_raise new_irql) in
       send_eoi (u8 (f_vector frame - 0x20)) ;;;
       ret old
     else ret uninit) in
  sti ;;;
  let* frame' := dispatch_switch rx frame in
  (if new_irql <=? IRQL_DISPATCH then
     (let* pre := gets (λ s, irq_should_preempt (k_dev (s_k s))) in
      if pre then
        kern (modify (λ k, set_dev k (set_preempt (k_dev k) false))) ;;;
        schedule_now
      else ret tt) ;;;
     kern (irql_lower old_irql) ;;;
     ret tt
   else ret tt) ;;;
  cli ;;;
  swapgs_if_user frame' ;;;
  ret frame'.
End isr.
