(* ===== verification/Syscalls.v ===== *)
(** System calls ([syscalls/]): the table, the handlers, and the entry paths of
    [fred/fred.c] that build their frames. *)
From stdpp Require Import base tactics list gmap strings.
From Stdlib Require Import ZArith Lia Ascii.
From S2P Require Import Prelude Bits State Spinlock Pmm Heap Vmm Vma Libc Str Kbd Sched Io Cpu Timers Apic Serial Uaccess Fs Elf Fb Dbgstub Intr.

(** [struct syscall_frame] *)
Record syscall_frame := mk_sframe {
  sf_r15 : Z; sf_r14 : Z; sf_r13 : Z; sf_r12 : Z; sf_r11 : Z; sf_r10 : Z; sf_r9 : Z; sf_r8 : Z;
  sf_rbp : Z; sf_rdi : Z; sf_rsi : Z; sf_rdx : Z; sf_rcx : Z; sf_rbx : Z; sf_rax : Z
}.

Definition set_rax (f : syscall_frame) (v : Z) : syscall_frame :=
  mk_sframe (sf_r15 f) (sf_r14 f) (sf_r13 f) (sf_r12 f) (sf_r11 f) (sf_r10 f) (sf_r9 f) (sf_r8 f)
    (sf_rbp f) (sf_rdi f) (sf_rsi f) (sf_rdx f) (sf_rcx f) (sf_rbx f) (u64 v).

(** [enum] of the numbers in [syscalls.h]. *)
Inductive syscall_no :=
  | SYSCALL_GET_THREAD_ID | SYSCALL_PRINT | SYSCALL_SET_FS_BASE | SYSCALL_MMAP | SYSCALL_OPEN
  | SYSCALL_READ | SYSCALL_SEEK | SYSCALL_SLEEP_MS | SYSCALL_EXIT | SYSCALL_STDIN
  | SYSCALL_PCSPKR_PLAY | SYSCALL_PCSPKR_STOP | SYSCALL_GET_MS | SYSCALL_FB_MAP
  | SYSCALL_FB_GET_PITCH | SYSCALL_PS2_GET_SCANCODE.

Definition syscall_number (n : syscall_no) : Z :=
  match n with
  | SYSCALL_GET_THREAD_ID => 0
  | SYSCALL_PRINT => 1
  | SYSCALL_SET_FS_BASE => 2
  | SYSCALL_MMAP => 3
  | SYSCALL_OPEN => 4
  | SYSCALL_READ => 5
  | SYSCALL_SEEK => 6
  | SYSCALL_SLEEP_MS => 7
  | SYSCALL_EXIT => 8
  | SYSCALL_STDIN => 9
  | SYSCALL_PCSPKR_PLAY => 10
  | SYSCALL_PCSPKR_STOP => 11
  | SYSCALL_GET_MS => 22
  | SYSCALL_FB_MAP => 30
  | SYSCALL_FB_GET_PITCH => 31
  | SYSCALL_PS2_GET_SCANCODE => 40
  end.

Definition all_syscalls : list syscall_no :=
  [SYSCALL_GET_THREAD_ID; SYSCALL_PRINT; SYSCALL_SET_FS_BASE; SYSCALL_MMAP; SYSCALL_OPEN;
   SYSCALL_READ; SYSCALL_SEEK; SYSCALL_SLEEP_MS; SYSCALL_EXIT; SYSCALL_STDIN;
   SYSCALL_PCSPKR_PLAY; SYSCALL_PCSPKR_STOP; SYSCALL_GET_MS; SYSCALL_FB_MAP;
   SYSCALL_FB_GET_PITCH; SYSCALL_PS2_GET_SCANCODE].

Definition MAX_SYSCALLS : Z := 256.
Definition SEEK_SET : Z := 0.
Definition SEEK_CUR : Z := 1.
Definition SEEK_END : Z := 2.
Definition LINE_BUF_SIZE : Z := 256.
Definition MAX_FDS : Z := 256.

(** The running thread's structure. *)
Definition current : M sys thread :=
  let* p := kern get_current_thread in kern (get_thread p).
Definition put_current (f : thread → thread) : M sys unit :=
  let* p := kern get_current_thread in
  let* t := kern (get_thread p) in
  kern (put_thread p (f t)).

(** [get_current_thread()->fds[i]]: a heap array of 256 entries, without a check. *)
Definition get_fd (i : Z) : M sys fd :=
  let* t := current in
  match fds t !! Z.to_nat i with
  | Some f => if i <? MAX_FDS then ret f else panic "heap overflow"
  | None => panic "heap overflow"
  end.
Definition put_fd (i : Z) (f : fd) : M sys unit :=
  put_current (λ t, set_fds t (next_fd t) (<[Z.to_nat i := f]> (fds t))).

(** Bytes into kernel memory of any kind. *)
Fixpoint kstore (l : list Z) (dst : Z) : M sys unit :=
  match l with
  | [] => ret tt
  | c :: l' =>
      let* ok := try_store8 dst c in
      if ok then kstore l' (u64 (dst + 1)) else panic "Page Fault"
  end.

Section syscalls.
Context `{Hardware} (sy : symbols) (elapsed : Z → Z).
(** [framebuffer->height]; the other fields are globals. *)
Context (fb_height : Z).

Definition arc_bytes : M sys cstring :=
  let* a := rd archive in gets (λ s, kstr s a).

(** * [syscalls/arch86] *)
Definition sys_setfsbase (frame : syscall_frame) : M sys syscall_frame :=
  if sf_rbx frame <=? 0x00007FFFFFFFFFFF then
    wrmsr FSBAS (sf_rbx frame) ;;; ret (set_rax frame 0)
  else ret (set_rax frame (-1)).

Definition sys_pcspkr_play (frame : syscall_frame) : M sys syscall_frame :=
  play_sound (sf_rbx frame) ;;; ret (set_rax frame 0).

Definition sys_pcspkr_stop (frame : syscall_frame) : M sys syscall_frame :=
  stop_sound ;;; ret (set_rax frame 0).

Definition sys_ps2_get_scancode (frame : syscall_frame) : M sys syscall_frame :=
  let* r := fs_read (lit "/dev/ps2/kbd") 1 in
  if fst r =? 0 then ret (set_rax frame 0)
  else ret (set_rax frame (i8 (of_list (snd r) 0))).

(** * [syscalls/files] *)
Definition sys_open (frame : syscall_frame) : M sys syscall_frame :=
  let* fileNameLength := strlen_user (sf_rbx frame) in
  if fileNameLength =? -1 then ret (set_rax frame (-1))
  else
    let* fileName := kern (malloc (fileNameLength + 1)) in
    let* c := copy_from_user fileName (sf_rbx frame) (fileNameLength + 1) in
    if negb (c =? 0) then kern (free fileName) ;;; ret (set_rax frame (-1))
    else
      let* arc := arc_bytes in
      let* name := gets (λ s, kstr s fileName) in
      let* size := tarfsGetFize arc name in
      if size <? 0 then kern (free fileName) ;;; ret (set_rax frame (-1))
      else
        let* t := current in
        let fdn := next_fd t in
        if 256 <=? fdn then kern (free fileName) ;;; ret (set_rax frame (-1))
        else
          let* f0 := get_fd fdn in
          let* data := kern (malloc size) in
          put_fd fdn (mk_fd (file_name f0) data (seek_pos f0)) ;;;
          if data =? 0 then kern (free fileName) ;;; ret (set_rax frame (-1))
          else
            let* name := gets (λ s, kstr s fileName) in
            let* r := fs_read name size in
            kstore (snd r) data ;;;
            if fst r <? 0 then kern (free data) ;;; kern (free fileName) ;;; ret (set_rax frame (-1))
            else
              put_fd fdn (mk_fd (file_name f0) data 0) ;;;
              let* n := strlen name in
              let* fname := kern (malloc (n + 1)) in
              put_fd fdn (mk_fd fname data 0) ;;;
              if fname =? 0 then kern (free data) ;;; kern (free fileName) ;;; ret (set_rax frame (-1))
              else
                kstore (take_bytes name n ++ [0]) fname ;;;
                put_current (λ t, set_fds t (next_fd t + 1) (fds t)) ;;;
                kern (free fileName) ;;;
                ret (set_rax frame fdn).

Definition sys_read (frame : syscall_frame) : M sys syscall_frame :=
  let* f := get_fd (sf_rbx frame) in
  if file_name f =? 0 then ret (set_rax frame (-1))
  else
    let* arc := arc_bytes in
    let* name := gets (λ s, kstr s (file_name f)) in
    let* isize := tarfsGetFize arc name in
    let size := u64 isize in
    if file_data f =? 0 then ret (set_rax frame (-1))
    else if size <=? seek_pos f then ret (set_rax frame 0)
    else
      let max_bytes := u64 (size - seek_pos f) in
      let nbytes := if max_bytes <? sf_rdx frame then max_bytes else sf_rdx frame in
      copy_to_user (sf_rsi frame) (u64 (file_data f + seek_pos f)) nbytes ;;;
      put_fd (sf_rbx frame) (mk_fd (file_name f) (file_data f) (u64 (seek_pos f + nbytes))) ;;;
      ret (set_rax frame nbytes).

(** The new position: [None] for an unknown [whence]. *)
Definition seek_target (whence offset pos size : Z) : M sys (option Z) :=
  if whence =? SEEK_SET then ret (Some offset)
  else if whence =? SEEK_CUR then ret (Some (i64 (u64 (pos + offset))))
  else if whence =? SEEK_END then let* n := add_i 64 size offset in ret (Some n)
  else ret None.

Definition clamp (size pos : Z) : Z :=
  let pos := if pos <? 0 then 0 else pos in
  if size <? pos then size else pos.

Definition sys_seek (frame : syscall_frame) : M sys syscall_frame :=
  let offset := i64 (sf_rdx frame) in
  let whence := i32 (sf_rsi frame) in
  let* f := get_fd (sf_rbx frame) in
  if file_name f =? 0 then ret (set_rax frame (-1))
  else
    let* arc := arc_bytes in
    let* name := gets (λ s, kstr s (file_name f)) in
    let* size := tarfsGetFize arc name in
    let* target := seek_target whence offset (seek_pos f) size in
    match target with
    | None => ret (set_rax frame (-1))
    | Some n =>
        let new_pos := clamp size n in
        put_fd (sf_rbx frame) (mk_fd (file_name f) (file_data f) (u64 new_pos)) ;;;
        ret (set_rax frame new_pos)
    end.

(** * [syscalls/memory] *)
Definition mmap_round (pagemap heapPages : Z) (st : Z * Z) : M sys (Z * Z + unit) :=
  let '(i, allocPos) := st in
  if i <? heapPages then
    let* pa := kern allocate_page in
    kern (vmm_map_page pagemap allocPos pa (Z.lor (Z.lor (Z.lor PTE_PRESENT PTE_USER) PTE_WRITABLE) PTE_NX)) ;;;
    ret (inl (u32 (i + 1), u64 (allocPos + PAGE_SIZE)))
  else ret (inr tt).

Definition mmap_pages (len : Z) : Z := u32 (ALIGN_UP len PAGE_SIZE / PAGE_SIZE).

Definition sys_mmap (frame : syscall_frame) : M sys syscall_frame :=
  let* t := current in
  let* allocPos := kern (valloc_any (t_pagemap t) (sf_rbx frame)) in
  while_ (mmap_round (t_pagemap t) (mmap_pages (sf_rbx frame))) (0, allocPos) ;;;
  ret (set_rax frame allocPos).

Definition fb_round (pagemap pages : Z) (st : Z * Z * Z) : M sys (Z * Z * Z + unit) :=
  let '(i, virt_addr, phys_addr) := st in
  if i <? pages then
    let* hv := cpu_feature_bit 1 0 (chr "c") CPUID_HYPERVISOR in
    let fl := Z.lor (Z.lor PTE_PRESENT PTE_USER) PTE_WRITABLE in
    (if hv =? 0 then kern (vmm_map_page pagemap virt_addr phys_addr (Z.lor fl (Z.lor PTE_PCD PTE_PAT)))
     else kern (vmm_map_page pagemap virt_addr phys_addr fl)) ;;;
    ret (inl (u16 (i + 1), u64 (virt_addr + 0x1000), u64 (phys_addr + 0x1000)))
  else ret (inr tt).

Definition fb_pages (pitch height : Z) : Z :=
  let total_bytes := u32 (u64 (pitch * height)) in
  u16 (u32 (u32 (total_bytes + PAGE_SIZE) - 1) / PAGE_SIZE).

Definition sys_fb_map (frame : syscall_frame) : M sys syscall_frame :=
  let* pitch := rd fb_pitch in
  let* addr := rd fb_address in
  let* off := gets (λ s, k_hhdm (s_k s)) in
  let* t := current in
  while_ (fb_round (t_pagemap t) (fb_pages pitch fb_height)) (0, 0x00000000A0000000, u64 (addr - off)) ;;;
  ret (set_rax frame 0).

Definition sys_fb_get_pitch (frame : syscall_frame) : M sys syscall_frame :=
  let* p := rd fb_pitch in ret (set_rax frame p).

(** * [syscalls/misc] *)
Definition sys_get_thread_id (frame : syscall_frame) : M sys syscall_frame :=
  let* t := current in ret (set_rax frame (threadId t)).

Definition sys_get_ms (frame : syscall_frame) : M sys syscall_frame :=
  let* ms := get_ms in ret (set_rax frame ms).

Definition sys_sleep_ms (frame : syscall_frame) : M sys syscall_frame :=
  let* ms := get_ms in
  put_current (λ t, set_sleep t (u64 (ms + sf_rbx frame))) ;;;
  schedule_now elapsed ;;;
  ret frame.

(** When [schedule] has switched, another thread runs on and the last line waits
    for this one to be resumed. *)
Definition sys_exit (frame : syscall_frame) : M sys syscall_frame :=
  let* t := current in
  printf "Process %ld is exiting\n" [threadId t] ;;;
  put_current (λ t, set_thread_state t THREAD_STATE_REAPING) ;;;
  let* me := gets (λ s, threads (k_sched (s_k s))) in
  schedule_now elapsed ;;;
  let* now := gets (λ s, threads (k_sched (s_k s))) in
  if now =? me then panic "Thread in reaping process ran" else ret frame.

Definition print_fail (frame : syscall_frame) : M sys syscall_frame := ret (set_rax frame (-1)).

Definition sys_print (frame : syscall_frame) : M sys syscall_frame :=
  let user_ptr := sf_rbx frame in
  let* len := strlen_user user_ptr in
  if len <? 0 then print_fail frame
  else
    let* kstring := kern (malloc (len + 1)) in
    if kstring =? 0 then print_fail frame
    else
      let* c := copy_from_user kstring user_ptr (len + 1) in
      if negb (c =? 0) then kern (free kstring) ;;; print_fail frame
      else
        kstore [0] (u64 (kstring + len)) ;;;
        let* text := gets (λ s, kstr s kstring) in
        let* n := strlen text in
        printf "%s" (take_bytes text n) ;;;
        kern (free kstring) ;;;
        ret (set_rax frame 0).

(** [for (;;)] of [sys_do_hacky_stdin]: [inr] when a line is complete. *)
Definition put_line (i c : Z) : M sys unit :=
  index_ok i LINE_BUF_SIZE ;;;
  modify (λ s, with_line_buffer s (<[Z.to_nat i := c]> (s_line_buffer s))).

Definition stdin_round (_ : unit) : M sys (unit + unit) :=
  let* r := fs_read (lit "/dev/kbd") 1 in
  let keyPressed := of_list (snd r) 0 in
  if keyPressed =? 0 then
    let* ms := get_ms in
    put_current (λ t, set_sleep t (u64 (ms + 1))) ;;;
    schedule_now elapsed ;;;
    ret (inl tt)
  else
    let c := if keyPressed =? 13 then 10 else keyPressed in
    let* n := rd line_len in
    if c =? 10 then
      printf "\n" [] ;;;
      put_line n 10 ;;; wr line_len (n + 1) ;;;
      ret (inr tt)
    else if (c =? 8) || (c =? 0x7F) then
      (if 0 <? n then wr line_len (n - 1) ;;; printf "\b \b" [] else ret tt) ;;;
      ret (inl tt)
    else if (c <? 0x20) || (0x7E <? c) then ret (inl tt)
    else
      printf "%c" [c] ;;;
      put_line n c ;;; wr line_len (n + 1) ;;;
      if LINE_BUF_SIZE - 1 <=? n + 1 then
        put_line (n + 1) 10 ;;; wr line_len (n + 2) ;;;
        printf "\n" [] ;;;
        ret (inr tt)
      else ret (inl tt).

(** [copy_to_user] from a static buffer. *)
Fixpoint copy_list_to_user (l : list Z) (udst : Z) : M sys bool :=
  match l with
  | [] => ret true
  | c :: l' =>
      let* ok := try_store8 udst c in
      if ok then copy_list_to_user l' (u64 (udst + 1)) else ret false
  end.

Definition copy_static_to_user (udst : Z) (l : list Z) : M sys Z :=
  if negb (is_user_range udst (Z.of_nat (length l))) then ret (-1)
  else
    rflags_set_ac ;;;
    let* ok := copy_list_to_user l udst in
    rflags_clr_ac ;;;
    ret (if ok then 0 else -1).

Definition sys_do_hacky_stdin (frame : syscall_frame) : M sys syscall_frame :=
  let ubuf := sf_rbx frame in
  let count := sf_rdx frame in
  while_ stdin_round tt ;;;
  let* n := rd line_len in
  let to_copy := if n <? count then n else count in
  let* buf := gets s_line_buffer in
  copy_static_to_user ubuf (take (Z.to_nat to_copy) buf) ;;;
  wr line_len 0 ;;;
  ret (set_rax frame to_copy).

(** * [syscalls.c] *)
Definition syscall_fn (n : syscall_no) : syscall_frame → M sys syscall_frame :=
  match n with
  | SYSCALL_GET_THREAD_ID => sys_get_thread_id
  | SYSCALL_SET_FS_BASE => sys_setfsbase
  | SYSCALL_PRINT => sys_print
  | SYSCALL_MMAP => sys_mmap
  | SYSCALL_OPEN => sys_open
  | SYSCALL_READ => sys_read
  | SYSCALL_SEEK => sys_seek
  | SYSCALL_SLEEP_MS => sys_sleep_ms
  | SYSCALL_STDIN => sys_do_hacky_stdin
  | SYSCALL_EXIT => sys_exit
  | SYSCALL_GET_MS => sys_get_ms
  | SYSCALL_PCSPKR_PLAY => sys_pcspkr_play
  | SYSCALL_PCSPKR_STOP => sys_pcspkr_stop
  | SYSCALL_FB_MAP => sys_fb_map
  | SYSCALL_FB_GET_PITCH => sys_fb_get_pitch
  | SYSCALL_PS2_GET_SCANCODE => sys_ps2_get_scancode
  end.

(** [syscalls[syscall]]; entries that are not set are NULL. *)
Definition syscall_entry (s : sys) (n : Z) : option syscall_no :=
  if s_syscalls s then snd <$> list_find (λ c, syscall_number c = n) all_syscalls else None.

Definition init_syscall : M sys unit :=
  let* efer := rdmsr EFER in
  wrmsr EFER (Z.lor efer (Z.shiftl 1 0)) ;;;
  wrmsr STAR STAR_VALUE ;;;
  wrmsr LSTAR (addr_syscall_handler sy) ;;;
  wrmsr SFMASK 0xED5 ;;;
  modify (λ s, with_syscalls s true) ;;;
  printf "SYSCALL: Syscalls setup\n" [].

Definition execute_syscall (frame : syscall_frame) : M sys syscall_frame :=
  rflags_clr_ac ;;;
  let syscall := sf_rax frame in
  let* fn := gets (λ s, syscall_entry s syscall) in
  match fn with
  | Some n => if syscall <? MAX_SYSCALLS then syscall_fn n frame else ret (set_rax frame (-1))
  | None => ret (set_rax frame (-1))
  end.

(** * [fred/fred.c]: entry paths *)
Record fred_frame := mk_fred {
  ff_r15 : Z; ff_r14 : Z; ff_r13 : Z; ff_r12 : Z; ff_r11 : Z; ff_r10 : Z; ff_r9 : Z; ff_r8 : Z;
  ff_rbp : Z; ff_rdi : Z; ff_rsi : Z; ff_rdx : Z; ff_rcx : Z; ff_rbx : Z; ff_rax : Z;
  ff_error : Z; ff_ip : Z; ff_cs : Z; ff_flags : Z; ff_rsp : Z; ff_ss : Z;
  ff_event_data : Z; ff_reserved : Z
}.

Definition fred_vector (frame : fred_frame) : Z := Z.land (Z.shiftr (ff_ss frame) 32) 0xFF.
Definition fred_type (frame : fred_frame) : Z := Z.land (Z.shiftr (ff_ss frame) 48) 0xF.

Definition to_sysframe (f : fred_frame) : syscall_frame :=
  mk_sframe (ff_r15 f) (ff_r14 f) (ff_r13 f) (ff_r12 f) (ff_r11 f) (ff_r10 f) (ff_r9 f) (ff_r8 f)
    (ff_rbp f) (ff_rdi f) (ff_rsi f) (ff_rdx f) (ff_rcx f) (ff_rbx f) (ff_rax f).

Definition from_sysframe (f : fred_frame) (s : syscall_frame) : fred_frame :=
  mk_fred (sf_r15 s) (sf_r14 s) (sf_r13 s) (sf_r12 s) (sf_r11 s) (sf_r10 s) (sf_r9 s) (sf_r8 s)
    (sf_rbp s) (sf_rdi s) (sf_rsi s) (sf_rdx s) (sf_rcx s) (sf_rbx s) (sf_rax s)
    (ff_error f) (ff_ip f) (ff_cs f) (ff_flags f) (ff_rsp f) (ff_ss f) (ff_event_data f) (ff_reserved f).

Definition to_iframe (f : fred_frame) : interrupt_frame :=
  mk_frame (ff_r15 f) (ff_r14 f) (ff_r13 f) (ff_r12 f) (ff_r11 f) (ff_r10 f) (ff_r9 f) (ff_r8 f)
    (ff_rbp f) (ff_rdi f) (ff_rsi f) (ff_rdx f) (ff_rcx f) (ff_rbx f) (ff_rax f)
    (fred_vector f) (ff_error f) (ff_ip f) (ff_cs f) (ff_flags f) (ff_rsp f) (ff_ss f).

Definition from_iframe (f : fred_frame) (i : interrupt_frame) : fred_frame :=
  mk_fred (f_r15 i) (f_r14 i) (f_r13 i) (f_r12 i) (f_r11 i) (f_r10 i) (f_r9 i) (f_r8 i)
    (f_rbp i) (f_rdi i) (f_rsi i) (f_rdx i) (f_rcx i) (f_rbx i) (f_rax i)
    (f_error i) (f_ip i) (f_cs i) (f_flags i) (f_rsp i) (f_ss i) (ff_event_data f) (ff_reserved f).

Definition fred_ring3_entry (uninit : Z) (rx : list Z) (frame : fred_frame) : M sys fred_frame :=
  if fred_type frame =? 7 then
    let* sysFrame := execute_syscall (to_sysframe frame) in
    ret (from_sysframe frame sysFrame)
  else
    let* iFrame := dispatch_interupt sy elapsed uninit rx (to_iframe frame) in
    ret (from_iframe frame iFrame).

Definition fred_ring0_entry (uninit : Z) (rx : list Z) (frame : fred_frame) : M sys fred_frame :=
  let* iFrame := dispatch_interupt sy elapsed uninit rx (to_iframe frame) in
  ret (from_iframe frame iFrame).
End syscalls.
