(* ===== verification/IoInv.v ===== *)
(** Reasoning about drivers: accesses only extend the log, polling loops with a
    countdown end for every hardware, and loops that never end. *)
From stdpp Require Import base tactics list gmap strings.
From Stdlib Require Import ZArith Lia Ascii.
From S2P Require Import Prelude Bits State Io Str Cpu Timers Apic Serial.

(** * States that differ in the log only *)
Definition logged (l : list event) (s : sys) : sys := with_log s (l ++ s_log s).

Lemma logged_nil s : logged [] s = s.
Proof. by destruct s. Qed.
Lemma logged_app l l' s : logged l (logged l' s) = logged (l ++ l') s.
Proof. unfold logged. destruct s; cbn. by rewrite app_assoc. Qed.
Lemma emit_logged e s : emit e s = Ok (tt, logged [e] s).
Proof. done. Qed.
Lemma s_var_logged l s x : s_var (logged l s) x = s_var s x.
Proof. done. Qed.
Lemma s_log_logged l s : s_log (logged l s) = l ++ s_log s.
Proof. done. Qed.
Lemma s_k_logged l s : s_k (logged l s) = s_k s.
Proof. done. Qed.
Lemma rd_logged x l s : rd x (logged l s) = Ok (s_var s x, logged l s).
Proof. done. Qed.

Section access.
Context `{Hardware}.

Lemma outb_logged p v s : outb p v s = Ok (tt, logged [Out8 (u16 p) (u8 v)] s).
Proof. done. Qed.
Lemma inb_logged p s : inb p s = Ok (hw_read (s_log s) (In8 (u16 p)) mod 2 ^ 8, logged [In8 (u16 p)] s).
Proof. done. Qed.

Definition io_pause : event := Out8 0x80 0.

Lemma outbd_logged p v s : outbd p v s = Ok (tt, logged [io_pause; Out8 (u16 p) (u8 v); io_pause] s).
Proof. by destruct s. Qed.
Lemma inbd_logged p s :
  inbd p s = Ok (hw_read (io_pause :: s_log s) (In8 (u16 p)) mod 2 ^ 8, logged [io_pause; In8 (u16 p); io_pause] s).
Proof. by destruct s. Qed.
End access.

(** * Loops that go round for ever *)
Section forever.
Context {S A B : Type} (body : A → M S (A + B)) (I : A → S → Prop).
Hypothesis body_inl : ∀ a s, I a s → ∃ a' s', body a s = Ok (inl a', s') ∧ I a' s'.

Lemma loop_forever n a s : I a s → ∃ a' s', loop n body a s = Ok (inl a', s') ∧ I a' s'.
Proof.
  revert a s. induction n as [|n IH]; intros a s HI; cbn [loop]; [by apply body_inl|].
  destruct (IH a s HI) as (a1 & s1 & E1 & HI1). rewrite (bind_ok _ _ _ _ _ E1). by apply IH.
Qed.

Lemma while_forever a s : I a s → while_ body a s = Hang.
Proof.
  intros HI. unfold while_. destruct (loop_forever 64 a s HI) as (a' & s' & E & _).
  by rewrite (bind_ok _ _ _ _ _ E).
Qed.
End forever.

(** * Loops that end in a panic *)
Section panics.
Context {S A B : Type} (body : A → M S (A + B)) (I : Z → A → S → Prop) (msg : string).
Hypothesis body_step : ∀ n a s, 0 <= n → I n a s →
  body a s = Panic msg ∨ ∃ n' a' s', body a s = Ok (inl a', s') ∧ 0 <= n' < n ∧ I n' a' s'.

Lemma loop_panics w n a s : 0 <= n → I n a s →
  loop w body a s = Panic msg ∨
  ∃ n' a' s', loop w body a s = Ok (inl a', s') ∧ 0 <= n' <= n - 2 ^ Z.of_nat w ∧ I n' a' s'.
Proof.
  revert n a s. induction w as [|w IH]; intros n a s Hn HI; cbn [loop].
  - destruct (body_step n a s Hn HI) as [?|(n' & a' & s' & E & Hl & HI')]; [by left|].
    right. exists n', a', s'. split_and!; (done || cbn; lia).
  - destruct (IH n a s Hn HI) as [E|(n1 & a1 & s1 & E & Hl & HI1)]; [left; unfold bind; by rewrite E|].
    rewrite (bind_ok _ _ _ _ _ E). destruct (IH n1 a1 s1 ltac:(lia) HI1) as [E2|(n2 & a2 & s2 & E2 & Hl2 & HI2)]; [by left|].
    right. exists n2, a2, s2. rewrite Nat2Z.inj_succ, Z.pow_succ_r by lia. split_and!; (done || lia).
Qed.

Lemma while_panics n a s : 0 <= n < 2 ^ 64 → I n a s → while_ body a s = Panic msg.
Proof.
  intros Hn HI. unfold while_, bind.
  destruct (loop_panics 64 n a s ltac:(lia) HI) as [->|(n' & a' & s' & E & Hl & _)]; [done|]. cbn in Hl. lia.
Qed.
End panics.

(** * Loops that compute a recursive function *)
Section recursion.
Context {S A B : Type} (body : A → M S (A + B)) (f : A → M S B) (size : A → Z) (inv : A → Prop).
Hypothesis unfold_f : ∀ a s, inv a → bind (body a) (λ r, match r with inl a' => f a' | inr b => ret b end) s = f a s.
Hypothesis size_pos : ∀ a, 0 <= size a.
Hypothesis smaller : ∀ a s a' s', inv a → body a s = Ok (inl a', s') → size a' < size a ∧ inv a'.

Lemma loop_smaller w a s a' s' : inv a → loop w body a s = Ok (inl a', s') → size a' + 2 ^ Z.of_nat w <= size a ∧ inv a'.
Proof.
  revert a s a' s'. induction w as [|w IH]; intros a s a' s' Ha; cbn [loop].
  { intros [Hl Hi]%smaller; [|done]. split; [cbn; lia|done]. }
  unfold bind. destruct (loop w body a s) as [[[a1|b] s1]| |] eqn:E1; [|done..]. intros E2.
  apply IH in E1 as [Hl1 Hi1]; [|done]. apply IH in E2 as [Hl2 Hi2]; [|done].
  rewrite Nat2Z.inj_succ, Z.pow_succ_r by lia. split; [lia|done].
Qed.

Lemma loop_recursion w a s : inv a → bind (loop w body a) (λ r, match r with inl a' => f a' | inr b => ret b end) s = f a s.
Proof.
  revert a s. induction w as [|w IH]; intros a s Ha; cbn [loop]; [by apply unfold_f|].
  rewrite <- (IH a s Ha). unfold bind. destruct (loop w body a s) as [[[a'|b] s']| |] eqn:E; try done.
  apply IH. by apply (loop_smaller w a s a' s').
Qed.

Lemma while_recursion a s : inv a → size a < 2 ^ 64 → while_ body a s = f a s.
Proof.
  intros Hi Ha. rewrite <- (loop_recursion 64 a s Hi). unfold while_, bind.
  destruct (loop 64 body a s) as [[[a'|b] s']| |] eqn:E; [|done..].
  apply loop_smaller in E as [E _]; [|done]. pose proof (size_pos a'). cbn in E. lia.
Qed.
End recursion.

(** * Waiting for the PS/2 controller *)

Definition is_status_read (e : event) : bool := bool_decide (e = In8 PS2_STATUS_PORT).
Definition status_reads (l : list event) : Z := Z.of_nat (length (filter is_status_read l)).

Lemma status_reads_app l l' : status_reads (l ++ l') = status_reads l + status_reads l'.
Proof. unfold status_reads. rewrite filter_app, length_app. lia. Qed.

Section ps2_wait.
Context `{Hardware} (busy : Z → bool).

(** [t] is left of the countdown and [l] has been logged. *)
Definition wait_inv (s : sys) (n t : Z) (s1 : sys) : Prop :=
  n = t ∧ 1 <= t ∧ ∃ l, s1 = logged l s ∧ status_reads l = PS2_TIMEOUT_RW - t.

Definition wait_post (s : sys) (t : Z) (s1 : sys) : Prop :=
  0 <= t < PS2_TIMEOUT_RW ∧
  ∃ l, s1 = logged l s ∧ status_reads l <= PS2_TIMEOUT_RW - 1 ∧
  (0 < t → ∃ l', l = In8 PS2_STATUS_PORT :: l' ∧
     busy (hw_read (l' ++ s_log s) (In8 PS2_STATUS_PORT) mod 2 ^ 8) = false).

Lemma wp_ps2_wait s : wp (while_ (ps2_wait_round busy) PS2_TIMEOUT_RW) s (wait_post s).
Proof.
  apply (wp_while _ (wait_inv s) _) with (n := PS2_TIMEOUT_RW); [|by unfold PS2_TIMEOUT_RW|].
  2: { split; [done|]. split; [by unfold PS2_TIMEOUT_RW|]. exists []. by rewrite logged_nil. }
  intros n t s1 _ (-> & Ht & l & -> & Hl). unfold ps2_wait_round.
  assert (0 <= t - 1 < PS2_TIMEOUT_RW) as Ht1.
  { assert (0 <= status_reads l) by (unfold status_reads; lia). lia. }
  destruct (Z.eqb_spec (t - 1) 0) as [Hz|Hz].
  { apply wp_ret. split; [done|]. exists l. split; [done|]. split; [lia|]. lia. }
  apply wp_bind. eapply wp_ok; [apply inb_logged|]. rewrite logged_app, s_log_logged. change (u16 PS2_STATUS_PORT) with PS2_STATUS_PORT.
  destruct (busy _) eqn:Hb.
  - apply wp_bind. eapply wp_ok; [apply outb_logged|]. apply wp_ret. rewrite logged_app.
    exists (t - 1). split; [lia|]. split; [done|]. split; [lia|]. eexists. split; [done|].
    rewrite app_assoc, !status_reads_app. change (status_reads [_]) with 0 at 1. change (status_reads [In8 _]) with 1. lia.
  - apply wp_ret. split; [lia|]. exists ([In8 PS2_STATUS_PORT] ++ l). split; [done|].
    rewrite status_reads_app. change (status_reads [_]) with 1. split; [lia|]. intros _. by exists l.
Qed.
End ps2_wait.

(** Waiting for the keyboard controller ends for every hardware: at most
    99,999 readings of the status port are made, nothing but port accesses
    happens, and the answer [true] means that the last status read had the input
    buffer empty. *)
Theorem ps2_wait_bounded `{Hardware} (s : sys) :
  ∃ ready l, ps2_wait_write s = Ok (ready, logged l s) ∧
    status_reads l <= 99999 ∧
    (ready = true → ∃ l', l = In8 PS2_STATUS_PORT :: l' ∧
       Z.land (hw_read (l' ++ s_log s) (In8 PS2_STATUS_PORT) mod 2 ^ 8) PS2_STATUS_INPUT_BUFFER_FULL = 0).
Proof.
  destruct (wp_inv _ _ _ (wp_ps2_wait (λ st, negb (Z.land st PS2_STATUS_INPUT_BUFFER_FULL =? 0)) s))
    as (t & s1 & E & Ht & l & -> & Hl & Hlast).
  exists (0 <? t), l. unfold ps2_wait_write. rewrite (bind_ok _ _ _ _ _ E).
  split; [done|]. split; [unfold PS2_TIMEOUT_RW in *; lia|].
  intros Hpos%Z.ltb_lt. destruct (Hlast Hpos) as (l' & -> & Hb). exists l'. split; [done|].
  by apply negb_false_iff, Z.eqb_eq in Hb.
Qed.
