(* ===== verification/Boot.v ===== *)
(** Start-up: the command line ([utils/cmdline.c]) and [kmain] ([kernel.c]).
    The last part shows that the command line is the list of its words. *)
From stdpp Require Import base tactics list gmap strings.
From Stdlib Require Import ZArith Lia Ascii.
From S2P Require Import Prelude Bits State Spinlock Pmm Heap Vmm Vma Libc Str Kbd Sched Io Cpu Timers Apic Serial Acpi Uaccess Fs Elf Fb Dbgstub Intr Syscalls IoInv.

(** * [utils/cmdline.c]: the command line is the list of its bytes *)
Definition SPACE : Z := 32.

(** [while ( *cmdline == ' ') cmdline++;] *)
Fixpoint skip_spaces (cmdline : list Z) : list Z :=
  match cmdline with
  | c :: rest => if c =? SPACE then skip_spaces rest else cmdline
  | [] => []
  end.

(** [while ( *cmdline && *cmdline != ' ') cmdline++;]: the argument and what follows. *)
Fixpoint take_arg (cmdline : list Z) : list Z * list Z :=
  match cmdline with
  | c :: rest => if c =? SPACE then ([], cmdline) else let '(a, r) := take_arg rest in (c :: a, r)
  | [] => ([], [])
  end.

Section cmdline.
Context `{Hardware}.

(** One argument, already in lower case. *)
Definition cmdline_arg (arg : cstring) : M sys unit :=
  let* c := strcmp (lit "serial=hv") arg in
  if c =? 0 then
    let* hv := cpu_feature_bit CPUID_GET_FEATURES CPUID_NO_SUBLEAF CPUID_ECX CPUID_HYPERVISOR in
    if negb (hv =? 0) then wr serial_enabled 1 else ret tt
  else
  let* c := strcmp (lit "serial=on") arg in
  if c =? 0 then wr serial_enabled 1
  else
  let* c := strncmp (lit "serial=") arg 7 in
  if c =? 0 then
    wr serial_enabled 1 ;;;
    let* port := strtoll (advance 7 arg) 0 in
    wr serial_port (u16 port)
  else
  let* c := strcmp (lit "dbg=on") arg in
  if c =? 0 then wr dbg_enabled 1
  else
  let* c := strcmp (lit "debug=on") arg in
  if c =? 0 then wr dbg_enabled 1
  else
  let* c := strcmp (lit "dbg=stub") arg in
  if c =? 0 then wr dbg_enabled 1 ;;; wr dbgstub_enabled 1
  else
  let* c := strcmp (lit "debug=stub") arg in
  if c =? 0 then wr dbgstub_enabled 1 else ret tt.

Definition cmdline_round (cmdline : list Z) : M sys (list Z + unit) :=
  match cmdline with
  | [] => ret (inr tt)
  | _ =>
      let '(arg, rest) := take_arg cmdline in
      let rest := match rest with [] => [] | _ :: r => r end in
      cmdline_arg (of_list (map tolower arg)) ;;;
      ret (inl (skip_spaces rest))
  end.

Definition setup_cmdline (cmdline : option (list Z)) : M sys unit :=
  match cmdline with
  | None => ret tt
  | Some l => while_ cmdline_round (skip_spaces l)
  end.
End cmdline.

(** * [kernel.c] *)

(** What the boot loader hands over; requests it did not answer are [None]. *)
Record limine_framebuffer := mk_fbinfo { fbi_address : Z; fbi_width : Z; fbi_height : Z; fbi_pitch : Z }.
Record boot_info := mk_boot {
  b_revision_ok : bool;
  b_framebuffers : list limine_framebuffer;
  b_cmdline : option (list Z);
  b_memmap : list memmap_entry;
  b_image : boot_image;
  b_rsdp : Z;
  b_modules : list limine_file
}.

Section kmain.
Context `{Hardware} (sy : symbols) (code : code).
Context (idle_thread reaper_thread start_shell : Z).

(** Up to the memory managers. *)
Definition kmain_cpu (b : boot_info) : M sys unit :=
  match b_framebuffers b with
  | [] => hang
  | fb :: _ =>
      wr fb_address (fbi_address fb) ;;;
      wr fb_pitch (fbi_pitch fb) ;;;
      wr FB_WIDTH (i32 (fbi_width fb)) ;;;
      wr FB_HEIGHT (i32 (fbi_height fb)) ;;;
      printf "KERNEL: Kernel Started\n" [] ;;;
      (let* v := get_cpu_vendor in printf "KERNEL: CPU Vendor: %s\n" v) ;;;
      (let* v := get_cpu_name in printf "KERNEL: CPU Name: %s\n" v) ;;;
      (let* hv := cpu_feature_bit 1 0 (chr "c") CPUID_HYPERVISOR in
       if negb (hv =? 0) then let* v := get_hypervisor_id in printf "KERNEL: Hypervisor ID: %s\n" v else ret tt) ;;;
      setup_cmdline (b_cmdline b) ;;;
      setup_control_registers ;;;
      setup_gdt sy ;;;
      let* fred := setup_fred sy in
      if fred then ret tt else setup_idt sy
  end.

(** The memory managers, in the order they depend on each other. *)
Definition kmain_memory (b : boot_info) : M sys unit :=
  kern (setup_pmm (b_memmap b)) ;;;
  setup_vmm (b_image b) (b_memmap b) ;;;
  kern setup_heap ;;;
  kern valloc_init.

Definition kmain_devices (b : boot_info) : M sys unit :=
  setup_acpi (b_rsdp b) ;;;
  setup_irqs ;;;
  setup_timer ;;;
  setup_apic ;;;
  init_tarfs (b_modules b) ;;;
  (let* r := fs_read (lit "/test.txt") 512 in
   if 0 <? fst r then
     printf "KERNEL: Testing tarfs by printing test.txt from initramfs: %s" (snd r)
   else ret tt) ;;;
  setup_tty ;;;
  setup_serial ;;;
  (let* stub := rd dbgstub_enabled in
   if negb (stub =? 0) then wr serial_works 0 ;;; dbgstub_init else ret tt) ;;;
  setup_ps2 ;;;
  setup_keyboard ;;;
  init_syscall sy.

(** [while (!enterPressed)]: wait for Enter.  [keyPressed] is not initialised;
    [key] is what the stack holds until a byte is read. *)
Definition enter_round (key : Z) : M sys (Z + unit) :=
  let* r := fs_read (lit "/dev/kbd") 1 in
  let key := match snd r with c :: _ => c | [] => key end in
  timer_blocking_sleep_ms 1 ;;;
  ret (if (key =? 10) || (key =? 13) then inr tt else inl key).

Definition kmain_threads (uninit : Z) : M sys unit :=
  printf "KERNEL: Press Enter to Start the Builtin Kernel Test CLI\n" [] ;;;
  while_ enter_round uninit ;;;
  kern (create_thread code idle_thread 0 NO_ARGS) ;;;
  kern (create_thread code reaper_thread 0 NO_ARGS) ;;;
  kern (create_thread code start_shell 0 NO_ARGS) ;;;
  wr shouldSchedule 1 ;;;
  kern (modify (λ k, set_dev k (set_preempt (k_dev k) true))) ;;;
  emit Hlt.

Definition kmain (uninit : Z) (b : boot_info) : M sys unit :=
  if negb (b_revision_ok b) then emit Hlt ;;; hang
  else kmain_cpu b ;;; kmain_memory b ;;; kmain_devices b ;;; kmain_threads uninit.
End kmain.

(** The words of a line, separated by any number of spaces; [w] is the word in
    front, reversed. *)
Definition emit_word (w : list Z) : list (list Z) := match w with [] => [] | _ => [rev w] end.
Fixpoint words_from (w line : list Z) : list (list Z) :=
  match line with
  | [] => emit_word w
  | c :: line' => if c =? SPACE then emit_word w ++ words_from [] line' else words_from (c :: w) line'
  end.
Definition words (line : list Z) : list (list Z) := words_from [] line.

(** Every word in lower case is handled in turn. *)
Fixpoint handle_words `{Hardware} (ws : list (list Z)) : M sys unit :=
  match ws with
  | [] => ret tt
  | w :: ws' => cmdline_arg (of_list (map tolower w)) ;;; handle_words ws'
  end.

Lemma words_skip l : words (skip_spaces l) = words l.
Proof. induction l as [|c l IH]; [done|]. unfold words in *. cbn. by destruct (c =? SPACE) eqn:E; cbn; rewrite ?E. Qed.

Lemma length_skip l : (length (skip_spaces l) <= length l)%nat.
Proof. induction l as [|c l IH]; [done|]. cbn. destruct (c =? SPACE); cbn; lia. Qed.

(** What is behind an argument: the rest of the line after one space. *)
Definition after_arg (rest : list Z) : list Z := match rest with [] => [] | _ :: r => r end.

Lemma words_take_arg w l : words_from w l =
  emit_word (rev (fst (take_arg l)) ++ w) ++ words (after_arg (snd (take_arg l))).
Proof.
  revert w. induction l as [|c l IH]; intros w; cbn; [by rewrite app_nil_r|].
  destruct (c =? SPACE); [done|]. rewrite IH. destruct (take_arg l) as [a r]. cbn. by rewrite <- app_assoc.
Qed.

Lemma length_take_arg l : (length (after_arg (snd (take_arg l))) <= length l)%nat.
Proof.
  induction l as [|c l IH]; [done|]. cbn. destruct (c =? SPACE); cbn; [lia|]. destruct (take_arg l). cbn in *. lia.
Qed.

Section cmdline.
Context `{Hardware}.

Lemma round_cons c l : c ≠ SPACE →
  cmdline_round (c :: l) = (cmdline_arg (of_list (map tolower (c :: fst (take_arg l)))) ;;; ret (inl (skip_spaces (after_arg (snd (take_arg l)))))).
Proof. intros Hc. cbn. rewrite (proj2 (Z.eqb_neq c SPACE) Hc). by destruct (take_arg l). Qed.

(** A line that does not start with a space. *)
Definition trimmed (l : list Z) : Prop := match l with c :: _ => c ≠ SPACE | [] => True end.

Lemma trimmed_skip l : trimmed (skip_spaces l).
Proof. induction l as [|c l IH]; [done|]. cbn. by destruct (Z.eqb_spec c SPACE). Qed.

Lemma words_cons c l : c ≠ SPACE → words (c :: l) = (c :: fst (take_arg l)) :: words (after_arg (snd (take_arg l))).
Proof.
  intros Hc. unfold words at 1. cbn. rewrite (proj2 (Z.eqb_neq c SPACE) Hc), words_take_arg.
  destruct (rev (fst (take_arg l)) ++ [c]) as [|x xs] eqn:E; [by destruct (rev (fst (take_arg l)))|].
  cbn [emit_word]. rewrite <- E, rev_app_distr, rev_involutive. done.
Qed.

Lemma cmdline_round_words l s : trimmed l →
  bind (cmdline_round l) (λ r, match r with inl l' => handle_words (words l') | inr b => ret b end) s = handle_words (words l) s.
Proof.
  destruct l as [|c l]; intros Hc; [done|]. rewrite round_cons, words_cons by done. cbn [handle_words].
  unfold bind, ret. destruct (cmdline_arg _ s) as [[[] s']| |]; [|done..]. by rewrite words_skip.
Qed.

Lemma cmdline_round_smaller l s l' s' : trimmed l → cmdline_round l s = Ok (inl l', s') →
  Z.of_nat (length l') < Z.of_nat (length l) ∧ trimmed l'.
Proof.
  destruct l as [|c l]; intros Hc; [done|]. rewrite round_cons by done. unfold bind, ret.
  destruct (cmdline_arg _ s) as [[[] s1]| |]; [|done..]. intros [= <- _]. split; [|apply trimmed_skip].
  pose proof (length_skip (after_arg (snd (take_arg l)))). pose proof (length_take_arg l). cbn [length]. lia.
Qed.
End cmdline.

(** The scanner over the command line is the list of its words: every word
    between spaces is lower-cased and handled once, in order, whatever the
    spacing, and the scan ends. *)
Theorem setup_cmdline_words `{Hardware} (line : list Z) (s : sys) :
  Z.of_nat (length line) < 2 ^ 64 →
  setup_cmdline (Some line) s = handle_words (words line) s.
Proof.
  intros Hlen. cbn [setup_cmdline]. rewrite <- (words_skip line). pose proof (length_skip line).
  apply (while_recursion cmdline_round (λ l, handle_words (words l)) (λ l, Z.of_nat (length l)) trimmed);
    [intros; by apply cmdline_round_words|lia|intros; by eapply cmdline_round_smaller|apply trimmed_skip|lia].
Qed.

Lemma setup_cmdline_words_witness :
  let line := bytes "  Debug=ON   serial=0x2F8 " in
  words line = [bytes "Debug=ON"; bytes "serial=0x2F8"] ∧
  @setup_cmdline {| hw_read _ _ := 0; hw_cpuid _ _ _ := mk_cpuid 0 0 0 0 |} (Some line) (sys0 (kernel0 0)) =
  @handle_words {| hw_read _ _ := 0; hw_cpuid _ _ _ := mk_cpuid 0 0 0 0 |} [bytes "Debug=ON"; bytes "serial=0x2F8"] (sys0 (kernel0 0)).
Proof.
  split; [reflexivity|].
  exact (@setup_cmdline_words _ (bytes "  Debug=ON   serial=0x2F8 ") (sys0 (kernel0 0)) eq_refl).
Defined.
