(* ===== verification/Shell.v ===== *)
(** The kernel's command line ([apps/shell.c]), the memory map listing
    ([memory/debug.c]) and [strdup] ([libc/string.c]). *)
From stdpp Require Import base tactics list gmap strings.
From Stdlib Require Import ZArith Lia Ascii.
From S2P Require Import Prelude Bits State Spinlock Pmm Heap Vmm Vma Libc Str Kbd Sched Io Cpu Timers Apic Serial Uaccess Fs Elf Fb Dbgstub Intr Syscalls.

(** * [memory/debug.c] *)

(** Digits are put in front of those already there; at most 16 of them. *)
Fixpoint int_to_hex_loop (i : nat) (num : Z) (out : list Z) : list Z :=
  match i with
  | O => out
  | S i' =>
      if num =? 0 then out
      else int_to_hex_loop i' (Z.shiftr num 4) (lit "0123456789ABCDEF" (Z.land num 0xF) :: out)
  end.

Definition int_to_hex (num : Z) : list Z :=
  if num =? 0 then [chr "0"] else int_to_hex_loop 16 num [].

Definition memmap_type_str (t : memmap_type) : string :=
  match t with
  | LIMINE_MEMMAP_USABLE => "Usable"
  | LIMINE_MEMMAP_RESERVED => "Reserved"
  | LIMINE_MEMMAP_ACPI_RECLAIMABLE => "ACPI Reclaimable"
  | LIMINE_MEMMAP_ACPI_NVS => "ACPI NVS"
  | LIMINE_MEMMAP_BAD_MEMORY => "Bad Memory"
  | LIMINE_MEMMAP_BOOTLOADER_RECLAIMABLE => "Bootloader Reclaimable"
  | LIMINE_MEMMAP_EXECUTABLE_AND_MODULES => "Executable and Modules"
  | LIMINE_MEMMAP_FRAMEBUFFER => "Framebuffer"
  end.

Fixpoint print_memmap_loop (entries : list memmap_entry) : M sys unit :=
  match entries with
  | [] => ret tt
  | e :: entries' =>
      let* off := gets (λ s, k_hhdm (s_k s)) in
      printf (String.append "0x%016llx   0x%016llx   " (memmap_type_str (type_ e))) [u64 (base e + off); length_ e] ;;;
      print_memmap_loop entries'
  end.

Definition printMemoryMap (memmap : list memmap_entry) : M sys unit :=
  printf "Memory Map:\n" [] ;;;
  printf "VIRTUAL ADDRESS      LENGTH IN BYTES      MEMORY TYPE\n" [] ;;;
  print_memmap_loop memmap.

(** * [libc/string.c] *)
Definition strdup (s : list Z) : M sys Z :=
  let len := Z.of_nat (length s) + 1 in
  let* copy := kern (malloc len) in
  if copy =? 0 then ret 0
  else kstore (s ++ [0]) copy ;;; ret copy.

(** * [apps/shell.c] *)
Definition upper_char (c : Z) : Z := if (chr "a" <=? c) && (c <=? chr "z") then c - (chr "a" - chr "A") else c.

(** At most 255 characters; bytes above 127 are negative characters. *)
Definition to_upper (s : list Z) : list Z := map upper_char (take 255 s).

Section shell.
Context `{Hardware} (code : code) (elapsed : Z → Z) (memmap : list memmap_entry).
(** The address of [spawn_app_kthread]. *)
Context (addr_spawn_app_kthread : Z).

(** A store to user memory by the kernel. *)
Definition ustore64 (va v : Z) : M sys unit :=
  let* s := get in
  match resolve (smap_on s) (s_k s) true va with
  | Some pa => kern (modify (λ k, set_mem k (write64 (k_mem k) pa v)))
  | None => panic "Page Fault"
  end.

Fixpoint push_user (vs : list Z) (stack : Z) : M sys Z :=
  match vs with
  | [] => ret stack
  | v :: vs' => ustore64 (u64 (stack - 8)) v ;;; push_user vs' (u64 (stack - 8))
  end.

Fixpoint map_user_stack (n : nat) (pagemap stack_top offset : Z) : M sys unit :=
  match n with
  | O => ret tt
  | S n' =>
      let* pa := kern allocate_page in
      kern (vmm_map_page pagemap (u64 (stack_top - PAGE_SIZE - offset)) pa
              (Z.lor (Z.lor PTE_PRESENT PTE_USER) PTE_WRITABLE)) ;;;
      map_user_stack n' pagemap stack_top (offset + PAGE_SIZE)
  end.

Definition ELF_BUFFER : Z := 24 * 1024 * 1024.
Definition USER_STACK : Z := 64 * 1024.

(** The words of the initial user stack, in the order they are pushed. *)
Definition auxv (info : elf_info) : list Z :=
  [0; 0; 0; ei_entry_point info; 9; ei_phdr info; 3; ei_phentsize info; 4; ei_phnum info; 5; 0; 0; 0].

(** The entry point and stack the thread enters user mode with, if it does. *)
Definition spawn_app_kthread (path : Z) : M sys (option (Z * Z)) :=
  let* elf_file := kern (malloc ELF_BUFFER) in
  let* name := gets (λ s, kstr s path) in
  let* r := fs_read name ELF_BUFFER in
  kstore (snd r) elf_file ;;;
  let* t := current in
  let* info := load_elf elf_file (t_pagemap t) in
  kern (free elf_file) ;;;
  kern (free path) ;;;
  let* base := kern (valloc_any (t_pagemap t) USER_STACK) in
  let stack_top := u64 (base + USER_STACK) in
  map_user_stack 16 (t_pagemap t) stack_top 0 ;;;
  let sp := Z.ldiff stack_top 0xF in
  rflags_set_ac ;;;
  let* stack := push_user (auxv info) sp in
  rflags_clr_ac ;;;
  ret (if negb (ei_entry_point info =? 0) then Some (ei_entry_point info, stack) else None).

(** Start a program in a thread and an address space of its own. *)
Definition start_app (path : string) : M sys unit :=
  let* pagemap := kern new_pagemap in
  let* p := strdup (bytes path) in
  kern (create_thread code addr_spawn_app_kthread pagemap (mk_args p 0 0 0 0 0)).

(** The arithmetic of the TEST command on [volatile int sink]. *)
Definition test_value (s : Z) : M sys Z :=
  let v := Z.lxor 10 s in
  let* v := add_i 32 v 1 in
  let* v := mul_i 32 v 2 in
  let* v := sub_i 32 v 3 in
  let v := Z.lxor v 0x55 in
  let* v := mul_i 32 v v in
  add_i 32 v 42.

Definition test_command : M sys unit :=
  let* s := rd sink in
  let* v := test_value s in
  wr sink v ;;;
  printf "Test Command Executed\n" [].

(** The pager of the CREDITS command: wait for a key. *)
Definition credits_wait : M sys unit :=
  while_ (λ _ : unit,
    schedule_now elapsed ;;;
    let* r := fs_read (lit "/dev/kbd") 1 in
    ret (if of_list (snd r) 0 =? 0 then inl tt else inr tt)) tt.

(** [ptr] in the text, the start of the line, the lines shown. *)
Record pager := mk_pager { pg_ptr : Z; pg_line : Z; pg_count : Z; pg_prompt : bool }.

Definition credits_round (data : cstring) (p : pager) : M sys (pager + Z) :=
  let c := data (pg_ptr p) in
  if c =? 0 then ret (inr (pg_line p))
  else
    (if pg_prompt p then printf "\x1b[2K\r" [] else ret tt) ;;;
    (if c =? 10 then printf "%s\n" (take_bytes (advance (pg_line p) data) (pg_ptr p - pg_line p)) else ret tt) ;;;
    let line := if c =? 10 then pg_ptr p + 1 else pg_line p in
    let count := if c =? 10 then pg_count p + 1 else pg_count p in
    if count =? 20 then
      printf "Press any key to continute" [] ;;;
      credits_wait ;;;
      ret (inl (mk_pager (pg_ptr p + 1) line 0 true))
    else ret (inl (mk_pager (pg_ptr p + 1) line count false)).

Definition credits_command : M sys unit :=
  let* data := kern (malloc (16 * 1024)) in
  let* r := fs_read (lit "/credits.txt") (16 * 1024) in
  kstore (snd r) data ;;;
  let* text := gets (λ s, kstr s data) in
  let* line := while_ (credits_round text) (mk_pager 0 0 0 false) in
  (let* n := strlen (advance line text) in
   if negb (text line =? 0) then printf "%s\n" (take_bytes (advance line text) n) else ret tt) ;;;
  kern (free data).

Definition fireworks_round (i : Z) : M sys (Z + unit) :=
  if i <? 64 * 1024 then
    (if i mod 100 =? 0 then printf "FIREWORKS: Spawning #%d\n" [i] else ret tt) ;;;
    let* tsc := read_tsc in
    let sleep_time := tsc mod 1 + 1 in
    start_app "/hello_world.elf" ;;;
    timer_blocking_sleep_ms sleep_time ;;;
    (if i mod 10 =? 0 then schedule_now elapsed else ret tt) ;;;
    ret (inl (i + 1))
  else ret (inr tt).

Definition is_command (name : string) (cmd : list Z) : M sys bool :=
  let* c := strcmp (lit name) (of_list (to_upper cmd)) in ret (c =? 0).

Notation "'if_command' n c 'then' a 'else' b" := (let* hit := is_command n c in if hit then a else b)
  (at level 10, n at level 0, c at level 0, a at level 200, b at level 200).

Definition execute_commands (cmd : list Z) : M sys unit :=
  if_command "TEST" cmd then test_command
  else if_command "CREDITS" cmd then credits_command
  else if_command "MMAP" cmd then printMemoryMap memmap
  else if_command "BADAPPLE" cmd then
    (start_app "/badapple.elf" ;;; printf "Started playing BAD APPLE in userspace\n" [])
  else if_command "HELLO" cmd then
    (start_app "/hello_world.elf" ;;; printf "Started playing HELLO in userspace\n" [])
  else if_command "FIREWORKS" cmd then
    (printf "Started fireworks test with HELLO.elf {64k Iterations; 1ms delay}\n" [] ;;; while_ fireworks_round 0)
  else if_command "DOOM" cmd then
    (start_app "/doomgeneric.elf" ;;; printf "Started playing DOOM in userspace\n" [])
  else if_command "BASH" cmd then
    (start_app "/bash.elf" ;;;
     printf "Replacing shell with bash\n" [] ;;;
     put_current (λ t, set_sleep t 999999999999999) ;;;
     schedule_now elapsed)
  else if_command "CLEAR" cmd then printf "\x1b[2J\x1b[H" []
  else if_command "CLS" cmd then printf "\x1b[2J\x1b[H" []
  else if_command "SMASH" cmd then panic "UBSAN: Out of bounds"
  else if_command "PANIC" cmd then panic "You asked for this lmao"
  else if_command "FAULT" cmd then panic "UBSAN: Type missmatch"   (* a misaligned store *)
  else if_command "MOUSE_TEST" cmd then
    (let* w := rd FB_WIDTH in let* h := rd FB_HEIGHT in kern (enable_mouse_test w h))
  else if_command "" cmd then ret tt
  else printf "Invalid Command: %s\n" cmd.

(** * The line editor: the state of [start_shell] *)
Record shell_t := mk_shell { typingBuffer : list Z; typingBufferIndex : Z; newLineStarted : bool; noKeysLeft : bool }.
Definition shell0 : shell_t := mk_shell (replicate 64 0) 0 true false.

(** What a key does to the line: [Some] is a line to execute. *)
Definition shell_key (key : Z) (sh : shell_t) : shell_t * option (list Z) :=
  let i := typingBufferIndex sh in
  if (key =? 8) || (key =? 0x7F) then
    if -1 <? i - 1 then
      (mk_shell (<[Z.to_nat (i - 1) := 0]> (typingBuffer sh)) (i - 1) (newLineStarted sh) (noKeysLeft sh), None)
    else (sh, None)
  else if (key =? 10) || (key =? 13) then
    (mk_shell (replicate 64 0) 0 true (noKeysLeft sh), Some (typingBuffer sh))
  else if negb (key =? 0) && (i + 1 <=? 63) then
    (mk_shell (<[Z.to_nat i := key]> (typingBuffer sh)) (i + 1) (newLineStarted sh) (noKeysLeft sh), None)
  else (sh, None).

(** What the key echoes. *)
Definition shell_echo (key : Z) (sh : shell_t) : M sys unit :=
  let i := typingBufferIndex sh in
  if (key =? 8) || (key =? 0x7F) then (if -1 <? i - 1 then printf "\b \b" [] else ret tt)
  else if (key =? 10) || (key =? 13) then printf "\n" []
  else if negb (key =? 0) && (i + 1 <=? 63) then printf "%c" [key]
  else ret tt.

(** The buffer up to its terminator. *)
Fixpoint c_string (l : list Z) : list Z :=
  match l with
  | [] => []
  | c :: l' => if c =? 0 then [] else c :: c_string l'
  end.

(** One round of [start_shell]. *)
Definition shell_round (sh : shell_t) : M sys shell_t :=
  (if noKeysLeft sh then schedule_now elapsed else ret tt) ;;;
  (if newLineStarted sh then printf "\x1b[2K\r" [] ;;; printf "Kernel Shell> " [] else ret tt) ;;;
  let* r := fs_read (lit "/dev/kbd") 1 in
  let key := of_list (snd r) 0 in
  let sh := mk_shell (typingBuffer sh) (typingBufferIndex sh) false (key =? 0) in
  shell_echo key sh ;;;
  let '(sh', line) := shell_key key sh in
  (match line with
   | Some l => execute_commands (c_string l)
   | None => ret tt
   end) ;;;
  ret sh'.
End shell.
