(* ===== verification/TimersInv.v ===== *)
(** Sleeping on a free-running counter: the PIT driver waits long enough on any
    timer chip that counts, and the ACPI driver's arithmetic at the wrap of its
    24-bit counter. *)
From stdpp Require Import base tactics list gmap strings.
From Stdlib Require Import ZArith Lia.
From S2P Require Import Prelude Bits State Io Str Cpu Timers Apic Serial IoInv.

(** * The PIT *)

(** The chip counts from [d] down to 1 and starts again. *)
Definition counter (d t : Z) : Z := d - t mod d.

Lemma pit_delta_exact d t t' :
  0 < d < 2 ^ 32 → t <= t' < t + d → pit_delta d (counter d t) (counter d t') = t' - t.
Proof.
  intros Hd Ht. unfold pit_delta, counter.
  pose proof (Z.mod_pos_bound t d ltac:(lia)). pose proof (Z.mod_pos_bound t' d ltac:(lia)).
  pose proof (Z.div_mod t d ltac:(lia)). pose proof (Z.div_mod t' d ltac:(lia)).
  assert (t' / d = t / d ∨ t' / d = t / d + 1) as Hq by nia.
  destruct (Z.ltb_spec (d - t mod d) (d - t' mod d)) as [Hlt|Hge].
  - unfold u32. rewrite (Z.mod_small (d - (d - t' mod d))) by lia. rewrite Z.mod_small by lia.
    destruct Hq as [Hq|Hq]; rewrite Hq in *; nia.
  - destruct Hq as [Hq|Hq]; rewrite Hq in *; nia.
Qed.

Definition pit_reads : list event := [In8 0x40; In8 0x40; Out8 0x43 0].

(** A chip programmed with divisor [d]: it latches its counter, gives the two
    bytes, and time passes between two readings, but less than one period. *)
Record pit_chip `{Hardware} (d : Z) (clock : list event → Z) : Prop := {
  pit_lo : ∀ l, hw_read (Out8 0x43 0 :: l) (In8 0x40) mod 2 ^ 8 = counter d (clock l) mod 256;
  pit_hi : ∀ l, hw_read (In8 0x40 :: Out8 0x43 0 :: l) (In8 0x40) mod 2 ^ 8 = counter d (clock l) / 256;
  pit_passes : ∀ l, clock l < clock (pit_reads ++ l) < clock l + d
}.

Section pit.
Context `{Hardware} (d : Z) (clock : list event → Z) (chip : pit_chip d clock).
Hypothesis Hd : 100 <= d <= 65535.
Set Default Proof Using "All".

Lemma read_pit_count_ok s :
  read_pit_count s = Ok (counter d (clock (s_log s)), logged pit_reads s).
Proof.
  unfold read_pit_count, bind. rewrite outb_logged, inb_logged, s_log_logged. cbn [app].
  rewrite inb_logged, !logged_app, s_log_logged. cbn [app].
  change (u16 67) with 67. change (u8 0) with 0. change (u16 64) with 64.
  rewrite (pit_lo _ _ chip), (pit_hi _ _ chip). unfold ret, pit_reads. do 2 f_equal.
  unfold counter. set (c := d - clock (s_log s) mod d).
  assert (0 <= c < 65536) by (pose proof (Z.mod_pos_bound (clock (s_log s)) d); lia).
  rewrite Z.shiftl_mul_pow2 by lia. pose proof (Z.add_lor_land (c mod 256) (c / 256 * 2 ^ 8)) as Hor.
  assert (Z.land (c mod 256) (c / 256 * 2 ^ 8) = 0) as Hz.
  { apply Z.bits_inj'. intros n Hn. rewrite Z.land_spec, Z.bits_0, <- Z.shiftl_mul_pow2 by lia.
    destruct (Z.ltb_spec n 8).
    - by rewrite Z.shiftl_spec_low, andb_false_r.
    - change 256 with (2 ^ 8). by rewrite Z.mod_pow2_bits_high. }
  rewrite Hz in Hor. pose proof (Z.div_mod c 256). lia.
Qed.

Definition pit_inv (s : sys) (start wanted : Z) (n : Z) (st : Z * Z) (s1 : sys) : Prop :=
  ∃ l0, s1 = logged (pit_reads ++ l0) s ∧ let now := clock (l0 ++ s_log s) in
    st = (now - start, counter d now) ∧ start <= now ∧ now - start < wanted + d ∧ n = Z.max 0 (wanted - (now - start)).

Lemma wp_pit_while s s1 start wanted st :
  0 <= wanted → wanted + d < 2 ^ 32 → pit_inv s start wanted wanted st s1 →
  wp (while_ (pit_round wanted d) st) s1 (λ _ s2, ∃ l, s2 = logged l s ∧ wanted <= clock (l ++ s_log s) - start).
Proof.
  intros Hw Hb Hinit.
  apply (wp_while _ (pit_inv s start wanted) _) with (n := wanted); [|lia|done].
  clear Hinit st s1. intros n st s1 _ (l0 & -> & -> & Hle & Hlt & ->). unfold pit_round.
  set (now := clock (l0 ++ s_log s)) in *.
  destruct (Z.ltb_spec (now - start) wanted) as [Hlt'|Hge].
  - apply wp_bind. eapply wp_ok; [apply read_pit_count_ok|]. apply wp_ret.
    rewrite s_log_logged, <- app_assoc. pose proof (pit_passes _ _ chip (l0 ++ s_log s)) as Hp. fold now in Hp.
    set (now' := clock (pit_reads ++ l0 ++ s_log s)) in *.
    rewrite pit_delta_exact by lia.
    replace (u32 _) with (now' - start) by (unfold u32; rewrite Z.mod_small; lia).
    exists (Z.max 0 (wanted - (now' - start))). split; [lia|].
    exists (pit_reads ++ l0). rewrite logged_app, <- app_assoc. fold now'. split; [done|].
    split; [done|]. lia.
  - apply wp_ret. exists (pit_reads ++ l0). split; [done|]. rewrite <- app_assoc.
    pose proof (pit_passes _ _ chip (l0 ++ s_log s)) as Hp. fold now in Hp. lia.
Qed.
End pit.

(** The accesses that program the chip. *)
Definition pit_program (d : Z) : list event :=
  [io_pause; Out8 PIT_CHANNEL0_PORT (Z.land (Z.shiftr d 8) 0xFF); io_pause;
   io_pause; Out8 PIT_CHANNEL0_PORT (Z.land d 0xFF); io_pause;
   io_pause; Out8 PIT_CONTROL_PORT 0x34; io_pause].

Lemma pit_wanted_bound ms :
  0 <= ms <= 3599500 → pit_wanted_ticks ms = (ms * PIT_FREQUENCY + 999) / 1000 ∧ pit_wanted_ticks ms + 65535 < 2 ^ 32.
Proof.
  intros Hms. unfold pit_wanted_ticks, PIT_FREQUENCY.
  rewrite (u64_id (ms * 1193182)) by (unfold is_u64; lia). rewrite (u64_id (_ + 999)) by (unfold is_u64; lia).
  assert ((ms * 1193182 + 999) / 1000 <= 4294858610) by (apply Z.div_le_upper_bound; lia).
  assert (0 <= (ms * 1193182 + 999) / 1000) by (apply Z.div_pos; lia).
  unfold u32. rewrite Z.mod_small by lia. lia.
Qed.

Lemma pit_divisor_bound w : 100 <= pit_divisor w <= 65535.
Proof. unfold pit_divisor. destruct (Z.ltb_spec 65535 w); cbn; [lia|]. destruct (Z.ltb_spec w 100); lia. Qed.

(** (C27) Sleeping on the PIT for up to 3,599,500 milliseconds (the counter of
    ticks has 32 bits, and longer requests are cut off, see
    [pit_sleep_truncates]): on every chip that counts down and is read more than
    once in each of its periods, [pit_sleep_ms] returns, and between programming
    the chip and returning at least the requested number of milliseconds of timer
    ticks has passed. *)
Theorem pit_sleep_waits `{Hardware} (clock : list event → Z) (ms : Z) (s : sys) :
  0 <= ms <= 3599500 →
  pit_chip (pit_divisor (pit_wanted_ticks ms)) clock →
  ∃ l, pit_sleep_ms ms s = Ok (tt, logged l s) ∧
    ms * PIT_FREQUENCY <=
      1000 * (clock (l ++ s_log s) - clock (pit_program (pit_divisor (pit_wanted_ticks ms)) ++ s_log s)).
Proof.
  intros Hms chip. destruct (pit_wanted_bound ms Hms) as [Hw Hb].
  pose proof (pit_divisor_bound (pit_wanted_ticks ms)) as Hd.
  set (w := pit_wanted_ticks ms) in *. set (d := pit_divisor w) in *.
  assert (0 <= w) as Hw0 by (rewrite Hw; apply Z.div_pos; unfold PIT_FREQUENCY; lia).
  set (s1 := logged (pit_program d) s).
  assert (wp (pit_sleep_ms ms) s (λ _ s2, ∃ l, s2 = logged l s ∧ w <= clock (l ++ s_log s) - clock (s_log s1))) as Hwp.
  { unfold pit_sleep_ms. fold w. fold d.
    assert (∀ v, 0 <= Z.land v 255 → u8 (Z.land v 0xFF) = Z.land v 0xFF) as Hu8.
    { intros v _. unfold u8. change 255 with (Z.ones 8). rewrite Z.land_ones by lia. by rewrite Z.mod_mod by lia. }
    do 3 (apply wp_bind; eapply wp_ok; [apply outbd_logged|]). rewrite !logged_app. cbn [app].
    rewrite !Hu8 by (apply Z.land_nonneg; lia).
    change (u16 PIT_CHANNEL0_PORT) with PIT_CHANNEL0_PORT. change (u16 PIT_CONTROL_PORT) with PIT_CONTROL_PORT.
    change (u8 52) with 52. fold (pit_program d). fold s1.
    apply wp_bind. eapply wp_ok; [by apply (read_pit_count_ok d clock)|].
    eapply wp_mono; [apply (wp_pit_while d clock chip Hd s _ (clock (s_log s1)) w); [done|lia|]|].
    - exists (pit_program d). unfold s1 at 1. rewrite logged_app. split; [done|].
      change (pit_program d ++ s_log s) with (s_log s1). cbn zeta. rewrite Z.sub_diag. split; [done|]. lia.
    - intros u s2 Hpost. exact Hpost. }
  apply wp_inv in Hwp as ([] & s2 & E & l & -> & Hend). exists l. split; [done|].
  change (s_log s1) with (pit_program d ++ s_log s) in Hend.
  assert (ms * PIT_FREQUENCY <= 1000 * w); [|lia].
  rewrite Hw. pose proof (Z.div_mod (ms * PIT_FREQUENCY + 999) 1000).
  pose proof (Z.mod_pos_bound (ms * PIT_FREQUENCY + 999) 1000). lia.
Qed.

(** Above that the number of ticks is cut off at 32 bits: a request of 3,599,592
    milliseconds, an hour, waits for less than a second's worth of ticks. *)
Lemma pit_sleep_truncates : pit_wanted_ticks 3599592 < PIT_FREQUENCY.
Proof. reflexivity. Qed.

(** A chip for the witness: the counter falls by one with every access. *)
Definition tick_hw : Hardware := {|
  hw_read := λ l e,
    match e with
    | In8 _ =>
        match l with
        | In8 _ :: _ :: l' => counter 1194 (Z.of_nat (length l')) / 256
        | _ :: l' => counter 1194 (Z.of_nat (length l')) mod 256
        | [] => 0
        end
    | _ => 0
    end;
  hw_cpuid := λ _ _ _, mk_cpuid 0 0 0 0
|}.

Lemma tick_hw_chip : @pit_chip tick_hw 1194 (λ l, Z.of_nat (length l)).
Proof.
  assert (∀ t, 1 <= counter 1194 t <= 1194) as Hc.
  { intros t. unfold counter. pose proof (Z.mod_pos_bound t 1194). lia. }
  split; intros l.
  - cbn. change (2 ^ 8) with 256. by rewrite Z.mod_mod.
  - cbn. apply Z.mod_small. specialize (Hc (Z.of_nat (length l))).
    split; [apply Z.div_pos; lia|]. apply Z.div_lt_upper_bound; lia.
  - unfold pit_reads. rewrite length_app. cbn [length]. lia.
Qed.

Lemma pit_sleep_waits_witness :
  ∃ l, @pit_sleep_ms tick_hw 1 (sys0 (kernel0 0)) = Ok (tt, logged l (sys0 (kernel0 0))) ∧
    1 * PIT_FREQUENCY <=
      1000 * (Z.of_nat (length (l ++ [])) - Z.of_nat (length (pit_program (pit_divisor (pit_wanted_ticks 1)) ++ []))).
Proof. apply (@pit_sleep_waits tick_hw (λ l, Z.of_nat (length l)) 1 (sys0 (kernel0 0))); [lia|exact tick_hw_chip]. Defined.

(** * The ACPI timer *)

(** Between wraps the difference is the time that passed. *)
Lemma acpi_delta_between_wraps t t' :
  0 <= t <= t' → t' < 2 ^ 24 → acpi_tick_delta t t' = t' - t.
Proof. intros H1 H2. unfold acpi_tick_delta, u32. apply Z.mod_small. lia. Qed.

(** The ACPI timer has 24 bits, but the driver subtracts in 32: whenever
    the counter wraps between two readings, the computed difference exceeds
    2^32 - 2^24 ticks, and the next test of the loop ends a sleep of up to
    1,190,000 milliseconds at once, whatever was left of it. *)
Theorem acpi_sleep_ends_at_wrap `{Hardware} (ms ticks_elapsed last_tick : Z) (s : sys) :
  0 <= ms <= 1190000 → 0 <= ticks_elapsed < 2 ^ 63 → last_tick < 2 ^ 24 →
  let reading := Z.land (hw_read (s_log s) (In32 (u16 (s_var s acpi_timer_address))) mod 2 ^ 32) 0xFFFFFF in
  reading < last_tick →
  let needed := u64 (ACPI_TIMER_FREQUENCY * ms) / 1000 in
  ticks_elapsed < needed →
  ∃ elapsed' s', acpi_port_round needed (ticks_elapsed, last_tick) s = Ok (inl (elapsed', reading), s') ∧
    needed <= elapsed' ∧ acpi_port_round needed (elapsed', reading) s' = Ok (inr tt, s').
Proof.
  intros Hms Hel Hlast reading Hwrap needed Hneed.
  assert (0 <= reading) by (apply Z.land_nonneg; lia).
  assert (needed <= 4259658550) as Hn.
  { unfold needed, ACPI_TIMER_FREQUENCY. rewrite u64_id by (unfold is_u64; lia). apply Z.div_le_upper_bound; lia. }
  assert (acpi_tick_delta last_tick reading = reading - last_tick + 2 ^ 32) as Hdelta.
  { unfold acpi_tick_delta, u32. rewrite <- (Z.mod_add _ 1) by lia. rewrite Z.mod_small; lia. }
  assert (u64 (ticks_elapsed + acpi_tick_delta last_tick reading) = ticks_elapsed + (reading - last_tick + 2 ^ 32)) as Hu.
  { rewrite Hdelta. apply u64_id. unfold is_u64. lia. }
  exists (ticks_elapsed + (reading - last_tick + 2 ^ 32)), (logged [In32 (u16 (s_var s acpi_timer_address))] s).
  split; [|split; [lia|]].
  - unfold acpi_port_round. rewrite (proj2 (Z.ltb_lt _ _) Hneed).
    rewrite (bind_ok _ _ _ (s_var s acpi_timer_address) s) by done.
    rewrite (bind_ok _ _ _ (hw_read (s_log s) (In32 (u16 (s_var s acpi_timer_address))) mod 2 ^ 32)
      (logged [In32 (u16 (s_var s acpi_timer_address))] s)) by done.
    fold reading. rewrite Hu. done.
  - unfold acpi_port_round. destruct (Z.ltb_spec (ticks_elapsed + (reading - last_tick + 2 ^ 32)) needed); [lia|done].
Qed.

(** A timer that reads 0. *)
Definition zero_hw : Hardware := {| hw_read := λ _ _, 0; hw_cpuid := λ _ _ _, mk_cpuid 0 0 0 0 |}.

Lemma acpi_sleep_ends_at_wrap_witness :
  ∃ elapsed' s',
    @acpi_port_round zero_hw (u64 (ACPI_TIMER_FREQUENCY * 1000) / 1000) (5, 0xFFFFFF) (sys0 (kernel0 0))
      = Ok (inl (elapsed', 0), s') ∧
    u64 (ACPI_TIMER_FREQUENCY * 1000) / 1000 <= elapsed' ∧
    @acpi_port_round zero_hw (u64 (ACPI_TIMER_FREQUENCY * 1000) / 1000) (elapsed', 0) s' = Ok (inr tt, s').
Proof.
  apply (@acpi_sleep_ends_at_wrap zero_hw 1000 5 0xFFFFFF (sys0 (kernel0 0))); [lia|lia|lia|reflexivity|reflexivity].
Defined.
