(* ===== verification/CpuInv.v ===== *)
(** What the processor finds in the descriptor tables, and the debug registers. *)
From stdpp Require Import base tactics list gmap strings.
From Stdlib Require Import ZArith Lia.
From S2P Require Import Prelude Bits State Io Str Cpu Timers Apic Serial IoInv.

(** * Interrupt gates *)

(** The handler address as the processor puts it together. *)
Definition idt_target (e : IDTEntry) : Z :=
  offset_low e + Z.shiftl (offset_mid e) 16 + Z.shiftl (offset_high e) 32.

Definition gate (ist attr handler : Z) : IDTEntry :=
  mk_idt (Z.land handler 0xFFFF) 0x08 (u8 ist) (u8 attr)
    (Z.land (Z.shiftr handler 16) 0xFFFF) (u32 (Z.shiftr handler 32)) 0.

Lemma land_ones_mod a n : 0 <= n → Z.land a (2 ^ n - 1) = a mod 2 ^ n.
Proof. intros H. rewrite <- Z.land_ones by done. f_equal. by rewrite Z.ones_equiv, Z.sub_1_r. Qed.

(** Three fields of 16, 16 and 32 bits put together again. *)
Lemma gate_target ist attr h : is_u64 h → idt_target (gate ist attr h) = h.
Proof.
  intros Hh. unfold idt_target, gate. cbn [offset_low offset_mid offset_high].
  change 0xFFFF with (2 ^ 16 - 1). rewrite !land_ones_mod by lia. unfold u32.
  rewrite !Z.shiftl_mul_pow2, !Z.shiftr_div_pow2 by lia.
  rewrite (Z.mod_small (h / 2 ^ 32)); cycle 1.
  { unfold is_u64 in Hh. split; [apply Z.div_pos; lia|]. apply Z.div_lt_upper_bound; lia. }
  replace (2 ^ 32) with (2 ^ 16 * 2 ^ 16) by reflexivity. rewrite <- Z.div_div by lia.
  pose proof (Z.div_mod h (2 ^ 16)). pose proof (Z.div_mod (h / 2 ^ 16) (2 ^ 16)). lia.
Qed.

(** The stub each vector is sent to, and the stack it runs on. *)
Definition isr_of (v : Z) : Z :=
  if v =? 0x2C then 0x21
  else if bool_decide (v ∈ [0x01; 0x03; 0x08; 0x0D; 0x0E; 0x20; 0x21; 0x24; 0x27; 0x2F; 0xF0; 0xFF]) then v
  else 0x16.
Definition ist_of (v : Z) : Z := if (v =? 1) || (v =? 3) then 3 else if v =? 8 then 1 else 0.

Lemma set_idt_entry_ok index ist attr h s :
  0 <= index < 256 →
  set_idt_entry index ist attr h s = Ok (tt, with_idt s (<[Z.to_nat index := gate ist attr h]> (s_idt s))).
Proof.
  intros Hi. unfold set_idt_entry, index_ok.
  rewrite (proj2 (Z.leb_le _ _)), (proj2 (Z.ltb_lt _ _)) by lia. done.
Qed.

Lemma with_idt_twice s l l' : with_idt (with_idt s l) l' = with_idt s l'.
Proof. done. Qed.

Section idt.
Context `{Hardware} (sy : symbols).

Lemma idt_default_ok n i s :
  0 <= i → i + Z.of_nat n <= 256 →
  ∃ l, idt_default_loop sy n i s = Ok (tt, with_idt s l) ∧ length l = length (s_idt s) ∧
    ∀ j, l !! j = if decide (i <= Z.of_nat j < i + Z.of_nat n)
                  then (λ _, gate 0 0x8E (addr_isr sy 0x16)) <$> s_idt s !! j else s_idt s !! j.
Proof.
  revert i s. induction n as [|n IH]; intros i s Hi Hn; cbn [idt_default_loop].
  - exists (s_idt s). split; [by destruct s|]. split; [done|]. intros j. destruct (decide _); [lia|done].
  - rewrite (bind_ok _ _ _ _ _ (set_idt_entry_ok i 0 0x8E (addr_isr sy 0x16) s ltac:(lia))).
    destruct (IH (i + 1) (with_idt s (<[Z.to_nat i := gate 0 0x8E (addr_isr sy 0x16)]> (s_idt s)))) as (l & E & Hlen & Hl); [lia..|].
    exists l. rewrite E, with_idt_twice. split; [done|]. cbn [s_idt with_idt] in *. rewrite length_insert in Hlen.
    split; [done|]. intros j. rewrite Hl.
    destruct (decide (i = Z.of_nat j)) as [->|Hne].
    + rewrite Nat2Z.id, (decide_False (P := Z.of_nat j + 1 <= _ < _)), (decide_True (P := Z.of_nat j <= _ < _)) by lia.
      destruct (decide (j < length (s_idt s))%nat) as [Hlt|Hge].
      * rewrite list_lookup_insert_eq by done. by destruct (lookup_lt_is_Some_2 (s_idt s) j Hlt) as [x ->].
      * rewrite lookup_ge_None_2 by (rewrite length_insert; lia). by rewrite lookup_ge_None_2 by lia.
    + rewrite list_lookup_insert_ne by lia.
      destruct (decide (i + 1 <= _ < _)), (decide (i <= _ < _)); try lia; done.
Qed.

(** The whole table is the list of the gates, in the order of the vectors. *)
Definition idt_table : list IDTEntry := map (λ v, gate (ist_of v) 0x8E (addr_isr sy (isr_of v))) (seqZ 0 256).

Lemma setup_idt_table s :
  length (s_idt s) = 256%nat →
  setup_idt sy s = Ok (tt, with_log (with_idt s idt_table)
    ([Printf "IDT: IDT Setup\n" []; Lidt (addr_idt sy) (256 * 16 - 1)] ++ s_log s)).
Proof.
  intros Hlen. unfold setup_idt.
  destruct (idt_default_ok 256 0 s) as (l & E & Hl & Hlook); [lia..|].
  rewrite (bind_ok _ _ _ _ _ E).
  assert (l = replicate 256 (gate 0 0x8E (addr_isr sy 0x16))) as ->.
  { apply list_eq. intros j. rewrite Hlook. destruct (decide _) as [Hj|Hj].
    - rewrite lookup_replicate_2 by lia. destruct (lookup_lt_is_Some_2 (s_idt s) j) as [x ->]; [lia|done].
    - rewrite (lookup_ge_None_2 (s_idt s)) by lia. symmetry. apply lookup_ge_None_2. rewrite length_replicate. lia. }
  do 13 (erewrite bind_ok; [|apply set_idt_entry_ok; vm_compute; split; congruence]; rewrite with_idt_twice).
  cbn [s_idt with_idt]. unfold emit, printf, bind, modify. do 2 f_equal.
Qed.
End idt.

(** After [setup_idt] every one of the 256 gates leads to its handler: the
    address the processor assembles from the three fields is that of the stub for
    the vector, in the kernel's code segment, as a present interrupt gate; the
    debug traps and the double fault run on stacks of their own. *)
Theorem setup_idt_correct `{Hardware} (sy : symbols) (s : sys) :
  length (s_idt s) = 256%nat → (∀ v, is_u64 (addr_isr sy v)) →
  ∃ s', setup_idt sy s = Ok (tt, s') ∧
    ∀ v, 0 <= v < 256 → ∃ e, s_idt s' !! Z.to_nat v = Some e ∧
      idt_target e = addr_isr sy (isr_of v) ∧ selector e = 0x08 ∧ ist e = ist_of v ∧ type_attr e = 0x8E.
Proof.
  intros Hlen Hu. eexists. split; [by apply setup_idt_table|]. intros v Hv. cbn [s_idt with_log with_idt].
  unfold idt_table. rewrite list_lookup_fmap, lookup_seqZ_lt by lia. cbn [fmap option_fmap option_map].
  eexists. split; [done|]. rewrite Z2Nat.id by lia. rewrite Z.add_0_l, gate_target by apply Hu.
  split; [done|]. split; [done|]. split; [|done]. cbn [gate ist]. unfold ist_of.
  destruct (_ || _); [done|]. by destruct (v =? 8).
Qed.

Definition sy0 : symbols :=
  mk_symbols 0xffffffff80200000 0xffffffff80201000 0xffffffff80202000 0xffffffff80203000 0xffffffff80204000
    0xffffffff80206000 (λ v, 0xffffffff80000000 + 16 * (v mod 256)) 0xffffffff80300000 0xffffffff80301000 0xffffffff80302000
    0xffffffff80303000 0xffffffff80304000
    (0xffffffff80400000, 0xffffffff80400008, 0xffffffff80400009)
    (0xffffffff80400010, 0xffffffff80400020, 0xffffffff80400021).

Lemma setup_idt_correct_witness :
  ∃ s', @setup_idt sy0 (sys0 (kernel0 0)) = Ok (tt, s') ∧
    ∀ v, 0 <= v < 256 → ∃ e, s_idt s' !! Z.to_nat v = Some e ∧
      idt_target e = addr_isr sy0 (isr_of v) ∧ selector e = 0x08 ∧ ist e = ist_of v ∧ type_attr e = 0x8E.
Proof.
  apply (@setup_idt_correct {| hw_read := λ _ _, 0; hw_cpuid := λ _ _ _, mk_cpuid 0 0 0 0 |} sy0 (sys0 (kernel0 0))); [reflexivity|].
  intros v. unfold is_u64, sy0. cbn [addr_isr]. pose proof (Z.mod_pos_bound v 256 ltac:(lia)). lia.
Defined.

(** * The segment table *)

(** The base address of a system descriptor of two entries. *)
Definition gdt_base (lo : GDTGDTEntry) (hi : Z) : Z :=
  base_low lo + Z.shiftl (base_mid lo) 16 + Z.shiftl (base_high lo) 24 + Z.shiftl hi 32.
Definition gdt_limit (e : GDTGDTEntry) : Z := limit_low e + Z.shiftl (limit_high e) 16.
Definition segment (access flags : Z) : GDTEntry := gdt_entry (mk_gdt 0 0 0 access 0 flags 0).

Lemma bind_modify {S A} (f : S → S) (k : unit → M S A) s : bind (modify f) k s = k tt (f s).
Proof. done. Qed.
Lemma bind_bind {S A B C} (m : M S A) (f : A → M S B) (g : B → M S C) s :
  bind (bind m f) g s = bind m (λ a, bind (f a) g) s.
Proof. unfold bind. by destruct (m s) as [[a s1]| |]. Qed.
Lemma wrmsr_zero (m : MSRs) s : (m =? FSBAS) = false → wrmsr m 0 s = Ok (tt, logged [Wrmsr m 0] s).
Proof. intros Hm. unfold wrmsr. rewrite Hm. done. Qed.

(** After [setup_gdt] the table holds the six flat segments and a task
    descriptor whose base, put together by the processor, is the address of the
    task state and whose limit is its size less one; the table is loaded before
    the segment registers and the task register, and both GS bases are zero. *)
Theorem setup_gdt_correct `{Hardware} (sy : symbols) (s : sys) :
  length (s_gdt s) = 8%nat → 0 <= addr_tss sy →
  ∃ s' lo hi, setup_gdt sy s = Ok (tt, s') ∧
    s_gdt s' = [segment 0 0; segment 0x9A 0xA; segment 0x92 0xC; segment 0xFA 0xC; segment 0xF2 0xC; segment 0xFA 0xA;
                gdt_entry lo; tss_addr hi] ∧
    gdt_base lo hi = addr_tss sy ∧ gdt_limit lo = SIZEOF_TSS - 1 ∧ access lo = 0x89 ∧
    s_log s' = [Printf "GDT: GDT Setup\n" []; Wrmsr KGSBAS 0; Wrmsr UGSBAS 0; Ltr 0x30; ReloadSegments;
                Lgdt (addr_gdt sy) 63] ++ s_log s.
Proof.
  intros Hlen Hb. destruct s as [k log var fn ioa ov gdt idt tss sb hb lb fi sc st]. cbn in Hlen.
  do 8 (destruct gdt as [|? gdt]; [done|]). destruct gdt; [|done].
  unfold setup_gdt, gdt_set_tss, gdt_fill_entry, put_gdt, printf, emit.
  repeat first [rewrite bind_modify; cbv beta | rewrite bind_bind; cbv beta].
  rewrite (bind_ok _ _ _ _ _ (wrmsr_zero UGSBAS _ eq_refl)), (bind_ok _ _ _ _ _ (wrmsr_zero KGSBAS _ eq_refl)).
  eexists _, _, _. split; [reflexivity|]. split; [reflexivity|]. split; [|repeat split].
  unfold gdt_base. cbn [base_low base_mid base_high].
  change 0xffff with (2 ^ 16 - 1). change 0xff with (2 ^ 8 - 1). rewrite !land_ones_mod by lia.
  rewrite !Z.shiftl_mul_pow2, !Z.shiftr_div_pow2 by lia. set (a := addr_tss sy).
  replace (2 ^ 32) with (2 ^ 16 * 2 ^ 8 * 2 ^ 8) by reflexivity. replace (2 ^ 24) with (2 ^ 16 * 2 ^ 8) by reflexivity.
  rewrite <- !Z.div_div by lia.
  pose proof (Z.div_mod a (2 ^ 16)). pose proof (Z.div_mod (a / 2 ^ 16) (2 ^ 8)).
  pose proof (Z.div_mod (a / 2 ^ 16 / 2 ^ 8) (2 ^ 8)). lia.
Qed.

Lemma setup_gdt_correct_witness :
  ∃ s' lo hi, @setup_gdt sy0 (sys0 (kernel0 0)) = Ok (tt, s') ∧
    s_gdt s' = [segment 0 0; segment 0x9A 0xA; segment 0x92 0xC; segment 0xFA 0xC; segment 0xF2 0xC; segment 0xFA 0xA;
                gdt_entry lo; tss_addr hi] ∧
    gdt_base lo hi = addr_tss sy0 ∧ gdt_limit lo = SIZEOF_TSS - 1 ∧ access lo = 0x89 ∧
    s_log s' = [Printf "GDT: GDT Setup\n" []; Wrmsr KGSBAS 0; Wrmsr UGSBAS 0; Ltr 0x30; ReloadSegments;
                Lgdt (addr_gdt sy0) 63] ++ [].
Proof.
  apply (@setup_gdt_correct {| hw_read := λ _ _, 0; hw_cpuid := λ _ _ _, mk_cpuid 0 0 0 0 |} sy0 (sys0 (kernel0 0)));
    [reflexivity|cbn; lia].
Defined.

(** * Debug registers *)

(** [drx_cnc_bp] is meant to check and clear the debug status, but both of
    its instructions read DR6: it reports a hit when one of the four condition
    bits is set and never writes the register, so a hit is reported again and
    again. *)
Theorem drx_cnc_bp_never_clears `{Hardware} (s : sys) :
  ∃ l, drx_cnc_bp s = Ok (negb (Z.land (hw_read (s_log s) (Rddr 6) mod 2 ^ 64) 0xF =? 0), logged l s) ∧
    ∀ n v, Wrdr n v ∉ l.
Proof.
  exists [Rddr 6; Rddr 6]. split; [by destruct s|]. intros n v. rewrite !elem_of_cons, elem_of_nil. naive_solver.
Qed.
