(* ===== verification/UaccessInv.v ===== *)
(** User memory: the checks, what a copy may change, and the length of a user
    string. *)
From stdpp Require Import base tactics list gmap strings.
From Stdlib Require Import ZArith Lia.
From S2P Require Import Prelude Bits State Vmm Vma Io Cpu Uaccess.

(** States that differ in memory, and in the AC flag. *)
Definition with_mem (s : sys) (m : mem_t) : sys := with_k s (set_mem (s_k s) m).
Definition with_ac (s : sys) (b : bool) : sys := with_k s (set_cpu (s_k s) (set_ac (k_cpu (s_k s)) b)).

Lemma with_mem_id s : with_mem s (k_mem (s_k s)) = s.
Proof. by destruct s as [[]]. Qed.
Lemma with_mem_mem s m m' : with_mem (with_mem s m) m' = with_mem s m'.
Proof. done. Qed.
Lemma with_mem_ac s m b : with_mem (with_ac s b) m = with_ac (with_mem s m) b.
Proof. done. Qed.
Lemma with_ac_ac s b b' : with_ac (with_ac s b) b' = with_ac s b'.
Proof. done. Qed.

Lemma set_ac_ok s : rflags_set_ac s = Ok (tt, if smap_on s then with_ac s true else s).
Proof. unfold rflags_set_ac, rd, smap_on. cbn. by destruct (_ =? 0). Qed.
Lemma clr_ac_ok s : rflags_clr_ac s = Ok (tt, if smap_on s then with_ac s false else s).
Proof. unfold rflags_clr_ac, rd, smap_on. cbn. by destruct (_ =? 0). Qed.

(** The state after a copy: new memory, AC clear if SMAP is in use. *)
Definition copied (s : sys) (m : mem_t) : sys := if smap_on s then with_ac (with_mem s m) false else with_mem s m.

(** * The copying loop

    [pd] and [ps] are the physical addresses of the bytes of the destination and
    of the source; the first [n] of them are accessible. *)
Definition only_at (n : nat) (pd : nat → Z) (m m0 : mem_t) : Prop :=
  ∀ a, (∀ i, (i < n)%nat → a ≠ pd i) → read8 m a = read8 m0 a.

Definition at_off (p : Z) (i : nat) : Z := u64 (p + Z.of_nat i).

Record accessible (smap : bool) (k : kernel) (dst src : Z) (n : nat) (pd ps : nat → Z) : Prop := {
  acc_dst i : (i < n)%nat → resolve smap k true (at_off dst i) = Some (pd i);
  acc_src i : (i < n)%nat → resolve smap k false (at_off src i) = Some (ps i);
  acc_inj i j : (i < n)%nat → (j < n)%nat → pd i = pd j → i = j;
  acc_disjoint i j : (i < n)%nat → (j < n)%nat → pd i ≠ ps j;
  (* no page table that matters is part of the destination *)
  acc_stable m i : only_at n pd m (k_mem k) → (i <= n)%nat →
    resolve smap (set_mem k m) true (at_off dst i) = resolve smap k true (at_off dst i) ∧
    resolve smap (set_mem k m) false (at_off src i) = resolve smap k false (at_off src i)
}.

(** The copy of [len] bytes stops at [n]: at its end, or at a fault. *)
Definition stops_at (smap : bool) (k : kernel) (dst src : Z) (n len : nat) : Prop :=
  n = len ∨ (n < len)%nat ∧
    (resolve smap k true (at_off dst n) = None ∨ resolve smap k false (at_off src n) = None).

Lemma at_off_succ p i : u64 (at_off p i + 1) = at_off p (S i).
Proof. unfold at_off. rewrite u64_add_l. f_equal. lia. Qed.

Section copy_loop.
Context (s : sys) (dst src : Z) (n len : nat) (pd ps : nat → Z).
Context (Hacc : accessible (smap_on s) (s_k s) dst src n pd ps).
Context (Hstop : stops_at (smap_on s) (s_k s) dst src n len).
Set Default Proof Using "All".

Definition progress (i : nat) (m : mem_t) : Prop :=
  only_at n pd m (k_mem (s_k s)) ∧ ∀ j, (j < i)%nat → read8 m (pd j) = read8 (k_mem (s_k s)) (ps j).

Lemma progress_step i m :
  (i < n)%nat → progress i m → progress (S i) (write8 m (pd i) (read8 m (ps i))).
Proof.
  intros Hi [Ho Hj].
  assert (read8 m (ps i) = read8 (k_mem (s_k s)) (ps i)) as Hv.
  { apply Ho. intros j Hjn Heq. by apply (acc_disjoint _ _ _ _ _ _ _ Hacc j i). }
  split.
  - intros a Ha. rewrite read8_write8. destruct (Z.eqb_spec a (pd i)) as [->|]; [by destruct (Ha i)|by apply Ho].
  - intros j Hlt. rewrite read8_write8. destruct (Z.eqb_spec (pd j) (pd i)) as [E|E].
    + apply (acc_inj _ _ _ _ _ _ _ Hacc) in E as ->; [|lia..].
      rewrite Hv. apply Z.mod_small, read8_range.
    + destruct (decide (j = i)) as [->|]; [done|]. apply Hj. lia.
Qed.

Lemma safe_memcpy_prefix r i m :
  (i + r = len)%nat → (i <= n)%nat → progress i m →
  ∃ m', safe_memcpy_asm r (at_off dst i) (at_off src i) (with_mem s m) = Ok (bool_decide (n = len), with_mem s m') ∧
    progress n m'.
Proof.
  revert i m. induction r as [|r IH]; intros i m Hlen Hi Hp.
  { assert (i = n ∧ n = len) as [-> ->] by (destruct Hstop as [|[]]; lia).
    exists m. by rewrite bool_decide_eq_true_2. }
  destruct (acc_stable _ _ _ _ _ _ _ Hacc m i (proj1 Hp) Hi) as [Hd Hs].
  cbn [safe_memcpy_asm]. unfold bind at 1, try_load8, gets.
  change (smap_on (with_mem s m)) with (smap_on s). change (s_k (with_mem s m)) with (set_mem (s_k s) m). rewrite Hs.
  destruct (decide (i = n)) as [->|Hne].
  - destruct Hstop as [->|[Hlt Hf]]; [lia|]. rewrite bool_decide_eq_false_2 by lia. exists m.
    destruct (resolve (smap_on s) (s_k s) false (at_off src n)) as [pa|] eqn:Ef; [|split; [reflexivity|done]].
    destruct Hf as [Hf|[=]]. unfold bind at 1, try_store8.
    change (smap_on (with_mem s m)) with (smap_on s). change (s_k (with_mem s m)) with (set_mem (s_k s) m). rewrite Hd, Hf. split; [reflexivity|done].
  - rewrite (acc_src _ _ _ _ _ _ _ Hacc i) by lia. unfold bind at 1, try_store8.
    change (smap_on (with_mem s m)) with (smap_on s). change (s_k (with_mem s m)) with (set_mem (s_k s) m).
    rewrite Hd, (acc_dst _ _ _ _ _ _ _ Hacc i) by lia. rewrite !at_off_succ.
    apply (IH (S i)); [lia|lia|]. apply progress_step; [lia|done].
Qed.
End copy_loop.

(** The state while a copy runs: AC set if SMAP is in use. *)
Definition ac_open (s : sys) : sys := if smap_on s then with_ac s true else s.

(** The part of the two copy routines behind the range check. *)
Lemma guarded_copy_ok s dst src n len pd ps :
  is_u64 dst → is_u64 src →
  accessible (smap_on s) (s_k (ac_open s)) dst src n pd ps →
  stops_at (smap_on s) (s_k (ac_open s)) dst src n len →
  ∃ m, (rflags_set_ac ;;;
    let* ok := safe_memcpy_asm len dst src in
    if negb ok then rflags_clr_ac ;;; ret (-1) else rflags_clr_ac ;;; ret 0) s
    = Ok (if decide (n = len) then 0 else -1, copied s m) ∧
    progress s n pd ps n m.
Proof.
  intros Hd Hs Hacc Hstop. rewrite (bind_ok _ _ _ _ _ (set_ac_ok s)). fold (ac_open s).
  assert (smap_on (ac_open s) = smap_on s) as Hsm by (unfold ac_open; by destruct (smap_on s) eqn:?).
  rewrite <- Hsm in Hacc, Hstop.
  assert (k_mem (s_k (ac_open s)) = k_mem (s_k s)) as Hmem by (unfold ac_open; by destruct (smap_on s)).
  destruct (safe_memcpy_prefix _ _ _ _ _ _ _ Hacc Hstop len 0 (k_mem (s_k (ac_open s)))) as (m & E & Hp); [lia..|by split; [|lia]|].
  unfold at_off in E. rewrite !Z.add_0_r, !u64_id, with_mem_id in E by done.
  exists m. rewrite (bind_ok _ _ _ _ _ E).
  split; [|destruct Hp as [Ho Hj]; rewrite Hmem in Ho, Hj; by split].
  assert ((if smap_on (with_mem (ac_open s) m) then with_ac (with_mem (ac_open s) m) false else with_mem (ac_open s) m) = copied s m) as Hc.
  { change (smap_on (with_mem (ac_open s) m)) with (smap_on (ac_open s)). rewrite Hsm. unfold copied, ac_open. by destruct (smap_on s). }
  case_decide; [rewrite bool_decide_eq_true_2 by done|rewrite bool_decide_eq_false_2 by done]; cbn [negb];
    rewrite (bind_ok _ _ _ _ _ (clr_ac_ok _)), Hc; done.
Qed.

(** What the range check means. *)
Definition in_kernel (p len : Z) : Prop := KERNEL_BASE <= p ∧ p + len < 2 ^ 64.

#[export] Instance in_kernel_dec p len : Decision (in_kernel p len).
Proof. unfold in_kernel. apply _. Defined.

Lemma is_kernel_range_decide p len :
  is_u64 p → is_u64 len → is_kernel_range p len = bool_decide (in_kernel p len).
Proof.
  intros Hp Hl. destruct (is_kernel_range p len) eqn:E.
  - symmetry. apply bool_decide_eq_true_2. by apply kernel_range_spec.
  - symmetry. apply bool_decide_eq_false_2. intros Hin. apply (proj2 (kernel_range_spec p len Hp Hl)) in Hin. congruence.
Qed.

(** An address that can be accessed is in one of the halves. *)
Lemma resolve_canonical smap k w va pa : resolve smap k w va = Some pa → va < USER_TOP ∨ KERNEL_BASE <= va.
Proof.
  unfold resolve. destruct (canonical va) eqn:Hc; [intros _|done]. apply orb_prop in Hc as [Hc|Hc]; [left; by apply Z.ltb_lt|right; by apply Z.leb_le].
Qed.

(** A destination that begins below the kernel's half is written at user
    addresses only: the addresses between the halves fault. *)
Lemma accessible_user smap k dst src n pd ps i :
  0 <= dst < KERNEL_BASE → accessible smap k dst src n pd ps → (i < n)%nat → at_off dst i = dst + Z.of_nat i ∧ dst + Z.of_nat i < USER_TOP.
Proof.
  intros Hd Hacc. assert (USER_TOP < KERNEL_BASE ∧ KERNEL_BASE + 1 < 2 ^ 64) as HK by done.
  assert (∀ i, (i < n)%nat → dst + Z.of_nat i < KERNEL_BASE → at_off dst i = dst + Z.of_nat i ∧ dst + Z.of_nat i < USER_TOP) as Hlow.
  { intros i' Hi Hk. assert (at_off dst i' = dst + Z.of_nat i') as E by (apply u64_id; unfold is_u64; lia). split; [done|].
    destruct (resolve_canonical _ _ _ _ _ (acc_dst _ _ _ _ _ _ _ Hacc _ Hi)); lia. }
  induction i as [|i IH]; intros Hi; [apply Hlow; lia|]. destruct (IH ltac:(lia)) as [_ H]. apply Hlow; lia.
Qed.

(** (C24) [copy_to_user], on every call.  It is refused without any effect exactly
    when the destination begins in the kernel's half and does not wrap around, or
    the source does not lie in the kernel's half.  Otherwise exactly the leading
    [n] bytes that are accessible are copied, nothing else in memory changes, the
    result is 0 when these are all [len] bytes and -1 when an access faults, and
    AC is clear again when SMAP is in use.  A destination below the kernel's half
    is written at user addresses only.  (A destination in the kernel's half whose
    range wraps around is not refused, see [wrapping_kernel_pointer_accepted].) *)
Theorem copy_to_user_correct (udst ksrc len : Z) (s : sys) :
  is_u64 udst → is_u64 ksrc → is_u64 len →
  (KERNEL_BASE <= udst ∧ udst + len < 2 ^ 64 ∨ ¬ (KERNEL_BASE <= ksrc ∧ ksrc + len < 2 ^ 64) → copy_to_user udst ksrc len s = Ok (-1, s)) ∧
  (udst < KERNEL_BASE ∨ 2 ^ 64 <= udst + len → KERNEL_BASE <= ksrc → ksrc + len < 2 ^ 64 → ∀ n pd ps,
    accessible (smap_on s) (s_k (ac_open s)) udst ksrc n pd ps →
    stops_at (smap_on s) (s_k (ac_open s)) udst ksrc n (Z.to_nat len) →
    ∃ m, copy_to_user udst ksrc len s = Ok (if decide (n = Z.to_nat len) then 0 else -1, copied s m) ∧
      (∀ i, (i < n)%nat → read8 m (pd i) = read8 (k_mem (s_k s)) (ps i)) ∧
      only_at n pd m (k_mem (s_k s)) ∧
      (udst < KERNEL_BASE → ∀ i, (i < n)%nat → at_off udst i = udst + Z.of_nat i ∧ udst + Z.of_nat i < USER_TOP)).
Proof.
  intros Hd Hk Hl. unfold copy_to_user, is_user_range. rewrite !is_kernel_range_decide by done. split.
  - intros [Hin|Hin]; [by rewrite bool_decide_eq_true_2|].
    rewrite (bool_decide_eq_false_2 (in_kernel ksrc len)) by done. by rewrite orb_true_r.
  - intros Hud Hks1 Hks2 n pd ps Hacc Hstop.
    rewrite (bool_decide_eq_false_2 (in_kernel udst len)), (bool_decide_eq_true_2 (in_kernel ksrc len)) by (unfold in_kernel; lia).
    destruct (guarded_copy_ok s udst ksrc n _ pd ps Hd Hk Hacc Hstop) as (m & E & Ho & Hj). exists m. split_and!; try done.
    intros Hlow i. apply (accessible_user _ _ _ _ _ _ _ _ (conj (proj1 Hd) Hlow) Hacc).
Qed.

(** A user page at 0x400000 in the frame 0x20000, its neighbour unmapped, and
    SMAP in use. *)
Module UserPage.
Definition mem : mem_t :=
  write64 (write64 (write64 (write64 (write64 (λ _, 0)
    0x1000 0x2007) 0x2000 0x3007) 0x3010 0x4007) 0x4000 0x20007) 0x10000 0x1122334455667788.
Definition st : sys :=
  let k := kernel0 0xffff800000000000 in
  with_var (sys0 (set_mem (set_cpu k (set_cr3 (k_cpu k) 0x1000)) mem)) (upd_var var0 cr4_smap_enabled 1).
Definition pd (i : nat) : Z := 0x20ffc + Z.of_nat i.
Definition ps (i : nat) : Z := 0x10000 + Z.of_nat i.

Lemma walk_stable m i :
  (∀ a, a < 0x20000 → read8 m a = read8 mem a) → (i <= 4)%nat →
  walk 4 m 0x1000 (0x400ffc + Z.of_nat i) = walk 4 mem 0x1000 (0x400ffc + Z.of_nat i).
Proof.
  intros Hm Hi.
  assert (∀ t j, t + 8 * j + 8 <= 0x20000 → entry m t j = entry mem t j) as He.
  { intros t j Ht. apply le_read_ext. intros x Hx. apply Hm. lia. }
  cbn [walk]. change (Z.of_nat 4) with 4. change (Z.of_nat 3) with 3. change (Z.of_nat 2) with 2. change (Z.of_nat 1) with 1.
  assert (pml_index 4 (0x400ffc + Z.of_nat i) = 0 ∧ pml_index 3 (0x400ffc + Z.of_nat i) = 0 ∧
    pml_index 2 (0x400ffc + Z.of_nat i) = 2 ∧ 0 <= pml_index 1 (0x400ffc + Z.of_nat i) < 2) as (-> & -> & -> & H1).
  { do 5 (destruct i as [|i]; [vm_compute; intuition congruence|]). lia. }
  rewrite (He 0x1000 0) by lia. change (entry mem 0x1000 0) with 0x2007. change (Z.land 0x2007 PTE_MASK) with 0x2000.
  rewrite (He 0x2000 0) by lia. change (entry mem 0x2000 0) with 0x3007. change (Z.land 0x3007 PTE_MASK) with 0x3000.
  rewrite (He 0x3000 2) by lia. change (entry mem 0x3000 2) with 0x4007. change (Z.land 0x4007 PTE_MASK) with 0x4000.
  by rewrite (He 0x4000 _) by lia.
Qed.

Lemma dst_stable m i :
  (∀ a, a < 0x20000 → read8 m a = read8 mem a) → (i <= 4)%nat →
  resolve true (set_mem (s_k (ac_open st)) m) true (at_off 0x400ffc i) =
  resolve true (s_k (ac_open st)) true (at_off 0x400ffc i).
Proof.
  intros Hm Hi. pose proof (walk_stable m i Hm Hi) as Hw.
  assert (at_off 0x400ffc i = 0x400ffc + Z.of_nat i) as -> by (apply u64_id; unfold is_u64; lia).
  unfold resolve, translate. cbn [k_mem set_mem k_cpu k_hhdm].
  change (Z.land (cr3 _) PTE_MASK) with 0x1000. by rewrite Hw.
Qed.

Lemma st_accessible : accessible (smap_on st) (s_k (ac_open st)) 0x400ffc 0xffff800000010000 4 pd ps.
Proof.
  assert (∀ m, only_at 4 pd m (k_mem (s_k (ac_open st))) → ∀ a, a < 0x20000 → read8 m a = read8 mem a) as Hlow.
  { intros m Hm a Ha. apply Hm. intros i _. unfold pd. lia. }
  split.
  - intros i Hi. do 4 (destruct i as [|i]; [reflexivity|]). lia.
  - intros i Hi. do 4 (destruct i as [|i]; [reflexivity|]). lia.
  - unfold pd. lia.
  - unfold pd, ps. lia.
  - intros m i Hm Hi. split; [by apply dst_stable; [apply Hlow|]|].
    do 5 (destruct i as [|i]; [reflexivity|]). lia.
Qed.

Lemma st_stops : stops_at (smap_on st) (s_k (ac_open st)) 0x400ffc 0xffff800000010000 4 8.
Proof. right. split; [lia|]. left. reflexivity. Qed.
End UserPage.

(** Eight bytes to the last four of a page: four arrive. *)
Lemma copy_to_user_correct_witness :
  ∃ m, copy_to_user 0x400ffc 0xffff800000010000 8 UserPage.st = Ok (-1, copied UserPage.st m) ∧
    (∀ i, (i < 4)%nat → read8 m (UserPage.pd i) = read8 UserPage.mem (UserPage.ps i)) ∧
    only_at 4 UserPage.pd m UserPage.mem.
Proof.
  destruct (proj2 (copy_to_user_correct 0x400ffc 0xffff800000010000 8 UserPage.st ltac:(unfold is_u64; lia) ltac:(unfold is_u64; lia) ltac:(unfold is_u64; lia))
    ltac:(unfold KERNEL_BASE; lia) ltac:(unfold KERNEL_BASE; lia) ltac:(lia) 4%nat UserPage.pd UserPage.ps
    UserPage.st_accessible UserPage.st_stops) as (m & H1 & H2 & H3 & _).
  exists m. split; [exact H1|split; [exact H2|exact H3]].
Defined.

(** The check is too weak at the top of the address space: a kernel pointer
    whose range wraps around is taken for a user range, so a copy to or from it
    is attempted. *)
Theorem wrapping_kernel_pointer_accepted (p len : Z) :
  KERNEL_BASE <= p < 2 ^ 64 → is_u64 len → 2 ^ 64 <= p + len → is_user_range p len = true.
Proof.
  intros Hp Hl Hw. assert (is_u64 p) by (unfold is_u64, KERNEL_BASE in *; lia).
  unfold is_user_range. rewrite is_kernel_range_decide by done.
  rewrite bool_decide_eq_false_2; [done|]. unfold in_kernel. lia.
Qed.

Lemma wrapping_kernel_pointer_accepted_witness : is_user_range 0xffffffffffffff00 4096 = true.
Proof.
  apply (wrapping_kernel_pointer_accepted 0xffffffffffffff00 4096); unfold KERNEL_BASE, is_u64; lia.
Defined.

(** * User strings *)

(** The byte at [va], as the kernel reads it with AC set. *)
Definition user_byte (s : sys) (va : Z) : option Z :=
  match resolve (smap_on s) (s_k s) false va with
  | Some pa => Some (read8 (k_mem (s_k s)) pa)
  | None => None
  end.

(** The bytes [a] to [b] of the string are readable and not zero. *)
Definition text (s : sys) (string a b : Z) : Prop :=
  ∀ i, a <= i < b → ∃ c, user_byte s (u64 (string + i)) = Some c ∧ c ≠ 0.

(** The length of the string from [a] on, searched below [b]: its terminator is
    found, or the search ends at [b] or at a byte that is not readable. *)
Inductive strlen_result (s : sys) (string a b : Z) : Z → Prop :=
  | strlen_found r : a <= r < b → text s string a r → user_byte s (u64 (string + r)) = Some 0 →
      strlen_result s string a b r
  | strlen_too_long : text s string a b → strlen_result s string a b (-1)
  | strlen_fault i : a <= i < b → text s string a i → user_byte s (u64 (string + i)) = None →
      strlen_result s string a b (-1).

Lemma text_cons s string a b c :
  user_byte s (u64 (string + a)) = Some c → c ≠ 0 → text s string (a + 1) b → text s string a b.
Proof. intros Hc Hn Ht i Hi. destruct (decide (i = a)) as [->|]; [by exists c|]. apply Ht. lia. Qed.

Lemma strlen_loop_ok n string eax s :
  ∃ r, safe_strlen_loop n string eax s = Ok (r, s) ∧ strlen_result s string eax (eax + Z.of_nat n) r.
Proof.
  revert eax. induction n as [|n IH]; intros eax; cbn [safe_strlen_loop].
  { exists (-1). split; [done|]. apply strlen_too_long. intros i Hi. lia. }
  unfold bind, try_load8, gets. fold (user_byte s (u64 (string + eax))).
  destruct (user_byte s (u64 (string + eax))) as [v|] eqn:Ev.
  2: { exists (-1). split; [done|]. apply strlen_fault with eax; [lia| |done]. intros i Hi. lia. }
  destruct (Z.eqb_spec v 0) as [->|Hv].
  { exists eax. split; [done|]. apply strlen_found; [lia| |done]. intros i Hi. lia. }
  destruct (IH (eax + 1)) as (r & E & Hr). exists r. split; [done|].
  replace (eax + Z.of_nat (S n)) with (eax + 1 + Z.of_nat n) by lia.
  destruct Hr as [r Hr Ht Hz|Ht|i Hr Ht Hz]; [apply strlen_found|apply strlen_too_long|apply (strlen_fault _ _ _ _ i)];
    (done || lia || by eapply text_cons).
Qed.

(** [strlen_user] returns on every input.  A pointer that is not a user's is
    refused; otherwise the result is the length of the string when it is readable
    up to a terminator among its first 4096 bytes, and -1 exactly when it is too
    long or a byte faults; nothing changes but AC, which is clear afterwards when
    SMAP is in use. *)
Theorem strlen_user_correct (string : Z) (s : sys) :
  if is_user_range string 4096
  then ∃ r, strlen_user string s = Ok (r, copied s (k_mem (s_k s))) ∧ strlen_result (ac_open s) string 0 4096 r
  else strlen_user string s = Ok (-1, s).
Proof.
  unfold strlen_user. destruct (is_user_range string 4096); cbn [negb]; [|done].
  rewrite (bind_ok _ _ _ _ _ (set_ac_ok s)). fold (ac_open s).
  destruct (strlen_loop_ok 4096 string 0 (ac_open s)) as (r & E & Hr).
  rewrite (bind_ok _ _ _ _ _ E : bind (safe_strlen_asm string) _ (ac_open s) = _), (bind_ok _ _ _ _ _ (clr_ac_ok _)).
  exists r. split; [|done].
  assert ((if smap_on (ac_open s) then with_ac (ac_open s) false else ac_open s) = copied s (k_mem (s_k s))) as ->.
  { assert (smap_on (ac_open s) = smap_on s) as -> by (unfold ac_open; by destruct (smap_on s) eqn:?).
    unfold copied, ac_open. rewrite with_mem_id. by destruct (smap_on s). }
  destruct (Z.ltb_spec r 0); [|done]. destruct Hr; [lia|done|done].
Qed.
