(* ===== verification/FsInv.v ===== *)
(** Reading files of the initial ramdisk: on a well-formed archive [tarfsRead]
    and [tarfsGetFize] find the file and return its contents and size. *)
From stdpp Require Import base tactics list gmap strings.
From Stdlib Require Import ZArith Lia.
From S2P Require Import Prelude Bits State Spinlock Pmm Heap Vmm Vma Libc Str StrInv Kbd Io Cpu Timers Apic Serial Uaccess Fs.

Lemma memcmp_zero {S} (s : S) f g n :
  0 <= n < 2 ^ 64 → ∃ r, memcmp f g n s = Ok (r, s) ∧ (r = 0 ↔ ∀ i, 0 <= i < n → f i = g i).
Proof.
  intros Hn. assert (wp (memcmp f g n) s (λ r s', s' = s ∧ (r = 0 ↔ ∀ i, 0 <= i < n → f i = g i))) as Hwp.
  { unfold memcmp.
    apply (wp_while _ (λ m i s', s' = s ∧ 0 <= i ∧ m = n - i ∧ ∀ j, 0 <= j < i → f j = g j) _) with (n := n);
      [|lia|split_and!; [done|lia|lia|lia]].
    intros m i s' Hm (-> & Hi & -> & Heq). destruct (Z.ltb_spec i n) as [Hlt|Hge].
    - destruct (Z.eqb_spec (f i) (g i)) as [E|E]; cbn [negb]; apply wp_ret.
      + exists (n - (i + 1)). split; [lia|]. split_and!; [done|lia|lia|].
        intros j Hj. destruct (decide (j = i)) as [->|]; [done|]. apply Heq. lia.
      + split; [done|]. split.
        * destruct (f i <? g i); lia.
        * intros Hall. exfalso. apply E, Hall. lia.
    - apply wp_ret. split; [done|]. split; [|done]. intros _ j Hj. apply Heq. lia. }
  apply wp_inv in Hwp as (r & s' & E & -> & Hr). by exists r.
Qed.

(** * Archives *)

(** A file: the path after the leading dot, the octal digits of its size, its bytes. *)
Record tar_file := mk_tar { tf_name : list Z; tf_digits : list Z; tf_data : list Z }.

Definition size_of (f : tar_file) : Z := Z.of_nat (length (tf_data f)).

(** One header with its data at offset [o] ([ustar] format). *)
Record tar_entry (arc : cstring) (o : Z) (f : tar_file) : Prop := {
  te_magic : ∀ i, 0 <= i < 5 → arc (o + 257 + i) = lit "ustar" i;
  te_dot : arc o = 46;
  te_name : holds (advance (o + 1) arc) (tf_name f);
  te_short : Z.of_nat (length (46 :: tf_name f)) < 2 ^ 63;
  te_digits : ∀ (k : nat) d, tf_digits f !! k = Some d → arc (o + 0x7c + Z.of_nat k) = 48 + d ∧ 0 <= d <= 7;
  te_len : length (tf_digits f) = 11%nat;
  te_size : value 8 (tf_digits f) = size_of f;
  te_bound : size_of f < 2 ^ 31 - 1024;
  te_data : ∀ (k : nat) c, tf_data f !! k = Some c → arc (o + 512 + Z.of_nat k) = c
}.

Definition after (o : Z) (f : tar_file) : Z := o + ((size_of f + 511) / 512 + 1) * 512.

Inductive tar_at (arc : cstring) : Z → list tar_file → Prop :=
  | tar_end o i : 0 <= i < 5 → arc (o + 257 + i) ≠ lit "ustar" i → tar_at arc o []
  | tar_file_at o f fs : tar_entry arc o f → tar_at arc (after o f) fs → tar_at arc o (f :: fs).

Definition find_tar (files : list tar_file) (path : list Z) : option tar_file :=
  snd <$> list_find (λ f, tf_name f = path) files.

(** * Headers *)

Lemma foldl_oct_ge ds acc : 0 <= acc → (∀ d, d ∈ ds → 0 <= d) → acc <= foldl (λ v d, v * 8 + d) acc ds.
Proof.
  revert acc. induction ds as [|d ds IH]; intros acc Ha Hd; [done|]. cbn [foldl].
  pose proof (Hd d ltac:(set_solver)). etransitivity; [|apply IH]; [lia|lia|set_solver].
Qed.

Lemma oct2bin_loop_ok c ds i acc s :
  (∀ (k : nat) d, ds !! k = Some d → c (i + Z.of_nat k) = 48 + d ∧ 0 <= d <= 7) →
  0 <= acc → foldl (λ v d, v * 8 + d) acc ds < 2 ^ 31 →
  oct2bin_loop (length ds) c i acc s = Ok (foldl (λ v d, v * 8 + d) acc ds, s).
Proof.
  revert i acc. induction ds as [|d ds IH]; intros i acc Hc Ha Hb; [done|]. cbn [oct2bin_loop length foldl] in *.
  destruct (Hc 0%nat d eq_refl) as [Hd Hr]. rewrite Z.add_0_r in Hd.
  assert (∀ e, e ∈ ds → 0 <= e) as Hpos.
  { intros e (k & Hk)%list_elem_of_lookup_1. destruct (Hc (S k) e Hk). lia. }
  pose proof (foldl_oct_ge ds (acc * 8 + d) ltac:(lia) Hpos).
  unfold mul_i, add_i. rewrite (bind_ok _ _ _ _ _ (checked_ok s 32 (acc * 8) _ ltac:(lia))).
  replace (acc * 8 + (c i - 48)) with (acc * 8 + d) by lia.
  rewrite (bind_ok _ _ _ _ _ (checked_ok s 32 (acc * 8 + d) _ ltac:(lia))).
  apply IH; [|lia|done]. intros k e Hk. replace (i + 1 + Z.of_nat k) with (i + Z.of_nat (S k)) by lia. by apply Hc.
Qed.

Section entry.
Context (arc : cstring) (o : Z) (f : tar_file) (He : tar_entry arc o f).
Set Default Proof Using "All".

Lemma is_header_yes s : is_header arc o s = Ok (true, s).
Proof.
  unfold is_header. destruct (memcmp_zero s (advance (o + 257) arc) (lit "ustar") 5 ltac:(lia)) as (r & E & Hr).
  rewrite (bind_ok _ _ _ _ _ E). assert (r = 0) as ->; [|done]. apply Hr. intros i Hi. by apply (te_magic _ _ _ He).
Qed.

Lemma header_size_ok s : header_size arc o s = Ok (size_of f, s).
Proof.
  unfold header_size, oct2bin. change (Z.to_nat 11) with 11%nat. rewrite <- (te_len _ _ _ He).
  rewrite <- (te_size _ _ _ He). apply oct2bin_loop_ok; [|done|].
  - intros k d Hk. exact (te_digits _ _ _ He k d Hk).
  - pose proof (te_bound _ _ _ He). pose proof (te_size _ _ _ He) as Hs. unfold value in Hs. lia.
Qed.

Lemma next_header_ok s : next_header o (size_of f) s = Ok (after o f, s).
Proof.
  pose proof (te_bound _ _ _ He). assert (0 <= size_of f) by (unfold size_of; lia).
  assert (0 <= (size_of f + 511) / 512) by (apply Z.div_pos; lia).
  pose proof (Z.div_mod (size_of f + 511) 512). pose proof (Z.mod_pos_bound (size_of f + 511) 512).
  unfold next_header, add_i, mul_i. erewrite bind_ok; [|apply checked_ok; lia].
  rewrite Z.quot_div_nonneg by lia.
  do 2 (erewrite bind_ok; [|apply checked_ok; lia]). done.
Qed.

Lemma take_bytes_data n :
  0 <= n <= size_of f → take_bytes (advance (o + 512) arc) n = take (Z.to_nat n) (tf_data f).
Proof.
  intros Hn. unfold take_bytes, size_of in *. apply list_eq. intros i.
  destruct (decide (i < Z.to_nat n)%nat) as [Hi|Hi].
  - rewrite list_lookup_fmap, lookup_seq_lt by done. rewrite lookup_take_lt by done. cbn.
    destruct (lookup_lt_is_Some_2 (tf_data f) i) as [c Hc]; [lia|]. rewrite Hc. f_equal.
    exact (te_data _ _ _ He i c Hc).
  - rewrite !lookup_ge_None_2; [done|rewrite length_take; lia|].
    rewrite length_fmap, length_seq. lia.
Qed.
End entry.

Lemma is_header_no arc o i s : 0 <= i < 5 → arc (o + 257 + i) ≠ lit "ustar" i → is_header arc o s = Ok (false, s).
Proof.
  intros Hi Hne. unfold is_header. destruct (memcmp_zero s (advance (o + 257) arc) (lit "ustar") 5 ltac:(lia)) as (r & E & Hr).
  rewrite (bind_ok _ _ _ _ _ E). destruct (Z.eqb_spec r 0) as [->|]; [|done].
  destruct Hne. by apply Hr.
Qed.

(** Two strings with their terminators agree iff they are the same. *)
Lemma holds_same f g l l' :
  holds f l → holds g l' → (∀ i, 0 <= i < Z.of_nat (length l') + 1 → f i = g i) ↔ l = l'.
Proof.
  intros Hf Hg. split.
  - intros Heq. assert (length l = length l') as Hlen.
    { destruct (lt_eq_lt_dec (length l) (length l')) as [[Hlt|]|Hgt]; [|done|].
      - destruct (holds_lookup g l' (Z.of_nat (length l)) Hg) as (x & _ & Hx & ?); [lia|].
        rewrite <- Heq, (holds_end f l Hf) in Hx by lia. lia.
      - destruct (holds_lookup f l (Z.of_nat (length l')) Hf) as (x & _ & Hx & ?); [lia|].
        rewrite Heq, (holds_end g l' Hg) in Hx by lia. lia. }
    apply list_eq. intros i. destruct (decide (i < length l)%nat) as [Hi|Hi].
    + destruct (holds_lookup f l (Z.of_nat i) Hf) as (x & Hx & Hfx & _); [lia|].
      destruct (holds_lookup g l' (Z.of_nat i) Hg) as (y & Hy & Hgy & _); [lia|].
      rewrite Nat2Z.id in Hx, Hy. rewrite Hx, Hy. rewrite <- Hfx, <- Hgy. f_equal. apply Heq. lia.
    + by rewrite !lookup_ge_None_2 by lia.
  - intros -> i Hi. rewrite (holds_at f l' i Hf), (holds_at g l' i Hg) by lia. done.
Qed.

(** * Reading *)

(** What a read of [read_length] bytes of [path] gives. *)
Definition tar_read (files : list tar_file) (path : list Z) (read_length : Z) : Z * list Z :=
  match find_tar files path with
  | Some f => let n := Z.min (size_of f) read_length in (n, take (Z.to_nat n) (tf_data f))
  | None => (-1, [])
  end.

Lemma tar_read_cons f fs path n :
  tar_read (f :: fs) path n =
    if decide (tf_name f = path) then (Z.min (size_of f) n, take (Z.to_nat (Z.min (size_of f) n)) (tf_data f))
    else tar_read fs path n.
Proof.
  unfold tar_read, find_tar. cbn [list_find]. destruct (decide (tf_name f = path)); [done|].
  by destruct (list_find _ fs) as [[i g]|].
Qed.

(** (C25) Reading a file of the ramdisk: on a well-formed [ustar] archive,
    [tarfsRead] returns the first [read_length] bytes of the first file with that
    path and their number, or -1 when there is none; it always returns and
    changes nothing. *)
Theorem tarfsRead_correct (arc path : cstring) (name : list Z) (files : list tar_file) (read_length : Z) (s : sys) :
  tar_at arc 0 files → holds path name → 0 <= read_length →
  Z.of_nat (length files) < 2 ^ 32 →
  tarfsRead arc path read_length s = Ok (tar_read files name read_length, s).
Proof.
  intros Htar Hpath Hr Hlen. apply wp_eq. unfold tarfsRead.
  apply (wp_while _ (λ n o s', s' = s ∧ ∃ fs, tar_at arc o fs ∧ n = Z.of_nat (length fs) ∧
    tar_read fs name read_length = tar_read files name read_length) _) with (n := Z.of_nat (length files)); [|lia|by eauto].
  intros n o s' _ (-> & fs & Ht & -> & Hfs). unfold tarfsRead_round. destruct Ht as [o i Hi Hne|o f fs He Ht].
  - apply wp_bind. eapply wp_ok; [by eapply is_header_no|]. by apply wp_ret.
  - apply wp_bind. eapply wp_ok; [by eapply is_header_yes|].
    apply wp_bind. eapply wp_ok; [by eapply header_size_ok|].
    apply wp_bind. eapply wp_ok; [by apply strlen_spec|]. apply wp_bind.
    pose proof (holds_len path name Hpath).
    destruct (memcmp_zero s (advance (o + 1) arc) path (Z.of_nat (length name) + 1) ltac:(lia)) as (r & E & Hcmp).
    eapply wp_ok; [exact E|].
    rewrite (holds_same _ _ _ _ (te_name _ _ _ He) Hpath) in Hcmp. rewrite tar_read_cons in Hfs.
    destruct (Z.eqb_spec r 0) as [Hz|Hz]; destruct (decide (tf_name f = name)) as [Hn|Hn]; try tauto.
    + apply wp_ret. split; [|done]. rewrite <- Hfs.
      replace (if size_of f <? read_length then size_of f else read_length) with (Z.min (size_of f) read_length)
        by (destruct (Z.ltb_spec (size_of f) read_length); lia).
      by rewrite (take_bytes_data arc o f He) by (unfold size_of in *; lia).
    + apply wp_bind. eapply wp_ok; [by eapply next_header_ok|]. apply wp_ret.
      exists (Z.of_nat (length fs)). split; [cbn [length]; lia|]. split; [done|]. by exists fs.
Qed.

(** * Sizes *)

Definition tar_size (files : list tar_file) (path : list Z) : Z :=
  match find_tar files path with Some f => size_of f | None => -1 end.

Lemma tar_size_cons f fs path : tar_size (f :: fs) path = if decide (tf_name f = path) then size_of f else tar_size fs path.
Proof.
  unfold tar_size, find_tar. cbn [list_find]. destruct (decide (tf_name f = path)); [done|].
  by destruct (list_find _ fs) as [[i g]|].
Qed.

Lemma take_bytes_holds path name : holds path name → take_bytes path (Z.of_nat (length name)) = name.
Proof.
  intros Hp. unfold take_bytes. rewrite Nat2Z.id. apply list_eq. intros i.
  destruct (decide (i < length name)%nat) as [Hi|Hi].
  - rewrite list_lookup_fmap, lookup_seq_lt by done. cbn.
    destruct (lookup_lt_is_Some_2 name i Hi) as [c Hc]. rewrite Hc. f_equal. by apply (holds_byte _ _ Hp).
  - rewrite !lookup_ge_None_2; [done|lia|]. rewrite length_fmap, length_seq. lia.
Qed.

Lemma holds_dot arc o f : tar_entry arc o f → holds (advance o arc) (46 :: tf_name f).
Proof.
  intros He. pose proof (te_name _ _ _ He) as Hn. pose proof (te_bound _ _ _ He).
  assert (∀ i, advance o arc (1 + i) = advance (o + 1) arc i) as Hadv by (intros i; unfold advance; f_equal; lia).
  split.
  - intros [|i] x Hx; cbn in Hx.
    + injection Hx as <-. split; [|lia]. unfold advance. change (Z.of_nat 0) with 0. rewrite Z.add_0_r. exact (te_dot _ _ _ He).
    + replace (Z.of_nat (S i)) with (1 + Z.of_nat i) by lia. rewrite Hadv. by apply (holds_byte _ _ Hn).
  - cbn [length]. replace (Z.of_nat (S (length (tf_name f)))) with (1 + Z.of_nat (length (tf_name f))) by lia.
    rewrite Hadv. exact (holds_end _ _ Hn).
  - exact (te_short _ _ _ He).
Qed.

(** The size of the first file with a path, or -1. *)
Lemma tarfsGetFize_ok (arc path : cstring) (name : list Z) (files : list tar_file) (s : sys) :
  tar_at arc 0 files → holds path name → (length name < 255)%nat → Z.of_nat (length files) < 2 ^ 32 →
  tarfsGetFize arc path s = Ok (tar_size files name, s).
Proof.
  intros Htar Hpath Hn Hlen. unfold tarfsGetFize. rewrite (bind_ok _ _ _ _ _ (strlen_spec s path name Hpath)).
  rewrite (proj2 (Z.leb_gt 255 (Z.of_nat (length name)))) by lia. rewrite (take_bytes_holds path name Hpath).
  assert (holds (of_list (46 :: name)) (46 :: name)) as Hdot.
  { apply of_list_holds; [|cbn; lia]. intros x [->|(i & Hi)%list_elem_of_lookup_1]%elem_of_cons; [lia|].
    by apply (holds_byte _ _ Hpath i). }
  apply wp_eq.
  apply (wp_while _ (λ n o s', s' = s ∧ ∃ fs, tar_at arc o fs ∧ n = Z.of_nat (length fs) ∧
    tar_size fs name = tar_size files name) _) with (n := Z.of_nat (length files)); [|lia|by eauto].
  intros n o s' _ (-> & fs & Ht & -> & Hfs). unfold tarfsGetFize_round. destruct Ht as [o i Hi Hne|o f fs He Ht].
  - apply wp_bind. eapply wp_ok; [by eapply is_header_no|]. by apply wp_ret.
  - apply wp_bind. eapply wp_ok; [by eapply is_header_yes|].
    apply wp_bind. eapply wp_ok; [by eapply header_size_ok|].
    apply wp_bind. eapply wp_ok; [by apply strlen_spec|]. apply wp_bind.
    destruct (memcmp_zero s (advance o arc) (of_list (46 :: name)) (Z.of_nat (length (46 :: name)) + 1)) as (r & E & Hcmp); [cbn; lia|].
    eapply wp_ok; [exact E|]. rewrite (holds_same _ _ _ _ (holds_dot _ _ _ He) Hdot) in Hcmp. rewrite tar_size_cons in Hfs.
    destruct (Z.eqb_spec r 0) as [Hz|Hz]; destruct (decide (tf_name f = name)) as [Hnm|Hnm]; try (exfalso; naive_solver).
    + apply wp_ret. by split.
    + apply wp_bind. eapply wp_ok; [by eapply next_header_ok|]. apply wp_ret.
      exists (Z.of_nat (length fs)). split; [cbn [length]; lia|]. split; [done|]. by exists fs.
Qed.

(** * A checker for archives, for concrete ones *)

Definition bytes_at (f : cstring) (o : Z) (l : list Z) : bool :=
  forallb (λ '(k, c), f (o + Z.of_nat k) =? c) (imap (λ k c, (k, c)) l).

Lemma bytes_at_lookup f o l k c : bytes_at f o l = true → l !! k = Some c → f (o + Z.of_nat k) = c.
Proof.
  unfold bytes_at. rewrite forallb_forall. intros Hall Hk.
  specialize (Hall (k, c)). apply Z.eqb_eq, Hall, list_elem_of_In, elem_of_lookup_imap. eauto.
Qed.

Definition check_entry (arc : cstring) (o : Z) (f : tar_file) : bool :=
  bytes_at arc (o + 257) (bytes "ustar") && (arc o =? 46) &&
  bytes_at arc (o + 1) (tf_name f ++ [0]) && forallb (Z.ltb 0) (tf_name f) &&
  bytes_at arc (o + 0x7c) (map (Z.add 48) (tf_digits f)) && forallb (λ d, (0 <=? d) && (d <=? 7)) (tf_digits f) &&
  (length (tf_digits f) =? 11)%nat && (value 8 (tf_digits f) =? size_of f) && (size_of f <? 2 ^ 31 - 1024) &&
  (Z.of_nat (length (tf_name f)) <? 2 ^ 62) && bytes_at arc (o + 512) (tf_data f).

Lemma forallb_lookup {A} (p : A → bool) l k x : forallb p l = true → l !! k = Some x → p x = true.
Proof. rewrite forallb_forall. intros H Hk. by apply H, list_elem_of_In, (list_elem_of_lookup_2 l k). Qed.

Lemma holds_bytes f o l :
  bytes_at f o (l ++ [0]) = true → forallb (Z.ltb 0) l = true → Z.of_nat (length l) < 2 ^ 63 → holds (advance o f) l.
Proof.
  intros Hb Hnz Hl. split; [| |done].
  - intros i x Hx. split; [|by apply Z.ltb_lt, (forallb_lookup _ _ _ _ Hnz Hx)].
    unfold advance. eapply bytes_at_lookup; [exact Hb|]. by apply lookup_app_l_Some.
  - unfold advance. eapply bytes_at_lookup; [exact Hb|]. rewrite lookup_app_r by lia. by rewrite Nat.sub_diag.
Qed.

Lemma check_entry_ok arc o f : check_entry arc o f = true → tar_entry arc o f.
Proof.
  unfold check_entry. rewrite !andb_true_iff.
  intros ((((((((((Hm & Hd) & Hn) & Hnz) & Hdig) & Hrng) & Hlen) & Hsz) & Hbd) & Hnl) & Hdata).
  apply Z.eqb_eq in Hd, Hsz. apply Nat.eqb_eq in Hlen. apply Z.ltb_lt in Hbd, Hnl.
  split; try done.
  - intros i Hi. destruct (lookup_lt_is_Some_2 (bytes "ustar") (Z.to_nat i)) as [c Hc].
    { change (length (bytes "ustar")) with 5%nat. lia. }
    pose proof (bytes_at_lookup _ _ _ _ _ Hm Hc) as E. rewrite Z2Nat.id in E by lia. rewrite E.
    unfold lit, of_list. destruct (Z.ltb_spec i 0); [lia|]. by rewrite Hc.
  - apply holds_bytes; [done|done|lia].
  - cbn [length]. lia.
  - intros k d Hk. pose proof (forallb_lookup _ _ _ _ Hrng Hk) as Hr. apply andb_true_iff in Hr as [?%Z.leb_le ?%Z.leb_le].
    split; [|lia]. eapply bytes_at_lookup; [exact Hdig|]. by rewrite list_lookup_fmap, Hk.
  - intros k c Hk. by eapply bytes_at_lookup.
Qed.

(** An archive of two files. *)
Definition pad (n : nat) (l : list Z) : list Z := l ++ replicate (n - length l) 0.
Definition header_bytes (f : tar_file) : list Z :=
  pad 512 (pad 257 (pad 0x7c (46 :: tf_name f) ++ map (Z.add 48) (tf_digits f)) ++ bytes "ustar").
Definition hello_txt : tar_file := mk_tar (bytes "/hello.txt") [0; 0; 0; 0; 0; 0; 0; 0; 0; 0; 5] (bytes "hello").
Definition test_txt : tar_file := mk_tar (bytes "/test.txt") [0; 0; 0; 0; 0; 0; 0; 0; 0; 0; 3] (bytes "abc").
Definition archive2 : cstring :=
  of_list (header_bytes hello_txt ++ pad 512 (tf_data hello_txt) ++ header_bytes test_txt ++ pad 512 (tf_data test_txt)).

Lemma archive2_ok : tar_at archive2 0 [hello_txt; test_txt].
Proof.
  apply tar_file_at; [apply check_entry_ok; vm_compute; reflexivity|].
  apply tar_file_at; [apply check_entry_ok; vm_compute; reflexivity|].
  apply (tar_end _ _ 0); [lia|]. vm_compute. discriminate.
Qed.

Lemma tarfsRead_correct_witness :
  tarfsRead archive2 (lit "/test.txt") 512 (sys0 (kernel0 0)) = Ok (tar_read [hello_txt; test_txt] (bytes "/test.txt") 512, sys0 (kernel0 0)).
Proof.
  apply (tarfsRead_correct archive2 (lit "/test.txt") (bytes "/test.txt") [hello_txt; test_txt] 512); [exact archive2_ok| |lia|cbn; lia].
  apply of_list_holds; [|cbn; lia]. intros x (k & Hk)%list_elem_of_lookup_1.
  by apply Z.ltb_lt, (forallb_lookup (Z.ltb 0) (bytes "/test.txt") k).
Defined.
