(* ===== verification/ElfInv.v ===== *)
(** The loader maps the pages of a segment to fresh frames and puts every byte
    where the program header says, for segments aligned to pages; larger
    alignments lose the end of the segment. *)
From stdpp Require Import base tactics list gmap strings.
From Stdlib Require Import ZArith Lia Ascii.
From S2P Require Import Prelude Bits State Spinlock Pmm PmmBoot FrameAlloc Heap Vmm VmmInv Vma VmaInv Libc VmBoot Str Io IoInv Cpu Kbd Timers Apic Serial Uaccess UaccessInv Fs Elf.

(** * The header check *)

(** What [verify_elf_64] accepts. *)
Definition acceptable (h : elf_header_64) : bool :=
  verify_elf_magic h && (header_version h =? ELF_HEADER_VER) && (elf_version h =? ELF_VER) &&
  ((bits h =? ELF_64_BIT) || (bits h =? ELF_32_BIT)) && (endianness h =? ELF_LITTLE_ENDIAN) &&
  (arch h =? ELF_X86_64_ARCH) && (abi h =? ELF_SYSV_ABI) && (e_type h =? ELF_EXECUTABLE_TYPE).

(** [verify_elf_64] answers for every file, changes nothing but the log, and
    accepts exactly the little-endian x86-64 System V executables of version 1;
    the class field may say 64 bits or 32 bits, although a 32-bit file is
    announced as not supported. *)
Theorem verify_elf_64_spec (f : cstring) (s : sys) :
  ∃ l, verify_elf_64 f s = Ok (acceptable (elf_header f), logged l s).
Proof.
  unfold verify_elf_64, acceptable. set (h := elf_header f).
  assert (∀ m, bad_elf m s = Ok (false, logged [Printf m []] s)) as Hbad by done.
  destruct (verify_elf_magic h); cbn [negb andb]; [|by eexists].
  destruct (header_version h =? _); cbn [negb andb]; [|by eexists].
  destruct (elf_version h =? _); cbn [negb andb]; [|by eexists].
  destruct (Z.eqb_spec (bits h) ELF_64_BIT) as [H64|H64], (Z.eqb_spec (bits h) ELF_32_BIT) as [H32|H32]; cbn [negb andb orb];
    try (by eexists); try (rewrite H64 in H32; discriminate).
  - change (bind (ret tt) ?k s) with (k tt s). cbv beta.
    destruct (endianness h =? _); cbn [negb andb]; [|by eexists].
    destruct (arch h =? _); cbn [negb andb]; [|by eexists].
    destruct (abi h =? _); cbn [negb andb]; [|by eexists].
    destruct (e_type h =? _); cbn [negb andb]; [|by eexists].
    exists []. by rewrite logged_nil.
  - rewrite (bind_ok _ _ _ tt (logged [Printf "ELF: 32 Bit Elf File; Not Supported\n" []] s)) by done.
    assert (∀ m, bad_elf m (logged [Printf "ELF: 32 Bit Elf File; Not Supported\n" []] s)
      = Ok (false, logged [Printf m []; Printf "ELF: 32 Bit Elf File; Not Supported\n" []] s)) as Hbad2 by done.
    destruct (endianness h =? _); cbn [negb andb]; [|by eexists].
    destruct (arch h =? _); cbn [negb andb]; [|by eexists].
    destruct (abi h =? _); cbn [negb andb]; [|by eexists].
    destruct (e_type h =? _); cbn [negb andb]; [|by eexists].
    by eexists.
Qed.

(** * Segments *)

Lemma ldiff_pow2 a k : 0 <= k → Z.ldiff a (2 ^ k - 1) = a - a mod 2 ^ k.
Proof.
  intros Hk. replace (2 ^ k - 1) with (Z.ones k) by (rewrite Z.ones_equiv; lia).
  rewrite Z.ldiff_ones_r, Z.shiftl_mul_pow2, Z.shiftr_div_pow2 by lia.
  pose proof (Z.div_mod a (2 ^ k) ltac:(lia)). lia.
Qed.

(** The state of the page loop in front of page [p]. *)
Definition seg_start (file : Z) (ph : elf_program_header_64) : seg_state :=
  mk_seg 0 (seg_base ph) (u64 (file + ph_offset ph)) (file_size ph).
Definition seg_at (file : Z) (ph : elf_program_header_64) (p : nat) : seg_state :=
  Nat.iter p (seg_next (seg_offset ph)) (seg_start file ph).

(** Where byte [j] of the page comes from: an address in the file's image, or it
    is zeroed. *)
Definition page_source (vaddr_offset : Z) (st : seg_state) (j : Z) : option Z :=
  let o := page_offset vaddr_offset st in
  if decide (o <= j < o + page_copy vaddr_offset st) then Some (sg_src st + (j - o)) else None.

(** A segment the loader is meant for: page alignment, inside the user's half,
    its bytes inside the address space of the kernel. *)
Record seg_ok (file : Z) (ph : elf_program_header_64) : Prop := {
  so_align : alignment ph = 4096;
  so_virt : 0 <= virt_addr ph;
  so_mem : 0 <= mem_size ph;
  so_end : virt_addr ph + mem_size ph <= 2 ^ 47;
  so_file : 0 <= file_size ph;
  so_off : 0 <= file + ph_offset ph;
  so_src : file + ph_offset ph + file_size ph < 2 ^ 64
}.

(** How much of the file the pages before [p] have taken. *)
Definition consumed (ph : elf_program_header_64) (p : Z) : Z :=
  Z.min (file_size ph) (Z.max 0 (4096 * p - virt_addr ph mod 4096)).

Lemma seg_pages_count ph :
  0 <= virt_addr ph → 0 <= mem_size ph → virt_addr ph + mem_size ph <= 2 ^ 47 →
  seg_pages ph = (virt_addr ph + mem_size ph + 4095) / 4096 - virt_addr ph / 4096.
Proof.
  intros Hv Hm He. unfold seg_pages.
  rewrite (u64_id (_ + _)) by (unfold is_u64; lia).
  rewrite ALIGN_DOWN_page, ALIGN_UP_page by (unfold is_u64; lia).
  unfold PAGE_SIZE. rewrite u64_id by (unfold is_u64; Z.div_mod_to_equations; lia).
  Z.div_mod_to_equations. lia.
Qed.

Lemma u64_page_rest o : 0 <= o < 4096 → u64 (4096 - o) = 4096 - o.
Proof. intros H. apply u64_id. unfold is_u64. lia. Qed.

Ltac case_ltb := match goal with |- context [ ?a <? ?b ] => destruct (Z.ltb_spec a b) end.

Section placement.
Context (file : Z) (ph : elf_program_header_64) (Hok : seg_ok file ph).
Set Default Proof Using "All".

Lemma seg_base_page : seg_base ph = virt_addr ph - virt_addr ph mod 4096.
Proof. unfold seg_base. rewrite (so_align _ _ Hok). cbn. by apply (ldiff_pow2 _ 12). Qed.

Lemma seg_offset_page : seg_offset ph = virt_addr ph mod 4096.
Proof.
  unfold seg_offset. rewrite seg_base_page. pose proof (Z.mod_pos_bound (virt_addr ph) 4096 ltac:(lia)).
  rewrite u64_id by (unfold is_u64; lia). lia.
Qed.

Lemma seg_pages_cover : 4096 * seg_pages ph < mem_size ph + virt_addr ph mod 4096 + 4096 ∧
  mem_size ph + virt_addr ph mod 4096 <= 4096 * seg_pages ph.
Proof. destruct Hok. rewrite seg_pages_count by lia. Z.div_mod_to_equations. lia. Qed.

(** The closed form of the loop's state. *)
Lemma seg_at_closed p : 4096 * Z.of_nat p < 2 ^ 48 →
  seg_at file ph p = mk_seg (Z.of_nat p) (seg_base ph + 4096 * Z.of_nat p)
    (file + ph_offset ph + consumed ph (Z.of_nat p)) (file_size ph - consumed ph (Z.of_nat p)).
Proof.
  pose proof seg_base_page as Hb. pose proof seg_offset_page as Ho. destruct Hok.
  pose proof (Z.mod_pos_bound (virt_addr ph) 4096 ltac:(lia)).
  assert (consumed ph 0 = 0) as H0 by (unfold consumed; lia).
  induction p as [|p IH]; intros Hp.
  { unfold seg_at, seg_start. cbn [Nat.iter nat_rect]. change (Z.of_nat 0) with 0. rewrite H0, u64_id by (unfold is_u64; lia). f_equal; lia. }
  change (seg_at file ph (S p)) with (seg_next (seg_offset ph) (seg_at file ph p)).
  rewrite IH by lia. clear IH. rewrite Ho, Hb.
  unfold seg_next, page_copy, page_space, page_offset, PAGE_SIZE, consumed in *. cbn [sg_p sg_va sg_src sg_remaining].
  replace (Z.of_nat (S p)) with (Z.of_nat p + 1) in * by lia. set (q := Z.of_nat p) in *.
  assert (0 <= q) by lia. clearbody q.
  set (o := virt_addr ph mod 4096) in *. clearbody o.
  destruct (Z.eqb_spec q 0) as [->|]; rewrite u64_page_rest by lia;
    case_ltb;
    f_equal; try lia; (rewrite u64_id; [lia|unfold is_u64; lia]).
Qed.

Lemma page_source_closed p j : 4096 * Z.of_nat p < 2 ^ 48 → 0 <= j < 4096 →
  let v := seg_base ph + 4096 * Z.of_nat p + j in
  page_source (seg_offset ph) (seg_at file ph p) j =
    if decide (virt_addr ph <= v < virt_addr ph + file_size ph)
    then Some (file + ph_offset ph + (v - virt_addr ph)) else None.
Proof.
  intros Hp Hj. cbv zeta. rewrite (seg_at_closed p Hp). pose proof seg_base_page as Hb. rewrite seg_offset_page. destruct Hok.
  pose proof (Z.mod_pos_bound (virt_addr ph) 4096 ltac:(lia)).
  unfold page_source, page_copy, page_space, page_offset, PAGE_SIZE, consumed. cbn [sg_p sg_va sg_src sg_remaining].
  set (q := Z.of_nat p) in *. assert (0 <= q) by lia. clearbody q. rewrite Hb. clear Hb.
  set (o := virt_addr ph mod 4096) in *. clearbody o.
  destruct (Z.eqb_spec q 0) as [->|]; rewrite u64_page_rest by lia;
    case_ltb;
    do 2 case_decide; try lia; try done; f_equal; lia.
Qed.
End placement.

(** * Loading a segment

    What the loader's loop leaves in memory and in the page tables. *)

(** Memory that differs in the bytes of one frame only. *)
Definition outside (fr : Z) (m m' : mem_t) : Prop := ∀ x, x / 4096 ≠ fr → read8 m' x = read8 m x.

(** What an access resolves to depends on the translation of its address. *)
Lemma resolve_walk smap k k' w va :
  k_hhdm k' = k_hhdm k → k_cpu k' = k_cpu k →
  walk 4 (k_mem k') (Z.land (cr3 (k_cpu k)) PTE_MASK) va = walk 4 (k_mem k) (Z.land (cr3 (k_cpu k)) PTE_MASK) va →
  resolve smap k' w va = resolve smap k w va.
Proof. intros Eh Ec Ew. unfold resolve, translate, hhdm_phys. by rewrite Eh, Ec, Ew. Qed.

(** ** The copy from the file *)
Section kcopy.
Context (s : sys) (fr lo hi : Z) (B : Z → Z).
Context (Hsrc : ∀ m v, outside fr (k_mem (s_k s)) m → lo <= v < hi → user_byte (with_mem s m) v = Some (B v)).
Context (HB : ∀ v, 0 <= B v < 256) (Hlo : 0 <= lo) (Hhi : hi < 2 ^ 64) (Hfr : 0 <= fr < 2 ^ 51).
Set Default Proof Using "All".

Lemma kcopy_ok n : ∀ d a m,
  outside fr (k_mem (s_k s)) m → lo <= a → a + Z.of_nat n <= hi → 4096 * fr <= d → d + Z.of_nat n <= 4096 * fr + 4096 →
  ∃ m', kcopy n (u64 (d + k_hhdm (s_k s))) a (with_mem s m) = Ok (tt, with_mem s m') ∧
    ∀ x, read8 m' x = if decide (d <= x < d + Z.of_nat n) then B (a + (x - d)) else read8 m x.
Proof.
  induction n as [|n IH]; intros d a m Hm Ha1 Ha2 Hd1 Hd2.
  { exists m. split; [done|]. intros x. rewrite decide_False by lia. done. }
  cbn [kcopy]. rewrite (bind_ok _ _ _ (Some (B a)) (with_mem s m)).
  2: { unfold try_load8, gets. fold (user_byte (with_mem s m) a). by rewrite Hsrc by (done || lia). }
  change (bind (kern (modify ?f)) ?g ?t) with (g tt (with_k t (f (s_k t)))). cbv beta.
  change (with_k (with_mem s m) _) with (with_mem s (write8 m (hhdm_phys (s_k s) (u64 (d + k_hhdm (s_k s)))) (B a))).
  rewrite hhdm_phys_u64_add by lia.
  replace (u64 (u64 (d + k_hhdm (s_k s)) + 1)) with (u64 (d + 1 + k_hhdm (s_k s))) by (rewrite u64_add_l; f_equal; lia).
  rewrite (u64_id (a + 1)) by (unfold is_u64; lia).
  destruct (IH (d + 1) (a + 1) (write8 m d (B a))) as (m' & E & Hr); [|lia..|].
  { intros x Hx. rewrite read8_write8. destruct (Z.eqb_spec x d) as [->|]; [|by apply Hm]. Z.div_mod_to_equations. lia. }
  exists m'. split; [exact E|]. intros x. rewrite Hr, read8_write8.
  destruct (Z.eqb_spec x d) as [->|Hne].
  - rewrite decide_False, decide_True by lia. rewrite Z.mod_small by apply HB. f_equal. lia.
  - destruct (decide (d + 1 <= x < d + 1 + Z.of_nat n)); [rewrite decide_True by lia; f_equal; lia|].
    by rewrite decide_False by lia.
Qed.

Lemma zero_ok (b : bool) (d n : Z) m :
  (b = false → n = 0) → 0 <= d < 2 ^ 64 →
  ∃ m', (if b then kern (State.memset (u64 (d + k_hhdm (s_k s))) 0 n) else ret tt) (with_mem s m) = Ok (tt, with_mem s m') ∧
    ∀ x, read8 m' x = if decide (d <= x < d + n) then 0 else read8 m x.
Proof.
  intros Hb Hd. destruct b.
  - exists (memset_bytes m d 0 n). split.
    + change (kern (State.memset ?p 0 n) (with_mem s m)) with (Ok (tt, with_mem s (memset_bytes m (hhdm_phys (s_k s) p) 0 n))).
      by rewrite hhdm_phys_u64_add.
    + intros x. case_decide; [by rewrite read8_memset_in|by apply read8_memset_out].
  - exists m. split; [done|]. intros x. rewrite Hb, decide_False by (done || lia). done.
Qed.

(** The three writes that fill the page at [4096 * fr]. *)
Lemma fill_page {R} (r : R) o c :
  0 <= o < 4096 → 0 <= c → o + c <= 4096 → lo + c <= hi →
  let vpage := u64 (4096 * fr + k_hhdm (s_k s)) in
  ∃ m, ((if negb (o =? 0) then kern (State.memset vpage 0 o) else ret tt) ;;;
    (if negb (c =? 0) then kcopy (Z.to_nat c) (u64 (vpage + o)) lo else ret tt) ;;;
    (if c <? 4096 - o then kern (State.memset (u64 (vpage + o + c)) 0 (4096 - o - c)) else ret tt) ;;; ret r) s
    = Ok (r, with_mem s m) ∧ outside fr (k_mem (s_k s)) m ∧
    ∀ j, 0 <= j < 4096 → read8 m (4096 * fr + j) = if decide (o <= j < o + c) then B (lo + (j - o)) else 0.
Proof.
  intros Ho Hc Hoc Hend vpage. unfold vpage.
  replace (u64 (u64 (4096 * fr + k_hhdm (s_k s)) + o)) with (u64 (4096 * fr + o + k_hhdm (s_k s)))
    by (rewrite u64_add_l; f_equal; lia).
  replace (u64 (u64 (4096 * fr + k_hhdm (s_k s)) + o + c)) with (u64 (4096 * fr + o + c + k_hhdm (s_k s)))
    by (rewrite <- (Z.add_assoc (u64 _) o c), u64_add_l; f_equal; lia).
  destruct (zero_ok (negb (o =? 0)) (4096 * fr) o (k_mem (s_k s))) as (m1 & E1 & R1); [destruct (Z.eqb_spec o 0); done|lia|].
  rewrite with_mem_id in E1. rewrite (bind_ok _ _ _ _ _ E1).
  assert (outside fr (k_mem (s_k s)) m1) as H1.
  { intros x Hx. rewrite R1, decide_False; [done|]. Z.div_mod_to_equations. lia. }
  assert (∃ m2, (if negb (c =? 0) then kcopy (Z.to_nat c) (u64 (4096 * fr + o + k_hhdm (s_k s))) lo else ret tt) (with_mem s m1)
    = Ok (tt, with_mem s m2) ∧ ∀ x, read8 m2 x =
      if decide (4096 * fr + o <= x < 4096 * fr + o + c) then B (lo + (x - (4096 * fr + o))) else read8 m1 x) as (m2 & E2 & R2).
  { destruct (Z.eqb_spec c 0) as [->|Hc0]; cbn [negb].
    - exists m1. split; [done|]. intros x. by rewrite decide_False by lia.
    - destruct (kcopy_ok (Z.to_nat c) (4096 * fr + o) lo m1) as (m2 & E2 & R2); [done|lia..|].
      exists m2. rewrite Z2Nat.id in R2 by lia. done. }
  rewrite (bind_ok _ _ _ _ _ E2).
  destruct (zero_ok (c <? 4096 - o) (4096 * fr + o + c) (4096 - o - c) m2) as (m3 & E3 & R3); [destruct (Z.ltb_spec c (4096 - o)); [done|lia]|lia|].
  rewrite (bind_ok _ _ _ _ _ E3). exists m3. split; [done|]. split.
  - intros x Hx. rewrite R3, decide_False, R2, decide_False by (Z.div_mod_to_equations; lia). by apply H1.
  - intros j Hj. rewrite R3, R2, R1. repeat case_decide; try lia. f_equal. lia.
Qed.
End kcopy.

Section loading.
Context {FA : FrameAllocator allocate_page free_page}.

(** ** Writing outside the tables *)

Lemma pt_inv_kept T top k k' :
  pt_inv T top k → fa_inv k' → (∀ t, fa_lent k t → fa_lent k' t) →
  (∀ t x, is_Some (T !! t) → x / 4096 = t / 4096 → read8 (k_mem k') x = read8 (k_mem k) x) →
  pt_inv T top k' ∧ ∀ va, walk 4 (k_mem k') top va = walk 4 (k_mem k) top va.
Proof.
  intros [Hfa Htop Hok Hl] Hfa' Hl' Hm.
  assert (∀ t i, is_Some (T !! t) → 0 <= i < 512 → entry (k_mem k') t i = entry (k_mem k) t i) as He.
  { intros t i [l Ht] Hi. destruct (pt_level _ _ Hok t l Ht) as (_ & Hal & _). apply entry_ext. intros x Hx.
    apply (Hm t); [by eexists|]. Z.div_mod_to_equations. lia. }
  split.
  - split; [done..| |by auto]. destruct Hok as [P1 P2 P3]. split; [done|..].
    + intros t l i Ht Hl1 Hi. rewrite He by (done || by eexists). by apply P2.
    + intros t l i t' l' i' Ht Ht' ???? . rewrite !He by (done || by eexists). by apply (P3 t l i t' l' i').
  - assert (∀ n t va, T !! t = Some n → walk n (k_mem k') t va = walk n (k_mem k) t va) as Hw; [|by auto].
    induction n as [|n IH]; intros t va Ht; [done|]. cbn [walk].
    rewrite He by (apply pml_index_range || by eexists).
    destruct (is_present _); cbn [negb]; [|done]. destruct n as [|n]; [done|]. cbn [Nat.eqb].
    destruct (links (S (S n)) (entry (k_mem k) t _)) eqn:Hlk; [|done].
    apply IH. apply (pt_child _ _ Hok t (S n) (pml_index (Z.of_nat (S (S n))) va)); [done|lia|apply pml_index_range|done].
Qed.

(** ** Bytes of the file *)

(** The access of [v] reads [b], from a byte that is neither the allocator's
    nor part of a table. *)
Definition readable (smap : bool) (T : gmap Z nat) (k : kernel) (v b : Z) : Prop :=
  ∃ pa, resolve smap k false v = Some pa ∧ ¬ fa_owns k pa ∧ (∀ t, is_Some (T !! t) → pa / 4096 ≠ t / 4096) ∧
    read8 (k_mem k) pa = b.

Lemma readable_step smap n top T k T' k' v b :
  pt_inv T top k → Z.land (cr3 (k_cpu k)) PTE_MASK = top → pt_step n top T k T' k' →
  walk 4 (k_mem k') top v = walk 4 (k_mem k) top v → readable smap T k v b → readable smap T' k' v b.
Proof.
  intros Hi Hc [I S R N O E Mm] Hw (pa & Hr & Ho & Ht & Hb). exists pa. split_and!.
  - rewrite <- Hr. apply resolve_walk; [apply R..|by rewrite Hc].
  - auto.
  - intros t Ht'. destruct (N t Ht') as [HT|Hot]; [auto|]. intros Heq. apply Ho. by apply (fa_page k t pa); [apply Hi| |].
  - by rewrite <- Hb, Mm.
Qed.

(** ** One page *)

(** The frame [pa] has been taken from the allocator and holds [content]. *)
Record frame_filled (k : kernel) (T' : gmap Z nat) (k' : kernel) (pa : Z) (content : Z → Z) : Prop := {
  ff_aligned : pa mod 4096 = 0;
  ff_was : fa_owns k pa;
  ff_now : ¬ fa_owns k' pa;
  ff_table : ∀ t, is_Some (T' !! t) → pa / 4096 ≠ t / 4096;
  ff_bytes : ∀ j, 0 <= j < 4096 → read8 (k_mem k') (pa + j) = content j
}.

(** A frame taken from the allocator is no table. *)
Lemma owned_no_table T top k pa t x : pt_inv T top k → fa_owns k pa → is_Some (T !! t) → x / 4096 = t / 4096 → x / 4096 ≠ pa / 4096.
Proof.
  intros Hi Ho Ht Hx Heq. destruct (fa_lent_range k t (pi_fa _ _ _ Hi) (pi_lent _ _ _ Hi t Ht)) as [_ Hno].
  apply Hno. apply (fa_page k pa t); [apply Hi|lia|done].
Qed.

(** Taking a frame and mapping it leaves the rest of the tree alone, and the
    frame to the caller. *)
Lemma take_and_map {R} s pm T top va flags (K : Z → Z → M sys R) Q :
  pt_inv T top (s_k s) → has_top pm top (s_k s) → fits 1 (k_mem (s_k s)) top va → is_u64 flags →
  can_lock vmm_spinlock (s_k s) → can_lock pmm_spinlock (s_k s) → enough 4 (s_k s) →
  (∀ p k1 k2 T', handed_out fa_owns p (s_k s) k1 → (∀ N, enough N (s_k s) → enough (N - 1) k1) → pt_step 3 top T k1 T' k2 →
    mapped 1 va (leaf_entry 1 p flags) top (k_mem (s_k s)) (k_mem k2) →
    wp (K p (u64 (p + k_hhdm k2))) (with_k s k2) Q) →
  wp (let* p := kern allocate_page in let* off := gets (λ s, k_hhdm (s_k s)) in
      kern (vmm_map_page pm va p flags) ;;; K p (u64 (p + off))) s Q.
Proof.
  intros Hi Ht Hfit Hf Hl1 Hl2 Hen HK. apply wp_bind, wp_kern. eapply wp_mono.
  { apply fa_alloc; [apply Hi|done|]. by apply (enough_some 4). }
  intros p k1 (Hfa1 & Hho & Hlent). pose proof (ho_rest _ _ _ _ Hho) as R1.
  destruct (pt_inv_kept T top (s_k s) k1 Hi Hfa1) as [Hi1 Hw1].
  { intros t Hl. apply Hlent. by left. }
  { intros t x Hts Hx. apply (ho_mem _ _ _ _ Hho). intros Ho. by apply (owned_no_table T top (s_k s) x t x Hi Ho Hts Hx). }
  assert (∀ N, enough N (s_k s) → enough (N - 1) k1) as Hen1 by (intros N; apply enough_handed_out with p; apply Hho).
  apply wp_bind, wp_gets. apply wp_bind, wp_kern. eapply wp_mono.
  { apply (vmm_map_page_sized_spec 1 pm T top va p flags k1); try done.
    - by apply (has_top_rest _ _ (s_k s)).
    - lia.
    - unfold fits. by rewrite Hw1.
    - by apply (can_lock_same_rest _ (s_k s)).
    - by apply (can_lock_same_rest _ (s_k s)).
    - by apply (Hen1 4). }
  intros [] k2 (T' & Hst & Hmap). cbn [s_k with_k]. rewrite <- (sr_hhdm _ _ (ps_rest _ _ _ _ _ _ Hst)).
  apply (HK p k1 k2 T'); try done.
  intros va'. destruct (Hmap va') as [M1 M2]. split; [done|]. rewrite <- Hw1. done.
Qed.

(** Filling the frame afterwards: the steps together. *)
Lemma filled_step T top k k1 T' k2 pa m content :
  pt_inv T top k → handed_out fa_owns pa k k1 → (∀ N, enough N k → enough (N - 1) k1) → pt_step 3 top T k1 T' k2 →
  outside (pa / 4096) (k_mem k2) m → (∀ j, 0 <= j < 4096 → read8 m (pa + j) = content j) →
  pt_step 4 top T k T' (set_mem k2 m) ∧ frame_filled k T' (set_mem k2 m) pa content ∧
  ∀ va, walk 4 m top va = walk 4 (k_mem k2) top va.
Proof.
  intros Hi Hho Hen [I S R N O E Mm] Hm Hj. pose proof (ho_was _ _ _ _ Hho) as Hwas.
  assert (¬ fa_owns k1 pa) as Hno1 by (intros [_ ?]%(ho_owns _ _ _ _ Hho); done).
  assert (∀ x, fa_owns k2 x → x / 4096 ≠ pa / 4096) as Hno2 by (intros x Hx%O; by apply (ho_owns _ _ _ _ Hho) in Hx as [_ ?]).
  assert (∀ t, is_Some (T' !! t) → pa / 4096 ≠ t / 4096) as Htab.
  { intros t Ht. destruct (N t Ht) as [HT|Hot]; [intros Heq; by apply (owned_no_table T top k pa t t Hi Hwas HT)|].
    apply (ho_owns _ _ _ _ Hho) in Hot as [_ ?]. done. }
  destruct (fa_frame k2 (set_mem k2 m) (pi_fa _ _ _ I)) as (Hfa3 & Ho3 & Hl3); [done..|intros x Hx; by apply Hm, Hno2|].
  destruct (pt_inv_kept T' top k2 (set_mem k2 m) I Hfa3) as [Hi3 Hw3].
  { intros t. by rewrite Hl3. }
  { intros t x Ht Hx. apply Hm. rewrite Hx. intros Heq. by apply (Htab t). }
  split; [|split; [|done]].
  - split; try done.
    + transitivity k1; [apply Hho|by transitivity k2].
    + intros t Ht. destruct (N t Ht) as [HT|Hot%(ho_owns _ _ _ _ Hho)]; [by left|right; apply Hot].
    + intros x Hx%Ho3%O. by apply (ho_owns _ _ _ _ Hho) in Hx as [? _].
    + intros M HM. apply (enough_owns _ k2); [done|]. replace (M - 4) with (M - 1 - 3) by lia. auto.
    + intros x Hx Ht. cbn. rewrite Hm; [rewrite Mm; [by apply (ho_mem _ _ _ _ Hho)| |done]|].
      * by intros [? _]%(ho_owns _ _ _ _ Hho).
      * intros Heq. apply Hx. by apply (fa_page k pa x); [apply Hi| |].
  - split; [apply Hho|done| |done|done]. intros Hx%Ho3%Hno2. done.
Qed.

Lemma load_page_round_ok s pm T top flags pages vo st (B : Z → Z) :
  let o := page_offset vo st in let c := page_copy vo st in
  sg_p st < pages → 0 <= o < 4096 → 0 <= c → o + c <= 4096 → 0 <= sg_src st → sg_src st + c < 2 ^ 64 → is_u64 flags →
  pt_inv T top (s_k s) → has_top pm top (s_k s) → fits 1 (k_mem (s_k s)) top (sg_va st) →
  can_lock vmm_spinlock (s_k s) → can_lock pmm_spinlock (s_k s) → enough 4 (s_k s) →
  Z.land (cr3 (k_cpu (s_k s))) PTE_MASK = top → (∀ v, 0 <= B v < 256) →
  (∀ v, sg_src st <= v < sg_src st + c → readable (smap_on s) T (s_k s) v (B v) ∧ ¬ same_slot 1 (sg_va st) v) →
  wp (load_page_round pm flags pages vo st) s (λ r s', r = inl (seg_next vo st) ∧ ∃ T' k' pa,
    s' = with_k s k' ∧ pt_step 4 top T (s_k s) T' k' ∧
    mapped 1 (sg_va st) (leaf_entry 1 pa flags) top (k_mem (s_k s)) (k_mem k') ∧
    frame_filled (s_k s) T' k' pa (λ j, if decide (o <= j < o + c) then B (sg_src st + (j - o)) else 0)).
Proof.
  intros o c Hp Ho Hc Hoc Hs0 Hs1 Hf Hi Ht Hfit Hl1 Hl2 Hen Hcr HB Hsrc. unfold load_page_round.
  rewrite (proj2 (Z.ltb_lt _ _) Hp).
  apply (take_and_map s pm T top (sg_va st) flags (λ _ vpage,
    (if negb (o =? 0) then kern (State.memset vpage 0 o) else ret tt) ;;;
    (if negb (c =? 0) then kcopy (Z.to_nat c) (u64 (vpage + o)) (sg_src st) else ret tt) ;;;
    (if c <? page_space vo st then kern (State.memset (u64 (vpage + o + c)) 0 (page_space vo st - c)) else ret tt) ;;;
    ret (inl (seg_next vo st))) _ Hi Ht Hfit Hf Hl1 Hl2 Hen). intros pa k1 k2 T' Hho Hen1 Hst Hmap.
  pose proof (fa_range _ _ (pi_fa _ _ _ Hi) (ho_was _ _ _ _ Hho)) as Hpa. pose proof (ho_aligned _ _ _ _ Hho) as Hal.
  set (fr := pa / 4096). assert (pa = 4096 * fr) as Epa by (unfold fr; Z.div_mod_to_equations; lia).
  replace (page_space vo st) with (4096 - o) by (unfold page_space; fold o; by rewrite u64_page_rest).
  assert (∀ m v, outside fr (k_mem k2) m → sg_src st <= v < sg_src st + c →
    user_byte (with_mem (with_k s k2) m) v = Some (B v)) as Hrd.
  { intros m v Hm Hv. destruct (Hsrc v Hv) as [Hrd Hns].
    destruct (filled_step T top (s_k s) k1 T' k2 pa m (λ j, read8 m (pa + j)) Hi Hho Hen1 Hst Hm) as (Hst4 & _ & Hw4); [done|].
    destruct (readable_step (smap_on s) 4 top T (s_k s) T' (set_mem k2 m) v (B v) Hi Hcr Hst4) as (x & Hx & _ & _ & Hb); [|done|].
    { cbn [k_mem set_mem]. rewrite Hw4. by apply (proj2 (Hmap v)). }
    unfold user_byte. change (smap_on (with_mem (with_k s k2) m)) with (smap_on s).
    change (s_k (with_mem (with_k s k2) m)) with (set_mem k2 m). by rewrite Hx, Hb. }
  destruct (fill_page (with_k s k2) fr (sg_src st) (sg_src st + c) B Hrd HB Hs0 Hs1 ltac:(lia)
    (inl (B := unit) (seg_next vo st)) o c Ho Hc Hoc ltac:(lia)) as (m & E & Hm & Hj).
  rewrite <- Epa in E, Hj. eapply wp_ok; [exact E|].
  destruct (filled_step T top (s_k s) k1 T' k2 pa m _ Hi Hho Hen1 Hst Hm Hj) as (Hst4 & Hff & Hw4).
  split; [done|]. exists T', (set_mem k2 m), pa. split_and!; try done.
  intros va'. destruct (Hmap va') as [M1 M2]. cbn [k_mem set_mem]. by rewrite Hw4.
Qed.

Lemma frame_filled_step n top k0 T k T' k' pa content :
  pt_inv T top k → frame_filled k0 T k pa content → pt_step n top T k T' k' → frame_filled k0 T' k' pa content.
Proof.
  intros Hi [A W Nw Tb Bs] [I S R N O E Mm]. split; [done|done|auto| |].
  - intros t Ht. destruct (N t Ht) as [HT|Hot]; [auto|]. intros Heq. apply Nw. by apply (fa_page k t pa); [apply Hi| |].
  - intros j Hj. assert ((pa + j) / 4096 = pa / 4096) as Hp by (Z.div_mod_to_equations; lia).
    rewrite Mm; [by apply Bs| |].
    + intros Hx. apply Nw. by apply (fa_page k (pa + j) pa); [apply Hi| |].
    + intros t Ht. rewrite Hp. auto.
Qed.

(** ** The loop over the pages *)
Section segment.
Context (s : sys) (file pm top : Z) (T : gmap Z nat) (ph : elf_program_header_64) (Hok : seg_ok file ph).
Context (Hi : pt_inv T top (s_k s)) (Ht : has_top pm top (s_k s)) (Hcr : Z.land (cr3 (k_cpu (s_k s))) PTE_MASK = top).
Context (Hl1 : can_lock vmm_spinlock (s_k s)) (Hl2 : can_lock pmm_spinlock (s_k s)) (Hen : enough (4 * seg_pages ph) (s_k s)).
Context (Hfit : ∀ q, 0 <= q < seg_pages ph → fits 1 (k_mem (s_k s)) top (seg_base ph + q * 4096)).
Context (Hkern : KERNEL_BASE <= file + ph_offset ph).
Context (Hsrc : ∀ v, file + ph_offset ph <= v < file + ph_offset ph + file_size ph → ∃ b, readable (smap_on s) T (s_k s) v b).
Set Default Proof Using "All".

Definition src_byte (v : Z) : Z := default 0 (user_byte s v).

(** Byte [j] of page [q]. *)
Definition page_content (q : nat) (j : Z) : Z :=
  match page_source (seg_offset ph) (seg_at file ph q) j with Some v => src_byte v | None => 0 end.

Record loading (p : nat) (T' : gmap Z nat) (frames : list Z) (k : kernel) : Prop := {
  lo_step : pt_step (4 * Z.of_nat p) top T (s_k s) T' k;
  lo_len : length frames = p;
  lo_nodup : NoDup frames;
  lo_frames : ∀ q pa, frames !! q = Some pa → frame_filled (s_k s) T' k pa (page_content q);
  lo_pages : ∀ q pa va, frames !! q = Some pa → page_dist (seg_base ph) va = Z.of_nat q →
    walk 4 (k_mem k) top va = Some (1%nat, leaf_entry 1 pa (seg_flags ph));
  lo_others : ∀ va, Z.of_nat p <= page_dist (seg_base ph) va → walk 4 (k_mem k) top va = walk 4 (k_mem (s_k s)) top va
}.

Lemma seg_bounds : 0 <= seg_pages ph ∧ seg_base ph mod 4096 = 0 ∧ 0 <= seg_base ph ∧ seg_base ph / 4096 + seg_pages ph <= 2 ^ 35.
Proof using Hok.
  rewrite (seg_base_page file ph Hok), seg_pages_count by apply Hok.
  destruct Hok. Z.div_mod_to_equations. lia.
Qed.

Lemma seg_flags_u64 : is_u64 (seg_flags ph).
Proof.
  unfold seg_flags, is_u64. destruct (negb _), (_ =? 0); vm_compute; split; congruence.
Qed.

Lemma src_byte_range v : 0 <= src_byte v < 256.
Proof. unfold src_byte, user_byte. destruct (resolve _ _ _ _); cbn; [apply read8_range|lia]. Qed.

Lemma src_readable v :
  file + ph_offset ph <= v < file + ph_offset ph + file_size ph → readable (smap_on s) T (s_k s) v (src_byte v).
Proof.
  intros Hv. destruct (Hsrc v Hv) as (b & pa & H1 & H2 & H3 & H4). exists pa. split_and!; try done.
  unfold src_byte, user_byte. by rewrite H1.
Qed.

(** The file is in the kernel's half, the segment in the user's. *)
Lemma src_far v : file + ph_offset ph <= v < file + ph_offset ph + file_size ph → seg_pages ph <= page_dist (seg_base ph) v.
Proof.
  intros Hv. destruct seg_bounds as (? & ? & ? & ?). pose proof (so_src _ _ Hok). unfold KERNEL_BASE in Hkern. unfold page_dist.
  assert (2 ^ 52 - 2 ^ 35 <= v / 4096 < 2 ^ 52) as Hr by (Z.div_mod_to_equations; lia).
  set (a := v / 4096) in *. set (b := seg_base ph / 4096) in *.
  assert (0 <= b) by (unfold b; Z.div_mod_to_equations; lia). clearbody a b.
  replace (a - b) with (a - b - (2 ^ 52 - 2 ^ 36) + (2 ^ 16 - 1) * 2 ^ 36) by lia. rewrite Z_mod_plus_full, Z.mod_small; lia.
Qed.

(** What page [p] takes from the file. *)
Lemma page_bounds p : Z.of_nat p < seg_pages ph →
  let st := seg_at file ph p in let o := page_offset (seg_offset ph) st in let c := page_copy (seg_offset ph) st in
  sg_p st = Z.of_nat p ∧ sg_va st = seg_base ph + Z.of_nat p * 4096 ∧ 0 <= o < 4096 ∧ 0 <= c ∧ o + c <= 4096 ∧
  file + ph_offset ph <= sg_src st ∧ sg_src st + c <= file + ph_offset ph + file_size ph.
Proof.
  intros Hp. destruct seg_bounds as (_ & _ & Hb0 & Hb). cbv zeta.
  assert (4096 * Z.of_nat p < 2 ^ 48) as Hsm by (pose proof (Z.div_pos (seg_base ph) 4096 ltac:(lia) ltac:(lia)); lia).
  rewrite (seg_at_closed file ph Hok p Hsm), (seg_offset_page file ph Hok).
  pose proof (Z.mod_pos_bound (virt_addr ph) 4096 ltac:(lia)). pose proof (so_file _ _ Hok).
  unfold page_copy, page_space, page_offset, PAGE_SIZE, consumed. cbn [sg_p sg_va sg_src sg_remaining].
  destruct (Z.eqb_spec (Z.of_nat p) 0); rewrite u64_page_rest by lia; case_ltb; split_and!; lia.
Qed.

Lemma page_dist_page q : 0 <= q < 2 ^ 36 → page_dist (seg_base ph) (seg_base ph + q * 4096) = q.
Proof. intros Hq. apply (same_slot_dist (seg_base ph) (seg_base ph + q * 4096) q Hq). done. Qed.

Lemma loading_start : loading 0 T [] (s_k s).
Proof.
  split; [exact (pt_step_refl top T (s_k s) Hi)|done|constructor|by intros q pa|by intros q pa|done].
Qed.

Lemma loading_fits p T' frames k : loading p T' frames k → Z.of_nat p < seg_pages ph →
  fits 1 (k_mem k) top (seg_base ph + Z.of_nat p * 4096).
Proof.
  intros L Hp. destruct seg_bounds as (_ & _ & Hb0 & Hb). unfold fits.
  rewrite (lo_others _ _ _ _ L); [by apply Hfit; lia|].
  rewrite page_dist_page; [lia|]. pose proof (Z.div_pos (seg_base ph) 4096 ltac:(lia) ltac:(lia)). lia.
Qed.

Lemma loading_next p T1 frames k T2 k' pa :
  Z.of_nat p < seg_pages ph → loading p T1 frames k → pt_step 4 top T1 k T2 k' →
  mapped 1 (seg_base ph + Z.of_nat p * 4096) (leaf_entry 1 pa (seg_flags ph)) top (k_mem k) (k_mem k') →
  frame_filled k T2 k' pa (page_content p) → loading (S p) T2 (frames ++ [pa]) k'.
Proof.
  intros Hp [St Len Nd Fr Pg Ot] St' Hm Hff. pose proof (ps_inv _ _ _ _ _ _ St) as Hi1.
  destruct seg_bounds as (_ & _ & Hb0 & Hb). pose proof (Z.div_pos (seg_base ph) 4096 ltac:(lia) ltac:(lia)).
  assert (∀ va, same_slot 1 (seg_base ph + Z.of_nat p * 4096) va ↔ page_dist (seg_base ph) va = Z.of_nat p) as Hss
    by (intros va; apply same_slot_dist; lia).
  assert (∀ q a, (frames ++ [pa]) !! q = Some a → frames !! q = Some a ∧ (q < p)%nat ∨ q = p ∧ a = pa) as Hlk.
  { intros q a Hq. apply lookup_app_Some in Hq as [Hq|[Hge Hq]].
    - left. split; [done|]. apply lookup_lt_Some in Hq. lia.
    - apply list_lookup_singleton_Some in Hq as [Hq ->]. right. split; [lia|done]. }
  split.
  - replace (4 * Z.of_nat (S p)) with (4 * Z.of_nat p + 4) by lia. by eapply pt_step_trans; [apply Hi| |].
  - rewrite length_app, Len. cbn. lia.
  - apply NoDup_app. split; [done|]. split; [|apply NoDup_singleton]. intros a Ha ->%list_elem_of_singleton.
    apply list_elem_of_lookup_1 in Ha as [q Hq]. by apply (ff_now _ _ _ _ _ (Fr q pa Hq)), (ff_was _ _ _ _ _ Hff).
  - intros q a [[Hq _]|[-> ->]]%Hlk; [by apply (frame_filled_step 4 top _ T1 k); auto|].
    destruct Hff as [A W Nw Tb Bs]. split; try done. by apply (ps_owns _ _ _ _ _ _ St).
  - intros q a va [[Hq Hlt]|[-> ->]]%Hlk Hd.
    + rewrite (proj2 (Hm va)); [by apply (Pg q)|]. rewrite Hss. lia.
    + by apply (proj1 (Hm va)), Hss.
  - intros va Hva. rewrite (proj2 (Hm va)); [apply Ot; lia|]. rewrite Hss. lia.
Qed.

Lemma load_round p T' frames k :
  Z.of_nat p < seg_pages ph → loading p T' frames k →
  wp (load_page_round pm (seg_flags ph) (seg_pages ph) (seg_offset ph) (seg_at file ph p)) (with_k s k) (λ r s',
    r = inl (seg_at file ph (S p)) ∧ ∃ T2 k2 pa, s' = with_k s k2 ∧ loading (S p) T2 (frames ++ [pa]) k2).
Proof.
  intros Hp L. destruct (page_bounds p Hp) as (E1 & E2 & Ho & Hc & Hoc & Hs1 & Hs2).
  pose proof (lo_step _ _ _ _ L) as St. pose proof (ps_rest _ _ _ _ _ _ St) as R. pose proof (so_src _ _ Hok). pose proof (so_off _ _ Hok).
  assert (∀ v, file + ph_offset ph <= v < file + ph_offset ph + file_size ph → Z.of_nat p < page_dist (seg_base ph) v) as Hfar
    by (intros v Hv; pose proof (src_far v Hv); lia).
  eapply wp_mono; [apply (load_page_round_ok (with_k s k) pm T' top (seg_flags ph) (seg_pages ph) (seg_offset ph)
    (seg_at file ph p) src_byte)|]; try (done || lia).
  - apply seg_flags_u64.
  - apply St.
  - by apply (has_top_rest _ _ (s_k s)).
  - rewrite E2. by apply (loading_fits p T' frames).
  - by apply (can_lock_same_rest _ (s_k s)).
  - by apply (can_lock_same_rest _ (s_k s)).
  - apply (enough_mono (4 * seg_pages ph - 4 * Z.of_nat p)); [lia|]. by apply (ps_enough _ _ _ _ _ _ St).
  - cbn [s_k with_k]. by rewrite (sr_cpu _ _ R).
  - apply src_byte_range.
  - intros v Hv. specialize (Hfar v ltac:(lia)). split.
    + apply (readable_step (smap_on s) (4 * Z.of_nat p) top T (s_k s)); try done.
      * apply (lo_others _ _ _ _ L). lia.
      * apply src_readable. lia.
    + rewrite E2, same_slot_dist by (pose proof (page_dist_range (seg_base ph) v); lia). lia.
  - intros r s' (-> & T2 & k2 & pa & -> & St2 & Hm & Hff). split; [done|]. exists T2, k2, pa. split; [done|].
    rewrite E2 in Hm. apply (loading_next p T' frames k T2 k2 pa); try done.
    destruct Hff as [A W Nw Tb Bs]. split; try done. intros j Hj. rewrite Bs by done.
    unfold page_content, page_source. by case_decide.
Qed.

Lemma load_loop :
  wp (while_ (load_page_round pm (seg_flags ph) (seg_pages ph) (seg_offset ph)) (seg_start file ph)) s (λ _ s',
    ∃ T' k' frames, s' = with_k s k' ∧ loading (Z.to_nat (seg_pages ph)) T' frames k').
Proof.
  destruct seg_bounds as (Hpg & _ & Hb0 & Hb). pose proof (Z.div_pos (seg_base ph) 4096 ltac:(lia) ltac:(lia)).
  apply (wp_while _ (λ n st s', ∃ p T' frames k, n = seg_pages ph - Z.of_nat p ∧ Z.of_nat p <= seg_pages ph ∧
    st = seg_at file ph p ∧ s' = with_k s k ∧ loading p T' frames k)) with (n := seg_pages ph); [|lia|].
  - intros n st s' Hn (p & T' & frames & k & -> & Hle & -> & -> & L).
    destruct (decide (Z.of_nat p < seg_pages ph)) as [Hlt|Hge].
    + eapply wp_mono; [by apply (load_round p T' frames)|]. intros r s' (-> & T2 & k2 & pa & -> & L2).
      exists (seg_pages ph - Z.of_nat (S p)). split; [lia|]. exists (S p), T2, (frames ++ [pa]), k2. split_and!; (done || lia).
    + assert (p = Z.to_nat (seg_pages ph)) as -> by lia. unfold load_page_round.
      assert (4096 * Z.of_nat (Z.to_nat (seg_pages ph)) < 2 ^ 48) as Hsm by lia.
      rewrite (seg_at_closed file ph Hok _ Hsm). cbn [sg_p]. rewrite Z2Nat.id, Z.ltb_irrefl by lia.
      apply wp_ret. by exists T', k, frames.
  - exists 0%nat, T, [], (s_k s). split_and!; try (done || lia); [by destruct s|apply loading_start].
Qed.
End segment.

(** ** The loaded segment *)

(** The byte the program header asks for at [v]: the file's, or zero. *)
Definition segment_byte (s : sys) (file : Z) (ph : elf_program_header_64) (v : Z) : Z :=
  if decide (virt_addr ph <= v < virt_addr ph + file_size ph)
  then src_byte s (file + ph_offset ph + (v - virt_addr ph)) else 0.

(** The pages of the segment are mapped, to [frames] taken from the allocator,
    which hold the bytes of the segment; no other translation changes. *)
Record segment_loaded (s : sys) (file top : Z) (T : gmap Z nat) (ph : elf_program_header_64) (T' : gmap Z nat)
    (frames : list Z) (k' : kernel) : Prop := {
  sl_step : pt_step (4 * seg_pages ph) top T (s_k s) T' k';
  sl_len : Z.of_nat (length frames) = seg_pages ph;
  sl_nodup : NoDup frames;
  sl_fresh : ∀ pa, pa ∈ frames → pa mod 4096 = 0 ∧ fa_owns (s_k s) pa ∧ ¬ fa_owns k' pa;
  sl_page : ∀ v, seg_base ph <= v < seg_base ph + 4096 * seg_pages ph →
    ∃ pa, frames !! Z.to_nat ((v - seg_base ph) / 4096) = Some pa ∧
      walk 4 (k_mem k') top v = Some (1%nat, leaf_entry 1 pa (seg_flags ph)) ∧
      read8 (k_mem k') (pa + v mod 4096) = segment_byte s file ph v;
  sl_others : ∀ v, seg_pages ph <= page_dist (seg_base ph) v → walk 4 (k_mem k') top v = walk 4 (k_mem (s_k s)) top v
}.

Lemma loading_done s file top T ph T' frames k' :
  seg_ok file ph → loading s file top T ph (Z.to_nat (seg_pages ph)) T' frames k' →
  segment_loaded s file top T ph T' frames k'.
Proof.
  intros Hok [St Len Nd Fr Pg Ot]. destruct (seg_bounds file ph Hok) as (Hpg & Hal & Hb0 & Hb).
  pose proof (Z.div_pos (seg_base ph) 4096 ltac:(lia) ltac:(lia)). rewrite Z2Nat.id in St, Ot by lia.
  split; try done; [lia|..].
  - intros pa [q Hq]%list_elem_of_lookup_1. destruct (Fr q pa Hq). done.
  - intros v Hv. set (q := (v - seg_base ph) / 4096).
    assert (0 <= q < seg_pages ph) as Hq by (unfold q; split; [apply Z.div_pos; lia|apply Z.div_lt_upper_bound; lia]).
    assert (v = seg_base ph + 4096 * q + v mod 4096) as Ev by (unfold q; Z.div_mod_to_equations; lia).
    destruct (lookup_lt_is_Some_2 frames (Z.to_nat q)) as [pa Hpa]; [lia|]. exists pa. split; [done|]. split.
    + apply (Pg _ pa v Hpa). rewrite Z2Nat.id by lia.
      unfold page_dist. replace (v / 4096 - seg_base ph / 4096) with q by (unfold q; Z.div_mod_to_equations; lia).
      apply Z.mod_small. lia.
    + rewrite (ff_bytes _ _ _ _ _ (Fr _ _ Hpa)) by (apply Z.mod_pos_bound; lia). unfold page_content, segment_byte.
      rewrite (page_source_closed file ph Hok) by (try apply Z.mod_pos_bound; lia).
      rewrite Z2Nat.id, <- Ev by lia. by case_decide.
Qed.
End loading.

(** (C26) Loading a segment of a program: when a page-aligned segment lies in
    the user's half, the file can be read in the kernel's half and there are
    frames for its pages and their tables, [load_segment] maps, after the call
    that reserves the range (in the state [k0]; its result is ignored), every page
    of the segment, with the rights the program header asks for, to a frame of
    its own taken from the allocator; the byte at
    virtual address [v] is the file's byte [v - virt_addr] of the segment where
    the file has it and zero elsewhere; the pages cover the whole segment, and
    no other translation of the address space changes. *)
Theorem load_segment_correct {FA : FrameAllocator allocate_page free_page} (s : sys) (file pm top r : Z) (T : gmap Z nat)
    (k0 : kernel) (ph : elf_program_header_64) :
  ph_type ph = ELF_PROG_PT_LOAD_TYPE → seg_ok file ph → KERNEL_BASE <= file + ph_offset ph →
  valloc_at free pm (u64 (mem_size ph + seg_offset ph)) (seg_base ph) false (s_k s) = Ok (r, k0) →
  pt_inv T top k0 → has_top pm top k0 → Z.land (cr3 (k_cpu k0)) PTE_MASK = top →
  can_lock vmm_spinlock k0 → can_lock pmm_spinlock k0 → enough (4 * seg_pages ph) k0 →
  (∀ q, 0 <= q < seg_pages ph → fits 1 (k_mem k0) top (seg_base ph + q * 4096)) →
  (∀ v, file + ph_offset ph <= v < file + ph_offset ph + file_size ph → ∃ b, readable (smap_on s) T k0 v b) →
  seg_base ph <= virt_addr ph ∧ virt_addr ph + mem_size ph <= seg_base ph + 4096 * seg_pages ph ∧
  ∃ T' frames k', load_segment file pm ph s = Ok (tt, with_k s k') ∧
    segment_loaded (with_k s k0) file top T ph T' frames k'.
Proof.
  intros Hty Hok Hkern Hva Hi Ht Hcr Hl1 Hl2 Hen Hfit Hsrc.
  pose proof (seg_pages_cover file ph Hok) as [_ Hcov]. pose proof (seg_base_page file ph Hok) as Hb.
  pose proof (Z.mod_pos_bound (virt_addr ph) 4096 ltac:(lia)). split; [lia|]. split; [lia|].
  destruct (wp_inv _ _ _ (load_loop (with_k s k0) file pm top T ph Hok Hi Ht Hcr Hl1 Hl2 Hen Hfit Hkern Hsrc))
    as ([] & s' & Hrun & T' & k' & frames & -> & L).
  exists T', frames, k'. split; [|by apply loading_done].
  unfold load_segment. rewrite Hty, Z.eqb_refl. cbn [negb]. cbv zeta.
  rewrite (bind_ok _ _ _ r (with_k s k0)) by (unfold kern; by rewrite Hva). exact Hrun.
Qed.

(** * The hypotheses hold *)

(** A byte in memory that is neither the allocator's nor a table's, and the page
    map in use. *)
Section planted.
Context {FA : FrameAllocator allocate_page free_page} (k : kernel) (T : gmap Z nat) (top src b : Z).
Context (Hi : pt_inv T top k).
Context (Hsrc : ∀ x, x / 4096 = src / 4096 → ¬ fa_owns k x ∧ ∀ t, is_Some (T !! t) → x / 4096 ≠ t / 4096).
Set Default Proof Using "All".

Definition planted : kernel := set_cpu (set_mem k (write8 (k_mem k) src b)) (set_cr3 (k_cpu k) top).

Lemma planted_mem x : x / 4096 ≠ src / 4096 → read8 (k_mem planted) x = read8 (k_mem k) x.
Proof. intros Hx. cbn [planted k_mem set_cpu set_mem]. rewrite read8_write8. destruct (Z.eqb_spec x src) as [->|]; done. Qed.

Lemma planted_frames :
  fa_inv planted ∧ (∀ x, fa_owns planted x ↔ fa_owns k x) ∧ (∀ x, fa_lent planted x ↔ fa_lent k x).
Proof.
  refine (fa_frame k planted (pi_fa _ _ _ Hi) eq_refl eq_refl _).
  intros x Hx. apply planted_mem. intros Heq. exact (proj1 (Hsrc x Heq) Hx).
Qed.

Lemma planted_pt : pt_inv T top planted ∧ ∀ va, walk 4 (k_mem planted) top va = walk 4 (k_mem k) top va.
Proof.
  destruct planted_frames as (Hf & _ & Hl). apply (pt_inv_kept T top k planted Hi Hf (λ t, proj2 (Hl t))).
  intros t x Ht Hx. apply planted_mem. intros Heq. exact (proj2 (Hsrc x Heq) t Ht Hx).
Qed.

Lemma planted_lock lk : can_lock lk k → can_lock lk planted.
Proof using. done. Qed.
Lemma planted_enough n : enough n k → enough n planted.
Proof. apply enough_owns. apply planted_frames. Qed.
Lemma planted_has_top pm : has_top pm top k → has_top pm top planted.
Proof using. done. Qed.
Lemma planted_cr3 : cr3 (k_cpu planted) = top.
Proof using. done. Qed.

(** Bytes of the same frame can be read through the direct map. *)
Lemma planted_readable smap x :
  KERNEL_BASE <= x + k_hhdm k → k_hhdm k <= x + k_hhdm k < VALLOC_RANGE_START → x / 4096 = src / 4096 → 0 <= x < 2 ^ 64 →
  readable smap T planted (x + k_hhdm k) (read8 (write8 (k_mem k) src b) x).
Proof.
  intros Hk Hv Hx Hx0. destruct (Hsrc x Hx) as [Ho Ht]. exists x. split_and!; [|by rewrite (proj1 (proj2 planted_frames))|done|done].
  unfold resolve, canonical. rewrite (proj2 (Z.leb_le KERNEL_BASE _)) by done. rewrite orb_true_r. cbn [negb].
  change (k_hhdm planted) with (k_hhdm k). rewrite (proj2 (Z.leb_le _ _) (proj1 Hv)), (proj2 (Z.ltb_lt _ _) (proj2 Hv)). cbn [andb].
  f_equal. by apply (hhdm_phys_add planted).
Qed.

(** No range is free in the page map: the reservation is refused. *)
Lemma planted_valloc pm size0 a tl :
  IS_ALIGNED a PAGE_SIZE = true → k_pagemaps k !! pm = Some (mk_pagemap tl [] []) → can_lock vma_spinlock k →
  valloc_at free pm size0 a false planted = Ok (0, planted).
Proof using FA.
  intros Ha Hp Hl.
  assert (wp (valloc_at free pm size0 a false) planted (λ r k', r = 0 ∧ k' = planted)) as (r & k' & -> & -> & ->)%wp_inv; [|done].
  unfold valloc_at. rewrite Ha. cbn [negb]. apply wp_bind, wp_spinlock_lock; [by apply planted_lock|].
  apply wp_bind. eapply wp_ok; [unfold get_pagemap; change (k_pagemaps (locked _ planted)) with (k_pagemaps k); by rewrite Hp|].
  apply leave_unchanged; [by apply planted_lock|done].
Qed.
End planted.

(** A program in a module that the boot loader put at 1 MiB. *)
Module ElfUp.
Definition src : Z := 0x100012.
Definition file : Z := Booted.hhdm + 0x100000.
Definition ph : elf_program_header_64 := mk_ph ELF_PROG_PT_LOAD_TYPE 5 0x10 0x400010 0x20 0x1800 4096.
Definition kernel6 : kernel := planted VmUp.kernel5 VmUp.top src 0x7f.

Lemma kernel5_hhdm : k_hhdm VmUp.kernel5 = Booted.hhdm.
Proof. vm_compute. reflexivity. Qed.

Lemma src_apart x : x / 4096 = src / 4096 →
  ¬ fa_owns VmUp.kernel5 x ∧ ∀ t, is_Some (VmUp.T !! t) → x / 4096 ≠ t / 4096.
Proof.
  intros Hx. split.
  - intros Ho. pose proof (fa_page VmUp.kernel5 x src (pi_fa _ _ _ VmUp.kernel5_pt) Hx Ho) as Hs.
    revert Hs. vm_compute. intuition congruence.
  - intros t [l Ht]. unfold VmUp.T in Ht. apply lookup_singleton_Some in Ht as [<- _]. rewrite Hx. vm_compute. congruence.
Qed.

Lemma top_entry : Z.land VmUp.top PTE_MASK = VmUp.top.
Proof. vm_compute. reflexivity. Qed.

Lemma file_readable v smap :
  file + ph_offset ph <= v < file + ph_offset ph + file_size ph → ∃ b, readable smap VmUp.T kernel6 v b.
Proof.
  intros Hv. unfold file in Hv. cbn [ph ph_offset file_size] in Hv.
  exists (read8 (write8 (k_mem VmUp.kernel5) src 0x7f) (v - Booted.hhdm)).
  replace (readable smap VmUp.T kernel6 v) with (readable smap VmUp.T kernel6 (v - Booted.hhdm + k_hhdm VmUp.kernel5))
    by (rewrite kernel5_hhdm; f_equal; lia).
  apply (planted_readable VmUp.kernel5 VmUp.T VmUp.top src 0x7f VmUp.kernel5_pt src_apart); rewrite ?kernel5_hhdm;
    unfold KERNEL_BASE, VALLOC_RANGE_START, Booted.hhdm, src in *; try lia. Z.div_mod_to_equations. lia.
Qed.
End ElfUp.

Lemma load_segment_correct_witness :
  ∃ k' pa, load_segment ElfUp.file kernel_pagemap ElfUp.ph (sys0 ElfUp.kernel6) = Ok (tt, with_k (sys0 ElfUp.kernel6) k') ∧
    walk 4 (k_mem k') VmUp.top 0x400012 = Some (1%nat, leaf_entry 1 pa (seg_flags ElfUp.ph)) ∧
    read8 (k_mem k') (pa + 0x12) = 0x7f.
Proof.
  destruct (planted_pt VmUp.kernel5 VmUp.T VmUp.top ElfUp.src 0x7f VmUp.kernel5_pt ElfUp.src_apart) as [Hpt Hw].
  destruct (load_segment_correct (sys0 ElfUp.kernel6) ElfUp.file kernel_pagemap VmUp.top 0 VmUp.T ElfUp.kernel6 ElfUp.ph eq_refl)
    as (_ & _ & T' & frames & k' & Hrun & L).
  - split; vm_compute; congruence.
  - vm_compute. congruence.
  - exact (planted_valloc VmUp.kernel5 VmUp.top ElfUp.src 0x7f kernel_pagemap _ 0x400000 _ eq_refl (lookup_singleton_eq _ _) (VmUp.kernel5_lock _)).
  - exact Hpt.
  - exact (planted_has_top VmUp.kernel5 VmUp.top ElfUp.src 0x7f kernel_pagemap VmUp.kernel5_top).
  - exact ElfUp.top_entry.
  - exact (planted_lock VmUp.kernel5 VmUp.top ElfUp.src 0x7f _ (VmUp.kernel5_lock _)).
  - exact (planted_lock VmUp.kernel5 VmUp.top ElfUp.src 0x7f _ (VmUp.kernel5_lock _)).
  - exact (enough_mono 12 8 _ ltac:(lia) (planted_enough VmUp.kernel5 VmUp.T VmUp.top ElfUp.src 0x7f VmUp.kernel5_pt ElfUp.src_apart 12 VmUp.kernel5_frames)).
  - intros q _. unfold fits. rewrite Hw. exact (VmUp.kernel5_fits 1 _).
  - intros v Hv. exact (ElfUp.file_readable v _ Hv).
  - destruct (sl_page _ _ _ _ _ _ _ _ L 0x400012) as (pa & _ & Hwalk & Hb); [vm_compute; split; congruence|].
    exists k', pa. split; [exact Hrun|split; [exact Hwalk|]].
    transitivity (segment_byte (sys0 ElfUp.kernel6) ElfUp.file ElfUp.ph 0x400012); [exact Hb|vm_compute; reflexivity].
Defined.

(** A segment with an alignment above the page size loses its end: the
    pages are counted from the page of the first byte but mapped from the
    alignment boundary below it, so that the last byte of the segment is in none
    of them. *)
Theorem elf_large_alignment_short (ph : elf_program_header_64) (k : Z) :
  12 < k < 47 → alignment ph = 2 ^ k → 4096 <= virt_addr ph mod 2 ^ k →
  0 <= virt_addr ph → 0 < mem_size ph → virt_addr ph + mem_size ph <= 2 ^ 47 →
  seg_base ph + 4096 * seg_pages ph <= virt_addr ph + mem_size ph - 1.
Proof.
  intros Hk Ha Hv Hp Hm He.
  assert (1 < alignment ph) as H1 by (rewrite Ha; apply Z.pow_gt_1; lia).
  assert (seg_base ph = virt_addr ph - virt_addr ph mod 2 ^ k) as ->.
  { unfold seg_base. rewrite (proj2 (Z.ltb_lt _ _) H1), Ha. apply ldiff_pow2. lia. }
  assert (seg_pages ph = (virt_addr ph + mem_size ph + 4095) / 4096 - virt_addr ph / 4096) as ->.
  { apply seg_pages_count; lia. }
  assert (virt_addr ph mod 4096 = (virt_addr ph mod 2 ^ k) mod 4096) as Hmod.
  { symmetry. apply Z.mod_mod_divide. exists (2 ^ (k - 12)). rewrite <- (Z.pow_add_r 2 _ 12) by lia. f_equal. lia. }
  set (r := virt_addr ph mod 2 ^ k) in *. clearbody r. clear Ha H1. Z.div_mod_to_equations. lia.
Qed.

Lemma elf_large_alignment_short_witness :
  let ph := mk_ph ELF_PROG_PT_LOAD_TYPE 5 0x1000 0x601000 0x1000 0x1000 0x200000 in
  seg_base ph + 4096 * seg_pages ph <= 0x601000 + 0x1000 - 1.
Proof. apply (elf_large_alignment_short (mk_ph ELF_PROG_PT_LOAD_TYPE 5 0x1000 0x601000 0x1000 0x1000 0x200000) 21); vm_compute; intuition congruence. Defined.
