(* ===== verification/IntrInv.v ===== *)
(** The bracket that [dispatch_interupt] puts around a handler: IRQL, end of
    interrupt, and the GS base. *)
From stdpp Require Import base tactics list gmap strings.
From Stdlib Require Import ZArith Lia.
From S2P Require Import Prelude Bits State Spinlock Vmm Vma Libc Str Kbd Sched Io IoInv Cpu Timers Apic Serial Uaccess Fb Dbgstub Intr CpuInv.

(** States that differ in the CPU's registers and the log. *)
Definition with_cpu (s : sys) (c : cpu_t) : sys := with_k s (set_cpu (s_k s) c).

Lemma with_cpu_id s : with_cpu s (k_cpu (s_k s)) = s.
Proof. by destruct s as [[]]. Qed.
Lemma with_cpu_cpu s c c' : with_cpu (with_cpu s c) c' = with_cpu s c'.
Proof. done. Qed.
Lemma with_cpu_logged s c l : logged l (with_cpu s c) = with_cpu (logged l s) c.
Proof. done. Qed.

Definition spurious_vector (v : Z) : Prop :=
  v = INTERRUPT_HANDLER_SPURIOUS_PIC_1 ∨ v = INTERRUPT_HANDLER_SPURIOUS_PIC_2 ∨ v = INTERRUPT_HANDLER_SPURIOUS_APIC.

Section dispatch.
Context `{Hardware}.

Lemma send_eoi_logged irq s :
  f_send_eoi (s_fn s) ≠ send_eoi_stub → ∃ l, l ≠ [] ∧ send_eoi irq s = Ok (tt, logged l s).
Proof.
  intros Hf. unfold send_eoi, bind, gets. destruct (f_send_eoi (s_fn s)); [done|..].
  - unfold pic_send_eoi. destruct (8 <=? irq).
    + exists [Out8 PIC1_COMMAND 0x20; Out8 PIC2_COMMAND 0x20]. split; [done|]. by destruct s.
    + exists [Out8 PIC1_COMMAND 0x20]. split; [done|]. by destruct s.
  - eexists [_]. split; [done|]. by destruct s.
  - exists [Wrmsr x2APIC_EOI 0]. split; [done|]. by destruct s.
Qed.

Lemma clr_ac_cpu s : rflags_clr_ac s =
  Ok (tt, with_cpu s (if smap_on s then set_ac (k_cpu (s_k s)) false else k_cpu (s_k s))).
Proof.
  unfold rflags_clr_ac, rd, smap_on. cbn. destruct (_ =? 0); cbn; [by rewrite with_cpu_id|done].
Qed.

(** The GS base that a handler for this frame finds and leaves. *)
Definition gs_after (s : sys) (frame : interrupt_frame) : bool :=
  if from_user frame && (s_var s fred_enbled =? 0) then negb (user_gs (k_cpu (s_k s))) else user_gs (k_cpu (s_k s)).

Lemma swapgs_if_user_cpu frame s :
  swapgs_if_user frame s = Ok (tt, with_cpu s (set_user_gs (k_cpu (s_k s)) (gs_after s frame))).
Proof.
  unfold swapgs_if_user, gs_after. destruct (from_user frame); cbn [andb].
  - unfold bind, rd, gets. cbn. destruct (_ =? 0); [done|]. destruct s as [[? ? []]]. done.
  - destruct s as [[? ? []]]. done.
Qed.

(** The registers at the end of a spurious interrupt. *)
Definition spurious_cpu (s : sys) (frame : interrupt_frame) (c : cpu_t) : Prop :=
  let c0 := k_cpu (s_k s) in
  user_gs c = user_gs c0 ∧ c_if c = false ∧
  c_ac c = (if from_user frame && smap_on s then false else c_ac c0) ∧
  cr8 c = (if f_vector frame =? INTERRUPT_HANDLER_SPURIOUS_APIC then 15 else cr8 c0) ∧
  cr3 c = cr3 c0 ∧ fsbas c = fsbas c0 ∧ tss_rsp0 c = tss_rsp0 c0 ∧ fpu c = fpu c0 ∧ c_rsp c = c_rsp c0.

Lemma enter_ac frame s :
  (if from_user frame then rflags_clr_ac else ret tt) s =
  Ok (tt, with_cpu s (if from_user frame && smap_on s then set_ac (k_cpu (s_k s)) false else k_cpu (s_k s))).
Proof. destruct (from_user frame); cbn [andb]; [apply clr_ac_cpu|]. unfold ret. by rewrite with_cpu_id. Qed.

Lemma irql_raise_cpu n s :
  cr8 (k_cpu (s_k s)) <= n → kern (irql_raise n) s = Ok (cr8 (k_cpu (s_k s)), with_cpu s (set_cr8 (k_cpu (s_k s)) n)).
Proof.
  intros Hn. unfold kern, irql_raise, get_irql, bind, gets.
  destruct (Z.ltb_spec n (cr8 (k_cpu (s_k s)))); [lia|].
  destruct (Z.eqb_spec n (cr8 (k_cpu (s_k s)))) as [->|]; [|done]. destruct s as [[? ? []]]. done.
Qed.

Lemma irql_lower_cpu n s :
  n <= cr8 (k_cpu (s_k s)) → kern (irql_lower n) s = Ok (cr8 (k_cpu (s_k s)), with_cpu s (set_cr8 (k_cpu (s_k s)) n)).
Proof.
  intros Hn. unfold kern, irql_lower, get_irql, bind, gets.
  destruct (Z.ltb_spec (cr8 (k_cpu (s_k s))) n); [lia|].
  destruct (Z.eqb_spec n (cr8 (k_cpu (s_k s)))) as [->|]; [|done]. destruct s as [[? ? []]]. done.
Qed.

Lemma spurious_switch sy rx frame s : spurious_vector (f_vector frame) → dispatch_switch sy rx frame s = Ok (frame, s).
Proof. intros Hv. unfold dispatch_switch. by destruct Hv as [-> | [-> | ->]]. Qed.

Lemma spurious_irql frame : spurious_vector (f_vector frame) →
  Z.land (Z.shiftr (f_vector frame) 4) 0xf = if f_vector frame =? INTERRUPT_HANDLER_SPURIOUS_APIC then 15 else 2.
Proof. by intros [-> | [-> | ->]]. Qed.

(** Leaving: IRQL goes back unless the vector's priority is above dispatch. *)
Lemma leave_ok elapsed (high : bool) n old s :
  n = (if high then 15 else 2) → irq_should_preempt (k_dev (s_k s)) = false →
  cr8 (k_cpu (s_k s)) = n → old <= 2 →
  (if n <=? IRQL_DISPATCH then
     (let* pre := gets (λ s, irq_should_preempt (k_dev (s_k s))) in
      if pre then kern (modify (λ k, set_dev k (set_preempt (k_dev k) false))) ;;; schedule_now elapsed else ret tt) ;;;
     kern (irql_lower old) ;;; ret tt
   else ret tt) s = Ok (tt, with_cpu s (set_cr8 (k_cpu (s_k s)) (if high then 15 else old))).
Proof.
  intros -> Hpre Hc Hold. destruct high.
  - change (15 <=? IRQL_DISPATCH) with false. cbv iota. rewrite <- Hc. unfold ret. by destruct s as [[? ? []]].
  - change (2 <=? IRQL_DISPATCH) with true. cbv iota.
    erewrite bind_ok; [|unfold bind, gets; rewrite Hpre; reflexivity].
    erewrite bind_ok; [|apply irql_lower_cpu; lia]. done.
Qed.

Lemma dispatch_spurious_ok sy elapsed uninit rx frame s :
  spurious_vector (f_vector frame) → f_send_eoi (s_fn s) ≠ send_eoi_stub →
  cr8 (k_cpu (s_k s)) <= IRQL_DISPATCH → irq_should_preempt (k_dev (s_k s)) = false →
  ∃ l c, dispatch_interupt sy elapsed uninit rx frame s = Ok (frame, logged l (with_cpu s c)) ∧ l ≠ [] ∧ spurious_cpu s frame c.
Proof.
  intros Hv Hf Hcr Hpre. unfold dispatch_interupt.
  rewrite (bind_ok _ _ _ _ _ (enter_ac frame s)). set (s1 := with_cpu s _).
  rewrite (bind_ok _ _ _ _ _ (swapgs_if_user_cpu frame s1)). set (s2 := with_cpu s1 _).
  assert (cr8 (k_cpu (s_k s2)) = cr8 (k_cpu (s_k s))) as Hcr2 by (unfold s2, s1; by destruct (from_user frame && smap_on s)).
  rewrite (spurious_irql frame Hv). set (n := if f_vector frame =? INTERRUPT_HANDLER_SPURIOUS_APIC then 15 else 2).
  assert (IRQL_DISPATCH <= n) as Hn by (unfold n, IRQL_DISPATCH; destruct (_ =? _); lia).
  rewrite (proj2 (Z.leb_le _ _) Hn).
  destruct (send_eoi_logged (u8 (f_vector frame - 0x20)) (with_cpu s2 (set_cr8 (k_cpu (s_k s2)) n)) Hf) as (l & Hl & El).
  erewrite bind_ok; [|erewrite bind_ok; [|apply irql_raise_cpu; lia]; erewrite bind_ok; [|exact El]; reflexivity].
  erewrite bind_ok; [|reflexivity]. erewrite bind_ok; [|by apply spurious_switch].
  set (s3 := with_k _ _).
  assert (k_cpu (s_k s3) = set_if (set_cr8 (k_cpu (s_k s2)) n) true) as Hs3 by done.
  erewrite bind_ok; [|apply (leave_ok elapsed (f_vector frame =? INTERRUPT_HANDLER_SPURIOUS_APIC)); [done|done|by rewrite Hs3|by rewrite Hcr2]].
  erewrite bind_ok; [|reflexivity]. erewrite bind_ok; [|apply swapgs_if_user_cpu].
  exists l. eexists. split; [reflexivity|]. split; [done|]. clear.
  unfold spurious_cpu, s3, s2, s1, gs_after. destruct s as [[? ? []]]; cbn.
  destruct (from_user frame), (smap_on _); cbn; split_and!; try done;
    destruct (_ =? 0); cbn; by rewrite ?negb_involutive.
Qed.
End dispatch.

(** A spurious interrupt from one of the PICs leaves no trace: on every
    hardware [dispatch_interupt] returns with the frame unchanged, having sent an
    end of interrupt, with IRQL, GS base, address space and all but the interrupt
    and AC flags as they were; AC is clear if user code was interrupted under
    SMAP. *)
Theorem dispatch_spurious_restores `{Hardware} (sy : symbols) (elapsed : Z → Z) (uninit : Z) (rx : list Z)
    (frame : interrupt_frame) (s : sys) :
  f_vector frame = INTERRUPT_HANDLER_SPURIOUS_PIC_1 ∨ f_vector frame = INTERRUPT_HANDLER_SPURIOUS_PIC_2 →
  f_send_eoi (s_fn s) ≠ send_eoi_stub →
  cr8 (k_cpu (s_k s)) <= IRQL_DISPATCH → irq_should_preempt (k_dev (s_k s)) = false →
  let c0 := k_cpu (s_k s) in
  ∃ l c, dispatch_interupt sy elapsed uninit rx frame s = Ok (frame, logged l (with_cpu s c)) ∧ l ≠ [] ∧
    cr8 c = cr8 c0 ∧ user_gs c = user_gs c0 ∧ cr3 c = cr3 c0 ∧ fsbas c = fsbas c0 ∧ fpu c = fpu c0 ∧
    c_if c = false ∧ c_ac c = (if from_user frame && smap_on s then false else c_ac c0).
Proof.
  intros Hv Hf Hc Hp. destruct (dispatch_spurious_ok sy elapsed uninit rx frame s) as (l & c & E & Hl & Hs); [|done..|].
  { unfold spurious_vector. tauto. }
  exists l, c. destruct Hs as (Hg & Hi & Ha & H8 & H3 & Hfs & _ & Hfpu & _). split_and!; try done.
  by destruct Hv as [Hv|Hv]; rewrite H8, Hv.
Qed.

(** A quiet machine with the PICs set up. *)
Definition quiet : Hardware := {| hw_read _ _ := 0; hw_cpuid _ _ _ := mk_cpuid 0 0 0 0 |}.
Definition pic_up : sys := with_fn (sys0 (kernel0 0xffff800000000000)) (mk_fptrs use_pic_unmask_irq use_pic_send_eoi sleep_stub get_ms_stub get_id_null timer_isr_null).
Definition frame_of (vector cs : Z) : interrupt_frame := mk_frame 0 0 0 0 0 0 0 0 0 0 0 0 0 0 0 vector 0 0 cs 0 0 0.

Lemma dispatch_spurious_restores_witness :
  ∃ l c, @dispatch_interupt quiet sy0 (λ _, 0) 7 [] (frame_of 0x27 0x2b) pic_up = Ok (frame_of 0x27 0x2b, logged l (with_cpu pic_up c)) ∧ l ≠ [] ∧
    cr8 c = 0 ∧ user_gs c = false ∧ cr3 c = 0 ∧ fsbas c = 0 ∧ fpu c = 0 ∧ c_if c = false ∧ c_ac c = false.
Proof. apply (@dispatch_spurious_restores quiet sy0 (λ _, 0) 7 [] (frame_of 0x27 0x2b) pic_up); [by left|done|done|done]. Defined.

(** A spurious interrupt of the local APIC leaves the processor at IRQL 15:
    [dispatch_interupt] raises IRQL to the priority of vector 0xFF and lowers it
    only for priorities up to dispatch level, so that taking any spinlock
    afterwards panics. *)
Theorem spurious_apic_leaves_irql `{Hardware} (sy : symbols) (elapsed : Z → Z) (uninit : Z) (rx : list Z)
    (frame : interrupt_frame) (s : sys) :
  f_vector frame = INTERRUPT_HANDLER_SPURIOUS_APIC → f_send_eoi (s_fn s) ≠ send_eoi_stub →
  cr8 (k_cpu (s_k s)) <= IRQL_DISPATCH → irq_should_preempt (k_dev (s_k s)) = false →
  ∃ s', dispatch_interupt sy elapsed uninit rx frame s = Ok (frame, s') ∧ cr8 (k_cpu (s_k s')) = 15 ∧
    ∀ lk, spinlock_lock lk (s_k s') = Panic "irql raise to lower irql".
Proof.
  intros Hv Hf Hc Hp. destruct (dispatch_spurious_ok sy elapsed uninit rx frame s) as (l & c & E & _ & Hs); [|done..|].
  { unfold spurious_vector. tauto. }
  exists (logged l (with_cpu s c)). split; [done|]. destruct Hs as (_ & _ & _ & H8 & _). rewrite Hv in H8.
  split; [done|]. intros lk. unfold spinlock_lock, irql_raise, get_irql, bind, gets. cbn [s_k logged with_cpu with_log with_k k_cpu set_cpu].
  by rewrite H8.
Qed.

Lemma spurious_apic_leaves_irql_witness :
  ∃ s', @dispatch_interupt quiet sy0 (λ _, 0) 7 [] (frame_of 0xFF 0x08) pic_up = Ok (frame_of 0xFF 0x08, s') ∧
    cr8 (k_cpu (s_k s')) = 15 ∧ ∀ lk, spinlock_lock lk (s_k s') = Panic "irql raise to lower irql".
Proof. apply (@spurious_apic_leaves_irql quiet sy0 (λ _, 0) 7 [] (frame_of 0xFF 0x08) pic_up); done. Defined.
