(* ===== verification/DbgstubInv.v ===== *)
(** The debugger stub's encodings: hexadecimal registers, and packets with
    their checksums. *)
From stdpp Require Import base tactics list gmap strings.
From Stdlib Require Import ZArith Lia Ascii.
From S2P Require Import Prelude Bits State Io IoInv Str StrInv Cpu Timers Apic Serial Uaccess Dbgstub.

(** * Hexadecimal digits *)

(** The digits of a number, most significant first. *)
Fixpoint nibbles (width : nat) (v : Z) : list Z :=
  match width with
  | O => []
  | S w => nibbles w (Z.shiftr v 4) ++ [Z.land v 0xf]
  end.

Lemma land_nibble v : Z.land v 0xf = v mod 16.
Proof. apply (Z.land_ones v 4). lia. Qed.

Lemma hex_digit_of n : 0 <= n < 16 → digit_of (hex_digit n) = Some n.
Proof.
  intros Hn. assert (n = 0 ∨ n = 1 ∨ n = 2 ∨ n = 3 ∨ n = 4 ∨ n = 5 ∨ n = 6 ∨ n = 7 ∨ n = 8 ∨ n = 9 ∨ n = 10 ∨ n = 11 ∨ n = 12
    ∨ n = 13 ∨ n = 14 ∨ n = 15) as Hc by lia.
  by repeat (destruct Hc as [->|Hc]; [reflexivity|]); subst.
Qed.

Lemma hex_digits_nibbles w v : Forall2 is_digit_char (nibbles w v) (hex_digits w v).
Proof.
  revert v. induction w as [|w IH]; intros v; cbn [nibbles hex_digits]; [constructor|].
  apply Forall2_app; [apply IH|]. constructor; [|constructor].
  apply hex_digit_of. rewrite land_nibble. apply Z.mod_pos_bound. lia.
Qed.

Lemma length_hex_digits w v : length (hex_digits w v) = w.
Proof. revert v. induction w as [|w IH]; intros v; cbn [hex_digits]; [done|]. rewrite length_app, IH. cbn. lia. Qed.

Lemma value_nibbles w v : value 16 (nibbles w v) = v mod 16 ^ Z.of_nat w.
Proof.
  revert v. induction w as [|w IH]; intros v; cbn [nibbles]; [by rewrite Z.mod_1_r|].
  rewrite value_app, IH, land_nibble, Z.shiftr_div_pow2 by lia.
  replace (Z.of_nat (S w)) with (1 + Z.of_nat w) by lia. rewrite Z.pow_add_r by lia.
  change (16 ^ 1) with 16. change (2 ^ 4) with 16. rewrite (Z.rem_mul_r v) by lia. lia.
Qed.

Lemma nibbles_lt w v d : d ∈ nibbles w v → 0 <= d < 16.
Proof.
  revert v. induction w as [|w IH]; intros v; cbn [nibbles]; [by rewrite elem_of_nil|].
  rewrite elem_of_app, list_elem_of_singleton. intros [Hd| ->]; [by eapply IH|]. rewrite land_nibble. apply Z.mod_pos_bound. lia.
Qed.

Lemma hex_digits_pos w v c : c ∈ hex_digits w v → 0 < c.
Proof.
  intros (i & Hi)%list_elem_of_lookup_1. destruct (Forall2_lookup_r _ _ _ _ _ (hex_digits_nibbles w v) Hi) as (d & _ & Hd).
  by apply (digit_of_pos c d).
Qed.

(** Parsing reads back what the digits say. *)
Lemma strtoull_hex {S} (s : S) w v :
  (w <= 16)%nat → strtoull (of_list (hex_digits w v)) 16 s = Ok (v mod 16 ^ Z.of_nat w, s).
Proof.
  intros Hw. unfold strtoull, number_base. change (16 =? 0) with false. cbv iota beta zeta.
  rewrite <- value_nibbles. apply (parse_ull _ 16 (hex_digits w v) (nibbles w v)) with (bound := 2 ^ 64).
  - apply (of_list_holds (hex_digits w v)); [apply hex_digits_pos|]. rewrite length_hex_digits. lia.
  - apply hex_digits_nibbles.
  - lia.
  - intros d Hd. by apply (nibbles_lt w v).
  - rewrite value_nibbles. pose proof (Z.mod_pos_bound v (16 ^ Z.of_nat w) ltac:(lia)).
    assert (16 ^ Z.of_nat w <= 16 ^ 16) by (apply Z.pow_le_mono_r; lia). lia.
  - lia.
Qed.

(** * Byte order *)

(** Byte [k] of a word. *)
Lemma byte_at v k : 0 <= k → Z.land (Z.shiftr v (8 * k)) 0xFF = v / 2 ^ (8 * k) mod 256.
Proof. intros Hk. rewrite Z.shiftr_div_pow2 by lia. apply (Z.land_ones _ 8). lia. Qed.

Lemma land_byte v : Z.land v 0xFF = v mod 256.
Proof. apply (Z.land_ones v 8). lia. Qed.

Definition is_byte (b : Z) : Prop := 0 <= b < 256.

Definition word (l : list Z) : Z := foldr (λ b v, b + 256 * v) 0 l.

Lemma word_bound l : Forall is_byte l → 0 <= word l < 256 ^ Z.of_nat (length l).
Proof.
  induction 1 as [|b l Hb Hl IH]; cbn [word foldr length]; [done|]. fold (word l).
  rewrite Nat2Z.inj_succ, Z.pow_succ_r by lia. unfold is_byte in Hb. lia.
Qed.

(** A word is the list of its bytes. *)
Lemma word_bytes n v : 0 <= v < 256 ^ Z.of_nat n → ∃ l, length l = n ∧ Forall is_byte l ∧ v = word l.
Proof.
  revert v. induction n as [|n IH]; intros v Hv.
  { exists []. split_and!; [done|constructor|]. cbn in *. lia. }
  rewrite Nat2Z.inj_succ, Z.pow_succ_r in Hv by lia.
  destruct (IH (v / 256)) as (l & Hl & Hb & Ev); [split; [apply Z.div_pos; lia|apply Z.div_lt_upper_bound; lia]|].
  exists (v mod 256 :: l). split_and!; [by rewrite <- Hl|constructor; [apply Z.mod_pos_bound; lia|done]|].
  cbn [word foldr]. fold (word l). rewrite <- Ev. pose proof (Z.div_mod v 256 ltac:(lia)). lia.
Qed.

Lemma word_byte l k b : Forall is_byte l → l !! k = Some b → Z.land (Z.shiftr (word l) (8 * Z.of_nat k)) 0xFF = b.
Proof.
  intros Hl. revert k. induction Hl as [|b' l Hb Hl IH]; intros [|k] Hk; cbn [lookup list_lookup] in Hk; try done; cbn [word foldr]; fold (word l).
  - injection Hk as ->. change (8 * Z.of_nat 0) with 0. rewrite Z.shiftr_0_r, land_byte.
    unfold is_byte in Hb. symmetry. apply (Z.mod_unique_pos _ _ (word l)); lia.
  - rewrite <- (IH k Hk). f_equal. replace (8 * Z.of_nat (S k)) with (8 + 8 * Z.of_nat k) by lia.
    rewrite <- Z.shiftr_shiftr by lia. f_equal. rewrite Z.shiftr_div_pow2 by lia.
    unfold is_byte in Hb. symmetry. apply (Z.div_unique_pos _ _ _ b'); lia.
Qed.

Lemma bswap64_word b0 b1 b2 b3 b4 b5 b6 b7 :
  Forall is_byte [b0; b1; b2; b3; b4; b5; b6; b7] →
  bswap64 (word [b0; b1; b2; b3; b4; b5; b6; b7]) = word [b7; b6; b5; b4; b3; b2; b1; b0].
Proof.
  intros Hl. pose proof (λ k b, word_byte _ k b Hl) as Hb. unfold bswap64.
  pose proof (Hb 0%nat _ eq_refl) as H0. change (8 * Z.of_nat 0) with 0 in H0. rewrite Z.shiftr_0_r in H0. rewrite H0.
  rewrite (Hb 1%nat _ eq_refl : Z.land (Z.shiftr _ 8) _ = _), (Hb 2%nat _ eq_refl : Z.land (Z.shiftr _ 16) _ = _),
    (Hb 3%nat _ eq_refl : Z.land (Z.shiftr _ 24) _ = _), (Hb 4%nat _ eq_refl : Z.land (Z.shiftr _ 32) _ = _),
    (Hb 5%nat _ eq_refl : Z.land (Z.shiftr _ 40) _ = _), (Hb 6%nat _ eq_refl : Z.land (Z.shiftr _ 48) _ = _),
    (Hb 7%nat _ eq_refl : Z.land (Z.shiftr _ 56) _ = _).
  rewrite !Z.shiftl_mul_pow2 by lia. cbn [word foldr]. lia.
Qed.

Lemma bswap32_word b0 b1 b2 b3 :
  Forall is_byte [b0; b1; b2; b3] → bswap32 (word [b0; b1; b2; b3]) = word [b3; b2; b1; b0].
Proof.
  intros Hl. pose proof (λ k b, word_byte _ k b Hl) as Hb. unfold bswap32.
  pose proof (Hb 0%nat _ eq_refl) as H0. change (8 * Z.of_nat 0) with 0 in H0. rewrite Z.shiftr_0_r in H0. rewrite H0.
  rewrite (Hb 1%nat _ eq_refl : Z.land (Z.shiftr _ 8) _ = _), (Hb 2%nat _ eq_refl : Z.land (Z.shiftr _ 16) _ = _),
    (Hb 3%nat _ eq_refl : Z.land (Z.shiftr _ 24) _ = _).
  rewrite !Z.shiftl_mul_pow2 by lia. cbn [word foldr]. lia.
Qed.

Lemma bswap64_involutive v : is_u64 v → bswap64 (bswap64 v) = v ∧ is_u64 (bswap64 v).
Proof.
  intros Hv. destruct (word_bytes 8 v Hv) as (l & Hl & Hb & ->).
  do 8 (destruct l as [|? l]; [done|]). destruct l; [|done].
  rewrite bswap64_word by done.
  assert (Forall is_byte [z6; z5; z4; z3; z2; z1; z0; z]) as Hr by (rewrite !Forall_cons in *; tauto).
  rewrite bswap64_word by done. split; [done|]. exact (word_bound _ Hr).
Qed.

Lemma bswap32_involutive v : 0 <= v < 2 ^ 32 → bswap32 (bswap32 v) = v ∧ 0 <= bswap32 v < 2 ^ 32.
Proof.
  intros Hv. destruct (word_bytes 4 v Hv) as (l & Hl & Hb & ->).
  do 4 (destruct l as [|? l]; [done|]). destruct l; [|done].
  rewrite bswap32_word by done.
  assert (Forall is_byte [z2; z1; z0; z]) as Hr by (rewrite !Forall_cons in *; tauto).
  rewrite bswap32_word by done. split; [done|]. exact (word_bound _ Hr).
Qed.

(** * Registers *)

(** What a register of a packet can hold: eight bytes, or four. *)
Definition reg_ok (r : Z * nat) : Prop := (snd r = 16%nat ∧ is_u64 (fst r)) ∨ (snd r = 8%nat ∧ 0 <= fst r < 2 ^ 32).

Lemma length_PACK_REG v w : length (PACK_REG v w) = w.
Proof. apply length_hex_digits. Qed.

Lemma UNPACK_PACK v w s : reg_ok (v, w) → UNPACK_REG (of_list (PACK_REG v w)) w s = Ok (v, s).
Proof.
  intros Hr. unfold UNPACK_REG.
  assert (map (λ i, of_list (PACK_REG v w) (Z.of_nat i)) (seq 0 w) = PACK_REG v w) as ->.
  { apply list_eq. intros i. destruct (decide (i < w)%nat) as [Hi|Hi].
    - destruct (lookup_lt_is_Some_2 (PACK_REG v w) i) as [c Hc]; [by rewrite length_PACK_REG|].
      rewrite list_lookup_fmap, lookup_seq_lt by done. cbn [fmap option_fmap option_map Nat.add].
      unfold of_list. replace (Z.of_nat i <? 0) with false by lia. by rewrite Nat2Z.id, Hc.
    - rewrite !lookup_ge_None_2; [done|rewrite length_PACK_REG; lia|]. rewrite length_map, length_seq. lia. }
  destruct Hr as [[Hw Hv]|[Hw Hv]]; cbn [fst snd] in *; subst w; unfold PACK_REG; cbn [Nat.eqb];
    (erewrite bind_ok; [|apply strtoull_hex; lia]).
  - destruct (bswap64_involutive v Hv) as [E Hb]. rewrite Z.mod_small by exact Hb. unfold ret. by rewrite E.
  - assert (u32 v = v) as -> by (apply Z.mod_small; done).
    destruct (bswap32_involutive v Hv) as [E Hb]. rewrite Z.mod_small by exact Hb. unfold ret.
    assert (u32 (bswap32 v) = bswap32 v) as -> by (apply Z.mod_small; done). by rewrite E.
Qed.

(** A string that continues with the digits of some registers. *)
Definition begins (ptr : cstring) (l : list Z) : Prop := ∀ i c, l !! i = Some c → ptr (Z.of_nat i) = c.

Lemma begins_of_list l : begins (of_list l) l.
Proof. intros i c Hc. unfold of_list. destruct (Z.ltb_spec (Z.of_nat i) 0); [lia|]. by rewrite Nat2Z.id, Hc. Qed.
Lemma begins_app_l ptr l l' : begins ptr (l ++ l') → begins ptr l.
Proof. intros H i c Hc. apply H. by apply lookup_app_l_Some. Qed.
Lemma begins_app_r ptr l l' : begins ptr (l ++ l') → begins (advance (Z.of_nat (length l)) ptr) l'.
Proof.
  intros H i c Hc. unfold advance. rewrite <- Nat2Z.inj_add. apply H. by rewrite lookup_app_r, Nat.add_sub_swap, Nat.sub_diag by lia.
Qed.

Lemma UNPACK_begins ptr v w s : reg_ok (v, w) → begins ptr (PACK_REG v w) → UNPACK_REG ptr w s = Ok (v, s).
Proof.
  intros Hr Hp. rewrite <- (UNPACK_PACK v w s Hr). unfold UNPACK_REG.
  enough (map (λ i, ptr (Z.of_nat i)) (seq 0 w) = map (λ i, of_list (PACK_REG v w) (Z.of_nat i)) (seq 0 w)) as -> by done.
  apply map_ext_in. intros i [_ Hi]%in_seq.
  destruct (lookup_lt_is_Some_2 (PACK_REG v w) i) as [c Hc]; [by rewrite length_PACK_REG|].
  by rewrite (Hp i c Hc), (begins_of_list _ i c Hc).
Qed.

Lemma unpack_regs_ok regs ptr s :
  Forall reg_ok regs → begins ptr (concat (map (λ '(v, w), PACK_REG v w) regs)) →
  unpack_regs (map snd regs) ptr s = Ok (map fst regs, s).
Proof.
  intros Hr. revert ptr. induction Hr as [|[v w] regs Hv Hr IH]; intros ptr Hp; [done|].
  cbn [map concat unpack_regs fst snd] in *.
  rewrite (bind_ok _ _ _ _ _ (UNPACK_begins ptr v w s Hv (begins_app_l _ _ _ Hp))).
  apply begins_app_r in Hp. rewrite length_PACK_REG in Hp. by rewrite (bind_ok _ _ _ _ _ (IH _ Hp)).
Qed.

(** The registers of a frame that a packet can carry. *)
Definition frame_fits (f : interrupt_frame) : Prop := Forall reg_ok (frame_regs f).

(** Register packets round trip: the digits that the stub sends for [g]
    describe, when they come back in a [G] packet, the same registers; what the
    packet does not carry stays as it is in the stub's frame. *)
Theorem register_packet_roundtrip (f f' : interrupt_frame) (ptr : cstring) (s : sys) :
  frame_fits f → begins ptr (pack_frame f) →
  f_vector f' = f_vector f → f_error f' = f_error f →
  unpack_frame f' ptr s = Ok (f, s).
Proof.
  intros Hf Hp Hv He. unfold unpack_frame. change (map snd (frame_regs f')) with (map snd (frame_regs f)).
  rewrite (bind_ok _ _ _ _ _ (unpack_regs_ok _ ptr s Hf Hp)). unfold ret, regs_frame, frame_regs. cbn [map fst lookup list_lookup].
  rewrite Hv, He. by destruct f.
Qed.

Lemma register_packet_roundtrip_witness :
  let f := mk_frame 15 14 13 12 11 10 9 8 0xffff800000001000 0x55 0x44 0x33 0x22 0x11 0xdeadbeefcafebabe 3 0
    0xffffffff80001234 8 0x202 0xffff900000000000 0x10 in
  unpack_frame (mk_frame 0 0 0 0 0 0 0 0 0 0 0 0 0 0 0 3 0 0 0 0 0 0) (of_list (pack_frame f)) (sys0 (kernel0 0)) = Ok (f, sys0 (kernel0 0)).
Proof.
  cbv zeta. apply register_packet_roundtrip; [|..|done|done].
  - repeat (constructor; [first [left; split; [reflexivity|by unfold is_u64]|right; split; [reflexivity|done]]|]). constructor.
  - apply begins_of_list.
Defined.

(** * Packets *)

(** What the serial line has transmitted, in order. *)
Definition data_port (s : sys) : Z := u16 (s_var s serial_port + SERIAL_RX_BUFF).
Definition transmitted (port : Z) (l : list event) : list Z :=
  omap (λ e, match e with Out8 p v => if p =? port then Some v else None | _ => None end) (rev l).

Lemma transmitted_app port l l' : transmitted port (l ++ l') = transmitted port l' ++ transmitted port l.
Proof. unfold transmitted. by rewrite rev_app_distr, omap_app. Qed.

(** A serial port whose transmitter is always empty. *)
Class SerialReady `{Hardware} (s : sys) : Prop := {
  sr_port : data_port s ≠ 0x80;
  sr_empty l : Z.land (hw_read l (In8 (u16 (s_var s serial_port + SERIAL_LINE_INFO))) mod 2 ^ 8) SERIAL_TX_EMPTY_BIT ≠ 0
}.

Section packets.
Context `{Hardware}.

Lemma serial_send_ok c s : SerialReady s →
  ∃ l, serial_send c s = Ok (tt, logged l s) ∧ transmitted (data_port s) l = [u8 c].
Proof.
  intros [Hp He]. unfold serial_send, wait_transmit_empty.
  erewrite bind_ok.
  2: { apply while_once. unfold serial_transmit_empty. erewrite bind_ok; [|erewrite bind_ok; [|reflexivity]; erewrite bind_ok; [|apply inbd_logged]; reflexivity].
       rewrite (proj2 (Z.eqb_neq _ _) (He _)). reflexivity. }
  erewrite bind_ok; [|reflexivity]. rewrite outbd_logged, logged_app.
  eexists. split; [reflexivity|]. unfold transmitted. cbn -[u16 u8 Z.eqb]. fold (data_port s).
  change (u16 128) with 128. rewrite Z.eqb_refl. by rewrite (proj2 (Z.eqb_neq 128 (data_port s))) by done.
Qed.

Lemma serial_ready_frame l b s t :
  SerialReady s → SerialReady (with_stub (logged l s) (set_packet_send b t)).
Proof. intros [Hp He]. split; [exact Hp|exact He]. Qed.

Lemma store_packet_ok i v s : 0 <= i < STUB_ALLOC →
  ∃ b, store_packet i v s = Ok (tt, with_stub s (set_packet_send b (s_stub s))).
Proof.
  intros Hi. unfold store_packet, heap_store. eexists. erewrite bind_ok; [reflexivity|].
  by rewrite (proj2 (Z.leb_le 0 i)), (proj2 (Z.ltb_lt i STUB_ALLOC)) by lia.
Qed.

(** The states while a packet goes out: what has been sent is in the log. *)
Definition sending (s : sys) (out : list Z) (s1 : sys) : Prop :=
  ∃ l b, s1 = with_stub (logged l s) (set_packet_send b (s_stub s)) ∧ transmitted (data_port s) l = out.

Lemma sending_start s : sending s [] s.
Proof. exists [], (dbgstub_packet_send_buffer (s_stub s)). rewrite logged_nil. split; [|done]. by destruct s as [? ? ? ? ? ? ? ? ? ? ? ? ? ? []]. Qed.

Lemma sending_store i v s out s1 Q : 0 <= i < STUB_ALLOC → sending s out s1 →
  (∀ s2, sending s out s2 → Q tt s2) → wp (store_packet i v) s1 Q.
Proof.
  intros Hi (l & b & -> & Ho) HQ. destruct (store_packet_ok i v (with_stub (logged l s) (set_packet_send b (s_stub s))) Hi) as (b' & E).
  eapply wp_ok; [exact E|]. apply HQ. exists l, b'. by split.
Qed.

Lemma sending_send c s out s1 Q : SerialReady s → sending s out s1 →
  (∀ s2, sending s (out ++ [u8 c]) s2 → Q tt s2) → wp (serial_send c) s1 Q.
Proof.
  intros Hr (l & b & -> & Ho) HQ.
  destruct (serial_send_ok c _ (serial_ready_frame l b s (s_stub s) Hr)) as (l' & E & Hl).
  eapply wp_ok; [exact E|]. apply HQ. exists (l' ++ l), b.
  split; [by rewrite <- (logged_app l' l)|]. rewrite transmitted_app, Ho. by f_equal.
Qed.

(** The framing of the remote protocol. *)
Definition checksum (p : list Z) : Z := foldl (λ c b, u8 (c + b)) 0 p.
Definition packet (p : list Z) : list Z := [chr "$"] ++ p ++ [chr "#"] ++ hex_digits 2 (checksum p).
Definition payload (p : list Z) : Prop :=
  Forall (λ c, 0 < c < 256 ∧ c ≠ chr "#") p ∧ Z.of_nat (length p) + 4 < STUB_ALLOC.

Lemma checksum_snoc p b : checksum (p ++ [b]) = u8 (checksum p + b).
Proof. unfold checksum. by rewrite foldl_app. Qed.
Lemma checksum_range p : 0 <= checksum p < 256.
Proof.
  destruct p as [|b p _] using rev_ind; [done|]. rewrite checksum_snoc. apply Z.mod_pos_bound. lia.
Qed.

(** The text a source denotes, unless it is the buffer being written. *)
Definition src_text (src : stub_src) (s : sys) : cstring :=
  match src with
  | Lit l => lit l
  | SendBuffer => of_list (dbgstub_send_buffer (s_stub s))
  | PacketSendBuffer => of_list (dbgstub_packet_send_buffer (s_stub s))
  end.

Lemma src_at_ok src j s out s1 : src ≠ PacketSendBuffer → sending s out s1 → src_at src j s1 = Ok (src_text src s j, s1).
Proof. intros Hne (l & b & -> & _). by destruct src. Qed.

Lemma send_loop_ok src s p :
  SerialReady s → src ≠ PacketSendBuffer → holds (src_text src s) p → payload p → ∀ s1, sending s [chr "$"] s1 →
  wp (while_ (send_round src) (0, 0)) s1 (λ r s2, r = (Z.of_nat (length p), checksum p) ∧ sending s (chr "$" :: p) s2).
Proof.
  intros Hr Hne Hh [Hp Hlen] s1 Hs.
  apply (wp_while _ (λ n '(j, c) s2, 0 <= j ∧ j + n = Z.of_nat (length p) ∧ c = checksum (take (Z.to_nat j) p) ∧
    sending s (chr "$" :: take (Z.to_nat j) p) s2) _) with (n := Z.of_nat (length p)); [|unfold STUB_ALLOC, DBGSTUB_PACKET_BUFFER_SIZE in *; lia|].
  2: { split_and!; (done || lia). }
  clear s1 Hs. intros n [j c] s1 Hn (Hj & Hjn & -> & Hs). unfold send_round.
  apply wp_bind. eapply wp_ok; [exact (src_at_ok src j s _ s1 Hne Hs)|].
  destruct (decide (n = 0)) as [->|Hn0].
  - replace j with (Z.of_nat (length p)) in * by lia. rewrite (holds_end _ _ Hh). cbn.
    rewrite Nat2Z.id, firstn_all in *. by split.
  - destruct (holds_lookup _ _ j Hh ltac:(lia)) as (b & Hb & -> & Hpos). replace (b =? 0) with false by lia.
    pose proof (proj1 (Forall_lookup _ _) Hp _ _ Hb) as [Hrange _].
    apply wp_bind. eapply sending_store; [lia|done|]. intros s2 Hs2.
    apply wp_bind. eapply sending_send; [done..|]. intros s3 Hs3. wp_step.
    exists (n - 1). split; [lia|]. split; [lia|]. split; [lia|].
    replace (Z.to_nat (j + 1)) with (S (Z.to_nat j)) by lia. rewrite (take_S_r _ _ b) by done.
    rewrite checksum_snoc. split; [done|]. cbn in Hs3. unfold u8 in Hs3. by rewrite (Z.mod_small b) in Hs3 by lia.
Qed.

Lemma hex_digit_byte n : 0 <= n < 16 → u8 (hex_digit n) = hex_digit n ∧ hex_digit n ≠ chr "-" ∧ hex_digit n ≠ chr "+" ∧ 0 < hex_digit n.
Proof.
  intros Hn. assert (n = 0 ∨ n = 1 ∨ n = 2 ∨ n = 3 ∨ n = 4 ∨ n = 5 ∨ n = 6 ∨ n = 7 ∨ n = 8 ∨ n = 9 ∨ n = 10 ∨ n = 11 ∨ n = 12
    ∨ n = 13 ∨ n = 14 ∨ n = 15) as Hc by lia.
  by repeat (destruct Hc as [->|Hc]; [split_and!; (reflexivity || done)|]); subst.
Qed.

Lemma dbgstub_send_ok src s p :
  SerialReady s → src ≠ PacketSendBuffer → holds (src_text src s) p → payload p →
  wp (dbgstub_send src) s (λ _ s', sending s (packet p) s').
Proof.
  intros Hr Hne Hh Hp. pose proof Hp as [_ Hlen]. unfold dbgstub_send.
  assert (∀ i, 0 <= i < Z.of_nat (length p) + 5 → 0 <= i < STUB_ALLOC) as Hb by lia.
  pose proof (λ m, Z.mod_pos_bound m 16 ltac:(lia)) as Hm.
  destruct (hex_digit_byte (Z.land (Z.shiftr (checksum p) 4) 0xF)) as [E1 _]; [rewrite land_nibble; apply Hm|].
  destruct (hex_digit_byte (Z.land (checksum p) 0xF)) as [E0 _]; [rewrite land_nibble; apply Hm|].
  apply wp_bind. eapply sending_store; [by apply Hb; lia|apply sending_start|]. intros s1 H1.
  apply wp_bind. eapply sending_send; [done..|]. intros s2 H2.
  apply wp_bind. eapply wp_mono; [by apply (send_loop_ok src s p)|]. intros r s3 [-> H3]. cbn [fst snd].
  apply wp_bind. eapply sending_send; [done..|]. intros s4 H4.
  apply wp_bind. eapply sending_store; [apply Hb; lia|done|]. intros s5 H5.
  apply wp_bind. eapply sending_store; [apply Hb; lia|done|]. intros s6 H6.
  apply wp_bind. eapply sending_send; [done..|]. rewrite E1. intros s7 H7.
  apply wp_bind. eapply sending_store; [apply Hb; lia|done|]. intros s8 H8.
  apply wp_bind. eapply sending_send; [done..|]. rewrite E0. intros s9 H9.
  eapply sending_store; [apply Hb; lia|done|]. intros s10 H10.
  unfold packet. cbn [hex_digits app] in *. by rewrite <- !app_assoc in H10.
Qed.

(** The receiver's sum and search for the end of the payload. *)
Lemma validate_loop_ok buf p s :
  payload p → begins buf (packet p) →
  while_ (validate_round buf) (1, 0) s = Ok ((Z.of_nat (length p) + 1, checksum p), s).
Proof.
  intros [Hp Hlen] Hb. apply wp_eq.
  assert (∀ j b, p !! j = Some b → buf (Z.of_nat j + 1) = b) as Hbuf.
  { intros j b Hj. rewrite <- (Hb (S j) b); [f_equal; lia|]. cbn. by apply lookup_app_l_Some. }
  assert (buf (Z.of_nat (length p) + 1) = chr "#") as Hend.
  { rewrite <- (Hb (S (length p)) (chr "#")); [f_equal; lia|].
    change (packet p !! S (length p)) with ((p ++ [chr "#"] ++ hex_digits 2 (checksum p)) !! length p).
    by rewrite lookup_app_r, Nat.sub_diag by lia. }
  apply (wp_while _ (λ n '(i, c) s2, s2 = s ∧ 1 <= i ∧ i - 1 + n = Z.of_nat (length p) ∧ c = checksum (take (Z.to_nat (i - 1)) p)) _)
    with (n := Z.of_nat (length p)); [|unfold STUB_ALLOC, DBGSTUB_PACKET_BUFFER_SIZE in *; lia|by split_and!; (done || lia)].
  intros n [i c] s2 Hn (-> & Hi & Hin & ->). unfold validate_round. destruct (decide (n = 0)) as [->|Hn0].
  - replace i with (Z.of_nat (length p) + 1) by lia. rewrite Hend. cbn.
    replace (Z.to_nat (Z.of_nat (length p) + 1 - 1)) with (length p) by lia. by rewrite firstn_all.
  - destruct (lookup_lt_is_Some_2 p (Z.to_nat (i - 1))) as [b Hbi]; [lia|].
    pose proof (proj1 (Forall_lookup _ _) Hp _ _ Hbi) as [_ Hne].
    pose proof (Hbuf _ _ Hbi) as Hib. replace (Z.of_nat (Z.to_nat (i - 1)) + 1) with i in Hib by lia.
    rewrite Hib, (proj2 (Z.eqb_neq b (chr "#"))) by done. cbn [negb]. wp_step.
    exists (n - 1). split_and!; [lia|lia|done|lia|lia|].
    replace (Z.to_nat (i + 1 - 1)) with (S (Z.to_nat (i - 1))) by lia. by rewrite (take_S_r _ _ b), checksum_snoc by done.
Qed.

Lemma strtoll_hex {S} (s : S) v : 0 <= v < 256 → strtoll (of_list (hex_digits 2 v)) 16 s = Ok (v, s).
Proof.
  intros Hv. destruct (hex_digit_byte (Z.land (Z.shiftr v 4) 0xf)) as (_ & Hm & Hp & _).
  { rewrite land_nibble. apply Z.mod_pos_bound. lia. }
  unfold strtoll, number_base. change (16 =? 0) with false. change (of_list (hex_digits 2 v) 0) with (hex_digit (Z.land (Z.shiftr v 4) 0xf)).
  rewrite (proj2 (Z.eqb_neq _ _) Hm), (proj2 (Z.eqb_neq _ _) Hp). cbv iota beta zeta.
  erewrite bind_ok.
  2: { apply (parse_ll _ 16 (hex_digits 2 v) (nibbles 2 v)) with (bound := 2 ^ 63).
       - apply (of_list_holds (hex_digits 2 v)); [apply hex_digits_pos|done].
       - apply hex_digits_nibbles.
       - lia.
       - intros d Hd. by apply (nibbles_lt 2 v).
       - rewrite value_nibbles. pose proof (Z.mod_pos_bound v (16 ^ Z.of_nat 2) ltac:(lia)). lia.
       - lia. }
  unfold ret. rewrite value_nibbles. by rewrite Z.mod_small by (cbn; lia).
Qed.

Lemma validate_ok p t :
  SerialReady t → payload p → begins (of_list (dbgstub_packet_recv_buffer (s_stub t))) (packet p) →
  ∃ l, dbgstub_validate_packet t = Ok (true, logged l t) ∧ transmitted (data_port t) l = [chr "+"].
Proof.
  intros Hr Hp Hb. set (buf := of_list (dbgstub_packet_recv_buffer (s_stub t))) in *.
  destruct (serial_send_ok (chr "+") t Hr) as (l & E & Hl). exists l. split; [|done].
  unfold dbgstub_validate_packet. rewrite (bind_ok _ _ _ buf t) by done.
  pose proof (Hb 0%nat (chr "$") eq_refl) as H0. change (Z.of_nat 0) with 0 in H0. rewrite H0. change (chr "$" =? chr "$") with true. cbn [negb andb].
  rewrite (bind_ok _ _ _ _ _ (validate_loop_ok buf p t Hp Hb)). cbn [fst snd].
  assert ([buf (Z.of_nat (length p) + 1 + 1); buf (Z.of_nat (length p) + 1 + 2)] = hex_digits 2 (checksum p)) as ->.
  { assert (∀ k c, hex_digits 2 (checksum p) !! k = Some c → buf (Z.of_nat (length p + 2 + k)) = c) as Hd.
    { intros k c Hc. apply Hb. unfold packet. rewrite !app_assoc, lookup_app_r; rewrite !length_app; cbn [length]; [|lia].
      by replace (length p + 2 + k - (1 + length p + 1))%nat with k by lia. }
    cbn [hex_digits app] in *. rewrite <- (Hd 0%nat _ eq_refl), <- (Hd 1%nat _ eq_refl). f_equal; [f_equal; lia|]. do 2 f_equal. lia. }
  rewrite (bind_ok _ _ _ _ _ (strtoll_hex t _ (checksum_range p))).
  pose proof (checksum_range p). rewrite u64_id by (unfold is_u64; lia). rewrite Z.eqb_refl.
  by rewrite (bind_ok _ _ _ _ _ E).
Qed.
End packets.

(** (C29) Packets round trip: when the line is ready, [dbgstub_send] transmits the
    text as a packet of the remote protocol, and a peer that runs the same
    receiver on the transmitted bytes accepts it and acknowledges it. *)
Theorem packet_roundtrip `{Hardware} (src : stub_src) (p : list Z) (s t : sys) :
  SerialReady s → SerialReady t → src ≠ PacketSendBuffer → holds (src_text src s) p → payload p →
  ∃ l b, dbgstub_send src s = Ok (tt, with_stub (logged l s) (set_packet_send b (s_stub s))) ∧
    transmitted (data_port s) l = packet p ∧
    (begins (of_list (dbgstub_packet_recv_buffer (s_stub t))) (transmitted (data_port s) l) →
     ∃ l', dbgstub_validate_packet t = Ok (true, logged l' t) ∧ transmitted (data_port t) l' = [chr "+"]).
Proof.
  intros Hs Ht Hne Hh Hp. destruct (wp_inv _ _ _ (dbgstub_send_ok src s p Hs Hne Hh Hp)) as ([] & s' & E & l & b & -> & Hl).
  exists l, b. split_and!; [done|done|]. intros Hb. rewrite Hl in Hb. by apply (validate_ok p t).
Qed.

(** A terminal that is always ready. *)
Definition ready_line : Hardware := {| hw_read _ _ := 0x20; hw_cpuid _ _ _ := mk_cpuid 0 0 0 0 |}.
Definition stub_up (recv : list Z) : sys :=
  with_stub (sys0 (kernel0 0xffff800000000000))
    (set_recv recv 0 (set_packet_send (replicate 4112 0) (set_send_buffer (replicate 4112 0) stub0))).

Lemma stub_up_ready recv : @SerialReady ready_line (stub_up recv).
Proof. split; [done|]. intros l. done. Qed.

Lemma packet_roundtrip_witness :
  ∃ l b, @dbgstub_send ready_line (Lit "OK") (stub_up []) =
      Ok (tt, with_stub (logged l (stub_up [])) (set_packet_send b (s_stub (stub_up [])))) ∧
    transmitted 0x3F8 l = bytes "$OK#9a" ∧
    ∃ l', @dbgstub_validate_packet ready_line (stub_up (bytes "$OK#9a")) = Ok (true, logged l' (stub_up (bytes "$OK#9a"))) ∧
      transmitted 0x3F8 l' = [chr "+"].
Proof.
  destruct (@packet_roundtrip ready_line (Lit "OK") (bytes "OK") (stub_up []) (stub_up (bytes "$OK#9a"))) as (l & b & E & Hl & Hv).
  - apply stub_up_ready.
  - apply stub_up_ready.
  - done.
  - apply (of_list_holds (bytes "OK")); [|done]. intros x. cbn. rewrite !elem_of_cons, elem_of_nil. intros [->|[->|[]]]; done.
  - split; [|done]. repeat constructor; done.
  - exists l, b. split; [exact E|]. change (data_port (stub_up [])) with 0x3F8 in *.
    change (packet (bytes "OK")) with (bytes "$OK#9a") in Hl. split; [exact Hl|].
    destruct Hv as (l' & E' & Hl'); [rewrite Hl; apply begins_of_list|]. by exists l'.
Defined.

(** The states of a retransmission, with the contents of its buffer. *)
Definition resending (s : sys) (b : list Z) (s1 : sys) : Prop :=
  length b = Z.to_nat STUB_ALLOC ∧ ∃ l, s1 = with_stub (logged l s) (set_packet_send b (s_stub s)).

Lemma resending_store i v s b s1 : 0 <= i < STUB_ALLOC → resending s b s1 →
  ∃ s2, store_packet i v s1 = Ok (tt, s2) ∧ resending s (<[Z.to_nat i := u8 v]> b) s2.
Proof.
  intros Hi [Hb (l & ->)]. eexists. split.
  - unfold store_packet, heap_store. erewrite bind_ok; [reflexivity|].
    by rewrite (proj2 (Z.leb_le 0 i)), (proj2 (Z.ltb_lt i STUB_ALLOC)) by lia.
  - split; [by rewrite length_insert|by exists l].
Qed.

Lemma resending_send `{Hardware} c s b s1 : SerialReady s → resending s b s1 →
  ∃ s2, serial_send c s1 = Ok (tt, s2) ∧ resending s b s2.
Proof.
  intros Hr [Hb (l & ->)]. destruct (serial_send_ok c _ (serial_ready_frame l b s (s_stub s) Hr)) as (l' & E & _).
  eexists. split; [exact E|]. split; [done|]. exists (l' ++ l). by rewrite <- (logged_app l' l).
Qed.

(** The next byte to be read is the dollar sign stored last. *)
Lemma resend_round `{Hardware} s b s1 j c : SerialReady s → resending s b s1 → 0 <= j < STUB_ALLOC →
  b !! Z.to_nat j = Some (chr "$") →
  send_round PacketSendBuffer (j, c) s1 = Panic "heap overflow" ∨
  j + 1 < STUB_ALLOC ∧ ∃ c' b' s2, send_round PacketSendBuffer (j, c) s1 = Ok (inl (j + 1, c'), s2) ∧ resending s b' s2 ∧
    b' !! Z.to_nat (j + 1) = Some (chr "$").
Proof.
  intros Hr Hb Hj Hd. unfold send_round.
  assert (src_at PacketSendBuffer j s1 = Ok (chr "$", s1)) as E.
  { destruct Hb as [_ (l & ->)]. unfold src_at, gets. cbn [s_stub with_stub dbgstub_packet_send_buffer set_packet_send].
    unfold of_list. destruct (Z.ltb_spec j 0); [lia|]. by rewrite Hd. }
  rewrite (bind_ok _ _ _ _ _ E). change (chr "$" =? 0) with false. cbv iota.
  destruct (decide (j + 1 < STUB_ALLOC)) as [Hlt|Hge].
  - right. split; [done|]. destruct (resending_store (j + 1) (chr "$") s b s1 ltac:(lia) Hb) as (s2 & E2 & H2).
    rewrite (bind_ok _ _ _ _ _ E2). destruct (resending_send (chr "$") s _ s2 Hr H2) as (s3 & E3 & H3).
    rewrite (bind_ok _ _ _ _ _ E3). do 3 eexists. split; [reflexivity|]. split; [exact H3|].
    destruct H2 as [Hl _]. rewrite length_insert in Hl. by rewrite list_lookup_insert_eq by lia.
  - left. unfold bind at 1, store_packet, heap_store, bind at 1.
    rewrite (proj2 (Z.leb_le 0 (j + 1))), (proj2 (Z.ltb_ge (j + 1) STUB_ALLOC)) by lia. done.
Qed.

(** (C38) A negative acknowledgement makes the stub run off its buffer:
    [dbgstub_send] is called with the buffer it writes to, every byte it stores
    is the next one it reads, and the retransmission never ends before a store
    beyond the buffer. *)
Theorem nak_overruns_buffer `{Hardware} (s : sys) :
  SerialReady s → length (dbgstub_packet_send_buffer (s_stub s)) = Z.to_nat STUB_ALLOC →
  dbgstub_send PacketSendBuffer s = Panic "heap overflow".
Proof.
  intros Hr Hlen. unfold dbgstub_send.
  assert (resending s (dbgstub_packet_send_buffer (s_stub s)) s) as H0.
  { split; [done|]. exists []. rewrite logged_nil. by destruct s as [? ? ? ? ? ? ? ? ? ? ? ? ? ? []]. }
  destruct (resending_store 0 (chr "$") s _ s ltac:(done) H0) as (s1 & E1 & H1). rewrite (bind_ok _ _ _ _ _ E1).
  destruct (resending_send (chr "$") s _ s1 Hr H1) as (s2 & E2 & H2). rewrite (bind_ok _ _ _ _ _ E2).
  unfold bind at 1.
  rewrite (while_panics _ (λ n '(j, c) s', 0 <= j ∧ j + n = STUB_ALLOC - 1 ∧ ∃ b, resending s b s' ∧ b !! Z.to_nat j = Some (chr "$"))
    "heap overflow") with (n := STUB_ALLOC - 1); [done| |done|].
  - intros n [j c] s' Hn (Hj & Hjn & b & Hb & Hd).
    destruct (resend_round s b s' j c Hr Hb ltac:(lia) Hd) as [E|(Hlt & c' & b' & s3 & E & Hb' & Hd')]; [by left|].
    right. exists (n - 1), (j + 1, c'), s3. split; [done|]. split; [lia|]. split_and!; [lia|lia|by exists b'].
  - split_and!; [lia|lia|]. eexists. split; [exact H2|]. rewrite list_lookup_insert_eq; [done|]. rewrite Hlen. unfold STUB_ALLOC, DBGSTUB_PACKET_BUFFER_SIZE. lia.
Qed.

Lemma nak_overruns_buffer_witness : @dbgstub_send ready_line PacketSendBuffer (stub_up []) = Panic "heap overflow".
Proof. apply (@nak_overruns_buffer ready_line); [apply stub_up_ready|]. vm_compute. reflexivity. Defined.
