(* ===== verification/ShellInv.v ===== *)
(** The shell's line editor refines an editor on unbounded strings with a limit
    of 63 characters. *)
From stdpp Require Import base tactics list gmap strings.
From Stdlib Require Import ZArith Lia.
From S2P Require Import Prelude Shell.

(** * The abstract editor

    Its state is the line; a key may complete the line. *)
Inductive key_kind := Erase | Enter | Ignore | Insert (c : Z).

Definition kind_of (key : Z) : key_kind :=
  if (key =? 8) || (key =? 0x7F) then Erase
  else if (key =? 10) || (key =? 13) then Enter
  else if key =? 0 then Ignore
  else Insert key.

Definition edit (key : Z) (line : list Z) : list Z * option (list Z) :=
  match kind_of key with
  | Erase => (removelast line, None)
  | Enter => ([], Some line)
  | Ignore => (line, None)
  | Insert c => (if decide (length line < 63)%nat then line ++ [c] else line, None)
  end.

Fixpoint edit_all (keys : list Z) (line : list Z) : list (list Z) :=
  match keys with
  | [] => []
  | key :: keys' =>
      let '(line', out) := edit key line in
      match out with Some l => l :: edit_all keys' line' | None => edit_all keys' line' end
  end.

(** The commands the shell executes for a sequence of keys. *)
Fixpoint shell_all (keys : list Z) (sh : shell_t) : list (list Z) :=
  match keys with
  | [] => []
  | key :: keys' =>
      let '(sh', out) := shell_key key sh in
      match out with Some l => c_string l :: shell_all keys' sh' | None => shell_all keys' sh' end
  end.

(** * Simulation *)
Definition edits (line : list Z) (sh : shell_t) : Prop :=
  typingBuffer sh = line ++ replicate (64 - length line) 0 ∧
  typingBufferIndex sh = Z.of_nat (length line) ∧
  (length line <= 63)%nat ∧ Forall (λ c, c ≠ 0) line.

Lemma c_string_line line rest : Forall (λ c, c ≠ 0) line → c_string (line ++ 0 :: rest) = line.
Proof.
  induction 1 as [|c line Hc Hl IH]; [done|]. cbn. rewrite (proj2 (Z.eqb_neq c 0) Hc). by rewrite IH.
Qed.

Lemma edits_string line sh : edits line sh → c_string (typingBuffer sh) = line.
Proof.
  intros (-> & _ & Hlen & Hnz). replace (64 - length line)%nat with (S (63 - length line)) by lia. by apply c_string_line.
Qed.

Lemma edits_erase line sh : edits line sh → 0 < typingBufferIndex sh →
  edits (removelast line) (mk_shell (<[Z.to_nat (typingBufferIndex sh - 1) := 0]> (typingBuffer sh)) (typingBufferIndex sh - 1) (newLineStarted sh) (noKeysLeft sh)).
Proof.
  intros (Hb & Hi & Hlen & Hnz) Hpos. rewrite Hb, Hi in *. destruct line as [|c line _] using rev_ind; [done|].
  rewrite removelast_last, length_app in *. cbn [length] in *. apply Forall_app in Hnz as [Hnz _].
  split_and!; cbn [typingBuffer typingBufferIndex]; [|lia|lia|done].
  replace (Z.to_nat (Z.of_nat (length line + 1) - 1)) with (length line + 0)%nat by lia.
  rewrite <- app_assoc, insert_app_r. cbn [app insert list_insert]. f_equal.
  by replace (64 - length line)%nat with (S (64 - (length line + 1))) by lia.
Qed.

Lemma edits_insert c line sh : edits line sh → c ≠ 0 → (length line < 63)%nat →
  edits (line ++ [c]) (mk_shell (<[Z.to_nat (typingBufferIndex sh) := c]> (typingBuffer sh)) (typingBufferIndex sh + 1) (newLineStarted sh) (noKeysLeft sh)).
Proof.
  intros (Hb & Hi & Hlen & Hnz) Hc Hlt. rewrite Hb, Hi. split_and!; cbn [typingBuffer typingBufferIndex].
  - rewrite Nat2Z.id, length_app. cbn [length]. replace (length line) with (length line + 0)%nat at 1 by lia.
    rewrite insert_app_r. replace (64 - length line)%nat with (S (64 - (length line + 1))) by lia. cbn. by rewrite <- app_assoc.
  - rewrite length_app. cbn. lia.
  - rewrite length_app. cbn. lia.
  - apply Forall_app. by repeat constructor.
Qed.

Lemma edits_empty b b' : edits [] (mk_shell (replicate 64 0) 0 b b').
Proof. split_and!; [done|done|cbn; lia|apply Forall_nil_2]. Qed.

Lemma shell_key_simulates key line sh : edits line sh →
  let '(sh', out) := shell_key key sh in
  let '(line', out') := edit key line in
  edits line' sh' ∧ c_string <$> out = out'.
Proof.
  intros He. pose proof He as (Hb & Hi & Hlen & Hnz). unfold shell_key, edit, kind_of.
  destruct ((key =? 8) || (key =? 127)).
  { destruct (Z.ltb_spec (-1) (typingBufferIndex sh - 1)); (split; [|done]); [apply edits_erase; [done|lia]|].
    by destruct line; [|cbn in Hi; lia]. }
  destruct ((key =? 10) || (key =? 13)).
  { split; [apply edits_empty|]. cbn. by rewrite (edits_string line sh). }
  destruct (Z.eqb_spec key 0) as [->|Hk]; cbn [negb andb]; [done|].
  destruct (Z.leb_spec (typingBufferIndex sh + 1) 63), (decide (length line < 63)%nat); try lia; (split; [|done]); [by apply edits_insert|done].
Qed.

(** (C28) The shell's editor refines the abstract one: for every sequence of keys
    the commands executed are the lines typed, with erasing and the limit of 63
    characters taken into account, and after every prefix of the keys the buffer
    holds the line and zeros and the index is inside it. *)
Theorem shell_refines_editor (keys : list Z) :
  shell_all keys shell0 = edit_all keys [] ∧
  edits (foldl (λ line key, fst (edit key line)) [] keys) (foldl (λ sh key, fst (shell_key key sh)) shell0 keys).
Proof.
  pose proof (edits_empty true false : edits [] shell0) as He. revert He. generalize shell0 ([] : list Z). induction keys as [|key keys IH]; intros sh line He; [done|].
  pose proof (shell_key_simulates key line sh He) as Hk. cbn [shell_all edit_all foldl].
  destruct (shell_key key sh) as [sh' out], (edit key line) as [line' out']. destruct Hk as [He' <-].
  destruct (IH sh' line' He') as [IH1 IH2]. cbn [fst]. split; [|done]. destruct out as [l|]; cbn; by rewrite IH1.
Qed.
