(* ===== verification/ApicInv.v ===== *)
(** Interrupt routing: the I/O APIC's pins, and an ACPI table that stops the
    boot. *)
From stdpp Require Import base tactics list gmap strings.
From Stdlib Require Import ZArith Lia.
From S2P Require Import Prelude Bits State Io IoInv Str Cpu Timers Apic Acpi.

Section ioapic.
Context `{Hardware} (a : ioapic_t).

(** What unmasking writes: the two halves of redirection entry [i]. *)
Definition redirection_writes (i vector id : Z) : list event :=
  let data := Z.lor vector (Z.shiftl id IOAPIC_DEST_SHIFT) in
  [MmioWr 32 (u64 (address a + 16)) (u32 (u32 (Z.shiftr data 32)));
   MmioWr 32 (address a) (u32 (IOAPIC_REG_REDTBL_BASE + i * 2 + 1));
   MmioWr 32 (u64 (address a + 16)) (u32 (u32 data));
   MmioWr 32 (address a) (u32 (IOAPIC_REG_REDTBL_BASE + i * 2))].

Lemma ioapic_map_irq_ok i vector id s : s_var s dbgstub_enabled = 0 →
  ioapic_map_irq a i vector id s = Ok (tt, logged (redirection_writes i vector id) s).
Proof.
  intros Hd. unfold ioapic_map_irq. erewrite bind_ok; [|reflexivity]. rewrite Hd, andb_false_r. by destruct s.
Qed.

Context (m : Z).
(** The version register: [m] is the index of the last redirection entry. *)
Context (Hver : ∀ l, Z.land (Z.shiftr (hw_read l (MmioRd 32 (u64 (address a + 16))) mod 2 ^ 32) 16) 0xFF = m).
Set Default Proof Using "All".

(** Reading the number of entries selects the version register. *)
Definition version_reads : list event := [MmioRd 32 (u64 (address a + 16)); MmioWr 32 (address a) (u32 IOAPIC_REG_VER)].

Lemma ioapic_max_entries_ok s : ioapic_max_entries a s = Ok (m, logged version_reads s).
Proof.
  unfold ioapic_max_entries, ioapic_read. erewrite bind_ok; [|reflexivity]. unfold ret. by rewrite Hver.
Qed.

Lemma find_ioapic_single i s : gsib a = 0 → 0 <= m < 2 ^ 32 → 0 <= i →
  find_ioapic [a] i s = Ok (if i <? m then Some a else None, logged version_reads s).
Proof.
  intros Hg Hm Hi. cbn [find_ioapic]. rewrite (bind_ok _ _ _ _ _ (ioapic_max_entries_ok s)), Hg.
  rewrite (proj2 (Z.leb_le 0 i) Hi). unfold u32. rewrite Z.add_0_l, Z.mod_small by lia. cbn [andb]. by destruct (i <? m).
Qed.
End ioapic.

(** Unmasking on a machine with one I/O APIC at global interrupt 0 whose last
    redirection entry has index [m]: an interrupt below [m] gets the entry of its
    own number, with vector irq + 0x20 and the local APIC's identifier; interrupt
    [m] is refused although the chip has an entry for it. *)
Theorem ioapic_unmask_routes `{Hardware} (a : ioapic_t) (m irq id : Z) (lid : list event) (s : sys) :
  (∀ l, Z.land (Z.shiftr (hw_read l (MmioRd 32 (u64 (address a + 16))) mod 2 ^ 32) 16) 0xFF = m) →
  s_ioapics s = [a] → s_overides s = [] → gsib a = 0 → s_var s dbgstub_enabled = 0 →
  0 <= m < 256 → 0 <= irq <= m →
  (∀ l, apic_get_id (logged l s) = Ok (id, logged (lid ++ l) s)) →
  if irq <? m
  then ioapic_unmask_irq irq s =
    Ok (tt, logged (redirection_writes a irq (u8 (irq + 0x20)) (u8 id) ++ lid ++ version_reads a) s)
  else ioapic_unmask_irq irq s =
    Ok (tt, logged (Printf "IOAPIC: Failed to find IOAPIC to map IRQ %d\n" [irq] :: version_reads a) s).
Proof.
  intros Hver Ha Ho Hg Hd Hm Hi Hid. unfold ioapic_unmask_irq, gets.
  assert (∀ B (k : list ioapic_irq_overide_t → M sys B), bind (λ s, Ok (s_overides s, s)) k s = k [] s) as -> by (intros; unfold bind; by rewrite Ho).
  cbn [find_overide].
  assert (∀ B (k : list ioapic_t → M sys B), bind (λ s, Ok (s_ioapics s, s)) k s = k [a] s) as -> by (intros; unfold bind; by rewrite Ha).
  rewrite (bind_ok _ _ _ _ _ (find_ioapic_single a m Hver irq s Hg ltac:(lia) ltac:(lia))).
  destruct (Z.ltb_spec irq m); [|done].
  rewrite (bind_ok _ _ _ _ _ (Hid _)), ioapic_map_irq_ok by done. by rewrite logged_app.
Qed.

Definition one_ioapic : Hardware := {| hw_read _ e := match e with MmioRd _ _ => 0x170011 | _ => 0 end; hw_cpuid _ _ _ := mk_cpuid 0 0 0 0 |}.
Definition ioapic_up : sys :=
  with_fn (with_ioapics (sys0 (kernel0 0xffff800000000000)) [mk_ioapic 0xffffa00000000000 0])
    (mk_fptrs use_ioapic_unmask_irq use_x2apic_send_eoi sleep_stub use_x2apic_get_ms use_x2apic_get_id use_x2apic_periodic).

(** The entry of pin 23 is the last of the chip. *)
Lemma ioapic_unmask_routes_witness :
  @ioapic_unmask_irq one_ioapic 23 ioapic_up =
  Ok (tt, logged (Printf "IOAPIC: Failed to find IOAPIC to map IRQ %d\n" [23] :: version_reads (mk_ioapic 0xffffa00000000000 0)) ioapic_up).
Proof.
  apply (@ioapic_unmask_routes one_ioapic (mk_ioapic 0xffffa00000000000 0) 23 23 0 [Rdmsr x2APIC_ID] ioapic_up);
    [done|done|done|done|done|lia|lia|]. intros l. reflexivity.
Defined.

(** * ACPI *)

(** A zero length in the interrupt table stops the boot: when the entry at
    [ptr] inside the table has length 0 and is neither an I/O APIC nor an
    override, the loop over the table goes round for ever on that entry. *)
Theorem madt_zero_length_hangs (end_ ptr : Z) (s : sys) :
  ptr + MADT.header_size <= end_ →
  read8 (k_mem (s_k s)) (hhdm_phys (s_k s) (ptr + 1)) = 0 →
  read8 (k_mem (s_k s)) (hhdm_phys (s_k s) ptr) ∉ [MADT_TYPE_IOAPIC; MADT_TYPE_ISR_OVERRIDE] →
  while_ (madt_round end_) ptr s = Hang.
Proof.
  intros Hend Hlen Hty. set (ty := read8 (k_mem (s_k s)) (hhdm_phys (s_k s) ptr)) in *.
  apply (while_forever _ (λ p s', p = ptr ∧ ∃ l, s' = logged l s)); [|split; [done|exists []; by rewrite logged_nil]].
  intros p s' [-> [l ->]]. unfold madt_round, MADT.header_size in *. destruct (Z.leb_spec (ptr + 2) end_); [|lia].
  rewrite (bind_ok _ _ _ 0 (logged l s)) by (unfold MADT.length, mem8, gets; by rewrite <- Hlen).
  destruct (Z.ltb_spec end_ (ptr + 0)); [lia|].
  rewrite (bind_ok _ _ _ ty (logged l s)) by done.
  assert (∃ l', madt_entry ptr ty 0 (logged l s) = Ok (tt, logged l' s)) as (l' & El).
  { unfold madt_entry. rewrite !elem_of_cons, elem_of_nil in Hty.
    rewrite (proj2 (Z.eqb_neq ty MADT_TYPE_IOAPIC)), (proj2 (Z.eqb_neq ty MADT_TYPE_ISR_OVERRIDE)) by tauto.
    destruct (bool_decide _); [by exists l|]. by exists (Printf "ACPI: Unknown MADT entry: %d (Len: %d)\n" [ty; 0] :: l). }
  rewrite (bind_ok _ _ _ _ _ El). exists ptr, (logged l' s). unfold ret. rewrite Z.add_0_r. split; [done|]. eauto.
Qed.

Lemma madt_zero_length_hangs_witness :
  while_ (madt_round 0xffff800000001064) 0xffff80000000102c (sys0 (kernel0 0xffff800000000000)) = Hang.
Proof.
  apply madt_zero_length_hangs; [vm_compute; congruence|reflexivity|].
  rewrite !elem_of_cons, elem_of_nil. vm_compute. intuition congruence.
Defined.
