(* ===== verification/FbInv.v ===== *)
(** Drawing stays inside the framebuffer. *)
From stdpp Require Import base tactics list gmap strings.
From Stdlib Require Import ZArith Lia.
From S2P Require Import Prelude Bits State Vmm Vma Str StrInv Io IoInv Cpu Timers Apic Serial Uaccess UaccessInv Fb.

(** A framebuffer in the direct map, with lines of at least its width. *)
Record fb_ok (s : sys) : Prop := {
  fb_width : 4 * s_var s FB_WIDTH <= s_var s fb_pitch;
  fb_pitch4 : s_var s fb_pitch mod 4 = 0;
  fb_pos : 0 <= s_var s fb_pitch;
  fb_height : 0 <= s_var s FB_HEIGHT;
  fb_base : 0 <= k_hhdm (s_k s) <= s_var s fb_address;
  fb_end : s_var s fb_address + s_var s fb_pitch * s_var s FB_HEIGHT < 2 ^ 64
}.

(** The physical addresses of the framebuffer. *)
Definition in_fb (s : sys) (pa : Z) : Prop :=
  let base := s_var s fb_address - k_hhdm (s_k s) in
  base <= pa < base + s_var s fb_pitch * s_var s FB_HEIGHT.

(** Nothing has changed but pixels. *)
Definition draws (s s' : sys) : Prop :=
  ∃ m, s' = with_mem s m ∧ ∀ pa, ¬ in_fb s pa → read8 m pa = read8 (k_mem (s_k s)) pa.

Lemma draws_refl s : draws s s.
Proof. exists (k_mem (s_k s)). by rewrite with_mem_id. Qed.
Lemma draws_trans s s1 s2 : draws s s1 → draws s1 s2 → draws s s2.
Proof.
  intros (m & -> & Hm) (m' & -> & Hm'). exists m'. split; [done|]. intros pa Hpa. rewrite Hm'; [|done]. by apply Hm.
Qed.
Lemma draws_fb s s' : draws s s' → fb_ok s → fb_ok s'.
Proof. intros (m & -> & _) []. by split. Qed.

Lemma plotPixel_draws x y color s : fb_ok s → ∃ s', plotPixel x y color s = Ok (tt, s') ∧ draws s s'.
Proof.
  intros Hfb. destruct (Hfb) as [Hw H4 Hp Hh [Hb0 Hb] He]. unfold plotPixel.
  erewrite bind_ok; [|reflexivity]. erewrite bind_ok; [|reflexivity].
  destruct (Z.leb_spec (s_var s FB_WIDTH) x); cbn [orb]; [exists s; split; [done|apply draws_refl]|].
  destruct (Z.leb_spec (s_var s FB_HEIGHT) y); cbn [orb]; [exists s; split; [done|apply draws_refl]|].
  destruct (Z.ltb_spec x 0); cbn [orb]; [exists s; split; [done|apply draws_refl]|].
  destruct (Z.ltb_spec y 0); cbn [orb]; [exists s; split; [done|apply draws_refl]|].
  erewrite bind_ok; [|reflexivity]. erewrite bind_ok; [|reflexivity]. eexists. split; [reflexivity|].
  eexists. split; [reflexivity|]. intros pa Hpa. apply read8_write_le_out.
  set (off := 4 * (y * (s_var s fb_pitch / 4) + x)).
  assert (0 <= off ∧ off + 4 <= s_var s fb_pitch * s_var s FB_HEIGHT) as [Ho1 Ho2].
  { set (q := s_var s fb_pitch / 4). assert (s_var s fb_pitch = 4 * q) as Hq by (unfold q; Z.div_mod_to_equations; lia).
    unfold off. fold q. rewrite Hq in *. assert (0 <= q) by lia.
    assert (0 <= y * q ∧ y * q <= (s_var s FB_HEIGHT - 1) * q) by nia. nia. }
  assert (hhdm_phys (s_k s) (pixel_ptr (s_var s fb_address) (s_var s fb_pitch) x y) = s_var s fb_address - k_hhdm (s_k s) + off) as ->.
  { unfold pixel_ptr, hhdm_phys. rewrite Z.shiftr_div_pow2 by lia. change (2 ^ 2) with 4.
    assert (0 <= y * (s_var s fb_pitch / 4)) by (apply Z.mul_nonneg_nonneg; [lia|apply Z.div_pos; lia]).
    rewrite (u64_id (y * _)) by (unfold is_u64; unfold off in *; lia). fold off.
    rewrite (u64_id (s_var s fb_address + off)), u64_id by (unfold is_u64; lia). lia. }
  unfold in_fb in Hpa. lia.
Qed.

Lemma for_draws n i body s :
  fb_ok s → (∀ j s1, i <= j < i + Z.of_nat n → fb_ok s1 → ∃ s2, body j s1 = Ok (tt, s2) ∧ draws s1 s2) →
  ∃ s', for_ n i body s = Ok (tt, s') ∧ draws s s'.
Proof.
  revert i s. induction n as [|n IH]; intros i s Hfb Hbody; cbn [for_]; [exists s; split; [done|apply draws_refl]|].
  destruct (Hbody i s ltac:(lia) Hfb) as (s1 & E1 & D1). rewrite (bind_ok _ _ _ _ _ E1).
  destruct (IH (i + 1) s1 (draws_fb _ _ D1 Hfb)) as (s2 & E2 & D2).
  { intros j s2 Hj. apply Hbody. lia. }
  exists s2. split; [done|]. by eapply draws_trans.
Qed.

Lemma printChar_draws c x y s : fb_ok s → 0 <= c < 128 →
  - 2 ^ 31 <= x → x + 8 <= 2 ^ 31 → - 2 ^ 31 <= y → y + 8 <= 2 ^ 31 →
  ∃ s', printChar c x y s = Ok (tt, s') ∧ draws s s'.
Proof.
  intros Hfb Hc Hx1 Hx2 Hy1 Hy2. unfold printChar.
  assert (i8 c = c) as -> by (unfold i8, signed; Z.div_mod_to_equations; lia).
  apply for_draws; [done|]. intros row s1 Hrow Hfb1. change (Z.of_nat FONT_HEIGHT) with 8 in Hrow.
  erewrite bind_ok; [|unfold index_ok; rewrite (proj2 (Z.leb_le 0 c)), (proj2 (Z.ltb_lt c 128)) by lia; reflexivity].
  apply for_draws; [done|]. intros col s2 Hcol Hfb2. change (Z.of_nat FONT_WIDTH) with 8 in Hcol.
  erewrite bind_ok; [|apply checked_ok; lia]. erewrite bind_ok; [|apply checked_ok; lia].
  destruct (Z.testbit _ col); by apply plotPixel_draws.
Qed.

(** Text stays on the screen's memory: for every position of the text, on
    the screen, partly beside it or far outside, [printString] ends and changes
    no byte of memory outside the framebuffer. *)
Theorem printString_safe (str : cstring) (l : list Z) (x y : Z) (s : sys) :
  fb_ok s → holds str l → (∀ c, c ∈ l → c < 128) →
  - 2 ^ 31 <= x → x + 8 * Z.of_nat (length l) + 8 <= 2 ^ 31 → - 2 ^ 31 <= y → y + 8 <= 2 ^ 31 →
  ∃ m, printString str x y s = Ok (tt, with_mem s m) ∧
    ∀ pa, ¬ in_fb s pa → read8 m pa = read8 (k_mem (s_k s)) pa.
Proof.
  intros Hfb Hs Hascii Hx1 Hx2 Hy1 Hy2.
  assert (wp (printString str x y) s (λ _ s', draws s s')) as ([] & s' & E & m & -> & Hm)%wp_inv; [|by exists m].
  unfold printString. pose proof (holds_len _ _ Hs).
  apply (wp_while _ (λ n '(i, x') s', 0 <= i ∧ i + n = Z.of_nat (length l) ∧ x' = x + 8 * i ∧ draws s s') _)
    with (n := Z.of_nat (length l)); [|lia|split_and!; [lia|lia|lia|apply draws_refl]].
  intros n [i x'] s1 Hn (Hi & Hin & -> & D). destruct (decide (n = 0)) as [->|Hn0].
  - replace i with (Z.of_nat (length l)) by lia. by rewrite (holds_end _ _ Hs).
  - destruct (holds_lookup _ _ i Hs ltac:(lia)) as (c & Hc & -> & Hpos). rewrite (proj2 (Z.eqb_neq c 0)) by lia. cbn [negb].
    destruct (printChar_draws c (x + 8 * i) y s1) as (s2 & E2 & D2);
      [by apply (draws_fb s)|split; [lia|apply Hascii; by eapply list_elem_of_lookup_2]|lia..|].
    apply wp_bind. eapply wp_ok; [exact E2|]. apply wp_bind. eapply wp_ok; [apply checked_ok; lia|]. wp_step.
    exists (n - 1). split; [lia|]. split_and!; [lia|lia|lia|]. by eapply draws_trans.
Qed.

(** A screen of 1024 by 768 pixels. *)
Definition screen_up : sys :=
  with_var (sys0 (kernel0 0xffff800000000000)) (λ v,
    match v with FB_WIDTH => 1024 | FB_HEIGHT => 768 | fb_pitch => 4096 | fb_address => 0xffff8000fd000000 | _ => 0 end).

Lemma printString_safe_witness :
  ∃ m, printString (lit "Panic") (-3) 765 screen_up = Ok (tt, with_mem screen_up m) ∧
    ∀ pa, ¬ in_fb screen_up pa → read8 m pa = 0.
Proof.
  apply (printString_safe (lit "Panic") (bytes "Panic") (-3) 765 screen_up).
  - split; vm_compute; intuition congruence.
  - apply (of_list_holds (bytes "Panic")); [|done]. intros c. cbn. rewrite !elem_of_cons, elem_of_nil.
    intros [->|[->|[->|[->|[->|[]]]]]]; done.
  - intros c. cbn. rewrite !elem_of_cons, elem_of_nil. intros [->|[->|[->|[->|[->|[]]]]]]; done.
  - lia.
  - cbn. lia.
  - lia.
  - lia.
Defined.
