(* ===== verification/Badapple.v ===== *)
(** The demonstration program [user/badapple/badapple.c]: a video of
    run-length encoded frames drawn cell by cell, where only the cells that
    differ from the previous frame are painted, and its sound.

    The converted video and audio tables are parameters; so is what the kernel
    answers to the program's system calls.  The program is not built with the
    sanitizer: an overflow or an index out of range is undefined and ends the
    run of the model. *)
From stdpp Require Import base tactics list gmap strings.
From Stdlib Require Import ZArith Lia.
From S2P Require Import Prelude.

Definition int (n : Z) {S} : M S Z := checked 32 n "undefined".
Definition defined (i n : Z) {S} : M S unit :=
  if (0 <=? i) && (i <? n) then ret tt else panic "undefined".

(** The frame buffer is an array of 32-bit words from [frameBufferBase] on. *)
Record screen := mk_screen { prevFrame : list Z; words_ : Z → Z; frameBufferPitch : Z }.
Definition set_prevFrame (s : screen) (l : list Z) : screen := mk_screen l (words_ s) (frameBufferPitch s).
Definition set_words (s : screen) (w : Z → Z) : screen := mk_screen (prevFrame s) w (frameBufferPitch s).

(** [y * (frameBufferPitch >> 2) + x]: an unsigned product and an [int]. *)
Definition pixel_index (pitch x y : Z) : Z := u32 (y * Z.shiftr pitch 2) + x.

Definition plot (x y color : Z) : M screen unit :=
  modify (λ s, let i := pixel_index (frameBufferPitch s) x y in
    set_words s (λ j, if j =? i then color else words_ s j)).

(** [for (int i = 0; i < n; i++)] *)
Fixpoint upto (n : nat) (i : Z) (body : Z → M screen unit) : M screen unit :=
  match n with
  | O => ret tt
  | S n' => body i ;;; upto n' (i + 1) body
  end.

Section drawFrame.
Context (rleData : Z → Z) (rleLength frameWidth frameHeight startX startY scale : Z).

(** The block of pixels of one cell. *)
Definition paint (x y color : Z) : M screen unit :=
  let* dx := int (x * scale) in
  let* px := int (startX + dx) in
  let* dy := int (y * scale) in
  let* py := int (startY + dy) in
  upto (Z.to_nat scale) 0 (λ dy,
    let* rowY := int (py + dy) in
    upto (Z.to_nat scale) 0 (λ i,
      let* col := int (px + i) in
      plot col rowY color)).

Definition draw_cell (x y color : Z) : M screen unit :=
  let* row := int (y * frameWidth) in
  let* idx := int (row + x) in
  let* prev := gets prevFrame in
  defined idx (Z.of_nat (length prev)) ;;;
  if negb (default 0 (prev !! Z.to_nat idx) =? color) then
    modify (λ s, set_prevFrame s (<[Z.to_nat idx := color]> (prevFrame s))) ;;;
    paint x y color
  else ret tt.

(** The cell behind [(x, y)]. *)
Definition next_cell (x y : Z) : Z * Z :=
  if frameWidth <=? x + 1 then (0, y + 1) else (x + 1, y).

(** [for (int i = 0; i < count && y < frameHeight; i++)] *)
Definition run_round (count color : Z) (st : Z * (Z * Z)) : M screen (Z * (Z * Z) + Z * Z) :=
  let '(i, (x, y)) := st in
  if (i <? count) && (y <? frameHeight) then
    draw_cell x y color ;;;
    ret (inl (i + 1, next_cell x y))
  else ret (inr (x, y)).

Definition frame_round (st : Z * (Z * Z)) : M screen (Z * (Z * Z) + unit) :=
  let '(pos, (x, y)) := st in
  if (pos + 1 <? rleLength) && (y <? frameHeight) then
    let count := rleData pos in
    let value := rleData (pos + 1) in
    let color := if negb (value =? 0) then 0xFFFFFFFF else 0x00000000 in
    let* xy := while_ (run_round count color) (0, (x, y)) in
    ret (inl (pos + 2, xy))
  else ret (inr tt).

Definition drawFrame : M screen unit := while_ frame_round (0, (0, 0)).
End drawFrame.

(** * [main] *)

(** What the loop keeps: the calls of the sound system calls are listed. *)
Inductive sound := Play (divisor : Z) | Stop.
Record player := mk_player {
  audioSamplesPlayed : Z; lastTick : Z; frameIndex : Z; accum : Z; sounds : list sound
}.
Definition player0 : player := mk_player 0 0 0 0 [].

Section main.
Context (audio_data : Z → Z) (audio_data_length : Z) (audio_to_pcspkr : Z → Z).
Context (frame_offsets : Z → Z) (frame_count : Z).

(** One sample of the audio track. *)
Definition play_sample (p : player) : player :=
  if audioSamplesPlayed p <? audio_data_length then
    let bl := audio_data (audioSamplesPlayed p) in
    let out := if bl =? 254 then [Stop] else if negb (bl =? 0xFF) then [Play (audio_to_pcspkr bl)] else [] in
    mk_player (audioSamplesPlayed p + 1) (lastTick p) (frameIndex p) (accum p) (out ++ sounds p)
  else p.

(** [while (accum >= 1000)]: at most [n] rounds, [accum / 1000] being enough. *)
Fixpoint drain (n : nat) (p : player) : player :=
  match n with
  | O => p
  | S n' =>
      if 1000 <=? accum p then
        drain n' (play_sample (mk_player (audioSamplesPlayed p) (lastTick p) (frameIndex p) (accum p - 1000) (sounds p)))
      else p
  end.

(** One tick of the timer. *)
Definition tick (p : player) : player :=
  let p := mk_player (audioSamplesPlayed p) (lastTick p) (frameIndex p) (accum p + 140) (sounds p) in
  let p := drain (Z.to_nat (accum p / 1000)) p in
  mk_player (audioSamplesPlayed p) (lastTick p + 1) (frameIndex p) (accum p) (sounds p).

(** [while (lastTick < currentTicks)] *)
Definition catch_up (currentTicks : Z) (p : player) : player :=
  Nat.iter (Z.to_nat (currentTicks - lastTick p)) tick p.

Definition desired_frame (audioSamplesPlayed : Z) : Z :=
  let d := if 15499 <=? audioSamplesPlayed
           then ((audioSamplesPlayed - 15499) * 2) / 9 + ((15498 * 3) / 14 + 22)
           else (audioSamplesPlayed * 3) / 14 + 22 in
  if frame_count <=? d then frame_count - 1 else d.

(** The part of the video data that holds a frame: offset and length. *)
Definition frame_data (frameIndex : Z) : Z * Z :=
  let start := frame_offsets frameIndex in
  let end_ := if frameIndex + 1 <? frame_count then frame_offsets (frameIndex + 1) else start in
  (start, u32 (end_ - start)).

(** One round of the main loop up to the drawing: the frame to draw, if any. *)
Definition main_round (currentTicks : Z) (p : player) : player * option (Z * Z) :=
  let p := catch_up currentTicks p in
  let d := desired_frame (audioSamplesPlayed p) in
  if negb (d =? frameIndex p) then
    (mk_player (audioSamplesPlayed p) (lastTick p) d (accum p) (sounds p), Some (frame_data d))
  else (p, None).
End main.
