(* ===== verification/BadappleInv.v ===== *)
(** Drawing only the cells that changed shows the whole frame, and the sound
    keeps time. *)
From stdpp Require Import base tactics list gmap strings.
From Stdlib Require Import ZArith Lia.
From S2P Require Import Prelude Badapple.

(** * Painting *)

(** [m] gives the words of [b] a colour and changes nothing else. *)
Definition paints (pitch color : Z) (b : Z → bool) (m : M screen unit) : Prop :=
  ∀ s, frameBufferPitch s = pitch →
    ∃ w, m s = Ok (tt, set_words s w) ∧ ∀ j, w j = if b j then color else words_ s j.

Lemma paints_plot pitch x y color :
  paints pitch color (λ j, j =? pixel_index pitch x y) (plot x y color).
Proof. intros s <-. eexists. split; [reflexivity|]. done. Qed.

Lemma paints_bind {A} pitch color b (m : M screen A) (a : A) f :
  (∀ s, m s = Ok (a, s)) → paints pitch color b (f a) → paints pitch color b (bind m f).
Proof. intros Hm Hf s Hs. rewrite (bind_ok _ _ _ _ _ (Hm s)). by apply Hf. Qed.

Lemma paints_upto pitch color n i (b : Z → Z → bool) body :
  (∀ k, i <= k < i + Z.of_nat n → paints pitch color (b k) (body k)) →
  paints pitch color (λ j, existsb (λ k, b k j) (seqZ i (Z.of_nat n))) (upto n i body).
Proof.
  revert i. induction n as [|n IH]; intros i Hb s Hs.
  { exists (words_ s). split; [by destruct s|]. intros j. done. }
  destruct (Hb i ltac:(lia) s Hs) as (w1 & E1 & H1). cbn [upto]. rewrite (bind_ok _ _ _ _ _ E1).
  destruct (IH (i + 1) ltac:(intros k Hk; apply Hb; lia) (set_words s w1) Hs) as (w2 & E2 & H2).
  exists w2. split; [done|]. intros j. rewrite H2. cbn [words_ set_words]. rewrite H1.
  rewrite (seqZ_cons i) by lia. cbn [existsb]. replace (Z.pred (Z.of_nat (S n))) with (Z.of_nat n) by lia.
  replace (Z.succ i) with (i + 1) by lia. destruct (existsb _ _); [by rewrite orb_true_r|]. by rewrite orb_false_r.
Qed.

Lemma paints_times pitch color n (b : Z → Z → bool) body :
  0 <= n → (∀ k, 0 <= k < n → paints pitch color (b k) (body k)) →
  paints pitch color (λ j, existsb (λ k, b k j) (seqZ 0 n)) (upto (Z.to_nat n) 0 body).
Proof.
  intros Hn Hb. pose proof (paints_upto pitch color (Z.to_nat n) 0 b body) as H. rewrite Z2Nat.id in H by done.
  apply H. intros k Hk. apply Hb. lia.
Qed.

Lemma int_ok {S} n (s : S) : - 2 ^ 31 <= n < 2 ^ 31 → int n s = Ok (n, s).
Proof. intros H. by apply checked_ok. Qed.

(** * Frames *)

(** Where a frame of [w] by [h] cells is drawn, and that the screen has room for it. *)
Record geometry (pitch w h sX sY scale : Z) : Prop := {
  g_w : 0 < w; g_h : 0 < h; g_scale : 0 < scale; g_sX : 0 <= sX; g_sY : 0 <= sY;
  g_row : sX + w * scale <= Z.shiftr pitch 2;
  g_words : (sY + h * scale) * Z.shiftr pitch 2 <= 2 ^ 32;
  g_right : sX + w * scale < 2 ^ 31;
  g_bottom : sY + h * scale < 2 ^ 31;
  g_cells : w * h < 2 ^ 31
}.

Section frame.
Context (pitch w h sX sY scale : Z) (G : geometry pitch w h sX sY scale).
Set Default Proof Using "All".

(** Pixel [(dx, dy)] of cell [(cx, cy)]. *)
Definition cell_word (cx cy dx dy : Z) : Z := pixel_index pitch (sX + cx * scale + dx) (sY + cy * scale + dy).
Definition in_cell (cx cy j : Z) : bool :=
  existsb (λ dy, existsb (λ dx, j =? cell_word cx cy dx dy) (seqZ 0 scale)) (seqZ 0 scale).

Lemma in_cell_spec cx cy j :
  in_cell cx cy j = true ↔ ∃ dx dy, 0 <= dx < scale ∧ 0 <= dy < scale ∧ j = cell_word cx cy dx dy.
Proof.
  unfold in_cell. rewrite existsb_exists. split.
  - intros (dy & Hy & (dx & Hx & Hj%Z.eqb_eq)%existsb_exists). rewrite <- list_elem_of_In, elem_of_seqZ in Hx, Hy.
    exists dx, dy. split; [lia|]. split; [lia|done].
  - intros (dx & dy & Hx & Hy & ->). exists dy. rewrite <- list_elem_of_In, elem_of_seqZ. split; [lia|].
    apply existsb_exists. exists dx. rewrite <- list_elem_of_In, elem_of_seqZ. split; [lia|]. apply Z.eqb_refl.
Qed.

Lemma cell_in_range c d n : 0 <= c < n → 0 <= d < scale → 0 <= c * scale + d < n * scale.
Proof. pose proof (g_scale _ _ _ _ _ _ G). intros. nia. Qed.

(** Different cells have different words. *)
Lemma cell_word_inj cx cy dx dy cx' cy' dx' dy' :
  0 <= cx < w → 0 <= cy < h → 0 <= dx < scale → 0 <= dy < scale →
  0 <= cx' < w → 0 <= cy' < h → 0 <= dx' < scale → 0 <= dy' < scale →
  cell_word cx cy dx dy = cell_word cx' cy' dx' dy' → cx = cx' ∧ cy = cy'.
Proof.
  intros Hcx Hcy Hdx Hdy Hcx' Hcy' Hdx' Hdy'. destruct G.
  pose proof (cell_in_range cx dx w Hcx Hdx). pose proof (cell_in_range cx' dx' w Hcx' Hdx').
  pose proof (cell_in_range cy dy h Hcy Hdy). pose proof (cell_in_range cy' dy' h Hcy' Hdy').
  unfold cell_word, pixel_index. set (q := Z.shiftr pitch 2) in *.
  assert (∀ y, 0 <= y < sY + h * scale → u32 (y * q) = y * q) as Hu.
  { intros y Hy. apply Z.mod_small. nia. }
  rewrite !Hu by lia. intros E.
  destruct (Z.div_mod_unique q (sY + cy * scale + dy) (sY + cy' * scale + dy') (sX + cx * scale + dx) (sX + cx' * scale + dx')) as [E1 E2]; [left; lia|left; lia|lia|].
  destruct (Z.div_mod_unique scale cx cx' dx dx') as [? _]; [left; lia|left; lia|lia|].
  destruct (Z.div_mod_unique scale cy cy' dy dy') as [? _]; [left; lia|left; lia|lia|]. done.
Qed.

Lemma paint_cell cx cy color : 0 <= cx < w → 0 <= cy < h →
  paints pitch color (in_cell cx cy) (paint sX sY scale cx cy color).
Proof.
  intros Hx Hy. destruct G. pose proof (cell_in_range cx 0 w Hx ltac:(lia)). pose proof (cell_in_range cy 0 h Hy ltac:(lia)).
  unfold paint. do 4 (eapply paints_bind; [intros s; apply int_ok; lia|]).
  apply (paints_times pitch color scale (λ dy j, existsb (λ dx, j =? cell_word cx cy dx dy) (seqZ 0 scale))); [lia|].
  intros dy Hdy. pose proof (cell_in_range cy dy h Hy Hdy).
  eapply paints_bind; [intros s; apply int_ok; lia|].
  apply (paints_times pitch color scale (λ dx j, j =? cell_word cx cy dx dy)); [lia|].
  intros dx Hdx. pose proof (cell_in_range cx dx w Hx Hdx).
  eapply paints_bind; [intros s; apply int_ok; lia|]. apply paints_plot.
Qed.

(** The screen shows the frame that the program remembers. *)
Definition shows (s : screen) : Prop :=
  frameBufferPitch s = pitch ∧ Z.of_nat (length (prevFrame s)) = w * h ∧
  ∀ cx cy dx dy, 0 <= cx < w → 0 <= cy < h → 0 <= dx < scale → 0 <= dy < scale →
    words_ s (cell_word cx cy dx dy) = default 0 (prevFrame s !! Z.to_nat (cy * w + cx)).

(** Outside the frame nothing is painted. *)
Definition beside (j : Z) : Prop := ∀ cx cy, 0 <= cx < w → 0 <= cy < h → in_cell cx cy j = false.
Definition keeps_beside (s s' : screen) : Prop := ∀ j, beside j → words_ s' j = words_ s j.

Lemma cell_index cx cy : 0 <= cx < w → 0 <= cy < h → 0 <= cy * w + cx < w * h.
Proof. intros. nia. Qed.

Lemma shows_painted s cx cy color wd :
  shows s → 0 <= cx < w → 0 <= cy < h → (∀ j, wd j = if in_cell cx cy j then color else words_ s j) →
  shows (mk_screen (<[Z.to_nat (cy * w + cx) := color]> (prevFrame s)) wd pitch).
Proof.
  intros (Hp & Hlen & Hs) Hx Hy Hwd. split; [done|]. cbn [prevFrame words_]. split; [by rewrite length_insert|].
  intros cx' cy' dx dy Hx' Hy' Hdx Hdy. rewrite Hwd. destruct (in_cell cx cy _) eqn:E.
  - apply in_cell_spec in E as (dx' & dy' & Hdx' & Hdy' & E).
    apply cell_word_inj in E as [-> ->]; [|done..]. pose proof (cell_index cx cy Hx Hy).
    by rewrite list_lookup_insert_eq by lia.
  - destruct (decide (cx' = cx ∧ cy' = cy)) as [[-> ->]|Hne].
    { exfalso. enough (in_cell cx cy (cell_word cx cy dx dy) = true) by congruence. apply in_cell_spec. by exists dx, dy. }
    pose proof (cell_index cx cy Hx Hy). pose proof (cell_index cx' cy' Hx' Hy').
    rewrite Hs, list_lookup_insert_ne; [done| |done..]. intros En. apply Hne.
    assert (cy * w + cx = cy' * w + cx') as Eq by lia.
    destruct (Z.div_mod_unique w cy' cy cx' cx) as [? ?]; [left; lia|left; lia|lia|done].
Qed.

(** One cell: remembered and shown, whether it had to be painted or not. *)
Lemma draw_cell_ok s cx cy color : shows s → 0 <= cx < w → 0 <= cy < h →
  ∃ s', draw_cell w sX sY scale cx cy color s = Ok (tt, s') ∧
    prevFrame s' = <[Z.to_nat (cy * w + cx) := color]> (prevFrame s) ∧ shows s' ∧ keeps_beside s s'.
Proof.
  intros Hs Hx Hy. pose proof Hs as (Hp & Hlen & Hsh). pose proof (g_cells _ _ _ _ _ _ G). pose proof (cell_index cx cy Hx Hy).
  unfold draw_cell. assert (0 <= cy * w) by (apply Z.mul_nonneg_nonneg; lia).
  erewrite bind_ok; [|apply int_ok; lia]. erewrite bind_ok; [|apply int_ok; lia].
  erewrite bind_ok; [|reflexivity]. erewrite bind_ok.
  2: { unfold defined. by rewrite (proj2 (Z.leb_le 0 (cy * w + cx))), (proj2 (Z.ltb_lt (cy * w + cx) _)) by lia. }
  destruct (Z.eqb_spec (default 0 (prevFrame s !! Z.to_nat (cy * w + cx))) color) as [E|E]; cbn [negb].
  - exists s. split; [done|]. split; [|split; [done|by intros j]].
    destruct (lookup_lt_is_Some_2 (prevFrame s) (Z.to_nat (cy * w + cx))) as [c Hc]; [lia|].
    rewrite Hc in E. cbn in E. subst c. by rewrite list_insert_id.
  - destruct (paint_cell cx cy color Hx Hy (set_prevFrame s (<[Z.to_nat (cy * w + cx) := color]> (prevFrame s))) Hp) as (wd & Ew & Hwd).
    eexists. split; [erewrite bind_ok; [exact Ew|reflexivity]|]. split; [done|]. split.
    + pose proof (shows_painted s cx cy color wd Hs Hx Hy Hwd) as Hsp. by rewrite <- Hp in Hsp.
    + intros j Hj. cbn. rewrite Hwd. by rewrite (Hj cx cy Hx Hy).
Qed.

(** * The loops *)

(** The frame after the first cells of [cells] have been drawn over [prev]. *)
Definition over (cells prev : list Z) : list Z := take (Z.to_nat (w * h)) cells ++ drop (length cells) prev.

Lemma over_snoc cells prev c : length prev = Z.to_nat (w * h) → (length cells < length prev)%nat →
  <[length cells := c]> (over cells prev) = over (cells ++ [c]) prev.
Proof.
  intros Hl Hlt. unfold over. rewrite !take_ge by (rewrite ?length_app; cbn; lia).
  replace (length cells) with (length cells + 0)%nat at 1 by lia. rewrite insert_app_r, <- app_assoc. f_equal.
  destruct (lookup_lt_is_Some_2 prev (length cells) Hlt) as [x Hx]. rewrite (drop_S _ x) by done.
  rewrite length_app. cbn. by rewrite Nat.add_1_r.
Qed.

Lemma over_full cells more prev : length prev = Z.to_nat (w * h) → (length prev <= length cells)%nat →
  over (cells ++ more) prev = over cells prev.
Proof.
  intros Hl Hge. unfold over. rewrite !drop_ge by (rewrite ?length_app; lia). by rewrite take_app_le by lia.
Qed.

Lemma length_over cells prev : length prev = Z.to_nat (w * h) → length (over cells prev) = length prev.
Proof. intros Hl. unfold over. rewrite length_app, length_take, length_drop. lia. Qed.

(** The states of the loops: [cells] are drawn and [(x, y)] is the next cell. *)
Definition drawn (s0 : screen) (cells : list Z) (xy : Z * Z) (s : screen) : Prop :=
  prevFrame s = over cells (prevFrame s0) ∧ shows s ∧ keeps_beside s0 s ∧
  0 <= fst xy < w ∧ 0 <= snd xy <= h ∧ snd xy * w + fst xy = Z.min (Z.of_nat (length cells)) (w * h).

Lemma drawn_step s0 cells x y s color : shows s0 → drawn s0 cells (x, y) s → y < h →
  ∃ s', draw_cell w sX sY scale x y color s = Ok (tt, s') ∧ drawn s0 (cells ++ [color]) (next_cell w x y) s'.
Proof.
  intros (_ & H0 & _) (Hp & Hs & Hb & Hx & Hy & Hk) Hlt. cbn [fst snd] in *. destruct G.
  destruct (draw_cell_ok s x y color Hs ltac:(lia) ltac:(lia)) as (s' & E & Hp' & Hs' & Hb').
  assert (y * w + x < w * h) by (apply cell_index; lia).
  assert (Z.to_nat (y * w + x) = length cells) as Hidx by lia.
  exists s'. split; [done|]. split; [|split; [done|split; [|split; [|split]]]].
  - rewrite Hp', Hp, Hidx. apply over_snoc; lia.
  - intros j Hj. rewrite Hb' by done. by apply Hb.
  - unfold next_cell. destruct (Z.leb_spec w (x + 1)); cbn; lia.
  - unfold next_cell. destruct (Z.leb_spec w (x + 1)); cbn; lia.
  - rewrite length_app. cbn [length]. unfold next_cell. destruct (Z.leb_spec w (x + 1)); cbn [fst snd]; nia.
Qed.

Lemma run_ok s0 cells xy s count color : shows s0 → 0 <= count < 256 → drawn s0 cells xy s →
  wp (while_ (run_round w h sX sY scale count color) (0, xy)) s
    (λ xy' s', drawn s0 (cells ++ replicate (Z.to_nat count) color) xy' s').
Proof.
  intros H0 Hc Hd. pose proof H0 as (_ & Hl0 & _).
  apply (wp_while _ (λ n '(i, xy) s, n = count - i ∧ 0 <= i <= count ∧ drawn s0 (cells ++ replicate (Z.to_nat i) color) xy s) _)
    with (n := count); [|lia|split_and!; [lia|lia|lia|by rewrite app_nil_r]].
  clear xy s Hd. intros n [i [x y]] s Hn (-> & Hi & Hd). unfold run_round.
  destruct (Z.ltb_spec i count) as [Hic|Hic]; cbn [andb].
  - destruct (Z.ltb_spec y h) as [Hy|Hy].
    + destruct (drawn_step s0 _ x y s color H0 Hd Hy) as (s' & E & Hd').
      apply wp_bind. eapply wp_ok; [exact E|]. apply wp_ret. exists (count - (i + 1)).
      split; [lia|]. split; [lia|]. split; [lia|]. rewrite <- app_assoc, <- replicate_cons_app in Hd'.
      by replace (Z.to_nat (i + 1)) with (S (Z.to_nat i)) by lia.
    + apply wp_ret. destruct Hd as (Hp & Hs & Hb & Hx & Hyh & Hk). cbn [fst snd] in *.
      assert (w * h <= Z.of_nat (length (cells ++ replicate (Z.to_nat i) color))) as Hfull by nia.
      assert (over (cells ++ replicate (Z.to_nat count) color) (prevFrame s0) = over (cells ++ replicate (Z.to_nat i) color) (prevFrame s0)) as Eq.
      { replace (Z.to_nat count) with (Z.to_nat i + Z.to_nat (count - i))%nat by lia.
        rewrite replicate_add, app_assoc. apply over_full; lia. }
      split; [by rewrite Eq|]. split; [done|]. split; [done|]. cbn [fst snd]. split; [done|]. split; [done|].
      rewrite Hk, !length_app, !length_replicate in *. lia.
  - apply wp_ret. by replace count with i by lia.
Qed.
End frame.

(** What a run-length encoded frame says: the colours of its cells. *)
Fixpoint decode (rle : Z → Z) (pos : Z) (pairs : nat) : list Z :=
  match pairs with
  | O => []
  | S n => replicate (Z.to_nat (rle pos)) (if negb (rle (pos + 1) =? 0) then 0xFFFFFFFF else 0) ++ decode rle (pos + 2) n
  end.

Lemma decode_add rle pos n m : decode rle pos (n + m) = decode rle pos n ++ decode rle (pos + 2 * Z.of_nat n) m.
Proof.
  revert pos. induction n as [|n IH]; intros pos; cbn [decode Nat.add app].
  { f_equal. lia. }
  rewrite IH, <- app_assoc. by replace (pos + 2 + 2 * Z.of_nat n) with (pos + 2 * Z.of_nat (S n)) by lia.
Qed.

(** Drawing only what changed shows the whole frame: when the screen shows
    the remembered frame, then after [drawFrame] the remembered frame is the
    decoded one (over the old one where the data ends early), the screen shows
    it, every cell as a block of equal pixels, and no word beside the frame has
    changed. *)
Theorem drawFrame_correct (rle : Z → Z) (len pitch w h sX sY scale : Z) (s : screen) :
  geometry pitch w h sX sY scale → (∀ i, 0 <= rle i < 256) → 0 <= len < 2 ^ 31 →
  shows pitch w h sX sY scale s →
  ∃ s', drawFrame rle len w h sX sY scale s = Ok (tt, s') ∧
    prevFrame s' = over w h (decode rle 0 (Z.to_nat (len / 2))) (prevFrame s) ∧
    shows pitch w h sX sY scale s' ∧ keeps_beside pitch w h sX sY scale s s'.
Proof.
  intros G Hrle Hlen Hs. pose proof Hs as (_ & Hl & _). pose proof G as [].
  set (dr := drawn pitch w h sX sY scale s).
  enough (wp (drawFrame rle len w h sX sY scale) s (λ _ s', ∃ xy, dr (decode rle 0 (Z.to_nat (len / 2))) xy s'))
    as ([] & s' & E & xy & Hp & Hs' & Hb & _)%wp_inv by (by exists s').
  unfold drawFrame.
  apply (wp_while _ (λ n '(pos, xy) s', ∃ k, pos = 2 * Z.of_nat k ∧ n = len / 2 - Z.of_nat k ∧ dr (decode rle 0 k) xy s') _)
    with (n := len / 2); [|Z.div_mod_to_equations; lia|].
  2: { exists 0%nat. split_and!; [done|lia|]. split; [unfold over; cbn [decode length]; by rewrite take_nil|]. split; [done|]. split; [by intros j|]. cbn. split; [lia|]. split; [lia|]. lia. }
  intros n [pos [x y]] s1 Hn (k & -> & -> & Hd). unfold frame_round.
  destruct (Z.ltb_spec (2 * Z.of_nat k + 1) len) as [Hpos|Hpos]; cbn [andb].
  - destruct (Z.ltb_spec y h) as [Hy|Hy].
    + apply wp_bind. eapply wp_mono; [by apply (run_ok pitch w h sX sY scale G s (decode rle 0 k))|].
      intros xy' s2 Hd'. apply wp_ret. exists (len / 2 - Z.of_nat (S k)). split; [Z.div_mod_to_equations; lia|].
      exists (S k). split_and!; [lia|done|]. rewrite <- Nat.add_1_r, decode_add, Z.add_0_l. cbn [decode]. by rewrite app_nil_r.
    + apply wp_ret. exists (x, y). destruct Hd as (Hp & Hsh & Hb & Hx & Hyh & Hk). cbn [fst snd] in *.
      replace (Z.to_nat (len / 2)) with (k + (Z.to_nat (len / 2) - k))%nat by (Z.div_mod_to_equations; lia).
      rewrite decode_add. split; [rewrite (over_full pitch w h sX sY scale G) by nia; done|]. split; [done|]. split; [done|]. split; [done|]. split; [done|].
      cbn [fst snd]. rewrite length_app. nia.
  - apply wp_ret. exists (x, y). by replace (Z.to_nat (len / 2)) with k by (Z.div_mod_to_equations; lia).
Qed.

(** The program's first frame on a screen of 1920 by 1080 pixels. *)
Definition black : screen := mk_screen (replicate (Z.to_nat 10800) 0) (λ _, 0) 7680.

Lemma black_shows : shows 7680 120 90 650 8 3 black.
Proof.
  split; [done|]. split; [done|]. intros cx cy dx dy Hx Hy _ _. cbn [words_ prevFrame black].
  rewrite lookup_replicate_2; [done|]. lia.
Qed.

Lemma drawFrame_correct_witness :
  ∃ s', drawFrame (λ i, if i =? 0 then 200 else 1) 2 120 90 650 8 3 black = Ok (tt, s') ∧
    prevFrame s' = over 120 90 (replicate 200 0xFFFFFFFF) (replicate (Z.to_nat 10800) 0) ∧
    shows 7680 120 90 650 8 3 s' ∧ keeps_beside 7680 120 90 650 8 3 black s'.
Proof.
  apply (drawFrame_correct (λ i, if i =? 0 then 200 else 1) 2 7680 120 90 650 8 3 black);
    [split; vm_compute; congruence|intros i; destruct (i =? 0); lia|lia|exact black_shows].
Defined.

(** * The sound *)

(** The audio track keeps time: after [n] ticks of a millisecond, 140 samples
    have been played for every thousand ticks, rounded down, up to the end of
    the track; the remainder is carried over. *)
Theorem audio_keeps_time (audio_data audio_to_pcspkr : Z → Z) (len : Z) (n : nat) :
  0 <= len →
  let p := Nat.iter n (tick audio_data len audio_to_pcspkr) player0 in
  audioSamplesPlayed p = Z.min len (140 * Z.of_nat n / 1000) ∧ accum p = (140 * Z.of_nat n) mod 1000 ∧ lastTick p = Z.of_nat n.
Proof.
  intros Hlen. cbv zeta. induction n as [|n (IH1 & IH2 & IH3)].
  { change (140 * Z.of_nat 0) with 0. rewrite Z.div_0_l, Z.mod_0_l by lia. cbn. lia. }
  change (Nat.iter (S n) ?f ?x) with (f (Nat.iter n f x)).
  set (p := Nat.iter n _ _) in *. replace (140 * Z.of_nat (S n)) with (140 * Z.of_nat n + 140) by lia.
  set (t := 140 * Z.of_nat n) in *. assert (0 <= t) by lia. unfold tick. cbn [accum].
  assert (accum p < 1000 ∧ 0 <= accum p) as Ha by (rewrite IH2; pose proof (Z.mod_pos_bound t 1000 ltac:(lia)); lia).
  destruct (decide (accum p + 140 < 1000)) as [Hlt|Hge].
  - rewrite Z.div_small by lia. change (Z.to_nat 0) with 0%nat. cbn [drain audioSamplesPlayed lastTick accum].
    rewrite IH2 in Hlt. rewrite IH1, IH2, IH3. clear IH1 IH2 IH3 Ha. clearbody t. Z.div_mod_to_equations. lia.
  - assert ((accum p + 140) / 1000 = 1) as -> by (Z.div_mod_to_equations; lia).
    change (Z.to_nat 1) with 1%nat. cbn [drain accum]. rewrite (proj2 (Z.leb_le 1000 (accum p + 140))) by lia.
    unfold play_sample. cbn [audioSamplesPlayed lastTick accum frameIndex sounds].
    rewrite IH2 in Hge. rewrite IH1.
    destruct (Z.ltb_spec (Z.min len (t / 1000)) len); cbn [audioSamplesPlayed lastTick accum]; rewrite ?IH1, ?IH2, ?IH3;
      clear IH1 IH2 IH3 Ha; clearbody t; Z.div_mod_to_equations; lia.
Qed.
