(* ===== verification/SyscallsInv.v ===== *)
(** System calls on the files of the running thread. *)
From stdpp Require Import base tactics list gmap strings.
From Stdlib Require Import ZArith Lia.
From S2P Require Import Prelude Bits State Spinlock Pmm Heap Vmm Vma Libc Str StrInv Kbd Sched Io Cpu Timers Apic Serial Uaccess Fs FsInv Elf Fb Dbgstub Intr Syscalls.

(** [t] is the running thread and its lock can be taken. *)
Record running (s : sys) (t : thread) : Prop := {
  run_lock : can_lock scheduler_spinlock (s_k s);
  run_thread : thread_tab (k_sched (s_k s)) !! threads (k_sched (s_k s)) = Some t
}.

(** The running thread's structure replaced. *)
Definition with_thread (s : sys) (t : thread) : sys :=
  let k := s_k s in
  with_k s (set_sched k (set_thread_tab (k_sched k) (<[threads (k_sched k) := t]> (thread_tab (k_sched k))))).

Lemma get_current_ok k : can_lock scheduler_spinlock k → get_current_thread k = Ok (threads (k_sched k), k).
Proof.
  intros Hl. unfold get_current_thread. rewrite (bind_ok _ _ _ _ _ (spinlock_lock_ok _ _ Hl)).
  erewrite bind_ok; [|reflexivity]. erewrite bind_ok; [|by apply spinlock_unlock_balanced].
  unfold ret, restored. by destruct k as [? ? []].
Qed.

Section running.
Context (s : sys) (t : thread) (Hrun : running s t).
Set Default Proof Using "All".

Lemma kern_current_ok : kern get_current_thread s = Ok (threads (k_sched (s_k s)), s).
Proof. unfold kern. rewrite get_current_ok by apply Hrun. by destruct s. Qed.

Lemma kern_thread_ok : kern (get_thread (threads (k_sched (s_k s)))) s = Ok (t, s).
Proof. unfold kern, get_thread. rewrite (run_thread _ _ Hrun). by destruct s. Qed.

Lemma current_ok : current s = Ok (t, s).
Proof. unfold current. rewrite (bind_ok _ _ _ _ _ kern_current_ok). exact kern_thread_ok. Qed.

Lemma put_current_ok f : put_current f s = Ok (tt, with_thread s (f t)).
Proof.
  unfold put_current. rewrite (bind_ok _ _ _ _ _ kern_current_ok), (bind_ok _ _ _ _ _ kern_thread_ok). done.
Qed.

Lemma get_fd_ok i f : i < MAX_FDS → fds t !! Z.to_nat i = Some f → get_fd i s = Ok (f, s).
Proof.
  intros Hi Hf. unfold get_fd. rewrite (bind_ok _ _ _ _ _ current_ok), Hf. by rewrite (proj2 (Z.ltb_lt i MAX_FDS) Hi).
Qed.
End running.

(** Where a seek is meant to go. *)
Definition seek_goal (whence offset pos size : Z) : Z :=
  if whence =? SEEK_SET then offset else if whence =? SEEK_CUR then pos + offset else size + offset.

Lemma seek_target_ok whence offset pos size s :
  bool_decide (whence ∈ [SEEK_SET; SEEK_CUR; SEEK_END]) = true → - 2 ^ 63 <= seek_goal whence offset pos size < 2 ^ 63 →
  seek_target whence offset pos size s = Ok (Some (seek_goal whence offset pos size), s).
Proof.
  intros Hw%bool_decide_eq_true_1 Hg. rewrite !elem_of_cons, elem_of_nil in Hw. unfold seek_target, seek_goal in *.
  destruct Hw as [->|[->|[->|[]]]]; cbn [Z.eqb Pos.eqb SEEK_SET SEEK_CUR SEEK_END] in *.
  - done.
  - unfold ret, i64, signed, u64. do 3 f_equal. change (2 ^ (64 - 1)) with (2 ^ 63).
    rewrite Zplus_mod_idemp_l, Z.mod_small by lia. lia.
  - erewrite bind_ok; [|apply checked_ok; exact Hg]. done.
Qed.

Lemma seek_target_bad whence offset pos size s :
  bool_decide (whence ∈ [SEEK_SET; SEEK_CUR; SEEK_END]) = false → seek_target whence offset pos size s = Ok (None, s).
Proof.
  intros Hw%bool_decide_eq_false_1. rewrite !elem_of_cons, elem_of_nil in Hw. unfold seek_target.
  rewrite (proj2 (Z.eqb_neq whence SEEK_SET)), (proj2 (Z.eqb_neq whence SEEK_CUR)), (proj2 (Z.eqb_neq whence SEEK_END)) by tauto. done.
Qed.

Lemma clamp_ok size pos : 0 <= size → clamp size pos = Z.max 0 (Z.min size pos).
Proof. intros Hs. unfold clamp. destruct (Z.ltb_spec pos 0); [destruct (Z.ltb_spec size 0)|destruct (Z.ltb_spec size pos)]; lia. Qed.

(** [sys_seek] on an open file of the ramdisk: for the three kinds of seek the
    new position is the one asked for, limited to the file, and it is returned and
    stored in the thread's descriptor, everything else staying as it is; another
    kind of seek is refused without effect. *)
Theorem sys_seek_correct (frame : syscall_frame) (s : sys) (t : thread) (f : fd) (name : list Z) (files : list tar_file) (tf : tar_file) :
  let i := sf_rbx frame in
  let whence := i32 (sf_rsi frame) in
  let goal := seek_goal whence (i64 (sf_rdx frame)) (seek_pos f) (size_of tf) in
  running s t → i < MAX_FDS → fds t !! Z.to_nat i = Some f → file_name f ≠ 0 →
  tar_at (kstr s (s_var s archive)) 0 files → Z.of_nat (length files) < 2 ^ 32 →
  holds (kstr s (file_name f)) name → (length name < 255)%nat → find_tar files name = Some tf →
  size_of tf < 2 ^ 31 → - 2 ^ 63 <= goal < 2 ^ 63 →
  if bool_decide (whence ∈ [SEEK_SET; SEEK_CUR; SEEK_END])
  then let n := Z.max 0 (Z.min (size_of tf) goal) in
    sys_seek frame s = Ok (set_rax frame n, with_thread s (set_fds t (next_fd t) (<[Z.to_nat i := mk_fd (file_name f) (file_data f) n]> (fds t))))
  else sys_seek frame s = Ok (set_rax frame (-1), s).
Proof.
  intros i whence goal Hrun Hi Hf Hname Htar Hfiles Hn Hlen Hfind Hsz Hgoal. unfold sys_seek.
  rewrite (bind_ok _ _ _ _ _ (get_fd_ok s t Hrun i f Hi Hf)). rewrite (proj2 (Z.eqb_neq _ _) Hname).
  unfold arc_bytes. erewrite bind_ok; [|reflexivity]. erewrite bind_ok; [|reflexivity].
  rewrite (bind_ok _ _ _ _ _ (tarfsGetFize_ok _ _ name files s Htar Hn Hlen Hfiles)).
  assert (tar_size files name = size_of tf) as -> by (unfold tar_size; by rewrite Hfind).
  fold whence. destruct (bool_decide _) eqn:Ew.
  - erewrite bind_ok; [|by apply seek_target_ok]. fold goal. cbv beta iota zeta. rewrite clamp_ok by (unfold size_of; lia).
    unfold put_fd. erewrite bind_ok; [|apply (put_current_ok s t Hrun)]. unfold ret. do 4 f_equal.
    rewrite u64_id; [done|]. unfold is_u64, size_of in *. lia.
  - erewrite bind_ok; [|by apply seek_target_bad]. done.
Qed.

(** A thread with one open file of the archive of [FsInv]. *)
Module OpenFile.
Definition hhdm : Z := 0xffff800000000000.
Definition mem : mem_t := λ a, if a <? 0x200000 then archive2 (a - 0x100000) else lit "/hello.txt" (a - 0x200000).
Definition file : fd := mk_fd (hhdm + 0x200000) 0x1234 2.
Definition me : thread := mk_thread 1 0 0 0 0 0 0 4 0 (replicate 3 (mk_fd 0 0 0) ++ [file]) 1 0 0 0x5000 0 0.
Definition st : sys :=
  let k := set_mem (kernel0 hhdm) mem in
  let k := set_sched k (mk_sched 0x5000 {[ 0x5000 := me ]} 2 0 0x5000) in
  with_var (sys0 k) (upd_var var0 archive (hhdm + 0x100000)).

Lemma st_running : running st me.
Proof. split; [|done]. split; [cbn; unfold IRQL_DISPATCH; lia|]. cbn. set_solver. Qed.

Lemma st_archive : tar_at (kstr st (s_var st archive)) 0 [hello_txt; test_txt].
Proof.
  apply tar_file_at; [apply check_entry_ok; vm_compute; reflexivity|].
  apply tar_file_at; [apply check_entry_ok; vm_compute; reflexivity|].
  apply (tar_end _ _ 0); [lia|]. vm_compute. discriminate.
Qed.

Lemma st_name : holds (kstr st (file_name file)) (bytes "/hello.txt").
Proof. refine (holds_bytes (kstr st (file_name file)) 0 (bytes "/hello.txt") _ _ _); [vm_compute; reflexivity|reflexivity|done]. Qed.
End OpenFile.

(** A seek by ten from position 2 ends at the end of the file of five bytes. *)
Lemma sys_seek_correct_witness :
  let frame := mk_sframe 0 0 0 0 0 0 0 0 0 0 SEEK_CUR 10 0 3 6 in
  sys_seek frame OpenFile.st = Ok (set_rax frame 5, with_thread OpenFile.st (set_fds OpenFile.me 4 (<[3%nat := mk_fd (file_name OpenFile.file) 0x1234 5]> (fds OpenFile.me)))).
Proof.
  exact (sys_seek_correct (mk_sframe 0 0 0 0 0 0 0 0 0 0 SEEK_CUR 10 0 3 6) OpenFile.st OpenFile.me OpenFile.file (bytes "/hello.txt") [hello_txt; test_txt] hello_txt
    OpenFile.st_running eq_refl eq_refl (ltac:(vm_compute; congruence)) OpenFile.st_archive eq_refl OpenFile.st_name
    (ltac:(vm_compute; lia)) eq_refl eq_refl (ltac:(vm_compute; intuition congruence))).
Defined.
