(* ===== verification/InflateSpec.v ===== *)
(** Reference definitions for the decompressor: what a deflate stream means
    (RFC 1951), on lists of bits, and nothing of how [kgz_singleheader.h] reads
    it.  Codes are given by their numbers, symbols are found by comparing codes
    with the input, the tables are the formulas behind them. *)
From stdpp Require Import base tactics list.
From Stdlib Require Import ZArith Lia.
From S2P Require Import Prelude.

(** * Bits *)

(** The bits of a byte and of a sequence of bytes, least significant first. *)
Definition byte_bits (b : Z) : list bool := Z.testbit b <$> seqZ 0 8.
Definition bits_of (data : list Z) : list bool := mjoin (byte_bits <$> data).

(** The number of a bit string, least significant bit first. *)
Fixpoint number (bs : list bool) : Z :=
  match bs with
  | [] => 0
  | b :: bs' => Z.b2z b + 2 * number bs'
  end.

(** The next [k] bits as a number, and the rest. *)
Definition take_num (k : Z) (bs : list bool) : option (Z * list bool) :=
  if decide (Z.to_nat k <= length bs)%nat then Some (number (take (Z.to_nat k) bs), drop (Z.to_nat k) bs) else None.

(** * Canonical Huffman codes *)

Definition sumZ (l : list Z) : Z := foldr Z.add 0 l.

(** The length of the code of a symbol; 0 when the symbol has none. *)
Definition len_at (lens : list Z) (sym : nat) : Z := default 0 (lens !! sym).

(** The number of a code: the codes that are shorter, each with all its
    continuations to this length, and the codes of the same length of smaller
    symbols come before it. *)
Definition code_number (lens : list Z) (sym : nat) : Z :=
  let l := len_at lens sym in
  sumZ ((λ x, if (0 <? x) && (x <? l) then 2 ^ (l - x) else 0) <$> lens) +
  Z.of_nat (length (filter (λ x, x = l) (take sym lens))).

(** The [l] low bits of [c], most significant first. *)
Definition code_bits (c l : Z) : list bool := (λ i, Z.testbit c (l - 1 - i)) <$> seqZ 0 l.

Definition code_of (lens : list Z) (sym : nat) : list bool := code_bits (code_number lens sym) (len_at lens sym).
Definition codes (lens : list Z) : list (list bool) := code_of lens <$> seq 0 (length lens).

(** The lengths belong to a prefix code: no more than all 15-bit strings are
    taken. *)
Definition weight (l : Z) : Z := if 0 <? l then 2 ^ (15 - l) else 0.
Definition kraft (lens : list Z) : Z := sumZ (weight <$> lens).
Definition prefix_code (lens : list Z) : Prop := Forall (λ l, 0 <= l <= 15) lens ∧ kraft lens <= 2 ^ 15.

#[export] Instance prefix_code_dec lens : Decision (prefix_code lens).
Proof. unfold prefix_code. apply _. Defined.

(** The first symbol from [sym] on whose code starts the input. *)
Fixpoint decode_symbol (cs : list (list bool)) (sym : Z) (bs : list bool) : option (Z * list bool) :=
  match cs with
  | [] => None
  | c :: cs' =>
      if bool_decide (c ≠ [] ∧ take (length c) bs = c) then Some (sym, drop (length c) bs)
      else decode_symbol cs' (sym + 1) bs
  end.

(** * Literals and matches *)

(** Append [len] bytes, each a copy of the one [dist] bytes before it. *)
Fixpoint lz77 (len : nat) (dist : nat) (out : list Z) : list Z :=
  match len with
  | O => out
  | S len' => lz77 len' dist (out ++ [default 0 (out !! (length out - dist)%nat)])
  end.

(** Base and number of extra bits of length code [c] and distance code [c]. *)
Definition length_code (c : Z) : option (Z * Z) :=
  if c <? 8 then Some (3 + c, 0)
  else if c <? 28 then Some (3 + (4 + c mod 4) * 2 ^ (c / 4 - 1), c / 4 - 1)
  else if c =? 28 then Some (258, 0)
  else None.
Definition dist_code (c : Z) : option (Z * Z) :=
  if c <? 4 then Some (1 + c, 0)
  else if c <? 30 then Some (1 + (2 + c mod 2) * 2 ^ (c / 2 - 1), c / 2 - 1)
  else None.

(** The symbols of a compressed block, up to its end; [fuel] is at least the
    number of bits, since every symbol takes one. *)
Fixpoint decode_block (fuel : nat) (lit dist : list (list bool)) (out : list Z) (bs : list bool)
    : option (list Z * list bool) :=
  match fuel with
  | O => None
  | S fuel' =>
      '(sym, bs) ← decode_symbol lit 0 bs;
      if sym <? 256 then decode_block fuel' lit dist (out ++ [sym]) bs
      else if sym =? 256 then Some (out, bs)
      else
        '(base, extra) ← length_code (sym - 257);
        '(e, bs) ← take_num extra bs;
        '(dsym, bs) ← decode_symbol dist 0 bs;
        '(dbase, dextra) ← dist_code dsym;
        '(de, bs) ← take_num dextra bs;
        let d := dbase + de in
        if Z.of_nat (length out) <? d then None
        else decode_block fuel' lit dist (lz77 (Z.to_nat (base + e)) (Z.to_nat d) out) bs
  end.

(** * Code lengths of a dynamic block *)

Definition clen_order : list Z := [16; 17; 18; 0; 8; 7; 9; 6; 10; 5; 11; 4; 12; 3; 13; 2; 14; 1; 15].

(** [k] numbers of 3 bits. *)
Fixpoint take_triples (k : nat) (bs : list bool) : option (list Z * list bool) :=
  match k with
  | O => Some ([], bs)
  | S k' =>
      '(v, bs) ← take_num 3 bs;
      '(vs, bs) ← take_triples k' bs;
      Some (v :: vs, bs)
  end.

(** The code length of symbol [s] of the alphabet of code lengths. *)
Definition clen (vs : list Z) (s : Z) : Z :=
  match list_find (λ x, x = s) clen_order with
  | Some (i, _) => default 0 (vs !! i)
  | None => 0
  end.
Definition clens (vs : list Z) : list Z := clen vs <$> seqZ 0 19.

(** The run-length coded list of [total] code lengths. *)
Fixpoint code_lengths (fuel : nat) (cs : list (list bool)) (total : nat) (acc : list Z) (bs : list bool)
    : option (list Z * list bool) :=
  if decide (length acc = total) then Some (acc, bs)
  else if decide (total < length acc)%nat then None
  else
    match fuel with
    | O => None
    | S fuel' =>
        '(sym, bs) ← decode_symbol cs 0 bs;
        if sym <=? 15 then code_lengths fuel' cs total (acc ++ [sym]) bs
        else if sym =? 16 then
          '(b, bs) ← take_num 2 bs;
          v ← last acc;
          code_lengths fuel' cs total (acc ++ replicate (Z.to_nat (b + 3)) v) bs
        else if sym =? 17 then
          '(b, bs) ← take_num 3 bs;
          code_lengths fuel' cs total (acc ++ replicate (Z.to_nat (b + 3)) 0) bs
        else
          '(b, bs) ← take_num 7 bs;
          code_lengths fuel' cs total (acc ++ replicate (Z.to_nat (b + 11)) 0) bs
    end.

(** * Blocks *)
Section blocks.
(** Which code lengths a decoder takes: prefix codes, or fewer. *)
Context (valid : list Z → Prop) `{∀ lens, Decision (valid lens)}.

(** The lengths of the literal and of the distance codes. *)
Definition dynamic_header (bs : list bool) : option (list Z * list Z * list bool) :=
  '(hlit, bs) ← take_num 5 bs;
  '(hdist, bs) ← take_num 5 bs;
  '(hclen, bs) ← take_num 4 bs;
  '(vs, bs) ← take_triples (Z.to_nat (hclen + 4)) bs;
  if decide (valid (clens vs)) then
    let nlit := Z.to_nat (hlit + 257) in
    let ndist := Z.to_nat (hdist + 1) in
    '(lens, bs) ← code_lengths (length bs) (codes (clens vs)) (nlit + ndist) [] bs;
    if decide (valid (take nlit lens) ∧ valid (drop nlit lens)) then
      Some (take nlit lens, drop nlit lens, bs)
    else None
  else None.

Definition fixed_lens : list Z :=
  replicate 144 8 ++ replicate 112 9 ++ replicate 24 7 ++ replicate 8 8.
Definition fixed_dist_lens : list Z := replicate 32 5.

(** A stored block: from the next byte boundary, its length, the complement
    of the length, and the bytes. *)
Fixpoint take_bytes_of (k : nat) (bs : list bool) : option (list Z * list bool) :=
  match k with
  | O => Some ([], bs)
  | S k' =>
      '(v, bs) ← take_num 8 bs;
      '(vs, bs) ← take_bytes_of k' bs;
      Some (v :: vs, bs)
  end.
Definition stored_block (out : list Z) (bs : list bool) : option (list Z * list bool) :=
  let bs := drop (length bs mod 8)%nat bs in
  '(len, bs) ← take_num 16 bs;
  '(nlen, bs) ← take_num 16 bs;
  if len + nlen =? 2 ^ 16 - 1 then
    '(vs, bs) ← take_bytes_of (Z.to_nat len) bs;
    Some (out ++ vs, bs)
  else None.

Definition one_block (type : Z) (out : list Z) (bs : list bool) : option (list Z * list bool) :=
  if type =? 0 then stored_block out bs
  else if type =? 1 then decode_block (length bs) (codes fixed_lens) (codes fixed_dist_lens) out bs
  else if type =? 2 then
    '(lit, dist, bs) ← dynamic_header bs;
    decode_block (length bs) (codes lit) (codes dist) out bs
  else None.

(** The blocks up to the last one. *)
Fixpoint inflate (fuel : nat) (out : list Z) (bs : list bool) : option (list Z * list bool) :=
  match fuel with
  | O => None
  | S fuel' =>
      '(last, bs) ← take_num 1 bs;
      '(type, bs) ← take_num 2 bs;
      '(out, bs) ← one_block type out bs;
      if last =? 1 then Some (out, bs) else inflate fuel' out bs
  end.

(** The bytes that [data] stands for. *)
Definition inflate_bytes (data : list Z) : option (list Z) :=
  fst <$> inflate (8 * length data) [] (bits_of data).
End blocks.
