(* ===== verification/HuffCode.v ===== *)
(** Canonical Huffman codes ([InflateSpec]): they fit into their lengths, no
    code is a prefix of another one. *)
From stdpp Require Import base tactics list.
From Stdlib Require Import ZArith Lia.
From S2P Require Import Prelude InflateSpec.

(** * Sums *)

Lemma sumZ_le {A} (f g : A → Z) l : (∀ x, x ∈ l → f x <= g x) → sumZ (f <$> l) <= sumZ (g <$> l).
Proof.
  induction l as [|a l IH]; intros H; cbn; [lia|].
  pose proof (H a ltac:(left)). assert (sumZ (f <$> l) <= sumZ (g <$> l)); [|unfold sumZ in *; lia].
  apply IH. intros x Hx. apply H. by right.
Qed.

Lemma sumZ_ext {A} (f g : A → Z) l : (∀ x, x ∈ l → f x = g x) → sumZ (f <$> l) = sumZ (g <$> l).
Proof. intros H. apply Z.le_antisymm; apply sumZ_le; intros x Hx; by rewrite H. Qed.

Lemma sumZ_add {A} (f g : A → Z) l : sumZ ((λ x, f x + g x) <$> l) = sumZ (f <$> l) + sumZ (g <$> l).
Proof. induction l as [|a l IH]; cbn in *; [done|]. unfold sumZ in *. lia. Qed.

Lemma sumZ_mul {A} (f : A → Z) c l : sumZ ((λ x, f x * c) <$> l) = sumZ (f <$> l) * c.
Proof. induction l as [|a l IH]; cbn in *; [done|]. unfold sumZ in *. lia. Qed.

Lemma sumZ_nonneg {A} (f : A → Z) l : (∀ x, x ∈ l → 0 <= f x) → 0 <= sumZ (f <$> l).
Proof.
  intros H. transitivity (sumZ ((λ _ : A, 0) <$> l)); [|by apply sumZ_le].
  clear. induction l; cbn in *; [done|]. unfold sumZ in *. lia.
Qed.

(** Counting as a sum. *)
Definition count (l : Z) (lens : list Z) : Z := Z.of_nat (length (filter (λ x, x = l) lens)).

Lemma sumZ_count l c lens : sumZ ((λ x, if x =? l then c else 0) <$> lens) = count l lens * c.
Proof.
  unfold count, sumZ in *. induction lens as [|x lens IH]; [done|]. rewrite fmap_cons, filter_cons. cbn [foldr].
  rewrite IH. destruct (Z.eqb_spec x l), (decide (x = l)); try done; cbn [length]; lia.
Qed.

Lemma count_app l l1 l2 : count l (l1 ++ l2) = count l l1 + count l l2.
Proof. unfold count. rewrite filter_app, length_app. lia. Qed.

Lemma count_nonneg l lens : 0 <= count l lens.
Proof. unfold count. lia. Qed.

Lemma count_take_lt l lens i j :
  lens !! i = Some l → (i < j)%nat → count l (take i lens) + 1 <= count l (take j lens).
Proof.
  intros Hi Hij. rewrite <- (take_drop (S i) (take j lens)), take_take, Nat.min_l, count_app by lia.
  rewrite (take_S_r _ _ _ Hi), count_app. pose proof (count_nonneg l (drop (S i) (take j lens))).
  assert (count l [l] = 1); [|lia]. unfold count. by rewrite filter_cons_True by done.
Qed.

Lemma count_take_all l lens i : lens !! i = Some l → count l (take i lens) + 1 <= count l lens.
Proof.
  intros Hi. pose proof (count_take_lt l lens i (length lens) Hi (lookup_lt_Some _ _ _ Hi)) as H.
  by rewrite firstn_all in H.
Qed.

(** * Code words *)

Lemma length_code_bits c l : length (code_bits c l) = Z.to_nat l.
Proof. unfold code_bits. by rewrite length_fmap, length_seqZ. Qed.

Lemma code_bits_lookup c l i :
  0 <= i < l → code_bits c l !! Z.to_nat i = Some (Z.testbit c (l - 1 - i)).
Proof.
  intros H. unfold code_bits. rewrite list_lookup_fmap, lookup_seqZ_lt by lia. cbn. do 2 f_equal. lia.
Qed.

(** A word that begins with another one has its number in front. *)
Lemma code_bits_prefix c l c' l' :
  0 <= l → 0 <= c < 2 ^ l → 0 <= c' < 2 ^ l' → 0 <= l' →
  code_bits c l `prefix_of` code_bits c' l' → l <= l' ∧ c = c' / 2 ^ (l' - l).
Proof.
  intros Hl Hc Hc' Hl' Hp. assert (l <= l') as Hle.
  { apply prefix_length in Hp. rewrite !length_code_bits in Hp. lia. }
  split; [done|]. rewrite <- Z.shiftr_div_pow2 by lia. apply Z.bits_inj'. intros j Hj.
  rewrite Z.shiftr_spec by lia. destruct (Z.lt_ge_cases j l).
  - pose proof (code_bits_lookup c l (l - 1 - j) ltac:(lia)) as E1.
    pose proof (code_bits_lookup c' l' (l - 1 - j) ltac:(lia)) as E2.
    rewrite (prefix_lookup_Some _ _ _ _ E1 Hp) in E2. injection E2 as E2.
    replace (l - 1 - (l - 1 - j)) with j in E2 by lia. rewrite E2. f_equal. lia.
  - rewrite <- (Z.mod_small c (2 ^ l)), <- (Z.mod_small c' (2 ^ l')) by lia.
    by rewrite !Z.mod_pow2_bits_high by lia.
Qed.

(** * Intervals

    A code of length [l] stands for the [2 ^ (15 - l)] strings of 15 bits that
    begin with it; in the order of length and symbol they follow each other. *)
Section canonical.
Context (lens : list Z) (Hcode : prefix_code lens).

(** The strings taken by codes shorter than [l]. *)
Definition below (l : Z) : Z := sumZ ((λ x, if (0 <? x) && (x <? l) then 2 ^ (15 - x) else 0) <$> lens).
Definition start (sym : nat) : Z := code_number lens sym * 2 ^ (15 - len_at lens sym).

Lemma len_range x : x ∈ lens → 0 <= x <= 15.
Proof. destruct Hcode as [H _]. rewrite Forall_forall in H. apply H. Qed.

Lemma len_at_range sym : 0 <= len_at lens sym <= 15.
Proof.
  unfold len_at. destruct (lens !! sym) eqn:E; cbn; [|lia]. apply len_range. by eapply list_elem_of_lookup_2.
Qed.

Lemma len_at_lookup sym : 0 < len_at lens sym → lens !! sym = Some (len_at lens sym).
Proof. unfold len_at. destruct (lens !! sym); cbn; [done|lia]. Qed.

Lemma shorter_scale l : l <= 15 →
  sumZ ((λ x, if (0 <? x) && (x <? l) then 2 ^ (l - x) else 0) <$> lens) * 2 ^ (15 - l) = below l.
Proof.
  intros Hl. unfold below. rewrite <- sumZ_mul. apply sumZ_ext. intros x Hx. pose proof (len_range x Hx).
  destruct (Z.ltb_spec 0 x), (Z.ltb_spec x l); cbn [andb]; try lia. rewrite <- Z.pow_add_r by lia. f_equal. lia.
Qed.

Lemma start_eq sym :
  start sym = below (len_at lens sym) + count (len_at lens sym) (take sym lens) * 2 ^ (15 - len_at lens sym).
Proof.
  pose proof (len_at_range sym). unfold start, code_number.
  rewrite Z.mul_add_distr_r, shorter_scale by lia. done.
Qed.

(** The codes of length [l] come after the shorter ones. *)
Lemma below_step l l' : 0 < l < l' → below l + count l lens * 2 ^ (15 - l) <= below l'.
Proof.
  intros H. unfold below. rewrite <- sumZ_count, <- sumZ_add. apply sumZ_le. intros x Hx.
  pose proof (len_range x Hx).
  destruct (Z.ltb_spec 0 x), (Z.ltb_spec x l), (Z.ltb_spec x l'), (Z.eqb_spec x l); cbn [andb]; subst; lia.
Qed.

Lemma below_all l : 0 < l → below l + count l lens * 2 ^ (15 - l) <= kraft lens.
Proof.
  intros H. unfold below, kraft. rewrite <- sumZ_count, <- sumZ_add. apply sumZ_le. intros x Hx.
  pose proof (len_range x Hx). unfold weight. assert (0 < 2 ^ (15 - x)) by (apply Z.pow_pos_nonneg; lia).
  destruct (Z.ltb_spec 0 x), (Z.ltb_spec x l), (Z.eqb_spec x l); cbn [andb]; subst; lia.
Qed.

Lemma start_end sym : 0 < len_at lens sym → start sym + 2 ^ (15 - len_at lens sym) <= 2 ^ 15.
Proof.
  intros Hl. destruct Hcode as [_ HK]. transitivity (kraft lens); [|done].
  pose proof (below_all _ Hl). rewrite start_eq.
  pose proof (count_take_all _ _ _ (len_at_lookup _ Hl)).
  assert (0 < 2 ^ (15 - len_at lens sym)) by (apply Z.pow_pos_nonneg; pose proof (len_at_range sym); lia). nia.
Qed.

(** Shorter, or as long and of a smaller symbol. *)
Definition before (a b : nat) : Prop :=
  len_at lens a < len_at lens b ∨ len_at lens a = len_at lens b ∧ (a < b)%nat.

Lemma start_before a b :
  0 < len_at lens a → 0 < len_at lens b → before a b → start a + 2 ^ (15 - len_at lens a) <= start b.
Proof.
  intros Ha Hb Hab. rewrite !start_eq.
  assert (0 < 2 ^ (15 - len_at lens a)) by (apply Z.pow_pos_nonneg; pose proof (len_at_range a); lia).
  pose proof (len_at_lookup a Ha) as Hla. destruct Hab as [Hlt|[Heq Hlt]].
  - pose proof (below_step (len_at lens a) (len_at lens b) ltac:(lia)).
    pose proof (count_take_all _ _ _ Hla).
    assert (0 <= count (len_at lens b) (take b lens) * 2 ^ (15 - len_at lens b)) by (apply Z.mul_nonneg_nonneg; [apply count_nonneg|lia]).
    nia.
  - rewrite <- Heq. pose proof (count_take_lt _ _ _ _ Hla Hlt). nia.
Qed.

Lemma code_number_nonneg sym : 0 <= code_number lens sym.
Proof.
  unfold code_number. apply Z.add_nonneg_nonneg; [|lia]. apply sumZ_nonneg. intros x _.
  destruct (_ && _); lia.
Qed.

(** A code fits into its length. *)
Lemma code_number_bound sym : 0 < len_at lens sym → code_number lens sym < 2 ^ len_at lens sym.
Proof.
  intros Hl. pose proof (start_end sym Hl) as H. unfold start in H. pose proof (len_at_range sym).
  assert (0 < 2 ^ (15 - len_at lens sym)) by (apply Z.pow_pos_nonneg; lia).
  assert (2 ^ 15 = 2 ^ len_at lens sym * 2 ^ (15 - len_at lens sym)) as E by (rewrite <- Z.pow_add_r by lia; f_equal; lia).
  rewrite E in H. nia.
Qed.

Lemma length_code_of sym : length (code_of lens sym) = Z.to_nat (len_at lens sym).
Proof. apply length_code_bits. Qed.

(** No code is a prefix of another one. *)
Lemma prefix_free a b :
  0 < len_at lens a → 0 < len_at lens b → code_of lens a `prefix_of` code_of lens b → a = b.
Proof.
  intros Ha Hb Hp. pose proof (code_number_nonneg a). pose proof (code_number_nonneg b).
  pose proof (code_number_bound a Ha). pose proof (code_number_bound b Hb).
  pose proof (len_at_range a). pose proof (len_at_range b).
  apply code_bits_prefix in Hp as [Hle Hdiv]; try lia.
  destruct (decide (before a b)) as [Hab|Hab]; [|destruct (decide (before b a)) as [Hba|Hba]; [|unfold before in *; lia]].
  - pose proof (start_before a b Ha Hb Hab) as Hs. unfold start in Hs.
    set (la := len_at lens a) in *. set (lb := len_at lens b) in *.
    assert (2 ^ (15 - la) = 2 ^ (lb - la) * 2 ^ (15 - lb)) as E by (rewrite <- Z.pow_add_r by lia; f_equal; lia).
    rewrite E in Hs. assert (0 < 2 ^ (15 - lb)) by (apply Z.pow_pos_nonneg; lia).
    assert (0 < 2 ^ (lb - la)) as Hpos by (apply Z.pow_pos_nonneg; lia).
    pose proof (Z.mod_pos_bound (code_number lens b) _ Hpos). pose proof (Z.div_mod (code_number lens b) (2 ^ (lb - la))).
    rewrite <- Hdiv in *. nia.
  - assert (len_at lens a = len_at lens b) as E by (unfold before in *; lia).
    pose proof (start_before b a Hb Ha Hba) as Hs. unfold start in Hs. rewrite E, Z.sub_diag, Z.div_1_r in *.
    rewrite <- Hdiv in Hs. lia.
Qed.
End canonical.

(** * Decoding *)

Lemma decode_symbol_spec cs k bs sym bs' :
  decode_symbol cs k bs = Some (sym, bs') →
  ∃ (i : nat) c, cs !! i = Some c ∧ sym = k + Z.of_nat i ∧ c ≠ [] ∧ c `prefix_of` bs ∧ bs' = drop (length c) bs.
Proof.
  revert k. induction cs as [|c cs IH]; intros k; cbn [decode_symbol]; [done|].
  case_bool_decide as Hc; intros E.
  - destruct Hc as [Hne Hc]. injection E as <- <-. exists 0%nat, c. split_and!; try done; [lia|].
    exists (drop (length c) bs). by rewrite <- Hc at 1; rewrite take_drop.
  - apply IH in E as (i & c' & ? & -> & ? & ? & ->). exists (S i), c'. split_and!; try done. lia.
Qed.

(** A decoded symbol of a canonical code. *)
Lemma decode_codes lens bs sym bs' :
  decode_symbol (codes lens) 0 bs = Some (sym, bs') →
  ∃ i : nat, sym = Z.of_nat i ∧ (i < length lens)%nat ∧ 0 < len_at lens i ∧
    code_of lens i `prefix_of` bs ∧ bs' = drop (Z.to_nat (len_at lens i)) bs.
Proof.
  intros (i & c & Hi & -> & Hne & Hp & ->)%decode_symbol_spec. exists i.
  unfold codes in Hi. apply list_lookup_fmap_Some in Hi as (j & -> & Hj). apply lookup_seq in Hj as [-> Hj].
  cbn [Nat.add] in *. rewrite length_code_of. split_and!; try done.
  apply Z.nle_gt. intros H. apply Hne, nil_length_inv. rewrite length_code_of. lia.
Qed.
