(* ===== verification/KgzBits.v ===== *)
(** The bit stream of the decompressor ([Kgz]) against the sequence of bits of
    its input: bit 0 of the first byte first, zeros after the end.  The arena:
    blocks are aligned, inside the arena, and follow each other. *)
From stdpp Require Import base tactics list strings.
From Stdlib Require Import ZArith Lia.
From S2P Require Import Prelude Bits Str Kgz InflateSpec.

Lemma wp_zoom {S T A} (view : S → T) (update : S → T → S) (m : M T A) s Q :
  wp m (view s) (λ a t, Q a (update s t)) → wp (zoom view update m) s Q.
Proof. unfold wp, zoom. by destruct (m (view s)) as [[a t]| |]. Qed.

(** * Numbers and their bits *)

(** The number of the [k] bits of [f] from [p] on, least significant first. *)
Fixpoint field (f : Z → bool) (p : Z) (k : nat) : Z :=
  match k with
  | O => 0
  | S k' => Z.b2z (f p) + 2 * field f (p + 1) k'
  end.

Lemma field_range f p k : 0 <= field f p k < 2 ^ Z.of_nat k.
Proof.
  revert p. induction k as [|k IH]; intros p; cbn [field]; [cbn; lia|].
  rewrite Nat2Z.inj_succ, Z.pow_succ_r by lia. specialize (IH (p + 1)). destruct (f p); cbn; lia.
Qed.

Lemma field_testbit f p k i :
  0 <= i → Z.testbit (field f p k) i = (i <? Z.of_nat k) && f (p + i).
Proof.
  revert p i. induction k as [|k IH]; intros p i Hi; cbn [field].
  - rewrite Z.bits_0. destruct (Z.ltb_spec i (Z.of_nat 0)); [lia|done].
  - destruct (decide (i = 0)) as [->|Hne].
    + rewrite Z.add_comm, Z.testbit_0_r, Z.add_0_r. by destruct (Z.ltb_spec 0 (Z.of_nat (S k))); [|lia].
    + replace i with (Z.succ (i - 1)) at 1 by lia.
      rewrite Z.add_comm, Z.testbit_succ_r, IH by lia.
      replace (p + 1 + (i - 1)) with (p + i) by lia. f_equal.
      destruct (Z.ltb_spec (i - 1) (Z.of_nat k)), (Z.ltb_spec i (Z.of_nat (S k))); try done; lia.
Qed.

Lemma field_unique f p k v :
  (∀ i, 0 <= i → Z.testbit v i = (i <? Z.of_nat k) && f (p + i)) → v = field f p k.
Proof. intros H. apply Z.bits_inj'. intros i Hi. by rewrite H, field_testbit. Qed.

Lemma testbit_mask x k i :
  0 <= k → 0 <= i → Z.testbit (Z.land x (Z.shiftl 1 k - 1)) i = (i <? k) && Z.testbit x i.
Proof.
  intros Hk Hi. rewrite Z.land_spec. replace (Z.shiftl 1 k - 1) with (Z.ones k) by (rewrite Z.ones_equiv, Z.shiftl_1_l; lia).
  rewrite Z.testbit_ones_nonneg by lia. apply andb_comm.
Qed.

(** * The invariant *)
Section stream.
Context (d : cstring) (n : Z).
Hypothesis d_bytes : ∀ i, 0 <= d i < 256.
Hypothesis n_small : 0 <= n < 2 ^ 58.

(** Bit [i] of the input. *)
Definition sbit (i : Z) : bool := (i <? 8 * n) && Z.testbit (d (i / 8)) (i mod 8).

(** [bits_in_buffer] bits from position [p] on are in the buffer, which ends at
    a byte boundary of the input; or the input is used up. *)
Definition buffered (p : Z) (s : kgz_bitstream) : Prop :=
  p + bits_in_buffer s <= 8 * n ∧ (p + bits_in_buffer s) mod 8 = 0 ∧ bits_in_buffer s <= 64 ∧
  ∀ i, 0 <= i → Z.testbit (bit_buffer s) i = (i <? bits_in_buffer s) && sbit (p + i).
Definition used_up (p : Z) (s : kgz_bitstream) : Prop := 8 * n <= p ∧ bit_buffer s = 0.

(** The stream [s] stands at bit [p]. *)
Record at_pos (p : Z) (s : kgz_bitstream) : Prop := {
  pos_data : s_data s = d;
  pos_len : data_len s = n;
  pos_pos : p = 8 * current_byte s + current_bit s;
  pos_bit : 0 <= current_bit s < 8;
  pos_byte : 0 <= current_byte s;
  pos_small : p < 2 ^ 62;
  pos_count : 0 <= bits_in_buffer s < 256;
  pos_buffer : buffered p s ∨ used_up p s
}.

(** [k] bits can be dropped: they are in the buffer, or the buffer holds all
    that is left. *)
Definition ready (p k : Z) (s : kgz_bitstream) : Prop :=
  k <= bits_in_buffer s ∨ p + bits_in_buffer s = 8 * n ∨ used_up p s.

Lemma sbit_end i : 8 * n <= i → sbit i = false.
Proof. intros H. unfold sbit. by destruct (Z.ltb_spec i (8 * n)); [lia|]. Qed.

Lemma sbit_byte q j : 0 <= q < n → 0 <= j < 8 → sbit (8 * q + j) = Z.testbit (d q) j.
Proof using Type.
  clear n_small. intros Hq Hj. unfold sbit. destruct (Z.ltb_spec (8 * q + j) (8 * n)); [|lia].
  replace ((8 * q + j) / 8) with q by (Z.div_mod_to_equations; lia).
  by replace ((8 * q + j) mod 8) with j by (Z.div_mod_to_equations; lia).
Qed.

(** One more byte at the end of the buffer. *)
Lemma fill_testbit p q buf bits i :
  0 <= q < n → 8 * q = p + bits → 0 <= bits <= 56 → 0 <= i →
  Z.testbit buf i = (i <? bits) && sbit (p + i) →
  Z.testbit (Z.lor buf (u64 (Z.shiftl (d q) bits))) i = (i <? bits + 8) && sbit (p + i).
Proof.
  intros Hq Hp Hbits Hi Hbuf. pose proof (d_bytes q) as Hd.
  assert (u64 (Z.shiftl (d q) bits) = Z.shiftl (d q) bits) as ->.
  { apply u64_id. unfold is_u64. rewrite Z.shiftl_mul_pow2 by lia.
    assert (2 ^ bits <= 2 ^ 56) by (apply Z.pow_le_mono_r; lia).
    assert (0 < 2 ^ bits) by (apply Z.pow_pos_nonneg; lia). split; [lia|]. nia. }
  rewrite Z.lor_spec, Z.shiftl_spec, Hbuf by lia.
  destruct (Z.ltb_spec i bits), (Z.ltb_spec i (bits + 8)); cbn; try lia.
  - rewrite (Z.testbit_neg_r (d q)) by lia. apply orb_false_r.
  - replace (p + i) with (8 * q + (i - bits)) by lia. by rewrite sbit_byte by lia.
  - rewrite <- (Z.mod_small (d q) (2 ^ 8)) by lia. apply Z.mod_pow2_bits_high. lia.
Qed.

Lemma fill_loop_ok p bits q buf s :
  p + bits = 8 * q → 0 <= q <= n → 0 <= bits <= 64 →
  (∀ i, 0 <= i → Z.testbit buf i = (i <? bits) && sbit (p + i)) →
  wp (while_ (fill_round d n) (bits, q, buf)) s (λ r s', s' = s ∧
    bits <= fst r <= 64 ∧ (p + fst r) mod 8 = 0 ∧ p + fst r <= 8 * n ∧ (57 <= fst r ∨ p + fst r = 8 * n) ∧
    ∀ i, 0 <= i → Z.testbit (snd r) i = (i <? fst r) && sbit (p + i)).
Proof.
  intros Hpq Hq Hbits Hbuf.
  apply (wp_while (fill_round d n) (λ m '(b, q, buf) s', s' = s ∧ m = 64 - b ∧ p + b = 8 * q ∧ 0 <= q <= n ∧
    bits <= b <= 64 ∧ ∀ i, 0 <= i → Z.testbit buf i = (i <? b) && sbit (p + i)) _) with (n := 64 - bits).
  - clear Hpq Hq Hbuf. intros m [[b q'] buf'] s' Hm (-> & -> & Hpq & Hq & Hb & Hbuf). unfold fill_round.
    destruct (Z.leb_spec b 56), (Z.ltb_spec q' n); cbn [andb].
    + apply wp_ret. exists (64 - (b + 8)). split; [lia|]. unfold u8. rewrite (Z.mod_small (b + 8)) by lia.
      rewrite u64_id by (unfold is_u64; lia). split_and!; try lia; [done|].
      intros i Hi. apply fill_testbit; try lia. by apply Hbuf.
    + apply wp_ret. cbn. split_and!; try lia; [done| |done].
      rewrite Hpq, Z.mul_comm. apply Z.mod_mul. lia.
    + apply wp_ret. cbn. split_and!; try lia; [done| |done].
      rewrite Hpq, Z.mul_comm. apply Z.mod_mul. lia.
    + apply wp_ret. cbn. split_and!; try lia; [done| |done].
      rewrite Hpq, Z.mul_comm. apply Z.mod_mul. lia.
  - lia.
  - split_and!; done || lia.
Qed.

Lemma fill_ok p s :
  at_pos p s → wp kgz_bitstream_fill s (λ _ s', at_pos p s' ∧ (57 <= bits_in_buffer s' ∨ p + bits_in_buffer s' = 8 * n ∨ used_up p s')).
Proof.
  intros [Hd Hn Hp Hbit Hbyte Hsmall Hcount Hbuf]. unfold kgz_bitstream_fill. wp_step. rewrite Hd, Hn.
  rewrite (Z.shiftr_div_pow2 _ 3) by lia. change (2 ^ 3) with 8.
  assert (0 <= (current_bit s + bits_in_buffer s) / 8 <= 40) by (Z.div_mod_to_equations; lia).
  rewrite u64_id by (unfold is_u64; lia).
  destruct Hbuf as [(Hle & Hmod & H64 & Hbits)|[Hend H0]].
  - eapply wp_bind, wp_mono; [apply (fill_loop_ok p); try done; try lia; Z.div_mod_to_equations; lia|].
    intros [b buf] s' (-> & Hb & Hm & Hend & Hfull & Hbits'). cbn [fst snd] in *. wp_step. cbn. split; [|lia].
    split; cbn; try done; try lia. left. unfold buffered. cbn. split_and!; done || lia.
  - apply wp_bind. eapply wp_ok; [apply while_once with (b := (bits_in_buffer s, bit_buffer s))|].
    + unfold fill_round. destruct (Z.ltb_spec (current_byte s + (current_bit s + bits_in_buffer s) / 8) n); [lia|].
      by rewrite andb_false_r.
    + wp_step. cbn. split; [split; cbn; try done; try lia; by right|]. right. right. by split.
Qed.

(** * The operations *)

(** The buffer shows the next bits, as far as it reaches. *)
Lemma buffer_bits p k s i :
  at_pos p s → ready p k s → 0 <= i < k → Z.testbit (bit_buffer s) i = sbit (p + i).
Proof.
  intros Hs Hr Hi. destruct (pos_buffer _ _ Hs) as [(Hle & Hmod & H64 & Hbits)|[Hend H0]].
  - rewrite Hbits by lia. destruct (Z.ltb_spec i (bits_in_buffer s)); [done|]. cbn.
    rewrite sbit_end; [done|]. destruct Hr as [?|[?|[? _]]]; lia.
  - by rewrite H0, Z.bits_0, sbit_end by lia.
Qed.

Lemma masked_bits_ok p k s :
  at_pos p s → 0 < k <= 32 →
  wp (masked_bits k) s (λ r s', r = field sbit p (Z.to_nat k) ∧ at_pos p s' ∧ ready p k s').
Proof.
  intros Hs Hk. unfold masked_bits. wp_step.
  eapply wp_bind, wp_mono with (P := λ _ s', at_pos p s' ∧ ready p k s').
  - destruct (Z.ltb_spec (bits_in_buffer s) k).
    + eapply wp_mono; [by apply fill_ok|]. intros _ s' [? Hr]. split; [done|]. unfold ready. intuition lia.
    + apply wp_ret. split; [done|]. by left.
  - intros _ s' [Hs' Hr]. unfold bit_mask. destruct (Z.eqb_spec k 64); [lia|].
    unfold shift_ok. destruct (Z.leb_spec 0 k), (Z.ltb_spec k 64); try lia. cbn [andb]. wp_step.
    split_and!; [|done..].
    assert (2 ^ k <= 2 ^ 32) by (apply Z.pow_le_mono_r; lia).
    assert (0 < 2 ^ k) by (apply Z.pow_pos_nonneg; lia).
    rewrite u64_id by (unfold is_u64; rewrite Z.shiftl_1_l; lia).
    apply field_unique. intros i Hi. rewrite Z2Nat.id by lia. unfold u32.
    destruct (Z.ltb_spec i 32).
    + rewrite Z.mod_pow2_bits_low, testbit_mask by lia. destruct (Z.ltb_spec i k); cbn; [|done].
      by apply (buffer_bits p k).
    + rewrite Z.mod_pow2_bits_high by lia. by destruct (Z.ltb_spec i k); [lia|].
Qed.

Lemma land7 x : Z.land x 7 = x mod 8.
Proof. change 8 with (2 ^ 3). by rewrite <- Z.land_ones by lia. Qed.

Lemma drop_bits_ok p k s :
  at_pos p s → ready p k s → 0 <= k <= 32 → p + k < 2 ^ 62 →
  wp (drop_bits k) s (λ _ s', at_pos (p + k) s').
Proof.
  intros [Hd Hn Hp Hbit Hbyte Hsm Hcount Hbuf] Hr Hk Hsmall.
  unfold drop_bits, shift_ok. destruct (Z.leb_spec 0 k), (Z.ltb_spec k 64); try lia. cbn [andb]. wp_step.
  wp_step. cbv beta zeta. unfold u8. rewrite (Z.mod_small (current_bit s + k)), land7 by lia.
  assert (0 <= (current_bit s + k) / 8 <= 40) by (Z.div_mod_to_equations; lia).
  rewrite u64_id by (unfold is_u64; lia).
  pose proof (Z.mod_pos_bound (current_bit s + k) 8). pose proof (Z.div_mod (current_bit s + k) 8).
  split; cbn; try done; try lia.
  { apply Z.mod_pos_bound. lia. }
  destruct Hbuf as [(Hle & Hmod & H64 & Hbits)|[Hend Hz]].
  - destruct (Z.le_gt_cases k (bits_in_buffer s)).
    + left. unfold buffered. cbn. rewrite Z.mod_small by lia. split_and!; try lia.
      * by replace (p + k + (bits_in_buffer s - k)) with (p + bits_in_buffer s) by lia.
      * intros i Hi. rewrite Z.shiftr_spec, Hbits by lia. rewrite <- Z.add_assoc, (Z.add_comm k i). f_equal.
        destruct (Z.ltb_spec (i + k) (bits_in_buffer s)), (Z.ltb_spec i (bits_in_buffer s - k)); done || lia.
    + right. unfold used_up. cbn. split; [destruct Hr as [?|[?|[? _]]]; lia|].
      apply Z.bits_inj'. intros i Hi. rewrite Z.shiftr_spec, Hbits, Z.bits_0 by lia.
      by destruct (Z.ltb_spec (i + k) (bits_in_buffer s)); [lia|].
  - right. unfold used_up. cbn. rewrite Hz, Z.shiftr_0_l. split; [lia|done].
Qed.

(** Reading [k] bits gives their number and moves on by [k], beyond the end of
    the input too. *)
Lemma getbits_ok p k s :
  at_pos p s → 0 <= k <= 32 → p + k < 2 ^ 62 →
  wp (kgz_bitstream_getbits k) s (λ r s', r = field sbit p (Z.to_nat k) ∧ at_pos (p + k) s').
Proof.
  intros Hs Hk Hsmall. unfold kgz_bitstream_getbits. destruct (Z.eqb_spec k 0) as [->|].
  - apply wp_ret. by rewrite Z.add_0_r.
  - eapply wp_bind, wp_mono; [by apply masked_bits_ok; [|lia]|]. intros r s' (-> & Hs' & Hr).
    eapply wp_bind, wp_mono; [by apply drop_bits_ok|]. intros [] s2 Hs2. by wp_step.
Qed.

Lemma peek_ok p k s :
  at_pos p s → 0 < k <= 32 →
  wp (kgz_bitstream_peek k) s (λ r s', r = field sbit p (Z.to_nat k) ∧ at_pos p s' ∧ ready p k s').
Proof.
  intros Hs Hk. unfold kgz_bitstream_peek. destruct (Z.eqb_spec k 0); [lia|]. by apply masked_bits_ok.
Qed.

Lemma consume_ok p j k s :
  at_pos p s → ready p k s → 0 <= j <= k → k <= 32 → p + j < 2 ^ 62 →
  wp (kgz_bitstream_consume j) s (λ _ s', at_pos (p + j) s').
Proof.
  intros Hs Hr Hj Hk Hsmall. unfold kgz_bitstream_consume. destruct (Z.eqb_spec j 0) as [->|].
  - apply wp_ret. by rewrite Z.add_0_r.
  - apply drop_bits_ok; try done; [|lia]. unfold ready in *. intuition lia.
Qed.

(** Nothing is buffered, at a byte boundary. *)
Definition empty_at (q : Z) (s : kgz_bitstream) : Prop := s = mk_stream d n q 0 0 0 ∧ 0 <= q ∧ 8 * q < 2 ^ 62.

Lemma empty_at_pos q s : empty_at q s → at_pos (8 * q) s.
Proof.
  intros (-> & Hq & Hs). split; cbn; try done; try lia. unfold buffered, used_up. cbn.
  destruct (Z.le_gt_cases (8 * q) (8 * n)).
  - left. rewrite Z.add_0_r. split_and!; [done|rewrite Z.mul_comm; apply Z.mod_mul; lia|lia|].
    intros i Hi. rewrite Z.bits_0. by destruct (Z.ltb_spec i 0); [lia|].
  - right. split; [lia|done].
Qed.

(** To the next byte boundary. *)
Lemma align_ok p s :
  at_pos p s → p + 8 < 2 ^ 62 → wp kgz_bitstream_align s (λ _ s', empty_at ((p + 7) / 8) s').
Proof.
  intros [Hd Hn Hp Hbit Hbyte Hsm Hcount Hbuf] Hsmall. unfold kgz_bitstream_align. wp_step.
  destruct (Z.eqb_spec (current_bit s) 0) as [E|E]; cbn [negb].
  - rewrite E, Hd, Hn. replace ((p + 7) / 8) with (current_byte s) by (Z.div_mod_to_equations; lia).
    unfold empty_at. split_and!; done || lia.
  - rewrite u64_id by (unfold is_u64; lia). rewrite Hd, Hn.
    replace ((p + 7) / 8) with (current_byte s + 1) by (Z.div_mod_to_equations; lia).
    unfold empty_at. split_and!; done || lia.
Qed.

Lemma byte_testbit q i : 8 <= i → Z.testbit (d q) i = false.
Proof. intros Hi. pose proof (d_bytes q). rewrite <- (Z.mod_small (d q) (2 ^ 8)) by lia. apply Z.mod_pow2_bits_high. lia. Qed.

(** A byte of the input is a field of the stream. *)
Lemma byte_field q : 0 <= q < n → d q = field sbit (8 * q) 8.
Proof.
  intros Hq. apply field_unique. intros i Hi. destruct (Z.ltb_spec i (Z.of_nat 8)); cbn [andb].
  - by rewrite sbit_byte by lia.
  - apply byte_testbit. lia.
Qed.

(** Two bytes at once, least significant first. *)
Lemma read_u16_ok q s :
  empty_at q s → q + 2 <= n →
  wp kgz_bitstream_read_u16 s (λ r s', r = field sbit (8 * q) 16 ∧ empty_at (q + 2) s').
Proof.
  intros (-> & Hq & Hsm) Hn. unfold kgz_bitstream_read_u16. wp_step. cbn [current_bit current_byte data_len s_data].
  rewrite !(u64_id (q + 1)) by (unfold is_u64; lia). destruct (Z.ltb_spec (q + 1) n); [|lia]. cbn [Z.eqb andb]. wp_step. wp_step. cbn [current_bit current_byte data_len s_data bit_buffer bits_in_buffer].
  rewrite (u64_id (q + 2)) by (unfold is_u64; lia). split; [|unfold empty_at; split_and!; done || lia].
  apply field_unique. intros i Hi. unfold u16. destruct (Z.ltb_spec i (Z.of_nat 16)); cbn [andb].
  - rewrite Z.mod_pow2_bits_low, !Z.lor_spec, Z.bits_0, Z.shiftl_spec by lia. cbn [orb]. destruct (Z.lt_ge_cases i 8).
    + rewrite (Z.testbit_neg_r (d (q + 1))), orb_false_r by lia. by rewrite sbit_byte by lia.
    + rewrite byte_testbit by lia. cbn [orb]. replace (8 * q + i) with (8 * (q + 1) + (i - 8)) by lia. by rewrite sbit_byte by lia.
  - by rewrite Z.mod_pow2_bits_high by lia.
Qed.

(** * The bits that are left *)
Definition rest (p : Z) : list bool := sbit <$> seqZ p (8 * n - p).

Lemma length_rest p : length (rest p) = Z.to_nat (8 * n - p).
Proof. unfold rest. by rewrite length_fmap, length_seqZ. Qed.

Lemma rest_lookup p (k : nat) : p + Z.of_nat k < 8 * n → rest p !! k = Some (sbit (p + Z.of_nat k)).
Proof. intros H. unfold rest. rewrite list_lookup_fmap. by rewrite (proj2 (lookup_seqZ _ _ _ _)) by (split; [done|lia]). Qed.

Lemma rest_cons p : p < 8 * n → rest p = sbit p :: rest (p + 1).
Proof. intros H. unfold rest. rewrite seqZ_cons by lia. cbn. do 2 f_equal. f_equal; lia. Qed.

Lemma drop_rest p k : 0 <= k → p + k <= 8 * n → drop (Z.to_nat k) (rest p) = rest (p + k).
Proof.
  intros Hk H. apply list_eq. intros i. rewrite lookup_drop.
  destruct (Z.lt_ge_cases (p + k + Z.of_nat i) (8 * n)).
  - rewrite !rest_lookup by lia. do 2 f_equal. lia.
  - rewrite !lookup_ge_None_2; [done|rewrite length_rest; lia..].
Qed.

Lemma number_take_rest p (k : nat) : p + Z.of_nat k <= 8 * n → number (take k (rest p)) = field sbit p k.
Proof.
  revert p. induction k as [|k IH]; intros p H; [done|]. rewrite rest_cons by lia. cbn [take number field].
  rewrite IH by lia. done.
Qed.

(** Taking a number off the list is reading a field of the stream. *)
Lemma take_num_rest p k v bs : 0 <= k → p <= 8 * n →
  take_num k (rest p) = Some (v, bs) → v = field sbit p (Z.to_nat k) ∧ bs = rest (p + k) ∧ p + k <= 8 * n.
Proof.
  intros Hk Hp. unfold take_num. case_decide as Hd; [|done]. intros [= <- <-]. rewrite length_rest in Hd.
  rewrite number_take_rest, drop_rest by lia. split_and!; done || lia.
Qed.
End stream.

(** A block of memory that does not wrap around the address space. *)
Record arena_ok (a : kgz_arena) : Prop := {
  ar_buffer : 0 < a_buffer a;
  ar_offset : 0 <= a_offset a <= a_capacity a;
  ar_end : a_buffer a + a_capacity a < 2 ^ 63
}.

(** Where the next block with alignment [2 ^ n] begins. *)
Definition next_block (a : kgz_arena) (n : Z) : Z := (a_buffer a + a_offset a + (2 ^ n - 1)) / 2 ^ n * 2 ^ n.

Lemma next_block_bounds a n : 0 <= n →
  a_buffer a + a_offset a <= next_block a n < a_buffer a + a_offset a + 2 ^ n.
Proof.
  intros Hn. unfold next_block. assert (0 < 2 ^ n) by (apply Z.pow_pos_nonneg; lia).
  pose proof (Z.div_mod (a_buffer a + a_offset a + (2 ^ n - 1)) (2 ^ n)).
  pose proof (Z.mod_pos_bound (a_buffer a + a_offset a + (2 ^ n - 1)) (2 ^ n)). lia.
Qed.

Lemma power_of_two n : 0 <= n → (2 ^ n =? 0) || negb (Z.land (2 ^ n) (2 ^ n - 1) =? 0) = false.
Proof.
  intros Hn. assert (0 < 2 ^ n) by (apply Z.pow_pos_nonneg; lia). destruct (Z.eqb_spec (2 ^ n) 0); [lia|]. cbn [orb].
  replace (2 ^ n - 1) with (Z.ones n) by (rewrite Z.ones_equiv; lia).
  by rewrite Z.land_ones, Z.mod_same by lia.
Qed.

Lemma align_up x n : 0 <= n <= 62 → 0 <= x < 2 ^ 63 →
  Z.land (u64 (x + 2 ^ n - 1)) (u64 (Z.lnot (2 ^ n - 1))) = (x + (2 ^ n - 1)) / 2 ^ n * 2 ^ n.
Proof.
  intros Hn Hx. assert (0 < 2 ^ n) by (apply Z.pow_pos_nonneg; lia).
  assert (2 ^ n <= 2 ^ 62) by (apply Z.pow_le_mono_r; lia).
  rewrite u64_id by (unfold is_u64; lia).
  assert (u64 (Z.lnot (2 ^ n - 1)) = align_mask (2 ^ n)) as ->.
  { unfold u64, Z.lnot, align_mask. rewrite <- (Z.mod_add _ 1) by lia. rewrite Z.mod_small by lia. lia. }
  rewrite land_align_mask by (try lia; unfold is_u64; lia).
  replace (x + 2 ^ n - 1) with (x + (2 ^ n - 1)) by lia.
  pose proof (Z.div_mod (x + (2 ^ n - 1)) (2 ^ n)). lia.
Qed.

(** A request that fits gets the next aligned block and moves the offset to its
    end; any other gets NULL and changes nothing. *)
Lemma arena_allocate_eq a size n :
  arena_ok a → 0 <= size < 2 ^ 62 → 0 <= n <= 61 →
  kgz_arena_allocate size (2 ^ n) a =
    if a_buffer a + a_capacity a <? next_block a n + size then Ok (0, a)
    else Ok (next_block a n, mk_arena (a_buffer a) (a_capacity a) (next_block a n - a_buffer a + size)).
Proof.
  intros [Hb Ho He] Hs Hn. pose proof (next_block_bounds a n ltac:(lia)) as Hnb.
  assert (2 ^ n <= 2 ^ 61) by (apply Z.pow_le_mono_r; lia).
  unfold kgz_arena_allocate. erewrite bind_ok; [|reflexivity].
  destruct (Z.eqb_spec (a_buffer a) 0); [lia|]. rewrite power_of_two by lia.
  rewrite (u64_id (a_buffer a + a_offset a)) by (unfold is_u64; lia). rewrite align_up by lia. fold (next_block a n).
  rewrite (u64_id (next_block a n - a_buffer a)) by (unfold is_u64; lia).
  rewrite (u64_id (next_block a n - a_buffer a + size)) by (unfold is_u64; lia).
  destruct (Z.ltb_spec (a_capacity a) (next_block a n - a_buffer a + size)),
    (Z.ltb_spec (a_buffer a + a_capacity a) (next_block a n + size)); done || lia.
Qed.

(** What the trees need: room for the block and its padding. *)
Lemma arena_allocate_ok a size :
  arena_ok a → 0 <= size < 2 ^ 62 → a_offset a + 7 + size <= a_capacity a →
  ∃ p off, kgz_arena_allocate size 8 a = Ok (p, mk_arena (a_buffer a) (a_capacity a) off) ∧ p ≠ 0 ∧
    a_offset a <= off <= a_offset a + 7 + size.
Proof.
  intros Ha Hs Hroom. pose proof (next_block_bounds a 3 ltac:(lia)) as Hnb. change (2 ^ 3) with 8 in Hnb.
  pose proof (ar_buffer a Ha). pose proof (ar_offset a Ha). change 8 with (2 ^ 3). rewrite arena_allocate_eq by (done || lia).
  destruct (Z.ltb_spec (a_buffer a + a_capacity a) (next_block a 3 + size)); [lia|].
  eexists _, _. split; [done|]. lia.
Qed.

(** Allocation from the arena is exact: a block is
    aligned, lies inside the arena behind all earlier blocks, and the arena goes
    on behind it, so that no two blocks overlap; a request that does not fit
    returns NULL and leaves the arena as it was. *)
Theorem arena_allocate_correct a size n :
  arena_ok a → 0 <= size < 2 ^ 62 → 0 <= n <= 61 →
  ∃ p a', kgz_arena_allocate size (2 ^ n) a = Ok (p, a') ∧ arena_ok a' ∧
    (p = 0 ∧ a' = a ∧ a_buffer a + a_capacity a < next_block a n + size ∨
     p ≠ 0 ∧ p mod 2 ^ n = 0 ∧ a_buffer a + a_offset a <= p ∧ p + size = a_buffer a' + a_offset a' ∧
     p + size <= a_buffer a + a_capacity a ∧ a_buffer a' = a_buffer a ∧ a_capacity a' = a_capacity a).
Proof.
  intros Ha Hs Hn. rewrite arena_allocate_eq by done.
  pose proof (next_block_bounds a n ltac:(lia)). destruct Ha as [Hb Ho He].
  destruct (Z.ltb_spec (a_buffer a + a_capacity a) (next_block a n + size)).
  - exists 0, a. split_and!; [done..|left; split_and!; done || lia].
  - eexists _, _. split; [done|]. split; [split; cbn; lia|]. right. cbn.
    split_and!; try done; try lia. unfold next_block. apply Z.mod_mul. apply Z.pow_nonzero; lia.
Qed.

Lemma arena_allocate_correct_witness :
  ∃ p a', kgz_arena_allocate 100 (2 ^ 3) (mk_arena 4099 45056 5) = Ok (p, a') ∧ p = 4104.
Proof.
  destruct (arena_allocate_correct (mk_arena 4099 45056 5) 100 3) as (p & a' & E & _ & _); [split; cbn; lia|lia|lia|].
  exists p, a'. split; [exact E|]. vm_compute in E. congruence.
Defined.
