(* ===== verification/KgzTree.v ===== *)
(** The array of nodes of a Huffman tree ([Kgz]) against the set of paths it
    stands for: inserting codes and walking down. *)
From stdpp Require Import base tactics list strings.
From Stdlib Require Import ZArith Lia.
From S2P Require Import Prelude Str Kgz InflateSpec HuffCode KgzBits.

(** * What the nodes represent

    Node [i] is at the path [ps !! i], from the root; the nodes at the paths
    with a symbol in [asg] are leaves, the others lead to the nodes one step
    further. *)
Definition child_is (ps : list (list bool)) (q : list bool) (j : Z) : Prop :=
  j = -1 ∧ q ∉ ps ∨ 0 <= j ∧ ps !! Z.to_nat j = Some q.

Definition node_ok (ps : list (list bool)) (asg : list bool → option Z) (q : list bool) (nd : huffman_node) : Prop :=
  match asg q with
  | Some s => n_type nd = HUFFMAN_NODE_TYPE_SYMBOL ∧ node_symbol nd = s
  | None => n_type nd = HUFFMAN_NODE_TYPE_INTERNAL ∧ ∀ b : bool, child_is ps (q ++ [b]) (child (Z.b2z b) nd)
  end.

Record tree_repr (ps : list (list bool)) (asg : list bool → option Z) (ns : list huffman_node) : Prop := {
  tr_len : length ns = length ps;
  tr_root : ps !! 0%nat = Some [];
  tr_nodup : NoDup ps;
  tr_closed : ∀ q b, q ++ [b] ∈ ps → q ∈ ps;
  tr_node : ∀ i q nd, ps !! i = Some q → ns !! i = Some nd → node_ok ps asg q nd
}.

Lemma tr_lookup ps asg ns i q :
  tree_repr ps asg ns → ps !! i = Some q → ∃ nd, ns !! i = Some nd ∧ node_ok ps asg q nd.
Proof.
  intros Hr Hi. destruct (lookup_lt_is_Some_2 ns i) as [nd Hnd].
  - rewrite (tr_len _ _ _ Hr). by eapply lookup_lt_Some.
  - exists nd. split; [done|]. by eapply tr_node.
Qed.

Lemma tr_prefix ps asg ns q q' : tree_repr ps asg ns → q `prefix_of` q' → q' ∈ ps → q ∈ ps.
Proof.
  intros Hr [k ->]. revert q. induction k as [|b k IH]; intros q H; [by rewrite app_nil_r in H|].
  eapply tr_closed; [done|]. apply (IH (q ++ [b])). by rewrite <- app_assoc.
Qed.

Lemma get_node_ok t ps asg i q :
  tree_repr ps asg (nodes t) → ps !! i = Some q →
  ∃ nd, get_node t (Z.of_nat i) = Some nd ∧ nodes t !! i = Some nd ∧ node_ok ps asg q nd.
Proof.
  intros Hr Hi. destruct (tr_lookup _ _ _ _ _ Hr Hi) as (nd & Hnd & Hok). exists nd. split; [|done].
  apply lookup_lt_Some in Hnd as Hlt. unfold get_node, nodes_count.
  destruct (Z.ltb_spec (Z.of_nat i) 0), (Z.leb_spec (Z.of_nat (length (nodes t))) (Z.of_nat i)); try lia.
  cbn. by rewrite Nat2Z.id.
Qed.

(** * The updates *)

Lemma child_set_child b b' j nd :
  child (Z.b2z b') (set_child (Z.b2z b) j nd) = if bool_decide (b = b') then j else child (Z.b2z b') nd.
Proof. by destruct b, b'. Qed.

Lemma set_child_type b j nd : n_type (set_child b j nd) = n_type nd.
Proof. unfold set_child. by destruct (b =? 0). Qed.

Lemma node_symbol_set nd s : 0 <= s < 2 ^ 16 → node_symbol (set_symbol nd s) = s.
Proof.
  intros Hs. unfold node_symbol, set_symbol. cbn [zero_index].
  set (x := Z.lor _ s). assert (u16 (i32 x) = u16 x) as ->.
  { unfold u16, i32, signed. change (2 ^ (32 - 1)) with (2 ^ 15 * 2 ^ 16).
    rewrite Zminus_mod, Z.mod_mul, Z.sub_0_r, Z.mod_mod by done.
    rewrite Z.mod_mod_divide by (exists (2 ^ 16); done).
    by rewrite Z.mod_add by done. }
  unfold u16. apply Z.bits_inj'. intros i Hi. destruct (Z.lt_ge_cases i 16).
  - rewrite Z.mod_pow2_bits_low by lia. unfold x. rewrite Z.lor_spec, Z.land_spec.
    replace (Z.testbit 0xffff0000 i) with false.
    + by rewrite andb_false_r.
    + change 0xffff0000 with (Z.shiftl 0xffff 16). by rewrite Z.shiftl_spec_low by lia.
  - rewrite Z.mod_pow2_bits_high by lia. rewrite <- (Z.mod_small s (2 ^ 16)) by lia. by rewrite Z.mod_pow2_bits_high by lia.
Qed.

(** A new node below the one at [q]. *)
Lemma repr_add_child ps asg ns i q b nd :
  tree_repr ps asg ns → ps !! i = Some q → ns !! i = Some nd → asg q = None → asg (q ++ [b]) = None →
  q ++ [b] ∉ ps →
  tree_repr (ps ++ [q ++ [b]]) asg
    (<[i := set_child (Z.b2z b) (Z.of_nat (length ps)) nd]> (ns ++ [mk_node HUFFMAN_NODE_TYPE_INTERNAL (-1) (-1)])).
Proof.
  intros Hr Hi Hnd Hq Hqb Hnew. pose proof (tr_len _ _ _ Hr) as Hlen.
  apply lookup_lt_Some in Hi as Hlt.
  assert (∀ q' j, q' ≠ q ++ [b] → child_is ps q' j → child_is (ps ++ [q ++ [b]]) q' j) as Hkeep.
  { intros q' j Hne [[-> Hn]|[Hj Hl]]; [left|right].
    - split; [done|]. rewrite elem_of_app, list_elem_of_singleton. tauto.
    - split; [done|]. by apply lookup_app_l_Some. }
  split.
  - rewrite length_insert, !length_app. cbn. lia.
  - apply lookup_app_l_Some, (tr_root _ _ _ Hr).
  - apply NoDup_app. split_and!; [apply (tr_nodup _ _ _ Hr)| |apply NoDup_singleton].
    intros x Hx ->%list_elem_of_singleton. done.
  - intros q' b'. rewrite !elem_of_app, !list_elem_of_singleton. intros [H|[-> ->]%app_inj_tail].
    + left. by eapply tr_closed.
    + left. by eapply list_elem_of_lookup_2.
  - intros j q' nd' Hj Hj'. destruct (decide (j = i)) as [->|Hne].
    + rewrite lookup_app_l in Hj by done. replace q' with q in * by congruence.
      rewrite list_lookup_insert_eq in Hj' by (rewrite length_app; lia). injection Hj' as <-.
      destruct (tr_lookup _ _ _ _ _ Hr Hi) as (nd2 & E2 & Hok). replace nd2 with nd in * by congruence.
      unfold node_ok in *. rewrite Hq in *. destruct Hok as [Hty Hch]. rewrite set_child_type. split; [done|].
      intros b'. rewrite child_set_child. case_bool_decide as Eb.
      * subst b'. right. split; [lia|]. rewrite Nat2Z.id. by apply list_lookup_middle.
      * apply Hkeep; [|done]. intros [_ E]%app_inj_tail. congruence.
    + rewrite list_lookup_insert_ne in Hj' by done. apply lookup_app_Some in Hj as [Hj|[Hge Hj]].
      * rewrite lookup_app_l in Hj' by (rewrite Hlen; by eapply lookup_lt_Some).
        pose proof (tr_node _ _ _ Hr _ _ _ Hj Hj') as Hok. unfold node_ok in *. destruct (asg q'); [done|].
        destruct Hok as [Hty Hch]. split; [done|]. intros b'. apply Hkeep; [|done].
        intros [-> _]%app_inj_tail. apply Hne. by eapply NoDup_lookup; [apply (tr_nodup _ _ _ Hr)|..].
      * apply list_lookup_singleton_Some in Hj as [Hj0 <-].
        rewrite lookup_app_r in Hj' by lia. replace (j - length ns)%nat with 0%nat in Hj' by lia. injection Hj' as <-.
        unfold node_ok. rewrite Hqb. split; [done|]. intros b'. left. split; [by destruct b'|].
        rewrite elem_of_app, list_elem_of_singleton. intros [H|H].
        -- apply Hnew. by eapply tr_closed.
        -- apply (f_equal length) in H. rewrite !length_app in H. cbn in H. lia.
Qed.

(** The node at [q] becomes the leaf of symbol [s]. *)
Lemma repr_set_symbol ps asg ns i q s nd :
  tree_repr ps asg ns → ps !! i = Some q → ns !! i = Some nd → 0 <= s < 2 ^ 16 →
  tree_repr ps (λ q', if decide (q' = q) then Some s else asg q') (<[i := set_symbol nd s]> ns).
Proof.
  intros Hr Hi Hnd Hs. split; try apply Hr.
  - rewrite length_insert. apply (tr_len _ _ _ Hr).
  - intros j q' nd' Hj Hj'. destruct (decide (j = i)) as [->|Hne].
    + replace q' with q in * by congruence. rewrite list_lookup_insert_eq in Hj' by (by eapply lookup_lt_Some).
      injection Hj' as <-. unfold node_ok. rewrite decide_True by done. split; [done|]. by apply node_symbol_set.
    + rewrite list_lookup_insert_ne in Hj' by done. unfold node_ok. rewrite decide_False; [by eapply tr_node|].
      intros ->. apply Hne. by eapply NoDup_lookup; [apply (tr_nodup _ _ _ Hr)|..].
Qed.

(** * Building *)

Lemma bit_of code i : 0 <= i → Z.land (Z.shiftr code i) 1 = Z.b2z (Z.testbit code i).
Proof.
  intros Hi. change 1 with (Z.ones 1). rewrite Z.land_ones by lia. rewrite Z.shiftr_div_pow2 by lia.
  change (2 ^ 1) with 2. by rewrite <- Z.testbit_spec'.
Qed.

Lemma code_bits_S c n : code_bits c (Z.of_nat (S n)) = Z.testbit c (Z.of_nat n) :: code_bits c (Z.of_nat n).
Proof.
  unfold code_bits. rewrite Nat2Z.inj_succ, seqZ_cons by lia. cbn [fmap list_fmap]. f_equal; [f_equal; lia|].
  rewrite Z.pred_succ. change (Z.succ 0) with (1 + 0). rewrite <- (fmap_add_seqZ 1 0), <- list_fmap_compose.
  apply list_fmap_ext. intros k x _. cbn. f_equal. lia.
Qed.

Lemma alloc_new_node_ok t a :
  nodes_count t < nodes_capacity t →
  alloc_new_node (t, a) =
    Ok (nodes_count t, (set_nodes t (nodes t ++ [mk_node HUFFMAN_NODE_TYPE_INTERNAL (-1) (-1)]), a)).
Proof.
  intros H. unfold alloc_new_node, grow_nodes, bind, gets. cbn [fst].
  destruct (Z.leb_spec (nodes_capacity t) (nodes_count t)); [lia|]. done.
Qed.

Lemma load_node_ok t a i nd : get_node t i = Some nd → load_node i (t, a) = Ok (nd, (t, a)).
Proof. intros H. unfold load_node, bind, gets. cbn [fst]. by rewrite H. Qed.

Lemma store_node_ok t a i nd f :
  get_node t i = Some nd →
  store_node i f (t, a) = Ok (tt, (set_nodes t (<[Z.to_nat i := f nd]> (nodes t)), a)).
Proof. intros H. unfold store_node. erewrite bind_ok; [|by apply load_node_ok]. done. Qed.

Section insert.
(** The paths that may be built, and room for all of them. *)
Context (asg : list bool → option Z) (U : list (list bool)).

Lemma insert_path_ok n code i q ps t a :
  tree_repr ps asg (nodes t) → ps !! i = Some q →
  (∀ q', q' `prefix_of` q ++ code_bits code (Z.of_nat n) → asg q' = None ∧ q' ∈ U) →
  ps ⊆ U → Z.of_nat (length U) <= nodes_capacity t →
  ∃ ps' ns' j, insert_path n code (Z.of_nat i) (t, a) = Ok (Some (Z.of_nat j), (set_nodes t ns', a)) ∧
    tree_repr ps' asg ns' ∧ ps ⊆ ps' ∧ ps' ⊆ U ∧ ps' !! j = Some (q ++ code_bits code (Z.of_nat n)).
Proof.
  revert i q ps t. induction n as [|n IH]; intros i q ps t Hr Hi Hpre HU Hcap; cbn [insert_path].
  { exists ps, (nodes t), i. rewrite app_nil_r. split_and!; try done. by destruct t. }
  rewrite bit_of by lia. set (b := Z.testbit code (Z.of_nat n)).
  rewrite code_bits_S in *. fold b in Hpre |- *.
  replace (q ++ b :: code_bits code (Z.of_nat n)) with ((q ++ [b]) ++ code_bits code (Z.of_nat n)) in * by (by rewrite <- app_assoc).
  destruct (Hpre q) as [Hq _]; [rewrite <- app_assoc; by apply prefix_app_r|].
  destruct (Hpre (q ++ [b])) as [Hqb HqbU]; [by apply prefix_app_r|].
  destruct (get_node_ok _ _ _ _ _ Hr Hi) as (nd & Hget & Hnd & Hok). unfold node_ok in Hok. rewrite Hq in Hok.
  destruct Hok as [_ Hch]. erewrite bind_ok; [|by apply load_node_ok].
  destruct (Hch b) as [[Ec Hnew]|[Hge Hj]].
  - rewrite Ec, Z.eqb_refl.
    assert (nodes_count t < nodes_capacity t) as Hroom.
    { unfold nodes_count. rewrite (tr_len _ _ _ Hr).
      assert ((q ++ [b]) :: ps ⊆+ U) as Hsub%submseteq_length; [|cbn in Hsub; lia].
      apply NoDup_submseteq; [constructor; [done|apply (tr_nodup _ _ _ Hr)]|]. intros x [->|Hx]%elem_of_cons; [done|by apply HU]. }
    set (ns2 := <[i := set_child (Z.b2z b) (nodes_count t) nd]> (nodes t ++ [mk_node HUFFMAN_NODE_TYPE_INTERNAL (-1) (-1)])).
    assert (tree_repr (ps ++ [q ++ [b]]) asg ns2) as Hr2.
    { unfold ns2, nodes_count. rewrite (tr_len _ _ _ Hr). by eapply repr_add_child. }
    erewrite bind_ok.
    2: { erewrite bind_ok; [|by apply alloc_new_node_ok]. destruct (Z.eqb_spec (nodes_count t) (-1)); [unfold nodes_count in *; lia|].
         erewrite bind_ok; [reflexivity|]. apply store_node_ok with (nd := nd). unfold get_node, nodes_count in *. cbn [nodes set_nodes].
         rewrite length_app. apply lookup_lt_Some in Hnd as ?.
         destruct (Z.ltb_spec (Z.of_nat i) 0), (Z.leb_spec (Z.of_nat (length (nodes t) + length [mk_node HUFFMAN_NODE_TYPE_INTERNAL (-1) (-1)])) (Z.of_nat i)); cbn in *; try lia.
         rewrite Nat2Z.id. by apply lookup_app_l_Some. }
    cbn [negb set_nodes nodes table root_index nodes_ptr nodes_capacity]. rewrite Nat2Z.id. fold ns2.
    assert ((ps ++ [q ++ [b]]) !! i = Some q) as Hi2 by (by apply lookup_app_l_Some).
    destruct (get_node_ok (set_nodes t ns2) _ _ _ _ Hr2 Hi2) as (nd2 & Hget2 & Hnd2 & _).
    erewrite bind_ok; [|apply load_node_ok, Hget2].
    cbn in Hnd2. unfold ns2 in Hnd2. rewrite list_lookup_insert_eq in Hnd2
      by (rewrite length_app; apply lookup_lt_Some in Hnd; lia).
    injection Hnd2 as <-. rewrite child_set_child, bool_decide_true by done. unfold nodes_count.
    destruct (IH (length (nodes t)) (q ++ [b]) (ps ++ [q ++ [b]]) (set_nodes t ns2)) as (ps' & ns' & j & E & Hr' & Hsub & HU' & Hj'); try done.
    + rewrite (tr_len _ _ _ Hr). by apply list_lookup_middle.
    + intros x [Hx| ->%list_elem_of_singleton]%elem_of_app; [by apply HU|done].
    + exists ps', ns', j. split_and!; try done. intros x Hx. apply Hsub, elem_of_app. by left.
  - destruct (Z.eqb_spec (child (Z.b2z b) nd) (-1)); [lia|].
    erewrite bind_ok; [|reflexivity]. cbn [negb]. erewrite bind_ok; [|by apply load_node_ok].
    replace (child (Z.b2z b) nd) with (Z.of_nat (Z.to_nat (child (Z.b2z b) nd))) by lia.
    by apply IH.
Qed.

(** Inserting a code adds its leaf to the tree. *)
Lemma insert_code_ok code len sym ps t a :
  tree_repr ps asg (nodes t) → root_index t = 0 → 0 <= sym < 2 ^ 16 → 0 <= len →
  (∀ q', q' `prefix_of` code_bits code len → asg q' = None ∧ q' ∈ U) →
  ps ⊆ U → Z.of_nat (length U) <= nodes_capacity t →
  ∃ ps' ns', insert_code code len sym (t, a) = Ok (true, (set_nodes t ns', a)) ∧ ps ⊆ ps' ∧ ps' ⊆ U ∧
    code_bits code len ∈ ps' ∧
    tree_repr ps' (λ q, if decide (q = code_bits code len) then Some sym else asg q) ns'.
Proof.
  intros Hr H0 Hs Hl Hpre HU Hcap. unfold insert_code. erewrite bind_ok; [|reflexivity]. cbn [fst]. rewrite H0.
  destruct (insert_path_ok (Z.to_nat len) code 0 [] ps t a) as (ps' & ns' & j & E & Hr' & Hsub & HU' & Hj); try done.
  { apply (tr_root _ _ _ Hr). }
  { by rewrite Z2Nat.id. }
  rewrite Z2Nat.id in Hj by done. cbn [app] in Hj. erewrite bind_ok; [|exact E].
  destruct (get_node_ok (set_nodes t ns') _ _ _ _ Hr' Hj) as (nd & Hget & Hnd & _).
  erewrite bind_ok; [|by apply store_node_ok]. exists ps', (<[j := set_symbol nd sym]> ns'). rewrite Nat2Z.id.
  split_and!; try done; [by eapply list_elem_of_lookup_2|]. by apply repr_set_symbol.
Qed.
End insert.

(** * Walking down *)

(** Dropping bits never fails; the stream afterwards. *)
Definition dropped (k : Z) (s : kgz_bitstream) : kgz_bitstream :=
  if k =? 0 then s
  else
    let bit := u8 (current_bit s + k) in
    mk_stream (s_data s) (data_len s) (u64 (current_byte s + bit / 8)) (Z.land bit 7)
      (Z.shiftr (bit_buffer s) k) (u8 (bits_in_buffer s - k)).

Lemma consume_dropped k s : 0 <= k < 64 → kgz_bitstream_consume k s = Ok (tt, dropped k s).
Proof.
  intros Hk. unfold kgz_bitstream_consume, dropped, drop_bits, shift_ok. destruct (k =? 0); [done|].
  destruct (Z.leb_spec 0 k), (Z.ltb_spec k 64); try lia. done.
Qed.

(** The walk along the bits of [v] ends at the leaf they lead to. *)
Lemma lookup_slow_found t ps asg q sym v s :
  tree_repr ps asg (nodes t) → root_index t = 0 → q ∈ ps → asg q = Some sym →
  (∀ k, (k < length q)%nat → asg (take k q) = None ∧ q !! k = Some (Z.testbit v (Z.of_nat k))) →
  (length q <= 15)%nat →
  kgz_huffman_tree_lookup_slow t v s = Ok (Some sym, dropped (Z.of_nat (length q)) s).
Proof.
  intros Hr H0 Hq Hs Hwalk Hl. unfold kgz_huffman_tree_lookup_slow. rewrite H0.
  destruct (get_node_ok t ps asg 0 [] Hr (tr_root _ _ _ Hr)) as (nd0 & Hget0 & _ & Hok0).
  change (Z.of_nat 0) with 0 in Hget0. rewrite Hget0.
  assert (wp (while_ (slow_round t v) (Some nd0, 0)) s (λ r s', r = Some sym ∧ s' = dropped (Z.of_nat (length q)) s))
    as (r & s' & -> & -> & ->)%wp_inv; [|done].
  apply (wp_while _ (λ m '(p, cl) s', s' = s ∧ m = Z.of_nat (length q) - cl ∧ 0 <= cl ∧
    ∃ nd, p = Some nd ∧ node_ok ps asg (take (Z.to_nat cl) q) nd) _) with (n := Z.of_nat (length q)).
  2: lia.
  2: { split_and!; try done; [lia|]. by exists nd0. }
  intros m [p cl] s' Hm (-> & -> & Hcl & nd & -> & Hok). unfold slow_round. cbn [deref]. wp_step.
  unfold node_ok in Hok. destruct (decide (Z.to_nat cl < length q)%nat) as [Hlt|Hge].
  - destruct (Hwalk _ Hlt) as [Hn Hbit]. rewrite Hn in Hok. destruct Hok as [-> Hch].
    rewrite bit_of by lia. rewrite Z2Nat.id in Hbit by lia. set (b := Z.testbit v cl) in *.
    assert ((if negb (Z.b2z b =? 0) then one_index nd else zero_index nd) = child (Z.b2z b) nd) as -> by (by destruct b).
    assert (take (Z.to_nat cl) q ++ [b] ∈ ps) as Hin.
    { rewrite <- (take_S_r _ _ _ Hbit). eapply tr_prefix; [done| |done]. apply prefix_take. }
    destruct (Hch b) as [[_ Hnew]|[Hj Hjq]]; [done|]. destruct (Z.eqb_spec (child (Z.b2z b) nd) (-1)); [lia|].
    unfold u32. rewrite Z.mod_small by lia. destruct (Z.ltb_spec 15 (cl + 1)); [lia|]. apply wp_ret.
    exists (Z.of_nat (length q) - (cl + 1)). split; [lia|]. split_and!; try done; [lia|].
    destruct (get_node_ok t _ _ _ _ Hr Hjq) as (nd' & Hget & _ & Hok'). rewrite Z2Nat.id in Hget by done.
    exists nd'. split; [done|]. rewrite Z2Nat.inj_add, Nat.add_1_r by lia. by rewrite (take_S_r _ _ _ Hbit).
  - rewrite take_ge in Hok by lia. rewrite Hs in Hok. destruct Hok as [-> Hsym].
    eapply wp_bind, wp_ok; [apply consume_dropped; lia|]. apply wp_ret. rewrite Hsym. split; [done|]. f_equal. lia.
Qed.
