(* ===== verification/KgzHuff.v ===== *)
(** [kgz_huffman_tree_create] and [kgz_huffman_tree_lookup] ([Kgz]) against the
    canonical code of the given lengths. *)
From stdpp Require Import base tactics list strings.
From Stdlib Require Import ZArith Lia.
From S2P Require Import Prelude Str Kgz InflateSpec HuffCode KgzBits KgzTree.

(** * Reversed codes *)

Lemma bit_reverse_loop_testbit k c r m i :
  0 <= r < 2 ^ m → 0 <= m → m + Z.of_nat k <= 32 → 0 <= i →
  Z.testbit (bit_reverse_loop k c r) i =
    if i <? Z.of_nat k then Z.testbit c (Z.of_nat k - 1 - i) else Z.testbit r (i - Z.of_nat k).
Proof.
  revert c r m i. induction k as [|k IH]; intros c r m i Hr Hm Hk Hi; cbn [bit_reverse_loop].
  { destruct (Z.ltb_spec i (Z.of_nat 0)); [lia|]. f_equal. lia. }
  assert (2 ^ (m + 1) = 2 * 2 ^ m) as Hpow by (rewrite Z.pow_add_r by lia; lia).
  assert (2 ^ (m + 1) <= 2 ^ 32) by (apply Z.pow_le_mono_r; lia).
  rewrite Z.shiftl_mul_pow2 by lia. change (2 ^ 1) with 2. unfold u32. rewrite (Z.mod_small (r * 2)) by lia.
  assert ((if negb (Z.land c 1 =? 0) then Z.lor (r * 2) 1 else r * 2) = 2 * r + Z.b2z (Z.testbit c 0)) as ->.
  { pose proof (bit_of c 0 ltac:(lia)) as E. rewrite Z.shiftr_0_r in E. rewrite E. rewrite (Z.mul_comm r 2).
    destruct (Z.testbit c 0); cbn [Z.b2z]; change (1 =? 0) with false; change (0 =? 0) with true; cbn [negb]; [|lia].
    apply Z.bits_inj'. intros j Hj. rewrite Z.lor_spec. change 1 with (Z.b2z true) at 2. destruct (decide (j = 0)) as [->|].
    - by rewrite Z.testbit_even_0, Z.testbit_0_r.
    - replace j with (Z.succ (j - 1)) by lia. rewrite Z.testbit_succ_r, Z.testbit_even_succ by lia.
      change 1 with (2 * 0 + 1) at 2. rewrite Z.testbit_odd_succ, Z.bits_0 by lia. apply orb_false_r. }
  rewrite (IH _ _ (m + 1)) by (destruct (Z.testbit c 0); cbn [Z.b2z]; lia).
  destruct (Z.ltb_spec i (Z.of_nat k)).
  - destruct (Z.ltb_spec i (Z.of_nat (S k))); [|lia]. rewrite Z.shiftr_spec by lia. f_equal. lia.
  - destruct (Z.ltb_spec i (Z.of_nat (S k))).
    + replace (i - Z.of_nat k) with 0 by lia. rewrite Z.testbit_0_r. f_equal. lia.
    + replace (i - Z.of_nat k) with (Z.succ (i - Z.of_nat (S k))) by lia. by rewrite Z.testbit_succ_r by lia.
Qed.

Lemma bit_reverse_testbit c l i :
  0 <= l <= 32 → 0 <= i → Z.testbit (bit_reverse c l) i = (i <? l) && Z.testbit c (l - 1 - i).
Proof.
  intros Hl Hi. unfold bit_reverse. rewrite (bit_reverse_loop_testbit _ _ _ 0) by (cbn; lia).
  rewrite Z2Nat.id by lia. destruct (i <? l); [done|]. apply Z.bits_0.
Qed.

(** Reversing twice gives the number back. *)
Lemma bit_reverse_involutive c l : 0 <= l <= 32 → 0 <= c < 2 ^ l → bit_reverse (bit_reverse c l) l = c.
Proof.
  intros Hl Hc. apply Z.bits_inj'. intros i Hi. rewrite bit_reverse_testbit by lia.
  destruct (Z.ltb_spec i l); cbn.
  - rewrite bit_reverse_testbit by lia. destruct (Z.ltb_spec (l - 1 - i) l); [|lia]. cbn. f_equal. lia.
  - rewrite <- (Z.mod_small c (2 ^ l)) by lia. by rewrite Z.mod_pow2_bits_high by lia.
Qed.

Lemma bit_reverse_range c l : 0 <= l <= 32 → 0 <= bit_reverse c l < 2 ^ l.
Proof.
  intros Hl. assert (bit_reverse c l = bit_reverse c l mod 2 ^ l) as ->; [|apply Z.mod_pos_bound, Z.pow_pos_nonneg; lia].
  apply Z.bits_inj'. intros i Hi. destruct (Z.lt_ge_cases i l).
  - by rewrite Z.mod_pow2_bits_low by lia.
  - rewrite Z.mod_pow2_bits_high, bit_reverse_testbit by lia. by destruct (Z.ltb_spec i l); [lia|].
Qed.

(** * The first code of each length *)

(** What [next_code[l]] is before any symbol has been inserted. *)
Definition first_code (lens : list Z) (l : Z) : Z :=
  sumZ ((λ x, if (0 <? x) && (x <? l) then 2 ^ (l - x) else 0) <$> lens).

Lemma code_number_eq lens sym : code_number lens sym = first_code lens (len_at lens sym) + count (len_at lens sym) (take sym lens).
Proof. done. Qed.

Lemma first_code_1 lens : first_code lens 1 = 0.
Proof.
  unfold first_code. transitivity (sumZ ((λ _ : Z, 0) <$> lens)); [|clear; induction lens; cbn in *; [done|]; unfold sumZ in *; lia].
  apply sumZ_ext. intros x _. destruct (Z.ltb_spec 0 x), (Z.ltb_spec x 1); cbn [andb]; lia.
Qed.

Lemma first_code_step lens l : 0 < l → first_code lens (l + 1) = (first_code lens l + count l lens) * 2.
Proof.
  intros Hl. unfold first_code. rewrite Z.mul_add_distr_r, <- sumZ_mul, <- (sumZ_count l 2), <- sumZ_add.
  apply sumZ_ext. intros x _. destruct (Z.ltb_spec 0 x), (Z.ltb_spec x l), (Z.ltb_spec x (l + 1)), (Z.eqb_spec x l); cbn [andb]; try lia.
  - replace (l + 1 - x) with (l - x + 1) by lia. rewrite Z.pow_add_r by lia. lia.
  - subst x. replace (l + 1 - l) with 1 by lia. lia.
Qed.

Lemma first_code_nonneg lens l : 0 <= first_code lens l.
Proof. unfold first_code. apply sumZ_nonneg. intros x _. destruct (_ && _); lia. Qed.

Lemma first_code_bound lens l : prefix_code lens → 0 < l <= 15 → first_code lens l + count l lens <= 2 ^ l.
Proof.
  intros Hc Hl. pose proof (below_all lens Hc l ltac:(lia)) as H. destruct Hc as [Hf HK].
  rewrite <- (shorter_scale lens (conj Hf HK) l) in H by lia. fold (first_code lens l) in H.
  assert (2 ^ 15 = 2 ^ l * 2 ^ (15 - l)) as E by (rewrite <- Z.pow_add_r by lia; f_equal; lia).
  assert (0 < 2 ^ (15 - l)) by (apply Z.pow_pos_nonneg; lia). nia.
Qed.

Lemma count_cons l x lens : count l (x :: lens) = count l lens + if x =? l then 1 else 0.
Proof. unfold count. rewrite filter_cons. destruct (decide (x = l)), (Z.eqb_spec x l); try done; cbn [length]; lia. Qed.

Lemma count_lengths_ok lens bl :
  Forall (λ l, 0 <= l <= 15) lens → length bl = 16%nat →
  (∀ c, c ∈ bl → 0 <= c ∧ c + Z.of_nat (length lens) < 2 ^ 64) →
  ∃ bl', count_lengths lens bl = Some bl' ∧ length bl' = 16%nat ∧
    ∀ l c, 0 < l → bl !! Z.to_nat l = Some c → bl' !! Z.to_nat l = Some (c + count l lens).
Proof.
  intros Hf. revert bl. induction Hf as [|x lens Hx Hf IH]; intros bl Hbl Hc; cbn [count_lengths].
  { exists bl. split_and!; try done. intros l c _ H. rewrite H. f_equal. unfold count. cbn. lia. }
  unfold MAX_BITS. destruct (Z.ltb_spec 15 x); [lia|]. cbn [length] in Hc. destruct (Z.eqb_spec x 0) as [->|Hne].
  - destruct (IH bl Hbl) as (bl' & E & Hl & Hb). { intros c H'. specialize (Hc c H'). lia. }
    exists bl'. split_and!; try done. intros l c Hl0 H'. rewrite (Hb l c Hl0 H'), count_cons.
    destruct (Z.eqb_spec 0 l); [lia|]. f_equal. lia.
  - destruct (IH (alter (λ c, u64 (c + 1)) (Z.to_nat x) bl)) as (bl' & E & Hl & Hb).
    { by rewrite length_alter. }
    { intros c [i Hi]%list_elem_of_lookup_1. destruct (decide (i = Z.to_nat x)) as [->|].
      - rewrite list_lookup_alter_eq in Hi. apply fmap_Some in Hi as (c0 & Hc0 & ->).
        specialize (Hc c0 ltac:(by eapply list_elem_of_lookup_2)). rewrite u64_id by (unfold is_u64; lia). lia.
      - rewrite list_lookup_alter_ne in Hi by done. specialize (Hc c ltac:(by eapply list_elem_of_lookup_2)). lia. }
    exists bl'. split_and!; try done. intros l c Hl0 H'. rewrite count_cons. destruct (Z.eqb_spec x l) as [->|].
    + rewrite (Hb l (c + 1) Hl0); [f_equal; lia|]. rewrite list_lookup_alter_eq, H'. cbn.
      specialize (Hc c ltac:(by eapply list_elem_of_lookup_2)). by rewrite u64_id by (unfold is_u64; lia).
    + rewrite (Hb l c Hl0); [f_equal; lia|]. rewrite list_lookup_alter_ne by lia. done.
Qed.

Lemma next_code_loop_ok lens cs j i :
  prefix_code lens → 0 < j → j + Z.of_nat (length cs) <= 15 → (i < length cs)%nat →
  (∀ k x, cs !! k = Some x → x = count (j + Z.of_nat k) lens) →
  next_code_loop cs (first_code lens j) !! i = Some (first_code lens (j + Z.of_nat i + 1)).
Proof.
  intros Hp. revert j i. induction cs as [|c cs IH]; intros j i Hj Hlen Hi Hcs; cbn [length] in *; [lia|].
  cbn [next_code_loop].
  assert (c = count j lens) as -> by (rewrite (Hcs 0%nat c eq_refl); f_equal; lia).
  pose proof (first_code_bound lens j Hp ltac:(lia)). pose proof (first_code_nonneg lens j).
  pose proof (count_nonneg j lens). assert (2 ^ j <= 2 ^ 14) by (apply Z.pow_le_mono_r; lia).
  unfold u32, u16. rewrite (Z.mod_small (count j lens)) by lia. rewrite (Z.mod_small (first_code lens j + count j lens)) by lia.
  rewrite Z.shiftl_mul_pow2 by lia. change (2 ^ 1) with 2. rewrite <- first_code_step by lia.
  assert (first_code lens (j + 1) = (first_code lens j + count j lens) * 2) by (apply first_code_step; lia).
  rewrite !(Z.mod_small (first_code lens (j + 1))) by lia. destruct i as [|i]; cbn [lookup list_lookup].
  - do 2 f_equal. lia.
  - rewrite IH by (try lia; intros k x Hk; rewrite (Hcs (S k) x Hk); f_equal; lia). do 2 f_equal. lia.
Qed.

Lemma next_codes_ok lens bl l :
  prefix_code lens → length bl = 16%nat → (∀ l, 0 < l <= 15 → bl !! Z.to_nat l = Some (count l lens)) → 0 < l <= 15 →
  next_codes bl !! Z.to_nat l = Some (first_code lens l).
Proof.
  intros Hp Hlen Hbl Hl. unfold next_codes. destruct bl as [|b0 bl]; [done|]. cbn [length] in Hlen.
  change (<[0%nat := 0]> (b0 :: bl)) with (0 :: bl). change (Z.to_nat MAX_BITS) with 15%nat. cbn [take next_code_loop].
  change (u32 (Z.shiftl (u32 (0 + u32 0)) 1)) with 0. change (u16 0) with 0.
  destruct (decide (l = 1)) as [->|]; [by rewrite first_code_1|].
  replace (Z.to_nat l) with (S (S (Z.to_nat (l - 2)))) by lia. cbn [lookup list_lookup].
  rewrite <- (first_code_1 lens). rewrite (next_code_loop_ok lens _ 1) by (try done; rewrite ?length_take; try lia;
    intros k x [Hk Hk']%lookup_take_Some; specialize (Hbl (1 + Z.of_nat k) ltac:(lia));
    replace (Z.to_nat (1 + Z.of_nat k)) with (S k) in Hbl by lia; change ((b0 :: bl) !! S k) with (bl !! k) in Hbl; congruence).
  do 2 f_equal. lia.
Qed.

(** * The cache *)

(** The low bits of [v] are the code of [sym], first bit lowest. *)
Definition matches (lens : list Z) (sym : nat) (v : Z) : Prop :=
  ∀ i, 0 <= i < len_at lens sym → Z.testbit v i = Z.testbit (code_number lens sym) (len_at lens sym - 1 - i).

(** Every entry in use holds one of the first [k] symbols, with its length, at
    an index that begins with its code. *)
Definition table_ok (lens : list Z) (k : nat) (tb : list huffman_cache_entry) : Prop :=
  length tb = Z.to_nat (2 ^ TABLE_BITS) ∧
  ∀ (v : nat) e, tb !! v = Some e → e_length e <= 0 ∨
    ∃ sym, (sym < k)%nat ∧ 0 < len_at lens sym <= TABLE_BITS ∧ matches lens sym (Z.of_nat v) ∧
      e = mk_entry (Z.of_nat sym) (len_at lens sym).

Lemma table_ok_S lens k tb : table_ok lens k tb → table_ok lens (S k) tb.
Proof.
  intros [Hl H]. split; [done|]. intros v e Hv. destruct (H v e Hv) as [?|(sym & ? & ?)]; [by left|].
  right. exists sym. split; [lia|done].
Qed.

Lemma matches_reverse lens sym v :
  0 < len_at lens sym <= 15 → v mod 2 ^ len_at lens sym = bit_reverse (code_number lens sym) (len_at lens sym) →
  matches lens sym v.
Proof.
  intros Hl Hv i Hi. rewrite <- (Z.mod_pow2_bits_low v (len_at lens sym)) by lia.
  rewrite Hv, bit_reverse_testbit by lia. by destruct (Z.ltb_spec i (len_at lens sym)); [|lia].
Qed.

Lemma fill_table_ok lens k t a :
  table_ok lens (S k) (table t) → 0 < len_at lens k <= TABLE_BITS → Z.of_nat k < 2 ^ 16 →
  ∃ tb, fill_table (bit_reverse (code_number lens k) (len_at lens k)) (u32 (Z.shiftl 1 (len_at lens k))) (Z.of_nat k) (len_at lens k) (t, a)
    = Ok (tt, (set_table t tb, a)) ∧ table_ok lens (S k) tb.
Proof.
  unfold TABLE_BITS, KGZ_HUFFMAN_CACHE in *. intros Ht Hl Hk. set (l := len_at lens k) in *.
  assert (2 ^ l <= 2 ^ 10) by (apply Z.pow_le_mono_r; lia). assert (0 < 2 ^ l) by (apply Z.pow_pos_nonneg; lia).
  unfold u32. rewrite Z.shiftl_1_l, (Z.mod_small (2 ^ l)) by lia.
  pose proof (bit_reverse_range (code_number lens k) l ltac:(lia)) as Hrev. set (rev := bit_reverse _ _) in *.
  assert (wp (fill_table rev (2 ^ l) (Z.of_nat k) l) (t, a) (λ _ b, ∃ tb, b = (set_table t tb, a) ∧ table_ok lens (S k) tb))
    as ([] & b & E & tb & -> & Htb)%wp_inv; [|by exists tb].
  apply (wp_while _ (λ m fill b, m = 2048 - fill ∧ 0 <= fill ∧ fill mod 2 ^ l = rev ∧ ∃ tb, b = (set_table t tb, a) ∧ table_ok lens (S k) tb) _)
    with (n := 2048 - rev).
  - intros m fill b Hm (-> & Hf0 & Hmod & tb & -> & Htb). unfold TABLE_BITS, KGZ_HUFFMAN_CACHE. destruct (Z.ltb_spec fill (2 ^ 10)).
    + wp_step. wp_step. exists (2048 - (fill + 2 ^ l)). split; [lia|]. unfold u32. rewrite Z.mod_small by lia.
      split_and!; [done|lia| |].
      { rewrite <- Z.add_mod_idemp_r, Z.mod_same, Z.add_0_r by lia. done. }
      exists (<[Z.to_nat fill := mk_entry (Z.of_nat k) (i8 l)]> tb). split; [done|]. destruct Htb as [Hlen Htb].
      split; [by rewrite length_insert|]. intros v e [(<- & <- & _)|(_ & Hv)]%list_lookup_insert_Some; [|by apply Htb].
      right. exists k. assert (i8 l = l) as -> by (unfold i8, signed; rewrite Z.mod_small; lia).
      split_and!; try done; try (unfold TABLE_BITS, KGZ_HUFFMAN_CACHE; lia).
      rewrite Z2Nat.id by lia. by apply matches_reverse; [fold l; lia|].
    + apply wp_ret. by exists tb.
  - lia.
  - split_and!; [done|lia|by apply Z.mod_small|]. exists (table t). split; [by destruct t|done].
Qed.

(** * All symbols *)

(** The symbol among the first [k] whose code is [q]. *)
Definition asg (lens : list Z) (k : nat) (q : list bool) : option Z :=
  (λ x, Z.of_nat x.2) <$> list_find (λ i, 0 < len_at lens i ∧ code_of lens i = q) (seq 0 k).

Lemma asg_spec lens k q s :
  asg lens k q = Some s → ∃ i, s = Z.of_nat i ∧ (i < k)%nat ∧ 0 < len_at lens i ∧ code_of lens i = q.
Proof.
  intros ([j i] & (Hj & [Hi Hq] & _)%list_find_Some & ->)%fmap_Some. apply lookup_seq in Hj as [-> Hj]. by exists j.
Qed.

Lemma asg_found lens k i : prefix_code lens → 0 < len_at lens i → (i < k)%nat → asg lens k (code_of lens i) = Some (Z.of_nat i).
Proof.
  intros Hp Hi Hk. destruct (asg lens k (code_of lens i)) as [s|] eqn:E.
  - apply asg_spec in E as (j & -> & _ & Hj & Heq). do 2 f_equal. eapply prefix_free; [done..|]. by rewrite Heq.
  - exfalso. unfold asg in E. apply fmap_None, list_find_None in E. rewrite Forall_forall in E.
    apply (E i); [|done]. apply list_elem_of_In, in_seq. lia.
Qed.

Lemma asg_none lens k q : (∀ i, (i < k)%nat → 0 < len_at lens i → code_of lens i ≠ q) → asg lens k q = None.
Proof.
  intros H. destruct (asg lens k q) as [s|] eqn:E; [|done]. apply asg_spec in E as (i & _ & Hi & Hl & Hq). by destruct (H i Hi Hl).
Qed.

Lemma asg_S lens k q : prefix_code lens → 0 < len_at lens k →
  asg lens (S k) q = if decide (q = code_of lens k) then Some (Z.of_nat k) else asg lens k q.
Proof.
  intros Hp Hk. case_decide as E; [subst q; apply asg_found; [done..|lia]|].
  destruct (asg lens k q) as [s|] eqn:Eq.
  - apply asg_spec in Eq as (i & -> & Hi & Hl & <-). apply asg_found; [done..|lia].
  - apply asg_none. intros i Hi Hl <-. destruct (decide (i = k)) as [->|]; [done|].
    rewrite (asg_found lens k i) in Eq by (done || lia). done.
Qed.

Lemma asg_S_skip lens k q : prefix_code lens → len_at lens k = 0 → asg lens (S k) q = asg lens k q.
Proof.
  intros Hp Hk. destruct (asg lens k q) as [s|] eqn:Eq.
  - apply asg_spec in Eq as (i & -> & Hi & Hl & <-). apply asg_found; [done..|lia].
  - apply asg_none. intros i Hi Hl <-. rewrite (asg_found lens k i) in Eq; [done..|].
    assert (i ≠ k) by (intros ->; lia). lia.
Qed.

Lemma tree_repr_ext ps f g ns : (∀ q, f q = g q) → tree_repr ps f ns → tree_repr ps g ns.
Proof.
  intros Hfg [H1 H2 H3 H4 H5]. split; try done. intros i q nd Hi Hnd. specialize (H5 i q nd Hi Hnd). unfold node_ok in *. by rewrite <- Hfg.
Qed.

(** The nodes of the tree: the paths from the root to the codes. *)
Definition prefixes (c : list bool) : list (list bool) := (λ k, take k c) <$> seq 0 (S (length c)).
Definition paths (lens : list Z) : list (list bool) :=
  remove_dups ([] :: mjoin ((λ i, prefixes (code_of lens i)) <$> seq 0 (length lens))).

Lemma paths_root lens : [] ∈ paths lens.
Proof. apply elem_of_remove_dups. left. Qed.

Lemma paths_prefix lens i q : (i < length lens)%nat → q `prefix_of` code_of lens i → q ∈ paths lens.
Proof.
  intros Hi [k E]. apply elem_of_remove_dups. right. apply list_elem_of_join. exists (prefixes (code_of lens i)).
  split; [|apply list_elem_of_fmap; exists i; split; [done|]; apply list_elem_of_In, in_seq; lia].
  apply list_elem_of_fmap. exists (length q). rewrite E, take_app_length. split; [done|].
  apply list_elem_of_In, in_seq. rewrite length_app. lia.
Qed.

(** The tree after the first [k] symbols. *)
Record building (lens : list Z) (k : nat) (t : kgz_huffman_tree) (nc : list Z) : Prop := {
  bd_repr : ∃ ps, tree_repr ps (asg lens k) (nodes t) ∧ ps ⊆ paths lens ∧
    ∀ i, (i < k)%nat → 0 < len_at lens i → code_of lens i ∈ ps;
  bd_root : root_index t = 0;
  bd_table : table_ok lens k (table t);
  bd_room : Z.of_nat (length (paths lens)) <= nodes_capacity t;
  bd_next_len : length nc = 16%nat;
  bd_next : ∀ l, 0 < l <= 15 → nc !! Z.to_nat l = Some (first_code lens l + count l (take k lens))
}.

Lemma tree_building_skip lens k t nc :
  prefix_code lens → lens !! k = Some 0 → building lens k t nc → building lens (S k) t nc.
Proof.
  intros Hp Hk [(ps & Hr & HU & Hin) H0 Ht Hroom Hlen Hnc].
  assert (len_at lens k = 0) as Hk0 by (unfold len_at; by rewrite Hk). split; try done.
  - exists ps. split_and!; try done.
    + eapply tree_repr_ext; [|done]. intros q. by rewrite asg_S_skip.
    + intros i Hi Hl. apply Hin; [|done]. assert (i ≠ k) by (intros ->; lia). lia.
  - by apply table_ok_S.
  - intros l Hl. rewrite (take_S_r _ _ _ Hk), count_app, Hnc by done. do 2 f_equal.
    rewrite count_cons. destruct (Z.eqb_spec 0 l); [lia|]. unfold count. cbn. lia.
Qed.

(** One symbol with a code. *)
Lemma insert_symbol_ok lens k l t nc a :
  prefix_code lens → lens !! k = Some l → 0 < l → Z.of_nat (length lens) < 2 ^ 16 → building lens k t nc →
  let code := default 0 (nc !! Z.to_nat l) in
  code = code_number lens k ∧
  ∃ ns, insert_code code l (Z.of_nat k) (t, a) = Ok (true, (set_nodes t ns, a)) ∧
    building lens (S k) (set_nodes t ns) (<[Z.to_nat l := u16 (code + 1)]> nc).
Proof.
  intros Hp Hk Hl Hsmall [(ps & Hr & HU & Hin) H0 Ht Hroom Hlen Hnc].
  assert (len_at lens k = l) as Hkl by (unfold len_at; by rewrite Hk).
  apply lookup_lt_Some in Hk as Hklt. pose proof (len_at_range lens Hp k) as H15.
  assert (code_number lens k = first_code lens l + count l (take k lens)) as Hcode by (by rewrite code_number_eq, Hkl).
  intros code. unfold code. rewrite Hnc by lia. cbn [from_option]. unfold id. rewrite <- Hcode. split; [done|].
  destruct (insert_code_ok (asg lens k) (paths lens) (code_number lens k) l (Z.of_nat k) ps t a)
    as (ps' & ns & E & Hsub & HU' & Hleaf & Hr'); try done; try lia.
  { intros q' Hq'. rewrite <- Hkl in Hq'. split; [|by eapply paths_prefix].
    apply asg_none. intros i Hi Hil <-. assert (i = k); [|lia]. eapply prefix_free; try done. lia. }
  exists ns. split; [done|]. split; try done.
  - exists ps'. assert (code_of lens k = code_bits (code_number lens k) l) as Ec by (unfold code_of; by rewrite Hkl).
    split_and!; try done.
    + eapply tree_repr_ext; [|exact Hr']. intros q. cbv beta. by rewrite asg_S, Ec by (done || lia).
    + intros i Hi Hil. destruct (decide (i = k)) as [->|]; [by rewrite Ec|]. apply Hsub, Hin; [lia|done].
  - by apply table_ok_S.
  - by rewrite length_insert.
  - intros l' Hl'. rewrite (take_S_r _ _ _ Hk), count_app, count_cons. change (count l' []) with 0.
    pose proof (code_number_bound lens Hp k ltac:(lia)) as Hb. rewrite Hkl in Hb. pose proof (code_number_nonneg lens k).
    assert (2 ^ l <= 2 ^ 15) by (apply Z.pow_le_mono_r; lia).
    destruct (Z.eqb_spec l l') as [<-|].
    + rewrite list_lookup_insert_eq by lia. unfold u16. rewrite Z.mod_small by lia. f_equal. lia.
    + rewrite list_lookup_insert_ne by lia. rewrite Hnc by done. f_equal. lia.
Qed.

Lemma insert_symbols_ok lens t nc a : prefix_code lens → Z.of_nat (length lens) < 2 ^ 16 →
  ∀ k, building lens k t nc → (k <= length lens)%nat →
  ∃ t' nc', insert_symbols (drop k lens) (Z.of_nat k) nc (t, a) = Ok (true, (t', a)) ∧ building lens (length lens) t' nc'.
Proof.
  intros Hp Hsmall k. remember (length lens - k)%nat as n eqn:Hn. revert k t nc Hn.
  induction n as [|n IH]; intros k t nc Hn Hb Hk.
  { assert (k = length lens) as -> by lia. rewrite drop_ge by lia. by exists t, nc. }
  destruct (lookup_lt_is_Some_2 lens k ltac:(lia)) as [l Hl].
  rewrite (drop_S _ _ _ Hl). cbn [insert_symbols].
  assert (u16 (Z.of_nat k + 1) = Z.of_nat (S k)) as -> by (unfold u16; rewrite Z.mod_small; lia).
  assert (len_at lens k = l) as Hkl by (unfold len_at; by rewrite Hl).
  destruct (Z.eqb_spec l 0) as [->|Hl0].
  { apply IH; [lia|by apply tree_building_skip|lia]. }
  pose proof (len_at_range lens Hp k). rewrite Hkl in *.
  destruct (insert_symbol_ok lens k l t nc a) as (Hcode & ns & E & Hb'); try done; [lia|].
  erewrite bind_ok; [|exact E]. cbn [negb]. rewrite Hcode in *.
  destruct (Z.ltb_spec TABLE_BITS l).
  - erewrite bind_ok; [|reflexivity]. apply IH; [lia|done|lia].
  - destruct (fill_table_ok lens k (set_nodes t ns) a) as (tb & Ef & Htb); [apply Hb'|lia|lia|].
    rewrite Hkl in Ef. erewrite bind_ok; [|exact Ef]. apply IH; [lia| |lia].
    destruct Hb' as [H1 H2 H3 H4 H5 H6]. by split.
Qed.

(** * Creating a tree *)

(** Code lengths of a prefix code whose tree fits into the nodes that
    [kgz_huffman_tree_create] asks for. *)
Definition valid_lengths (lens : list Z) : Prop :=
  prefix_code lens ∧ Z.of_nat (length lens) < 2 ^ 16 ∧ Z.of_nat (length (paths lens)) <= initial_capacity lens.

#[export] Instance valid_lengths_dec lens : Decision (valid_lengths lens).
Proof. unfold valid_lengths. apply _. Defined.

(** A finished tree for the code lengths [lens]. *)
Definition tree_ok (lens : list Z) (t : kgz_huffman_tree) : Prop := ∃ nc, building lens (length lens) t nc.

Lemma initial_capacity_bounds lens : 16 <= initial_capacity lens <= 16 + 2 * Z.of_nat (length lens).
Proof.
  unfold initial_capacity, leaf_count. pose proof (length_filter (λ l, negb (l =? 0)) lens).
  destruct (Z.ltb_spec 0 (Z.of_nat (length (filter (λ l, negb (l =? 0)) lens)))); [|lia].
  destruct (Z.ltb_spec 16 (Z.of_nat (length (filter (λ l, negb (l =? 0)) lens)) * 2 - 1)); lia.
Qed.

Lemma building_start lens t bl :
  prefix_code lens → nodes t = [mk_node HUFFMAN_NODE_TYPE_INTERNAL (-1) (-1)] → root_index t = 0 →
  Z.of_nat (length (paths lens)) <= nodes_capacity t →
  table t = replicate (Z.to_nat (2 ^ TABLE_BITS)) (mk_entry 0xffff (-1)) →
  length bl = 16%nat → (∀ l, 0 < l <= 15 → bl !! Z.to_nat l = Some (count l lens)) →
  building lens 0 t (next_codes bl).
Proof.
  intros Hp Hn H0 Hroom Ht Hlen Hbl. split; try done.
  - exists [[]]. rewrite Hn. split_and!.
    + split; try done; [apply NoDup_singleton|intros q b H%list_elem_of_singleton; by destruct q|].
      intros [|i] q nd Hq Hnd; [|done]. injection Hq as <-. injection Hnd as <-. cbn. split; [done|].
      intros b. left. split; [by destruct b|]. by intros H%list_elem_of_singleton.
    + intros q ->%list_elem_of_singleton. apply paths_root.
    + intros i Hi. lia.
  - rewrite Ht. split; [by rewrite length_replicate|]. intros v e [-> _]%lookup_replicate. left. cbn. lia.
  - unfold next_codes. cbn [length].
    assert (∀ cs c, length (next_code_loop cs c) = length cs) as Hl.
    { induction cs as [|x cs IH]; intros c; cbn [next_code_loop length]; [done|]. by rewrite IH. }
    rewrite Hl, length_take, length_insert, Hlen. done.
  - intros l Hl. rewrite (next_codes_ok lens) by done. cbn. unfold count. cbn. by rewrite Z.add_0_r.
Qed.

(** Valid code lengths and enough memory give the tree of their code. *)
Lemma tree_create_ok lens a :
  valid_lengths lens → arena_ok a → a_offset a + 4134 + 12 * initial_capacity lens <= a_capacity a →
  ∃ t off, kgz_huffman_tree_create lens a = Ok (Some t, mk_arena (a_buffer a) (a_capacity a) off) ∧ tree_ok lens t ∧
    a_offset a <= off <= a_offset a + 4134 + 12 * initial_capacity lens.
Proof.
  intros (Hp & Hsmall & Hfit) Ha Hroom. pose proof (initial_capacity_bounds lens) as Hcap.
  unfold kgz_huffman_tree_create, SIZEOF_TREE, SIZEOF_NODE.
  destruct (arena_allocate_ok a 4120) as (p & off & E & Hp0 & Hoff); [done|lia|lia|].
  erewrite bind_ok; [|exact E]. destruct (Z.eqb_spec p 0); [done|].
  destruct Ha as [Hb Ho He]. set (a1 := mk_arena (a_buffer a) (a_capacity a) off).
  rewrite u64_id by (unfold is_u64; lia).
  destruct (arena_allocate_ok a1 (12 * initial_capacity lens)) as (p2 & off2 & E2 & Hp2 & Hoff2); [split; cbn; lia|lia|cbn; lia|].
  erewrite bind_ok; [|exact E2]. destruct (Z.eqb_spec p2 0); [done|]. cbn [a_buffer a_capacity a_offset a1] in *.
  set (a2 := mk_arena (a_buffer a) (a_capacity a) off2).
  unfold build_tree. erewrite bind_ok; [|apply alloc_new_node_ok; unfold nodes_count; cbn [nodes nodes_capacity length]; lia].
  erewrite bind_ok; [|reflexivity]. unfold nodes_count. cbn [nodes length fst snd table root_index nodes_ptr nodes_capacity set_nodes app].
  change (Z.of_nat 0) with 0. change (0 =? -1) with false. cbn iota.
  destruct (count_lengths_ok lens (replicate (Z.to_nat (MAX_BITS + 1)) 0)) as (bl & -> & Hbl & Hcount); [apply Hp|done| |].
  { intros c [-> _]%elem_of_replicate. lia. }
  erewrite bind_ok; [|reflexivity].
  destruct (insert_symbols_ok lens (set_table (mk_tree [] 0 [mk_node HUFFMAN_NODE_TYPE_INTERNAL (-1) (-1)] p2 (initial_capacity lens))
      (replicate (Z.to_nat (2 ^ TABLE_BITS)) (mk_entry 0xffff (-1)))) (next_codes bl) a2 Hp Hsmall 0%nat) as (t' & nc & E3 & Hb3).
  - apply building_start; try done. intros l Hl. rewrite (Hcount l 0); [done|lia|]. apply lookup_replicate. split; [done|]. unfold MAX_BITS. lia.
  - lia.
  - rewrite drop_0 in E3. cbn [fst snd]. change (Z.of_nat 0) with 0 in E3. rewrite E3. exists t', off2. split; [done|]. split; [by exists nc|]. lia.
Qed.

(** * Looking up *)

Lemma code_of_lookup lens i (k : nat) v :
  (k < length (code_of lens i))%nat → matches lens i v →
  code_of lens i !! k = Some (Z.testbit v (Z.of_nat k)).
Proof.
  rewrite length_code_of. intros Hk Hm. unfold code_of. rewrite <- (Nat2Z.id k) at 1.
  rewrite code_bits_lookup by lia. by rewrite Hm by lia.
Qed.

(** The walk finds the symbol whose code the bits begin with. *)
Lemma lookup_slow_ok lens t i v s :
  prefix_code lens → tree_ok lens t → (i < length lens)%nat → 0 < len_at lens i → matches lens i v →
  kgz_huffman_tree_lookup_slow t v s = Ok (Some (Z.of_nat i), dropped (len_at lens i) s).
Proof.
  intros Hp [nc [(ps & Hr & _ & Hin) H0 _ _ _ _]] Hi Hl Hm. pose proof (len_at_range lens Hp i).
  erewrite lookup_slow_found with (q := code_of lens i) (sym := Z.of_nat i); try done.
  - rewrite length_code_of. do 3 f_equal. lia.
  - by apply Hin.
  - by apply asg_found.
  - intros k Hk. split; [|by apply code_of_lookup].
    apply asg_none. intros j Hj Hjl E. assert (j = i) as ->.
    { eapply prefix_free; [done..|]. rewrite E. apply prefix_take. }
    apply (f_equal length) in E. rewrite length_take in E. lia.
  - rewrite length_code_of. lia.
Qed.

(** An entry of the cache that is in use says what the walk finds. *)
Lemma cache_sound lens t v e :
  tree_ok lens t → table t !! Z.to_nat (Z.land v (2 ^ TABLE_BITS - 1)) = Some e → 0 < e_length e →
  ∃ i, (i < length lens)%nat ∧ 0 < len_at lens i <= TABLE_BITS ∧ matches lens i v ∧ e = mk_entry (Z.of_nat i) (len_at lens i).
Proof.
  intros [nc [_ _ [_ Ht] _ _ _]] He Hlen. destruct (Ht _ _ He) as [?|(i & Hi & Hl & Hm & ->)]; [lia|].
  exists i. split; [done|]. split; [done|]. split; [|done]. intros j Hj. rewrite <- Hm by done.
  assert (2 ^ TABLE_BITS - 1 = Z.ones 10) as -> by done. rewrite Z2Nat.id, Z.land_ones by (try apply Z.land_nonneg; right || lia; done).
  rewrite Z.mod_pow2_bits_low; [done|]. unfold TABLE_BITS, KGZ_HUFFMAN_CACHE in Hl. lia.
Qed.

Lemma table_lookup lens t v : tree_ok lens t → is_Some (table t !! Z.to_nat (Z.land v (2 ^ TABLE_BITS - 1))).
Proof.
  intros [nc [_ _ [Hl _] _ _ _]]. apply lookup_lt_is_Some. rewrite Hl.
  assert (2 ^ TABLE_BITS - 1 = Z.ones 10) as -> by done. rewrite Z.land_ones by lia.
  pose proof (Z.mod_pos_bound v (2 ^ 10)). change (2 ^ TABLE_BITS) with 1024. change (2 ^ 10) with 1024 in *. lia.
Qed.

(** * Trees on a stream *)

Lemma dropped_at_pos d n p k s :
  0 <= n < 2 ^ 58 → at_pos d n p s → ready n p 15 s → 0 <= k <= 15 → p + k < 2 ^ 62 → at_pos d n (p + k) (dropped k s).
Proof.
  intros Hn Hs Hr Hk Hp.
  assert (wp (kgz_bitstream_consume k) s (λ _ s', at_pos d n (p + k) s')) as H by (apply consume_ok with (k := 15); done || lia).
  unfold wp in H. by rewrite consume_dropped in H by lia.
Qed.

(** The code of symbol [i] is next in the stream. *)
Lemma matches_stream lens d n i p :
  (∀ k : nat, (k < length (code_of lens i))%nat → code_of lens i !! k = Some (sbit d n (p + Z.of_nat k))) →
  len_at lens i <= 15 → matches lens i (field (sbit d n) p 15).
Proof.
  intros H Hl j Hj. rewrite field_testbit by lia. destruct (Z.ltb_spec j (Z.of_nat 15)); [|lia]. cbn [andb].
  specialize (H (Z.to_nat j)). rewrite length_code_of, Z2Nat.id in H by lia. specialize (H ltac:(lia)).
  unfold code_of in H. rewrite code_bits_lookup in H by lia. congruence.
Qed.

Section lookup.
Context (lens : list Z) (t : kgz_huffman_tree).
Context (Hp : prefix_code lens) (Ht : tree_ok lens t).

(** A lookup is the walk down the tree on the next 15 bits: the cache does not
    change its result. *)
Lemma lookup_is_slow s :
  kgz_huffman_tree_lookup t s =
    (let* bits := kgz_bitstream_peek MAX_BITS in kgz_huffman_tree_lookup_slow t bits) s.
Proof.
  unfold kgz_huffman_tree_lookup, bind. destruct (kgz_bitstream_peek MAX_BITS s) as [[v s']| |]; [|done..].
  destruct (table_lookup lens t v Ht) as [e He]. rewrite He. cbn [from_option]. unfold id.
  destruct (Z.ltb_spec 0 (e_length e)); [|done].
  destruct (cache_sound lens t v e Ht He ltac:(done)) as (i & Hi & Hl & Hm & ->). cbn [e_length e_symbol].
  unfold TABLE_BITS, KGZ_HUFFMAN_CACHE in Hl. rewrite (lookup_slow_ok lens t i v s') by (done || lia).
  unfold u32. rewrite Z.mod_small by lia. by rewrite consume_dropped by lia.
Qed.

(** When the next bits of the stream are the code of a symbol, the lookup
    returns it and moves behind the code. *)
Lemma lookup_ok d n p s i :
  (∀ j, 0 <= d j < 256) → 0 <= n < 2 ^ 58 → at_pos d n p s → p + 15 < 2 ^ 62 →
  (i < length lens)%nat → 0 < len_at lens i →
  (∀ k : nat, (k < length (code_of lens i))%nat → code_of lens i !! k = Some (sbit d n (p + Z.of_nat k))) →
  wp (kgz_huffman_tree_lookup t) s (λ r s', r = Some (Z.of_nat i) ∧ at_pos d n (p + len_at lens i) s').
Proof.
  intros Hd Hn Hs Hsmall Hi Hl Hcode. eapply wp_ext; [apply lookup_is_slow|]. pose proof (len_at_range lens Hp i).
  eapply wp_bind, wp_mono; [by apply peek_ok; try done; unfold MAX_BITS; lia|]. intros v s' (-> & Hs' & Hr).
  eapply wp_ok; [apply (lookup_slow_ok lens t i); try done; by apply matches_stream; [|lia]|].
  split; [done|]. unfold MAX_BITS in Hr. apply dropped_at_pos; done || lia.
Qed.

(** The same for the reference decoder. *)
Lemma lookup_decode d n p s sym bs :
  (∀ j, 0 <= d j < 256) → 0 <= n < 2 ^ 58 → at_pos d n p s → p <= 8 * n →
  decode_symbol (codes lens) 0 (rest d n p) = Some (sym, bs) →
  0 <= sym < Z.of_nat (length lens) ∧
  wp (kgz_huffman_tree_lookup t) s (λ r s', r = Some sym ∧
    ∃ p', at_pos d n p' s' ∧ bs = rest d n p' ∧ p < p' <= 8 * n).
Proof.
  intros Hd Hn Hs Hle (i & -> & Hi & Hl & Hpre & ->)%decode_codes. split; [lia|].
  apply prefix_length in Hpre as Hlen. rewrite length_code_of, length_rest in Hlen.
  eapply wp_mono; [apply (lookup_ok d n p s i); try done; [lia|]|].
  - intros k Hk. rewrite length_code_of in Hk. destruct (lookup_lt_is_Some_2 (code_of lens i) k) as [b Hb]; [rewrite length_code_of; lia|].
    pose proof (prefix_lookup_Some _ _ _ _ Hb Hpre) as E. rewrite rest_lookup in E by lia. congruence.
  - intros r s' [-> Hs']. split; [done|]. exists (p + len_at lens i). rewrite drop_rest by lia. split_and!; done || lia.
Qed.
End lookup.
