(* ===== verification/HuffComplete.v ===== *)
(** Which code lengths fit the array of nodes that [kgz_huffman_tree_create]
    allocates: those of every complete code, and those of a code with a few
    short words. *)
From stdpp Require Import base tactics list.
From Stdlib Require Import ZArith Lia.
From S2P Require Import Prelude Kgz InflateSpec HuffCode KgzHuff.

(** * Sets of words *)

(** What follows the first bit [b] in the words that begin with it. *)
Definition tail_of (b : bool) (w : list bool) : option (list bool) :=
  match w with
  | [] => None
  | b' :: w' => if bool_decide (b = b') then Some w' else None
  end.
Definition tails (b : bool) (C : list (list bool)) : list (list bool) := omap (tail_of b) C.

Definition words_weight (n : nat) (C : list (list bool)) : Z := sumZ ((λ w, 2 ^ (Z.of_nat n - Z.of_nat (length w))) <$> C).

(** No word begins with another one. *)
Definition free (C : list (list bool)) : Prop := NoDup C ∧ ∀ w w', w ∈ C → w' ∈ C → w `prefix_of` w' → w = w'.

Lemma elem_of_tails b C w : w ∈ tails b C ↔ b :: w ∈ C.
Proof.
  unfold tails. rewrite list_elem_of_omap. split.
  - intros ([|b' w'] & Hin & E); cbn in E; [done|]. case_bool_decide; by simplify_eq.
  - intros H. exists (b :: w). split; [done|]. cbn. by rewrite bool_decide_true.
Qed.

Lemma tails_NoDup b C : NoDup C → NoDup (tails b C).
Proof.
  induction 1 as [|w C Hw _ IH]; [constructor|]. cbn. destruct (tail_of b w) as [w'|] eqn:E; [|done].
  constructor; [|done]. fold (tails b C). rewrite elem_of_tails. destruct w as [|b' w0]; cbn in E; [done|]. case_bool_decide; by simplify_eq.
Qed.

Lemma tails_free b C : free C → free (tails b C).
Proof.
  intros [Hn Hf]. split; [by apply tails_NoDup|]. intros w w'. rewrite !elem_of_tails. intros H1 H2 Hp.
  specialize (Hf _ _ H1 H2 ltac:(by apply prefix_cons)). by injection Hf.
Qed.

Lemma tails_cons b b' w C : tails b ((b' :: w) :: C) = if Bool.eqb b b' then w :: tails b C else tails b C.
Proof. by destruct b, b'. Qed.

Lemma tails_length C : [] ∉ C → length C = (length (tails false C) + length (tails true C))%nat.
Proof.
  induction C as [|w C IH]; [done|]. intros [Hw Hn]%not_elem_of_cons. specialize (IH Hn). destruct w as [|b w]; [done|].
  rewrite !tails_cons. destruct b; cbn; lia.
Qed.

Lemma tails_weight n C : [] ∉ C → words_weight (S n) C = words_weight n (tails false C) + words_weight n (tails true C).
Proof.
  unfold words_weight. induction C as [|w C IH]; [done|]. intros [Hw Hn]%not_elem_of_cons. specialize (IH Hn). destruct w as [|b w]; [done|].
  assert (Z.of_nat (S n) - Z.of_nat (length (b :: w)) = Z.of_nat n - Z.of_nat (length w)) as E by (cbn [length]; lia).
  rewrite !tails_cons, fmap_cons, E. destruct b; cbn in IH |- *; unfold sumZ in *; lia.
Qed.

(** A set that holds the empty word holds nothing else. *)
Lemma free_nil C : free C → [] ∈ C → C = [[]].
Proof.
  intros [Hn Hf] Hin. assert (∀ w, w ∈ C → w = []) as H by (intros w Hw; symmetry; apply Hf; [done..|apply prefix_nil]).
  destruct C as [|w [|w' C]]; [by apply elem_of_nil in Hin|by rewrite (H w) by left|].
  exfalso. apply NoDup_cons in Hn as [Hn _]. apply Hn. rewrite (H w), (H w') by (left || right; left). left.
Qed.

Lemma words_weight_nil n C : C = [[]] → words_weight n C = 2 ^ Z.of_nat n.
Proof. intros ->. unfold words_weight. cbn. rewrite Z.sub_0_r. lia. Qed.

Lemma nil_dec (C : list (list bool)) : [] ∈ C ∨ [] ∉ C.
Proof. destruct (decide ([] ∈ C)); auto. Qed.

(** Kraft's inequality. *)
Lemma free_weight n C : free C → (∀ w, w ∈ C → (length w <= n)%nat) → words_weight n C <= 2 ^ Z.of_nat n.
Proof.
  revert C. induction n as [|n IH]; intros C Hf Hl; (destruct (nil_dec C) as [Hin|Hn]; [by rewrite words_weight_nil by by apply free_nil|]).
  - destruct C as [|w C]; [cbn; lia|]. destruct w; [destruct Hn; left|]. specialize (Hl _ ltac:(left)). cbn in Hl. lia.
  - rewrite tails_weight, Nat2Z.inj_succ, Z.pow_succ_r by (done || lia).
    assert (∀ b, words_weight n (tails b C) <= 2 ^ Z.of_nat n) as H.
    { intros b. apply IH; [by apply tails_free|]. intros w Hw%elem_of_tails%Hl. cbn in Hw. lia. }
    pose proof (H false). pose proof (H true). lia.
Qed.

(** The prefixes of a set of words: the empty one, and those of the tails. *)
Lemma split_length P : NoDup P → (length P <= 1 + length (tails false P) + length (tails true P))%nat.
Proof.
  induction 1 as [|w P Hw HP IH]; [cbn; lia|]. destruct w as [|b w].
  - pose proof (tails_length P Hw). change (tails false ([] :: P)) with (tails false P). change (tails true ([] :: P)) with (tails true P). cbn [length]. lia.
  - rewrite !tails_cons. destruct b; cbn; lia.
Qed.

(** A complete set of [k] words is the set of leaves of a tree with [2k-1]
    nodes. *)
Lemma complete_nodes n C P : free C → (∀ w, w ∈ C → (length w <= n)%nat) → words_weight n C = 2 ^ Z.of_nat n →
  NoDup P → (∀ p, p ∈ P → ∃ w, w ∈ C ∧ p `prefix_of` w) → (length P + 1 <= 2 * length C)%nat.
Proof.
  revert C P. induction n as [|n IH]; intros C P Hf Hl Hw HP Hsub; (destruct (nil_dec C) as [->%free_nil|Hn]; [|done|]).
  1, 3: assert (∀ p, p ∈ P → p = []) as H by (intros p (w & ->%list_elem_of_singleton & Hp)%Hsub; by apply prefix_nil_inv in Hp);
    destruct P as [|p [|p' P]]; [cbn; lia..|]; exfalso; apply NoDup_cons in HP as [HP _]; apply HP; rewrite (H p), (H p') by (left || right; left); left.
  - exfalso. destruct C as [|w C]; [done|]. destruct w; [destruct Hn; left|]. specialize (Hl _ ltac:(left)). cbn in Hl. lia.
  - rewrite tails_weight, Nat2Z.inj_succ, Z.pow_succ_r in Hw by (done || lia).
    assert (∀ b w, w ∈ tails b C → (length w <= n)%nat) as Hl' by (intros b w Hw'%elem_of_tails%Hl; cbn in Hw'; lia).
    pose proof (free_weight n _ (tails_free false C Hf) (Hl' false)). pose proof (free_weight n _ (tails_free true C Hf) (Hl' true)).
    assert (∀ b, length (tails b P) + 1 <= 2 * length (tails b C))%nat as H'.
    { intros b. apply IH; [by apply tails_free|by apply Hl'|destruct b; lia|by apply tails_NoDup|].
      intros p (w & Hin & [q ->])%elem_of_tails%Hsub. exists (p ++ q). split; [by apply elem_of_tails|by apply prefix_app_r]. }
    pose proof (H' false). pose proof (H' true). pose proof (split_length P HP). pose proof (tails_length C Hn). lia.
Qed.

(** * Code lengths *)

(** The symbols that have a code, and their codes. *)
Definition used (lens : list Z) : list nat := filter (λ i, 0 < len_at lens i) (seq 0 (length lens)).
Definition words (lens : list Z) : list (list bool) := code_of lens <$> used lens.

Lemma elem_of_used lens i : i ∈ used lens ↔ 0 < len_at lens i ∧ (i < length lens)%nat.
Proof. unfold used. rewrite list_elem_of_filter, elem_of_seq. intuition lia. Qed.

Lemma words_free lens : prefix_code lens → free (words lens).
Proof.
  intros Hp. unfold words. split.
  - apply NoDup_fmap_2_strong; [|apply NoDup_filter, NoDup_seq]. intros i j [Hi _]%elem_of_used [Hj _]%elem_of_used E.
    apply (prefix_free lens Hp); [done..|]. by rewrite E.
  - intros w w' (i & -> & [Hi _]%elem_of_used)%list_elem_of_fmap (j & -> & [Hj _]%elem_of_used)%list_elem_of_fmap Hpre.
    f_equal. by apply (prefix_free lens Hp).
Qed.

(** Sums over the symbols that have a code. *)
Lemma sumZ_filter {A} (f : A → Z) (P : A → Prop) `{∀ x, Decision (P x)} l :
  sumZ (f <$> filter P l) = sumZ ((λ x, if decide (P x) then f x else 0) <$> l).
Proof.
  induction l as [|x l IH]; [done|]. rewrite filter_cons, (fmap_cons _ x l). unfold sumZ in *. cbn [foldr].
  destruct (decide (P x)); cbn [fmap list_fmap foldr]; rewrite IH; lia.
Qed.

Lemma lens_seq lens : lens = len_at lens <$> seq 0 (length lens).
Proof.
  apply list_eq. intros i. rewrite list_lookup_fmap. destruct (lens !! i) as [l|] eqn:E.
  - rewrite lookup_seq_lt by (by eapply lookup_lt_Some). cbn. unfold len_at. by rewrite E.
  - by rewrite lookup_seq_ge by (by apply lookup_ge_None).
Qed.

Lemma used_sum (f : Z → Z) lens : Forall (λ l, 0 <= l <= 15) lens →
  sumZ ((λ i, f (len_at lens i)) <$> used lens) = sumZ ((λ l, if 0 <? l then f l else 0) <$> lens).
Proof.
  intros Hl. unfold used. rewrite sumZ_filter.
  transitivity (sumZ ((λ l, if 0 <? l then f l else 0) <$> (len_at lens <$> seq 0 (length lens)))); [|by rewrite <- lens_seq].
  rewrite <- list_fmap_compose. apply sumZ_ext.
  intros i _. unfold compose. case_decide; [by rewrite (proj2 (Z.ltb_lt _ _))|by rewrite (proj2 (Z.ltb_ge _ _)) by lia].
Qed.

Lemma length_used lens : Forall (λ l, 0 <= l <= 15) lens → Z.of_nat (length (used lens)) = leaf_count lens.
Proof.
  intros Hl. assert (∀ {A} (l : list A), sumZ ((λ _, 1) <$> l) = Z.of_nat (length l)) as Hone.
  { intros A l. induction l as [|x l IH]; [done|]. unfold sumZ in *. cbn [fmap list_fmap foldr length] in *. lia. }
  rewrite <- Hone. rewrite (used_sum (λ _, 1) lens Hl). unfold leaf_count. induction Hl as [|l lens Hl _ IH]; [done|].
  rewrite filter_cons, fmap_cons. unfold sumZ in *. cbn [foldr]. rewrite IH.
  case_decide as Hd; destruct (Z.eqb_spec l 0), (Z.ltb_spec 0 l); cbn [length]; try lia; try done.
Qed.

Lemma words_kraft lens : prefix_code lens → words_weight 15 (words lens) = kraft lens.
Proof.
  intros [Hl _]. unfold words_weight, words, kraft. rewrite <- list_fmap_compose. unfold compose.
  transitivity (sumZ ((λ i, 2 ^ (15 - len_at lens i)) <$> used lens)).
  - apply sumZ_ext. intros i [Hi _]%elem_of_used. rewrite length_code_of, Z2Nat.id by lia. done.
  - by rewrite (used_sum (λ l, 2 ^ (15 - l)) lens Hl).
Qed.

Lemma paths_words lens p : words lens ≠ [] → p ∈ paths lens → ∃ w, w ∈ words lens ∧ p `prefix_of` w.
Proof.
  intros Hne. unfold paths. rewrite elem_of_remove_dups, elem_of_cons, list_elem_of_join.
  assert (∃ w, w ∈ words lens ∧ [] `prefix_of` w) as Hroot.
  { destruct (words lens) as [|w ws]; [done|]. exists w. split; [left|apply prefix_nil]. }
  intros [-> |(ps & Hin & (i & -> & Hi)%list_elem_of_fmap)]; [done|].
  apply list_elem_of_fmap in Hin as (k & -> & _). apply elem_of_seq in Hi.
  destruct (Z.lt_ge_cases 0 (len_at lens i)).
  - exists (code_of lens i). split; [|apply prefix_take]. apply list_elem_of_fmap. exists i. split; [done|]. apply elem_of_used. lia.
  - destruct (code_of lens i) eqn:E; [by rewrite take_nil|].
    apply (f_equal length) in E. rewrite length_code_of in E. cbn in E. lia.
Qed.

(** Lengths as the format wants them: the code is complete, or it has only a
    few bits (a distance code with one word, or none). *)
Definition proper_code (lens : list Z) : Prop := Forall (λ l, 0 <= l <= 15) lens ∧ (kraft lens = 2 ^ 15 ∨ kraft lens <= 2 ^ 15 ∧ sumZ lens <= 15).

#[export] Instance proper_code_dec lens : Decision (proper_code lens).
Proof. unfold proper_code. apply _. Defined.

Lemma proper_prefix lens : proper_code lens → prefix_code lens.
Proof. intros [Hl Hk]. split; [done|]. destruct Hk; lia. Qed.

Lemma complete_fits lens : prefix_code lens → kraft lens = 2 ^ 15 → Z.of_nat (length (paths lens)) <= initial_capacity lens.
Proof.
  intros Hp Hk. assert (words lens ≠ []) as Hne by (intros E; pose proof (words_kraft lens Hp) as H; rewrite E, Hk in H; done).
  pose proof (complete_nodes 15 (words lens) (paths lens) (words_free lens Hp)) as H.
  assert (length (paths lens) + 1 <= 2 * length (words lens))%nat as Hlen.
  { apply H; [|by rewrite words_kraft|apply NoDup_remove_dups|intros p; by apply paths_words].
    intros w (i & -> & _)%list_elem_of_fmap. rewrite length_code_of. pose proof (len_at_range lens Hp i). lia. }
  unfold words in Hlen. rewrite length_fmap in Hlen. pose proof (length_used lens (proj1 Hp)). unfold initial_capacity.
  destruct (Z.ltb_spec 0 (leaf_count lens)), (Z.ltb_spec 16 (leaf_count lens * 2 - 1)); lia.
Qed.

(** The nodes below the root. *)
Definition steps (lens : list Z) : list (list bool) :=
  mjoin ((λ i, (λ k, take (S k) (code_of lens i)) <$> seq 0 (Z.to_nat (len_at lens i))) <$> seq 0 (length lens)).

Lemma length_steps lens : Forall (λ l, 0 <= l <= 15) lens → Z.of_nat (length (steps lens)) = sumZ lens.
Proof.
  intros Hl. rewrite (lens_seq lens) at 2. unfold steps.
  assert (∀ i, 0 <= len_at lens i) as Hpos.
  { intros i. unfold len_at. destruct (lens !! i) as [l|] eqn:E; cbn; [|lia]. rewrite Forall_lookup in Hl. apply Hl in E. lia. }
  rewrite length_join. generalize (seq 0 (length lens)). intros l. induction l as [|i l IH]; [done|].
  csimpl. rewrite length_fmap, length_seq, Nat2Z.inj_add, IH, Z2Nat.id by done. done.
Qed.

Lemma few_fits lens : prefix_code lens → sumZ lens <= 15 → Z.of_nat (length (paths lens)) <= initial_capacity lens.
Proof.
  intros Hp Hs. pose proof (initial_capacity_bounds lens). assert (length (paths lens) <= length ([] :: steps lens))%nat as Hle.
  { apply submseteq_length, NoDup_submseteq; [apply NoDup_remove_dups|]. intros p. unfold paths.
    rewrite elem_of_remove_dups, !elem_of_cons, list_elem_of_join.
    intros [-> |(ps & Hin & (i & -> & Hi)%list_elem_of_fmap)]; [by left|]. apply list_elem_of_fmap in Hin as (k & -> & Hk).
    destruct k as [|k]; [by left|]. right. apply list_elem_of_join. eexists. split; [|apply list_elem_of_fmap; by exists i].
    apply list_elem_of_fmap. exists k. split; [done|]. apply elem_of_seq in Hk. rewrite length_code_of in Hk. apply elem_of_seq. lia. }
  cbn [length] in Hle. pose proof (length_steps lens (proj1 Hp)). lia.
Qed.

Lemma proper_valid lens : Z.of_nat (length lens) < 2 ^ 16 → proper_code lens → valid_lengths lens.
Proof.
  intros Hlen Hc. pose proof (proper_prefix lens Hc) as Hp. split; [done|]. split; [done|].
  destruct Hc as [_ [Hk|[_ Hs]]]; [by apply complete_fits|by apply few_fits].
Qed.
