(* ===== verification/KgzBuf.v ===== *)
(** The output buffer of the decompressor: what the three ways of adding bytes
    append, and that they write nowhere else. *)
From stdpp Require Import base tactics list strings.
From Stdlib Require Import ZArith Lia.
From S2P Require Import Prelude Str Kgz InflateSpec.

(** The first [k] bytes of a memory. *)
Definition bytes_upto (m : mem_t) (k : Z) : list Z := read8 m <$> seqZ 0 k.
Definition contents (b : kgz_buffer) : list Z := bytes_upto (b_data b) (b_size b).

Definition buffer_ok (b : kgz_buffer) : Prop := 0 <= b_size b <= b_capacity b ∧ b_capacity b < 2 ^ 62.

(** [b'] has the bytes of [b] and possibly more; outside the free part of the
    buffer nothing has changed. *)
Record grows (b b' : kgz_buffer) : Prop := {
  gr_capacity : b_capacity b' = b_capacity b;
  gr_size : b_size b <= b_size b' <= b_capacity b;
  gr_data : ∀ x, x < b_size b ∨ b_capacity b <= x → b_data b' x = b_data b x
}.

Lemma grows_refl b : buffer_ok b → grows b b.
Proof. intros [? ?]. split; [done|lia|done]. Qed.

Lemma grows_trans b1 b2 b3 : grows b1 b2 → grows b2 b3 → grows b1 b3.
Proof.
  intros [Hc Hs Hd] [Hc' Hs' Hd']. split; [congruence|lia|]. intros x Hx. rewrite Hd' by lia. by apply Hd.
Qed.

Lemma grows_ok b b' : buffer_ok b → grows b b' → buffer_ok b'.
Proof. intros [? ?] [? ? _]. split; lia. Qed.

Lemma bytes_upto_length m k : length (bytes_upto m k) = Z.to_nat k.
Proof. unfold bytes_upto. by rewrite length_fmap, length_seqZ. Qed.

Lemma bytes_upto_lookup m k i : 0 <= i < k → bytes_upto m k !! Z.to_nat i = Some (read8 m i).
Proof.
  intros H. unfold bytes_upto. rewrite list_lookup_fmap, lookup_seqZ_lt by lia. cbn. do 2 f_equal. lia.
Qed.

Lemma bytes_upto_ext m m' k : (∀ i, 0 <= i < k → read8 m i = read8 m' i) → bytes_upto m k = bytes_upto m' k.
Proof. intros H. apply list_fmap_ext. intros i x [-> Hx]%lookup_seqZ. apply H. lia. Qed.

Lemma bytes_upto_S m k : 0 <= k → bytes_upto m (k + 1) = bytes_upto m k ++ [read8 m k].
Proof. intros Hk. unfold bytes_upto. by rewrite seqZ_app, fmap_app by lia. Qed.

Lemma bytes_upto_write m k v : 0 <= k → bytes_upto (write8 m k v) (k + 1) = bytes_upto m k ++ [v mod 256].
Proof.
  intros Hk. rewrite bytes_upto_S by done. rewrite read8_write8, Z.eqb_refl. f_equal.
  apply bytes_upto_ext. intros i Hi. rewrite read8_write8. by destruct (Z.eqb_spec i k); [lia|].
Qed.

(** * Copies *)

Lemma length_lz77 n dist out : length (lz77 n dist out) = (length out + n)%nat.
Proof.
  revert out. induction n as [|n IH]; intros out; cbn [lz77]; [lia|]. rewrite IH, length_app. cbn. lia.
Qed.

Lemma copy_up_lz77 n dist m k :
  0 < dist <= k → bytes_upto (copy_up n m k (k - dist)) (k + Z.of_nat n) = lz77 n (Z.to_nat dist) (bytes_upto m k).
Proof.
  revert m k. induction n as [|n IH]; intros m k Hd; cbn [copy_up lz77]; [by rewrite Z.add_0_r|].
  replace (k - dist + 1) with (k + 1 - dist) by lia.
  replace (k + Z.of_nat (S n)) with (k + 1 + Z.of_nat n) by lia.
  rewrite IH by lia. f_equal. rewrite bytes_upto_write by lia.
  rewrite (Z.mod_small (read8 m (k - dist))) by apply read8_range. f_equal. rewrite bytes_upto_length.
  replace (Z.to_nat k - Z.to_nat dist)%nat with (Z.to_nat (k - dist)) by lia. by rewrite bytes_upto_lookup by lia.
Qed.

Lemma movsb_copy_up n m dst src : movsb n m dst src = copy_up n m dst src.
Proof. revert m dst src. induction n as [|n IH]; intros m dst src; cbn; [done|]. apply IH. Qed.

Lemma copy_up_out n m dst src x : x < dst ∨ dst + Z.of_nat n <= x → copy_up n m dst src x = m x.
Proof.
  revert m dst src. induction n as [|n IH]; intros m dst src H; cbn [copy_up]; [done|].
  rewrite IH by lia. unfold write8. by destruct (Z.eqb_spec x dst); [lia|].
Qed.

(** Distance 1 repeats the last byte. *)
Lemma lz77_one n out b : lz77 n 1 (out ++ [b]) = out ++ [b] ++ replicate n b.
Proof.
  revert out. induction n as [|n IH]; intros out; cbn [lz77]; [by rewrite app_nil_r|].
  rewrite length_app. cbn [length]. replace (length out + 1 - 1)%nat with (length out) by lia.
  rewrite list_lookup_middle by done. cbn [from_option]. unfold id. rewrite IH. by rewrite <- app_assoc.
Qed.

Lemma memset_upto m k c n : 0 <= k → 0 <= n → bytes_upto (memset_bytes m k c n) (k + n) = bytes_upto m k ++ replicate (Z.to_nat n) (c mod 256).
Proof.
  intros Hk Hn. apply list_eq. intros i. destruct (decide (Z.of_nat i < k + n)).
  - rewrite <- (Nat2Z.id i) at 1. rewrite bytes_upto_lookup by lia. destruct (decide (Z.of_nat i < k)).
    + rewrite lookup_app_l by (rewrite bytes_upto_length; lia). rewrite <- (Nat2Z.id i) at 2. rewrite bytes_upto_lookup by lia.
      f_equal. apply read8_memset_out. lia.
    + rewrite lookup_app_r by (rewrite bytes_upto_length; lia). rewrite bytes_upto_length.
      rewrite lookup_replicate_2 by lia. f_equal. apply read8_memset_in. lia.
  - rewrite !lookup_ge_None_2; [done|..]; rewrite ?length_app, ?length_replicate, bytes_upto_length; lia.
Qed.

Lemma copy_from_upto n m k src i :
  0 <= k → 0 <= i → (∀ j, 0 <= src j < 256) →
  bytes_upto (copy_from n m k src i) (k + i + Z.of_nat n) = bytes_upto m (k + i) ++ (src <$> seqZ i (Z.of_nat n)).
Proof.
  intros Hk Hi Hsrc. revert m i Hi. induction n as [|n IH]; intros m i Hi; cbn [copy_from].
  { rewrite Z.add_0_r. cbn. by rewrite app_nil_r. }
  replace (k + i + Z.of_nat (S n)) with (k + (i + 1) + Z.of_nat n) by lia. rewrite IH by lia.
  replace (k + (i + 1)) with (k + i + 1) by lia. rewrite bytes_upto_write, <- app_assoc by lia. f_equal. rewrite (Z.mod_small (src i)) by apply Hsrc.
  rewrite Nat2Z.inj_succ, (seqZ_cons i) by lia. cbn. rewrite Z.pred_succ. f_equal.
Qed.

Lemma copy_from_out n m k src i x : x < k + i ∨ k + i + Z.of_nat n <= x → copy_from n m k src i x = m x.
Proof.
  revert m i. induction n as [|n IH]; intros m i H; cbn [copy_from]; [done|].
  rewrite IH by lia. unfold write8. by destruct (Z.eqb_spec x (k + i)); [lia|].
Qed.

(** * The operations: each succeeds with what it appends, or fails and leaves
    the buffer as it was *)

Lemma buffer_insert_ok byte b :
  buffer_ok b → ∃ ok b', kgz_buffer_insert byte b = Ok (ok, b') ∧ grows b b' ∧
    (b_size b < b_capacity b → ok = true ∧ b_size b' = b_size b + 1 ∧ contents b' = contents b ++ [byte mod 256] ∧ b_printed b' = b_printed b) ∧
    (b_size b = b_capacity b → ok = false ∧ b_size b' = b_size b).
Proof.
  intros [Hs Hc]. unfold kgz_buffer_insert. erewrite bind_ok; [|reflexivity].
  destruct (Z.leb_spec (b_capacity b) (b_size b)).
  - eexists _, _. split; [reflexivity|]. split; [split; cbn; done || lia|]. split; [lia|done].
  - rewrite u64_id by (unfold is_u64; lia). eexists _, _. split; [reflexivity|]. split.
    + split; cbn; [done|lia|]. intros x Hx. unfold write8. by destruct (Z.eqb_spec x (b_size b)); [lia|].
    + split; [|lia]. intros _. split_and!; [done|done| |done]. unfold contents. cbn. apply bytes_upto_write; lia.
Qed.

Lemma buffer_insert_bulk_ok src len b :
  buffer_ok b → 0 <= len < 2 ^ 62 →
  ∃ ok b', kgz_buffer_insert_bulk src len b = Ok (ok, b') ∧ grows b b' ∧
    (b_size b + len <= b_capacity b → (∀ j, 0 <= src j < 256) →
      ok = true ∧ contents b' = contents b ++ (src <$> seqZ 0 len) ∧ b_printed b' = b_printed b) ∧
    (b_capacity b < b_size b + len → ok = false).
Proof.
  intros [Hs Hc] Hlen. unfold kgz_buffer_insert_bulk. erewrite bind_ok; [|reflexivity].
  rewrite u64_id by (unfold is_u64; lia). destruct (Z.ltb_spec (b_capacity b) (b_size b + len)).
  - eexists _, _. split; [reflexivity|]. split; [split; cbn; done || lia|]. split; [lia|done].
  - eexists _, _. split; [reflexivity|]. split.
    + split; cbn; [done|lia|]. intros x Hx. apply copy_from_out. lia.
    + split; [|lia]. intros _ Hsrc. split_and!; [done| |done]. unfold contents. cbn.
      pose proof (copy_from_upto (Z.to_nat len) (b_data b) (b_size b) src 0 ltac:(lia) ltac:(lia) Hsrc) as E.
      by rewrite Z2Nat.id, Z.add_0_r in E by lia.
Qed.

(** The three cases of the back copy write the same bytes. *)
Lemma lz77copy_data distance len d k :
  0 < distance <= k → 0 <= len →
  bytes_upto (if distance =? 1 then memset_bytes d k (read8 d (k - distance)) len
              else if len <=? distance then movsb (Z.to_nat len) d k (k - distance)
              else copy_up (Z.to_nat len) d k (k - distance)) (k + len) =
  lz77 (Z.to_nat len) (Z.to_nat distance) (bytes_upto d k).
Proof.
  intros Hd Hl. pose proof (copy_up_lz77 (Z.to_nat len) distance d k Hd) as E. rewrite Z2Nat.id in E by done.
  destruct (Z.eqb_spec distance 1) as [->|].
  - rewrite memset_upto by lia. rewrite (Z.mod_small (read8 _ _)) by apply read8_range.
    replace k with (k - 1 + 1) at 1 3 by lia. rewrite bytes_upto_S by lia. change (Z.to_nat 1) with 1%nat.
    by rewrite lz77_one, <- app_assoc.
  - destruct (len <=? distance); [rewrite movsb_copy_up|]; exact E.
Qed.

Lemma buffer_lz77copy_ok distance len b :
  buffer_ok b → 0 < distance → 0 <= len < 2 ^ 62 →
  ∃ ok b', kgz_buffer_lz77copy distance len b = Ok (ok, b') ∧ grows b b' ∧
    (distance <= b_size b → b_size b + len <= b_capacity b →
      ok = true ∧ b_size b' = b_size b + len ∧ contents b' = lz77 (Z.to_nat len) (Z.to_nat distance) (contents b) ∧ b_printed b' = b_printed b) ∧
    (b_size b < distance ∨ b_capacity b < b_size b + len → ok = false ∧ b_size b' = b_size b).
Proof.
  intros [Hs Hc] Hd Hlen. unfold kgz_buffer_lz77copy. erewrite bind_ok; [|reflexivity].
  rewrite u64_id by (unfold is_u64; lia). destruct (Z.ltb_spec (b_size b) distance).
  - eexists _, _. split; [reflexivity|]. split; [split; cbn; done || lia|]. split; [lia|done].
  - destruct (Z.ltb_spec (b_capacity b) (b_size b + len)).
    + eexists _, _. split; [reflexivity|]. split; [split; cbn; done || lia|]. split; [lia|done].
    + eexists _, _. split; [reflexivity|]. split.
      * split; cbn; [done|lia|]. intros x Hx. destruct (distance =? 1).
        -- unfold memset_bytes. destruct (Z.leb_spec (b_size b) x), (Z.ltb_spec x (b_size b + len)); done || lia.
        -- rewrite movsb_copy_up. destruct (len <=? distance); apply copy_up_out; lia.
      * split; [|lia]. intros _ _. split_and!; [done|done| |done]. unfold contents. cbn. apply lz77copy_data; lia.
Qed.
