(* ===== verification/InflateInv.v ===== *)
(** The decompressor ([Inflate]) refines the reference definition of deflate
    streams ([InflateSpec]). *)
From stdpp Require Import base tactics list strings.
From Stdlib Require Import ZArith Lia.
From S2P Require Import Prelude Str Kgz Inflate InflateSpec HuffCode KgzBits KgzTree KgzHuff HuffComplete KgzBuf.

(** * Tables *)

(** A fact about the entries of a table, checked on all of them. *)
Lemma check_table {A} (f : Z → option A) (P : Z → A → Prop) `{∀ c a, Decision (P c a)} k c a :
  f c = Some a → 0 <= c < k →
  forallb (λ c, match f c with Some a => bool_decide (P c a) | None => true end) (seqZ 0 k) = true →
  P c a.
Proof.
  intros E Hc Hall. rewrite forallb_forall in Hall. specialize (Hall c ltac:(apply list_elem_of_In, elem_of_seqZ; lia)).
  rewrite E in Hall. by apply bool_decide_eq_true in Hall.
Qed.

(** The tables of the source are the formulas of the reference. *)
Lemma length_tables c base extra : 0 <= c → length_code c = Some (base, extra) →
  kgz_length_extra_bits !! Z.to_nat c = Some extra ∧ kgz_base_length !! Z.to_nat c = Some base ∧ c < 29 ∧
  0 <= extra <= 5 ∧ 3 <= base ∧ base + 2 ^ extra <= 2 ^ 9.
Proof.
  intros H0 E. assert (c < 29) as H29.
  { unfold length_code in E. destruct (Z.ltb_spec c 8), (Z.ltb_spec c 28), (Z.eqb_spec c 28); try done; lia. }
  pose proof (check_table length_code (λ c '(base, extra), kgz_length_extra_bits !! Z.to_nat c = Some extra ∧ kgz_base_length !! Z.to_nat c = Some base ∧
    0 <= extra <= 5 ∧ 3 <= base ∧ base + 2 ^ extra <= 2 ^ 9) 29 c _ E ltac:(lia) ltac:(by vm_compute)). cbn in *. tauto.
Qed.

Lemma dist_tables c base extra : 0 <= c → dist_code c = Some (base, extra) →
  kgz_dist_extra_bits !! Z.to_nat c = Some extra ∧ kgz_base_dist !! Z.to_nat c = Some base ∧ c < 30 ∧
  0 <= extra <= 13 ∧ 1 <= base ∧ base + 2 ^ extra <= 2 ^ 16.
Proof.
  intros H0 E. assert (c < 30) as H30.
  { unfold dist_code in E. destruct (Z.ltb_spec c 4), (Z.ltb_spec c 30); try done; lia. }
  pose proof (check_table dist_code (λ c '(base, extra), kgz_dist_extra_bits !! Z.to_nat c = Some extra ∧ kgz_base_dist !! Z.to_nat c = Some base ∧
    0 <= extra <= 13 ∧ 1 <= base ∧ base + 2 ^ extra <= 2 ^ 16) 30 c _ E ltac:(lia) ltac:(by vm_compute)). cbn in *. tauto.
Qed.

Lemma load_at_ok {S A} (arr : list A) i x (s : S) : 0 <= i → arr !! Z.to_nat i = Some x → load_at arr i s = Ok (x, s).
Proof.
  intros Hi E. unfold load_at, index_ok. rewrite E. apply lookup_lt_Some in E.
  destruct (Z.leb_spec 0 i), (Z.ltb_spec i (Z.of_nat (length arr))); try lia. done.
Qed.

(** * The context *)
Section inflate.
Context (d : cstring) (n : Z).
Hypothesis d_bytes : ∀ i, 0 <= d i < 256.
Hypothesis n_small : 0 <= n < 2 ^ 58.

(** The stream stands at bit [p] and [out] has been written; [b0] is the buffer
    at the beginning. *)
Record ctx_at (b0 : kgz_buffer) (p : Z) (out : list Z) (c : kgz_decompression_context) : Prop := {
  cx_stream : at_pos d n p (bitstream c);
  cx_pos : p <= 8 * n;
  cx_out : contents (output_buffer c) = out;
  cx_size : b_size (output_buffer c) = Z.of_nat (length out);
  cx_buffer : buffer_ok (output_buffer c);
  cx_grows : grows b0 (output_buffer c);
  cx_printed : b_printed (output_buffer c) = b_printed b0;
  cx_arena : arena_ok (arena_alloc c) ∧ a_capacity (arena_alloc c) = ARENA_SIZE;
  cx_tree : tree_ok fixed_lens (fixed_huffman_tree c)
}.

Lemma wp_stream {A} (m : M kgz_bitstream A) b0 p out c Q (P : A → kgz_bitstream → Prop) :
  ctx_at b0 p out c → wp m (bitstream c) P →
  (∀ a c', P a (bitstream c') → (∀ p', at_pos d n p' (bitstream c') → p' <= 8 * n → ctx_at b0 p' out c') →
    output_buffer c' = output_buffer c → arena_alloc c' = arena_alloc c → Q a c') →
  wp (stream m) c Q.
Proof.
  intros [H1 H2 H3 H4 H5 H6 H7 H8 H9] Hm HQ. apply wp_zoom. eapply wp_mono; [exact Hm|]. intros a s' HP.
  apply HQ; [done| |done..]. intros p' Hp' Hle. by split.
Qed.

(** Reading a number. *)
Lemma getbits_ctx b0 p out c k v bs :
  ctx_at b0 p out c → 0 <= k <= 32 → take_num k (rest d n p) = Some (v, bs) →
  wp (stream (kgz_bitstream_getbits k)) c (λ r c', r = v ∧ 0 <= v < 2 ^ k ∧ arena_alloc c' = arena_alloc c ∧
    ∃ p', p' = p + k ∧ ctx_at b0 p' out c' ∧ bs = rest d n p').
Proof.
  intros Hc Hk Hv. destruct (take_num_rest d n p k v bs) as (-> & -> & Hle); [lia|apply Hc|done|].
  eapply wp_stream; [done|apply getbits_ok with (p := p) (d := d) (n := n); try done; [apply Hc|lia]|].
  intros r c' [-> Hs'] Hkeep _ Ha. split; [done|]. split; [|split; [done|]].
  - pose proof (field_range (sbit d n) p (Z.to_nat k)) as Hf. by rewrite Z2Nat.id in Hf by lia.
  - exists (p + k). split_and!; [done| |done]. by apply Hkeep.
Qed.

(** A symbol of a tree. *)
Lemma lookup_ctx b0 p out c lens t sym bs :
  ctx_at b0 p out c → prefix_code lens → tree_ok lens t →
  decode_symbol (codes lens) 0 (rest d n p) = Some (sym, bs) →
  0 <= sym < Z.of_nat (length lens) ∧
  wp (stream (kgz_huffman_tree_lookup t)) c (λ r c', r = Some sym ∧ arena_alloc c' = arena_alloc c ∧
    ∃ p', p < p' ∧ ctx_at b0 p' out c' ∧ bs = rest d n p').
Proof.
  intros Hc Hp Ht Hd. destruct (lookup_decode lens t Hp Ht d n p (bitstream c) sym bs) as [Hs Hw]; try done; try apply Hc.
  split; [done|]. eapply wp_stream; [done|exact Hw|].
  intros r c' [-> (p' & Hs' & -> & Hlt)] Hkeep _ Ha. split; [done|]. split; [done|]. exists p'. split_and!; [lia| |done]. apply Hkeep; [done|lia].
Qed.

(** * Stored blocks *)

Lemma take_bytes_rest k q vs bs :
  0 <= q → q <= n → take_bytes_of k (rest d n (8 * q)) = Some (vs, bs) →
  vs = d <$> seqZ q (Z.of_nat k) ∧ bs = rest d n (8 * (q + Z.of_nat k)) ∧ q + Z.of_nat k <= n.
Proof.
  intros Hq. revert q vs bs Hq. induction k as [|k IH]; intros q vs bs Hq Hn; cbn [take_bytes_of].
  { intros [= <- <-]. rewrite Z.add_0_r. by split_and!. }
  intros ([v bs1] & Hv & ([vs2 bs2] & Hvs & [= <- <-])%bind_Some)%bind_Some.
  apply take_num_rest in Hv as (-> & -> & Hle); [|lia..].
  replace (8 * q + 8) with (8 * (q + 1)) in Hvs by lia. apply IH in Hvs as (-> & -> & Hle'); [|lia..].
  rewrite <- byte_field by (done || lia). split_and!; [|f_equal; lia|lia].
  rewrite Nat2Z.inj_succ, (seqZ_cons q) by lia. cbn [fmap list_fmap]. rewrite Z.pred_succ. done.
Qed.

Lemma rest_align p : 0 <= p <= 8 * n →
  drop (length (rest d n p) mod 8) (rest d n p) = rest d n (8 * ((p + 7) / 8)) ∧ (p + 7) / 8 <= n.
Proof.
  intros Hp. rewrite length_rest.
  assert (Z.to_nat (8 * n - p) mod 8 = Z.to_nat (8 * ((p + 7) / 8) - p))%nat as ->.
  { apply Nat2Z.inj. rewrite Nat2Z.inj_mod, !Z2Nat.id by (Z.div_mod_to_equations; lia). change (Z.of_nat 8) with 8.
    Z.div_mod_to_equations. lia. }
  rewrite drop_rest by (Z.div_mod_to_equations; lia). split; [f_equal; lia|Z.div_mod_to_equations; lia].
Qed.

Lemma not_nlen len nlen : 0 <= len < 2 ^ 16 → 0 <= nlen < 2 ^ 16 →
  (len =? Z.land (Z.lnot nlen) 0xffff) = (len + nlen =? 2 ^ 16 - 1).
Proof.
  intros Hl Hn. change 0xffff with (Z.ones 16). rewrite Z.land_ones by lia.
  assert (Z.lnot nlen mod 2 ^ 16 = 2 ^ 16 - 1 - nlen) as ->.
  { unfold Z.lnot. rewrite <- (Z.mod_add _ 1) by lia. rewrite Z.mod_small by lia. lia. }
  destruct (Z.eqb_spec len (2 ^ 16 - 1 - nlen)), (Z.eqb_spec (len + nlen) (2 ^ 16 - 1)); done || lia.
Qed.

Lemma handle_stored_ok b0 p out c out' bs :
  ctx_at b0 p out c → 0 <= p → stored_block out (rest d n p) = Some (out', bs) → Z.of_nat (length out') <= b_capacity b0 →
  wp kgz_dflt_handle_stored c (λ r c', r = true ∧ ∃ p', p <= p' ∧ ctx_at b0 p' out' c' ∧ bs = rest d n p').
Proof.
  intros Hc Hp. unfold stored_block. destruct (rest_align p) as [-> Hq]; [split; [done|apply Hc]|].
  set (q := (p + 7) / 8) in *. assert (p <= 8 * q) as Hpq by (subst q; Z.div_mod_to_equations; lia).
  intros ([len bs1] & Hlen & ([nlen bs2] & Hnlen & H)%bind_Some)%bind_Some Hcap.
  apply take_num_rest in Hlen as (-> & -> & Hle1); [|lia..].
  replace (8 * q + 16) with (8 * (q + 2)) in Hnlen by lia. apply take_num_rest in Hnlen as (-> & -> & Hle2); [|lia..].
  change (Z.to_nat 16) with 16%nat in *.
  destruct (Z.eqb_spec (field (sbit d n) (8 * q) 16 + field (sbit d n) (8 * (q + 2)) 16) (2 ^ 16 - 1)) as [Esum|]; [|done].
  apply bind_Some in H as ([vs bs3] & Hvs & [= <- <-]).
  replace (8 * (q + 2) + 16) with (8 * (q + 4)) in Hvs by lia. apply take_bytes_rest in Hvs as (-> & -> & Hle3); [|lia..].
  pose proof (field_range (sbit d n) (8 * q) 16) as Hr1. pose proof (field_range (sbit d n) (8 * (q + 2)) 16) as Hr2.
  change (2 ^ Z.of_nat 16) with (2 ^ 16) in *. rewrite Z2Nat.id in * by lia.
  set (len := field (sbit d n) (8 * q) 16) in *. set (nlen := field (sbit d n) (8 * (q + 2)) 16) in *.
  unfold kgz_dflt_handle_stored.
  eapply wp_bind, wp_stream; [done|eapply align_ok; [done|apply Hc|destruct Hc; lia]|]. intros [] c1 Hs1 Hk1 Hb1 _. fold q in Hs1.
  specialize (Hk1 _ (empty_at_pos d n _ _ Hs1) ltac:(lia)).
  eapply wp_bind, wp_stream; [done|eapply read_u16_ok; [done..|lia]|]. intros r c2 [-> Hs2] Hk2 Hb2 _.
  specialize (Hk2 _ (empty_at_pos d n _ _ Hs2) ltac:(lia)).
  eapply wp_bind, wp_stream; [done|eapply read_u16_ok; [done..|lia]|]. intros r c3 [-> Hs3] Hk3 Hb3 _.
  specialize (Hk3 _ (empty_at_pos d n _ _ Hs3) ltac:(lia)). fold len nlen. clearbody len nlen.
  rewrite not_nlen, Esum by done. cbn [negb Z.eqb]. rewrite Z.eqb_refl. cbn [negb]. wp_step.
  destruct Hs3 as (Es & _ & _). rewrite Es. cbn [current_byte data_len s_data]. replace (q + 2 + 2) with (q + 4) in * by lia.
  rewrite u64_id by (unfold is_u64; lia). destruct (Z.ltb_spec (n - (q + 4)) len); [lia|].
  destruct Hk3 as [H1 H2 H3 H4 H5 H6 H7 H8 H9]. rewrite length_app, length_fmap, length_seqZ in Hcap.
  destruct (buffer_insert_bulk_ok (advance (q + 4) d) len (output_buffer c3)) as (ok & b' & E & Hg & Hok & _); [done|lia|].
  destruct Hok as (-> & Hout & Hpr); [rewrite H4, (gr_capacity _ _ H6); lia|intros j; apply d_bytes|].
  eapply wp_bind, wp_zoom, wp_ok; [exact E|]. cbn [negb].
  eapply wp_bind, wp_zoom. wp_step. wp_step. split; [done|]. exists (8 * (q + 4 + len)).
  split; [lia|]. rewrite Es. cbn [bitstream output_buffer arena_alloc fixed_huffman_tree s_data data_len current_byte current_bit bit_buffer bits_in_buffer].
  rewrite u64_id by (unfold is_u64; lia).
  assert ((d <$> seqZ (q + 4) len) = advance (q + 4) d <$> seqZ 0 len) as Eq.
  { rewrite <- (Z.add_0_r (q + 4)) at 1. rewrite <- fmap_add_seqZ, <- list_fmap_compose. done. }
  split; [|done]. rewrite Eq, <- H3, <- Hout.
  split; cbn; try done; try lia.
  - apply empty_at_pos. unfold empty_at. split_and!; done || lia.
  - unfold contents. rewrite bytes_upto_length. destruct (grows_ok _ _ H5 Hg). lia.
  - by eapply grows_ok.
  - by eapply grows_trans.
  - congruence.
Qed.

(** * Compressed blocks *)

(** The tree of the distance codes; none in a block with fixed codes. *)
Definition dist_ok (dtree : option kgz_huffman_tree) (dlens : list Z) : Prop :=
  match dtree with
  | Some t => prefix_code dlens ∧ tree_ok dlens t
  | None => dlens = fixed_dist_lens
  end.

(** The fixed distance codes are the numbers of their symbols. *)
Lemma fixed_dist_code (i : nat) : (i < 32)%nat → code_number fixed_dist_lens i = Z.of_nat i ∧ len_at fixed_dist_lens i = 5.
Proof.
  intros Hi. assert (Forall (λ i : nat, code_number fixed_dist_lens i = Z.of_nat i ∧ len_at fixed_dist_lens i = 5) (seq 0 32)) as H
    by (repeat constructor).
  rewrite Forall_forall in H. apply H, list_elem_of_In, in_seq. lia.
Qed.

Lemma reverse5_bits b i : 0 <= b < 32 → 0 <= i < 32 → (∀ k, 0 <= k < 5 → Z.testbit b k = Z.testbit i (4 - k)) → reverse5 5 b 0 = i.
Proof.
  intros Hb Hi H. assert (reverse5 5 b 0 = bit_reverse b 5) as ->.
  { assert (Forall (λ b, reverse5 5 b 0 = bit_reverse b 5) (seqZ 0 32)) as Hall by (repeat constructor).
    rewrite Forall_forall in Hall. apply Hall, elem_of_seqZ. lia. }
  rewrite <- (bit_reverse_involutive i 5) by lia. f_equal. apply Z.bits_inj'. intros k Hk.
  rewrite bit_reverse_testbit by lia. destruct (Z.ltb_spec k 5); cbn [andb].
  - by rewrite H by lia.
  - rewrite <- (Z.mod_small b (2 ^ 5)) by lia. apply Z.mod_pow2_bits_high. lia.
Qed.

Lemma read_distance_ok b0 p out c dtree dlens sym bs :
  ctx_at b0 p out c → dist_ok dtree dlens → decode_symbol (codes dlens) 0 (rest d n p) = Some (sym, bs) →
  0 <= sym ∧ wp (read_distance_symbol dtree) c (λ r c', r = Some sym ∧ ∃ p', p < p' ∧ ctx_at b0 p' out c' ∧ bs = rest d n p').
Proof.
  intros Hc Hdist Hs. unfold read_distance_symbol. destruct dtree as [t|].
  { destruct Hdist as [Hp Ht]. destruct (lookup_ctx b0 p out c dlens t sym bs) as [? Hw]; try done. split; [lia|].
    eapply wp_mono; [exact Hw|]. intros r c' (-> & _ & ?). by split. }
  unfold dist_ok in Hdist. subst dlens. apply decode_codes in Hs as (i & -> & Hi & _ & Hpre & ->). split; [lia|].
  change (length fixed_dist_lens) with 32%nat in Hi. destruct (fixed_dist_code i Hi) as [Ecode Elen].
  apply prefix_length in Hpre as Hlen. rewrite length_code_of, length_rest, Elen in Hlen. pose proof (cx_pos _ _ _ _ Hc).
  rewrite Elen. change (Z.to_nat 5) with 5%nat. assert (take_num 5 (rest d n p) = Some (field (sbit d n) p 5, drop 5 (rest d n p))) as Htake.
  { unfold take_num. rewrite length_rest, decide_True by lia. change (Z.to_nat 5) with 5%nat. by rewrite number_take_rest by lia. }
  eapply wp_bind, wp_mono; [eapply getbits_ctx; [done| |exact Htake]; lia|].
  intros r c' (-> & Hr & _ & p' & -> & Hc' & ->). wp_step. split; [|exists (p + 5); split_and!; done || lia].
  f_equal. unfold u16. rewrite Z.mod_small by lia. apply reverse5_bits; [lia|lia|].
  intros k Hk. rewrite field_testbit by lia. destruct (Z.ltb_spec k (Z.of_nat 5)); [|lia]. cbn [andb].
  assert (code_of fixed_dist_lens i !! Z.to_nat k = Some (Z.testbit (Z.of_nat i) (4 - k))) as Hb.
  { unfold code_of. rewrite Ecode, Elen, code_bits_lookup by lia. done. }
  pose proof (prefix_lookup_Some _ _ _ _ Hb Hpre) as E. rewrite rest_lookup, Z2Nat.id in E by lia. congruence.
Qed.

Lemma decode_block_mono fuel lit dist out bs out' bs' :
  decode_block fuel lit dist out bs = Some (out', bs') → (length out <= length out')%nat.
Proof.
  revert out bs. induction fuel as [|fuel IH]; intros out bs; cbn [decode_block]; [done|].
  intros ([sym bs1] & _ & H)%bind_Some. destruct (sym <? 256); [|destruct (sym =? 256)].
  - apply IH in H. rewrite length_app in H. lia.
  - by injection H as <- _.
  - apply bind_Some in H as ([base extra] & _ & ([e bs2] & _ & ([ds bs3] & _ & ([db de] & _ & ([dv bs4] & _ & H)%bind_Some)%bind_Some)%bind_Some)%bind_Some).
    destruct (_ <? _); [done|]. apply IH in H. rewrite length_lz77 in H. lia.
Qed.

(** The output buffer changes, everything else stays. *)
Lemma ctx_buffer b0 p out c b' out' :
  ctx_at b0 p out c → grows (output_buffer c) b' → contents b' = out' → b_printed b' = b_printed (output_buffer c) →
  ctx_at b0 p out' (mk_context (fixed_huffman_tree c) (bitstream c) b' (arena_alloc c)).
Proof.
  intros [H1 H2 H3 H4 H5 H6 H7 H8 H9] Hg <- Hpr. pose proof (grows_ok _ _ H5 Hg) as [Hb ?]. split; cbn; try done.
  - unfold contents. rewrite bytes_upto_length. lia.
  - by eapply grows_trans.
  - congruence.
Qed.

Lemma handle_match_ok b0 p out c dtree dlens sym base extra e bs1 dsym bs2 dbase dextra de bs3 :
  ctx_at b0 p out c → dist_ok dtree dlens → 257 <= sym →
  length_code (sym - 257) = Some (base, extra) → take_num extra (rest d n p) = Some (e, bs1) →
  decode_symbol (codes dlens) 0 bs1 = Some (dsym, bs2) → dist_code dsym = Some (dbase, dextra) →
  take_num dextra bs2 = Some (de, bs3) → dbase + de <= Z.of_nat (length out) →
  Z.of_nat (length out) + base + e <= b_capacity b0 →
  wp (handle_match dtree sym) c (λ r c', r = true ∧ ∃ p', p <= p' ∧
    ctx_at b0 p' (lz77 (Z.to_nat (base + e)) (Z.to_nat (dbase + de)) out) c' ∧ bs3 = rest d n p').
Proof.
  intros Hc Hdist Hsym Hlc He Hds Hdc Hde Hback Hcap.
  destruct (length_tables (sym - 257) base extra) as (E1 & E2 & _ & Hx & Hbase & Hmax); [lia|done|].
  unfold handle_match. eapply wp_bind, wp_ok; [apply load_at_ok; [lia|done]|]. eapply wp_bind, wp_ok; [apply load_at_ok; [lia|done]|].
  eapply wp_bind, wp_mono; [eapply getbits_ctx; [done| |exact He]; lia|]. intros r c1 (-> & Her & _ & p1 & Ep1 & Hc1 & ->).
  unfold u16. rewrite (Z.mod_small e), (Z.mod_small (base + e)) by lia.
  destruct (read_distance_ok b0 p1 out c1 dtree dlens dsym bs2) as [Hdsym Hw]; [done..|].
  eapply wp_bind, wp_mono; [exact Hw|]. intros r c2 (-> & p2 & Hp2 & Hc2 & ->).
  destruct (dist_tables _ _ _ Hdsym Hdc) as (E3 & E4 & _ & Hdx & Hdbase & Hdmax).
  eapply wp_bind, wp_ok; [apply load_at_ok; done|].
  eapply wp_bind, wp_mono; [eapply getbits_ctx; [done| |exact Hde]; lia|]. intros r c3 (-> & Hder & _ & p3 & Ep3 & Hc3 & ->).
  eapply wp_bind, wp_ok; [apply load_at_ok; done|]. rewrite (Z.mod_small de), (Z.mod_small (dbase + de)) by lia.
  pose proof (cx_size _ _ _ _ Hc3) as Hsz. pose proof (gr_capacity _ _ (cx_grows _ _ _ _ Hc3)) as Hcp.
  destruct (buffer_lz77copy_ok (dbase + de) (base + e) (output_buffer c3)) as (ok & b' & Ecopy & Hg & Hok & _); [apply Hc3|lia|lia|].
  destruct Hok as (-> & _ & Hout & Hpr); [lia|lia|]. apply wp_zoom. eapply wp_ok; [exact Ecopy|]. split; [done|].
  exists p3. split_and!; [lia| |done]. apply ctx_buffer with (out := out); [done|done| |done]. by rewrite Hout, (cx_out _ _ _ _ Hc3).
Qed.

(** The loop over the symbols of a block. *)
Lemma huffman_loop_ok b0 ltree llens dtree dlens p out c fuel out' bs :
  prefix_code llens → tree_ok llens ltree → dist_ok dtree dlens → ctx_at b0 p out c → 0 <= p → Z.of_nat fuel < 2 ^ 63 →
  decode_block fuel (codes llens) (codes dlens) out (rest d n p) = Some (out', bs) → Z.of_nat (length out') <= b_capacity b0 →
  wp (while_ (huffman_round ltree dtree) tt) c (λ r c', r = true ∧ ∃ p', p <= p' ∧ ctx_at b0 p' out' c' ∧ bs = rest d n p').
Proof.
  intros Hpc Ht Hdist Hc Hp Hfuel Hdec Hcap.
  apply (wp_while _ (λ m _ c, ∃ fuel p1 out1, m = Z.of_nat fuel ∧ p <= p1 ∧ ctx_at b0 p1 out1 c ∧
    decode_block fuel (codes llens) (codes dlens) out1 (rest d n p1) = Some (out', bs)) _) with (n := Z.of_nat fuel); [|lia|by exists fuel, p, out].
  clear fuel Hfuel Hc Hdec out c. intros m [] c _ (fuel & p1 & out & -> & Hp1 & Hc & Hdec).
  destruct fuel as [|fuel]; [done|]. cbn [decode_block] in Hdec. apply bind_Some in Hdec as ([sym bs1] & Hsym & Hdec).
  destruct (lookup_ctx b0 p1 out c llens ltree sym bs1) as [Hrange Hw]; try done.
  unfold huffman_round. wp_step.
  assert (p1 < 8 * n) as Hlt.
  { apply decode_codes in Hsym as (i & _ & _ & Hl & Hpre & _). apply prefix_length in Hpre. rewrite length_code_of, length_rest in Hpre. lia. }
  destruct (cx_stream _ _ _ _ Hc) as [_ -> Hpos Hbit _ _ _ _]. destruct (Z.leb_spec n (current_byte (bitstream c))); [lia|].
  eapply wp_bind, wp_mono; [exact Hw|]. intros r c1 (-> & _ & p2 & Hp2 & Hc1 & ->).
  destruct (Z.ltb_spec sym 256).
  - pose proof (decode_block_mono _ _ _ _ _ _ _ Hdec) as Hmono. rewrite length_app in Hmono. cbn in Hmono.
    pose proof (cx_size _ _ _ _ Hc1) as Hsz. pose proof (gr_capacity _ _ (cx_grows _ _ _ _ Hc1)) as Hcp.
    destruct (buffer_insert_ok (u8 sym) (output_buffer c1)) as (ok & b' & E & Hg & Hok & _); [apply Hc1|].
    destruct Hok as (-> & _ & Hout & Hpr); [lia|]. eapply wp_bind, wp_zoom, wp_ok; [exact E|]. cbn [negb]. wp_step.
    exists (Z.of_nat fuel). split; [lia|]. exists fuel, p2, (out ++ [sym]). split_and!; [done|lia| |done].
    apply ctx_buffer with (out := out); [done|done| |done]. rewrite Hout, (cx_out _ _ _ _ Hc1). unfold u8. by rewrite Z.mod_mod, Z.mod_small by lia.
  - destruct (Z.eqb_spec sym 256).
    + injection Hdec as <- <-. wp_step. split; [done|]. exists p2. split_and!; [lia|done..].
    + apply bind_Some in Hdec as ([base extra] & Hlc & ([e bs2] & He & ([ds bs3] & Hds & ([db dx] & Hdc & ([de bs4] & Hde & Hdec)%bind_Some)%bind_Some)%bind_Some)%bind_Some).
      destruct (Z.ltb_spec (Z.of_nat (length out)) (db + de)); [done|].
      pose proof (decode_block_mono _ _ _ _ _ _ _ Hdec) as Hmono. rewrite length_lz77 in Hmono.
      eapply wp_bind, wp_mono; [eapply handle_match_ok with (out := out); try done; lia|].
      intros r c2 (-> & p3 & Hp3 & Hc2 & ->). cbn [negb]. wp_step. exists (Z.of_nat fuel). split; [lia|].
      exists fuel, p3, (lz77 (Z.to_nat (base + e)) (Z.to_nat (db + de)) out). split_and!; [done|lia|done..].
Qed.

(** * Code lengths *)

Lemma field_land f p k j m : (j + m <= k)%nat →
  Z.land (Z.shiftr (field f p k) (Z.of_nat j)) (Z.ones (Z.of_nat m)) = field f (p + Z.of_nat j) m.
Proof.
  intros H. apply field_unique. intros i Hi. rewrite Z.land_spec, Z.shiftr_spec, field_testbit, Z.testbit_ones_nonneg by lia.
  destruct (Z.ltb_spec i (Z.of_nat m)); [|by rewrite andb_false_r].
  destruct (Z.ltb_spec (i + Z.of_nat j) (Z.of_nat k)); [|lia]. cbn. rewrite andb_true_r. f_equal. lia.
Qed.

(** The lengths read so far, each at its place in the alphabet. *)
Fixpoint place (i : nat) (vs hs : list Z) : list Z :=
  match vs with
  | [] => hs
  | v :: vs' => place (S i) vs' (<[Z.to_nat (default 0 (kgz_clen_alpha_order !! i)) := v]> hs)
  end.

Lemma place_clens vs : (length vs <= 19)%nat → place 0 vs (replicate 19 0) = clens vs.
Proof.
  intros H. do 19 (destruct vs as [|? vs]; [reflexivity|]). destruct vs; [reflexivity|cbn in H; lia].
Qed.

Lemma order_range i k : kgz_clen_alpha_order !! i = Some k → 0 <= k < 19.
Proof.
  intros H%list_elem_of_lookup_2. assert (Forall (λ k, 0 <= k < 19) kgz_clen_alpha_order) as Hall by (repeat constructor; lia).
  rewrite Forall_forall in Hall. by apply Hall.
Qed.

Lemma store_at_ok {S A} (arr : list A) i x (s : S) : 0 <= i < Z.of_nat (length arr) → store_at arr i x s = Ok (<[Z.to_nat i := x]> arr, s).
Proof.
  intros Hi. unfold store_at, index_ok. destruct (Z.leb_spec 0 i), (Z.ltb_spec i (Z.of_nat (length arr))); try lia. done.
Qed.

Lemma read_hsym_lengths_ok b0 out k (i : nat) hs p c vs bs :
  ctx_at b0 p out c → (i + k <= 19)%nat → length hs = 19%nat → take_triples k (rest d n p) = Some (vs, bs) →
  wp (read_hsym_lengths k (Z.of_nat i) hs) c (λ r c', r = place i vs hs ∧ length vs = k ∧ arena_alloc c' = arena_alloc c ∧
    ∃ p', p <= p' ∧ ctx_at b0 p' out c' ∧ bs = rest d n p').
Proof.
  revert i hs p c vs bs. induction k as [|k IH]; intros i hs p c vs bs Hc Hi Hhs; cbn [take_triples read_hsym_lengths].
  { intros [= <- <-]. wp_step. split_and!; try done. exists p. split_and!; done || lia. }
  intros ([v bs1] & Hv & ([vs2 bs2] & Hvs & [= <- <-])%bind_Some)%bind_Some.
  destruct (lookup_lt_is_Some_2 kgz_clen_alpha_order i) as [o Ho]; [cbn; lia|]. pose proof (order_range _ _ Ho).
  eapply wp_bind, wp_ok; [apply load_at_ok; [lia|by rewrite Nat2Z.id]|].
  eapply wp_bind, wp_mono; [eapply getbits_ctx; [done| |exact Hv]; lia|]. intros r c1 (-> & Hvr & Ha1 & p1 & -> & Hc1 & ->).
  unfold u16. rewrite Z.mod_small by lia. eapply wp_bind, wp_ok; [apply store_at_ok; lia|].
  replace (Z.of_nat i + 1) with (Z.of_nat (S i)) by lia.
  eapply wp_mono; [apply (IH (S i)); [done|lia|by rewrite length_insert|done]|].
  intros r c2 (-> & Hlen & Ha2 & p2 & Hp2 & Hc2 & ->). cbn [place length]. rewrite Ho. cbn [from_option]. unfold id.
  split_and!; [done|lia|congruence|]. exists p2. split_and!; [lia|done..].
Qed.

(** The array of code lengths: those known so far, then zeros. *)
Definition padded (acc : list Z) : list Z := acc ++ replicate (320 - length acc) 0.

Lemma padded_snoc acc v : (length acc < 320)%nat → <[length acc := v]> (padded acc) = padded (acc ++ [v]).
Proof.
  intros H. unfold padded. rewrite length_app. cbn [length].
  replace (320 - length acc)%nat with (S (320 - (length acc + 1))) by lia. cbn [replicate].
  rewrite insert_app_r_alt by lia. rewrite Nat.sub_diag. cbn. by rewrite <- app_assoc.
Qed.

Lemma length_padded acc : (length acc <= 320)%nat → length (padded acc) = 320%nat.
Proof. intros H. unfold padded. rewrite length_app, length_replicate. lia. Qed.

Lemma store_padded acc v (c : kgz_decompression_context) : (length acc < 320)%nat →
  store_at (padded acc) (Z.of_nat (length acc)) v c = Ok (padded (acc ++ [v]), c).
Proof. intros H. rewrite store_at_ok by (rewrite length_padded; lia). by rewrite Nat2Z.id, padded_snoc. Qed.

Lemma repeat_length_ok k limit acc v (c : kgz_decompression_context) :
  (length acc + k <= 320)%nat → (∀ l, limit = Some l → Z.of_nat (length acc + k) <= l) →
  repeat_length k limit (Z.of_nat (length acc)) v (padded acc) c =
    Ok ((Z.of_nat (length acc + k), padded (acc ++ replicate k v)), c).
Proof.
  revert acc. induction k as [|k IH]; intros acc Hk Hlim; cbn [repeat_length].
  { by rewrite app_nil_r, Nat.add_0_r. }
  assert (match limit with Some l => Z.of_nat (length acc) <? l | None => true end = true) as ->.
  { destruct limit as [l|]; [|done]. specialize (Hlim l eq_refl). apply Z.ltb_lt. lia. }
  erewrite bind_ok; [|apply store_padded; lia].
  replace (Z.of_nat (length acc) + 1) with (Z.of_nat (length (acc ++ [v]))) by (rewrite length_app; cbn; lia).
  rewrite IH by (rewrite length_app; cbn; try lia; intros l El; specialize (Hlim l El); lia).
  rewrite length_app. cbn [length replicate]. rewrite <- app_assoc. do 4 f_equal. lia.
Qed.

Lemma code_lengths_eq fuel cs total acc bs :
  code_lengths fuel cs total acc bs =
    if decide (length acc = total) then Some (acc, bs)
    else if decide (total < length acc)%nat then None
    else
      match fuel with
      | O => None
      | S fuel' =>
          '(sym, bs) ← decode_symbol cs 0 bs;
          if sym <=? 15 then code_lengths fuel' cs total (acc ++ [sym]) bs
          else if sym =? 16 then
            '(b, bs) ← take_num 2 bs;
            v ← last acc;
            code_lengths fuel' cs total (acc ++ replicate (Z.to_nat (b + 3)) v) bs
          else if sym =? 17 then
            '(b, bs) ← take_num 3 bs;
            code_lengths fuel' cs total (acc ++ replicate (Z.to_nat (b + 3)) 0) bs
          else
            '(b, bs) ← take_num 7 bs;
            code_lengths fuel' cs total (acc ++ replicate (Z.to_nat (b + 11)) 0) bs
      end.
Proof. by destruct fuel. Qed.

Lemma code_lengths_le fuel cs total acc bs lens bs' :
  code_lengths fuel cs total acc bs = Some (lens, bs') → (length acc <= total)%nat.
Proof. rewrite code_lengths_eq. repeat case_decide; [lia|done|lia]. Qed.

Lemma code_lengths_length fuel cs total acc bs lens bs' :
  code_lengths fuel cs total acc bs = Some (lens, bs') → length lens = total.
Proof.
  revert acc bs. induction fuel as [|fuel IH]; intros acc bs; rewrite code_lengths_eq; repeat case_decide; try done; try by intros [= <- _].
  intros ([sym bs1] & _ & Hdec)%bind_Some. destruct (sym <=? 15); [by eapply IH|].
  destruct (sym =? 16); [|destruct (sym =? 17)].
  - apply bind_Some in Hdec as ([b bs2] & _ & (v & _ & Hdec)%bind_Some). by eapply IH.
  - apply bind_Some in Hdec as ([b bs2] & _ & Hdec). by eapply IH.
  - apply bind_Some in Hdec as ([b bs2] & _ & Hdec). by eapply IH.
Qed.

(** A run of [times] equal lengths. *)
Lemma length_run_ok fuel cs (total : nat) limit acc times v bs lens bs' (c : kgz_decompression_context) :
  (total <= 320)%nat → limit = None ∨ limit = Some (Z.of_nat total) → 0 <= times →
  code_lengths fuel cs total (acc ++ replicate (Z.to_nat times) v) bs = Some (lens, bs') →
  repeat_length (Z.to_nat times) limit (Z.of_nat (length acc)) v (padded acc) c =
    Ok ((Z.of_nat (length (acc ++ replicate (Z.to_nat times) v)), padded (acc ++ replicate (Z.to_nat times) v)), c).
Proof.
  intros Ht Hlim Hn Hle%code_lengths_le. rewrite length_app, length_replicate in *. rewrite repeat_length_ok; [done|lia|].
  intros l ->. destruct Hlim as [|[= ->]]; [done|lia].
Qed.

Section lengths.
Context (b0 : kgz_buffer) (out : list Z) (htree : kgz_huffman_tree) (hlens : list Z) (total : nat) (a0 : kgz_arena) (p0 : Z).
Context (lens : list Z) (bs : list bool).
Hypothesis hcode : prefix_code hlens.
Hypothesis htree_ok : tree_ok hlens htree.
Hypothesis hlens_len : length hlens = 19%nat.
Hypothesis total_small : (total <= 320)%nat.

(** The loop with [m] symbols to read at most: the lengths so far lead to the
    result [lens]. *)
Definition lengths_at (m : Z) (st : Z * list Z) (c : kgz_decompression_context) : Prop :=
  ∃ (fuel : nat) p acc, m = Z.of_nat fuel ∧ st = (Z.of_nat (length acc), padded acc) ∧ arena_alloc c = a0 ∧ p0 <= p ∧
    ctx_at b0 p out c ∧ code_lengths fuel (codes hlens) total acc (rest d n p) = Some (lens, bs).
Definition lengths_done (r : option (list Z)) (c : kgz_decompression_context) : Prop :=
  r = Some (padded lens) ∧ arena_alloc c = a0 ∧ ∃ p, p0 <= p ∧ ctx_at b0 p out c ∧ bs = rest d n p.

(** Extra bits, then a run of equal lengths. *)
Lemma run_round_ok (fuel : nat) acc k base v p c b limit :
  arena_alloc c = a0 → p0 <= p → ctx_at b0 p out c → limit = None ∨ limit = Some (Z.of_nat total) →
  0 <= b < 2 ^ k → 0 <= k <= 7 → 0 <= base <= 11 →
  code_lengths fuel (codes hlens) total (acc ++ replicate (Z.to_nat (b + base)) v) (rest d n p) = Some (lens, bs) →
  wp (let* r := repeat_length (Z.to_nat (u8 (u8 b + base))) limit (Z.of_nat (length acc)) v (padded acc) in ret (inl r)) c
    (λ r c', match r with inl st => lengths_at (Z.of_nat fuel) st c' | inr r => lengths_done r c' end).
Proof.
  intros Ha Hp Hc Hlim Hb Hk Hbase Hdec. assert (2 ^ k <= 2 ^ 7) by (apply Z.pow_le_mono_r; lia).
  unfold u8. rewrite (Z.mod_small b), (Z.mod_small (b + base)) by lia.
  eapply wp_bind, wp_ok; [eapply length_run_ok; try done; lia|]. wp_step. by exists fuel, p, (acc ++ replicate (Z.to_nat (b + base)) v).
Qed.

Lemma sym_lengths_round_ok m st c :
  lengths_at m st c →
  wp (sym_lengths_round htree (Z.of_nat total) st) c (λ r c',
    match r with inl st' => ∃ m', 0 <= m' < m ∧ lengths_at m' st' c' | inr r => lengths_done r c' end).
Proof.
  intros (fuel & p & acc & -> & -> & Ha & Hp & Hc & Hdec). unfold sym_lengths_round. rewrite code_lengths_eq in Hdec.
  case_decide as Heq.
  { injection Hdec as -> Hbs. destruct (Z.ltb_spec (Z.of_nat (length lens)) (Z.of_nat total)); [lia|]. wp_step.
    split; [done|]. split; [done|]. by exists p. }
  case_decide; [done|]. destruct (Z.ltb_spec (Z.of_nat (length acc)) (Z.of_nat total)); [|lia].
  destruct fuel as [|fuel]; [done|]. apply bind_Some in Hdec as ([sym bs1] & Hsym & Hdec).
  destruct (lookup_ctx b0 p out c hlens htree sym bs1) as [Hrange Hw]; try done. rewrite hlens_len in Hrange.
  eapply wp_bind, wp_mono; [exact Hw|]. intros r c1 (-> & Ha1 & p1 & Hp1 & Hc1 & ->).
  apply (wp_mono _ _ (λ r c', match r with inl st' => lengths_at (Z.of_nat fuel) st' c' | inr r => lengths_done r c' end)).
  2: { intros [st'|r] c' H'; [|done]. exists (Z.of_nat fuel). split; [lia|done]. }
  destruct (Z.leb_spec sym 15).
  { pose proof (code_lengths_le _ _ _ _ _ _ _ Hdec) as Hle. rewrite length_app in Hle. cbn in Hle.
    eapply wp_bind, wp_ok; [apply store_padded; lia|]. wp_step. exists fuel, p1, (acc ++ [sym]).
    rewrite length_app. cbn [length]. split_and!; try done; try congruence; try lia. do 2 f_equal. lia. }
  destruct (Z.eqb_spec sym 16); [|destruct (Z.eqb_spec sym 17); [|destruct (Z.eqb_spec sym 18); [|lia]]].
  - apply bind_Some in Hdec as ([b bs2] & Hb & (v & Hv & Hdec)%bind_Some).
    eapply wp_bind, wp_mono; [eapply getbits_ctx; [done| |exact Hb]; lia|]. intros r c2 (-> & Hbr & Ha2 & p2 & -> & Hc2 & ->).
    rewrite last_lookup in Hv. apply lookup_lt_Some in Hv as Hne.
    destruct (Z.leb_spec (Z.of_nat (length acc)) 0); [lia|].
    eapply wp_bind, wp_ok.
    { apply load_at_ok with (x := v); [lia|]. unfold padded. apply lookup_app_l_Some. by replace (Z.to_nat (Z.of_nat (length acc) - 1)) with (pred (length acc)) by lia. }
    eapply run_round_ok with (k := 2) (p := p1 + 2); try done; try congruence; try lia; try (by left).
  - apply bind_Some in Hdec as ([b bs2] & Hb & Hdec).
    eapply wp_bind, wp_mono; [eapply getbits_ctx; [done| |exact Hb]; lia|]. intros r c2 (-> & Hbr & Ha2 & p2 & -> & Hc2 & ->).
    eapply run_round_ok with (k := 3) (p := p1 + 3); try done; try congruence; try lia; try (by right).
  - apply bind_Some in Hdec as ([b bs2] & Hb & Hdec).
    eapply wp_bind, wp_mono; [eapply getbits_ctx; [done| |exact Hb]; lia|]. intros r c2 (-> & Hbr & Ha2 & p2 & -> & Hc2 & ->).
    eapply run_round_ok with (k := 7) (p := p1 + 7); try done; try congruence; try lia; try (by right).
Qed.

Lemma sym_lengths_loop_ok p c fuel :
  Z.of_nat fuel < 2 ^ 63 → arena_alloc c = a0 → p0 <= p → ctx_at b0 p out c →
  code_lengths fuel (codes hlens) total [] (rest d n p) = Some (lens, bs) →
  wp (while_ (sym_lengths_round htree (Z.of_nat total)) (0, replicate 320 0)) c lengths_done.
Proof.
  intros Hfuel Ha Hp Hc Hdec. apply (wp_while _ lengths_at _) with (n := Z.of_nat fuel).
  - intros m st c' _ H. by apply sym_lengths_round_ok.
  - lia.
  - by exists fuel, p, [].
Qed.
End lengths.

(** * Dynamic blocks *)

(** A tree from the arena of the context. *)
Lemma tree_create_ctx b0 p out c lens :
  ctx_at b0 p out c → valid_lengths lens → a_offset (arena_alloc c) + 4326 + 24 * Z.of_nat (length lens) <= ARENA_SIZE →
  wp (arena (kgz_huffman_tree_create lens)) c (λ r c', ∃ t, r = Some t ∧ tree_ok lens t ∧ ctx_at b0 p out c' ∧
    a_offset (arena_alloc c') <= a_offset (arena_alloc c) + 4326 + 24 * Z.of_nat (length lens)).
Proof.
  intros [H1 H2 H3 H4 H5 H6 H9 [Ha Hcap] H8] Hv Hroom. pose proof (initial_capacity_bounds lens).
  destruct (tree_create_ok lens (arena_alloc c)) as (t & off & E & Ht & Hoff); [done..|lia|].
  apply wp_zoom. eapply wp_ok; [exact E|]. exists t. split; [done|]. split; [done|]. split; [|cbn; lia].
  split; cbn; try done. destruct Ha as [? ? ?]. split; [split; cbn; lia|done].
Qed.

Lemma length_clens vs : length (clens vs) = 19%nat.
Proof. unfold clens. by rewrite length_fmap, length_seqZ. Qed.

(** The 14 bits of the header at once. *)
Lemma header_fields b0 p out c hlit hdist hclen bs1 bs2 bs3 :
  ctx_at b0 p out c → take_num 5 (rest d n p) = Some (hlit, bs1) → take_num 5 bs1 = Some (hdist, bs2) →
  take_num 4 bs2 = Some (hclen, bs3) →
  0 <= hlit < 32 ∧ 0 <= hdist < 32 ∧ 0 <= hclen < 16 ∧
  wp (stream (kgz_bitstream_peek (5 + 5 + 4))) c (λ r c1,
    hlit = Z.land r 0x1f ∧ hdist = Z.land (Z.shiftr r 5) 0x1f ∧ hclen = Z.land (Z.shiftr r 10) 0xf ∧
    wp (stream (kgz_bitstream_consume (5 + 5 + 4))) c1 (λ _ c2, ctx_at b0 (p + 14) out c2 ∧ bs3 = rest d n (p + 14) ∧
      arena_alloc c2 = arena_alloc c)).
Proof.
  intros Hc E1 E2 E3. pose proof (cx_pos _ _ _ _ Hc).
  apply take_num_rest in E1 as (-> & -> & L1); [|lia..]. apply take_num_rest in E2 as (-> & -> & L2); [|lia..].
  apply take_num_rest in E3 as (-> & -> & L3); [|lia..]. replace (p + 5 + 5 + 4) with (p + 14) in * by lia.
  pose proof (field_range (sbit d n) p 5). pose proof (field_range (sbit d n) (p + 5) 5). pose proof (field_range (sbit d n) (p + 5 + 5) 4).
  do 3 (split; [done|]). change (5 + 5 + 4) with 14.
  eapply wp_stream; [done|eapply peek_ok; [done..|apply Hc|lia]|]. intros r c1 (-> & Hs1 & Hr1) Hk1 _ Ha1.
  pose proof (field_land (sbit d n) p 14 0 5 ltac:(lia)) as F1. pose proof (field_land (sbit d n) p 14 5 5 ltac:(lia)) as F2.
  pose proof (field_land (sbit d n) p 14 10 4 ltac:(lia)) as F3. rewrite Z.shiftr_0_r, Z.add_0_r in F1.
  split; [done|]. split; [done|]. split; [replace (p + 5 + 5) with (p + 10) by lia; done|].
  eapply wp_stream; [by apply Hk1|eapply consume_ok with (k := 14); [done..|lia|lia|destruct Hc; lia]|].
  intros [] c2 Hs2 Hk2 _ Ha2. split; [by apply Hk2|]. split; [done|congruence].
Qed.

Lemma create_dynamic_ok b0 p out c lit dist bs :
  ctx_at b0 p out c → 0 <= p → a_offset (arena_alloc c) = 0 → dynamic_header valid_lengths (rest d n p) = Some (lit, dist, bs) →
  wp create_dynamic_huffman_tables c (λ r c', ∃ lt dt, r = Some (lt, dt) ∧ prefix_code lit ∧ tree_ok lit lt ∧ prefix_code dist ∧ tree_ok dist dt ∧
    ∃ p', p <= p' ∧ ctx_at b0 p' out c' ∧ bs = rest d n p').
Proof.
  intros Hc Hp Hoff. unfold dynamic_header.
  intros ([hlit bs1] & E1 & ([hdist bs2] & E2 & ([hclen bs3] & E3 & ([vs bs4] & Hvs & H)%bind_Some)%bind_Some)%bind_Some)%bind_Some.
  destruct (header_fields b0 p out c hlit hdist hclen bs1 bs2 bs3) as (R1 & R2 & R3 & Hw); try done.
  case_decide as Hvh; [|done]. apply bind_Some in H as ([lens bs5] & Hl & H).
  case_decide as Hvl; [|done]. destruct Hvl as [Hv1 Hv2]. injection H as <- <- <-.
  unfold create_dynamic_huffman_tables. apply wp_bind. eapply wp_mono; [exact Hw|]. intros r c1 (-> & -> & -> & Hw1).
  apply wp_bind. eapply wp_mono; [exact Hw1|]. intros [] c2 (Hc2 & -> & Ha2).
  set (hlit := Z.land r 31) in *. set (hdist := Z.land (Z.shiftr r 5) 31) in *. set (hclen := Z.land (Z.shiftr r 10) 15) in *.
  clearbody hlit hdist hclen.
  eapply wp_bind, wp_mono; [eapply (read_hsym_lengths_ok b0 out _ 0); [done|lia|done|exact Hvs]|].
  intros hs c3 (-> & Hlen & Ha3 & p3 & Hp3 & Hc3 & ->). rewrite place_clens by lia.
  assert (a_offset (arena_alloc c3) = 0) as Hoff3 by congruence.
  eapply wp_bind, wp_mono; [eapply tree_create_ctx; [done|done|rewrite length_clens; change ARENA_SIZE with 45056; lia]|].
  intros r' c4 (htree & -> & Hht & Hc4 & Hoff4). rewrite length_clens in Hoff4.
  replace (hlit + 257 + (hdist + 1)) with (Z.of_nat (Z.to_nat (hlit + 257) + Z.to_nat (hdist + 1))) by lia.
  pose proof (code_lengths_length _ _ _ _ _ _ _ Hl) as Hll.
  eapply wp_bind, wp_mono; [eapply sym_lengths_loop_ok with (a0 := arena_alloc c4) (p0 := p3) (p := p3) (hlens := clens vs) (fuel := length (rest d n p3));
    first [done|apply length_clens|lia|rewrite length_rest; lia|apply Hvh]|].
  intros r' c5 (-> & Ha5 & p5 & Hp5 & Hc5 & ->).
  assert (take (Z.to_nat (hdist + 1)) (drop (Z.to_nat (hlit + 257)) (padded lens)) = drop (Z.to_nat (hlit + 257)) lens) as ->.
  { unfold padded. rewrite drop_app_le by lia. rewrite take_app_le, take_ge by (rewrite length_drop; lia). done. }
  assert (take (Z.to_nat (hlit + 257)) (padded lens) = take (Z.to_nat (hlit + 257)) lens) as ->.
  { unfold padded. by rewrite take_app_le by lia. }
  eapply wp_bind, wp_mono; [eapply tree_create_ctx; [done|done|rewrite Ha5, length_drop; change ARENA_SIZE with 45056; lia]|].
  intros r' c6 (dtree & -> & Hdt & Hc6 & Hoff6). rewrite length_drop in Hoff6.
  eapply wp_bind, wp_mono; [eapply tree_create_ctx; [done|done|rewrite length_take; rewrite Ha5 in Hoff6; change ARENA_SIZE with 45056; lia]|].
  intros r' c7 (ltree & -> & Hlt & Hc7 & _). wp_step. exists ltree, dtree. split; [done|].
  split; [apply Hv1|]. split; [done|]. split; [apply Hv2|]. split; [done|]. exists p5. split_and!; [lia|done..].
Qed.

(** * Blocks *)

Lemma fixed_prefix_code : prefix_code fixed_lens.
Proof. apply (bool_decide_unpack _). by vm_compute. Qed.

Lemma handle_block_ok b0 p out c type out' bs :
  ctx_at b0 p out c → 0 <= p → a_offset (arena_alloc c) = 0 →
  one_block valid_lengths type out (rest d n p) = Some (out', bs) → Z.of_nat (length out') <= b_capacity b0 →
  wp (if type =? 0 then kgz_dflt_handle_stored
      else if type =? 1 then kgz_dflt_handle_huffman false
      else kgz_dflt_handle_huffman true) c
    (λ r c', r = true ∧ ∃ p', p <= p' ∧ ctx_at b0 p' out' c' ∧ bs = rest d n p').
Proof.
  intros Hc Hp Hoff. unfold one_block. assert (∀ p, 0 <= p → Z.of_nat (length (rest d n p)) < 2 ^ 63) as Hfuel.
  { intros p1 ?. rewrite length_rest. lia. }
  destruct (type =? 0); [by intros; eapply handle_stored_ok|].
  destruct (type =? 1).
  - intros Hdec Hcap. unfold kgz_dflt_handle_huffman. wp_step.
    eapply huffman_loop_ok with (llens := fixed_lens) (dlens := fixed_dist_lens); try done; [apply fixed_prefix_code|apply Hc|by apply Hfuel].
  - destruct (type =? 2); [|done]. intros ([[lit dist] bs1] & Hh & Hdec)%bind_Some Hcap. unfold kgz_dflt_handle_huffman.
    eapply wp_bind, wp_mono; [by eapply create_dynamic_ok|].
    intros r c1 (lt & dt & -> & Hl & Hlt & Hd & Hdt & p1 & Hp1 & Hc1 & ->).
    eapply wp_mono; [eapply huffman_loop_ok with (p := p1) (llens := lit) (dlens := dist); try done; [lia|apply Hfuel; lia]|].
    intros r c2 (-> & p2 & Hp2 & Hc2 & ->). split; [done|]. exists p2. split_and!; [lia|done..].
Qed.

Lemma one_block_mono type out bs out' bs' :
  one_block valid_lengths type out bs = Some (out', bs') → (length out <= length out')%nat.
Proof.
  unfold one_block. destruct (type =? 0); [|destruct (type =? 1); [|destruct (type =? 2); [|done]]].
  - unfold stored_block. intros ([len bs1] & _ & ([nlen bs2] & _ & H)%bind_Some)%bind_Some. destruct (_ =? _); [|done].
    apply bind_Some in H as ([vs bs3] & _ & [= <- _]). rewrite length_app. lia.
  - apply decode_block_mono.
  - intros ([[lit dist] bs1] & _ & H)%bind_Some. by apply decode_block_mono in H.
Qed.

Lemma inflate_mono fuel out bs out' bs' :
  inflate valid_lengths fuel out bs = Some (out', bs') → (length out <= length out')%nat.
Proof.
  revert out bs. induction fuel as [|fuel IH]; intros out bs; cbn [inflate]; [done|].
  intros ([lst bs1] & _ & ([type bs2] & _ & ([out1 bs3] & Hb & H)%bind_Some)%bind_Some)%bind_Some.
  apply one_block_mono in Hb. destruct (lst =? 1); [injection H as <- _; done|]. apply IH in H. lia.
Qed.

(** Where the loop over the blocks stands, [m] rounds before its end. *)
Definition blocks_at (b0 : kgz_buffer) (out' : list Z) (bs : list bool) (m : Z) (last : bool) (c : kgz_decompression_context) : Prop :=
  ∃ (fuel : nat) p out, ctx_at b0 p out c ∧ 0 <= p ∧ a_offset (arena_alloc c) = 0 ∧
    if last then m = 0 ∧ out = out' ∧ rest d n p = bs
    else m = 1 + Z.of_nat fuel ∧ inflate valid_lengths fuel out (rest d n p) = Some (out', bs).

Lemma deflate_round_ok b0 out' bs m last c :
  Z.of_nat (length out') <= b_capacity b0 → blocks_at b0 out' bs m last c →
  wp (deflate_round last) c (λ r c', match r with
    | inl last' => ∃ m', 0 <= m' < m ∧ blocks_at b0 out' bs m' last' c'
    | inr r => r = true ∧ ∃ p', ctx_at b0 p' out' c' ∧ bs = rest d n p'
    end).
Proof.
  intros Hcap (fuel & p & out & Hc & Hp & Hoff & Hst). unfold deflate_round. destruct last.
  { destruct Hst as (-> & -> & <-). wp_step. split; [done|]. by exists p. }
  destruct Hst as [-> Hdec]. destruct fuel as [|fuel]; [done|]. cbn [inflate] in Hdec.
  apply bind_Some in Hdec as ([lst bs1] & E1 & ([type bs2] & E2 & ([out1 bs3] & Hb & Hdec)%bind_Some)%bind_Some).
  eapply wp_bind, wp_mono; [eapply getbits_ctx; [done| |exact E1]; lia|]. intros r c1 (-> & Hr1 & Ha1 & p1 & Ep1 & Hc1 & ->).
  eapply wp_bind, wp_mono; [eapply getbits_ctx; [done| |exact E2]; lia|]. intros r c2 (-> & Hr2 & Ha2 & p2 & Ep2 & Hc2 & ->).
  unfold u8. rewrite (Z.mod_small type) by lia.
  assert ((type =? 3) = false) as ->.
  { unfold one_block in Hb. destruct (Z.eqb_spec type 0), (Z.eqb_spec type 1), (Z.eqb_spec type 2), (Z.eqb_spec type 3); try done; lia. }
  assert (Z.of_nat (length out1) <= b_capacity b0) as Hcap1.
  { destruct (lst =? 1); [injection Hdec as -> _; done|]. apply inflate_mono in Hdec. lia. }
  eapply wp_bind, wp_mono; [eapply handle_block_ok; [done|lia|congruence|done|done]|].
  intros r c3 (-> & p3 & Hp3 & Hc3 & ->). eapply wp_bind, wp_zoom. wp_step. cbn [negb]. wp_step.
  exists (if lst =? 1 then 0 else 1 + Z.of_nat fuel). split; [destruct (lst =? 1); lia|].
  exists fuel, p3, out1. split.
  { destruct Hc3 as [? ? ? ? ? ? ? [[? ? ?] ?] ?]. split; cbn; try done. split; [split; cbn; lia|done]. }
  split; [lia|]. split; [done|]. destruct (lst =? 1); [|by split]. injection Hdec as -> ->. by split.
Qed.

Lemma deflate_ok b0 p out c fuel out' bs :
  ctx_at b0 p out c → 0 <= p → a_offset (arena_alloc c) = 0 → Z.of_nat fuel < 2 ^ 63 →
  inflate valid_lengths fuel out (rest d n p) = Some (out', bs) → Z.of_nat (length out') <= b_capacity b0 →
  wp kgz_deflate_decompress c (λ r c', r = true ∧ ∃ p', ctx_at b0 p' out' c' ∧ bs = rest d n p').
Proof.
  intros Hc Hp Hoff Hfuel Hdec Hcap. unfold kgz_deflate_decompress.
  eapply wp_while with (I := blocks_at b0 out' bs) (n := 1 + Z.of_nat fuel).
  - intros m last c' _ H. by apply deflate_round_ok.
  - lia.
  - by exists fuel, p, out.
Qed.
End inflate.

(** * The whole stream *)

(** The bytes at [d] are [data]. *)
Definition has_bytes (d : cstring) (data : list Z) : Prop := ∀ (i : nat) b, data !! i = Some b → d (Z.of_nat i) = b.

Lemma rest_byte d n q : 0 <= q < n → rest d n (8 * q) = byte_bits (d q) ++ rest d n (8 * (q + 1)).
Proof.
  intros Hq. unfold rest, byte_bits. replace (8 * n - 8 * q) with (8 + (8 * n - 8 * (q + 1))) by lia.
  rewrite seqZ_app, fmap_app by lia. f_equal; [|do 2 f_equal; lia].
  rewrite <- (Z.add_0_r (8 * q)), <- fmap_add_seqZ, <- list_fmap_compose. apply list_fmap_ext.
  intros i j [-> Hj]%lookup_seqZ. apply sbit_byte; lia.
Qed.

Lemma rest_bits_of d data : has_bytes d data → rest d (Z.of_nat (length data)) 0 = bits_of data.
Proof.
  intros Hd. assert (∀ k q, (length data = k + q)%nat → rest d (Z.of_nat (length data)) (8 * Z.of_nat q) = bits_of (drop q data)) as H.
  2: { apply (H (length data) 0%nat). lia. }
  induction k as [|k IH]; intros q Hk.
  - rewrite drop_ge by lia. apply nil_length_inv. rewrite length_rest. lia.
  - destruct (lookup_lt_is_Some_2 data q ltac:(lia)) as [b Hb]. rewrite (drop_S _ _ _ Hb).
    rewrite rest_byte by lia. replace (Z.of_nat q + 1) with (Z.of_nat (S q)) by lia. rewrite IH by lia. by rewrite (Hd q b Hb).
Qed.

(** The fixed codes of the source are those of the reference. *)
Lemma fixed_codes_eq : fixed_codes = fixed_lens.
Proof. reflexivity. Qed.

(** The decompressor's memory before the first block: [n] bytes of input at
    [d], an empty output buffer and the arena. *)
Definition start_ctx (t : kgz_huffman_tree) (d : cstring) (n : Z) (out : mem_t) (capacity : Z) (a : kgz_arena) : kgz_decompression_context :=
  mk_context t (mk_stream d n 0 0 0 0) (mk_buffer out 0 capacity []) a.

Lemma fixed_tree_ok fixed_arena : arena_ok fixed_arena → a_offset fixed_arena = 0 → a_capacity fixed_arena = FIXED_ARENA_SIZE →
  ∃ t off, kgz_huffman_tree_create fixed_codes fixed_arena = Ok (Some t, mk_arena (a_buffer fixed_arena) (a_capacity fixed_arena) off) ∧ tree_ok fixed_lens t.
Proof.
  intros Hfa Hfo Hfc. destruct (tree_create_ok fixed_codes fixed_arena) as (t & off & Et & Ht & _); [|done|rewrite Hfo, Hfc; by vm_compute|by exists t, off].
  apply (bool_decide_unpack _). by vm_compute.
Qed.

Lemma inflate_ok t d data out m capacity a :
  (∀ i, 0 <= d i < 256) → has_bytes d data → Z.of_nat (length data) < 2 ^ 58 → tree_ok fixed_lens t →
  inflate_bytes valid_lengths data = Some out → Z.of_nat (length out) <= capacity < 2 ^ 62 →
  arena_ok a → a_offset a = 0 → a_capacity a = ARENA_SIZE →
  ∃ c, kgz_deflate_decompress (start_ctx t d (Z.of_nat (length data)) m capacity a) = Ok (true, c) ∧
    contents (output_buffer c) = out ∧ b_size (output_buffer c) = Z.of_nat (length out) ∧ grows (mk_buffer m 0 capacity []) (output_buffer c) ∧ b_printed (output_buffer c) = [].
Proof.
  intros Hd Hdata Hlen Ht Hinf Hcap Ha Ho Hc.
  unfold inflate_bytes in Hinf. apply fmap_Some in Hinf as ([out' bs] & Hinf & ->). cbn [fst] in *.
  rewrite <- (rest_bits_of d) in Hinf by done.
  assert (wp kgz_deflate_decompress (start_ctx t d (Z.of_nat (length data)) m capacity a) (λ r c, r = true ∧
    ∃ p', ctx_at d (Z.of_nat (length data)) (mk_buffer m 0 capacity []) p' out' c ∧ bs = rest d (Z.of_nat (length data)) p'))
    as (r & c & E & -> & p' & Hctx & _)%wp_inv.
  { eapply deflate_ok with (p := 0) (out := []); try done; [lia| |lia|cbn; lia].
    split; cbn; try done; try lia.
    - apply empty_at_pos with (q := 0). unfold empty_at. split_and!; done || lia.
    - split; cbn; lia.
    - split; cbn; done || lia. }
  exists c. split; [done|]. split_and!; apply Hctx.
Qed.

(** * Which code lengths are taken *)

Lemma take_num_bound k bs v bs' : 0 <= k → take_num k bs = Some (v, bs') → 0 <= v < 2 ^ k.
Proof.
  intros Hk. unfold take_num. case_decide; [|done]. intros [= <- <-].
  assert (∀ l, 0 <= number l < 2 ^ Z.of_nat (length l)) as Hn.
  { induction l as [|b l IH]; cbn [number length]; [done|]. rewrite Nat2Z.inj_succ, Z.pow_succ_r by lia. destruct b; cbn; lia. }
  specialize (Hn (take (Z.to_nat k) bs)). by rewrite length_take, Nat.min_l, Z2Nat.id in Hn by done.
Qed.

(** A decoder that takes more code lengths decodes at least as much. *)
Section mono.
Context (v1 v2 : list Z → Prop) `{∀ lens, Decision (v1 lens)} `{∀ lens, Decision (v2 lens)}.
Hypothesis v_mono : ∀ lens, (length lens <= 320)%nat → v1 lens → v2 lens.

Lemma dynamic_header_mono bs r : dynamic_header v1 bs = Some r → dynamic_header v2 bs = Some r.
Proof.
  unfold dynamic_header. destruct (take_num 5 bs) as [[hlit bs1]|] eqn:E1; [cbn [mbind option_bind]|done].
  destruct (take_num 5 bs1) as [[hdist bs2]|] eqn:E2; [cbn [mbind option_bind]|done].
  destruct (take_num 4 bs2) as [[hclen bs3]|]; [cbn [mbind option_bind]|done].
  destruct (take_triples _ bs3) as [[vs bs4]|]; [cbn [mbind option_bind]|done].
  destruct (decide (v1 (clens vs))) as [Hc|]; [|done]. rewrite (decide_True (P := v2 (clens vs))) by (apply v_mono; [rewrite length_clens; lia|done]).
  destruct (code_lengths _ _ _ _ bs4) as [[lens bs5]|] eqn:E5; [cbn [mbind option_bind]|done].
  pose proof (take_num_bound 5 _ _ _ ltac:(lia) E1). pose proof (take_num_bound 5 _ _ _ ltac:(lia) E2). apply code_lengths_length in E5.
  case_decide as Hv; [|done]. destruct Hv. rewrite decide_True; [done|].
  split; apply v_mono; try done; [rewrite length_take|rewrite length_drop]; lia.
Qed.

Lemma inflate_mono_valid fuel out bs r : inflate v1 fuel out bs = Some r → inflate v2 fuel out bs = Some r.
Proof.
  revert out bs. induction fuel as [|fuel IH]; intros out bs; [done|]. cbn [inflate].
  destruct (take_num 1 bs) as [[lst bs1]|]; [cbn [mbind option_bind]|done]. destruct (take_num 2 bs1) as [[type bs2]|]; [cbn [mbind option_bind]|done].
  destruct (one_block v1 type out bs2) as [[out1 bs3]|] eqn:E; [cbn [mbind option_bind]|done].
  assert (one_block v2 type out bs2 = Some (out1, bs3)) as ->.
  { unfold one_block in *. destruct (type =? 0), (type =? 1), (type =? 2); try done.
    destruct (dynamic_header v1 bs2) as [[[lit dist] bs4]|] eqn:Eh; [|done]. by rewrite (dynamic_header_mono _ _ Eh). }
  cbn [mbind option_bind]. destruct (lst =? 1); [done|apply IH].
Qed.
End mono.

Lemma proper_inflate data out : inflate_bytes proper_code data = Some out → inflate_bytes valid_lengths data = Some out.
Proof.
  unfold inflate_bytes. intros ([out' bs] & E & ->)%fmap_Some. erewrite inflate_mono_valid; [done| |exact E].
  intros lens Hl. apply proper_valid. lia.
Qed.

(** (C16) The decompressor refines the reference: for every stream of bytes that
    stands for [out] in the reference definition (stored, fixed and dynamic
    blocks, every complete code and codes with a single word), and a buffer
    that has room for it, [kgz_deflate_decompress] returns true with exactly [out] in the buffer,
    and nothing outside the buffer is written. *)
Theorem kgz_refines_inflate d data out m capacity fixed_arena a :
  (∀ i, 0 <= d i < 256) → has_bytes d data → Z.of_nat (length data) < 2 ^ 58 →
  inflate_bytes proper_code data = Some out →
  Z.of_nat (length out) <= capacity < 2 ^ 62 →
  arena_ok fixed_arena → a_offset fixed_arena = 0 → a_capacity fixed_arena = FIXED_ARENA_SIZE →
  arena_ok a → a_offset a = 0 → a_capacity a = ARENA_SIZE →
  ∃ t fa c, kgz_huffman_tree_create fixed_codes fixed_arena = Ok (Some t, fa) ∧
    kgz_deflate_decompress (start_ctx t d (Z.of_nat (length data)) m capacity a) = Ok (true, c) ∧
    contents (output_buffer c) = out ∧ b_size (output_buffer c) = Z.of_nat (length out) ∧
    ∀ x, x < 0 ∨ capacity <= x → b_data (output_buffer c) x = m x.
Proof.
  intros Hd Hdata Hlen Hinf%proper_inflate Hcap Hfa Hfo Hfc Ha Ho Hc.
  destruct (fixed_tree_ok fixed_arena) as (t & off & Et & Ht); [done..|].
  destruct (inflate_ok t d data out m capacity a) as (c & E & Hout & Hsz & Hg & _); [done..|].
  eexists t, _, c. split_and!; try done. intros x Hx. by apply (gr_data _ _ Hg).
Qed.

(** A stream with one dynamic block, and what it stands for. *)
Definition sample : list Z := [29; 198; 73; 1; 0; 0; 16; 64; 192; 172; 163; 127; 136; 61; 60; 32; 42; 151; 157; 55; 94; 29; 12].
Definition sample_out : list Z := bytes "abaabbbabaababbaababaaaabaaabbbbbaa".

Lemma of_list_bytes data : Forall (λ b, 0 <= b < 256) data → (∀ i, 0 <= of_list data i < 256) ∧ has_bytes (of_list data) data.
Proof.
  intros H. split.
  - intros i. unfold of_list. destruct (i <? 0); [lia|]. destruct (data !! Z.to_nat i) eqn:E; cbn; [|lia].
    rewrite Forall_forall in H. apply H. by eapply list_elem_of_lookup_2.
  - intros i b Hb. unfold of_list. destruct (Z.ltb_spec (Z.of_nat i) 0); [lia|]. by rewrite Nat2Z.id, Hb.
Qed.

Lemma kgz_refines_inflate_witness :
  ∃ t fa c, kgz_huffman_tree_create fixed_codes (mk_arena 4096 FIXED_ARENA_SIZE 0) = Ok (Some t, fa) ∧
    kgz_deflate_decompress (start_ctx t (of_list sample) 23 (λ _, 0) 1059 (mk_arena 65536 ARENA_SIZE 0)) = Ok (true, c) ∧
    contents (output_buffer c) = sample_out.
Proof.
  assert (Forall (λ b, 0 <= b < 256) sample) as Hb by (repeat constructor; lia).
  assert (inflate_bytes proper_code sample = Some sample_out) as Hinf by (vm_compute; reflexivity).
  destruct (of_list_bytes sample Hb) as [H1 H2].
  destruct (kgz_refines_inflate (of_list sample) sample sample_out (λ _, 0) 1059 (mk_arena 4096 FIXED_ARENA_SIZE 0) (mk_arena 65536 ARENA_SIZE 0))
    as (t & fa & c & E1 & E2 & E3 & _); [exact H1|exact H2|cbn; lia|exact Hinf|cbn; lia| |reflexivity|reflexivity| |reflexivity|reflexivity|].
  - split; [|split|]; vm_compute; done.
  - split; [|split|]; vm_compute; done.
  - exists t, fa, c. split; [exact E1|]. split; [exact E2|exact E3].
Defined.
