(* ===== verification/InflateSafe.v ===== *)
(** The decompressor on arbitrary input: it always ends, by returning or in a
    panic of the sanitizer, and writes only into the output buffer.  Nothing is
    assumed of the stream, of the code lengths or of the arena. *)
From stdpp Require Import base tactics list strings.
From Stdlib Require Import ZArith Lia.
From S2P Require Import Prelude Str Kgz Inflate InflateSpec HuffCode KgzBits KgzTree KgzHuff KgzBuf.

(** * Ending without a promise to return

    [ends m s Q]: [m] does not run forever from [s], and when it returns, [Q]
    holds. *)
Definition ends {S A} (m : M S A) (s : S) (Q : A → S → Prop) : Prop :=
  match m s with
  | Ok (a, s') => Q a s'
  | Panic _ => True
  | Hang => False
  end.

Section ends.
Context {S A B : Type}.
Implicit Types (s : S).

Lemma ends_ret (a : A) s (Q : A → S → Prop) : Q a s → ends (ret a) s Q.
Proof. done. Qed.

Lemma ends_panic msg s (Q : A → S → Prop) : ends (panic msg) s Q.
Proof. done. Qed.

Lemma ends_bind (m : M S A) (f : A → M S B) s Q : ends m s (λ a s', ends (f a) s' Q) → ends (bind m f) s Q.
Proof. unfold ends, bind. by destruct (m s) as [[a s']| |]. Qed.

Lemma ends_mono (m : M S A) s (P Q : A → S → Prop) : ends m s P → (∀ a s', P a s' → Q a s') → ends m s Q.
Proof. unfold ends. destruct (m s) as [[a s']| |]; auto. Qed.

Lemma ends_wp (m : M S A) s Q : wp m s Q → ends m s Q.
Proof. unfold ends, wp. by destruct (m s) as [[a s']| |]. Qed.

Lemma ends_gets (f : S → A) s (Q : A → S → Prop) : Q (f s) s → ends (gets f) s Q.
Proof. done. Qed.

Lemma ends_modify (f : S → S) s (Q : unit → S → Prop) : Q tt (f s) → ends (modify f) s Q.
Proof. done. Qed.
End ends.

Lemma ends_get {S} (s : S) (Q : S → S → Prop) : Q s s → ends get s Q.
Proof. done. Qed.

Lemma ends_zoom {S T A} (view : S → T) (update : S → T → S) (m : M T A) s Q :
  ends m (view s) (λ a t, Q a (update s t)) → ends (zoom view update m) s Q.
Proof. unfold ends, zoom. by destruct (m (view s)) as [[a t]| |]. Qed.

Section ends_while.
Context {S A B : Type} (body : A → M S (A + B)).
Context (I : Z → A → S → Prop) (Q : B → S → Prop).
Hypothesis body_ends : ∀ n a s, 0 <= n → I n a s →
  ends (body a) s (λ r s', match r with
    | inl a' => ∃ n', 0 <= n' < n ∧ I n' a' s'
    | inr b => Q b s'
    end).

Lemma ends_loop w n a s : 0 <= n → I n a s →
  ends (loop w body a) s (λ r s', match r with
    | inl a' => ∃ n', 0 <= n' <= n - 2 ^ Z.of_nat w ∧ I n' a' s'
    | inr b => Q b s'
    end).
Proof.
  revert n a s. induction w as [|w IH]; intros n a s Hn HI; cbn [loop].
  - eapply ends_mono; [by apply (body_ends n)|]. intros [a'|b] s'; [|done].
    intros (n' & ? & ?). exists n'. split; [cbn; lia|done].
  - apply ends_bind. eapply ends_mono; [by apply (IH n)|]. intros [a'|b] s' H; [|done].
    destruct H as (n' & Hn' & HI'). eapply ends_mono; [apply (IH n'); [lia|done]|].
    intros [a2|b] s2; [|done]. intros (n2 & ? & ?). exists n2. split; [|done].
    rewrite Nat2Z.inj_succ, Z.pow_succ_r by lia. lia.
Qed.

(** A loop whose rounds decrease a measure ends. *)
Lemma ends_while n a s : 0 <= n < 2 ^ 64 → I n a s → ends (while_ body a) s Q.
Proof.
  intros Hn HI. unfold while_. apply ends_bind. eapply ends_mono; [apply (ends_loop 64 n); [lia|done]|].
  intros [a'|b] s' H; [|by apply ends_ret]. destruct H as (n' & ? & _). cbn in *. lia.
Qed.
End ends_while.

(** * Trees from arbitrary code lengths *)

(** All symbols of the tree are below [N]. *)
Definition node_below (N : Z) (nd : huffman_node) : Prop :=
  n_type nd = HUFFMAN_NODE_TYPE_SYMBOL → 0 <= node_symbol nd < N.
Definition entry_below (N : Z) (e : huffman_cache_entry) : Prop := 0 < e_length e → 0 <= e_symbol e < N.
Definition syms (N : Z) (t : kgz_huffman_tree) : Prop := Forall (node_below N) (nodes t) ∧ Forall (entry_below N) (table t).

Section create.
Context (N : Z) (N_small : N < 2 ^ 16 - 1).

Lemma ends_load_node i b : syms N b.1 → ends (load_node i) b (λ nd b', b' = b ∧ get_node b.1 i = Some nd ∧ node_below N nd).
Proof.
  intros [Hn _]. unfold load_node. apply ends_bind, ends_gets. unfold get_node.
  destruct (_ || _); [apply ends_panic|]. destruct (nodes b.1 !! Z.to_nat i) as [nd|] eqn:E; [|apply ends_panic].
  apply ends_ret. split; [done|]. split; [done|]. rewrite Forall_forall in Hn. apply Hn. by eapply list_elem_of_lookup_2.
Qed.

Lemma ends_store_node i f b :
  syms N b.1 → (∀ nd, get_node b.1 i = Some nd → node_below N nd → node_below N (f nd)) →
  ends (store_node i f) b (λ _ b', syms N b'.1).
Proof.
  intros Hs Hf. unfold store_node, load_node. apply ends_bind, ends_bind, ends_gets.
  destruct (get_node b.1 i) as [nd|] eqn:E; [|apply ends_panic]. apply ends_ret. unfold modify_tree. apply ends_modify.
  destruct Hs as [Hn Ht]. split; cbn; [|done]. apply Forall_insert; [done|]. apply Hf; [done|].
  unfold get_node in E. destruct (_ || _); [done|]. rewrite Forall_forall in Hn. apply Hn. by eapply list_elem_of_lookup_2.
Qed.

Lemma ends_arena_allocate size al b : syms N b.1 → ends (in_arena (kgz_arena_allocate size al)) b (λ _ b', b'.1 = b.1).
Proof.
  intros Hs. apply ends_zoom. unfold kgz_arena_allocate. apply ends_bind, ends_get.
  destruct (_ =? 0); [by apply ends_ret|]. destruct (_ || _); [by apply ends_ret|]. destruct (_ <? _); [by apply ends_ret|].
  by apply ends_bind, ends_modify, ends_ret.
Qed.

(** The nodes so far stay. *)
Lemma ends_alloc_new_node b : syms N b.1 →
  ends alloc_new_node b (λ _ b', syms N b'.1 ∧ ∃ l, nodes b'.1 = nodes b.1 ++ l).
Proof.
  intros Hs. unfold alloc_new_node. apply ends_bind. eapply ends_mono with (P := λ _ b', syms N b'.1 ∧ nodes b'.1 = nodes b.1).
  - unfold grow_nodes. apply ends_bind, ends_gets. destruct (_ <=? _); [|by apply ends_ret].
    apply ends_bind. eapply ends_mono with (P := λ _ b', b' = b).
    { destruct (_ =? 0); [by apply ends_ret|]. unfold mul_i, checked. destruct (fits_i _ _); [by apply ends_ret|apply ends_panic]. }
    intros cap b' ->. apply ends_bind. eapply ends_mono; [by apply ends_arena_allocate|]. intros p b1 E1.
    destruct (_ =? 0); [apply ends_ret; by rewrite E1|]. apply ends_bind, ends_modify, ends_ret. cbn. rewrite E1. done.
  - intros [|] b' [Hs' Hn']; [|apply ends_ret; split; [done|]; exists []; by rewrite app_nil_r].
    apply ends_bind, ends_gets, ends_bind, ends_modify, ends_ret.
    destruct Hs' as [Hn Ht]. split; [|cbn; eexists; by rewrite Hn'].
    split; cbn; [|done]. apply Forall_app. split; [done|]. constructor; [|constructor]. done.
Qed.

Lemma get_node_app t t' l i nd : nodes t' = nodes t ++ l → get_node t i = Some nd → get_node t' i = Some nd.
Proof.
  unfold get_node, nodes_count. intros -> H. rewrite length_app.
  destruct (Z.ltb_spec i 0), (Z.leb_spec (Z.of_nat (length (nodes t))) i); try done.
  destruct (Z.leb_spec (Z.of_nat (length (nodes t) + length l)) i); [lia|]. cbn in *. by apply lookup_app_l_Some.
Qed.

Lemma ends_insert_path k code i b : syms N b.1 → ends (insert_path k code i) b (λ _ b', syms N b'.1).
Proof.
  revert i b. induction k as [|k IH]; intros i b Hs; cbn [insert_path]; [by apply ends_ret|].
  set (bit := Z.land _ 1). apply ends_bind. eapply ends_mono; [by apply ends_load_node|]. intros nd b' (-> & Hget & Hnd).
  apply ends_bind. eapply ends_mono with (P := λ _ b', syms N b'.1).
  - destruct (Z.eqb_spec (child bit nd) (-1)) as [Ec|]; [|by apply ends_ret].
    apply ends_bind. eapply ends_mono; [by apply ends_alloc_new_node|]. intros j b1 (Hs1 & l & Hl).
    destruct (_ =? -1); [by apply ends_ret|]. apply ends_bind. eapply ends_mono; [apply ends_store_node; [done|]|].
    + intros nd1 Hget1 Hb Hty. rewrite (get_node_app _ _ _ _ _ Hl Hget) in Hget1. injection Hget1 as <-.
      unfold set_child, child in *. destruct (bit =? 0); cbn in *; [|by apply Hb].
      specialize (Hnd Hty). unfold node_symbol, u16 in Hnd. rewrite Ec in Hnd. change (-1 mod 2 ^ 16) with (2 ^ 16 - 1) in Hnd. lia.
    + intros [] b2 Hs2. by apply ends_ret.
  - intros [|] b1 Hs1; cbn [negb]; [|by apply ends_ret].
    apply ends_bind. eapply ends_mono; [by apply ends_load_node|]. intros nd1 b2 (-> & _ & _). by apply IH.
Qed.

Lemma ends_insert_code code len sym b : syms N b.1 → 0 <= sym < N → ends (insert_code code len sym) b (λ _ b', syms N b'.1).
Proof.
  intros Hs Hsym. unfold insert_code. apply ends_bind, ends_gets, ends_bind. eapply ends_mono; [by apply ends_insert_path|].
  intros [i|] b1 Hs1; [|by apply ends_ret]. apply ends_bind. eapply ends_mono; [apply ends_store_node; [done|]|].
  - intros nd _ _ _. rewrite node_symbol_set by lia. done.
  - intros [] b2 Hs2. by apply ends_ret.
Qed.

Lemma ends_fill_table rev l sym b : syms N b.1 → 0 <= sym < N → 0 < l <= 10 → 0 <= rev < 2 ^ l →
  ends (fill_table rev (u32 (Z.shiftl 1 l)) sym l) b (λ _ b', syms N b'.1).
Proof.
  intros Hs Hsym Hl Hrev. assert (2 ^ l <= 2 ^ 10) by (apply Z.pow_le_mono_r; lia). assert (0 < 2 ^ l) by (apply Z.pow_pos_nonneg; lia).
  unfold u32. rewrite Z.shiftl_1_l, (Z.mod_small (2 ^ l)) by lia.
  apply (ends_while _ (λ m fill b', m = 2048 - fill ∧ 0 <= fill ∧ syms N b'.1) _) with (n := 2048 - rev); [|lia|by split_and!; [|lia|]].
  intros m fill b1 Hm (-> & Hf & Hs1). unfold TABLE_BITS, KGZ_HUFFMAN_CACHE. destruct (Z.ltb_spec fill (2 ^ 10)); [|by apply ends_ret].
  apply ends_bind, ends_modify, ends_ret. unfold u32. rewrite Z.mod_small by lia. exists (2048 - (fill + 2 ^ l)). split; [lia|].
  split_and!; [done|lia|]. destruct Hs1 as [Hn Ht]. split; cbn; [done|]. apply Forall_insert; [done|]. by intros _.
Qed.

Lemma ends_insert_symbols lens sym nc b :
  syms N b.1 → 0 <= sym → sym + Z.of_nat (length lens) <= N → Forall (λ l, 0 <= l <= 15) lens →
  ends (insert_symbols lens sym nc) b (λ _ b', syms N b'.1).
Proof.
  intros Hs Hsym HN Hlens. revert sym nc b Hs Hsym HN. induction Hlens as [|l lens Hl _ IH]; intros sym nc b Hs Hsym HN; cbn [insert_symbols length] in *; [by apply ends_ret|].
  assert (u16 (sym + 1) = sym + 1) as -> by (unfold u16; rewrite Z.mod_small; lia).
  destruct (Z.eqb_spec l 0); [by apply IH; try lia|].
  set (code := default 0 _). apply ends_bind. eapply ends_mono; [apply ends_insert_code; [done|lia]|]. intros [|] b1 Hs1; cbn [negb]; [|by apply ends_ret].
  apply ends_bind. eapply ends_mono with (P := λ _ b', syms N b'.1).
  - unfold TABLE_BITS, KGZ_HUFFMAN_CACHE. destruct (Z.ltb_spec 10 l); [by apply ends_ret|]. apply ends_fill_table; [done|lia|lia|].
    apply bit_reverse_range. lia.
  - intros [] b2 Hs2. apply IH; done || lia.
Qed.

Lemma count_lengths_max lens bl bl' : count_lengths lens bl = Some bl' → Forall (λ l, 0 <= l) lens → Forall (λ l, 0 <= l <= 15) lens.
Proof.
  intros E Hpos. revert bl E. induction Hpos as [|l lens Hl _ IH]; intros bl; cbn [count_lengths]; [constructor|].
  unfold MAX_BITS. destruct (Z.ltb_spec 15 l); [done|]. destruct (l =? 0); intros E; (constructor; [lia|by eapply IH]).
Qed.

(** Creating a tree ends, with symbols from the alphabet only. *)
Lemma ends_tree_create lens a : Z.of_nat (length lens) = N → Forall (λ l, 0 <= l) lens →
  ends (kgz_huffman_tree_create lens) a (λ r _, ∀ t, r = Some t → syms N t).
Proof.
  intros HN Hpos. assert (∀ size a, ends (kgz_arena_allocate size 8) a (λ _ _, True)) as Halloc.
  { intros size a1. unfold kgz_arena_allocate. apply ends_bind, ends_get. by repeat case_match. }
  unfold kgz_huffman_tree_create. apply ends_bind. eapply ends_mono; [apply Halloc|]. intros p a1 _. destruct (_ =? 0); [by apply ends_ret|].
  apply ends_bind. eapply ends_mono; [apply Halloc|]. intros p2 a2 _. destruct (_ =? 0); [by apply ends_ret|].
  assert (ends (build_tree lens) (mk_tree [] 0 [] p2 (initial_capacity lens), a2) (λ _ b, syms N b.1)) as H.
  { unfold build_tree. apply ends_bind. eapply ends_mono; [apply ends_alloc_new_node; by split|]. intros root b1 [Hs1 _].
    apply ends_bind, ends_modify. destruct (_ =? -1); [by apply ends_ret|].
    destruct (count_lengths lens _) as [bl|] eqn:E; [|by apply ends_ret]. apply ends_bind, ends_modify.
    apply ends_insert_symbols; [|lia|lia|by eapply count_lengths_max]. destruct Hs1 as [Hn _]. split; [done|]. apply Forall_replicate. by cbn. }
  unfold ends in *. destruct (build_tree lens _) as [[[|] [t a3]]| |]; try done. by intros t' [= <-].
Qed.
End create.

(** * The stream, whatever was read from it *)
Section safe.
Context (d : cstring) (n : Z).
Hypothesis d_bytes : ∀ i, 0 <= d i < 256.
Hypothesis n_small : 0 <= n < 2 ^ 58.

(** At bit [p]; behind the end of the input the buffer runs dry. *)
Record weak_pos (p : Z) (s : kgz_bitstream) : Prop := {
  wk_data : s_data s = d;
  wk_len : data_len s = n;
  wk_pos : p = 8 * current_byte s + current_bit s;
  wk_bit : 0 <= current_bit s < 8;
  wk_byte : 0 <= current_byte s;
  wk_small : p < 2 ^ 62;
  wk_count : 0 <= bits_in_buffer s < 256;
  wk_buffer : 0 <= bit_buffer s < 2 ^ 64;
  wk_dry : 8 * n <= p → bit_buffer s < 2 ^ Z.max 0 (64 - (p - 8 * n))
}.

Lemma weak_dry p s : weak_pos p s → 8 * n + 64 <= p → bit_buffer s = 0.
Proof.
  intros Hs Hp. pose proof (wk_dry _ _ Hs ltac:(lia)) as H. rewrite Z.max_l in H by lia. pose proof (wk_buffer _ _ Hs). cbn in H. lia.
Qed.

Lemma fill_weak p s : weak_pos p s → wp kgz_bitstream_fill s (λ _ s', weak_pos p s' ∧ (8 * n <= p → bit_buffer s' = bit_buffer s)).
Proof.
  intros [Hd Hn Hp Hbit Hbyte Hsm Hcount Hbuf Hdry]. unfold kgz_bitstream_fill. wp_step. rewrite Hd, Hn.
  rewrite (Z.shiftr_div_pow2 _ 3) by lia. change (2 ^ 3) with 8.
  assert (0 <= (current_bit s + bits_in_buffer s) / 8 <= 40) by (Z.div_mod_to_equations; lia).
  rewrite u64_id by (unfold is_u64; lia).
  eapply wp_bind, (wp_while (fill_round d n) (λ m '(b, q, buf) s', s' = s ∧ m = 256 - b ∧ 0 <= b < 256 ∧
    current_byte s <= q < 2 ^ 63 ∧ 0 <= buf < 2 ^ 64 ∧ (8 * n <= p → buf = bit_buffer s)) _) with (n := 256 - bits_in_buffer s).
  - intros m [[b q] buf] s' Hm (-> & -> & Hb & Hq & Hbuf' & Hsame). unfold fill_round.
    destruct (Z.leb_spec b 56), (Z.ltb_spec q n); cbn [andb]; wp_step.
    2-4: wp_step; split; [split; cbn; try done; try lia; intros Hend; rewrite Hsame by done; by apply Hdry|done].
    exists (256 - (b + 8)). split; [lia|]. unfold u8. rewrite (Z.mod_small (b + 8)) by lia.
    rewrite u64_id by (unfold is_u64; lia). split_and!; try done; try lia.
    + apply Z.lor_nonneg. split; [lia|]. apply u64_range.
    + pose proof (u64_range (Z.shiftl (d q) b)) as Hu. unfold is_u64 in Hu.
      assert (Z.lor buf (u64 (Z.shiftl (d q) b)) mod 2 ^ 64 = Z.lor buf (u64 (Z.shiftl (d q) b))) as <-; [|apply Z.mod_pos_bound; lia].
      rewrite <- !Z.land_ones by lia. rewrite Z.land_lor_distr_l, !Z.land_ones, !Z.mod_small by lia. done.
  - lia.
  - split_and!; done || lia.
Qed.

Lemma masked_weak p k s : weak_pos p s → 0 < k <= 32 →
  wp (masked_bits k) s (λ r s', weak_pos p s' ∧ 0 <= r < 2 ^ k ∧ (8 * n + 64 <= p → r = 0)).
Proof.
  intros Hs Hk. unfold masked_bits. wp_step.
  eapply wp_bind, wp_mono with (P := λ _ s', weak_pos p s').
  - destruct (_ <? _); [|by apply wp_ret]. eapply wp_mono; [by apply fill_weak|]. intros [] s' [? _]. done.
  - intros [] s' Hs'. unfold bit_mask. destruct (Z.eqb_spec k 64); [lia|].
    unfold shift_ok. destruct (Z.leb_spec 0 k), (Z.ltb_spec k 64); try lia. cbn [andb]. wp_step. split; [done|].
    assert (2 ^ k <= 2 ^ 32) by (apply Z.pow_le_mono_r; lia). assert (0 < 2 ^ k) by (apply Z.pow_pos_nonneg; lia).
    rewrite u64_id by (unfold is_u64; rewrite Z.shiftl_1_l; lia).
    replace (Z.shiftl 1 k - 1) with (Z.ones k) by (rewrite Z.ones_equiv, Z.shiftl_1_l; lia).
    rewrite Z.land_ones by lia. pose proof (Z.mod_pos_bound (bit_buffer s') (2 ^ k) ltac:(lia)).
    unfold u32. rewrite Z.mod_small by lia. split; [lia|]. intros Hend. by rewrite (weak_dry _ _ Hs' Hend).
Qed.

Lemma drop_weak p k s : weak_pos p s → p + 64 < 2 ^ 62 → 0 <= k → ends (drop_bits k) s (λ _ s', weak_pos (p + k) s' ∧ k < 64).
Proof.
  intros [Hd Hn Hp Hbit Hbyte Hsm Hcount Hbuf Hdry] Hsmall Hk. unfold drop_bits, shift_ok. apply ends_bind.
  destruct (Z.leb_spec 0 k), (Z.ltb_spec k 64); cbn [andb]; try apply ends_panic; try lia. apply ends_ret, ends_modify.
  cbv beta zeta. unfold u8. rewrite (Z.mod_small (current_bit s + k)), land7 by lia.
  assert (0 <= (current_bit s + k) / 8 <= 40) by (Z.div_mod_to_equations; lia).
  rewrite u64_id by (unfold is_u64; lia).
  pose proof (Z.mod_pos_bound (current_bit s + k) 8). pose proof (Z.div_mod (current_bit s + k) 8).
  split; [|done]. rewrite Z.shiftr_div_pow2 by lia. assert (0 < 2 ^ k) by (apply Z.pow_pos_nonneg; lia).
  assert (0 <= bit_buffer s / 2 ^ k <= bit_buffer s) by (split; [apply Z.div_pos; lia|apply Z.div_le_upper_bound; nia]).
  split; cbn; try done; try lia.
  { apply Z.mod_pos_bound. lia. }
  intros Hend. destruct (Z.le_gt_cases 64 (p + k - 8 * n)).
  - rewrite Z.max_l by lia. apply Z.div_lt_upper_bound; [lia|]. rewrite Z.mul_1_r.
    destruct (Z.le_gt_cases (8 * n) p).
    + specialize (Hdry ltac:(lia)). eapply Z.lt_le_trans; [exact Hdry|]. apply Z.pow_le_mono_r; lia.
    + lia.
  - rewrite Z.max_r by lia. apply Z.div_lt_upper_bound; [lia|]. rewrite <- Z.pow_add_r by lia.
    destruct (Z.le_gt_cases (8 * n) p).
    + specialize (Hdry ltac:(lia)). eapply Z.lt_le_trans; [exact Hdry|]. apply Z.pow_le_mono_r; lia.
    + eapply Z.lt_le_trans; [apply Hbuf|]. apply Z.pow_le_mono_r; lia.
Qed.

Lemma getbits_weak p k s : weak_pos p s → p + 64 < 2 ^ 62 → 0 <= k <= 32 →
  ends (kgz_bitstream_getbits k) s (λ r s', weak_pos (p + k) s' ∧ 0 <= r < 2 ^ k ∧ (8 * n + 64 <= p → r = 0)).
Proof.
  intros Hs Hsm Hk. unfold kgz_bitstream_getbits. destruct (Z.eqb_spec k 0) as [->|].
  - apply ends_ret. rewrite Z.add_0_r. split_and!; done || lia.
  - eapply ends_bind, ends_mono; [apply ends_wp, (masked_weak p); [done|lia]|]. intros r s' (Hs' & Hr & Hz).
    eapply ends_bind, ends_mono; [apply (drop_weak p); [done|lia|lia]|]. intros [] s2 [Hs2 _]. by apply ends_ret.
Qed.

Lemma consume_weak p k s : weak_pos p s → p + 64 < 2 ^ 62 → 0 <= k → ends (kgz_bitstream_consume k) s (λ _ s', ∃ p', weak_pos p' s' ∧ p <= p' <= p + 63).
Proof.
  intros Hs Hsm Hk. unfold kgz_bitstream_consume. destruct (Z.eqb_spec k 0) as [->|].
  - apply ends_ret. exists p. split; [done|lia].
  - eapply ends_mono; [by apply (drop_weak p)|]. intros [] s' [? ?]. exists (p + k). split; [done|lia].
Qed.

Lemma get_node_below N t i nd : syms N t → get_node t i = Some nd → node_below N nd.
Proof.
  intros [Hn _] H. unfold get_node in H. destruct (_ || _); [done|]. rewrite Forall_forall in Hn. apply Hn.
  by eapply list_elem_of_lookup_2.
Qed.

(** A lookup in any tree at all: at most 15 steps down, and a symbol of the
    tree. *)
Lemma lookup_weak t p s : weak_pos p s → p + 64 < 2 ^ 62 →
  ends (kgz_huffman_tree_lookup t) s (λ r s', (∃ p', weak_pos p' s' ∧ p <= p' <= p + 63) ∧
    ∀ N sym, syms N t → r = Some sym → 0 <= sym < N).
Proof.
  intros Hs Hsm. unfold kgz_huffman_tree_lookup. eapply ends_bind, ends_mono.
  { apply ends_wp. unfold kgz_bitstream_peek, MAX_BITS. cbn [Z.eqb]. apply (masked_weak p); [done|lia]. }
  intros v s1 (Hs1 & Hv & _). destruct (table t !! _) as [e|] eqn:Ee; cbn [from_option]; unfold id.
  2: change (0 <? e_length (mk_entry 0 0)) with false; cbn iota.
  1: destruct (Z.ltb_spec 0 (e_length e)).
  { eapply ends_bind, ends_mono; [apply (consume_weak p); [done|done|apply Z.mod_pos_bound; lia]|]. intros [] s2 H2. apply ends_ret.
    split; [done|]. intros N sym [_ Ht] [= <-]. rewrite Forall_forall in Ht. apply Ht; [by eapply list_elem_of_lookup_2|done]. }
  all: unfold kgz_huffman_tree_lookup_slow; destruct (get_node t (root_index t)) as [nd|] eqn:Eroot;
    [|apply ends_ret; split; [exists p; split; [done|lia]|done]].
  all: apply (ends_while _ (λ m '(q, cl) s', s' = s1 ∧ m = 15 - cl ∧ 0 <= cl ∧ ∃ i, q = get_node t i) _) with (n := 15);
    [|lia|split_and!; try done; by exists (root_index t)].
  all: intros m [nd' cl] s' Hm (-> & -> & Hcl & i & ->); unfold slow_round; apply ends_bind;
    destruct (get_node t i) as [nd'|] eqn:Ei; [|apply ends_panic].
  all: apply ends_ret; destruct (n_type nd') eqn:Ety.
  1, 3: destruct (_ =? -1); [eapply ends_bind, ends_mono; [apply (consume_weak p); done || lia|]; intros [] s2 H2; by apply ends_ret|].
  1, 2: unfold u32; rewrite Z.mod_small by lia; destruct (Z.ltb_spec 15 (cl + 1));
    [eapply ends_bind, ends_mono; [apply (consume_weak p); done || lia|]; intros [] s2 H2; by apply ends_ret|].
  1, 2: apply ends_ret; exists (15 - (cl + 1)); split; [lia|]; split_and!; try done; [lia|by eexists].
  all: eapply ends_bind, ends_mono; [apply (consume_weak p); done || lia|]; intros [] s2 H2; apply ends_ret; split; [done|];
    intros N sym Hsy [= <-]; by apply (get_node_below N t i).
Qed.

(** With at most one byte left, 16 bits empty the buffer. *)
Lemma fill_last s : s_data s = d → data_len s = n → bit_buffer s = 0 → current_bit s = 0 → 0 <= current_byte s < 2 ^ 62 → n <= current_byte s + 1 →
  0 <= bits_in_buffer s < 256 → wp kgz_bitstream_fill s (λ _ s', 0 <= bit_buffer s' < 2 ^ 16).
Proof.
  intros Hd Hn Hz Hbit Hbyte Hlast Hct. unfold kgz_bitstream_fill. wp_step. rewrite Hd, Hn, Hz, Hbit.
  rewrite (Z.shiftr_div_pow2 _ 3) by lia. change (2 ^ 3) with 8. rewrite Z.add_0_l.
  assert (0 <= bits_in_buffer s / 8 <= 40) by (Z.div_mod_to_equations; lia). rewrite u64_id by (unfold is_u64; lia).
  eapply wp_bind, (wp_while (fill_round d n) (λ m '(b, q, buf) s', m = (if q <? n then 1 else 0) ∧
    (q < n → b < 8 ∧ buf = 0) ∧ 0 <= b < 256 ∧ n - 1 <= q < 2 ^ 63 ∧ 0 <= buf < 2 ^ 16) _) with (n := if current_byte s + bits_in_buffer s / 8 <? n then 1 else 0).
  - intros m [[b q] buf] s' Hm (-> & Hlow & Hb & Hq & Hbuf). unfold fill_round.
    destruct (Z.leb_spec b 56), (Z.ltb_spec q n); cbn [andb]; wp_step; try (wp_step; cbn; lia).
    destruct Hlow as [Hb8 ->]; [done|]. exists 0. split; [lia|]. unfold u8. rewrite (Z.mod_small (b + 8)) by lia.
    rewrite (u64_id (q + 1)) by (unfold is_u64; lia). destruct (Z.ltb_spec (q + 1) n); [lia|]. split_and!; try lia; rewrite Z.lor_0_l.
    + apply u64_range.
    + pose proof (d_bytes q). assert (2 ^ b <= 2 ^ 7) by (apply Z.pow_le_mono_r; lia). assert (0 < 2 ^ b) by (apply Z.pow_pos_nonneg; lia).
      rewrite Z.shiftl_mul_pow2 by lia. rewrite u64_id by (unfold is_u64; nia). nia.
  - destruct (_ <? _); lia.
  - split; [done|]. split_and!; try lia; Z.div_mod_to_equations; lia.
Qed.

Lemma getbits_last s r s' : s_data s = d → data_len s = n → bit_buffer s = 0 → current_bit s = 0 → 0 <= current_byte s < 2 ^ 62 → n <= current_byte s + 1 →
  0 <= bits_in_buffer s < 256 → kgz_bitstream_getbits 16 s = Ok (r, s') → bit_buffer s' = 0.
Proof.
  intros Hd Hn Hz Hbit Hbyte Hlast Hct E.
  assert (wp (kgz_bitstream_getbits 16) s (λ _ s', bit_buffer s' = 0)) as H; [|unfold wp in H; by rewrite E in H].
  unfold kgz_bitstream_getbits. cbn [Z.eqb]. apply wp_bind. eapply wp_mono with (P := λ _ s', 0 <= bit_buffer s' < 2 ^ 16).
  - unfold masked_bits. wp_step. eapply wp_bind, wp_mono with (P := λ _ s', 0 <= bit_buffer s' < 2 ^ 16).
    + destruct (_ <? _); [by apply fill_last|]. apply wp_ret. rewrite Hz. lia.
    + intros [] s1 Hs1. unfold bit_mask. cbn [Z.eqb]. wp_step. done.
  - intros v s1 Hs1. unfold drop_bits. eapply wp_bind. wp_step. wp_step. wp_step. cbn.
    rewrite Z.shiftr_div_pow2 by lia. apply Z.div_small. done.
Qed.

(** Two bytes at a byte boundary, after the buffer has been dropped. *)
Lemma read_u16_weak p s : weak_pos p s → p + 64 < 2 ^ 62 → p mod 8 = 0 → bit_buffer s = 0 →
  ends kgz_bitstream_read_u16 s (λ r s', weak_pos (p + 16) s' ∧ 0 <= r < 2 ^ 16 ∧ bit_buffer s' = 0 ∧ (8 * n + 64 <= p → r = 0)).
Proof.
  intros Hs Hsm Hmod Hbuf. unfold kgz_bitstream_read_u16. apply ends_bind, ends_get.
  assert (current_bit s = 0) as Hbit by (destruct Hs; Z.div_mod_to_equations; lia). rewrite Hbit. cbn [Z.eqb andb].
  pose proof (wk_pos _ _ Hs) as Hp. pose proof (wk_byte _ _ Hs) as Hb. pose proof (wk_len _ _ Hs) as Hn.
  rewrite u64_id by (unfold is_u64; lia). rewrite Hn. destruct (Z.ltb_spec (current_byte s + 1) n).
  - apply ends_bind, ends_modify, ends_ret.
    split; [|split; [by apply Z.mod_pos_bound|split; [done|lia]]]. destruct Hs as [? ? ? ? ? ? ? ? ?].
    rewrite u64_id by (unfold is_u64; lia). split; cbn; try done; try lia.
  - apply ends_bind. pose proof (getbits_weak p 16 s Hs Hsm ltac:(lia)) as Hg. unfold ends in Hg |- *.
    destruct (kgz_bitstream_getbits 16 s) as [[r s']| |] eqn:E; [|done..]. destruct Hg as (Hs' & Hr & Hz). cbn.
    unfold u16. rewrite Z.mod_small by lia. split_and!; try done; try lia. eapply getbits_last; [..|exact E]; try done; try apply Hs; lia.
Qed.

Lemma align_weak p s : weak_pos p s → p + 64 < 2 ^ 62 →
  wp kgz_bitstream_align s (λ _ s', weak_pos ((p + 7) / 8 * 8) s' ∧ bit_buffer s' = 0).
Proof.
  intros [? ? Hp ? ? ? ? ? ?] Hsm. unfold kgz_bitstream_align. wp_step.
  assert ((p + 7) / 8 * 8 = if negb (current_bit s =? 0) then 8 * (current_byte s + 1) else 8 * current_byte s) as ->.
  { destruct (Z.eqb_spec (current_bit s) 0); cbn [negb]; Z.div_mod_to_equations; lia. }
  destruct (Z.eqb_spec (current_bit s) 0); cbn [negb]; split; cbn; try done.
  all: split; cbn; try done; try lia; try (intros _; apply Z.pow_pos_nonneg; lia).
  all: rewrite u64_id by (unfold is_u64; lia); lia.
Qed.

(** * Blocks of any kind *)

(** The stream at bit [p], and an output buffer that has grown out of [b0]. *)
Record safe_at (b0 : kgz_buffer) (p : Z) (c : kgz_decompression_context) : Prop := {
  sf_stream : weak_pos p (bitstream c);
  sf_buffer : buffer_ok (output_buffer c);
  sf_grows : grows b0 (output_buffer c)
}.

Lemma ends_stream {A} (m : M kgz_bitstream A) b0 p c (P : A → kgz_bitstream → Prop) Q :
  safe_at b0 p c → ends m (bitstream c) P →
  (∀ a c', P a (bitstream c') → (∀ p', weak_pos p' (bitstream c') → safe_at b0 p' c') → output_buffer c' = output_buffer c → Q a c') →
  ends (stream m) c Q.
Proof.
  intros [H1 H2 H3] Hm HQ. apply ends_zoom. eapply ends_mono; [exact Hm|]. intros a s' HP. apply HQ; [done| |done]. intros p' Hp'. by split.
Qed.

Lemma ends_getbits b0 p c k : safe_at b0 p c → p + 64 < 2 ^ 62 → 0 <= k <= 32 →
  ends (stream (kgz_bitstream_getbits k)) c (λ r c', safe_at b0 (p + k) c' ∧ output_buffer c' = output_buffer c ∧ 0 <= r < 2 ^ k ∧
    (8 * n + 64 <= p → r = 0)).
Proof.
  intros Hc Hp Hk. eapply ends_stream; [done|apply (getbits_weak p); [apply Hc|done..]|].
  intros r c' (Hs & Hr & Hz) Hkeep Hb. split_and!; try done; try lia. by apply Hkeep.
Qed.

Lemma ends_lookup b0 p c t : safe_at b0 p c → p + 64 < 2 ^ 62 →
  ends (stream (kgz_huffman_tree_lookup t)) c (λ r c', (∃ p', safe_at b0 p' c' ∧ p <= p' <= p + 63) ∧ output_buffer c' = output_buffer c ∧
    ∀ N sym, syms N t → r = Some sym → 0 <= sym < N).
Proof.
  intros Hc Hp. eapply ends_stream; [done|apply (lookup_weak t p); [apply Hc|done]|].
  intros r c' [(p' & Hs & Hp') Hsym] Hkeep Hb. split; [|done]. exists p'. split; [by apply Hkeep|done].
Qed.

Lemma ends_load_at {S} (arr : list Z) i (s : S) : ends (load_at arr i) s (λ x s', s' = s ∧ x ∈ arr).
Proof.
  unfold load_at. destruct (arr !! Z.to_nat i) eqn:E; [|apply ends_panic]. apply ends_bind. unfold index_ok.
  destruct (_ && _); [|apply ends_panic]. apply ends_ret, ends_ret. split; [done|]. by eapply list_elem_of_lookup_2.
Qed.

Lemma ends_store_at {S A} (arr : list A) i x (s : S) : ends (store_at arr i x) s (λ arr' s', s' = s ∧ length arr' = length arr ∧ arr' = <[Z.to_nat i := x]> arr).
Proof.
  unfold store_at, index_ok. apply ends_bind. destruct (_ && _); [|apply ends_panic]. apply ends_ret, ends_ret.
  split_and!; [done|apply length_insert|done].
Qed.

(** The buffer changes. *)
Lemma safe_buffer b0 p c b' : safe_at b0 p c → grows (output_buffer c) b' →
  safe_at b0 p (mk_context (fixed_huffman_tree c) (bitstream c) b' (arena_alloc c)).
Proof. intros [H1 H2 H3] Hg. split; cbn; [done|by eapply grows_ok|by eapply grows_trans]. Qed.

Lemma table_bound (arr : list Z) lo hi x : x ∈ arr → forallb (λ x, (lo <=? x) && (x <=? hi)) arr = true → lo <= x <= hi.
Proof.
  intros Hx H. rewrite forallb_forall in H. specialize (H x (proj1 (list_elem_of_In _ _) Hx)).
  apply andb_true_iff in H as [?%Z.leb_le ?%Z.leb_le]. lia.
Qed.

Lemma ends_read_distance b0 p c dtree : safe_at b0 p c → p + 64 < 2 ^ 62 →
  ends (read_distance_symbol dtree) c (λ _ c', (∃ p', safe_at b0 p' c' ∧ p <= p' <= p + 63) ∧ output_buffer c' = output_buffer c).
Proof.
  intros Hc Hp. destruct dtree as [t|]; cbn [read_distance_symbol].
  - eapply ends_mono; [by apply (ends_lookup b0 p)|]. intros r c' (? & ? & _). done.
  - apply ends_bind. eapply ends_mono; [apply (ends_getbits b0 p); done || lia|]. intros r c' (H' & Hb & _). apply ends_ret.
    split; [|done]. exists (p + 5). split; [done|lia].
Qed.

(** A match that succeeds makes the output longer. *)
Lemma ends_handle_match b0 p c dtree sym : safe_at b0 p c → p + 200 < 2 ^ 62 →
  ends (handle_match dtree sym) c (λ r c', (∃ p', safe_at b0 p' c' ∧ p <= p' <= p + 127) ∧
    (r = true → b_size (output_buffer c) < b_size (output_buffer c'))).
Proof.
  intros Hc Hp. unfold handle_match. apply ends_bind. eapply ends_mono; [apply ends_load_at|]. intros x c0 [-> Hx].
  apply (table_bound _ 0 5) in Hx; [|done].
  apply ends_bind. eapply ends_mono; [apply ends_load_at|]. intros base c0 [-> Hbase]. apply (table_bound _ 3 258) in Hbase; [|done].
  apply ends_bind. eapply ends_mono; [apply (ends_getbits b0 p); done || lia|]. intros e c1 (Hc1 & Hb1 & He & _).
  assert (2 ^ x <= 2 ^ 5) by (apply Z.pow_le_mono_r; lia). unfold u16. rewrite (Z.mod_small e), (Z.mod_small (base + e)) by lia.
  apply ends_bind. eapply ends_mono; [apply (ends_read_distance b0 (p + x)); [done|lia]|]. intros [ds|] c2 [(p2 & Hc2 & Hp2) Hb2].
  2: { apply ends_ret. split; [|done]. exists p2. split; [done|lia]. }
  apply ends_bind. eapply ends_mono; [apply ends_load_at|]. intros dx c0 [-> Hdx]. apply (table_bound _ 0 13) in Hdx; [|done].
  apply ends_bind. eapply ends_mono; [apply (ends_getbits b0 p2); done || lia|]. intros de c3 (Hc3 & Hb3 & Hde & _).
  apply ends_bind. eapply ends_mono; [apply ends_load_at|]. intros db c0 [-> Hdb]. apply (table_bound _ 1 24577) in Hdb; [|done].
  assert (2 ^ dx <= 2 ^ 13) by (apply Z.pow_le_mono_r; lia). rewrite (Z.mod_small de), (Z.mod_small (db + de)) by lia.
  destruct (buffer_lz77copy_ok (db + de) (base + e) (output_buffer c3)) as (ok & b' & E & Hg & Hok & Hfail); [apply Hc3|lia|lia|].
  apply ends_zoom, ends_wp. eapply wp_ok; [exact E|]. split.
  - exists (p2 + dx). split; [by apply safe_buffer|lia].
  - intros ->. cbn. rewrite <- Hb1, <- Hb2, <- Hb3.
    destruct (Z.le_gt_cases (db + de) (b_size (output_buffer c3))), (Z.le_gt_cases (b_size (output_buffer c3) + (base + e)) (b_capacity (output_buffer c3))).
    + destruct Hok as (_ & -> & _); [done..|]. lia.
    + destruct Hfail as [? _]; [lia|done].
    + destruct Hfail as [? _]; [lia|done].
    + destruct Hfail as [? _]; [lia|done].
Qed.

(** The loop of a compressed block, with any two trees: every round but the
    last makes the output longer. *)
Lemma ends_huffman_loop b0 p c ltree dtree : safe_at b0 p c → p < 8 * n + 2 ^ 22 →
  ends (while_ (huffman_round ltree dtree) tt) c (λ _ c', ∃ p', safe_at b0 p' c' ∧ p <= p' <= Z.max p (8 * n + 200)).
Proof.
  intros Hc Hp.
  apply (ends_while _ (λ m _ c, ∃ p', safe_at b0 p' c ∧ p <= p' <= Z.max p (8 * n + 200) ∧ m = b_capacity b0 - b_size (output_buffer c)) _)
    with (n := b_capacity b0 - b_size (output_buffer c)).
  2: { destruct Hc as [_ [? ?] [? ? _]]. lia. }
  2: { exists p. split_and!; done || lia. }
  clear Hc c. intros m [] c Hm (p1 & Hc & Hp1 & ->). unfold huffman_round. apply ends_bind, ends_gets.
  pose proof (sf_stream _ _ _ Hc) as Hs. rewrite (wk_len _ _ Hs).
  destruct (Z.leb_spec n (current_byte (bitstream c))); [apply ends_ret; exists p1; split; [done|lia]|].
  assert (p1 < 8 * n) by (destruct Hs; lia).
  apply ends_bind. eapply ends_mono; [apply (ends_lookup b0 p1); [done|lia]|]. intros [sym|] c1 ((p2 & Hc1 & Hp2) & Hb1 & _).
  2: { apply ends_ret. exists p2. split; [done|lia]. }
  destruct (Z.ltb_spec sym 256).
  - destruct (buffer_insert_ok (u8 sym) (output_buffer c1)) as (ok & b' & E & Hg & Hok & Hfail); [apply Hc1|].
    apply ends_bind, ends_zoom, ends_wp. eapply wp_ok; [exact E|]. destruct ok; cbn [negb].
    + apply ends_ret. destruct (Z.lt_ge_cases (b_size (output_buffer c1)) (b_capacity (output_buffer c1))); [|destruct Hfail as [? _]; [destruct Hc1 as [_ [? ?] _]; lia|done]].
      destruct Hok as (_ & Hsz & _); [done|]. exists (b_capacity b0 - b_size b'). rewrite Hb1 in *.
      pose proof (gr_size _ _ Hg). pose proof (gr_capacity _ _ (sf_grows _ _ _ Hc1)). rewrite Hb1 in *. split; [lia|].
      exists p2. split; [by apply safe_buffer; [|rewrite Hb1]|]. split; [lia|done].
    + apply ends_ret. exists p2. split; [by apply safe_buffer|lia].
  - destruct (sym =? 256); [apply ends_ret; exists p2; split; [done|lia]|].
    apply ends_bind. eapply ends_mono; [apply (ends_handle_match b0 p2); [done|lia]|]. intros [|] c2 [(p3 & Hc2 & Hp3) Hgrow]; cbn [negb]; apply ends_ret.
    + specialize (Hgrow eq_refl). rewrite Hb1 in Hgrow. exists (b_capacity b0 - b_size (output_buffer c2)).
      destruct (sf_buffer _ _ _ Hc2). pose proof (gr_capacity _ _ (sf_grows _ _ _ Hc2)). split; [lia|]. exists p3. split_and!; done || lia.
    + exists p3. split; [done|lia].
Qed.

(** Behind the end of the input a stored block is refused. *)
Lemma ends_handle_stored b0 p c : safe_at b0 p c → 0 <= p → p < 8 * n + 2 ^ 22 →
  ends kgz_dflt_handle_stored c (λ r c', (∃ p', safe_at b0 p' c' ∧ p <= p' <= p + 2 ^ 20) ∧ (8 * n + 64 <= p → r = false)).
Proof.
  intros Hc Hp0 Hp. unfold kgz_dflt_handle_stored. set (q := (p + 7) / 8 * 8).
  assert (p <= q < p + 8 ∧ q mod 8 = 0) as [Hq Hqm] by (subst q; split; [Z.div_mod_to_equations; lia|apply Z.mod_mul; lia]).
  apply ends_bind. eapply ends_stream; [done|apply ends_wp, (align_weak p); [apply Hc|lia]|]. fold q. intros [] c1 [Hs1 Hz1] Hk1 _.
  apply ends_bind. eapply ends_stream; [by apply Hk1|apply (read_u16_weak q); [done|lia|done..]|].
  intros len c2 (Hs2 & Hlen & Hz2 & Hend2) Hk2 _.
  apply ends_bind. eapply ends_stream; [by apply Hk2|apply (read_u16_weak (q + 16)); [done|lia|Z.div_mod_to_equations; lia|done]|].
  intros nlen c3 (Hs3 & Hnlen & Hz3 & Hend3) Hk3 _. specialize (Hk3 _ Hs3).
  destruct (Z.eqb_spec len (Z.land (Z.lnot nlen) 0xffff)) as [Eq|]; cbn [negb].
  2: { apply ends_bind, ends_zoom, ends_modify, ends_ret. split; [|done]. exists (q + 16 + 16). split; [|lia].
       destruct Hk3 as [? Hb Hg]. split; cbn; [done|done|]. destruct Hg as [? ? ?]. by split. }
  assert (¬ 8 * n + 64 <= p) as Hnot.
  { intros H. rewrite Hend2, Hend3 in Eq by lia. done. }
  apply ends_bind, ends_gets. set (avail := u64 _). set (len' := if avail <? len then u16 avail else len).
  assert (0 <= len' < 2 ^ 16) as Hlen' by (subst len'; destruct (_ <? _); [apply Z.mod_pos_bound; lia|done]). clearbody len'.
  destruct (buffer_insert_bulk_ok (advance (current_byte (bitstream c3)) (s_data (bitstream c3))) len' (output_buffer c3)) as (ok & b' & E & Hg & _); [apply Hk3|lia|].
  apply ends_bind, ends_zoom, ends_wp. eapply wp_ok; [exact E|]. destruct ok; cbn [negb].
  - apply ends_bind, ends_zoom, ends_modify, ends_ret. split; [|done]. exists (q + 16 + 16 + 8 * len'). split; [|lia].
    destruct Hk3 as [Hs Hb Hgr]. split; cbn; [|by eapply grows_ok|by eapply grows_trans].
    destruct Hs as [Hd Hn Hpos Hbit Hbyte Hsm Hct Hbuf Hdry]. rewrite u64_id by (unfold is_u64; lia).
    split; cbn; try done; try lia.
  - apply ends_ret. split; [|done]. exists (q + 16 + 16). split; [by apply safe_buffer|lia].
Qed.

(** An array of code lengths. *)
Definition lengths (k : nat) (l : list Z) : Prop := length l = k ∧ Forall (λ x, 0 <= x) l.

Lemma lengths_store {S} k l i x (s : S) : lengths k l → 0 <= x → ends (store_at l i x) s (λ l' s', s' = s ∧ lengths k l').
Proof.
  intros [Hl Hf] Hx. eapply ends_mono; [apply ends_store_at|]. intros l' s' (-> & Hl' & ->). split; [done|].
  split; [congruence|]. by apply Forall_insert.
Qed.

Lemma ends_read_hsym b0 k i hs p c : safe_at b0 p c → p + 3 * Z.of_nat k + 64 < 2 ^ 62 → lengths 19 hs →
  ends (read_hsym_lengths k i hs) c (λ hs' c', lengths 19 hs' ∧ safe_at b0 (p + 3 * Z.of_nat k) c').
Proof.
  revert i hs p c. induction k as [|k IH]; intros i hs p c Hc Hp Hl; cbn [read_hsym_lengths].
  { apply ends_ret. by rewrite Z.add_0_r. }
  apply ends_bind. eapply ends_mono; [apply ends_load_at|]. intros o c0 [-> _].
  apply ends_bind. eapply ends_mono; [apply (ends_getbits b0 p); done || lia|]. intros v c1 (Hc1 & _ & Hv & _).
  apply ends_bind. eapply ends_mono; [apply lengths_store; [done|apply Z.mod_pos_bound; lia]|]. intros hs' c0 [-> Hl'].
  eapply ends_mono; [apply (IH _ _ (p + 3)); done || lia|]. intros hs2 c2 [? Hc2]. split; [done|].
  by replace (p + 3 * Z.of_nat (S k)) with (p + 3 + 3 * Z.of_nat k) by lia.
Qed.

Lemma ends_repeat k limit i v l (c : kgz_decompression_context) : lengths 320 l → 0 <= v →
  ends (repeat_length k limit i v l) c (λ r c', c' = c ∧ lengths 320 r.2 ∧ i <= r.1 ∧
    ((0 < k)%nat → match limit with Some m => i < m | None => True end → i < r.1)).
Proof.
  revert i l. induction k as [|k IH]; intros i l Hl Hv; cbn [repeat_length].
  { apply ends_ret. split_and!; try done; cbn; lia. }
  destruct (match limit with Some m => i <? m | None => true end) eqn:E.
  - apply ends_bind. eapply ends_mono; [by apply lengths_store|]. intros l' c0 [-> Hl'].
    eapply ends_mono; [by apply IH|]. intros [i' l2] c0 (-> & Hl2 & Hi & _). cbn in *. split_and!; try done; lia.
  - apply ends_ret. split; [done|]. split; [done|]. split; [cbn; lia|]. intros _. destruct limit as [m|]; [|done]. apply Z.ltb_ge in E. lia.
Qed.

(** The loop over the code lengths, [m] of them missing. *)
Definition sym_at (b0 : kgz_buffer) (p total m : Z) (st : Z * list Z) (c : kgz_decompression_context) : Prop :=
  m = Z.max 0 (total - st.1) ∧ 0 <= st.1 ∧ lengths 320 st.2 ∧ ∃ p', safe_at b0 p' c ∧ p <= p' <= p + 80 * Z.min st.1 320.
Definition sym_end (b0 : kgz_buffer) (p : Z) (r : option (list Z)) (c : kgz_decompression_context) : Prop :=
  (∃ p', safe_at b0 p' c ∧ p <= p' <= p + 320 * 80) ∧ ∀ l, r = Some l → lengths 320 l.
Definition sym_next (b0 : kgz_buffer) (p total m : Z) (r : Z * list Z + option (list Z)) (c : kgz_decompression_context) : Prop :=
  match r with
  | inl st => ∃ m', 0 <= m' < m ∧ sym_at b0 p total m' st c
  | inr r => sym_end b0 p r c
  end.

Lemma sym_next_run b0 p total i l p2 k base limit v b c :
  0 <= i < total → total <= 320 → lengths 320 l → p <= p2 <= p + 80 * i + 63 → 0 <= k <= 7 → 3 <= base <= 11 → 0 <= v →
  limit = None ∨ limit = Some total → 0 <= b < 2 ^ k → safe_at b0 (p2 + k) c →
  ends (let* r := repeat_length (Z.to_nat (u8 (u8 b + base))) limit i v l in ret (inl r)) c (sym_next b0 p total (Z.max 0 (total - i))).
Proof.
  intros Hi Htot Hl Hp2 Hk Hbase Hv Hlim Hb Hc. assert (2 ^ k <= 2 ^ 7) by (apply Z.pow_le_mono_r; lia).
  unfold u8. rewrite (Z.mod_small b), (Z.mod_small (b + base)) by lia.
  apply ends_bind. eapply ends_mono; [by apply ends_repeat|]. intros [i' l'] c3 (-> & Hl' & Hle & Hlt). cbn [fst snd] in Hl', Hle, Hlt. apply ends_ret.
  assert (i < i') by (apply Hlt; [lia|destruct Hlim as [-> | ->]; lia || done]).
  exists (Z.max 0 (total - i')). split; [lia|]. split; [done|]. cbn. split; [lia|]. split; [done|]. exists (p2 + k). split; [done|lia].
Qed.

(** Every round writes at least one length. *)
Lemma ends_sym_round b0 p htree total m st c : syms 19 htree → 0 <= total <= 320 → p < 8 * n + 2 ^ 22 →
  sym_at b0 p total m st c → ends (sym_lengths_round htree total st) c (sym_next b0 p total m).
Proof.
  intros Ht Htot Hp. destruct st as [i l]. intros (-> & Hi & Hl & p1 & Hc & Hp1). cbn [fst snd] in *. unfold sym_lengths_round.
  destruct (Z.ltb_spec i total).
  2: { apply ends_ret. split; [exists p1; split; [done|lia]|by intros ? [= <-]]. }
  apply ends_bind. eapply ends_mono; [apply (ends_lookup b0 p1); [done|lia]|]. intros [sym|] c1 ((p2 & Hc1 & Hp2) & _ & Hsym).
  2: { apply ends_ret. split; [exists p2; split; [done|lia]|done]. }
  specialize (Hsym 19 sym Ht eq_refl). destruct (Z.leb_spec sym 15).
  { apply ends_bind. eapply ends_mono; [apply lengths_store; [done|lia]|]. intros l' c0 [-> Hl']. apply ends_ret.
    exists (Z.max 0 (total - (i + 1))). split; [lia|]. split; [done|]. cbn. split; [lia|]. split; [done|]. exists p2. split; [done|lia]. }
  destruct (Z.eqb_spec sym 16); [|destruct (Z.eqb_spec sym 17); [|destruct (Z.eqb_spec sym 18); [|lia]]];
    (apply ends_bind; eapply ends_mono; [apply (ends_getbits b0 p2); done || lia|]; intros b c2 (Hc2 & _ & Hb & _)).
  - destruct (i <=? 0); [apply ends_ret; split; [exists (p2 + 2); split; [done|lia]|done]|].
    apply ends_bind. eapply ends_mono; [apply ends_load_at|]. intros v c0 [-> Hv].
    assert (0 <= v) by (destruct Hl as [_ Hf]; rewrite Forall_forall in Hf; by apply Hf).
    apply (sym_next_run b0 p total i l p2 2); try done; try lia. by left.
  - apply (sym_next_run b0 p total i l p2 3); try done; try lia. by right.
  - apply (sym_next_run b0 p total i l p2 7); try done; try lia. by right.
Qed.

Lemma ends_sym_lengths b0 p c htree total : safe_at b0 p c → syms 19 htree → 0 <= total <= 320 → p < 8 * n + 2 ^ 22 →
  ends (while_ (sym_lengths_round htree total) (0, replicate 320 0)) c (sym_end b0 p).
Proof.
  intros Hc Ht Htot Hp. eapply ends_while with (I := sym_at b0 p total) (n := total).
  - intros m st c' _ H. by apply ends_sym_round.
  - lia.
  - split; [cbn; lia|]. split; [done|]. split; [split; [done|by apply Forall_replicate]|]. exists p. split; [done|cbn; lia].
Qed.

Lemma ends_arena_tree b0 p c lens : safe_at b0 p c → Z.of_nat (length lens) < 2 ^ 16 - 1 → Forall (λ x, 0 <= x) lens →
  ends (arena (kgz_huffman_tree_create lens)) c (λ r c', safe_at b0 p c' ∧ ∀ t, r = Some t → syms (Z.of_nat (length lens)) t).
Proof.
  intros [H1 H2 H3] Hl Hf. apply ends_zoom. eapply ends_mono; [by apply ends_tree_create|]. intros r a' Hr. split; [by split|done].
Qed.

Lemma land_bound x k : 0 <= k → 0 <= Z.land x (Z.ones k) < 2 ^ k.
Proof. intros Hk. rewrite Z.land_ones by lia. apply Z.mod_pos_bound, Z.pow_pos_nonneg; lia. Qed.

Lemma ends_create_dynamic b0 p c : safe_at b0 p c → p < 8 * n + 2 ^ 21 →
  ends create_dynamic_huffman_tables c (λ _ c', ∃ p', safe_at b0 p' c' ∧ p <= p' <= p + 30000).
Proof.
  intros Hc Hp. unfold create_dynamic_huffman_tables. change (5 + 5 + 4) with 14.
  apply ends_bind. eapply ends_stream; [done|apply ends_wp; unfold kgz_bitstream_peek; cbn [Z.eqb]; apply (masked_weak p); [apply Hc|lia]|].
  intros v c1 (Hs1 & Hv & _) Hk1 _. specialize (Hk1 _ Hs1).
  apply ends_bind. eapply ends_stream; [exact Hk1|apply (consume_weak p); done || lia|]. intros [] c2 (p2 & Hs2 & Hp2) Hk2 _. specialize (Hk2 _ Hs2).
  pose proof (land_bound v 5 ltac:(lia)) as B1. pose proof (land_bound (Z.shiftr v 5) 5 ltac:(lia)) as B2. pose proof (land_bound (Z.shiftr v 10) 4 ltac:(lia)) as B3.
  change (Z.ones 5) with 31 in *. change (Z.ones 4) with 15 in *.
  set (hlit := Z.land v 31) in *. set (hdist := Z.land (Z.shiftr v 5) 31) in *. set (hclen := Z.land (Z.shiftr v 10) 15) in *. clearbody hlit hdist hclen.
  apply ends_bind. eapply ends_mono; [apply (ends_read_hsym b0 _ _ _ p2); [done|lia|split; [done|by apply Forall_replicate]]|]. intros hs c3 [[Hl3 Hf3] Hc3].
  apply ends_bind. eapply ends_mono; [apply ends_arena_tree; [done|lia|done]|]. rewrite Hl3. intros [htree|] c4 [Hc4 Ht4].
  2: { apply ends_ret. eexists. split; [done|lia]. }
  apply ends_bind. eapply ends_mono; [apply ends_sym_lengths; [done|by apply Ht4|lia|lia]|]. intros [sl|] c5 [(p5 & Hc5 & Hp5) Hsl].
  2: { apply ends_ret. exists p5. split; [done|lia]. }
  destruct (Hsl sl eq_refl) as [Hl5 Hf5].
  apply ends_bind. eapply ends_mono; [apply ends_arena_tree; [done|rewrite length_take, length_drop; lia|by apply Forall_take, Forall_drop]|]. intros dt c6 [Hc6 _].
  apply ends_bind. eapply ends_mono; [apply ends_arena_tree; [done|rewrite length_take; lia|by apply Forall_take]|]. intros lt c7 [Hc7 _].
  destruct dt, lt; apply ends_ret; exists p5; split; done || lia.
Qed.

(** * The stream of blocks *)

(** Every block takes three bits or more; behind the end of the input the next
    one is refused. *)
Definition block_at (b0 : kgz_buffer) (m : Z) (last : bool) (c : kgz_decompression_context) : Prop :=
  ∃ p, safe_at b0 p c ∧ 0 <= p < 8 * n + 2 ^ 21 ∧ m = if last then 0 else 1 + Z.max 0 (8 * n + 64 - p).

Lemma ends_deflate_round b0 m last c : block_at b0 m last c →
  ends (deflate_round last) c (λ r c', match r with
    | inl last' => ∃ m', 0 <= m' < m ∧ block_at b0 m' last' c'
    | inr _ => ∃ p', safe_at b0 p' c'
    end).
Proof.
  intros (p & Hc & Hp & ->). unfold deflate_round. destruct last; [apply ends_ret; by exists p|].
  apply ends_bind. eapply ends_mono; [apply (ends_getbits b0 p); done || lia|]. intros b1 c1 (Hc1 & _ & Hb1 & _).
  apply ends_bind. eapply ends_mono; [apply (ends_getbits b0 (p + 1)); done || lia|]. intros b2 c2 (Hc2 & _ & Hb2 & Hz2).
  unfold u8. rewrite (Z.mod_small b2) by lia. destruct (b2 =? 3); [apply ends_ret; by eexists|].
  apply ends_bind. eapply ends_mono with (P := λ r c', (∃ p', safe_at b0 p' c' ∧ p + 3 <= p' <= Z.max (p + 3) (8 * n) + 2 ^ 20 + 30000) ∧ (8 * n + 64 <= p → r = false)).
  - destruct (Z.eqb_spec b2 0).
    + eapply ends_mono; [apply (ends_handle_stored b0 (p + 1 + 2)); [done|lia|lia]|]. intros r c' [(p' & Hc' & Hp') Hr].
      split; [exists p'; split; [done|lia]|]. intros ?. apply Hr. lia.
    + assert (¬ 8 * n + 64 <= p) by (intros ?; rewrite Hz2 in *; lia).
      destruct (b2 =? 1); unfold kgz_dflt_handle_huffman.
      * apply ends_bind, ends_gets. eapply ends_mono; [apply (ends_huffman_loop b0 (p + 1 + 2)); [done|lia]|].
        intros r c' (p' & Hc' & Hp'). split; [exists p'; split; [done|lia]|done].
      * apply ends_bind. eapply ends_mono; [apply (ends_create_dynamic b0 (p + 1 + 2)); [done|lia]|]. intros [[lt dt]|] c3 (p3 & Hc3 & Hp3).
        -- eapply ends_mono; [apply (ends_huffman_loop b0 p3); [done|lia]|]. intros r c' (p' & Hc' & Hp'). split; [exists p'; split; [done|lia]|done].
        -- apply ends_ret. split; [exists p3; split; [done|lia]|done].
  - intros r c3 [(p3 & Hc3 & Hp3) Hr]. apply ends_bind, ends_zoom, ends_modify.
    assert (safe_at b0 p3 (mk_context (fixed_huffman_tree c3) (bitstream c3) (output_buffer c3)
      (mk_arena (a_buffer (arena_alloc c3)) (a_capacity (arena_alloc c3)) 0))) as Hc4 by (destruct Hc3; by split).
    destruct r; cbn [negb]; apply ends_ret; [|by exists p3].
    assert (¬ 8 * n + 64 <= p) by (intros H; specialize (Hr H); done).
    exists (if b1 =? 1 then 0 else 1 + Z.max 0 (8 * n + 64 - p3)). split; [destruct (b1 =? 1); lia|].
    exists p3. split_and!; done || lia.
Qed.

Lemma ends_deflate b0 c : safe_at b0 0 c → ends kgz_deflate_decompress c (λ _ c', ∃ p', safe_at b0 p' c').
Proof.
  intros Hc. unfold kgz_deflate_decompress.
  eapply ends_while with (I := block_at b0) (n := 1 + Z.max 0 (8 * n + 64 - 0)).
  - intros m last c' _ H. by apply ends_deflate_round.
  - lia.
  - exists 0. split_and!; done || lia.
Qed.
End safe.

(** (C18) For every input whatever, also with a damaged or
    hostile stream, and for every tree and arena, decompression ends: it
    returns, or it stops in a panic of the sanitizer.  The output never grows
    beyond the buffer, and memory outside the buffer is left alone. *)
Theorem inflate_ends_safely tree d n m capacity a :
  (∀ i, 0 <= d i < 256) → 0 <= n < 2 ^ 58 → 0 <= capacity < 2 ^ 62 →
  ends kgz_deflate_decompress (mk_context tree (mk_stream d n 0 0 0 0) (mk_buffer m 0 capacity []) a) (λ _ c,
    0 <= b_size (output_buffer c) <= capacity ∧ b_capacity (output_buffer c) = capacity ∧
    ∀ x, x < 0 ∨ capacity <= x → b_data (output_buffer c) x = m x).
Proof.
  intros Hd Hn Hcap. eapply ends_mono; [apply (ends_deflate d n Hd Hn (mk_buffer m 0 capacity []))|].
  - split; cbn; [|split; cbn; lia|split; cbn; done || lia]. split; cbn; try done; try lia.
  - intros r c (p' & [_ [Hb _] [Hc Hs Hdata]]). cbn in *. split_and!; try done; lia.
Qed.

Lemma inflate_ends_safely_witness :
  ends kgz_deflate_decompress (mk_context (mk_tree [] 0 [] 0 0) (mk_stream (λ i, (7 * i) mod 256) 4096 0 0 0 0) (mk_buffer (λ _, 0) 0 64 []) (mk_arena 65536 ARENA_SIZE 0))
    (λ _ c, 0 <= b_size (output_buffer c) <= 64 ∧ b_capacity (output_buffer c) = 64 ∧
      ∀ x, x < 0 ∨ 64 <= x → b_data (output_buffer c) x = 0).
Proof.
  apply (inflate_ends_safely (mk_tree [] 0 [] 0 0) (λ i, (7 * i) mod 256) 4096 (λ _, 0) 64 (mk_arena 65536 ARENA_SIZE 0)); [|lia|lia].
  intros i. by apply Z.mod_pos_bound.
Defined.
