(* ===== verification/GzipInv.v ===== *)
(** The gzip container: the header parser of [kgz_gzip_decompress] against the
    format (RFC 1952) on lists of bytes, and the whole call. *)
From stdpp Require Import base tactics list strings.
From Stdlib Require Import ZArith Lia.
From S2P Require Import Prelude Str Kgz Inflate InflateSpec HuffCode KgzBits KgzTree KgzHuff HuffComplete KgzBuf InflateInv InflateSafe.

(** * The format *)

Definition skip_n (k : nat) (r : list Z) : option (list Z) := if decide (k <= length r)%nat then Some (drop k r) else None.

(** Behind the first zero byte. *)
Fixpoint skip_zero (r : list Z) : option (list Z) :=
  match r with
  | [] => None
  | b :: r' => if b =? 0 then Some r' else skip_zero r'
  end.

(** A field with its length in front. *)
Definition skip_field (r : list Z) : option (list Z) :=
  match r with
  | lo :: hi :: r' => skip_n (Z.to_nat (lo + 256 * hi)) r'
  | _ => None
  end.

Definition when (b : bool) (f : list Z → option (list Z)) (r : list Z) : option (list Z) := if b then f r else Some r.

(** What follows the header: at least one byte of deflate data and the eight
    bytes of the footer. *)
Definition member (file : list Z) : option (list Z) :=
  match file with
  | id1 :: id2 :: cm :: flg :: r =>
      if (id1 =? 0x1f) && (id2 =? 0x8b) && (cm =? 8) then
        r ← skip_n 6 r;
        r ← when (Z.testbit flg 2) skip_field r;
        r ← when (Z.testbit flg 3) skip_zero r;
        r ← when (Z.testbit flg 4) skip_zero r;
        r ← when (Z.testbit flg 1) (skip_n 2) r;
        if decide (9 <= length r)%nat then Some r else None
      else None
  | _ => None
  end.

(** The deflate data and the size given in the footer. *)
Definition body (r : list Z) : list Z := take (length r - 8) r.
Definition isize (r : list Z) : Z :=
  match drop (length r - 4) r with
  | [b0; b1; b2; b3] => b0 + 2 ^ 8 * b1 + 2 ^ 16 * b2 + 2 ^ 24 * b3
  | _ => 0
  end.

(** Bytes put side by side. *)
Lemma lor_shift x y k : 0 <= k → 0 <= x < 2 ^ k → 0 <= y → Z.lor x (Z.shiftl y k) = x + 2 ^ k * y.
Proof.
  intros Hk Hx Hy.
  assert (Z.land x (Z.shiftl y k) = 0) as E0.
  { apply Z.bits_inj'. intros i Hi. rewrite Z.land_spec, Z.bits_0, Z.shiftl_spec by lia.
    destruct (Z.lt_ge_cases i k); [rewrite (Z.testbit_neg_r y) by lia; apply andb_false_r|].
    rewrite <- (Z.mod_small x (2 ^ k)) by lia. by rewrite Z.mod_pow2_bits_high by lia. }
  pose proof (Z.add_lor_land x (Z.shiftl y k)). rewrite (Z.shiftl_mul_pow2 y k) in * by lia. lia.
Qed.

(** * The parser *)
Section header.
Context (file : list Z) (u8data : cstring).
Hypothesis file_at : has_bytes u8data file.
Hypothesis file_bytes : Forall (λ b, 0 <= b < 256) file.
Hypothesis file_small : Z.of_nat (length file) < 2 ^ 58.

(** The parser stands [cur] bytes into the file, and [r] is left. *)
Definition stands (cur : Z) (r : list Z) : Prop := 0 <= cur <= Z.of_nat (length file) ∧ r = drop (Z.to_nat cur) file.

(** The parser and the format agree on the next position. *)
Definition agree (c : option Z) (r : option (list Z)) : Prop :=
  match c, r with
  | Some cur, Some r => stands cur r
  | None, None => True
  | _, _ => False
  end.

Lemma stands_length cur r : stands cur r → Z.of_nat (length r) = Z.of_nat (length file) - cur.
Proof. intros [H ->]. rewrite length_drop. lia. Qed.

Lemma check_bounds cur r k : stands cur r → 0 <= k < 2 ^ 60 →
  CHECK_BOUNDS cur (Z.of_nat (length file)) k = bool_decide (Z.to_nat k <= length r)%nat.
Proof.
  intros Hs Hk. pose proof (stands_length _ _ Hs). destruct Hs as [Hc _]. unfold CHECK_BOUNDS.
  rewrite u64_id by (unfold is_u64; lia). destruct (Z.leb_spec (cur + k) (Z.of_nat (length file))); case_bool_decide; done || lia.
Qed.

Lemma stands_cons cur b r : stands cur (b :: r) → u8data cur = b ∧ 0 <= b < 256 ∧ stands (cur + 1) r.
Proof.
  intros Hs. pose proof (stands_length _ _ Hs) as Hl. cbn [length] in Hl. destruct Hs as [Hc E].
  assert (file !! Z.to_nat cur = Some b) as Hb.
  { rewrite <- (Nat.add_0_r (Z.to_nat cur)), <- lookup_drop, <- E. done. }
  split; [apply file_at in Hb; by rewrite Z2Nat.id in Hb by lia|]. split.
  - rewrite Forall_forall in file_bytes. apply file_bytes. by eapply list_elem_of_lookup_2.
  - split; [lia|]. rewrite (drop_S _ _ _ Hb) in E. injection E as ->. f_equal. lia.
Qed.

Lemma stands_drop cur r k : stands cur r → 0 <= k → (Z.to_nat k <= length r)%nat → stands (cur + k) (drop (Z.to_nat k) r).
Proof.
  intros Hs Hk Hle. pose proof (stands_length _ _ Hs). destruct Hs as [Hc ->]. split; [lia|]. rewrite drop_drop. f_equal. lia.
Qed.

Lemma skip_bytes_ok {S} cur r k (s : S) : stands cur r → 0 <= k < 2 ^ 60 →
  ∃ c, skip_bytes k (Z.of_nat (length file)) cur s = Ok (c, s) ∧ agree c (skip_n (Z.to_nat k) r).
Proof.
  intros Hs Hk. unfold skip_bytes, skip_n. rewrite (check_bounds cur r) by done.
  case_bool_decide; [|eexists; split; [done|]; by rewrite decide_False]. cbn [negb].
  pose proof Hs as [Hc _]. rewrite u64_id by (unfold is_u64; lia).
  eexists. split; [done|]. rewrite decide_True by done. apply stands_drop; [done|lia|done].
Qed.

Lemma skip_string_ok {S} cur r (s : S) : stands cur r →
  ∃ c, skip_string u8data (Z.of_nat (length file)) cur s = Ok (c, s) ∧ agree c (skip_zero r).
Proof.
  intros Hs. assert (wp (skip_string u8data (Z.of_nat (length file)) cur) s (λ c s', s' = s ∧ agree c (skip_zero r))) as (c & s' & E & -> & Ha)%wp_inv.
  2: by exists c.
  apply (wp_while _ (λ m cur' s', s' = s ∧ ∃ r', m = Z.of_nat (length r') ∧ stands cur' r' ∧ skip_zero r' = skip_zero r) _) with (n := Z.of_nat (length r)).
  - clear cur Hs. intros m cur s' Hm (-> & r' & -> & Hs & E). rewrite (check_bounds cur r') by (done || lia).
    destruct r' as [|b r']; [rewrite bool_decide_false by (cbn; lia); apply wp_ret; split; [done|]; rewrite <- E; done|].
    rewrite bool_decide_true by (cbn; lia). cbn [negb]. destruct (stands_cons _ _ _ Hs) as (-> & _ & Hs').
    destruct Hs as [Hc _]. rewrite u64_id by (unfold is_u64; lia). cbn [skip_zero] in E. destruct (b =? 0).
    + apply wp_ret. split; [done|]. rewrite <- E. done.
    + apply wp_ret. exists (Z.of_nat (length r')). split; [cbn; lia|]. split; [done|]. by exists r'.
  - destruct Hs as [Hc ->]. rewrite length_drop. lia.
  - split; [done|]. by exists r.
Qed.

Lemma u16_of lo hi : 0 <= lo < 256 → 0 <= hi < 256 → u16 (Z.lor (Z.lor 0 lo) (Z.shiftl hi 8)) = lo + 256 * hi.
Proof. intros Hlo Hhi. rewrite Z.lor_0_l, lor_shift by lia. unfold u16. rewrite Z.mod_small; lia. Qed.

Lemma skip_extra_ok {S} cur r (s : S) : stands cur r →
  ∃ c, skip_extra u8data (Z.of_nat (length file)) cur s = Ok (c, s) ∧ agree c (skip_field r).
Proof.
  intros Hs. unfold skip_extra. rewrite (check_bounds cur r) by (done || lia). change (Z.to_nat 2) with 2%nat.
  destruct r as [|lo [|hi r]]; [by exists None..|]. rewrite bool_decide_true by (cbn; lia). cbn [negb skip_field].
  pose proof Hs as [Hc _]. destruct (stands_cons _ _ _ Hs) as (-> & Hlo & Hs1). destruct (stands_cons _ _ _ Hs1) as (Ehi & Hhi & Hs2).
  rewrite (u64_id (cur + 1)), Ehi, u16_of by (done || unfold is_u64; lia).
  replace (cur + 1 + 1) with (cur + 2) in Hs2 by lia. rewrite (u64_id (cur + 2)) by (unfold is_u64; lia).
  exact (skip_bytes_ok (cur + 2) r (lo + 256 * hi) s Hs2 ltac:(lia)).
Qed.

(** An optional part of the header. *)
Lemma optional_ok {S} flag bit k step f c r (s : S) :
  bit = 2 ^ k → 0 <= k → agree c r →
  (∀ cur r, stands cur r → ∃ c, step cur s = Ok (c, s) ∧ agree c (f r)) →
  ∃ c', optional flag bit step c s = Ok (c', s) ∧ agree c' (r ≫= when (Z.testbit flag k) f).
Proof.
  intros -> Hk Ha Hstep. destruct c as [cur|], r as [r|]; try done; [|by exists None]. cbn [mbind option_bind optional].
  assert (negb (Z.land flag (2 ^ k) =? 0) = Z.testbit flag k) as ->.
  { destruct (Z.eqb_spec (Z.land flag (2 ^ k)) 0) as [E|E]; cbn [negb].
    - apply (f_equal (λ x, Z.testbit x k)) in E. rewrite Z.land_spec, Z.pow2_bits_true, andb_true_r, Z.bits_0 in E by lia. done.
    - symmetry. apply not_false_is_true. intros Ef. apply E. apply Z.bits_inj'. intros i Hi.
      rewrite Z.land_spec, Z.bits_0. destruct (decide (i = k)) as [->|]; [by rewrite Ef|]. rewrite Z.pow2_bits_false by done. apply andb_false_r. }
  unfold when. destruct (Z.testbit flag k); [by apply Hstep|]. by exists (Some cur).
Qed.

(** The parser of the header is exact: it accepts the headers of the format
    and finds where the data begins, with every combination of optional fields,
    and refuses every other file, a truncated one included. *)
Lemma gzip_header_ok {S} (s : S) :
  ∃ c, gzip_header u8data (Z.of_nat (length file)) s = Ok (c, s) ∧ agree c (member file).
Proof.
  enough (∀ r, stands 0 r → ∃ c, gzip_header u8data (Z.of_nat (length file)) s = Ok (c, s) ∧ agree c (member r)) as H
    by (apply H; split; [lia|done]).
  intros r0 Hs0. unfold gzip_header. rewrite (check_bounds 0 r0) by (done || lia). change (Z.to_nat 2) with 2%nat.
  destruct r0 as [|id1 [|id2 r1]]; [by exists None..|]. rewrite bool_decide_true by (cbn; lia). cbn [negb].
  destruct (stands_cons _ _ _ Hs0) as (-> & _ & Hs1). destruct (stands_cons _ _ _ Hs1) as (E2 & _ & Hs2). change (0 + 1) with 1 in *. change (1 + 1) with 2 in *. rewrite E2.
  destruct (negb (id1 =? 0x1f) || negb (id2 =? 0x8b)) eqn:Eid.
  { exists None. split; [done|]. destruct r1 as [|cm [|flg r]]; [done..|]. cbn [member].
    destruct (id1 =? 0x1f), (id2 =? 0x8b); done. }
  apply orb_false_iff in Eid as [E1%negb_false_iff E1'%negb_false_iff].
  rewrite (check_bounds 2 r1) by (done || lia). change (Z.to_nat 1) with 1%nat.
  destruct r1 as [|cm r2]; [by exists None|]. rewrite bool_decide_true by (cbn; lia). cbn [negb].
  destruct (stands_cons _ _ _ Hs2) as (-> & _ & Hs3). change (2 + 1) with 3 in *.
  destruct (cm =? 8) eqn:Ecm; cbn [negb].
  2: { exists None. split; [done|]. destruct r2; [done|]. cbn [member]. by rewrite E1, E1', Ecm. }
  rewrite (check_bounds 3 r2) by (done || lia). change (Z.to_nat 1) with 1%nat.
  destruct r2 as [|flg r]; [by exists None|]. rewrite bool_decide_true by (cbn; lia). cbn [negb].
  destruct (stands_cons _ _ _ Hs3) as (-> & _ & Hs4). change (3 + 1) with 4 in *. cbn [member]. rewrite E1, E1', Ecm. cbn [andb].
  destruct (skip_bytes_ok 4 r 6 s Hs4 ltac:(lia)) as (c1 & F1 & A1). erewrite bind_ok; [|exact F1].
  destruct (optional_ok flg FEXTRA 2 (skip_extra u8data (Z.of_nat (length file))) skip_field c1 (skip_n 6 r) s) as (c2 & F2 & A2);
    [done|lia|done|intros; by apply skip_extra_ok|]. erewrite bind_ok; [|exact F2].
  destruct (optional_ok flg FNAME 3 (skip_string u8data (Z.of_nat (length file))) skip_zero c2 _ s eq_refl ltac:(lia) A2) as (c3 & F3 & A3);
    [intros; by apply skip_string_ok|]. erewrite bind_ok; [|exact F3].
  destruct (optional_ok flg FCOMMENT 4 (skip_string u8data (Z.of_nat (length file))) skip_zero c3 _ s eq_refl ltac:(lia) A3) as (c4 & F4 & A4);
    [intros; by apply skip_string_ok|]. erewrite bind_ok; [|exact F4].
  destruct (optional_ok flg FHCRC 1 (skip_bytes 2 (Z.of_nat (length file))) (skip_n 2) c4 _ s eq_refl ltac:(lia) A4) as (c5 & F5 & A5);
    [intros; by apply skip_bytes_ok|]. erewrite bind_ok; [|exact F5].
  match type of A5 with agree _ ?x => set (x5 := x) in A5 end.
  match goal with |- context [agree _ ?y] => assert (y = x5 ≫= (λ r, if decide (9 <= length r)%nat then Some r else None)) as -> end.
  { unfold x5. destruct (skip_n 6 r) as [r6|]; [cbn [mbind option_bind]|done]. destruct (when (Z.testbit flg 2) skip_field r6) as [r7|]; [cbn [mbind option_bind]|done].
    destruct (when (Z.testbit flg 3) skip_zero r7) as [r8|]; [cbn [mbind option_bind]|done]. by destruct (when (Z.testbit flg 4) skip_zero r8). }
  clearbody x5. destruct c5 as [cur|], x5 as [r5|]; try done; [|by exists None]. cbn [agree mbind option_bind] in *.
  rewrite (check_bounds cur r5) by (done || lia). change (Z.to_nat 9) with 9%nat.
  case_decide; [rewrite bool_decide_true by done; by exists (Some cur)|]. rewrite bool_decide_false by done. by exists None.
Qed.

(** The size in the footer. *)
Lemma footer_ok cur r : stands cur r → (9 <= length r)%nat → footer_size u8data (Z.of_nat (length file)) = isize r ∧ 0 <= isize r < 2 ^ 32.
Proof.
  intros Hs Hl. pose proof (stands_length _ _ Hs) as Hlen. pose proof Hs as [Hc _].
  pose proof (stands_drop cur r (Z.of_nat (length r) - 4) Hs ltac:(lia) ltac:(lia)) as Hs4.
  replace (Z.to_nat (Z.of_nat (length r) - 4)) with (length r - 4)%nat in Hs4 by lia.
  replace (cur + (Z.of_nat (length r) - 4)) with (Z.of_nat (length file) - 4) in Hs4 by lia.
  unfold isize. pose proof (length_drop r (length r - 4)) as Hd. destruct (drop (length r - 4) r) as [|b0 [|b1 [|b2 [|b3 [|]]]]]; cbn in Hd; try lia.
  destruct (stands_cons _ _ _ Hs4) as (E0 & R0 & Hs5). destruct (stands_cons _ _ _ Hs5) as (E1 & R1 & Hs6).
  destruct (stands_cons _ _ _ Hs6) as (E2 & R2 & Hs7). destruct (stands_cons _ _ _ Hs7) as (E3 & R3 & _).
  assert (∀ k b, 0 <= k <= 24 → 0 <= b < 256 → u32 (Z.shiftl b k) = Z.shiftl b k) as Hsh.
  { intros k b Hk Hb. unfold u32. apply Z.mod_small. rewrite Z.shiftl_mul_pow2 by lia.
    pose proof (Z.pow_le_mono_r 2 k 24 ltac:(lia) ltac:(lia)). pose proof (Z.pow_pos_nonneg 2 k ltac:(lia) ltac:(lia)). nia. }
  unfold footer_size. rewrite (u64_id (Z.of_nat (length file) - 8)) by (unfold is_u64; lia). rewrite !u64_id by (unfold is_u64; lia).
  replace (Z.of_nat (length file) - 8 + 4) with (Z.of_nat (length file) - 4) by lia. rewrite E0.
  replace (Z.of_nat (length file) - 8 + 5) with (Z.of_nat (length file) - 4 + 1) by lia. rewrite E1.
  replace (Z.of_nat (length file) - 8 + 6) with (Z.of_nat (length file) - 4 + 1 + 1) by lia. rewrite E2.
  replace (Z.of_nat (length file) - 8 + 7) with (Z.of_nat (length file) - 4 + 1 + 1 + 1) by lia. rewrite E3.
  rewrite !Hsh, Z.lor_0_l by lia. rewrite (lor_shift b0 b1 8), (lor_shift (b0 + 2 ^ 8 * b1) b2 16), (lor_shift (b0 + 2 ^ 8 * b1 + 2 ^ 16 * b2) b3 24) by lia. lia.
Qed.

(** The bytes of the deflate data lie behind the header. *)
Lemma body_bytes cur r : stands cur r → (9 <= length r)%nat →
  has_bytes (advance cur u8data) (body r) ∧ u64 (Z.of_nat (length file) - cur - 8) = Z.of_nat (length (body r)) ∧ Z.of_nat (length (body r)) < 2 ^ 58.
Proof.
  intros Hs Hl. pose proof (stands_length _ _ Hs) as Hlen. destruct Hs as [Hc ->]. unfold body. split.
  - intros i b Hb. rewrite lookup_take_Some, lookup_drop in Hb. destruct Hb as [Hb _]. unfold advance.
    replace (cur + Z.of_nat i) with (Z.of_nat (Z.to_nat cur + i)) by lia. by apply file_at.
  - rewrite length_take. rewrite u64_id by (unfold is_u64; lia). lia.
Qed.
End header.

(** * The whole call *)
Section gunzip.
Context {S : Type} `{Blocks S} (data : Z) (file : list Z) (s : S).

(** The bytes of the block at [data]. *)
Definition block_bytes : cstring := λ i, read8 (blk_bytes s data) i.
Hypothesis file_at : has_bytes block_bytes file.
Hypothesis file_small : Z.of_nat (length file) < 2 ^ 58.

Lemma file_bytes_ok : Forall (λ b, 0 <= b < 256) file.
Proof.
  clear file_small. rewrite Forall_forall. intros b [i Hi]%list_elem_of_lookup_1. rewrite <- (file_at i b Hi). apply read8_range.
Qed.

Lemma gzip_refuse : member file = None → kgz_gzip_decompress data (Z.of_nat (length file)) s = Ok (None, s).
Proof.
  intros Hm. unfold kgz_gzip_decompress. erewrite bind_ok; [|reflexivity].
  destruct (gzip_header_ok file block_bytes file_at file_bytes_ok file_small s) as (c & E & Ha). rewrite Hm in Ha.
  destruct c; [done|]. by erewrite bind_ok; [|exact E].
Qed.

Lemma member_length r : member file = Some r → (9 <= length r)%nat.
Proof.
  clear file_at file_small. unfold member. destruct file as [|id1 [|id2 [|cm [|flg r0]]]]; try done. destruct (_ && _); [|done].
  intros (r1 & _ & (r2 & _ & (r3 & _ & (r4 & _ & (r5 & _ & E)%bind_Some)%bind_Some)%bind_Some)%bind_Some)%bind_Some.
  case_decide; by simplify_eq.
Qed.

Lemma run_deflate_ok t r out cur p capacity a (s1 : S) :
  member file = Some r → stands file cur r → inflate_bytes valid_lengths (body r) = Some out → Z.of_nat (length out) <= capacity < 2 ^ 62 →
  tree_ok fixed_lens t → arena_ok a → a_offset a = 0 → a_capacity a = ARENA_SIZE →
  ∃ m, bytes_upto m (Z.of_nat (length out)) = out ∧
    run_deflate t (mk_stream (advance cur block_bytes) (u64 (Z.of_nat (length file) - cur - 8)) 0 0 0 0) p capacity a s1 =
    (blk_store p (Z.of_nat (length out)) m ;;; ret true) s1.
Proof.
  intros Hm Hs Hinf Hcap Ht Ha Ho Hc. destruct (body_bytes file block_bytes file_at file_small cur r Hs (member_length r Hm)) as (Hb & -> & Hlen).
  destruct (inflate_ok t (advance cur block_bytes) (body r) out (blk_bytes s1 p) capacity a) as (c & E & Hout & Hsz & _ & Hpr); try done.
  { intros i. apply read8_range. }
  exists (b_data (output_buffer c)). unfold contents in Hout. rewrite Hsz in Hout. split; [done|].
  unfold run_deflate. erewrite bind_ok; [|reflexivity]. unfold start_ctx in E. rewrite E, Hsz, Hpr. reflexivity.
Qed.
End gunzip.

(** (C17) A gzip file is decompressed: for a well-formed file (any combination
    of header fields) whose deflate data stands for [out], and whose footer
    leaves room for it, with memory for the three blocks, the call writes
    exactly [out] to the first block, gives the two arenas back and returns the
    block, the size of the footer and the capacity. *)
Theorem gunzip_correct {S} `{Blocks S} data file r out (s s1 s2 s3 : S) p a f :
  has_bytes (block_bytes data s) file → Z.of_nat (length file) < 2 ^ 58 →
  member file = Some r → inflate_bytes proper_code (body r) = Some out →
  Z.of_nat (length out) <= u32 (isize r + 1024) →
  blk_malloc (u32 (isize r + 1024)) s = Ok (p, s1) →
  blk_malloc ARENA_SIZE s1 = Ok (a, s2) → 0 < a → a + ARENA_SIZE < 2 ^ 63 →
  blk_malloc FIXED_ARENA_SIZE s2 = Ok (f, s3) → 0 < f → f + FIXED_ARENA_SIZE < 2 ^ 63 →
  ∃ m, bytes_upto m (Z.of_nat (length out)) = out ∧
    kgz_gzip_decompress data (Z.of_nat (length file)) s =
    (blk_store p (Z.of_nat (length out)) m ;;; blk_free a ;;; blk_free f ;;; ret (Some (p, isize r, u32 (isize r + 1024)))) s3.
Proof.
  intros Hat Hlen Hm Hinf%proper_inflate Hfit E1 E2 Ha Ha' E3 Hf Hf'. pose proof (file_bytes_ok data file s Hat) as Hb.
  destruct (gzip_header_ok file _ Hat Hb Hlen s) as (c & Eh & Hs). rewrite Hm in Hs. destruct c as [cur|]; [|done]. cbn [agree] in Hs.
  destruct (footer_ok file _ Hat Hb Hlen cur r Hs (member_length file r Hm)) as [Ef _].
  assert (0 < ARENA_SIZE ∧ 0 < FIXED_ARENA_SIZE) as [Hp1 Hp2] by done.
  destruct (fixed_tree_ok (mk_arena f FIXED_ARENA_SIZE 0)) as (t & off & Et & Ht); [split; cbn -[FIXED_ARENA_SIZE]; lia|done..|].
  destruct (run_deflate_ok data file s Hat Hlen t r out cur p (u32 (isize r + 1024)) (mk_arena a ARENA_SIZE 0) s3) as (m & Hout & Er); try done.
  { pose proof (Z.mod_pos_bound (isize r + 1024) (2 ^ 32) eq_refl). unfold u32 in *. lia. }
  exists m. split; [done|]. unfold kgz_gzip_decompress. erewrite bind_ok; [|reflexivity]. erewrite bind_ok; [|exact Eh]. cbv iota.
  fold (block_bytes data s). rewrite Ef. erewrite bind_ok; [|exact E1].
  erewrite bind_ok. 2: { unfold kgz_arena_init. erewrite bind_ok; [|exact E2]. rewrite (proj2 (Z.eqb_neq a 0)) by lia. reflexivity. }
  erewrite bind_ok. 2: { unfold kgz_arena_init. erewrite bind_ok; [|exact E3]. rewrite (proj2 (Z.eqb_neq f 0)) by lia. reflexivity. }
  rewrite Et. unfold bind at 1. rewrite Er. unfold kgz_arena_free, bind. destruct (blk_store _ _ _ _) as [[[] s4]| |]; [|done..].
  cbn. destruct (blk_free a s4) as [[[] s5]| |]; [|done..]. cbn. by destruct (blk_free f s5) as [[[] s6]| |].
Qed.

(** A file that is not one of the format (wrong magic or method, a
    header field or the footer cut off) is refused: NULL, and nothing has been
    allocated or written. *)
Theorem gunzip_refuses {S} `{Blocks S} data file (s : S) :
  has_bytes (block_bytes data s) file → Z.of_nat (length file) < 2 ^ 58 → member file = None →
  kgz_gzip_decompress data (Z.of_nat (length file)) s = Ok (None, s).
Proof. apply gzip_refuse. Qed.

(** * A heap to run it on: blocks are handed out one behind the other *)
Module Bump.
Definition state : Type := Z * mem_t.

Definition malloc (n : Z) : M state Z := λ '(next, m), Ok (next, (next + n, m)).
Definition store (p n : Z) (b : mem_t) : M state unit := λ '(next, m), Ok (tt, (next, copy_from (Z.to_nat n) m p (read8 b) 0)).

#[global] Instance blocks : Blocks state := {
  blk_malloc := malloc;
  blk_free _ := ret tt;
  blk_bytes '(_, m) p := λ i, m (p + i);
  blk_store := store;
  blk_printf _ _ := ret tt
}.
End Bump.

(** The sample stream in a file with a name and a comment. *)
Definition sample_file : list Z :=
  [31; 139; 8; 24; 0; 0; 0; 0; 2; 3] ++ bytes "a.tar" ++ [0] ++ bytes "x" ++ [0] ++ sample ++ [1; 2; 3; 4; 35; 0; 0; 0].
Definition sample_heap : Bump.state := (65536, of_list sample_file).

Lemma sample_file_at : has_bytes (block_bytes 0 sample_heap) sample_file.
Proof.
  intros i b Hb. assert (i < length sample_file)%nat as Hi by (by eapply lookup_lt_Some). revert i b Hi Hb.
  assert (Forall (λ i, ∀ b, sample_file !! i = Some b → block_bytes 0 sample_heap (Z.of_nat i) = b) (seq 0 (length sample_file))) as HF.
  { repeat constructor; intros b [= <-]; by vm_compute. }
  rewrite Forall_forall in HF. intros i b Hi. apply HF. rewrite elem_of_seq. lia.
Qed.

Lemma gunzip_correct_witness : ∃ m s',
  bytes_upto m 35 = sample_out ∧
  kgz_gzip_decompress 0 (Z.of_nat (length sample_file)) sample_heap = Ok (Some (65536, 35, 1059), s') ∧
  (blk_store 65536 35 m ;;; ret tt) (65536 + 1059 + ARENA_SIZE + FIXED_ARENA_SIZE, of_list sample_file) = Ok (tt, s').
Proof.
  destruct (gunzip_correct 0 sample_file (sample ++ [1; 2; 3; 4; 35; 0; 0; 0]) sample_out sample_heap
    (65536 + 1059, of_list sample_file) (65536 + 1059 + ARENA_SIZE, of_list sample_file) (65536 + 1059 + ARENA_SIZE + FIXED_ARENA_SIZE, of_list sample_file)
    65536 (65536 + 1059) (65536 + 1059 + ARENA_SIZE)) as (m & Hm & E).
  - exact sample_file_at.
  - by vm_compute.
  - by vm_compute.
  - by vm_compute.
  - by vm_compute.
  - reflexivity.
  - reflexivity.
  - by vm_compute.
  - by vm_compute.
  - reflexivity.
  - by vm_compute.
  - by vm_compute.
  - exists m. eexists. split; [exact Hm|]. split; [exact E|reflexivity].
Defined.

Lemma gunzip_refuses_witness : kgz_gzip_decompress 0 12 ((65536, of_list (take 12 sample_file)) : Bump.state) = Ok (None, (65536, of_list (take 12 sample_file))).
Proof.
  apply (gunzip_refuses 0 (take 12 sample_file) ((65536, of_list (take 12 sample_file)) : Bump.state)).
  - intros i b Hb. assert (i < 12)%nat as Hi by (apply lookup_lt_Some in Hb; exact Hb).
    do 12 (destruct i as [|i]; [injection Hb as <-; by vm_compute|]). lia.
  - by vm_compute.
  - by vm_compute.
Defined.
