(* ===== verification/InflateFacts.v ===== *)
(** What the parts of the decompressor do on their own: the bit reader, the
    Huffman trees with their cache, the back copy; streams of stored blocks
    decompressed to what was stored; and two streams that are taken although
    they stand for nothing. *)
From stdpp Require Import base tactics list strings.
From Stdlib Require Import ZArith Lia.
From S2P Require Import Prelude Str Kgz Inflate InflateSpec HuffCode KgzBits KgzTree KgzHuff HuffComplete KgzBuf InflateInv InflateSafe GzipInv.

(** * The bit reader *)

(** Numbers of the given widths, one after the other: read from a stream, and
    cut off a list of bits. *)
Fixpoint read_fields (ks : list Z) : M kgz_bitstream (list Z) :=
  match ks with
  | [] => ret []
  | k :: ks' =>
      let* v := kgz_bitstream_getbits k in
      let* vs := read_fields ks' in
      ret (v :: vs)
  end.
Fixpoint take_fields (ks : list Z) (bs : list bool) : option (list Z * list bool) :=
  match ks with
  | [] => Some ([], bs)
  | k :: ks' =>
      '(v, bs) ← take_num k bs;
      '(vs, bs) ← take_fields ks' bs;
      Some (v :: vs, bs)
  end.

Lemma read_fields_ok d n ks p s vs bs :
  (∀ i, 0 <= d i < 256) → 0 <= n < 2 ^ 58 → Forall (λ k, 0 <= k <= 32) ks → at_pos d n p s → p <= 8 * n →
  take_fields ks (rest d n p) = Some (vs, bs) →
  wp (read_fields ks) s (λ r s', r = vs ∧ ∃ p', at_pos d n p' s' ∧ bs = rest d n p').
Proof.
  intros Hd Hn Hks. revert p s vs bs. induction Hks as [|k ks Hk _ IH]; intros p s vs bs Hs Hp; cbn.
  - intros [= <- <-]. apply wp_ret. split; [done|]. by exists p.
  - intros ([v bs1] & Hv & ([vs' bs2] & Hvs & [= <- <-])%bind_Some)%bind_Some.
    destruct (take_num_rest d n p k v bs1) as (-> & -> & Hle); [lia|done|done|].
    eapply wp_bind, wp_mono; [apply getbits_ok; try done; lia|]. intros r s1 [-> Hs1].
    eapply wp_bind, wp_mono; [by apply (IH (p + k) s1 vs' bs2); [|lia|]|]. intros r s2 (-> & p' & Hs2 & ->).
    apply wp_ret. split; [done|]. by exists p'.
Qed.

(** Reading numbers of up to 32 bits from a stream, through the 64-bit
    buffer that is refilled on the way, gives the numbers that the bits of the
    input stand for, in order. *)
Theorem getbits_reads_bits d data ks vs bs :
  (∀ i, 0 <= d i < 256) → has_bytes d data → Z.of_nat (length data) < 2 ^ 58 → Forall (λ k, 0 <= k <= 32) ks →
  take_fields ks (bits_of data) = Some (vs, bs) →
  ∃ s', read_fields ks (mk_stream d (Z.of_nat (length data)) 0 0 0 0) = Ok (vs, s').
Proof.
  intros Hd Hat Hn Hks Ht. rewrite <- (rest_bits_of d data Hat) in Ht.
  assert (at_pos d (Z.of_nat (length data)) 0 (mk_stream d (Z.of_nat (length data)) 0 0 0 0)) as Hs.
  { apply empty_at_pos with (q := 0). unfold empty_at. split_and!; done || lia. }
  destruct (wp_inv _ _ _ (read_fields_ok d (Z.of_nat (length data)) ks 0 _ vs bs Hd ltac:(lia) Hks Hs ltac:(lia) Ht)) as (r & s' & E & -> & _). by exists s'.
Qed.

Lemma getbits_reads_bits_witness :
  ∃ s', read_fields [3; 0; 13; 32; 7; 32] (mk_stream (of_list sample) 23 0 0 0 0) = Ok ([5; 0; 6339; 329; 16; 1197047936], s').
Proof.
  assert (Forall (λ b, 0 <= b < 256) sample) as Hb by (repeat constructor; lia). destruct (of_list_bytes sample Hb) as [H1 H2].
  eapply (getbits_reads_bits (of_list sample) sample); [exact H1|exact H2|by vm_compute|apply (bool_decide_unpack _); by vm_compute|by vm_compute].
Defined.

(** * Huffman trees *)

(** (C19) For every complete code, and those with a few short words,
    [kgz_huffman_tree_create]
    gives a tree on which every symbol is found by its canonical code: where
    the rest of the input begins with a code, the look-up returns that symbol
    and moves on by just the code. *)
Theorem huffman_tree_decodes lens a :
  proper_code lens → Z.of_nat (length lens) < 2 ^ 16 → arena_ok a → a_offset a + 4134 + 12 * initial_capacity lens <= a_capacity a →
  ∃ t a', kgz_huffman_tree_create lens a = Ok (Some t, a') ∧
    ∀ d n p s sym bs, (∀ j, 0 <= d j < 256) → 0 <= n < 2 ^ 58 → at_pos d n p s → p <= 8 * n →
      decode_symbol (codes lens) 0 (rest d n p) = Some (sym, bs) →
      ∃ s' p', kgz_huffman_tree_lookup t s = Ok (Some sym, s') ∧ at_pos d n p' s' ∧ bs = rest d n p'.
Proof.
  intros Hpc Hlen Ha Hroom. pose proof (proper_valid lens Hlen Hpc) as Hv. destruct (tree_create_ok lens a Hv Ha Hroom) as (t & off & E & Ht & _). eexists t, _. split; [exact E|].
  intros d n p s sym bs Hd Hn Hs Hp Hdec.
  destruct (lookup_decode lens t ltac:(apply Hv) Ht d n p s sym bs Hd Hn Hs Hp Hdec) as [_ (r & s' & El & -> & p' & Hs' & Hbs & _)%wp_inv].
  by exists s', p'.
Qed.

Lemma huffman_tree_decodes_witness :
  ∃ t a', kgz_huffman_tree_create fixed_lens (mk_arena 4096 FIXED_ARENA_SIZE 0) = Ok (Some t, a') ∧
    ∃ s', kgz_huffman_tree_lookup t (mk_stream (of_list sample) 23 0 0 0 0) = Ok (Some 136, s').
Proof.
  assert (Forall (λ b, 0 <= b < 256) sample) as Hb by (repeat constructor; lia). destruct (of_list_bytes sample Hb) as [H1 H2].
  destruct (huffman_tree_decodes fixed_lens (mk_arena 4096 FIXED_ARENA_SIZE 0)) as (t & a' & E & H).
  - apply (bool_decide_unpack _). by vm_compute.
  - by vm_compute.
  - split; [|split|]; vm_compute; done.
  - by vm_compute.
  - exists t, a'. split; [exact E|].
    destruct (H (of_list sample) 23 0 (mk_stream (of_list sample) 23 0 0 0 0) 136 (drop 8 (bits_of sample))) as (s' & p' & El & _); [exact H1|lia| |lia| |].
    + apply empty_at_pos with (q := 0). unfold empty_at. split_and!; done || lia.
    + change 23 with (Z.of_nat (length sample)). rewrite (rest_bits_of (of_list sample) sample H2). by vm_compute.
    + exists s'. exact El.
Defined.

(** (C20) The cache of a tree is transparent: from every state of the stream,
    with every following input, also one that begins with no code, a look-up
    through the 1024 cached entries ends as a walk from the root does. *)
Theorem huffman_cache_transparent lens a t a' s :
  proper_code lens → Z.of_nat (length lens) < 2 ^ 16 → arena_ok a → a_offset a + 4134 + 12 * initial_capacity lens <= a_capacity a →
  kgz_huffman_tree_create lens a = Ok (Some t, a') →
  kgz_huffman_tree_lookup t s = (let* bits := kgz_bitstream_peek MAX_BITS in kgz_huffman_tree_lookup_slow t bits) s.
Proof.
  intros Hpc Hlen Ha Hroom E. pose proof (proper_valid lens Hlen Hpc) as Hv. destruct (tree_create_ok lens a Hv Ha Hroom) as (t' & off & E' & Ht & _). rewrite E in E'. injection E' as <- _.
  by apply (lookup_is_slow lens t (proj1 Hv) Ht).
Qed.

Lemma huffman_cache_transparent_witness : ∃ t a',
  kgz_huffman_tree_create fixed_lens (mk_arena 4096 FIXED_ARENA_SIZE 0) = Ok (Some t, a') ∧
  kgz_huffman_tree_lookup t (mk_stream (of_list sample) 23 0 0 0 0) =
    (let* bits := kgz_bitstream_peek MAX_BITS in kgz_huffman_tree_lookup_slow t bits) (mk_stream (of_list sample) 23 0 0 0 0).
Proof.
  assert (arena_ok (mk_arena 4096 FIXED_ARENA_SIZE 0)) as Ha by (split; [|split|]; vm_compute; done).
  destruct (fixed_tree_ok (mk_arena 4096 FIXED_ARENA_SIZE 0) Ha eq_refl eq_refl) as (t & off & E & _).
  exists t. eexists. split; [exact E|]. eapply (huffman_cache_transparent fixed_lens (mk_arena 4096 FIXED_ARENA_SIZE 0)).
  - apply (bool_decide_unpack _). by vm_compute.
  - by vm_compute.
  - exact Ha.
  - by vm_compute.
  - exact E.
Defined.

(** * The back copy *)

(** The back copy, with its three cases (a run of one byte, distant bytes,
    overlapping bytes), appends what copying byte by byte gives.  It is refused,
    without a change, just when it would reach before the output or beyond the
    buffer; memory outside the free part of the buffer is never written. *)
Theorem lz77copy_correct distance len b :
  buffer_ok b → 0 < distance → 0 <= len < 2 ^ 62 →
  ∃ ok b', kgz_buffer_lz77copy distance len b = Ok (ok, b') ∧
    (ok = true ↔ distance <= b_size b ∧ b_size b + len <= b_capacity b) ∧
    contents b' = (if ok then lz77 (Z.to_nat len) (Z.to_nat distance) (contents b) else contents b) ∧
    ∀ x, x < b_size b ∨ b_capacity b <= x → b_data b' x = b_data b x.
Proof.
  intros Hb Hd Hlen. destruct (buffer_lz77copy_ok distance len b Hb Hd Hlen) as (ok & b' & E & [_ _ Hg] & Hok & Hfail).
  exists ok, b'. split; [done|].
  destruct (decide (distance <= b_size b ∧ b_size b + len <= b_capacity b)) as [[H1 H2]|Hn].
  - destruct (Hok H1 H2) as (-> & _ & Hc & _). by split_and!.
  - destruct Hfail as [-> Hs]; [lia|]. split_and!; [done| |done]. unfold contents. rewrite Hs. apply bytes_upto_ext.
    intros i Hi. unfold read8. rewrite Hg by lia. done.
Qed.

Lemma lz77copy_correct_witness : ∃ b',
  kgz_buffer_lz77copy 2 5 (mk_buffer (of_list [7; 8; 9]) 3 10 []) = Ok (true, b') ∧ contents b' = [7; 8; 9; 8; 9; 8; 9; 8].
Proof.
  destruct (lz77copy_correct 2 5 (mk_buffer (of_list [7; 8; 9]) 3 10 [])) as (ok & b' & E & [_ Hok] & Hc & _); [split; cbn; lia|lia|lia|].
  rewrite Hok in * by (cbn; lia). exists b'. split; [exact E|exact Hc].
Defined.

(** * Stored blocks *)

(** A block that is not compressed: five header bytes and the bytes. *)
Definition stored (last : Z) (c : list Z) : list Z :=
  let len := Z.of_nat (length c) in
  [last; len mod 256; len / 256; 255 - len mod 256; 255 - len / 256] ++ c.

(** Several of them, the last one marked. *)
Fixpoint stored_blocks (c : list Z) (cs : list (list Z)) : list Z :=
  match cs with
  | [] => stored 1 c
  | c' :: cs' => stored 0 c ++ stored_blocks c' cs'
  end.

Definition storable (c : list Z) : Prop := Forall (λ b, 0 <= b < 256) c ∧ Z.of_nat (length c) < 2 ^ 16.

#[export] Instance storable_dec c : Decision (storable c).
Proof. unfold storable. apply _. Defined.

Lemma bits_of_app x y : bits_of (x ++ y) = bits_of x ++ bits_of y.
Proof. unfold bits_of. by rewrite fmap_app, join_app. Qed.

Lemma length_bits_of x : length (bits_of x) = (8 * length x)%nat.
Proof. induction x as [|b x IH]; [done|]. change (bits_of (b :: x)) with (byte_bits b ++ bits_of x). rewrite length_app, IH. change (length (byte_bits b)) with 8%nat. cbn [length]. lia. Qed.

Lemma number_app x y : number (x ++ y) = number x + 2 ^ Z.of_nat (length x) * number y.
Proof.
  induction x as [|b x IH]; cbn [number app length]; [lia|]. rewrite IH, Nat2Z.inj_succ, Z.pow_succ_r by lia. lia.
Qed.

Lemma number_byte b : 0 <= b < 256 → number (byte_bits b) = b.
Proof.
  intros Hb. assert (Forall (λ b, number (byte_bits b) = b) (seqZ 0 256)) as HF by (apply (bool_decide_unpack _); by vm_compute).
  rewrite Forall_forall in HF. apply HF. apply elem_of_seqZ. lia.
Qed.

Lemma take_num_byte b x : 0 <= b < 256 → take_num 8 (bits_of (b :: x)) = Some (b, bits_of x).
Proof.
  intros Hb. unfold take_num. rewrite length_bits_of, decide_True by (cbn; lia). change (bits_of (b :: x)) with (byte_bits b ++ bits_of x).
  rewrite take_app_length' by done. rewrite drop_app_length' by done. by rewrite number_byte.
Qed.

Lemma take_num_word lo hi x : 0 <= lo < 256 → 0 <= hi < 256 → take_num 16 (bits_of (lo :: hi :: x)) = Some (lo + 256 * hi, bits_of x).
Proof.
  intros Hlo Hhi. unfold take_num. rewrite length_bits_of, decide_True by (cbn; lia).
  replace (bits_of (lo :: hi :: x)) with ((byte_bits lo ++ byte_bits hi) ++ bits_of x) by (unfold bits_of; cbn; by rewrite <- app_assoc).
  rewrite take_app_length' by done. rewrite drop_app_length' by done. rewrite number_app, !number_byte by done. done.
Qed.

Lemma take_bytes_bits c x : Forall (λ b, 0 <= b < 256) c → take_bytes_of (length c) (bits_of (c ++ x)) = Some (c, bits_of x).
Proof.
  induction 1 as [|b c Hb _ IH]; [done|]. cbn [length take_bytes_of]. change ((b :: c) ++ x) with (b :: c ++ x).
  rewrite take_num_byte by done. cbn [mbind option_bind]. rewrite IH. done.
Qed.

Lemma stored_block_bits c x out b : storable c → 0 <= b < 256 →
  stored_block out (drop 3 (bits_of (stored b c ++ x))) = Some (out ++ c, bits_of x).
Proof.
  intros [Hc Hlen] Hb. unfold stored_block, stored. remember (Z.of_nat (length c)) as len eqn:Elen.
  assert (0 <= len) by lia.
  assert (0 <= len / 256 < 256 ∧ 0 <= len mod 256 < 256 ∧ len = len mod 256 + 256 * (len / 256)) as (H1 & H2 & H3).
  { split; [split; [by apply Z.div_pos|by apply Z.div_lt_upper_bound]|]. split; [by apply Z.mod_pos_bound|]. rewrite Z.add_comm. by apply Z.div_mod. }
  set (hi := len / 256) in *. set (lo := len mod 256) in *.
  match goal with |- context [drop 3 ?y] => assert (drop (length (drop 3 y) mod 8) (drop 3 y) = bits_of (lo :: hi :: (255 - lo) :: (255 - hi) :: c ++ x)) as -> end.
  { rewrite length_drop, length_bits_of. match goal with |- context [((?y - 3) mod 8)%nat] => assert ((y - 3) mod 8 = 5)%nat as -> end.
    { cbn [app length]. generalize (length (c ++ x)). intros k. replace (8 * _ - 3)%nat with (5 + (k + 4) * 8)%nat by lia. by rewrite Nat.Div0.mod_add. }
    by rewrite drop_drop. }
  rewrite take_num_word by done. cbn [mbind option_bind]. rewrite take_num_word by lia. cbn [mbind option_bind].
  rewrite (proj2 (Z.eqb_eq _ _)) by lia. rewrite <- H3, Elen, Nat2Z.id, take_bytes_bits by done. done.
Qed.

Lemma inflate_stored_blocks valid `{∀ l, Decision (valid l)} c cs out fuel :
  storable c → Forall storable cs → (length cs < fuel)%nat →
  fst <$> inflate valid fuel out (bits_of (stored_blocks c cs)) = Some (out ++ c ++ concat cs).
Proof.
  intros Hc Hcs. revert c out fuel Hc. induction Hcs as [|c' cs Hc' _ IH]; intros c out fuel Hc Hf; (destruct fuel as [|fuel]; [cbn in Hf; lia|]).
  - cbn [stored_blocks]. assert (inflate valid (S fuel) out (bits_of (stored 1 c)) =
      '(out, bs) ← stored_block out (drop 3 (bits_of (stored 1 c))); Some (out, bs)) as -> by done.
    rewrite <- (app_nil_r (stored 1 c)), stored_block_bits by (done || lia). cbn. by rewrite app_nil_r.
  - cbn [stored_blocks]. assert (inflate valid (S fuel) out (bits_of (stored 0 c ++ stored_blocks c' cs)) =
      '(out, bs) ← stored_block out (drop 3 (bits_of (stored 0 c ++ stored_blocks c' cs))); inflate valid fuel out bs) as -> by done.
    rewrite stored_block_bits by (done || lia). cbn [mbind option_bind]. rewrite IH by (done || cbn in Hf; lia). cbn. by rewrite <- app_assoc.
Qed.

Lemma length_stored_blocks c cs : (length cs < 8 * length (stored_blocks c cs))%nat.
Proof.
  revert c. induction cs as [|c' cs IH]; intros c; cbn [stored_blocks length]; [unfold stored; cbn; lia|].
  rewrite length_app. specialize (IH c'). unfold stored. cbn [app length]. lia.
Qed.

(** Round trip: bytes stored in any number of blocks of up to 65535 come
    back as they were, whatever bytes they are. *)
Theorem inflate_stored_roundtrip c cs d m capacity fixed_arena a :
  storable c → Forall storable cs →
  (∀ i, 0 <= d i < 256) → has_bytes d (stored_blocks c cs) → Z.of_nat (length (stored_blocks c cs)) < 2 ^ 58 →
  Z.of_nat (length (c ++ concat cs)) <= capacity < 2 ^ 62 →
  arena_ok fixed_arena → a_offset fixed_arena = 0 → a_capacity fixed_arena = FIXED_ARENA_SIZE →
  arena_ok a → a_offset a = 0 → a_capacity a = ARENA_SIZE →
  ∃ t fa c', kgz_huffman_tree_create fixed_codes fixed_arena = Ok (Some t, fa) ∧
    kgz_deflate_decompress (start_ctx t d (Z.of_nat (length (stored_blocks c cs))) m capacity a) = Ok (true, c') ∧
    contents (output_buffer c') = c ++ concat cs.
Proof.
  intros Hc Hcs Hd Hat Hlen Hcap Hfa Hfo Hfc Ha Ho Hac.
  assert (inflate_bytes valid_lengths (stored_blocks c cs) = Some (c ++ concat cs)) as Hinf.
  { unfold inflate_bytes. apply (inflate_stored_blocks valid_lengths c cs []); [done..|]. apply length_stored_blocks. }
  destruct (fixed_tree_ok fixed_arena) as (t & off & Et & Ht); [done..|].
  destruct (inflate_ok t d _ _ m capacity a Hd Hat Hlen Ht Hinf Hcap Ha Ho Hac) as (c' & E & Hout & _). eexists t, _, c'. by split_and!.
Qed.

Lemma inflate_stored_roundtrip_witness : ∃ t fa c',
  kgz_huffman_tree_create fixed_codes (mk_arena 4096 FIXED_ARENA_SIZE 0) = Ok (Some t, fa) ∧
  kgz_deflate_decompress (start_ctx t (of_list (stored_blocks [1; 2] [[3]; []])) 18 (λ _, 0) 16 (mk_arena 65536 ARENA_SIZE 0)) = Ok (true, c') ∧
  contents (output_buffer c') = [1; 2; 3].
Proof.
  assert (Forall (λ b, 0 <= b < 256) (stored_blocks [1; 2] [[3]; []])) as Hb by (apply (bool_decide_unpack _); by vm_compute).
  destruct (of_list_bytes _ Hb) as [H1 H2].
  apply (inflate_stored_roundtrip [1; 2] [[3]; []]); [| | | |by vm_compute|cbn; lia| |reflexivity|reflexivity| |reflexivity|reflexivity].
  - apply (bool_decide_unpack _). by vm_compute.
  - apply (bool_decide_unpack _). by vm_compute.
  - exact H1.
  - exact H2.
  - split; [|split|]; vm_compute; done.
  - split; [|split|]; vm_compute; done.
Defined.

(** * Streams that stand for nothing *)

(** Three bytes of input, a stored block cut off behind its length, and
    whatever lies behind them. *)
Definition cut_off (e : cstring) : cstring := λ i, if i =? 0 then 1 else if i <? 3 then 255 else e i.

(** The header of the block: the missing complement of the length reads as
    zero, which matches, and the position ends up behind the input. *)
Lemma cut_off_header (e : cstring) :
  kgz_bitstream_getbits 1 (mk_stream (cut_off e) 3 0 0 0 0) = Ok (1, mk_stream (cut_off e) 3 0 1 8388480 23) ∧
  kgz_bitstream_getbits 2 (mk_stream (cut_off e) 3 0 1 8388480 23) = Ok (0, mk_stream (cut_off e) 3 0 3 2097120 21) ∧
  kgz_bitstream_align (mk_stream (cut_off e) 3 0 3 2097120 21) = Ok (tt, mk_stream (cut_off e) 3 1 0 0 0) ∧
  kgz_bitstream_read_u16 (mk_stream (cut_off e) 3 1 0 0 0) = Ok (65535, mk_stream (cut_off e) 3 3 0 0 0) ∧
  kgz_bitstream_read_u16 (mk_stream (cut_off e) 3 3 0 0 0) = Ok (0, mk_stream (cut_off e) 3 5 0 0 240).
Proof. split_and!; vm_compute; reflexivity. Qed.

Lemma behind_cut_off m e n : contents (mk_buffer m 0 n []) ++ (advance 5 (cut_off e) <$> seqZ 0 n) = e <$> seqZ 5 n.
Proof.
  change (contents (mk_buffer m 0 n [])) with ([] : list Z). cbn [app].
  replace (seqZ 5 n) with (Z.add 5 <$> seqZ 0 n) by (rewrite fmap_add_seqZ; f_equal; lia). rewrite <- list_fmap_compose.
  apply list_fmap_ext. intros i j [-> Hj]%lookup_seqZ. unfold advance, cut_off, compose.
  destruct (Z.eqb_spec (5 + (0 + Z.of_nat i)) 0), (Z.ltb_spec (5 + (0 + Z.of_nat i)) 3); lia || done.
Qed.

(** A stored block that is cut off behind its length is accepted, and the
    65535 bytes behind the input in memory are returned as its contents: the
    number of bytes left is computed by a subtraction that wraps around. *)
Theorem stored_block_overreads tree e m a :
  (∀ i, 0 <= e i < 256) → ∃ c,
    kgz_deflate_decompress (start_ctx tree (cut_off e) 3 m 65535 a) = Ok (true, c) ∧
    contents (output_buffer c) = e <$> seqZ 5 65535.
Proof.
  intros He. destruct (cut_off_header e) as (E1 & E2 & E3 & E4 & E5).
  destruct (buffer_insert_bulk_ok (advance 5 (cut_off e)) 65535 (mk_buffer m 0 65535 [])) as (ok & b' & E & _ & Hok & _); [split; cbn; lia|lia|].
  destruct Hok as (-> & Hout & _); [cbn; lia|intros j; unfold advance, cut_off; repeat case_match; lia || apply He|].
  assert (wp kgz_deflate_decompress (start_ctx tree (cut_off e) 3 m 65535 a) (λ r c, r = true ∧ output_buffer c = b')) as (r & c & Er & -> & Hc)%wp_inv.
  2: { exists c. split; [exact Er|]. rewrite Hc, Hout. apply behind_cut_off. }
  apply (wp_while _ (λ k (last : bool) c, if last then k = 0 ∧ output_buffer c = b' else k = 1 ∧ c = start_ctx tree (cut_off e) 3 m 65535 a) _) with (n := 1); [|lia|done].
  intros k last c _ Hk. unfold deflate_round. destruct last; [apply wp_ret; by destruct Hk|]. destruct Hk as [-> ->].
  eapply wp_bind, wp_zoom, wp_ok; [exact E1|]. eapply wp_bind, wp_zoom, wp_ok; [exact E2|]. cbn [Z.eqb].
  change (u8 0 =? 3) with false. change (u8 0 =? 0) with true. cbv iota. eapply wp_bind.
  unfold kgz_dflt_handle_stored. eapply wp_bind, wp_zoom, wp_ok; [exact E3|]. eapply wp_bind, wp_zoom, wp_ok; [exact E4|]. eapply wp_bind, wp_zoom, wp_ok; [exact E5|].
  change (negb (65535 =? Z.land (Z.lnot 0) 0xffff)) with false. cbv iota. wp_step.
  cbn [bitstream data_len current_byte s_data]. change (u64 (3 - 5) <? 65535) with false. cbv iota.
  eapply wp_bind, wp_zoom, wp_ok; [exact E|]. cbn [negb]. eapply wp_bind, wp_zoom. wp_step. wp_step.
  eapply wp_bind, wp_zoom. wp_step. wp_step. exists 0. exact (conj (conj (Z.le_refl 0) eq_refl) (conj eq_refl eq_refl)).
Qed.

Lemma stored_block_overreads_witness : ∃ c,
  kgz_deflate_decompress (start_ctx (mk_tree [] 0 [] 0 0) (cut_off (λ i, i mod 256)) 3 (λ _, 0) 65535 (mk_arena 65536 ARENA_SIZE 0)) = Ok (true, c) ∧
  contents (output_buffer c) = (λ i, i mod 256) <$> seqZ 5 65535.
Proof.
  apply (stored_block_overreads (mk_tree [] 0 [] 0 0) (λ i, i mod 256)). intros i. by apply Z.mod_pos_bound.
Defined.

(** The sample stream cut off after [k] bytes, in a file. *)
Definition truncated_file (k : nat) : list Z := [31; 139; 8; 0; 0; 0; 0; 0; 2; 3] ++ take k sample ++ [1; 2; 3; 4; 35; 0; 0; 0].

(** A deflate stream that is cut off stands for nothing, but the file is
    decompressed with success: the end of the input, like a code that no symbol
    has, ends a block as its last symbol does, and the size that is returned is
    that of the footer, 35, of which only three bytes have been written. *)
Theorem truncated_stream_accepted :
  inflate_bytes proper_code (body (take 16 sample ++ [1; 2; 3; 4; 35; 0; 0; 0])) = None ∧
  ∃ next m, kgz_gzip_decompress 0 (Z.of_nat (length (truncated_file 16))) ((65536, of_list (truncated_file 16)) : Bump.state)
      = Ok (Some (65536, 35, 1059), (next, m)) ∧
    bytes_upto (λ i, m (65536 + i)) 35 = bytes "aba" ++ replicate 32 0.
Proof. split; [by vm_compute|]. eexists _, _. split; vm_compute; reflexivity. Qed.
