(* ===== verification/Npf.v ===== *)
(** Formatted output ([kernel/deps/nanoprintf.h]) in the kernel's configuration
    ([libc/stdio.c]): field widths, precisions, all lengths of integers, binary
    numbers and write-back, no floating point.

    The arguments of a call are the slots [va_arg] takes one after the other,
    eight bytes each; [text p] is the string at the pointer [p].  Neither changes
    during the call: the buffer of [npf_vsnprintf] is [restrict]. *)
From stdpp Require Import base tactics list strings.
From Stdlib Require Import ZArith Lia Ascii.
From S2P Require Import Prelude Str.

(** * The format specification *)
Inductive npf_opt := NPF_FMT_SPEC_OPT_NONE | NPF_FMT_SPEC_OPT_LITERAL | NPF_FMT_SPEC_OPT_STAR.

Inductive npf_len_mod :=
  | NPF_FMT_SPEC_LEN_MOD_NONE
  | NPF_FMT_SPEC_LEN_MOD_SHORT
  | NPF_FMT_SPEC_LEN_MOD_CHAR
  | NPF_FMT_SPEC_LEN_MOD_LONG
  | NPF_FMT_SPEC_LEN_MOD_LONG_DOUBLE
  | NPF_FMT_SPEC_LEN_MOD_LARGE_LONG_LONG
  | NPF_FMT_SPEC_LEN_MOD_LARGE_INTMAX
  | NPF_FMT_SPEC_LEN_MOD_LARGE_SIZET
  | NPF_FMT_SPEC_LEN_MOD_LARGE_PTRDIFFT.

Inductive npf_conv :=
  | NPF_FMT_SPEC_CONV_NONE
  | NPF_FMT_SPEC_CONV_PERCENT
  | NPF_FMT_SPEC_CONV_CHAR
  | NPF_FMT_SPEC_CONV_STRING
  | NPF_FMT_SPEC_CONV_SIGNED_INT
  | NPF_FMT_SPEC_CONV_BINARY
  | NPF_FMT_SPEC_CONV_OCTAL
  | NPF_FMT_SPEC_CONV_HEX_INT
  | NPF_FMT_SPEC_CONV_UNSIGNED_INT
  | NPF_FMT_SPEC_CONV_POINTER
  | NPF_FMT_SPEC_CONV_WRITEBACK.

#[export] Instance npf_opt_eq : EqDecision npf_opt.
Proof. solve_decision. Defined.
#[export] Instance npf_len_mod_eq : EqDecision npf_len_mod.
Proof. solve_decision. Defined.
#[export] Instance npf_conv_eq : EqDecision npf_conv.
Proof. solve_decision. Defined.

Record npf_format_spec := mk_spec {
  field_width : Z;
  prec : Z;
  prec_opt : npf_opt;
  field_width_opt : npf_opt;
  left_justified : Z;
  leading_zero_pad : Z;
  prepend : Z;
  alt_form : Z;
  case_adjust : Z;
  length_modifier : npf_len_mod;
  conv_spec : npf_conv
}.

Definition set_flags (fs : npf_format_spec) (l z p a : Z) : npf_format_spec :=
  mk_spec (field_width fs) (prec fs) (prec_opt fs) (field_width_opt fs) l z p a (case_adjust fs) (length_modifier fs) (conv_spec fs).
Definition set_width (fs : npf_format_spec) (w : Z) (o : npf_opt) : npf_format_spec :=
  mk_spec w (prec fs) (prec_opt fs) o (left_justified fs) (leading_zero_pad fs) (prepend fs) (alt_form fs) (case_adjust fs)
    (length_modifier fs) (conv_spec fs).
Definition set_prec (fs : npf_format_spec) (p : Z) (o : npf_opt) : npf_format_spec :=
  mk_spec (field_width fs) p o (field_width_opt fs) (left_justified fs) (leading_zero_pad fs) (prepend fs) (alt_form fs) (case_adjust fs)
    (length_modifier fs) (conv_spec fs).
Definition set_length (fs : npf_format_spec) (m : npf_len_mod) : npf_format_spec :=
  mk_spec (field_width fs) (prec fs) (prec_opt fs) (field_width_opt fs) (left_justified fs) (leading_zero_pad fs) (prepend fs) (alt_form fs)
    (case_adjust fs) m (conv_spec fs).
Definition set_conv (fs : npf_format_spec) (c : npf_conv) (adj : Z) : npf_format_spec :=
  mk_spec (field_width fs) (prec fs) (prec_opt fs) (field_width_opt fs) (left_justified fs) (leading_zero_pad fs) (prepend fs) (alt_form fs)
    adj (length_modifier fs) c.

(** * [npf_parse_format_spec] *)
Section parse.
Context {S : Type}.
Implicit Types (format : cstring) (fs : npf_format_spec).

(** What the function stores before it reads the flags. *)
Definition initial_spec : npf_format_spec :=
  mk_spec 0 0 NPF_FMT_SPEC_OPT_NONE NPF_FMT_SPEC_OPT_NONE 0 0 0 0 (chr "a" - chr "A") NPF_FMT_SPEC_LEN_MOD_NONE NPF_FMT_SPEC_CONV_NONE.

(** [while ( *++cur) switch ( *cur)]: the next flag. *)
Definition flags_round format (st : Z * npf_format_spec) : M S (Z * npf_format_spec + Z * npf_format_spec) :=
  let '(cur, fs) := st in
  let cur := cur + 1 in
  let c := format cur in
  if c =? 0 then ret (inr (cur, fs))
  else if c =? chr "-" then ret (inl (cur, set_flags fs (chr "-") (leading_zero_pad fs) (prepend fs) (alt_form fs)))
  else if c =? chr "0" then ret (inl (cur, set_flags fs (left_justified fs) 1 (prepend fs) (alt_form fs)))
  else if c =? chr "+" then ret (inl (cur, set_flags fs (left_justified fs) (leading_zero_pad fs) (chr "+") (alt_form fs)))
  else if c =? chr " " then
    ret (inl (cur, if prepend fs =? 0 then set_flags fs (left_justified fs) (leading_zero_pad fs) (chr " ") (alt_form fs) else fs))
  else if c =? chr "#" then ret (inl (cur, set_flags fs (left_justified fs) (leading_zero_pad fs) (prepend fs) (chr "#")))
  else ret (inr (cur, fs)).

Definition is_digit (c : Z) : bool := (chr "0" <=? c) && (c <=? chr "9").

(** [while (digit) n = n * 10 + ( *cur++ - '0')] *)
Definition digits_round format (st : Z * Z) : M S (Z * Z + Z * Z) :=
  let '(cur, n) := st in
  if is_digit (format cur) then
    let* p := mul_i 32 n 10 in
    let* n := add_i 32 p (format cur - chr "0") in
    ret (inl (cur + 1, n))
  else ret (inr (cur, n)).

Definition parse_width format (cur : Z) fs : M S (Z * npf_format_spec) :=
  if format cur =? chr "*" then ret (cur + 1, set_width fs 0 NPF_FMT_SPEC_OPT_STAR)
  else
    let* r := while_ (digits_round format) (cur, 0) in
    ret (r.1, set_width fs r.2 (if is_digit (format cur) then NPF_FMT_SPEC_OPT_LITERAL else NPF_FMT_SPEC_OPT_NONE)).

Definition parse_prec format (cur : Z) fs : M S (Z * npf_format_spec) :=
  if format cur =? chr "." then
    let cur := cur + 1 in
    if format cur =? chr "*" then ret (cur + 1, set_prec fs 0 NPF_FMT_SPEC_OPT_STAR)
    else
      let '(cur, opt) := if format cur =? chr "-" then (cur + 1, NPF_FMT_SPEC_OPT_NONE) else (cur, NPF_FMT_SPEC_OPT_LITERAL) in
      let* r := while_ (digits_round format) (cur, 0) in
      ret (r.1, set_prec fs r.2 opt)
  else ret (cur, set_prec fs 0 NPF_FMT_SPEC_OPT_NONE).

Definition parse_length format (cur : Z) : Z * npf_len_mod :=
  let c := format cur in
  if c =? chr "h" then
    if format (cur + 1) =? chr "h" then (cur + 2, NPF_FMT_SPEC_LEN_MOD_CHAR) else (cur + 1, NPF_FMT_SPEC_LEN_MOD_SHORT)
  else if c =? chr "l" then
    if format (cur + 1) =? chr "l" then (cur + 2, NPF_FMT_SPEC_LEN_MOD_LARGE_LONG_LONG) else (cur + 1, NPF_FMT_SPEC_LEN_MOD_LONG)
  else if c =? chr "j" then (cur + 1, NPF_FMT_SPEC_LEN_MOD_LARGE_INTMAX)
  else if c =? chr "z" then (cur + 1, NPF_FMT_SPEC_LEN_MOD_LARGE_SIZET)
  else if c =? chr "t" then (cur + 1, NPF_FMT_SPEC_LEN_MOD_LARGE_PTRDIFFT)
  else (cur, NPF_FMT_SPEC_LEN_MOD_NONE).

(** The conversion of a character and the adjustment of case it leaves. *)
Definition parse_conv (c adj : Z) : option (npf_conv * Z) :=
  if c =? chr "%" then Some (NPF_FMT_SPEC_CONV_PERCENT, adj)
  else if c =? chr "c" then Some (NPF_FMT_SPEC_CONV_CHAR, adj)
  else if c =? chr "s" then Some (NPF_FMT_SPEC_CONV_STRING, adj)
  else if (c =? chr "i") || (c =? chr "d") then Some (NPF_FMT_SPEC_CONV_SIGNED_INT, adj)
  else if c =? chr "o" then Some (NPF_FMT_SPEC_CONV_OCTAL, adj)
  else if c =? chr "u" then Some (NPF_FMT_SPEC_CONV_UNSIGNED_INT, adj)
  else if c =? chr "X" then Some (NPF_FMT_SPEC_CONV_HEX_INT, 0)
  else if c =? chr "x" then Some (NPF_FMT_SPEC_CONV_HEX_INT, adj)
  else if c =? chr "n" then Some (NPF_FMT_SPEC_CONV_WRITEBACK, adj)
  else if c =? chr "p" then Some (NPF_FMT_SPEC_CONV_POINTER, adj)
  else if c =? chr "B" then Some (NPF_FMT_SPEC_CONV_BINARY, 0)
  else if c =? chr "b" then Some (NPF_FMT_SPEC_CONV_BINARY, adj)
  else None.

(** The specification and its length; [None] is [return 0].  [format] points at
    the percent sign. *)
Definition npf_parse_format_spec format : M S (option (Z * npf_format_spec)) :=
  let* r := while_ (flags_round format) (0, initial_spec) in
  let* r := parse_width format r.1 r.2 in
  let* r := parse_prec format r.1 r.2 in
  let '(cur, m) := parse_length format r.1 in
  let fs := set_length r.2 m in
  match parse_conv (format cur) (case_adjust fs) with
  | None => ret None
  | Some (c, adj) => ret (Some (cur + 1, set_conv fs c adj))
  end.

(** * Numbers *)

(** The characters of [cbuf]. *)
Definition NANOPRINTF_CONVERSION_BUFFER_SIZE : Z := 23.

(** [do { ... } while (val)]: the next digit. *)
Definition utoa_round (base case_adj : Z) (st : Z * list Z) : M S (Z * list Z + list Z) :=
  let '(val, buf) := st in
  let d := val mod base in
  let buf := buf ++ [(if d <? 10 then chr "0" else chr "A" - 10 + case_adj) + d] in
  let val := val / base in
  if val =? 0 then ret (inr buf) else ret (inl (val, buf)).

(** The digits, the last one first; their number is the length. *)
Definition npf_utoa_rev (val base case_adj : Z) : M S (list Z) := while_ (utoa_round base case_adj) (val, []).

(** The number of binary digits. *)
Definition npf_bin_len (u : Z) : Z := if u =? 0 then 1 else Z.log2 u + 1.
End parse.

(** * [npf_vpprintf] *)
Section printf.
Context {S : Type}.
(** The sink [pc(c, pc_ctx)], the strings in memory, and a store of [n] bytes
    through a pointer. *)
Context (pc : Z → M S unit) (text : Z → cstring) (writeback : Z → Z → Z → M S unit).
(** The argument slots. *)
Context (args : Z → Z).

(** [npf_putc_cnt] *)
Definition npf_putc_cnt (c n : Z) : M S Z :=
  let* n := add_i 32 n 1 in
  pc c ;;;
  ret n.

(** [k] times the same character; the characters at [i], [i + 1], ...; those at
    [k - 1], ..., 0. *)
Fixpoint put_times (k : nat) (c n : Z) : M S Z :=
  match k with
  | O => ret n
  | Datatypes.S k' => let* n := npf_putc_cnt c n in put_times k' c n
  end.
Fixpoint put_forward (k : nat) (cbuf : cstring) (i n : Z) : M S Z :=
  match k with
  | O => ret n
  | Datatypes.S k' => let* n := npf_putc_cnt (i8 (cbuf i)) n in put_forward k' cbuf (i + 1) n
  end.
Fixpoint put_backward (k : nat) (cbuf : cstring) (n : Z) : M S Z :=
  match k with
  | O => ret n
  | Datatypes.S k' => let* n := npf_putc_cnt (i8 (cbuf (Z.of_nat k'))) n in put_backward k' cbuf n
  end.
Fixpoint put_binary (k : nat) (binval n : Z) : M S Z :=
  match k with
  | O => ret n
  | Datatypes.S k' => let* n := npf_putc_cnt (chr "0" + Z.land (Z.shiftr binval (Z.of_nat k')) 1) n in put_binary k' binval n
  end.

(** [va_arg] with the conversion of [NPF_EXTRACT], for signed and unsigned
    arguments. *)
Definition extract_signed (m : npf_len_mod) (slot : Z) : Z :=
  match m with
  | NPF_FMT_SPEC_LEN_MOD_NONE => i32 slot
  | NPF_FMT_SPEC_LEN_MOD_SHORT => signed 16 (i32 slot)
  | NPF_FMT_SPEC_LEN_MOD_CHAR => i8 (i32 slot)
  | NPF_FMT_SPEC_LEN_MOD_LONG_DOUBLE => 0
  | _ => i64 slot
  end.
Definition extract_unsigned (m : npf_len_mod) (slot : Z) : Z :=
  match m with
  | NPF_FMT_SPEC_LEN_MOD_NONE => u32 slot
  | NPF_FMT_SPEC_LEN_MOD_SHORT => u16 (u32 slot)
  | NPF_FMT_SPEC_LEN_MOD_CHAR => u8 (u32 slot)
  | NPF_FMT_SPEC_LEN_MOD_LONG_DOUBLE => 0
  | _ => u64 slot
  end.
(** [default: break] takes no argument. *)
Definition takes_arg (m : npf_len_mod) : Z := if decide (m = NPF_FMT_SPEC_LEN_MOD_LONG_DOUBLE) then 0 else 1.
(** The size of the type that [NPF_WRITEBACK] stores. *)
Definition writeback_size (m : npf_len_mod) : Z :=
  match m with
  | NPF_FMT_SPEC_LEN_MOD_NONE => 4
  | NPF_FMT_SPEC_LEN_MOD_SHORT => 2
  | NPF_FMT_SPEC_LEN_MOD_CHAR => 1
  | _ => 8
  end.

(** The star arguments: the specification and the next slot. *)
Definition star_width (fs : npf_format_spec) (a : Z) : M S (npf_format_spec * Z) :=
  if decide (field_width_opt fs = NPF_FMT_SPEC_OPT_STAR) then
    let w := i32 (args a) in
    if w <? 0 then
      let* w := sub_i 32 0 w in
      ret (set_flags (set_width fs w NPF_FMT_SPEC_OPT_STAR) 1 (leading_zero_pad fs) (prepend fs) (alt_form fs), a + 1)
    else ret (set_width fs w NPF_FMT_SPEC_OPT_STAR, a + 1)
  else ret (fs, a).
Definition star_prec (fs : npf_format_spec) (a : Z) : npf_format_spec * Z :=
  if decide (prec_opt fs = NPF_FMT_SPEC_OPT_STAR) then
    let p := i32 (args a) in
    (if p <? 0 then set_prec fs 0 NPF_FMT_SPEC_OPT_NONE else set_prec fs p NPF_FMT_SPEC_OPT_STAR, a + 1)
  else (fs, a).

Definition is_int_conv (c : npf_conv) : bool :=
  match c with
  | NPF_FMT_SPEC_CONV_SIGNED_INT | NPF_FMT_SPEC_CONV_OCTAL | NPF_FMT_SPEC_CONV_HEX_INT | NPF_FMT_SPEC_CONV_UNSIGNED_INT => true
  | _ => false
  end.

(** The default precision of a pointer; the '0' flag without effect. *)
Definition defaults (fs : npf_format_spec) : npf_format_spec :=
  let fs := if decide (prec_opt fs = NPF_FMT_SPEC_OPT_NONE ∧ conv_spec fs = NPF_FMT_SPEC_CONV_POINTER)
            then set_prec fs ((8 * 8 + 3) / 4) NPF_FMT_SPEC_OPT_NONE else fs in
  if bool_decide (prec_opt fs ≠ NPF_FMT_SPEC_OPT_NONE) && is_int_conv (conv_spec fs)
  then set_flags fs (left_justified fs) 0 (prepend fs) (alt_form fs) else fs.

(** The variables of one conversion: the text ([cbuf], and [binval] of the
    union), its length, the sign, the prefix, [zero]. *)
Record conversion := mk_conversion {
  cv_fs : npf_format_spec;
  cv_null : bool;
  cv_cbuf : cstring;
  cv_binval : Z;
  cv_len : Z;
  cv_sign : Z;
  cv_0x : Z;
  cv_zero : bool;
  cv_args : Z
}.

(** The loop that measures a string. *)
Definition string_length (fs : npf_format_spec) (p : Z) : M S Z :=
  while_ (λ cbuf_len,
    if bool_decide (prec_opt fs = NPF_FMT_SPEC_OPT_NONE) || (cbuf_len <? prec fs) then
      if negb (p =? 0) && negb (text p cbuf_len =? 0) then
        let* n := add_i 32 cbuf_len 1 in
        ret (inl n)
      else ret (inr cbuf_len)
    else ret (inr cbuf_len)) 0.

Definition explicit_zero (fs : npf_format_spec) (val : Z) : bool :=
  (val =? 0) && negb (bool_decide (prec_opt fs = NPF_FMT_SPEC_OPT_NONE)) && (prec fs =? 0).

Definition convert_signed (fs : npf_format_spec) (a : Z) : M S conversion :=
  let val := extract_signed (length_modifier fs) (args a) in
  let a := a + takes_arg (length_modifier fs) in
  let sign_c := if val <? 0 then chr "-" else prepend fs in
  let* cbuf := (if explicit_zero fs val then ret [] else npf_utoa_rev (if val <? 0 then u64 (0 - u64 val) else u64 val) 10 (case_adjust fs)) in
  ret (mk_conversion fs false (of_list cbuf) 0 (Z.of_nat (length cbuf)) sign_c 0 (val =? 0) a).

Definition base_of (c : npf_conv) : Z :=
  match c with
  | NPF_FMT_SPEC_CONV_OCTAL => 8
  | NPF_FMT_SPEC_CONV_UNSIGNED_INT => 10
  | _ => 16
  end.

(** 'X', 'B' or nothing. *)
Definition prefix_of (c : npf_conv) : Z :=
  match c with
  | NPF_FMT_SPEC_CONV_HEX_INT | NPF_FMT_SPEC_CONV_POINTER => chr "X"
  | NPF_FMT_SPEC_CONV_BINARY => chr "B"
  | _ => 0
  end.

Definition convert_unsigned (fs : npf_format_spec) (a : Z) : M S conversion :=
  let c := conv_spec fs in
  let is_ptr := bool_decide (c = NPF_FMT_SPEC_CONV_POINTER) in
  let val := if is_ptr then u64 (args a) else extract_unsigned (length_modifier fs) (args a) in
  let a := a + (if is_ptr then 1 else takes_arg (length_modifier fs)) in
  let alt := negb (alt_form fs =? 0) in
  let octal := bool_decide (c = NPF_FMT_SPEC_CONV_OCTAL) in
  let binary := bool_decide (c = NPF_FMT_SPEC_CONV_BINARY) in
  if explicit_zero fs val then
    ret (mk_conversion (if octal && alt then set_prec fs 1 (prec_opt fs) else fs) false (of_list []) 0 0 0 0 true a)
  else
    let* cbuf := (if binary then ret [] else npf_utoa_rev val (base_of c) (case_adjust fs)) in
    let cbuf_len := if binary then npf_bin_len val else Z.of_nat (length cbuf) in
    let extra := negb (val =? 0) && alt && octal in
    let cbuf := if extra then cbuf ++ [chr "0"] else cbuf in
    let cbuf_len := if extra then cbuf_len + 1 else cbuf_len in
    let need_0x := if negb (val =? 0) && alt then prefix_of c else 0 in
    let need_0x := if negb (need_0x =? 0) then i8 (need_0x + case_adjust fs) else need_0x in
    ret (mk_conversion fs false (of_list cbuf) val cbuf_len 0 need_0x (val =? 0) a).

(** The conversion of the next argument. *)
Definition convert (fs : npf_format_spec) (a n : Z) : M S conversion :=
  match conv_spec fs with
  | NPF_FMT_SPEC_CONV_PERCENT => ret (mk_conversion fs false (of_list [chr "%"]) 0 1 0 0 false a)
  | NPF_FMT_SPEC_CONV_CHAR => ret (mk_conversion fs false (of_list [u8 (i32 (args a))]) 0 1 0 0 false (a + 1))
  | NPF_FMT_SPEC_CONV_STRING =>
      let p := u64 (args a) in
      let* cbuf_len := string_length fs p in
      ret (mk_conversion fs (p =? 0) (text p) 0 cbuf_len 0 0 false (a + 1))
  | NPF_FMT_SPEC_CONV_SIGNED_INT => convert_signed fs a
  | NPF_FMT_SPEC_CONV_BINARY | NPF_FMT_SPEC_CONV_OCTAL | NPF_FMT_SPEC_CONV_HEX_INT | NPF_FMT_SPEC_CONV_UNSIGNED_INT
  | NPF_FMT_SPEC_CONV_POINTER => convert_unsigned fs a
  | NPF_FMT_SPEC_CONV_WRITEBACK =>
      (if decide (length_modifier fs = NPF_FMT_SPEC_LEN_MOD_LONG_DOUBLE) then ret tt
       else writeback (u64 (args a)) (writeback_size (length_modifier fs)) n) ;;;
      ret (mk_conversion fs false (of_list []) 0 0 0 0 false (a + takes_arg (length_modifier fs)))
  | NPF_FMT_SPEC_CONV_NONE => ret (mk_conversion fs false (of_list []) 0 0 0 0 false a)
  end.

(** The pad character; 0 without a field width. *)
Definition pad_char (fs : npf_format_spec) (zero : bool) : Z :=
  if decide (field_width_opt fs = NPF_FMT_SPEC_OPT_NONE) then 0
  else if negb (leading_zero_pad fs =? 0) && (left_justified fs =? 0) then
    if negb (bool_decide (prec_opt fs = NPF_FMT_SPEC_OPT_NONE)) && (prec fs =? 0) && zero then chr " " else chr "0"
  else chr " ".

Definition prec_padding (fs : npf_format_spec) (cbuf_len : Z) : M S Z :=
  if decide (conv_spec fs = NPF_FMT_SPEC_CONV_STRING) then ret 0
  else
    let* d := sub_i 32 (prec fs) cbuf_len in
    ret (Z.max 0 d).

Definition field_padding (fs : npf_format_spec) (cbuf_len sign_c need_0x prec_pad : Z) : M S Z :=
  let* p := sub_i 32 (field_width fs) cbuf_len in
  let* p := sub_i 32 p (if sign_c =? 0 then 0 else 1) in
  let* p := (if need_0x =? 0 then ret p else sub_i 32 p 2) in
  let* p := sub_i 32 p prec_pad in
  ret (Z.max 0 p).

(** [if (sign_c) { NPF_PUTC(sign_c); }]; [NPF_PUTC('0'); NPF_PUTC(need_0x);] *)
Definition put_sign (sign_c n : Z) : M S Z := if sign_c =? 0 then ret n else npf_putc_cnt sign_c n.
Definition put_0x (need_0x n : Z) : M S Z :=
  let* n := npf_putc_cnt (chr "0") n in
  npf_putc_cnt need_0x n.

(** What comes before the digits: the sign that is still to be written and the
    count. *)
Definition put_prefix (left pad_c field_pad sign_c need_0x n : Z) : M S (Z * Z) :=
  if (left =? 0) && negb (pad_c =? 0) then
    if pad_c =? chr "0" then
      let* n := put_sign sign_c n in
      let* n := (if need_0x =? 0 then ret n else put_0x need_0x n) in
      let* n := put_times (Z.to_nat field_pad) pad_c n in
      ret (0, n)
    else
      let* n := put_times (Z.to_nat field_pad) pad_c n in
      if need_0x =? 0 then ret (sign_c, n)
      else
        let* n := put_sign sign_c n in
        let* n := put_0x need_0x n in
        ret (0, n)
  else if need_0x =? 0 then ret (sign_c, n)
  else
    let* n := put_sign sign_c n in
    let* n := put_0x need_0x n in
    ret (0, n).

Definition put_payload (cv : conversion) (sign_c prec_pad n : Z) : M S Z :=
  let fs := cv_fs cv in
  if decide (conv_spec fs = NPF_FMT_SPEC_CONV_STRING) then
    if cv_null cv then ret n else put_forward (Z.to_nat (cv_len cv)) (cv_cbuf cv) 0 n
  else
    let* n := put_sign sign_c n in
    let* n := put_times (Z.to_nat prec_pad) (chr "0") n in
    if decide (conv_spec fs = NPF_FMT_SPEC_CONV_BINARY) then put_binary (Z.to_nat (cv_len cv)) (cv_binval cv) n
    else put_backward (Z.to_nat (cv_len cv)) (cv_cbuf cv) n.

(** One specification: the next slot and the count. *)
Definition directive (fs : npf_format_spec) (a n : Z) : M S (Z * Z) :=
  let* r := star_width fs a in
  let '(fs, a) := star_prec r.1 r.2 in
  let* cv := convert (defaults fs) a n in
  let fs := cv_fs cv in
  let pad_c := pad_char fs (cv_zero cv) in
  let* prec_pad := prec_padding fs (cv_len cv) in
  let* field_pad := field_padding fs (cv_len cv) (cv_sign cv) (cv_0x cv) prec_pad in
  let* r := put_prefix (left_justified fs) pad_c field_pad (cv_sign cv) (cv_0x cv) n in
  let* n := put_payload cv r.1 prec_pad r.2 in
  let* n := (if negb (left_justified fs =? 0) && negb (pad_c =? 0) then put_times (Z.to_nat field_pad) pad_c n else ret n) in
  ret (cv_args cv, n).

Definition vpprintf_round (format : cstring) (st : Z * Z * Z) : M S (Z * Z * Z + Z) :=
  let '(cur, a, n) := st in
  let c := format cur in
  if c =? 0 then ret (inr n)
  else
    let* r := (if c =? chr "%" then npf_parse_format_spec (advance cur format) else ret None) in
    match r with
    | None =>
        let* n := npf_putc_cnt (i8 c) n in
        ret (inl (cur + 1, a, n))
    | Some (fs_len, fs) =>
        let* r := directive fs a n in
        ret (inl (cur + fs_len, r.1, r.2))
    end.

Definition npf_vpprintf (format : cstring) : M S Z := while_ (vpprintf_round format) (0, 0, 0).
End printf.

(** * [npf_vsnprintf] *)

(** [npf_bufputc_ctx_t] *)
Record npf_bufputc_ctx := mk_bufctx { bp_dst : mem_t; bp_len : Z; bp_cur : Z }.

Definition npf_bufputc (c : Z) : M npf_bufputc_ctx unit :=
  modify (λ b, if bp_cur b <? bp_len b then mk_bufctx (write8 (bp_dst b) (bp_cur b) c) (bp_len b) (u64 (bp_cur b + 1)) else b).
Definition npf_bufputc_nop (c : Z) : M npf_bufputc_ctx unit := ret tt.

(** [dst] is the memory from the buffer on; [null] that there is none. *)
Definition npf_vsnprintf (text : Z → cstring) (writeback : Z → Z → Z → M npf_bufputc_ctx unit) (args : Z → Z)
    (null : bool) (format : cstring) : M npf_bufputc_ctx Z :=
  modify (λ b, mk_bufctx (bp_dst b) (bp_len b) 0) ;;;
  let* n := npf_vpprintf (if null then npf_bufputc_nop else npf_bufputc) text writeback args format in
  let* b := get in
  (if negb null && negb (bp_len b =? 0) then
     modify (λ b, mk_bufctx (write8 (bp_dst b) (if n <? 0 then 0 else Z.min (u32 n) (u64 (bp_len b - 1))) 0) (bp_len b) (bp_cur b))
   else ret tt) ;;;
  ret n.
