(* ===== verification/NpfSpec.v ===== *)
(** Reference definitions for formatted output: what a format is made of, how it
    is written, and the text it stands for. *)
From stdpp Require Import base tactics list strings.
From Stdlib Require Import ZArith Lia Ascii.
From S2P Require Import Prelude Str.

(** * Numerals *)

(** The digits of [n], the least significant one first; [fuel] is at least their
    number. *)
Fixpoint digits_le (fuel : nat) (base n : Z) : list Z :=
  match fuel with
  | O => []
  | S fuel' => n mod base :: if n / base =? 0 then [] else digits_le fuel' base (n / base)
  end.

Definition digit_char (upper : bool) (d : Z) : Z := if d <? 10 then chr "0" + d else (if upper then chr "A" else chr "a") + d - 10.

(** The numeral of a number below [2 ^ 64]: in base 2 it has up to 64 digits. *)
Definition numeral (upper : bool) (base n : Z) : list Z := digit_char upper <$> rev (digits_le 64 base n).

(** * Directives *)
Inductive flag := FLAG_MINUS | FLAG_ZERO | FLAG_PLUS | FLAG_SPACE | FLAG_HASH.
Inductive sign_flag := SIGN_NONE | SIGN_SPACE | SIGN_PLUS.
Inductive amount := NONE | LITERAL (n : Z) | STAR.
Inductive length_mod := L_NONE | L_h | L_hh | L_l | L_ll | L_j | L_z | L_t.
Inductive letter :=
  | PERCENT | CHAR | STRING | SIGNED (i : bool) | UNSIGNED | OCTAL | HEX (upper : bool) | BINARY (upper : bool) | POINTER | WRITEBACK.

#[export] Instance flag_eq : EqDecision flag.
Proof. solve_decision. Defined.
#[export] Instance letter_eq : EqDecision letter.
Proof. solve_decision. Defined.

Record directive_t := mk_directive {
  d_flags : list flag;
  d_width : amount;
  d_prec : amount;
  d_length : length_mod;
  d_letter : letter
}.

(** Flags in any order, and repeated; [+] rules over the space. *)
Definition d_left (d : directive_t) : bool := bool_decide (FLAG_MINUS ∈ d_flags d).
Definition d_zero (d : directive_t) : bool := bool_decide (FLAG_ZERO ∈ d_flags d).
Definition d_alt (d : directive_t) : bool := bool_decide (FLAG_HASH ∈ d_flags d).
Definition d_sign (d : directive_t) : sign_flag :=
  if bool_decide (FLAG_PLUS ∈ d_flags d) then SIGN_PLUS else if bool_decide (FLAG_SPACE ∈ d_flags d) then SIGN_SPACE else SIGN_NONE.

Inductive item := TEXT (c : Z) | DIRECTIVE (d : directive_t).

(** How a directive is written. *)
Definition flag_char (f : flag) : Z :=
  chr match f with FLAG_MINUS => "-" | FLAG_ZERO => "0" | FLAG_PLUS => "+" | FLAG_SPACE => " " | FLAG_HASH => "#" end.
Definition flags_text (d : directive_t) : list Z := flag_char <$> d_flags d.
Definition amount_text (a : amount) : list Z :=
  match a with NONE => [] | LITERAL n => numeral false 10 n | STAR => bytes "*" end.
Definition prec_text (a : amount) : list Z := match a with NONE => [] | _ => bytes "." ++ amount_text a end.
Definition length_text (m : length_mod) : list Z :=
  bytes match m with
  | L_NONE => "" | L_h => "h" | L_hh => "hh" | L_l => "l" | L_ll => "ll" | L_j => "j" | L_z => "z" | L_t => "t"
  end.
Definition letter_char (l : letter) : Z :=
  chr match l with
  | PERCENT => "%" | CHAR => "c" | STRING => "s" | SIGNED i => if i then "i" else "d" | UNSIGNED => "u" | OCTAL => "o"
  | HEX upper => if upper then "X" else "x" | BINARY upper => if upper then "B" else "b" | POINTER => "p" | WRITEBACK => "n"
  end.
Definition directive_text (d : directive_t) : list Z :=
  flags_text d ++ amount_text (d_width d) ++ prec_text (d_prec d) ++ length_text (d_length d) ++ [letter_char (d_letter d)].
Definition item_text (i : item) : list Z :=
  match i with TEXT c => [c] | DIRECTIVE d => chr "%" :: directive_text d end.

(** Amounts are [int]s; a width that is written out does not begin with the
    flag '0'. *)
Definition directive_ok (d : directive_t) : Prop :=
  Z.of_nat (length (d_flags d)) < 2 ^ 31 ∧
  match d_width d with LITERAL n => 0 < n < 2 ^ 31 | _ => True end ∧
  match d_prec d with LITERAL n => 0 <= n < 2 ^ 31 | _ => True end.
Definition item_ok (i : item) : Prop :=
  match i with TEXT c => 0 < c < 256 ∧ c ≠ chr "%" | DIRECTIVE d => directive_ok d end.

(** * What a directive stands for *)

(** The effects of formatted output: a character, and a number stored through a
    pointer. *)
Inductive act := PUT (c : Z) | STORE (p size v : Z).

Section output.
(** The argument slots and the strings at pointers. *)
Context (args : Z → Z) (strings : Z → list Z).

(** The integer in a slot, at the width of its length modifier. *)
Definition width_of (m : length_mod) : Z := match m with L_NONE => 32 | L_h => 16 | L_hh => 8 | _ => 64 end.
Definition signed_arg (m : length_mod) (slot : Z) : Z := signed (width_of m) slot.
Definition unsigned_arg (m : length_mod) (slot : Z) : Z := slot mod 2 ^ width_of m.

(** Width and justification; a negative width given as argument means [-].  The
    last component is the next slot. *)
Definition the_width (d : directive_t) (a : Z) : Z * bool * Z :=
  match d_width d with
  | NONE => (0, d_left d, a)
  | LITERAL n => (n, d_left d, a)
  | STAR => let w := i32 (args a) in (Z.abs w, d_left d || (w <? 0), a + 1)
  end.
(** A negative precision is none. *)
Definition the_prec (d : directive_t) (a : Z) : option Z * Z :=
  match d_prec d with
  | NONE => (None, a)
  | LITERAL n => (Some n, a)
  | STAR => let p := i32 (args a) in (if p <? 0 then None else Some p, a + 1)
  end.

(** The value of an unsigned conversion. *)
Definition unsigned_value (d : directive_t) (slot : Z) : Z :=
  match d_letter d with POINTER => slot mod 2 ^ 64 | _ => unsigned_arg (d_length d) slot end.

Definition is_zero (d : directive_t) (slot : Z) : bool :=
  match d_letter d with
  | SIGNED _ => signed_arg (d_length d) slot =? 0
  | UNSIGNED | OCTAL | HEX _ | BINARY _ | POINTER => unsigned_value d slot =? 0
  | _ => false
  end.

(** The digits or characters, without sign, prefix and padding; [none] is a zero
    that a precision of 0 suppresses, which bounds a string. *)
Definition body_text (d : directive_t) (none : bool) (p : option Z) (slot : Z) : list Z :=
  let u := unsigned_value d slot in
  match d_letter d with
  | PERCENT => bytes "%"
  | CHAR => [slot mod 256]
  | STRING => let str := if u64 slot =? 0 then [] else strings (u64 slot) in match p with None => str | Some p => take (Z.to_nat p) str end
  | SIGNED _ => if none then [] else numeral false 10 (Z.abs (signed_arg (d_length d) slot))
  | UNSIGNED => if none then [] else numeral false 10 u
  | OCTAL => if none then (if d_alt d then bytes "0" else [])
             else (if d_alt d && negb (u =? 0) then bytes "0" else []) ++ numeral false 8 u
  | HEX upper => if none then [] else numeral upper 16 u
  | BINARY _ => if none then [] else numeral false 2 u
  | POINTER => if none then [] else numeral false 16 u
  | WRITEBACK => []
  end.

Definition sign_text (d : directive_t) (slot : Z) : list Z :=
  match d_letter d with
  | SIGNED _ =>
      if signed_arg (d_length d) slot <? 0 then bytes "-"
      else match d_sign d with SIGN_NONE => [] | SIGN_SPACE => bytes " " | SIGN_PLUS => bytes "+" end
  | _ => []
  end.

Definition prefix_text (d : directive_t) (slot : Z) : list Z :=
  if d_alt d && negb (is_zero d slot) then
    match d_letter d with
    | HEX upper => if upper then bytes "0X" else bytes "0x"
    | BINARY upper => if upper then bytes "0B" else bytes "0b"
    | POINTER => bytes "0x"
    | _ => []
    end
  else [].

(** The precision: a number of digits, for a pointer 16 unless another one is
    given; a string is not filled up. *)
Definition min_digits (d : directive_t) (p : option Z) : Z :=
  match d_letter d, p with
  | STRING, _ => 0
  | POINTER, None => 16
  | _, None => 0
  | _, Some p => p
  end.

(** A zero flag counts, unless a precision rules for an integer, or suppresses
    the number. *)
Definition zero_filled (d : directive_t) (p : option Z) (slot : Z) : bool :=
  d_zero d &&
  match p, d_letter d with
  | None, _ => true
  | Some _, (SIGNED _ | UNSIGNED | OCTAL | HEX _) => false
  | Some p, _ => negb ((p =? 0) && is_zero d slot)
  end.

(** Sign, prefix and core, filled up to the width. *)
Definition layout (lft zeros : bool) (width : Z) (sign prefix core : list Z) : list Z :=
  let pad c := replicate (Z.to_nat (width - Z.of_nat (length (sign ++ prefix ++ core)))) (chr c) in
  if lft then sign ++ prefix ++ core ++ pad " "%char
  else if zeros then sign ++ prefix ++ pad "0"%char ++ core
  else pad " "%char ++ sign ++ prefix ++ core.

(** Whether the letter takes an argument. *)
Definition consumes (l : letter) : Z := match l with PERCENT => 0 | _ => 1 end.

(** The size of what [%n] stores. *)
Definition store_size (m : length_mod) : Z := width_of m / 8.

(** The text of a directive, and the next slot. *)
Definition directive_chars (d : directive_t) (a : Z) : list Z * Z :=
  let '(width, lft, a) := the_width d a in
  let '(p, a) := the_prec d a in
  let slot := args a in
  let none := bool_decide (p = Some 0) && is_zero d slot in
  let body := body_text d none p slot in
  let core := replicate (Z.to_nat (min_digits d p - Z.of_nat (length body))) (chr "0") ++ body in
  (layout lft (zero_filled d p slot) width (sign_text d slot) (prefix_text d slot) core, a + consumes (d_letter d)).

(** Its effects, after [n] characters; [%n] stores how many there are. *)
Definition directive_acts (d : directive_t) (a n : Z) : list act * Z :=
  let '(out, a') := directive_chars d a in
  (match d_letter d with WRITEBACK => [STORE (u64 (args (a' - 1))) (store_size (d_length d)) n] | _ => [] end ++ (PUT <$> out), a').

(** The characters among the effects, and their number. *)
Definition put_chars (l : list act) : list Z := omap (λ x, match x with PUT c => Some c | STORE _ _ _ => None end) l.
Definition chars (l : list act) : Z := Z.of_nat (length (put_chars l)).

(** A whole format, from slot [a] on and after [n] characters. *)
Fixpoint render (l : list item) (a n : Z) : list act :=
  match l with
  | [] => []
  | TEXT c :: l' => PUT c :: render l' a (n + 1)
  | DIRECTIVE d :: l' =>
      let '(out, a') := directive_acts d a n in
      out ++ render l' a' (n + chars out)
  end.
End output.
