(* ===== verification/NpfParse.v ===== *)
(** Formatted output, first part: numerals, and the parser of format
    specifications, which reads back what [directive_text] writes. *)
From stdpp Require Import base tactics list strings.
From Stdlib Require Import ZArith Lia Ascii.
From S2P Require Import Prelude Str StrInv Npf NpfSpec.

(** * Numerals *)

Lemma digits_le_range fuel base n : 1 < base → 0 <= n → Forall (λ d, 0 <= d < base) (digits_le fuel base n).
Proof.
  intros Hb. revert n. induction fuel as [|fuel IH]; intros n Hn; [constructor|]. cbn. constructor; [by apply Z.mod_pos_bound; lia|].
  destruct (n / base =? 0); [constructor|]. apply IH. apply Z.div_pos; lia.
Qed.

(** The digits of [npf_utoa_rev] are those of the numeral, the last one first. *)
Definition adjust (upper : bool) : Z := if upper then 0 else chr "a" - chr "A".

Lemma digit_char_eq upper d : (if d <? 10 then chr "0" else chr "A" - 10 + adjust upper) + d = digit_char upper d.
Proof. unfold digit_char, adjust. destruct (d <? 10), upper; lia. Qed.

Lemma fits_64 base n : 1 < base → 0 <= n < 2 ^ 64 → 0 <= n < base ^ Z.of_nat 64.
Proof. intros Hb Hn. split; [lia|]. pose proof (Z.pow_le_mono_l 2 base (Z.of_nat 64) ltac:(lia)). change (Z.of_nat 64) with 64 in *. lia. Qed.

Lemma utoa_runs {S} fuel upper base n buf (s : S) : 1 < base → 0 <= n < base ^ Z.of_nat fuel → (0 < fuel)%nat →
  ∃ k, (k < fuel)%nat ∧ runs (utoa_round base (adjust upper)) k (n, buf) s (buf ++ (digit_char upper <$> digits_le fuel base n)) s.
Proof.
  intros Hb. revert n buf. induction fuel as [|fuel IH]; intros n buf Hn Hf; [lia|].
  cbn [digits_le]. destruct (n / base =? 0) eqn:E.
  - exists 0%nat. split; [lia|]. apply runs_done. unfold utoa_round. by rewrite E, digit_char_eq.
  - assert (0 < n / base) as Hpos by (apply Z.eqb_neq in E; pose proof (Z.div_pos n base ltac:(lia) ltac:(lia)); lia).
    destruct fuel as [|fuel'].
    { exfalso. change (Z.of_nat 1) with 1 in Hn. rewrite Z.pow_1_r in Hn. rewrite Z.div_small in Hpos by lia. lia. }
    destruct (IH (n / base) (buf ++ [digit_char upper (n mod base)])) as (k & Hk & Hr); [|lia|].
    { split; [lia|]. apply Z.div_lt_upper_bound; [lia|]. rewrite <- Z.pow_succ_r, <- Nat2Z.inj_succ by lia. lia. }
    exists (1 + k)%nat. split; [lia|]. eapply runs_more; [unfold utoa_round; rewrite E, digit_char_eq; reflexivity|].
    rewrite fmap_cons. rewrite <- app_assoc in Hr. exact Hr.
Qed.

Lemma rev_numeral upper base n : rev (numeral upper base n) = digit_char upper <$> digits_le 64 base n.
Proof. unfold numeral. etransitivity; [symmetry; apply (map_rev (digit_char upper))|]. by rewrite rev_involutive. Qed.

Lemma utoa_ok {S} upper base n (s : S) : 1 < base → 0 <= n < 2 ^ 64 →
  npf_utoa_rev n base (adjust upper) s = Ok (rev (numeral upper base n), s).
Proof.
  intros Hb Hn. destruct (utoa_runs 64 upper base n [] s Hb) as (k & Hk & Hr); [|lia|].
  { by apply fits_64. }
  unfold npf_utoa_rev. rewrite (while_runs _ k _ _ _ _ ltac:(lia) Hr). by rewrite rev_numeral.
Qed.

(** The value of a numeral. *)
Lemma value_snoc_rev base ds d : value base (rev (d :: ds)) = value base (rev ds) * base + d.
Proof. cbn [rev]. apply value_app. Qed.

Lemma digits_value fuel base n : 1 < base → 0 <= n < base ^ Z.of_nat fuel → value base (rev (digits_le fuel base n)) = n.
Proof.
  intros Hb. revert n. induction fuel as [|fuel IH]; intros n Hn; [cbn in Hn |- *; lia|].
  cbn [digits_le]. rewrite value_snoc_rev. pose proof (Z.div_mod n base ltac:(lia)). destruct (Z.eqb_spec (n / base) 0) as [E|E].
  - change (value base (rev [])) with 0. lia.
  - rewrite IH; [lia|]. split; [apply Z.div_pos; lia|]. apply Z.div_lt_upper_bound; [lia|]. rewrite <- Z.pow_succ_r, <- Nat2Z.inj_succ by lia. lia.
Qed.


(** * Reading format specifications *)

(** The string begins with [l]. *)
Definition begins (f : cstring) (l : list Z) : Prop := ∀ (i : nat) x, l !! i = Some x → f (Z.of_nat i) = x.

Lemma begins_app f l1 l2 : begins f (l1 ++ l2) → begins f l1 ∧ begins (advance (Z.of_nat (length l1)) f) l2.
Proof.
  intros H. split.
  - intros i x Hx. apply H. by apply lookup_app_l_Some.
  - intros i x Hx. unfold advance. rewrite <- Nat2Z.inj_add. apply H. rewrite lookup_app_r by lia. by replace (length l1 + i - length l1)%nat with i by lia.
Qed.

Lemma begins_cons f x l : begins f (x :: l) → f 0 = x ∧ begins (advance 1 f) l.
Proof. intros H. split; [by apply (H 0%nat)|]. by apply (begins_app f [x] l) in H as [_ H]. Qed.

(** The digits of an [int]. *)
Lemma digits_runs {S} f ds cur acc (s : S) :
  Forall (λ d, 0 <= d < 10) ds → 0 <= acc → 0 <= cur → begins (advance cur f) (digit_char false <$> ds) →
  is_digit (f (cur + Z.of_nat (length ds))) = false → foldl (λ v d, v * 10 + d) acc ds < 2 ^ 31 →
  runs (digits_round f) (length ds) (cur, acc) s (cur + Z.of_nat (length ds), foldl (λ v d, v * 10 + d) acc ds) s.
Proof.
  intros Hds. revert cur acc. induction Hds as [|d ds Hd Hds IH]; intros cur acc Hacc Hcur Hf Hend Hlt.
  - cbn in *. rewrite Z.add_0_r in *. apply runs_done. unfold digits_round. by rewrite Hend.
  - rewrite fmap_cons in Hf. apply begins_cons in Hf as [Hc Hf]. unfold advance in Hc. rewrite Z.add_0_r in Hc.
    cbn [foldl length] in *.
    assert (∀ l a, 0 <= a → Forall (λ d, 0 <= d < 10) l → a <= foldl (λ v d, v * 10 + d) a l) as Hmono.
    { clear. intros l. induction l as [|d l IH]; intros a Ha Hl; cbn; [lia|]. apply Forall_cons in Hl as [Hd Hl].
      specialize (IH (a * 10 + d) ltac:(lia) Hl). lia. }
    pose proof (Hmono ds (acc * 10 + d) ltac:(lia) Hds).
    assert (digit_char false d = chr "0" + d) as Ed by (unfold digit_char; by rewrite (proj2 (Z.ltb_lt d 10)) by lia).
    eapply runs_more.
    { unfold digits_round. rewrite Hc, Ed. assert (is_digit (chr "0" + d) = true) as -> by (unfold is_digit; change (chr "0") with 48; change (chr "9") with 57; lia).
      erewrite bind_ok; [|apply checked_ok; change (32 - 1) with 31; lia]. erewrite bind_ok; [|apply checked_ok; change (32 - 1) with 31; lia].
      reflexivity. }
    replace (acc * 10 + (chr "0" + d - chr "0")) with (acc * 10 + d) by lia.
    replace (cur + Z.of_nat (Datatypes.S (length ds))) with (cur + 1 + Z.of_nat (length ds)) in * by lia.
    apply IH; try done; try lia. intros i x Hx. apply Hf in Hx. unfold advance in *. rewrite <- Hx. f_equal. lia.
Qed.

(** The specification that a directive is parsed to. *)
Definition sign_char (f : sign_flag) : Z := match f with SIGN_NONE => 0 | SIGN_SPACE => chr " " | SIGN_PLUS => chr "+" end.
Definition amount_value (a : amount) : Z := match a with LITERAL n => n | _ => 0 end.
Definition amount_opt (a : amount) : npf_opt :=
  match a with NONE => NPF_FMT_SPEC_OPT_NONE | LITERAL _ => NPF_FMT_SPEC_OPT_LITERAL | STAR => NPF_FMT_SPEC_OPT_STAR end.
Definition len_mod_of (m : length_mod) : npf_len_mod :=
  match m with
  | L_NONE => NPF_FMT_SPEC_LEN_MOD_NONE | L_h => NPF_FMT_SPEC_LEN_MOD_SHORT | L_hh => NPF_FMT_SPEC_LEN_MOD_CHAR
  | L_l => NPF_FMT_SPEC_LEN_MOD_LONG | L_ll => NPF_FMT_SPEC_LEN_MOD_LARGE_LONG_LONG | L_j => NPF_FMT_SPEC_LEN_MOD_LARGE_INTMAX
  | L_z => NPF_FMT_SPEC_LEN_MOD_LARGE_SIZET | L_t => NPF_FMT_SPEC_LEN_MOD_LARGE_PTRDIFFT
  end.
Definition conv_of (l : letter) : npf_conv :=
  match l with
  | PERCENT => NPF_FMT_SPEC_CONV_PERCENT | CHAR => NPF_FMT_SPEC_CONV_CHAR | STRING => NPF_FMT_SPEC_CONV_STRING
  | SIGNED _ => NPF_FMT_SPEC_CONV_SIGNED_INT | UNSIGNED => NPF_FMT_SPEC_CONV_UNSIGNED_INT | OCTAL => NPF_FMT_SPEC_CONV_OCTAL
  | HEX _ => NPF_FMT_SPEC_CONV_HEX_INT | BINARY _ => NPF_FMT_SPEC_CONV_BINARY | POINTER => NPF_FMT_SPEC_CONV_POINTER
  | WRITEBACK => NPF_FMT_SPEC_CONV_WRITEBACK
  end.
Definition is_upper (l : letter) : bool := match l with HEX u | BINARY u => u | _ => false end.

Definition spec_of (d : directive_t) : npf_format_spec :=
  mk_spec (amount_value (d_width d)) (amount_value (d_prec d)) (amount_opt (d_prec d)) (amount_opt (d_width d))
    (if d_left d then chr "-" else 0) (if d_zero d then 1 else 0) (sign_char (d_sign d)) (if d_alt d then chr "#" else 0)
    (adjust (is_upper (d_letter d))) (len_mod_of (d_length d)) (conv_of (d_letter d)).

(** A character that ends the flags, and one that ends digits. *)
Definition no_flag (c : Z) : Prop := c ≠ 0 ∧ c ≠ chr "-" ∧ c ≠ chr "0" ∧ c ≠ chr "+" ∧ c ≠ chr " " ∧ c ≠ chr "#".

Definition flags_spec (d : directive_t) : npf_format_spec :=
  set_flags initial_spec (if d_left d then chr "-" else 0) (if d_zero d then 1 else 0) (sign_char (d_sign d)) (if d_alt d then chr "#" else 0).

Lemma flags_stop {S} f cur fs (s : S) : no_flag (f (cur + 1)) → flags_round f (cur, fs) s = Ok (inr (cur + 1, fs), s).
Proof.
  intros (H0 & H1 & H2 & H3 & H4 & H5). unfold flags_round.
  by rewrite (proj2 (Z.eqb_neq _ _) H0), (proj2 (Z.eqb_neq _ _) H1), (proj2 (Z.eqb_neq _ _) H2), (proj2 (Z.eqb_neq _ _) H3), (proj2 (Z.eqb_neq _ _) H4), (proj2 (Z.eqb_neq _ _) H5).
Qed.

(** What one flag changes. *)
Definition flag_update (c : Z) (fs : npf_format_spec) : option npf_format_spec :=
  if c =? chr "-" then Some (set_flags fs (chr "-") (leading_zero_pad fs) (prepend fs) (alt_form fs))
  else if c =? chr "0" then Some (set_flags fs (left_justified fs) 1 (prepend fs) (alt_form fs))
  else if c =? chr "+" then Some (set_flags fs (left_justified fs) (leading_zero_pad fs) (chr "+") (alt_form fs))
  else if c =? chr " " then Some (if prepend fs =? 0 then set_flags fs (left_justified fs) (leading_zero_pad fs) (chr " ") (alt_form fs) else fs)
  else if c =? chr "#" then Some (set_flags fs (left_justified fs) (leading_zero_pad fs) (prepend fs) (chr "#"))
  else None.

Lemma flag_step {S} f cur fs c fs' (s : S) : f (cur + 1) = c → c ≠ 0 → flag_update c fs = Some fs' →
  flags_round f (cur, fs) s = Ok (inl (cur + 1, fs'), s).
Proof.
  intros Hc H0. unfold flag_update, flags_round. rewrite Hc, (proj2 (Z.eqb_neq _ _) H0).
  repeat case_match; intros E; by simplify_eq.
Qed.

(** The flags one after the other. *)
Definition flags_fold (l : list flag) (fs : npf_format_spec) : npf_format_spec := foldl (λ fs f, default fs (flag_update (flag_char f) fs)) fs l.

Lemma flags_fold_eq l L Z P A fs :
  flags_fold l (set_flags fs L Z P A) =
  set_flags fs (if bool_decide (FLAG_MINUS ∈ l) then chr "-" else L) (if bool_decide (FLAG_ZERO ∈ l) then 1 else Z)
    (if bool_decide (FLAG_PLUS ∈ l) then chr "+" else if bool_decide (FLAG_SPACE ∈ l) then (if P =? 0 then chr " " else P) else P)
    (if bool_decide (FLAG_HASH ∈ l) then chr "#" else A).
Proof.
  revert L Z P A. induction l as [|f l IH]; intros L Z P A; [done|].
  assert (∀ g, bool_decide (g ∈ f :: l) = bool_decide (g = f) || bool_decide (g ∈ l)) as Hb.
  { intros g. rewrite <- bool_decide_or. apply bool_decide_ext, elem_of_cons. }
  rewrite !Hb. destruct f; [| | |destruct (P =? 0) eqn:EP|].
  1: change (flags_fold (FLAG_MINUS :: l) (set_flags fs L Z P A)) with (flags_fold l (set_flags fs (chr "-") Z P A)).
  2: change (flags_fold (FLAG_ZERO :: l) (set_flags fs L Z P A)) with (flags_fold l (set_flags fs L 1 P A)).
  3: change (flags_fold (FLAG_PLUS :: l) (set_flags fs L Z P A)) with (flags_fold l (set_flags fs L Z (chr "+") A)).
  4: transitivity (flags_fold l (set_flags fs L Z (chr " ") A)); [unfold flags_fold; cbn [foldl]; f_equal; by destruct P|].
  5: transitivity (flags_fold l (set_flags fs L Z P A)); [unfold flags_fold; cbn [foldl]; f_equal; by destruct P|].
  6: change (flags_fold (FLAG_HASH :: l) (set_flags fs L Z P A)) with (flags_fold l (set_flags fs L Z P (chr "#"))).
  all: rewrite IH, ?EP; by repeat case_bool_decide.
Qed.

Lemma flags_runs {S} l f cur fs x (s : S) : begins (advance (cur + 1) f) ((flag_char <$> l) ++ [x]) → no_flag x →
  runs (flags_round f) (length l) (cur, fs) s (cur + Z.of_nat (length l) + 1, flags_fold l fs) s.
Proof.
  intros Hf Hx. revert cur fs Hf. induction l as [|g l IH]; intros cur fs Hf.
  - apply begins_cons in Hf as [E _]. unfold advance in E. rewrite Z.add_0_r in E. cbn. rewrite Z.add_0_r. apply runs_done. apply flags_stop. by rewrite E.
  - apply begins_cons in Hf as [E Hf]. unfold advance in E. rewrite Z.add_0_r in E.
    assert (flag_update (flag_char g) fs = Some (default fs (flag_update (flag_char g) fs))) as Hu by (by destruct g).
    eapply runs_more; [eapply flag_step; [exact E|by destruct g|exact Hu]|].
    replace (cur + Z.of_nat (length (g :: l)) + 1) with (cur + 1 + Z.of_nat (length l) + 1) by (cbn [length]; lia).
    apply IH. intros i y Hy. apply Hf in Hy. unfold advance in *. rewrite <- Hy. f_equal. lia.
Qed.

Lemma flags_ok {S} d f x (s : S) : Z.of_nat (length (d_flags d)) < 2 ^ 31 →
  begins f (chr "%" :: flags_text d ++ [x]) → no_flag x →
  while_ (flags_round f) (0, initial_spec) s = Ok ((1 + Z.of_nat (length (flags_text d)), flags_spec d), s).
Proof.
  intros Hlen Hf Hx. apply begins_cons in Hf as [_ Hf].
  pose proof (flags_runs (d_flags d) f 0 initial_spec x s Hf Hx) as Hr. eapply while_runs in Hr; [|lia]. rewrite Hr.
  unfold flags_text. rewrite length_fmap. replace (0 + Z.of_nat (length (d_flags d)) + 1) with (1 + Z.of_nat (length (d_flags d))) by lia.
  change initial_spec with (set_flags initial_spec 0 0 0 0) at 1. rewrite flags_fold_eq. unfold flags_spec, d_left, d_zero, d_alt, d_sign.
  by repeat case_bool_decide.
Qed.

Lemma digits_le_ne fuel base n : digits_le (S fuel) base n ≠ [].
Proof. done. Qed.

Lemma digit_char_digit d : 0 <= d < 10 → is_digit (digit_char false d) = true ∧ digit_char false d = chr "0" + d.
Proof.
  intros Hd. unfold digit_char. rewrite (proj2 (Z.ltb_lt d 10)) by lia. split; [|done].
  unfold is_digit. change (chr "0") with 48. change (chr "9") with 57. lia.
Qed.

Lemma numeral_first n : 0 <= n → ∃ d l, numeral false 10 n = digit_char false d :: l ∧ 0 <= d < 10.
Proof.
  intros Hn. unfold numeral. pose proof (digits_le_range 64 10 n ltac:(lia) Hn) as HF.
  destruct (rev (digits_le 64 10 n)) as [|d l] eqn:E.
  - apply (f_equal (@rev Z)) in E. rewrite rev_involutive in E. by apply digits_le_ne in E.
  - exists d, (digit_char false <$> l). split; [done|]. rewrite Forall_forall in HF. apply HF.
    rewrite list_elem_of_In. apply in_rev. rewrite E. by left.
Qed.

(** A literal number in a format. *)
Lemma literal_ok {S} f cur n x (s : S) : 0 <= n < 2 ^ 31 → 0 <= cur → begins (advance cur f) (numeral false 10 n ++ [x]) → is_digit x = false →
  while_ (digits_round f) (cur, 0) s = Ok ((cur + Z.of_nat (length (numeral false 10 n)), n), s).
Proof.
  intros Hn Hcur [Hf Hx]%begins_app Hend. apply begins_cons in Hx as [Hx _]. unfold advance in Hx. rewrite Z.add_0_r in Hx.
  assert (value 10 (rev (digits_le 64 10 n)) = n) as Hv by (apply digits_value; [lia|apply fits_64; lia]).
  unfold numeral in *. rewrite length_fmap in *. 
  enough (while_ (digits_round f) (cur, 0) s = Ok ((cur + Z.of_nat (length (rev (digits_le 64 10 n))), value 10 (rev (digits_le 64 10 n))), s)) as -> by (by rewrite Hv).
  eapply while_runs; [|apply digits_runs]; try done; try lia.
  - rewrite length_rev. assert (length (digits_le 64 10 n) <= 64)%nat; [|lia]. generalize 64%nat as k. clear. intros k. revert n.
    induction k as [|k IH]; intros n; [cbn; lia|]. cbn. destruct (n / 10 =? 0); [cbn; lia|]. specialize (IH (n / 10)). lia.
  - apply Forall_rev, digits_le_range; lia.
  - by rewrite Hx.
  - change (foldl _ 0 _) with (value 10 (rev (digits_le 64 10 n))). lia.
Qed.

Lemma parse_width_ok {S} f cur fs w x (s : S) :
  match w with LITERAL n => 0 < n < 2 ^ 31 | _ => True end → 0 <= cur →
  begins (advance cur f) (amount_text w ++ [x]) → is_digit x = false → x ≠ chr "*" →
  parse_width f cur fs s = Ok ((cur + Z.of_nat (length (amount_text w)), set_width fs (amount_value w) (amount_opt w)), s).
Proof.
  intros Hw Hcur Hf Hd Hx. unfold parse_width. destruct w as [|n|]; cbn [amount_text amount_value amount_opt] in *.
  - apply begins_cons in Hf as [E _]. unfold advance in E. rewrite Z.add_0_r in *. rewrite E, (proj2 (Z.eqb_neq _ _) Hx).
    rewrite (bind_ok _ _ _ (cur, 0) s); [cbn; rewrite Hd; by rewrite ?Z.add_0_r|].
    apply while_once. unfold digits_round. by rewrite E, Hd.
  - destruct (numeral_first n) as (d & l & El & Hdr); [lia|]. destruct (digit_char_digit d Hdr) as [Hdig Ed].
    pose proof Hf as Hf'. rewrite El in Hf'. apply begins_cons in Hf' as [E _]. unfold advance in E. rewrite Z.add_0_r in E.
    rewrite E, Hdig, Ed. assert (chr "0" + d ≠ chr "*") as Hne by (change (chr "0") with 48; change (chr "*") with 42; lia).
    rewrite (proj2 (Z.eqb_neq _ _) Hne). erewrite bind_ok; [|eapply (literal_ok f cur n x); [lia|done..]]. done.
  - apply begins_cons in Hf as [E _]. unfold advance in E. rewrite Z.add_0_r in E. by rewrite E.
Qed.

Lemma parse_prec_ok {S} f cur fs p x (s : S) :
  match p with LITERAL n => 0 <= n < 2 ^ 31 | _ => True end → 0 <= cur →
  begins (advance cur f) (prec_text p ++ [x]) → is_digit x = false → x ≠ chr "." →
  parse_prec f cur fs s = Ok ((cur + Z.of_nat (length (prec_text p)), set_prec fs (amount_value p) (amount_opt p)), s).
Proof.
  intros Hp Hcur Hf Hd Hx. unfold parse_prec. destruct p as [|n|].
  - apply begins_cons in Hf as [E _]. unfold advance in E. rewrite Z.add_0_r in E. cbn. rewrite E, (proj2 (Z.eqb_neq _ _) Hx), Z.add_0_r. done.
  - change (prec_text (LITERAL n) ++ [x]) with (chr "." :: (numeral false 10 n ++ [x])) in Hf.
    apply begins_cons in Hf as [E Hf]. unfold advance in E. rewrite Z.add_0_r in E. rewrite E. change (chr "." =? chr ".") with true. cbv iota.
    assert (begins (advance (cur + 1) f) (numeral false 10 n ++ [x])) as Hf'.
    { intros i y Hy. apply Hf in Hy. unfold advance in *. rewrite <- Hy. f_equal. lia. }
    destruct (numeral_first n) as (d & l & El & Hdr); [lia|]. destruct (digit_char_digit d Hdr) as [Hdig Ed].
    pose proof Hf' as Hf2. rewrite El in Hf2. apply begins_cons in Hf2 as [E2 _]. unfold advance in E2. rewrite Z.add_0_r in E2.
    rewrite E2, Ed. assert (chr "0" + d ≠ chr "*" ∧ chr "0" + d ≠ chr "-") as [Hn1 Hn2]
      by (change (chr "0") with 48; change (chr "*") with 42; change (chr "-") with 45; lia).
    rewrite (proj2 (Z.eqb_neq _ _) Hn1), (proj2 (Z.eqb_neq _ _) Hn2). erewrite bind_ok; [|eapply (literal_ok f (cur + 1) n x); [lia|lia|done..]].
    change (prec_text (LITERAL n)) with (chr "." :: numeral false 10 n). cbn [length fst snd amount_value amount_opt].
    by replace (cur + Z.of_nat (Datatypes.S (length (numeral false 10 n)))) with (cur + 1 + Z.of_nat (length (numeral false 10 n))) by lia.
  - apply begins_cons in Hf as [E Hf]. apply begins_cons in Hf as [E2 _]. unfold advance in *. rewrite Z.add_0_r in E. rewrite E.
    change (chr "." =? chr ".") with true. cbv iota. replace (cur + (1 + 0)) with (cur + 1) in E2 by lia. rewrite E2.
    change (chr "*" =? chr "*") with true. cbv iota. cbn. by replace (cur + 1 + 1) with (cur + 2) by lia.
Qed.

Lemma parse_length_ok f cur m c : begins (advance cur f) (length_text m ++ [c]) →
  c ≠ chr "h" → c ≠ chr "l" → c ≠ chr "j" → c ≠ chr "z" → c ≠ chr "t" →
  parse_length f cur = (cur + Z.of_nat (length (length_text m)), len_mod_of m).
Proof.
  intros Hf Hh Hl Hj Hz Ht. pose proof (Hf 0%nat) as H0. pose proof (Hf 1%nat) as H1. unfold advance in *. change (Z.of_nat 0) with 0 in H0.
  change (Z.of_nat 1) with 1 in H1. rewrite Z.add_0_r in H0. unfold parse_length.
  destruct m; cbn in H0, H1; rewrite (H0 _ eq_refl); try rewrite (H1 _ eq_refl);
    rewrite ?(proj2 (Z.eqb_neq _ _) Hh), ?(proj2 (Z.eqb_neq _ _) Hl), ?(proj2 (Z.eqb_neq _ _) Hj), ?(proj2 (Z.eqb_neq _ _) Hz), ?(proj2 (Z.eqb_neq _ _) Ht); cbn;
    rewrite ?(proj2 (Z.eqb_neq _ _) Hh), ?(proj2 (Z.eqb_neq _ _) Hl); by rewrite ?Z.add_0_r.
Qed.

Lemma parse_conv_ok l : parse_conv (letter_char l) (chr "a" - chr "A") = Some (conv_of l, adjust (is_upper l)).
Proof. by destruct l as [| | |[]| | |[]|[]| |]. Qed.

(** The first character behind the flags, the width, the precision. *)
Definition first_char (l : list Z) : Z := default 0 (head l).

Lemma length_first m l : let x := first_char (length_text m ++ [letter_char l]) in
  no_flag x ∧ is_digit x = false ∧ x ≠ chr "*" ∧ x ≠ chr ".".
Proof. by destruct m, l as [| | |[]| | |[]|[]| |]. Qed.

Lemma prec_first p m l : let x := first_char (prec_text p ++ length_text m ++ [letter_char l]) in
  no_flag x ∧ is_digit x = false ∧ x ≠ chr "*".
Proof. destruct p; [|done..]. cbn [prec_text app]. pose proof (length_first m l) as H. cbn in *. tauto. Qed.

Lemma numeral_nonzero n : 0 < n < 2 ^ 64 → ∃ d l, numeral false 10 n = digit_char false d :: l ∧ 0 < d < 10.
Proof.
  intros Hn. assert (∀ k n, 0 < n < 10 ^ Z.of_nat k → ∃ d, last (digits_le k 10 n) = Some d ∧ 0 < d < 10) as Hlast.
  { clear. induction k as [|k IH]; intros n Hn; [cbn in Hn; lia|]. cbn [digits_le]. destruct (Z.eqb_spec (n / 10) 0) as [E|E].
    - exists (n mod 10). pose proof (Z.div_mod n 10 ltac:(lia)). pose proof (Z.mod_pos_bound n 10 ltac:(lia)). split; [done|lia].
    - destruct (IH (n / 10)) as (d & Hd & Hr).
      { pose proof (Z.div_pos n 10 ltac:(lia) ltac:(lia)). split; [lia|]. apply Z.div_lt_upper_bound; [lia|]. rewrite <- Z.pow_succ_r, <- Nat2Z.inj_succ by lia. lia. }
      exists d. split; [|done]. rewrite last_cons, Hd. done. }
  destruct (Hlast 64%nat n) as (d & Hd & Hr); [split; [lia|]; apply fits_64; lia|].
  apply last_Some in Hd as [l Hl]. unfold numeral. rewrite Hl. exists d, (digit_char false <$> rev l). split; [|done].
  rewrite rev_app_distr. done.
Qed.

Lemma width_first w p m l : match w with LITERAL n => 0 < n < 2 ^ 31 | _ => True end →
  no_flag (first_char (amount_text w ++ prec_text p ++ length_text m ++ [letter_char l])).
Proof.
  destruct w as [|n|]; intros Hw; [apply prec_first| |done]. cbn [amount_text].
  destruct (numeral_nonzero n) as (d & r & -> & Hd); [lia|]. cbn. rewrite (proj2 (digit_char_digit d ltac:(lia))). unfold no_flag.
  change (chr "0") with 48. change (chr "-") with 45. change (chr "+") with 43. change (chr " ") with 32. change (chr "#") with 35. lia.
Qed.

Lemma begins_first f l1 l2 : l2 ≠ [] → begins f (l1 ++ l2) → begins f (l1 ++ [first_char l2]).
Proof. destruct l2 as [|x l2]; [done|]. intros _. change (x :: l2) with ([x] ++ l2). rewrite app_assoc. intros H. by apply begins_app in H as [H _]. Qed.

Lemma begins_next f cur l1 l2 : begins (advance cur f) (l1 ++ l2) → begins (advance (cur + Z.of_nat (length l1)) f) l2.
Proof. intros [_ H]%begins_app i x Hx. apply H in Hx. unfold advance in *. rewrite <- Hx. f_equal. lia. Qed.

Lemma letter_char_plain l : letter_char l ≠ chr "h" ∧ letter_char l ≠ chr "l" ∧ letter_char l ≠ chr "j" ∧ letter_char l ≠ chr "z" ∧ letter_char l ≠ chr "t".
Proof. by destruct l as [| | |[]| | |[]|[]| |]. Qed.

(** The parser of format specifications reads back what is written, whatever
    follows. *)
Lemma parse_ok {S} d f (s : S) : directive_ok d → begins f (chr "%" :: directive_text d) →
  npf_parse_format_spec f s = Ok (Some (1 + Z.of_nat (length (directive_text d)), spec_of d), s).
Proof.
  intros (Hfl & Hw & Hp) Hf. unfold directive_text in *.
  set (F := flags_text d) in *. set (W := amount_text (d_width d)) in *. set (P := prec_text (d_prec d)) in *. set (L := length_text (d_length d)) in *.
  set (c := letter_char (d_letter d)) in *.
  assert (∀ l, l ++ [c] ≠ []) as Hne by (by intros []).
  assert (begins (advance 1 f) (F ++ W ++ P ++ L ++ [c])) as H1 by (by apply begins_cons in Hf as [_ H]).
  pose proof (begins_next f 1 F _ H1) as H2. pose proof (begins_next f _ W _ H2) as H3. pose proof (begins_next f _ P _ H3) as H4.
  pose proof (begins_next f _ L _ H4) as H5. apply begins_cons in H5 as [H5 _]. unfold advance in H5. rewrite Z.add_0_r in H5.
  unfold npf_parse_format_spec. erewrite bind_ok.
  2: { eapply (flags_ok d f (first_char (W ++ P ++ L ++ [c]))); [done| |by apply width_first].
    change (begins f ((chr "%" :: F) ++ [first_char (W ++ P ++ L ++ [c])])). apply begins_first; [|done]. rewrite !app_assoc. apply Hne. }
  destruct (prec_first (d_prec d) (d_length d) (d_letter d)) as (_ & Hpd & Hps). destruct (length_first (d_length d) (d_letter d)) as (_ & Hld & _ & Hlp).
  fold F. cbn [fst snd]. erewrite bind_ok; [|apply (parse_width_ok f _ _ (d_width d) (first_char (P ++ L ++ [c]))); try done; [lia|]; apply begins_first; [rewrite app_assoc; apply Hne|done]].
  fold W. cbn [fst snd]. erewrite bind_ok; [|apply (parse_prec_ok f _ _ (d_prec d) (first_char (L ++ [c]))); try done; [lia|]; apply begins_first; [apply Hne|done]].
  fold P. cbn [fst snd]. destruct (letter_char_plain (d_letter d)) as (K1 & K2 & K3 & K4 & K5). rewrite (parse_length_ok f _ (d_length d) c H4 K1 K2 K3 K4 K5).
  fold L. rewrite H5. change (case_adjust _) with (chr "a" - chr "A"). unfold c. rewrite parse_conv_ok.
  assert (1 + Z.of_nat (length F) + Z.of_nat (length W) + Z.of_nat (length P) + Z.of_nat (length L) + 1 = 1 + Z.of_nat (length (F ++ W ++ P ++ L ++ [letter_char (d_letter d)]))) as ->
    by (rewrite !length_app; cbn [length]; lia). done.
Qed.
