(* ===== verification/NpfInv.v ===== *)
(** Formatted output, second part: a call of [npf_vpprintf] has the effects of
    [render]. *)
From stdpp Require Import base tactics list strings.
From Stdlib Require Import ZArith Lia Ascii.
From S2P Require Import Prelude Str StrInv Npf NpfSpec NpfParse.

(** * Writing *)
Section output.
Context {S : Type} (pc : Z → M S unit) (text : Z → cstring) (writeback : Z → Z → Z → M S unit) (args : Z → Z) (strings : Z → list Z).

(** The effects, one after the other; a [char] is passed as an [int]. *)
Fixpoint emit_acts (l : list act) : M S unit :=
  match l with
  | [] => ret tt
  | PUT c :: l' => pc (i8 c) ;;; emit_acts l'
  | STORE p size v :: l' => writeback p size v ;;; emit_acts l'
  end.

Lemma emit_app l1 l2 s s' : emit_acts (l1 ++ l2) s = Ok (tt, s') → ∃ s1, emit_acts l1 s = Ok (tt, s1) ∧ emit_acts l2 s1 = Ok (tt, s').
Proof.
  revert s. induction l1 as [|x l1 IH]; intros s; [by exists s|].
  destruct x as [c|p size v]; cbn [app emit_acts]; unfold bind.
  - destruct (pc (i8 c) s) as [[[] s1]| |]; [apply IH|done..].
  - destruct (writeback p size v s) as [[[] s1]| |]; [apply IH|done..].
Qed.

(** [m], from a count on, writes the characters [cs]. *)
Definition puts (m : Z → M S Z) (cs : list Z) : Prop := ∀ n s s',
  0 <= n → n + Z.of_nat (length cs) < 2 ^ 31 → emit_acts (PUT <$> cs) s = Ok (tt, s') → m n s = Ok (n + Z.of_nat (length cs), s').

Lemma puts_nil : puts ret [].
Proof. intros n s s' _ _ [= <-]. cbn. by rewrite Z.add_0_r. Qed.

Lemma puts_bind m1 m2 c1 c2 : puts m1 c1 → puts m2 c2 → puts (λ n, let* n := m1 n in m2 n) (c1 ++ c2).
Proof.
  intros H1 H2 n s s' Hn Hlt He. rewrite length_app in *. rewrite fmap_app in He. apply emit_app in He as (s1 & E1 & E2).
  erewrite bind_ok; [|apply H1; [lia|lia|exact E1]]. rewrite (H2 _ _ s') by (done || lia). do 2 f_equal. lia.
Qed.

Lemma puts_ext m1 m2 cs : (∀ n s, m1 n s = m2 n s) → puts m2 cs → puts m1 cs.
Proof. intros E H n s s' Hn Hlt He. rewrite E. by apply H. Qed.

Lemma puts_putc x c : x = i8 c → puts (npf_putc_cnt pc x) [c].
Proof.
  intros -> n s s' Hn Hlt He. cbn in Hlt. unfold npf_putc_cnt. erewrite bind_ok; [|apply checked_ok; change (32 - 1) with 31; lia].
  cbn in He. unfold bind in *. destruct (pc (i8 c) s) as [[[] s1]| |]; [|done..]. by injection He as ->.
Qed.

Lemma puts_times k x c : x = i8 c → puts (put_times pc k x) (replicate k c).
Proof.
  intros Hx. induction k as [|k IH]; [exact puts_nil|]. apply (puts_bind _ _ [c]); [by apply puts_putc|done].
Qed.

Lemma puts_forward cs f i : begins (advance i f) cs → puts (put_forward pc (length cs) f i) cs.
Proof.
  revert i. induction cs as [|c cs IH]; intros i Hf; [exact puts_nil|]. apply begins_cons in Hf as [E Hf]. unfold advance in E. rewrite Z.add_0_r in E.
  apply (puts_bind _ _ [c]); [apply puts_putc; by rewrite E|]. apply IH. intros j x Hx. apply Hf in Hx. unfold advance in *. rewrite <- Hx. f_equal. lia.
Qed.

Lemma of_list_at l (i : nat) : of_list l (Z.of_nat i) = default 0 (l !! i).
Proof. unfold of_list. destruct (Z.ltb_spec (Z.of_nat i) 0); [lia|]. by rewrite Nat2Z.id. Qed.

Lemma puts_backward cs : puts (put_backward pc (length cs) (of_list (rev cs))) cs.
Proof.
  assert (∀ l k, (k <= length l)%nat → puts (put_backward pc k (of_list l)) (rev (take k l))) as H.
  { intros l k. induction k as [|k IH]; intros Hk; [exact puts_nil|]. destruct (lookup_lt_is_Some_2 l k ltac:(lia)) as [x Hx].
    rewrite (take_S_r _ _ _ Hx), rev_app_distr. apply (puts_bind _ _ [x]); [apply puts_putc; by rewrite of_list_at, Hx|]. apply IH. lia. }
  specialize (H (rev cs) (length cs) ltac:(by rewrite length_rev)). by rewrite take_ge, rev_involutive in H by (by rewrite length_rev).
Qed.

Lemma bin_len_pos n : 0 <= n → 1 <= npf_bin_len n.
Proof. intros Hn. unfold npf_bin_len. destruct (n =? 0); [lia|]. pose proof (Z.log2_nonneg n). lia. Qed.

Lemma bin_len_half n : 1 < n → npf_bin_len n = npf_bin_len (n / 2) + 1.
Proof.
  intros Hn. assert (0 < n / 2) by (apply Z.div_str_pos; lia). unfold npf_bin_len.
  rewrite !(proj2 (Z.eqb_neq _ 0)) by lia. pose proof (Z.log2_pos n Hn).
  pose proof (Z.log2_shiftr n 1 ltac:(lia)) as E. rewrite Z.shiftr_div_pow2 in E by lia. change (2 ^ 1) with 2 in E. lia.
Qed.

Lemma binary_digits fuel n : 0 <= n < 2 ^ Z.of_nat fuel → (0 < fuel)%nat →
  digits_le fuel 2 n = (λ i, Z.land (Z.shiftr n (Z.of_nat i)) 1) <$> seq 0 (Z.to_nat (npf_bin_len n)).
Proof.
  revert n. induction fuel as [|fuel IH]; intros n Hn Hf; [lia|]. cbn [digits_le].
  assert (n mod 2 = Z.land (Z.shiftr n 0) 1) as -> by (rewrite Z.shiftr_0_r; symmetry; apply (Z.land_ones n 1); lia).
  destruct (Z.eqb_spec (n / 2) 0) as [E|E].
  - assert (n < 2) by (destruct (Z.lt_ge_cases n 2); [done|]; pose proof (Z.div_le_lower_bound n 2 1 ltac:(lia) ltac:(lia)); lia).
    assert (npf_bin_len n = 1) as -> by (assert (n = 0 ∨ n = 1) as [-> | ->] by lia; done). done.
  - assert (0 <= n / 2) by (apply Z.div_pos; lia). assert (1 < n) by (destruct (Z.lt_ge_cases 1 n); [done|]; rewrite Z.div_small in E; lia).
    destruct fuel as [|fuel']; [cbn in Hn; lia|].
    rewrite IH; [| |lia]. 2: { split; [lia|]. apply Z.div_lt_upper_bound; [lia|]. rewrite <- Z.pow_succ_r, <- Nat2Z.inj_succ by lia. lia. }
    rewrite (bin_len_half n) by lia. pose proof (bin_len_pos (n / 2) ltac:(lia)).
    replace (Z.to_nat (npf_bin_len (n / 2) + 1)) with (1 + Z.to_nat (npf_bin_len (n / 2)))%nat by lia. rewrite seq_app, fmap_app.
    cbn [seq fmap list_fmap app Nat.add]. f_equal. rewrite <- (fmap_S_seq 0), <- list_fmap_compose. apply list_fmap_ext. intros _ i _. cbn. f_equal.
    rewrite Nat2Z.inj_succ, <- Z.add_1_l, <- Z.shiftr_shiftr by lia. by rewrite (Z.shiftr_div_pow2 n 1).
Qed.

Lemma digit_char_bit u b : 0 <= b < 2 → digit_char u b = chr "0" + b.
Proof. intros Hb. unfold digit_char. by rewrite (proj2 (Z.ltb_lt b 10)) by lia. Qed.

Lemma puts_binary n : 0 <= n < 2 ^ 64 → puts (put_binary pc (Z.to_nat (npf_bin_len n)) n) (numeral false 2 n).
Proof.
  intros Hn. unfold numeral. rewrite (binary_digits 64) by (done || lia).
  generalize (Z.to_nat (npf_bin_len n)). intros k. induction k as [|k IH]; [exact puts_nil|].
  rewrite seq_S, fmap_app, rev_app_distr. cbn [fmap list_fmap rev app Nat.add]. apply (puts_bind _ _ [_]); [|exact IH]. apply puts_putc.
  assert (0 <= Z.land (Z.shiftr n (Z.of_nat k)) 1 < 2) as Hb by (rewrite (Z.land_ones _ 1) by lia; apply Z.mod_pos_bound; lia).
  rewrite digit_char_bit by done. change (chr "0") with 48.
  assert (Z.land (Z.shiftr n (Z.of_nat k)) 1 = 0 ∨ Z.land (Z.shiftr n (Z.of_nat k)) 1 = 1) as [-> | ->] by lia; done.
Qed.

Definition sign_list (c : Z) : list Z := if c =? 0 then [] else [c].
Definition list_0x (c : Z) : list Z := if c =? 0 then [] else [chr "0"; c].

Lemma i8_ascii c : 0 <= c < 128 → c = i8 c.
Proof. intros Hc. unfold i8, signed. change (2 ^ (8 - 1)) with 128. change (2 ^ 8) with 256. rewrite Z.mod_small; lia. Qed.

Lemma puts_sign c : 0 <= c < 128 → puts (put_sign pc c) (sign_list c).
Proof. intros Hc. unfold put_sign, sign_list. destruct (c =? 0); [exact puts_nil|]. by apply puts_putc, i8_ascii. Qed.

Lemma puts_0x c : 0 <= c < 128 → puts (put_0x pc c) [chr "0"; c].
Proof. intros Hc. apply (puts_bind _ _ [chr "0"] [c]); by apply puts_putc, i8_ascii. Qed.

(** What [put_prefix] writes, and the sign it leaves. *)
Definition prefix_written (lft pad_c : Z) (fp : nat) (sgn x0 : Z) : list Z * Z :=
  if (lft =? 0) && negb (pad_c =? 0) then
    if pad_c =? chr "0" then (sign_list sgn ++ list_0x x0 ++ replicate fp pad_c, 0)
    else if x0 =? 0 then (replicate fp pad_c, sgn)
    else (replicate fp pad_c ++ sign_list sgn ++ list_0x x0, 0)
  else if x0 =? 0 then ([], sgn)
  else (sign_list sgn ++ list_0x x0, 0).

Lemma put_prefix_ok lft pad_c fp sgn x0 n s s' :
  0 <= pad_c < 128 → 0 <= sgn < 128 → 0 <= x0 < 128 → 0 <= n →
  n + Z.of_nat (length (prefix_written lft pad_c (Z.to_nat fp) sgn x0).1) < 2 ^ 31 →
  emit_acts (PUT <$> (prefix_written lft pad_c (Z.to_nat fp) sgn x0).1) s = Ok (tt, s') →
  put_prefix pc lft pad_c fp sgn x0 n s =
    Ok (((prefix_written lft pad_c (Z.to_nat fp) sgn x0).2, n + Z.of_nat (length (prefix_written lft pad_c (Z.to_nat fp) sgn x0).1)), s').
Proof.
  intros Hp Hsg Hx Hn. unfold put_prefix, prefix_written. pose proof (puts_sign sgn Hsg) as P1. pose proof (puts_0x x0 Hx) as P2.
  pose proof (puts_times (Z.to_nat fp) pad_c pad_c (i8_ascii _ Hp)) as P3.
  assert (puts (λ n, if x0 =? 0 then ret n else put_0x pc x0 n) (list_0x x0)) as P4 by (unfold list_0x; destruct (x0 =? 0); [exact puts_nil|done]).
  destruct ((lft =? 0) && negb (pad_c =? 0)); [destruct (pad_c =? chr "0")|]; cbn [fst snd].
  - rewrite !length_app. intros Hlt He. rewrite !fmap_app in He. apply emit_app in He as (s1 & E1 & (s2 & E2 & E3)%emit_app).
    erewrite bind_ok; [|apply P1; [lia|lia|exact E1]]. erewrite bind_ok; [|apply P4; [lia|lia|exact E2]]. erewrite bind_ok; [|apply P3; [lia|lia|exact E3]].
    rewrite !Nat2Z.inj_add, !Z.add_assoc. done.
  - unfold list_0x. destruct (x0 =? 0) eqn:E; cbn [fst snd].
    + intros Hlt He. by erewrite bind_ok; [|apply P3; done].
    + rewrite !length_app. intros Hlt He. rewrite !fmap_app in He. apply emit_app in He as (s1 & E1 & (s2 & E2 & E3)%emit_app).
      erewrite bind_ok; [|apply P3; [lia|lia|exact E1]]. erewrite bind_ok; [|apply P1; [lia|lia|exact E2]]. erewrite bind_ok; [|apply P2; [lia|lia|exact E3]].
      rewrite !Nat2Z.inj_add, !Z.add_assoc. done.
  - unfold list_0x. destruct (x0 =? 0) eqn:E; cbn [fst snd].
    + intros Hlt [= <-]. cbn. by rewrite Z.add_0_r.
    + rewrite !length_app. intros Hlt He. rewrite !fmap_app in He. apply emit_app in He as (s1 & E1 & E2).
      erewrite bind_ok; [|apply P1; [lia|lia|exact E1]]. erewrite bind_ok; [|apply P2; [lia|lia|exact E2]].
      rewrite !Nat2Z.inj_add, !Z.add_assoc. done.
Qed.

(** ** Arguments *)

Lemma signed_shift w x : ∃ k, signed w x = x + k * 2 ^ w.
Proof.
  unfold signed. exists (- ((x + 2 ^ (w - 1)) / 2 ^ w)).
  destruct (Z.eq_dec (2 ^ w) 0) as [E|E]; [rewrite E, Z.mod_0_r; lia|]. rewrite Z.mod_eq by done. lia.
Qed.

Lemma signed_range w x : 0 < w → - 2 ^ (w - 1) <= signed w x < 2 ^ (w - 1).
Proof.
  intros Hw. unfold signed. assert (2 ^ w = 2 * 2 ^ (w - 1)) as E by (rewrite <- Z.pow_succ_r by lia; f_equal; lia).
  assert (0 < 2 ^ (w - 1)) by (apply Z.pow_pos_nonneg; lia). pose proof (Z.mod_pos_bound (x + 2 ^ (w - 1)) (2 ^ w) ltac:(lia)). lia.
Qed.

Lemma pow_split w1 w2 : 0 <= w1 <= w2 → ∃ q, 2 ^ w2 = q * 2 ^ w1.
Proof. intros H. exists (2 ^ (w2 - w1)). rewrite <- Z.pow_add_r by lia. f_equal. lia. Qed.

Lemma signed_signed w1 w2 x : 0 < w1 <= w2 → signed w1 (signed w2 x) = signed w1 x.
Proof.
  intros Hw. destruct (signed_shift w2 x) as [k ->]. destruct (pow_split w1 w2 ltac:(lia)) as [q ->]. unfold signed. f_equal.
  replace (x + k * (q * 2 ^ w1) + 2 ^ (w1 - 1)) with (x + 2 ^ (w1 - 1) + k * q * 2 ^ w1) by lia. apply Z.mod_add.
  assert (0 < 2 ^ w1) by (apply Z.pow_pos_nonneg; lia). lia.
Qed.

Lemma mod_signed w1 w2 x : 0 < w1 <= w2 → signed w2 x mod 2 ^ w1 = x mod 2 ^ w1.
Proof.
  intros Hw. destruct (signed_shift w2 x) as [k ->]. destruct (pow_split w1 w2 ltac:(lia)) as [q ->].
  rewrite Z.mul_assoc. apply Z.mod_add. assert (0 < 2 ^ w1) by (apply Z.pow_pos_nonneg; lia). lia.
Qed.

Lemma mod_mod_pow w1 w2 x : 0 < w1 <= w2 → (x mod 2 ^ w2) mod 2 ^ w1 = x mod 2 ^ w1.
Proof.
  intros Hw. destruct (pow_split w1 w2 ltac:(lia)) as [q E]. assert (0 < 2 ^ w1) by (apply Z.pow_pos_nonneg; lia).
  assert (0 < 2 ^ w2) by (apply Z.pow_pos_nonneg; lia). rewrite (Z.mod_eq x (2 ^ w2)), E by lia.
  replace (x - q * 2 ^ w1 * (x / (q * 2 ^ w1))) with (x + - (q * (x / (q * 2 ^ w1))) * 2 ^ w1) by lia. apply Z.mod_add. lia.
Qed.

Lemma extract_signed_eq m slot : extract_signed (len_mod_of m) slot = signed_arg m slot.
Proof. destruct m; try done; unfold signed_arg; cbn [extract_signed len_mod_of width_of]; [by apply signed_signed|by apply (signed_signed 8 32)]. Qed.

Lemma extract_unsigned_eq m slot : extract_unsigned (len_mod_of m) slot = unsigned_arg m slot.
Proof. destruct m; try done; unfold unsigned_arg; cbn [extract_unsigned len_mod_of width_of]; [by apply (mod_mod_pow 16 32)|by apply (mod_mod_pow 8 32)]. Qed.

Lemma takes_arg_one m : takes_arg (len_mod_of m) = 1.
Proof. by destruct m. Qed.

Lemma signed_arg_range m slot : - 2 ^ 63 <= signed_arg m slot < 2 ^ 63.
Proof.
  unfold signed_arg. assert (0 < width_of m <= 64) by (destruct m; cbn; lia). pose proof (signed_range (width_of m) slot ltac:(lia)).
  assert (2 ^ (width_of m - 1) <= 2 ^ 63) by (apply Z.pow_le_mono_r; lia). lia.
Qed.

Lemma unsigned_arg_range m slot : 0 <= unsigned_arg m slot < 2 ^ 64.
Proof.
  unfold unsigned_arg. assert (0 < width_of m <= 64) by (destruct m; cbn; lia).
  assert (0 < 2 ^ width_of m <= 2 ^ 64) by (split; [apply Z.pow_pos_nonneg|apply Z.pow_le_mono_r]; lia).
  pose proof (Z.mod_pos_bound slot (2 ^ width_of m) ltac:(lia)). lia.
Qed.

Lemma unsigned_value_range d slot : 0 <= unsigned_value d slot < 2 ^ 64.
Proof. unfold unsigned_value. destruct (d_letter d); try apply unsigned_arg_range. by apply Z.mod_pos_bound. Qed.

(** ** The specification with its star arguments and defaults *)
Definition int_letter (l : letter) : bool := match l with SIGNED _ | UNSIGNED | OCTAL | HEX _ => true | _ => false end.

Record effective (d : directive_t) (w : Z) (lft : bool) (p : option Z) (fs : npf_format_spec) : Prop := {
  e_width : field_width fs = w;
  e_wopt : field_width_opt fs = NPF_FMT_SPEC_OPT_NONE ↔ d_width d = NONE;
  e_left : (left_justified fs =? 0) = negb lft;
  e_zero : (leading_zero_pad fs =? 0) = negb (d_zero d && negb (int_letter (d_letter d) && bool_decide (p ≠ None)));
  e_prec : prec fs = match p with Some p => p | None => if d_letter d is POINTER then 16 else 0 end;
  e_popt : prec_opt fs = NPF_FMT_SPEC_OPT_NONE ↔ p = None;
  e_prepend : prepend fs = sign_char (d_sign d);
  e_alt : (alt_form fs =? 0) = negb (d_alt d);
  e_case : case_adjust fs = adjust (is_upper (d_letter d));
  e_len : length_modifier fs = len_mod_of (d_length d);
  e_conv : conv_spec fs = conv_of (d_letter d)
}.

Lemma star_width_ok d a (s : S) w lft a1 : the_width args d a = (w, lft, a1) → directive_ok d → w < 2 ^ 31 →
  ∃ fs, star_width args (spec_of d) a s = Ok ((fs, a1), s) ∧ 0 <= w ∧
    fs = mk_spec w (amount_value (d_prec d)) (amount_opt (d_prec d)) (amount_opt (d_width d)) (left_justified fs) (if d_zero d then 1 else 0)
      (sign_char (d_sign d)) (if d_alt d then chr "#" else 0) (adjust (is_upper (d_letter d))) (len_mod_of (d_length d)) (conv_of (d_letter d)) ∧
    (left_justified fs =? 0) = negb lft.
Proof.
  intros Ew (_ & Hw & _) Hlt. unfold the_width, star_width in *. destruct (d_width d) as [|k|] eqn:E.
  - simplify_eq. exists (spec_of d). rewrite decide_False by (unfold spec_of; cbn; by rewrite E). split; [done|]. split; [lia|].
    unfold spec_of. rewrite E. split; [done|]. cbn. by destruct (d_left d).
  - simplify_eq. exists (spec_of d). rewrite decide_False by (unfold spec_of; cbn; by rewrite E). split; [done|]. split; [lia|].
    unfold spec_of. rewrite E. split; [done|]. cbn. by destruct (d_left d).
  - cbv zeta in Ew. set (x := i32 (args a)) in *. injection Ew as <- <- <-. rewrite decide_True by (unfold spec_of; cbn; by rewrite E).
    cbv zeta. destruct (Z.ltb_spec x 0).
    + eexists. erewrite bind_ok; [|apply checked_ok; change (32 - 1) with 31; lia]. split; [reflexivity|]. split; [lia|].
      split; [unfold spec_of; cbn; by replace (0 - x) with (Z.abs x) by lia|]. cbn. by rewrite orb_true_r.
    + eexists. split; [reflexivity|]. split; [lia|]. split; [unfold spec_of; cbn; by replace (Z.abs x) with x by lia|].
      cbn. rewrite orb_false_r. by destruct (d_left d).
Qed.

Lemma stars_effective d a (s : S) w lft a1 p a2 : the_width args d a = (w, lft, a1) → the_prec args d a1 = (p, a2) → directive_ok d → w < 2 ^ 31 →
  ∃ fs1 fs2, star_width args (spec_of d) a s = Ok ((fs1, a1), s) ∧ star_prec args fs1 a1 = (fs2, a2) ∧ 0 <= w ∧
    (∀ q, p = Some q → 0 <= q < 2 ^ 31) ∧ effective d w lft p (defaults fs2).
Proof.
  intros Ew Ep Hok Hlt. destruct (star_width_ok d a s w lft a1 Ew Hok Hlt) as (fs1 & E1 & Hw & Hfs & Hl). exists fs1.
  destruct Hok as (_ & _ & Hp). unfold the_prec in Ep.
  assert (∃ fs2, star_prec args fs1 a1 = (fs2, a2) ∧ (∀ q, p = Some q → 0 <= q < 2 ^ 31) ∧
    fs2 = mk_spec w (default 0 p) (prec_opt fs2) (amount_opt (d_width d)) (left_justified fs1) (if d_zero d then 1 else 0)
      (sign_char (d_sign d)) (if d_alt d then chr "#" else 0) (adjust (is_upper (d_letter d))) (len_mod_of (d_length d)) (conv_of (d_letter d)) ∧
    (prec_opt fs2 = NPF_FMT_SPEC_OPT_NONE ↔ p = None)) as (fs2 & E2 & Hq & Hfs2 & Hopt).
  { unfold star_prec. destruct (d_prec d) as [|k|] eqn:E; cbn [amount_opt amount_value] in Hfs.
    - simplify_eq. exists fs1. rewrite Hfs. cbn. done.
    - simplify_eq. exists fs1. rewrite Hfs. cbn. split_and!; try done. intros q [= <-]. exact Hp.
    - rewrite decide_True by (by rewrite Hfs). cbv zeta in *. pose proof (signed_range 32 (args a1) ltac:(lia)) as Hr. change (signed 32 (args a1)) with (i32 (args a1)) in Hr.
      set (x := i32 (args a1)) in *. injection Ep as <- <-. change (32 - 1) with 31 in Hr.
      eexists. split; [reflexivity|]. destruct (Z.ltb_spec x 0).
      + split; [done|]. split; [by rewrite Hfs|done].
      + split; [intros q [= <-]; lia|]. split; [by rewrite Hfs|done]. }
  exists fs2. split; [done|]. split; [done|]. split; [done|]. split; [done|]. unfold defaults. rewrite Hfs2. cbn [prec_opt conv_spec].
  set (o := prec_opt fs2) in *. clearbody o. clear - Hl Hopt.
  assert (bool_decide (o ≠ NPF_FMT_SPEC_OPT_NONE) = bool_decide (p ≠ None)) as Hb by (apply bool_decide_ext; tauto).
  destruct (decide (o = NPF_FMT_SPEC_OPT_NONE ∧ conv_of (d_letter d) = NPF_FMT_SPEC_CONV_POINTER)) as [Hd|Hd]; cbn [prec_opt conv_spec set_prec].
  - destruct Hd as [-> Hc]. assert (p = None) as -> by tauto. destruct (d_letter d) eqn:El; try done.
    split; cbn; rewrite ?El; try done; [by destruct (d_width d)|by destruct (d_zero d)|by destruct (d_alt d)].
  - rewrite Hb. assert (is_int_conv (conv_of (d_letter d)) = int_letter (d_letter d)) as -> by (by destruct (d_letter d)).
    assert (default 0 p = match p with Some p => p | None => if d_letter d is POINTER then 16 else 0 end) as Hprec.
    { destruct p; [done|]. destruct (d_letter d) eqn:El; try done. destruct Hd. split; [by apply Hopt|done]. }
    destruct (bool_decide (p ≠ None) && int_letter (d_letter d)) eqn:Eb; split; cbn; try done; try (by destruct (d_width d)); try (by destruct (d_alt d)).
    + rewrite (andb_comm (int_letter _)), Eb. by rewrite andb_false_r.
    + rewrite (andb_comm (int_letter _)), Eb. by destruct (d_zero d).
Qed.

(** ** Strings *)
Definition cut (p : option Z) (l : list Z) : list Z := match p with None => l | Some p => take (Z.to_nat p) l end.

Lemma string_length_ok fs ptr l p (s : S) :
  (prec_opt fs = NPF_FMT_SPEC_OPT_NONE ↔ p = None) → (∀ q, p = Some q → prec fs = q ∧ 0 <= q) →
  (ptr = 0 ∧ l = [] ∨ ptr ≠ 0 ∧ holds (text ptr) l) → Z.of_nat (length (cut p l)) < 2 ^ 31 →
  string_length text fs ptr s = Ok (Z.of_nat (length (cut p l)), s).
Proof.
  intros Hopt Hprec Hstr Hlen.
  assert (wp (string_length text fs ptr) s (λ r s', r = Z.of_nat (length (cut p l)) ∧ s' = s)) as (r & s' & -> & -> & ->)%wp_inv; [|done].
  apply (wp_while _ (λ m i s', m = Z.of_nat (length (cut p l)) - i ∧ 0 <= i <= Z.of_nat (length (cut p l)) ∧ s' = s) _) with (n := Z.of_nat (length (cut p l))); [|lia|split_and!; done || lia].
  intros m i s1 _ (-> & Hi & ->).
  assert (length (cut p l) = match p with None => length l | Some p => Z.to_nat p `min` length l end)%nat as El by (destruct p; [apply length_take|done]).
  destruct (bool_decide (prec_opt fs = NPF_FMT_SPEC_OPT_NONE) || (i <? prec fs)) eqn:Eb.
  2: { apply wp_ret. split; [|done]. apply orb_false_iff in Eb as [E1%bool_decide_eq_false E2%Z.ltb_ge].
    destruct p as [q|]; [|by destruct E1; apply Hopt]. destruct (Hprec q eq_refl) as [<- ?]. lia. }
  destruct Hstr as [[-> ->]|[Hne Hh]].
  { cbn [Z.eqb negb andb]. apply wp_ret. split; [|done]. cbn in El. destruct p; lia. }
  rewrite (proj2 (Z.eqb_neq ptr 0)) by done. cbn [negb andb].
  destruct (Z.eq_dec i (Z.of_nat (length l))) as [Ei|Ei].
  - rewrite Ei, (holds_end _ _ Hh). change (negb (0 =? 0)) with false. cbv iota. apply wp_ret. split; [|done]. destruct p; lia.
  - assert (i < Z.of_nat (length l)) by (destruct p; lia). destruct (holds_lookup _ _ i Hh) as (x & _ & -> & Hx); [lia|].
    rewrite (proj2 (Z.eqb_neq x 0)) by lia. cbn [negb]. cbv iota.
    assert (i < Z.of_nat (length (cut p l))).
    { apply orb_true_iff in Eb as [E1%bool_decide_eq_true|E2%Z.ltb_lt]; [apply Hopt in E1; subst p; done|].
      destruct p as [q|]; [destruct (Hprec q eq_refl) as [<- ?]; lia|lia]. }
    eapply wp_bind, wp_ok; [apply checked_ok; change (32 - 1) with 31; lia|]. apply wp_ret. eexists. split; [|split_and!; [reflexivity|lia..|done]]. lia.
Qed.

Lemma holds_begins f l : holds f l → begins f l.
Proof. intros H i x Hx. by apply (holds_byte f l H). Qed.

Lemma begins_take f l k : begins f l → begins f (take k l).
Proof. intros H i x [Hx _]%lookup_take_Some. by apply H. Qed.

(** ** Conversions *)

(** The conversion has this sign, prefix and core, and pads as it must. *)
Record converted (d : directive_t) (w : Z) (lft : bool) (p : option Z) (slot : Z) (cv : conversion) (pp : Z) (core : list Z) : Prop := {
  cd_width : field_width (cv_fs cv) = w;
  cd_left : (left_justified (cv_fs cv) =? 0) = negb lft;
  cd_pad : pad_char (cv_fs cv) (cv_zero cv) =
    match d_width d with NONE => 0 | _ => if negb lft && zero_filled d p slot then chr "0" else chr " " end;
  cd_prec : ∀ s : S, prec_padding (cv_fs cv) (cv_len cv) s = Ok (pp, s);
  cd_len : 0 <= cv_len cv ∧ 0 <= pp ∧ cv_len cv + pp = Z.of_nat (length core);
  cd_payload : ∀ sg, sg = 0 ∨ sg = cv_sign cv → puts (put_payload pc cv sg pp) (sign_list sg ++ core);
  cd_sign : sign_list (cv_sign cv) = sign_text d slot ∧ 0 <= cv_sign cv < 128;
  cd_0x : list_0x (cv_0x cv) = prefix_text d slot ∧ 0 <= cv_0x cv < 128
}.

Lemma pad_char_ok d w lft p fs slot zero : effective d w lft p fs → (is_zero d slot = true → int_letter (d_letter d) = true ∨ zero = true) →
  (zero = true → is_zero d slot = true) →
  pad_char fs zero = match d_width d with NONE => 0 | _ => if negb lft && zero_filled d p slot then chr "0" else chr " " end.
Proof.
  intros He Hz1 Hz2. unfold pad_char. destruct (decide (field_width_opt fs = NPF_FMT_SPEC_OPT_NONE)) as [E|E].
  { apply (e_wopt _ _ _ _ _ He) in E. by rewrite E. }
  assert (d_width d ≠ NONE) as Hw by (intros Hn; by apply E, (e_wopt _ _ _ _ _ He)).
  rewrite (e_zero _ _ _ _ _ He), (e_left _ _ _ _ _ He), negb_involutive.
  assert (∀ A (x y : A), match d_width d with NONE => x | _ => y end = y) as -> by (intros; by destruct (d_width d)).
  unfold zero_filled. destruct lft; cbn [negb andb]; [by rewrite andb_false_r|]. rewrite andb_true_r.
  assert (bool_decide (prec_opt fs = NPF_FMT_SPEC_OPT_NONE) = bool_decide (p = None)) as -> by (apply bool_decide_ext, (e_popt _ _ _ _ _ He)).
  destruct (d_zero d); cbn [andb]; [|done]. destruct p as [q|]; cbn.
  - rewrite (e_prec _ _ _ _ _ He). destruct (d_letter d) eqn:El; cbn; try done;
      destruct (q =? 0), zero, (is_zero d slot); cbn; try done; try (by specialize (Hz1 eq_refl) as []); try (by specialize (Hz2 eq_refl)).
  - by rewrite andb_false_r.
Qed.

Lemma prec_padding_ok fs len (s : S) : conv_spec fs ≠ NPF_FMT_SPEC_CONV_STRING → 0 <= prec fs < 2 ^ 31 → 0 <= len < 2 ^ 31 →
  prec_padding fs len s = Ok (Z.max 0 (prec fs - len), s).
Proof.
  intros Hc Hp Hl. unfold prec_padding. rewrite decide_False by done.
  by erewrite bind_ok; [|apply checked_ok; change (32 - 1) with 31; lia].
Qed.

Lemma puts_payload fs null cbuf bv len sgn x0 zero a sg pp body :
  conv_spec fs ≠ NPF_FMT_SPEC_CONV_STRING → 0 <= sg < 128 → 0 <= pp →
  puts (λ n, if decide (conv_spec fs = NPF_FMT_SPEC_CONV_BINARY) then put_binary pc (Z.to_nat len) bv n else put_backward pc (Z.to_nat len) cbuf n) body →
  puts (put_payload pc (mk_conversion fs null cbuf bv len sgn x0 zero a) sg pp) (sign_list sg ++ replicate (Z.to_nat pp) (chr "0") ++ body).
Proof.
  intros Hc Hsg Hpp Hb. eapply puts_ext; [intros n s; unfold put_payload; cbn [cv_fs]; rewrite decide_False by done; reflexivity|].
  apply puts_bind; [by apply puts_sign|]. apply puts_bind; [by apply puts_times|exact Hb].
Qed.

(** A conversion to digits, in [cbuf] from the last one on or in [bv]. *)
Lemma number_converted d w lft p slot fs cbuf bv len sgn x0 zero a body :
  field_width fs = w → (left_justified fs =? 0) = negb lft →
  pad_char fs zero = match d_width d with NONE => 0 | _ => if negb lft && zero_filled d p slot then chr "0" else chr " " end →
  conv_spec fs ≠ NPF_FMT_SPEC_CONV_STRING → 0 <= prec fs < 2 ^ 31 → len = Z.of_nat (length body) → len < 2 ^ 31 →
  puts (λ n, if decide (conv_spec fs = NPF_FMT_SPEC_CONV_BINARY) then put_binary pc (Z.to_nat len) bv n else put_backward pc (Z.to_nat len) cbuf n) body →
  sign_list sgn = sign_text d slot → 0 <= sgn < 128 → list_0x x0 = prefix_text d slot → 0 <= x0 < 128 →
  converted d w lft p slot (mk_conversion fs false cbuf bv len sgn x0 zero a) (Z.max 0 (prec fs - len))
    (replicate (Z.to_nat (prec fs - len)) (chr "0") ++ body).
Proof.
  intros Hw Hl Hpad Hc Hp Elen Hlen Hb Hs1 Hs2 Hx1 Hx2.
  replace (Z.to_nat (prec fs - len)) with (Z.to_nat (Z.max 0 (prec fs - len))) by lia.
  split; cbn [cv_fs cv_zero cv_len cv_sign cv_0x]; try done.
  - intros s. apply prec_padding_ok; done || lia.
  - rewrite length_app, length_replicate. lia.
  - intros sg Hsg. apply puts_payload; try done; [|lia]. destruct Hsg as [-> | ->]; lia.
Qed.

Lemma puts_digits fs cs : conv_spec fs ≠ NPF_FMT_SPEC_CONV_BINARY →
  ∀ bv, puts (λ n, if decide (conv_spec fs = NPF_FMT_SPEC_CONV_BINARY) then put_binary pc (Z.to_nat (Z.of_nat (length cs))) bv n
    else put_backward pc (Z.to_nat (Z.of_nat (length cs))) (of_list (rev cs)) n) cs.
Proof.
  intros Hc bv. eapply puts_ext; [intros n s; rewrite decide_False by done; rewrite Nat2Z.id; reflexivity|]. apply puts_backward.
Qed.

Lemma numeral_length u base n : (length (numeral u base n) <= 64)%nat.
Proof.
  unfold numeral. rewrite length_fmap, length_rev. generalize 64%nat as k. intros k. revert n. induction k as [|k IH]; intros n; [cbn; lia|].
  cbn. destruct (n / base =? 0); [cbn; lia|]. specialize (IH (n / base)). lia.
Qed.

Section convert.
Context (d : directive_t) (w : Z) (lft : bool) (p : option Z) (fs : npf_format_spec) (a : Z) (s : S).
Hypothesis He : effective d w lft p fs.
Hypothesis Hp : ∀ q, p = Some q → 0 <= q < 2 ^ 31.

Lemma explicit_zero_eq v : explicit_zero fs v = bool_decide (p = Some 0) && (v =? 0).
Proof.
  unfold explicit_zero. assert (bool_decide (prec_opt fs = NPF_FMT_SPEC_OPT_NONE) = bool_decide (p = None)) as -> by (apply bool_decide_ext, (e_popt _ _ _ _ _ He)).
  rewrite (e_prec _ _ _ _ _ He), (andb_comm _ (v =? 0)). rewrite <- andb_assoc. f_equal. destruct p as [q|]; cbn; [|done].
  destruct (Z.eqb_spec q 0) as [->|]; [done|]. symmetry. apply bool_decide_eq_false. congruence.
Qed.

Lemma prec_range : 0 <= prec fs < 2 ^ 31.
Proof. rewrite (e_prec _ _ _ _ _ He). destruct p as [q|]; [by apply Hp|]. destruct (d_letter d); lia. Qed.

Lemma min_digits_eq : d_letter d ≠ STRING → min_digits d p = prec fs.
Proof. rewrite (e_prec _ _ _ _ _ He). unfold min_digits. by destruct (d_letter d), p. Qed.

(** Digits and padding of the reference. *)
Definition core_text (slot : Z) : list Z :=
  let body := body_text strings d (bool_decide (p = Some 0) && is_zero d slot) p slot in
  replicate (Z.to_nat (min_digits d p - Z.of_nat (length body))) (chr "0") ++ body.

Lemma abs_u64 v : - 2 ^ 63 <= v < 2 ^ 63 → (if v <? 0 then u64 (0 - u64 v) else u64 v) = Z.abs v ∧ 0 <= Z.abs v < 2 ^ 64.
Proof.
  intros Hv. split; [|lia]. destruct (Z.ltb_spec v 0).
  - unfold u64. rewrite Zminus_mod_idemp_r. rewrite Z.mod_small; lia.
  - rewrite u64_id by (unfold is_u64; lia). lia.
Qed.

Lemma sign_list_char f : sign_list (sign_char f) = match f with SIGN_NONE => [] | SIGN_SPACE => bytes " " | SIGN_PLUS => bytes "+" end ∧ 0 <= sign_char f < 128.
Proof. by destruct f. Qed.

Lemma convert_signed_ok i : d_letter d = SIGNED i →
  ∃ cv pp, convert_signed args fs a s = Ok (cv, s) ∧ cv_args cv = a + 1 ∧ converted d w lft p (args a) cv pp (core_text (args a)).
Proof.
  intros El. unfold convert_signed. rewrite (e_len _ _ _ _ _ He), extract_signed_eq, takes_arg_one.
  set (v := signed_arg (d_length d) (args a)). destruct (abs_u64 v (signed_arg_range _ _)) as [Ev Hv].
  assert (∃ body, body = body_text strings d (bool_decide (p = Some 0) && is_zero d (args a)) p (args a) ∧ Z.of_nat (length body) < 2 ^ 31 ∧
    (if explicit_zero fs v then ret [] else npf_utoa_rev (if v <? 0 then u64 (0 - u64 v) else u64 v) 10 (case_adjust fs)) s = Ok (rev body, s)) as (body & Eb & Hb & E).
  { eexists. split; [reflexivity|]. rewrite explicit_zero_eq. unfold body_text, is_zero. rewrite El. fold v.
    destruct (bool_decide (p = Some 0) && (v =? 0)); [cbn; done|]. pose proof (numeral_length false 10 (Z.abs v)). split; [lia|].
    rewrite (e_case _ _ _ _ _ He), El, Ev. apply utoa_ok; lia. }
  erewrite bind_ok; [|exact E]. eexists _, _. split; [reflexivity|]. split; [done|].
  unfold core_text. rewrite <- Eb, (min_digits_eq) by (by rewrite El). rewrite length_rev.
  assert (conv_spec fs = NPF_FMT_SPEC_CONV_SIGNED_INT) as Hc by (by rewrite (e_conv _ _ _ _ _ He), El).
  destruct (sign_list_char (d_sign d)) as [Hs1 Hs2].
  apply number_converted; try done; try apply He; try (by rewrite Hc); try apply prec_range.
  - eapply pad_char_ok; [done| |]; unfold is_zero; rewrite El; fold v; auto.
  - apply puts_digits. by rewrite Hc.
  - unfold sign_text. rewrite El. fold v. destruct (v <? 0); [done|]. by rewrite (e_prepend _ _ _ _ _ He).
  - destruct (v <? 0); [done|]. by rewrite (e_prepend _ _ _ _ _ He).
  - unfold prefix_text. rewrite El. by destruct (d_alt d && negb (is_zero d (args a))).
Qed.

Definition unsigned_letter (l : letter) : bool := match l with UNSIGNED | OCTAL | HEX _ | BINARY _ | POINTER => true | _ => false end.

(** The digits of an unsigned conversion, before a leading zero is added. *)
Definition base_letter (l : letter) : Z := match l with UNSIGNED => 10 | OCTAL => 8 | BINARY _ => 2 | _ => 16 end.
Definition plain_digits (v : Z) : list Z := numeral (match d_letter d with HEX u => u | _ => false end) (base_letter (d_letter d)) v.

Lemma unsigned_body v : unsigned_letter (d_letter d) = true → v = unsigned_value d (args a) →
  body_text strings d false p (args a) =
    (if bool_decide (d_letter d = OCTAL) && (d_alt d && negb (v =? 0)) then [chr "0"] else []) ++ plain_digits v ∧
  is_zero d (args a) = (v =? 0).
Proof.
  intros Hl ->. unfold body_text, plain_digits, is_zero. destruct (d_letter d); try done.
Qed.

Lemma unsigned_prefix v : unsigned_letter (d_letter d) = true → v = unsigned_value d (args a) →
  let x := if negb (v =? 0) && d_alt d then prefix_of (conv_of (d_letter d)) else 0 in
  let x := if negb (x =? 0) then i8 (x + adjust (is_upper (d_letter d))) else x in
  list_0x x = prefix_text d (args a) ∧ 0 <= x < 128.
Proof.
  intros Hl Hv. cbv zeta. unfold prefix_text. rewrite (proj2 (unsigned_body v Hl Hv)), (andb_comm (negb _)).
  destruct (d_alt d && negb (v =? 0)); [|done]. destruct (d_letter d) as [| | | | | |[]|[]| |]; try done.
Qed.

Lemma length_binary v : 0 <= v < 2 ^ 64 → Z.of_nat (length (numeral false 2 v)) = npf_bin_len v.
Proof.
  intros Hv. unfold numeral. rewrite (binary_digits 64) by (done || lia). rewrite length_fmap, length_rev, length_fmap, length_seq.
  pose proof (bin_len_pos v ltac:(lia)). lia.
Qed.

(** A zero that the precision suppresses. *)
Lemma convert_suppressed : unsigned_letter (d_letter d) = true → p = Some 0 → unsigned_value d (args a) = 0 →
  ∃ pp, converted d w lft p (args a)
    (mk_conversion (if bool_decide (conv_spec fs = NPF_FMT_SPEC_CONV_OCTAL) && d_alt d then set_prec fs 1 (prec_opt fs) else fs) false (of_list []) 0 0 0 0 true (a + 1))
    pp (core_text (args a)).
Proof.
  intros Hl Hp0 Hv. assert (is_zero d (args a) = true) as Hz by (rewrite (proj2 (unsigned_body _ Hl eq_refl)), Hv; done).
  set (fs' := if bool_decide (conv_spec fs = NPF_FMT_SPEC_CONV_OCTAL) && d_alt d then set_prec fs 1 (prec_opt fs) else fs).
  assert (prec fs' = (if bool_decide (d_letter d = OCTAL) && d_alt d then 1 else 0)) as Hprec.
  { assert (bool_decide (conv_spec fs = NPF_FMT_SPEC_CONV_OCTAL) = bool_decide (d_letter d = OCTAL)) as E
      by (apply bool_decide_ext; rewrite (e_conv _ _ _ _ _ He); by destruct (d_letter d)).
    unfold fs'. rewrite E. destruct (bool_decide (d_letter d = OCTAL) && d_alt d); [done|]. rewrite (e_prec _ _ _ _ _ He), Hp0. done. }
  assert (core_text (args a) = replicate (Z.to_nat (prec fs' - 0)) (chr "0") ++ []) as ->.
  { unfold core_text. rewrite Hprec, Hz, Hp0, bool_decide_true by done. unfold body_text, min_digits. cbn [andb].
    destruct (d_letter d) eqn:El; try done. rewrite bool_decide_true by done. by destruct (d_alt d). }
  assert (conv_spec fs' = conv_of (d_letter d)) as Hc by (rewrite <- (e_conv _ _ _ _ _ He); unfold fs'; by destruct (bool_decide (conv_spec fs = NPF_FMT_SPEC_CONV_OCTAL) && d_alt d)).
  eexists. apply number_converted; try done.
  - unfold fs'. destruct (bool_decide (conv_spec fs = NPF_FMT_SPEC_CONV_OCTAL) && d_alt d); apply (e_width _ _ _ _ _ He).
  - unfold fs'. destruct (bool_decide (conv_spec fs = NPF_FMT_SPEC_CONV_OCTAL) && d_alt d); apply (e_left _ _ _ _ _ He).
  - rewrite <- (pad_char_ok d w lft p fs (args a) true He) by auto. unfold fs'. destruct (bool_decide (conv_spec fs = NPF_FMT_SPEC_CONV_OCTAL)) eqn:Eo; [|done].
    destruct (d_alt d); [|done]. cbn [andb]. unfold pad_char. cbn [field_width_opt set_prec leading_zero_pad left_justified prec_opt prec].
    assert ((leading_zero_pad fs =? 0) = true) as ->; [|done]. rewrite (e_zero _ _ _ _ _ He). apply bool_decide_eq_true in Eo.
    rewrite (e_conv _ _ _ _ _ He) in Eo. rewrite Hp0. destruct (d_letter d); try done. cbn. by rewrite andb_false_r.
  - rewrite Hc. by destruct (d_letter d).
  - rewrite Hprec. destruct (bool_decide (d_letter d = OCTAL) && d_alt d); lia.
  - intros n s1 s2 Hn Hlt. cbn. intros [= <-]. rewrite Z.add_0_r. destruct (decide _); done.
  - unfold sign_text. by destruct (d_letter d).
  - unfold prefix_text. rewrite Hz. by rewrite andb_false_r.
Qed.

Lemma convert_unsigned_ok : unsigned_letter (d_letter d) = true →
  ∃ cv pp, convert_unsigned args fs a s = Ok (cv, s) ∧ cv_args cv = a + 1 ∧ converted d w lft p (args a) cv pp (core_text (args a)).
Proof.
  intros Hl. unfold convert_unsigned. rewrite (e_conv _ _ _ _ _ He), (e_len _ _ _ _ _ He), extract_unsigned_eq, takes_arg_one, (e_case _ _ _ _ _ He), (e_alt _ _ _ _ _ He), negb_involutive.
  assert ((if bool_decide (conv_of (d_letter d) = NPF_FMT_SPEC_CONV_POINTER) then u64 (args a) else unsigned_arg (d_length d) (args a)) = unsigned_value d (args a)) as ->
    by (unfold unsigned_value; by destruct (d_letter d)).
  assert ((if bool_decide (conv_of (d_letter d) = NPF_FMT_SPEC_CONV_POINTER) then 1 else 1) = 1) as -> by (by destruct (bool_decide _)).
  pose proof (unsigned_value_range d (args a)) as Hr. set (v := unsigned_value d (args a)) in *.
  destruct (unsigned_body v Hl eq_refl) as [Eb Ez]. destruct (unsigned_prefix v Hl eq_refl) as [Ex Hx]. cbv zeta.
  rewrite explicit_zero_eq. destruct (bool_decide (p = Some 0) && (v =? 0)) eqn:Enone.
  { apply andb_true_iff in Enone as [E1%bool_decide_eq_true E2%Z.eqb_eq]. destruct (convert_suppressed Hl E1 E2) as [pp H].
    eexists _, pp. split; [reflexivity|]. split; [done|]. rewrite (e_conv _ _ _ _ _ He) in H. exact H. }
  assert (bool_decide (conv_of (d_letter d) = NPF_FMT_SPEC_CONV_OCTAL) = bool_decide (d_letter d = OCTAL)) as -> by (apply bool_decide_ext; by destruct (d_letter d)).
  assert (∃ cbuf, (if bool_decide (conv_of (d_letter d) = NPF_FMT_SPEC_CONV_BINARY) then ret [] else npf_utoa_rev v (base_of (conv_of (d_letter d))) (adjust (is_upper (d_letter d)))) s = Ok (cbuf, s) ∧
    (if bool_decide (conv_of (d_letter d) = NPF_FMT_SPEC_CONV_BINARY) then npf_bin_len v else Z.of_nat (length cbuf)) = Z.of_nat (length (plain_digits v)) ∧
    (conv_of (d_letter d) ≠ NPF_FMT_SPEC_CONV_BINARY → cbuf = rev (plain_digits v))) as (cbuf & Eu & El & Hcb).
  { destruct (bool_decide (conv_of (d_letter d) = NPF_FMT_SPEC_CONV_BINARY)) eqn:E.
    - exists []. apply bool_decide_eq_true in E. split; [done|]. split; [|done]. unfold plain_digits. destruct (d_letter d); try done. by rewrite length_binary.
    - exists (rev (plain_digits v)). apply bool_decide_eq_false in E. rewrite length_rev. split; [|done]. unfold plain_digits.
      destruct (d_letter d); try done; by rewrite utoa_ok by (done || lia). }
  erewrite bind_ok; [|exact Eu]. rewrite El.
  set (extra := if bool_decide (d_letter d = OCTAL) && (d_alt d && negb (v =? 0)) then [chr "0"] else []) in *.
  assert (negb (v =? 0) && d_alt d && bool_decide (d_letter d = OCTAL) = bool_decide (d_letter d = OCTAL) && (d_alt d && negb (v =? 0))) as -> by (by destruct (negb (v =? 0)), (d_alt d), (bool_decide _)).
  eexists _, _. split; [reflexivity|]. split; [done|].
  assert (core_text (args a) = replicate (Z.to_nat (prec fs - Z.of_nat (length (extra ++ plain_digits v)))) (chr "0") ++ extra ++ plain_digits v) as ->.
  { unfold core_text. rewrite Ez, Enone, Eb. rewrite min_digits_eq by (by destruct (d_letter d)). done. }
  assert ((if bool_decide (d_letter d = OCTAL) && (d_alt d && negb (v =? 0)) then Z.of_nat (length (plain_digits v)) + 1 else Z.of_nat (length (plain_digits v))) =
    Z.of_nat (length (extra ++ plain_digits v))) as -> by (unfold extra; destruct (bool_decide (d_letter d = OCTAL) && (d_alt d && negb (v =? 0))); cbn; lia).
  apply number_converted; try done; try apply He; try apply prec_range.
  - eapply pad_char_ok; [done| |]; rewrite Ez; auto.
  - rewrite (e_conv _ _ _ _ _ He). by destruct (d_letter d).
  - rewrite length_app. pose proof (numeral_length (match d_letter d with HEX u => u | _ => false end) (base_letter (d_letter d)) v) as Hn. fold (plain_digits v) in Hn.
    assert (length extra <= 1)%nat by (unfold extra; destruct (_ && _); cbn; lia). lia.
  - rewrite (e_conv _ _ _ _ _ He). destruct (decide (conv_of (d_letter d) = NPF_FMT_SPEC_CONV_BINARY)) as [E|E].
    + assert (extra = []) as -> by (unfold extra; by destruct (d_letter d)). cbn [app]. unfold plain_digits. destruct (d_letter d); try done. cbn [base_letter].
      rewrite length_binary by done. by apply puts_binary.
    + specialize (Hcb E). eapply puts_ext; [|apply (puts_backward (extra ++ plain_digits v))]. intros n s1. cbv beta. rewrite Nat2Z.id. do 2 f_equal.
      rewrite Hcb. unfold extra. rewrite rev_app_distr. by destruct (bool_decide (d_letter d = OCTAL) && (d_alt d && negb (v =? 0))); [|rewrite app_nil_r].
  - unfold sign_text. by destruct (d_letter d).
Qed.

(** The other conversions to characters in [cbuf]. *)
Lemma plain_converted cbuf a' body :
  d_letter d = PERCENT ∨ d_letter d = CHAR ∨ d_letter d = WRITEBACK → body_text strings d false p (args a) = body → cbuf = rev body → (length body <= 1)%nat →
  converted d w lft p (args a) (mk_conversion fs false (of_list cbuf) 0 (Z.of_nat (length body)) 0 0 false a')
    (Z.max 0 (prec fs - Z.of_nat (length body))) (core_text (args a)).
Proof.
  intros Hl Hb -> Hlen. assert (is_zero d (args a) = false) as Hz by (unfold is_zero; by destruct Hl as [-> |[-> | ->]]).
  assert (conv_spec fs ≠ NPF_FMT_SPEC_CONV_STRING ∧ conv_spec fs ≠ NPF_FMT_SPEC_CONV_BINARY) as [Hc1 Hc2] by (rewrite (e_conv _ _ _ _ _ He); by destruct Hl as [-> |[-> | ->]]).
  unfold core_text. rewrite Hz, andb_false_r, Hb, min_digits_eq by (by destruct Hl as [-> |[-> | ->]]).
  apply number_converted; try done; try apply He; try apply prec_range; try lia.
  - eapply pad_char_ok; [done| |]; rewrite Hz; done.
  - by apply puts_digits.
  - unfold sign_text. by destruct Hl as [-> |[-> | ->]].
  - unfold prefix_text. destruct (d_alt d && negb (is_zero d (args a))); [|done]. by destruct Hl as [-> |[-> | ->]].
Qed.

Lemma convert_string : d_letter d = STRING → Z.of_nat (length (core_text (args a))) < 2 ^ 31 →
  u64 (args a) = 0 ∨ holds (text (u64 (args a))) (strings (u64 (args a))) →
  string_length text fs (u64 (args a)) s = Ok (Z.of_nat (length (core_text (args a))), s) ∧
  converted d w lft p (args a) (mk_conversion fs (u64 (args a) =? 0) (text (u64 (args a))) 0 (Z.of_nat (length (core_text (args a)))) 0 0 false (a + 1)) 0 (core_text (args a)).
Proof.
  intros Hl Hlen Hstr. set (ptr := u64 (args a)) in *. set (l := if ptr =? 0 then [] else strings ptr).
  assert (core_text (args a) = cut p l) as Ec.
  { unfold core_text, body_text, min_digits. rewrite Hl. fold ptr. fold l. rewrite Z2Nat.nonpos by lia. by destruct p. }
  rewrite Ec in *. assert (ptr = 0 ∧ l = [] ∨ ptr ≠ 0 ∧ holds (text ptr) l) as Hstr'.
  { unfold l. destruct (Z.eqb_spec ptr 0); [by left|]. right. split; [done|]. destruct Hstr; done. }
  split.
  { apply string_length_ok; try done; [apply (e_popt _ _ _ _ _ He)|]. intros q Hq. rewrite (e_prec _ _ _ _ _ He), Hq. split; [done|]. by apply Hp. }
  assert (conv_spec fs = NPF_FMT_SPEC_CONV_STRING) as Hc by (by rewrite (e_conv _ _ _ _ _ He), Hl).
  split; cbn [cv_fs cv_zero cv_len cv_sign cv_0x]; try apply He.
  - eapply pad_char_ok; [done| |]; unfold is_zero; rewrite Hl; done.
  - intros s'. unfold prec_padding. by rewrite decide_True.
  - lia.
  - intros sg Hsg. assert (sg = 0) as -> by (by destruct Hsg). cbn [sign_list Z.eqb app]. eapply puts_ext; [intros n s'; unfold put_payload; cbn [cv_fs cv_null cv_len cv_cbuf]; rewrite decide_True by done; reflexivity|].
    destruct Hstr' as [[E1 E2]|[E1 Hh]].
    + rewrite E1, E2. cbn [Z.eqb]. assert (cut p [] = []) as -> by (destruct p; [apply take_nil|done]). exact puts_nil.
    + rewrite (proj2 (Z.eqb_neq ptr 0)), Nat2Z.id by done. apply puts_forward. assert (begins (text ptr) (cut p l)) as Hb by (unfold cut; destruct p; [apply begins_take|]; by apply holds_begins).
      intros i x Hx. apply Hb in Hx. done.
  - unfold sign_text. by rewrite Hl.
  - unfold prefix_text. rewrite Hl. by destruct (_ && _).
Qed.

Lemma convert_ok n s1 :
  emit_acts match d_letter d with WRITEBACK => [STORE (u64 (args a)) (store_size (d_length d)) n] | _ => [] end s = Ok (tt, s1) →
  (d_letter d = STRING → u64 (args a) = 0 ∨ holds (text (u64 (args a))) (strings (u64 (args a)))) → Z.of_nat (length (core_text (args a))) < 2 ^ 31 →
  ∃ cv pp, convert text writeback args fs a n s = Ok (cv, s1) ∧ cv_args cv = a + consumes (d_letter d) ∧ converted d w lft p (args a) cv pp (core_text (args a)).
Proof.
  intros Hemit Hstr Hlen. unfold convert. rewrite (e_conv _ _ _ _ _ He).
  destruct (d_letter d) eqn:El; cbn [conv_of consumes] in *; try (injection Hemit as <-).
  - eexists _, _. split; [reflexivity|]. rewrite Z.add_0_r. split; [done|]. apply (plain_converted [chr "%"] a [chr "%"]); rewrite ?El; auto. unfold body_text. by rewrite El.
  - eexists _, _. split; [reflexivity|]. split; [done|]. apply (plain_converted [u8 (i32 (args a))] (a + 1) [u8 (i32 (args a))]); rewrite ?El; auto.
    unfold body_text. rewrite El. f_equal. symmetry. apply (mod_signed 8 32). lia.
  - destruct (convert_string El Hlen (Hstr eq_refl)) as [E H]. eexists _, _. erewrite bind_ok; [|exact E]. split; [reflexivity|]. split; [done|]. exact H.
  - eapply convert_signed_ok. exact El.
  - apply convert_unsigned_ok. by rewrite El.
  - apply convert_unsigned_ok. by rewrite El.
  - apply convert_unsigned_ok. by rewrite El.
  - apply convert_unsigned_ok. by rewrite El.
  - apply convert_unsigned_ok. by rewrite El.
  - rewrite (e_len _ _ _ _ _ He). cbn [emit_acts] in Hemit. unfold bind at 1 in Hemit.
    assert (writeback_size (len_mod_of (d_length d)) = store_size (d_length d)) as -> by (by destruct (d_length d)).
    rewrite decide_False by (by destruct (d_length d)). destruct (writeback _ _ _ s) as [[[] s2]| |] eqn:Ew; try done. injection Hemit as ->.
    erewrite bind_ok; [|exact Ew]. eexists _, _. split; [reflexivity|]. rewrite takes_arg_one. split; [done|].
    apply (plain_converted [] (a + 1) []); rewrite ?El; auto. unfold body_text. by rewrite El.
Qed.
End convert.

(** ** One directive *)

(** The padding that is written is that of the layout. *)
Lemma layout_eq (lft zf : bool) left_c pad_c w sgn x0 core fp :
  (left_c =? 0) = negb lft → pad_c = 0 ∧ w = 0 ∨ pad_c = (if negb lft && zf then chr "0" else chr " ") →
  fp = Z.to_nat (w - Z.of_nat (length (sign_list sgn ++ list_0x x0 ++ core))) →
  let '(out, sg) := prefix_written left_c pad_c fp sgn x0 in
  out ++ (sign_list sg ++ core) ++ (if negb (left_c =? 0) && negb (pad_c =? 0) then replicate fp pad_c else []) =
  layout lft zf w (sign_list sgn) (list_0x x0) core ∧ (sg = 0 ∨ sg = sgn).
Proof.
  intros Hl Hpad Hfp. unfold prefix_written, layout. rewrite Hl. rewrite <- Hfp.
  destruct Hpad as [[-> ->]|Hpad].
  - assert (fp = 0%nat) as -> by lia. cbn [replicate Z.eqb negb]. rewrite andb_false_r, andb_false_r. unfold list_0x.
    destruct (x0 =? 0), lft, zf; cbn [app sign_list Z.eqb]; rewrite ?app_nil_r, <- ?app_assoc; auto.
  - assert ((pad_c =? 0) = false) as Hp0 by (rewrite Hpad; by destruct (negb lft && zf)). rewrite Hp0. cbn [negb]. rewrite !andb_true_r.
    destruct lft; cbn [negb andb] in *; [|destruct zf; cbn [andb] in *].
    + rewrite Hpad. unfold list_0x. destruct (x0 =? 0); cbn [app sign_list Z.eqb]; rewrite <- ?app_assoc; auto.
    + rewrite Hpad. cbn [Z.eqb]. change (chr "0" =? chr "0") with true. cbv iota. rewrite <- ?app_assoc, app_nil_r. cbn [sign_list Z.eqb app]. auto.
    + rewrite Hpad. change (chr " " =? chr "0") with false. cbv iota. unfold list_0x. destruct (x0 =? 0); cbn [app sign_list Z.eqb]; rewrite <- ?app_assoc, ?app_nil_r; auto.
Qed.

Lemma field_padding_ok fs len sgn x0 pp (s : S) :
  0 <= field_width fs < 2 ^ 31 → 0 <= len → 0 <= pp → len + pp + Z.of_nat (length (sign_list sgn ++ list_0x x0)) < 2 ^ 31 →
  field_padding fs len sgn x0 pp s = Ok (Z.max 0 (field_width fs - Z.of_nat (length (sign_list sgn ++ list_0x x0)) - len - pp), s).
Proof.
  intros Hw Hl Hpp Hlt. unfold field_padding, sign_list, list_0x in *.
  erewrite bind_ok; [|apply checked_ok; change (32 - 1) with 31; lia].
  destruct (sgn =? 0), (x0 =? 0); cbn [app length] in *;
    (erewrite bind_ok; [|apply checked_ok; change (32 - 1) with 31; lia]); (erewrite bind_ok; [|first [reflexivity|apply checked_ok; change (32 - 1) with 31; lia]]);
    (erewrite bind_ok; [|apply checked_ok; change (32 - 1) with 31; lia]); unfold ret; do 3 f_equal; lia.
Qed.

Lemma chars_app l1 l2 : chars (l1 ++ l2) = chars l1 + chars l2.
Proof. unfold chars, put_chars. rewrite omap_app, length_app. lia. Qed.

Lemma chars_put l : chars (PUT <$> l) = Z.of_nat (length l).
Proof. unfold chars, put_chars. f_equal. induction l as [|c l IH]; [done|]. cbn in *. lia. Qed.

Lemma layout_length lft zf w sl pl core : Z.of_nat (length (sl ++ pl ++ core)) <= Z.of_nat (length (layout lft zf w sl pl core)).
Proof. unfold layout. destruct lft, zf; rewrite !length_app; lia. Qed.

(** What the arguments of a directive must be: a width is no [INT_MIN], and a
    string is there. *)
Definition args_ok (d : directive_t) (a : Z) : Prop :=
  let '(w, _, a1) := the_width args d a in
  let '(_, a2) := the_prec args d a1 in
  w < 2 ^ 31 ∧ (d_letter d = STRING → u64 (args a2) = 0 ∨ holds (text (u64 (args a2))) (strings (u64 (args a2)))).

Lemma directive_run d a n (s s' : S) acts a' :
  directive_ok d → args_ok d a → directive_acts args strings d a n = (acts, a') → 0 <= n → n + chars acts < 2 ^ 31 →
  emit_acts acts s = Ok (tt, s') →
  directive pc text writeback args (spec_of d) a n s = Ok ((a', n + chars acts), s').
Proof.
  intros Hd Hargs Hacts Hn Hlt Hemit. unfold args_ok in Hargs. unfold directive_acts, directive_chars in Hacts.
  destruct (the_width args d a) as [[w lft] a1] eqn:Ew. destruct (the_prec args d a1) as [p a2] eqn:Ep. destruct Hargs as [Hw Hstr].
  destruct (stars_effective d a s w lft a1 p a2 Ew Ep Hd Hw) as (fs1 & fs2 & E1 & E2 & Hw0 & Hp & He).
  change (replicate _ (chr "0") ++ body_text _ _ _ _ _) with (core_text d p (args a2)) in Hacts.
  set (core := core_text d p (args a2)) in *. injection Hacts as <- <-. rewrite chars_app, chars_put in *.
  apply emit_app in Hemit as (s1 & Hs1 & Hs2). pose proof (layout_length lft (zero_filled d p (args a2)) w (sign_text d (args a2)) (prefix_text d (args a2)) core) as Hll.
  assert (chars match d_letter d with WRITEBACK => [STORE (u64 (args (a2 + consumes (d_letter d) - 1))) (store_size (d_length d)) n] | _ => [] end = 0) as Hc0 by (by destruct (d_letter d)).
  rewrite Hc0 in *. rewrite !length_app in Hll.
  destruct (convert_ok d w lft p (defaults fs2) a2 s He Hp n s1) as (cv & pp & Ecv & Ea & [C1 C2 C3 C4 C5 C6 [C7 C7'] [C8 C8']]); [|done|fold core; lia|].
  { rewrite <- Hs1. destruct (d_letter d); try done. cbn [consumes]. by replace (a2 + 1 - 1) with a2 by lia. }
  fold core in C5, C6. unfold directive. erewrite bind_ok; [|exact E1]. cbn [fst snd]. rewrite E2. erewrite bind_ok; [|exact Ecv]. cbv zeta.
  erewrite bind_ok; [|apply C4]. rewrite <- C7, <- C8 in *.
  erewrite bind_ok; [|apply field_padding_ok; rewrite ?length_app; lia]. rewrite C1, C3. set (pad_c := match d_width d with NONE => 0 | _ => _ end).
  set (fp := Z.max 0 _). assert (Z.to_nat fp = Z.to_nat (w - Z.of_nat (length (sign_list (cv_sign cv) ++ list_0x (cv_0x cv) ++ core)))) as Hfp by (unfold fp; rewrite !length_app; lia).
  assert (pad_c = 0 ∧ w = 0 ∨ pad_c = (if negb lft && zero_filled d p (args a2) then chr "0" else chr " ")) as Hpad.
  { unfold pad_c. unfold the_width in Ew. destruct (d_width d); [left; by simplify_eq|right; done..]. }
  assert (0 <= pad_c < 128) as Hpr by (destruct Hpad as [[-> _]| ->]; [lia|]; by destruct (_ && _)). clearbody pad_c fp.
  pose proof (layout_eq lft (zero_filled d p (args a2)) _ pad_c w _ _ core _ C2 Hpad Hfp) as Hlay.
  pose proof (put_prefix_ok (left_justified (cv_fs cv)) pad_c fp (cv_sign cv) (cv_0x cv) n) as Hpre.
  destruct (prefix_written (left_justified (cv_fs cv)) pad_c (Z.to_nat fp) (cv_sign cv) (cv_0x cv)) as [out sg]. destruct Hlay as [Hlay Hsg].
  rewrite <- Hlay in *. rewrite !length_app in *. rewrite !fmap_app in Hs2. apply emit_app in Hs2 as (s2 & G1 & (s3 & G2 & G3)%emit_app). cbn [fst snd] in Hpre.
  erewrite bind_ok; [|apply (Hpre s1 s2); try done; lia]. cbn [fst snd].
  erewrite bind_ok; [|apply (C6 sg Hsg _ s2 s3); [lia|rewrite length_app; lia|rewrite fmap_app; exact G2]].
  set (tail := if negb (left_justified (cv_fs cv) =? 0) && negb (pad_c =? 0) then replicate (Z.to_nat fp) pad_c else []) in *.
  assert (puts (λ n, if negb (left_justified (cv_fs cv) =? 0) && negb (pad_c =? 0) then put_times pc (Z.to_nat fp) pad_c n else ret n) tail) as Htail.
  { unfold tail. destruct (negb _ && negb _); [apply puts_times, i8_ascii, Hpr|exact puts_nil]. }
  erewrite bind_ok; [|apply (Htail _ s3 s'); [lia|rewrite !length_app; lia|exact G3]]. unfold ret. rewrite Ea. do 3 f_equal. rewrite !length_app. lia.
Qed.
End output.
