(* ===== verification/PrintfInv.v ===== *)
(** Formatted output as a whole: [npf_vpprintf] and [npf_vsnprintf] against the
    reference, and numbers that are printed and parsed. *)
From stdpp Require Import base tactics list strings.
From Stdlib Require Import ZArith Lia Ascii.
From S2P Require Import Prelude Str StrInv IoInv Npf NpfSpec NpfParse NpfInv.

Lemma holds_next f cur l1 l2 : holds (advance cur f) (l1 ++ l2) → holds (advance (cur + Z.of_nat (length l1)) f) l2.
Proof.
  intros H. apply (holds_drop _ _ (length l1)) in H; [|rewrite length_app; lia]. rewrite drop_app_length in H.
  eapply holds_ext; [|exact H]. intros i. unfold advance. f_equal. lia.
Qed.

Lemma holds_first f cur c l : holds (advance cur f) (c :: l) → f cur = c.
Proof. intros [H _]%holds_head. unfold advance in H. by rewrite Z.add_0_r in H. Qed.

Definition format_text (items : list item) : list Z := concat (item_text <$> items).

Section printf.
Context {S : Type} (pc : Z → M S unit) (text : Z → cstring) (writeback : Z → Z → Z → M S unit) (args : Z → Z) (strings : Z → list Z).

(** The arguments fit all directives. *)
Fixpoint format_args_ok (l : list item) (a : Z) : Prop :=
  match l with
  | [] => True
  | TEXT _ :: l' => format_args_ok l' a
  | DIRECTIVE d :: l' => args_ok text args strings d a ∧ format_args_ok l' (directive_chars args strings d a).2
  end.

Lemma directive_acts_next d a n : (directive_acts args strings d a n).2 = (directive_chars args strings d a).2.
Proof. unfold directive_acts. by destruct (directive_chars args strings d a). Qed.

Lemma chars_nonneg l : 0 <= chars l.
Proof. unfold chars. lia. Qed.

Lemma vpprintf_ok items f (s s' : S) :
  Forall item_ok items → format_args_ok items 0 → holds f (format_text items) → chars (render args strings items 0 0) < 2 ^ 31 →
  emit_acts pc writeback (render args strings items 0 0) s = Ok (tt, s') →
  npf_vpprintf pc text writeback args f s = Ok (chars (render args strings items 0 0), s').
Proof.
  intros Hok Hargs Hf Hlt Hemit. set (total := chars (render args strings items 0 0)) in *.
  assert (wp (npf_vpprintf pc text writeback args f) s (λ r s1, r = total ∧ s1 = s')) as (r & s1 & -> & -> & ->)%wp_inv; [|done].
  apply (wp_while _ (λ m '(cur, a, n) s, ∃ l, m = Z.of_nat (length l) ∧ Forall item_ok l ∧ format_args_ok l a ∧ holds (advance cur f) (format_text l) ∧
    0 <= n ∧ n + chars (render args strings l a n) = total ∧ emit_acts pc writeback (render args strings l a n) s = Ok (tt, s')) _) with (n := Z.of_nat (length items)).
  - clearbody total. clear Hok Hargs Hf Hemit s. intros m [[cur a] n] s _ (l & -> & Hok & Hargs & Hf & Hn & Htot & Hemit). unfold vpprintf_round.
    destruct l as [|[c|d] l]; cbn [render format_args_ok] in *.
    + assert (f cur = 0) as -> by (pose proof (holds_end _ _ Hf) as H; unfold advance in H; cbn in H; by rewrite Z.add_0_r in H).
      cbn [Z.eqb]. injection Hemit as ->. apply wp_ret. change (chars []) with 0 in Htot. split; [lia|done].
    + apply Forall_cons in Hok as [[Hc1 Hc2] Hok]. change (format_text (TEXT c :: l)) with ([c] ++ format_text l) in Hf.
      rewrite (holds_first f cur c _ Hf), (proj2 (Z.eqb_neq c 0)), (proj2 (Z.eqb_neq c (chr "%"))) by (done || lia).
      change (PUT c :: render args strings l a (n + 1)) with ([PUT c] ++ render args strings l a (n + 1)) in *. rewrite chars_app in Htot. change (chars [PUT c]) with 1 in Htot.
      pose proof (chars_nonneg (render args strings l a (n + 1))). apply emit_app in Hemit as (s1 & E1 & E2).
      eapply wp_bind, wp_ok; [reflexivity|]. cbv iota. eapply wp_bind, wp_ok; [apply (puts_putc pc writeback (i8 c) c eq_refl n s s1); [lia|change (length [c]) with 1%nat; lia|exact E1]|].
      change (Z.of_nat (length [c])) with 1. apply wp_ret. exists (Z.of_nat (length l)). split; [cbn [length]; lia|]. exists l. split_and!; try done; try lia.
      exact (holds_next f cur [c] _ Hf).
    + apply Forall_cons in Hok as [Hd Hok]. destruct Hargs as [Ha Hargs]. change (format_text (DIRECTIVE d :: l)) with ((chr "%" :: directive_text d) ++ format_text l) in Hf.
      rewrite <- (directive_acts_next d a n) in Hargs. destruct (directive_acts args strings d a n) as [acts a'] eqn:Eacts. cbn [snd] in Hargs.
      rewrite chars_app in Htot. pose proof (chars_nonneg (render args strings l a' (n + chars acts))). pose proof (chars_nonneg acts). apply emit_app in Hemit as (s1 & E1 & E2).
      rewrite (holds_first f cur (chr "%") _ Hf). change (chr "%" =? 0) with false. change (chr "%" =? chr "%") with true. cbv iota.
      eapply wp_bind, wp_ok; [apply (parse_ok d); [done|]; apply holds_begins in Hf; by apply begins_app in Hf as [Hf _]|]. cbv iota.
      eapply wp_bind, wp_ok; [apply (directive_run pc text writeback args strings d a n s s1 acts a'); done || lia|].
      apply wp_ret. exists (Z.of_nat (length l)). split; [cbn [length]; lia|]. cbn [fst snd]. exists l. split_and!; try done; try lia.
      apply holds_next in Hf. cbn [length] in Hf. by replace (Z.of_nat (Datatypes.S (length (directive_text d)))) with (1 + Z.of_nat (length (directive_text d))) in Hf by lia.
  - split; [lia|]. pose proof (holds_len _ _ Hf) as Hlen. assert (length items <= length (format_text items))%nat; [|lia].
    clear. unfold format_text. induction items as [|i l IH]; [done|]. cbn. rewrite length_app. destruct i; cbn in *; lia.
  - exists items. split_and!; try done.
Qed.
End printf.

(** For every format made of text and directives, with any flags, widths,
    precisions and lengths, and for every sink, [npf_vpprintf] passes to the
    sink exactly the characters of the reference, in order, stores for [%n] what
    it must, and returns the number of characters.  (C34) *)
Theorem printf_renders {S} (pc : Z → M S unit) text writeback args strings items f (s s' : S) :
  Forall item_ok items → format_args_ok text args strings items 0 → holds f (format_text items) →
  chars (render args strings items 0 0) < 2 ^ 31 →
  emit_acts pc writeback (render args strings items 0 0) s = Ok (tt, s') →
  npf_vpprintf pc text writeback args f s = Ok (chars (render args strings items 0 0), s').
Proof. apply vpprintf_ok. Qed.

(** A padded hexadecimal number, a width from the arguments and a string cut
    short. *)
Definition sample_items : list item :=
  [TEXT (chr "="); DIRECTIVE (mk_directive [FLAG_HASH; FLAG_ZERO] (LITERAL 10) NONE L_l (HEX false));
   DIRECTIVE (mk_directive [FLAG_PLUS] STAR (LITERAL 3) L_NONE (SIGNED false));
   DIRECTIVE (mk_directive [] NONE (LITERAL 2) L_NONE STRING)].
Definition sample_args : cstring := of_list [255; 2 ^ 32 - 7; 5; 4096].
Definition sample_strings (p : Z) : list Z := if p =? 4096 then bytes "kernel" else [].

Lemma holds_literal l : Z.of_nat (length l) < 2 ^ 63 → forallb (Z.ltb 0) l = true → holds (of_list l) l.
Proof. intros Hl Hp. apply of_list_holds; [|done]. intros x Hx%list_elem_of_In. rewrite forallb_forall in Hp. apply Hp in Hx. lia. Qed.

Lemma printf_renders_witness :
  npf_vpprintf (λ c, modify (λ l, l ++ [c])) (λ p, of_list (sample_strings p)) (λ _ _ _, ret tt) sample_args (lit "=%#010lx%+*.3d%.2s") [] =
  Ok (20, bytes "=0x000000ff+005   ke").
Proof.
  apply (printf_renders (λ c, modify (λ l, l ++ [c])) (λ p, of_list (sample_strings p)) (λ _ _ _, ret tt) sample_args sample_strings sample_items (lit "=%#010lx%+*.3d%.2s")).
  - unfold sample_items. rewrite !Forall_cons, Forall_nil. by split_and!.
  - repeat (split; [split; done|]). split; [split; [done|]|done]. intros _. right. by apply holds_literal.
  - apply holds_literal; done.
  - done.
  - done.
Defined.

(** * Formatting into a buffer *)

(** The text of a format, when nothing is stored through pointers. *)
Definition no_store (i : item) : Prop := match i with DIRECTIVE d => d_letter d ≠ WRITEBACK | TEXT _ => True end.
Definition rendered (args : Z → Z) (strings : Z → list Z) (items : list item) : list Z := put_chars (render args strings items 0 0).

Lemma put_chars_puts l : put_chars (PUT <$> l) = l.
Proof. induction l as [|c l IH]; [done|]. cbn. by f_equal. Qed.

Lemma render_puts args strings items a n : Forall no_store items → PUT <$> put_chars (render args strings items a n) = render args strings items a n.
Proof.
  intros Hn. revert a n. induction Hn as [|[c|d] l Hd _ IH]; intros a n; [done| |]; cbn [render].
  - cbn. f_equal. apply IH.
  - destruct (directive_acts args strings d a n) as [acts a'] eqn:E. unfold put_chars in *. rewrite omap_app, fmap_app. f_equal; [|apply IH].
    unfold directive_acts in E. destruct (directive_chars args strings d a) as [out a1]. injection E as <- _.
    cbn in Hd. destruct (d_letter d); try exact (f_equal (fmap PUT) (put_chars_puts out)). done.
Qed.

(** The buffer after characters have gone to [npf_bufputc]. *)
Definition buffered (m : mem_t) (len : Z) (cs : list Z) (x : Z) : Z :=
  if (0 <=? x) && (x <? len) then match cs !! Z.to_nat x with Some c => c mod 256 | None => read8 m x end else read8 m x.

Lemma buffered_out m len cs x : ¬ (0 <= x < Z.min (Z.of_nat (length cs)) len) → buffered m len cs x = read8 m x.
Proof.
  intros Hx. unfold buffered. destruct (Z.leb_spec 0 x), (Z.ltb_spec x len); try done. cbn.
  by rewrite lookup_ge_None_2 by lia.
Qed.

Lemma buffered_in m len cs x c : 0 <= x < len → cs !! Z.to_nat x = Some c → buffered m len cs x = c mod 256.
Proof. intros Hx E. unfold buffered. destruct (Z.leb_spec 0 x), (Z.ltb_spec x len); try lia. cbn. by rewrite E. Qed.

Lemma i8_mod c : i8 c mod 256 = c mod 256.
Proof.
  unfold i8, signed. change (2 ^ (8 - 1)) with 128. change (2 ^ 8) with 256.
  rewrite Zminus_mod, Z.mod_mod, <- Zminus_mod by lia. f_equal. lia.
Qed.

Lemma bufputc_ok writeback m len cs done_cs m1 : 0 <= len < 2 ^ 63 → (∀ x, read8 m1 x = buffered m len done_cs x) →
  ∃ m2, emit_acts npf_bufputc writeback (PUT <$> cs) (mk_bufctx m1 len (Z.min (Z.of_nat (length done_cs)) len)) =
    Ok (tt, mk_bufctx m2 len (Z.min (Z.of_nat (length (done_cs ++ cs))) len)) ∧ ∀ x, read8 m2 x = buffered m len (done_cs ++ cs) x.
Proof.
  intros Hlen. revert done_cs m1. induction cs as [|c cs IH]; intros cs0 m1 Hm; [exists m1; rewrite app_nil_r; done|].
  replace (cs0 ++ c :: cs) with ((cs0 ++ [c]) ++ cs) by (by rewrite <- app_assoc).
  set (cur := Z.min (Z.of_nat (length cs0)) len). set (m1' := if cur <? len then write8 m1 cur (i8 c) else m1).
  destruct (IH (cs0 ++ [c]) m1') as (m2 & E & Hm2).
  - intros x. subst m1' cur. destruct (Z.ltb_spec (Z.min (Z.of_nat (length cs0)) len) len).
    + rewrite read8_write8, Z.min_l by lia. destruct (Z.eqb_spec x (Z.of_nat (length cs0))) as [->|Hx].
      * rewrite i8_mod. symmetry. apply buffered_in; [lia|]. rewrite Nat2Z.id. by apply list_lookup_middle.
      * rewrite Hm. unfold buffered. destruct (Z.leb_spec 0 x); [|done]. rewrite lookup_app. cbn [andb].
        destruct (cs0 !! Z.to_nat x) eqn:Ex; [done|]. apply lookup_ge_None_1 in Ex. by rewrite lookup_ge_None_2 by (cbn; lia).
    + rewrite Hm. unfold buffered. destruct (Z.leb_spec 0 x), (Z.ltb_spec x len); try done. cbn. by rewrite lookup_app_l by lia.
  - exists m2. split; [|done]. rewrite <- E. cbn [fmap list_fmap emit_acts]. unfold npf_bufputc at 1, modify, bind at 1. cbn [bp_cur bp_len bp_dst].
    fold cur. subst m1'. rewrite length_app. cbn [length]. do 2 f_equal. subst cur.
    destruct (Z.ltb_spec (Z.min (Z.of_nat (length cs0)) len) len); f_equal; [|lia]. unfold u64. rewrite Z.mod_small; lia.
Qed.

Lemma snprintf_ok text writeback args strings items f m len cur :
  Forall item_ok items → Forall no_store items → format_args_ok text args strings items 0 → holds f (format_text items) →
  Z.of_nat (length (rendered args strings items)) < 2 ^ 31 → 0 <= len < 2 ^ 63 →
  let out := rendered args strings items in
  let n := Z.of_nat (length out) in
  npf_vsnprintf text writeback args true f (mk_bufctx m len cur) = Ok (n, mk_bufctx m len 0) ∧
  ∃ b, npf_vsnprintf text writeback args false f (mk_bufctx m len cur) = Ok (n, b) ∧
    (∀ i c, out !! i = Some c → Z.of_nat i < len - 1 → read8 (bp_dst b) (Z.of_nat i) = c mod 256) ∧
    (0 < len → read8 (bp_dst b) (Z.min n (len - 1)) = 0) ∧
    ∀ x, ¬ (0 <= x < Z.min (n + 1) len) → read8 (bp_dst b) x = read8 m x.
Proof.
  intros Hok Hns Hargs Hf Hlt Hlen out n. assert (0 <= n < 2 ^ 31) as Hn by (split; [apply Nat2Z.is_nonneg|exact Hlt]). pose proof (render_puts args strings items 0 0 Hns) as HR.
  change (put_chars (render args strings items 0 0)) with out in HR. split.
  - unfold npf_vsnprintf, modify, bind. cbn [bp_dst bp_len negb andb].
    erewrite (vpprintf_ok npf_bufputc_nop text writeback args strings items f); [reflexivity|done..|].
    rewrite <- HR. clear. induction out as [|c l IH]; [done|exact IH].
  - destruct (bufputc_ok writeback m len out [] m Hlen) as (m2 & E & Hm2).
    { intros x. by rewrite buffered_out by (cbn; lia). }
    rewrite HR in E. change (Z.of_nat (length [])) with 0 in E. rewrite Z.min_l in E by lia. rewrite app_nil_l in *.
    assert (npf_vsnprintf text writeback args false f (mk_bufctx m len cur) =
      Ok (n, if len =? 0 then mk_bufctx m2 len (Z.min n len) else mk_bufctx (write8 m2 (Z.min n (len - 1)) 0) len (Z.min n len))) as ->.
    { unfold npf_vsnprintf, modify, bind at 1. cbn [bp_dst bp_len]. unfold bind at 1.
      rewrite (vpprintf_ok npf_bufputc text writeback args strings items f _ _ Hok Hargs Hf Hlt E). fold (rendered args strings items).
      change (chars (render args strings items 0 0)) with n. cbv [get bind ret]. cbn [bp_dst bp_len bp_cur negb andb]. destruct (Z.eqb_spec len 0); [done|].
      cbn [negb]. replace (n <? 0) with false by lia. unfold u32, u64. cbn [bp_dst bp_len bp_cur]. by rewrite !Z.mod_small by lia. }
    eexists. split; [done|]. destruct (Z.eqb_spec len 0) as [->|Hnz]; cbn [bp_dst].
    + split_and!; [lia|lia|]. intros x Hx. rewrite Hm2. apply buffered_out. lia.
    + split_and!.
      * intros i c Hi Hl. rewrite read8_write8. apply lookup_lt_Some in Hi as Hi'. replace (Z.of_nat i =? Z.min n (len - 1)) with false by lia.
        rewrite Hm2. apply buffered_in; [lia|]. by rewrite Nat2Z.id.
      * intros _. by rewrite read8_write8, Z.eqb_refl.
      * intros x Hx. rewrite read8_write8. replace (x =? Z.min n (len - 1)) with false by lia. rewrite Hm2. apply buffered_out. lia.
Qed.

(** * Numbers that are printed and parsed *)
Lemma digits_length k j base n : 1 < base → 0 <= n < base ^ Z.of_nat (S j) → (length (digits_le k base n) <= S j)%nat.
Proof.
  intros Hb. revert j n. induction k as [|k IH]; intros j n Hn; [cbn; lia|]. cbn [digits_le length].
  destruct (Z.eqb_spec (n / base) 0) as [E|E]; [cbn; lia|].
  assert (0 <= n / base < base ^ Z.of_nat j) as Hq.
  { split; [apply Z.div_pos; lia|]. apply Z.div_lt_upper_bound; [lia|]. rewrite <- Z.pow_succ_r, <- Nat2Z.inj_succ by lia. lia. }
  destruct j as [|j]; [cbn in Hq; lia|]. specialize (IH j _ Hq). lia.
Qed.

(** [npf_vsnprintf] returns the length of the whole text, stores as much of it
    as fits before a terminating NUL, and writes nothing outside of the buffer;
    without a buffer it only counts.  (C35) *)
Theorem snprintf_correct text writeback args strings items f m len cur :
  Forall item_ok items → Forall no_store items → format_args_ok text args strings items 0 → holds f (format_text items) →
  Z.of_nat (length (rendered args strings items)) < 2 ^ 31 → 0 <= len < 2 ^ 63 →
  let out := rendered args strings items in
  let n := Z.of_nat (length out) in
  npf_vsnprintf text writeback args true f (mk_bufctx m len cur) = Ok (n, mk_bufctx m len 0) ∧
  ∃ b, npf_vsnprintf text writeback args false f (mk_bufctx m len cur) = Ok (n, b) ∧
    (∀ i c, out !! i = Some c → Z.of_nat i < len - 1 → read8 (bp_dst b) (Z.of_nat i) = c mod 256) ∧
    (0 < len → read8 (bp_dst b) (Z.min n (len - 1)) = 0) ∧
    ∀ x, ¬ (0 <= x < Z.min (n + 1) len) → read8 (bp_dst b) x = read8 m x.
Proof. apply snprintf_ok. Qed.

Lemma snprintf_correct_witness :
  ∃ b, npf_vsnprintf (λ p, of_list (sample_strings p)) (λ _ _ _, ret tt) sample_args false (lit "=%#010lx%+*.3d%.2s") (mk_bufctx (λ _, 7) 6 0) = Ok (20, b) ∧
    map (λ i, read8 (bp_dst b) (Z.of_nat i)) (seq 0 8) = bytes "=0x00" ++ [0; 7; 7].
Proof.
  destruct (snprintf_correct (λ p, of_list (sample_strings p)) (λ _ _ _, ret tt) sample_args sample_strings sample_items (lit "=%#010lx%+*.3d%.2s") (λ _, 7) 6 0)
    as (_ & b & E & Hin & Hnul & Hout).
  - unfold sample_items. rewrite !Forall_cons, Forall_nil. by split_and!.
  - unfold sample_items. rewrite !Forall_cons, Forall_nil. by split_and!.
  - repeat (split; [split; done|]). split; [split; [done|]|done]. intros _. right. by apply holds_literal.
  - by apply holds_literal.
  - done.
  - done.
  - exists b. split; [exact E|]. cbn [seq map]. rewrite (Hin 0%nat _ eq_refl eq_refl), (Hin 1%nat _ eq_refl eq_refl), (Hin 2%nat _ eq_refl eq_refl),
      (Hin 3%nat _ eq_refl eq_refl), (Hin 4%nat _ eq_refl eq_refl), (Hnul eq_refl : read8 (bp_dst b) (Z.of_nat 5) = 0), (Hout (Z.of_nat 6)), (Hout (Z.of_nat 7)) by (vm_compute; intros [_ ?]; done). done.
Defined.

Definition lld : directive_t := mk_directive [] NONE NONE L_ll (SIGNED false).

Lemma layout_none sign prefix core : layout false false 0 sign prefix core = sign ++ prefix ++ core.
Proof. unfold layout. by replace (Z.to_nat _) with 0%nat by lia. Qed.

Lemma rendered_lld args strings v : - 2 ^ 63 <= v < 2 ^ 63 → args 0 = u64 v →
  rendered args strings [DIRECTIVE lld] = (if v <? 0 then bytes "-" else []) ++ numeral false 10 (Z.abs v).
Proof.
  intros Hv Ha. unfold rendered. cbn [render]. unfold directive_acts, directive_chars. cbn [the_width the_prec d_width d_prec lld].
  change (zero_filled lld None (args 0)) with false. change (d_left lld) with false. rewrite layout_none, app_nil_r.
  unfold put_chars. rewrite app_nil_l. fold (put_chars (PUT <$> (sign_text lld (args 0) ++ prefix_text lld (args 0) ++
    replicate (Z.to_nat (min_digits lld None - Z.of_nat (length (body_text strings lld (bool_decide (None = Some 0) && is_zero lld (args 0)) None (args 0))))) (chr "0") ++
    body_text strings lld (bool_decide (None = Some 0) && is_zero lld (args 0)) None (args 0)))). rewrite put_chars_puts.
  change (min_digits lld None) with 0. replace (Z.to_nat (0 - _)) with 0%nat by lia. cbn [replicate app].
  assert (signed 64 (args 0) = v) as Hs.
  { rewrite Ha. unfold signed, u64. rewrite Zplus_mod_idemp_l, Z.mod_small by (change (2 ^ (64 - 1)) with (2 ^ 63); lia). change (2 ^ (64 - 1)) with (2 ^ 63). lia. }
  unfold sign_text, body_text, signed_arg. cbn [d_letter d_length lld width_of]. rewrite Hs. by destruct (v <? 0).
Qed.

Lemma digit_char_is d : 0 <= d < 10 → is_digit_char d (digit_char false d).
Proof.
  intros Hd. unfold is_digit_char, digit_char, digit_of. rewrite (proj2 (Z.ltb_lt d 10)) by lia.
  change (chr "0") with 48. change (chr "9") with 57. destruct (Z.leb_spec 48 (48 + d)), (Z.leb_spec (48 + d) 57); try lia. cbn. f_equal. lia.
Qed.

Lemma decimal_range n : 0 <= n → Forall (λ d, 0 <= d < 10) (rev (digits_le 64 10 n)).
Proof. intros Hn. apply Forall_rev, digits_le_range; lia. Qed.

(** The text that [%lld] leaves in a buffer of 21 bytes or more. *)
Lemma lld_printed text writeback args m len cur v :
  - 2 ^ 63 <= v < 2 ^ 63 → args 0 = u64 v → 21 <= len < 2 ^ 63 →
  ∃ n b, npf_vsnprintf text writeback args false (lit "%lld") (mk_bufctx m len cur) = Ok (n, b) ∧
    holds (at_ (bp_dst b) 0) ((if v <? 0 then bytes "-" else []) ++ (digit_char false <$> rev (digits_le 64 10 (Z.abs v)))).
Proof.
  intros Hv Ha Hlen. set (ds := rev (digits_le 64 10 (Z.abs v))). set (sg := if v <? 0 then bytes "-" else []).
  assert (rendered args (λ _, []) [DIRECTIVE lld] = sg ++ (digit_char false <$> ds)) as Hr by (by apply rendered_lld).
  pose proof (decimal_range (Z.abs v) ltac:(lia) : Forall _ ds) as Hds.
  assert (length (sg ++ (digit_char false <$> ds)) <= 20)%nat as Hl.
  { rewrite length_app, length_fmap. unfold ds. rewrite length_rev. pose proof (digits_length 64 18 10 (Z.abs v) ltac:(lia)) as Hd.
    change (10 ^ Z.of_nat 19) with 10000000000000000000 in Hd. change (2 ^ 63) with 9223372036854775808 in Hv. specialize (Hd ltac:(lia)). assert (length sg <= 1)%nat by (unfold sg; destruct (v <? 0); cbn; lia). lia. }
  destruct (snprintf_ok text writeback args (λ _, []) [DIRECTIVE lld] (lit "%lld") m len cur) as (_ & b & E & Hin & Hnul & _); try done; rewrite ?Hr.
  { rewrite Forall_cons, Forall_nil. by split_and!. }
  { rewrite Forall_cons, Forall_nil. by split_and!. }
  { by apply holds_literal. }
  { lia. }
  { lia. }
  exists (Z.of_nat (length (sg ++ (digit_char false <$> ds)))), b. split; [by rewrite <- Hr|].
  rewrite Hr in Hin, Hnul. split; [|unfold at_; rewrite Z.add_0_l; rewrite Z.min_l in Hnul by lia; apply Hnul; lia|lia].
  intros i x Hx. unfold at_. rewrite Z.add_0_l. apply lookup_lt_Some in Hx as Hi. rewrite (Hin i x Hx) by lia.
  assert (0 < x < 256); [|rewrite Z.mod_small; lia]. apply list_elem_of_lookup_2, elem_of_app in Hx as [Hx|Hx].
  - unfold sg in Hx. destruct (v <? 0); [|by inversion Hx]. apply list_elem_of_singleton in Hx as ->. done.
  - apply list_elem_of_fmap in Hx as (d & -> & Hd). rewrite Forall_forall in Hds. specialize (Hds d Hd). unfold digit_char. rewrite (proj2 (Z.ltb_lt d 10)) by lia. change (chr "0") with 48. lia.
Qed.

(** The magnitude of the least number does not fit the accumulator of [strtoll]. *)
Lemma strtoll_least {St} (s : St) f : holds f (bytes "-9223372036854775808") → strtoll f 10 s = Panic "UBSAN: Add overflow".
Proof.
  intros Hf. unfold strtoll. rewrite (proj1 (holds_byte f _ Hf 0%nat _ eq_refl) : f 0 = chr "-"). change (chr "-" =? chr "-") with true.
  change (number_base (advance 1 f) 10) with (10, 0). cbv beta iota. apply bind_panic.
  set (ds := [9; 2; 2; 3; 3; 7; 2; 0; 3; 6; 8; 5; 4; 7; 7; 5; 8; 0; 8]).
  apply (while_panics _ (λ n '(i, v) s', ∃ j, (j <= 18)%nat ∧ i = Z.of_nat j ∧ v = value 10 (take j ds) ∧ n = 18 - i ∧ s' = s)) with (n := 18); [|lia|by exists 0%nat; split_and!; [lia|..]].
  intros n [i v] s' _ (j & Hj & -> & -> & -> & ->).
  assert (∃ d, ds !! j = Some d ∧ advance 0 (advance 1 f) (Z.of_nat j) = 48 + d) as (d & Hd & ->).
  { destruct (lookup_lt_is_Some_2 ds j ltac:(cbn; lia)) as [d Hd]. exists d. split; [done|]. unfold advance.
    replace (1 + (0 + Z.of_nat j)) with (Z.of_nat (S j)) by lia.
    apply (proj1 (holds_byte f _ Hf (S j) (48 + d) ltac:(do 19 (destruct j as [|j]; [vm_compute in Hd; injection Hd as <-; reflexivity|]); lia))). }
  destruct (decide (j = 18%nat)) as [->|Hne]; [left; vm_compute in Hd; injection Hd as <-; vm_compute; reflexivity|].
  right. exists (18 - (Z.of_nat j + 1)), (Z.of_nat j + 1, value 10 (take (S j) ds)), s. split; [|split; [lia|]].
  - do 18 (destruct j as [|j]; [vm_compute in Hd; injection Hd as <-; vm_compute; reflexivity|]). lia.
  - exists (S j). split_and!; [lia|lia|done|lia|done].
Qed.

(** What is printed with [%lld] into a buffer of 21 bytes or more, [strtoll]
    reads back, for every number but the least one, -2^63, whose magnitude
    overflows the accumulator of [strtoll] and ends in the sanitizer's panic.  (C36) *)
Theorem print_parse_roundtrip {S} (s : S) text writeback args m len cur v :
  - 2 ^ 63 <= v < 2 ^ 63 → args 0 = u64 v → 21 <= len < 2 ^ 63 →
  ∃ n b, npf_vsnprintf text writeback args false (lit "%lld") (mk_bufctx m len cur) = Ok (n, b) ∧
    strtoll (at_ (bp_dst b) 0) 10 s = if v =? - 2 ^ 63 then Panic "UBSAN: Add overflow" else Ok (v, s).
Proof.
  intros Hv Ha Hlen. destruct (lld_printed text writeback args m len cur v Hv Ha Hlen) as (n & b & E & Hh). exists n, b. split; [done|].
  destruct (Z.eqb_spec v (- 2 ^ 63)) as [->|Hne]; [by apply strtoll_least|].
  set (ds := rev (digits_le 64 10 (Z.abs v))) in *. pose proof (decimal_range (Z.abs v) ltac:(lia) : Forall _ ds) as Hds.
  rewrite (strtoll_correct s (at_ (bp_dst b) 0) 10 10 (if v <? 0 then bytes "-" else []) (v <? 0) [] (digit_char false <$> ds) ds).
  - do 2 f_equal. unfold ds. rewrite digits_value; [destruct (Z.ltb_spec v 0); lia|lia|]. apply fits_64; lia.
  - destruct (v <? 0); constructor.
  - constructor. lia.
  - done.
  - rewrite Forall2_fmap_r. apply Forall_Forall2_diag. eapply Forall_impl; [exact Hds|]. intros d Hd. by apply digit_char_is.
  - intros d Hd. rewrite Forall_forall in Hds. specialize (Hds d Hd). lia.
  - unfold ds. rewrite digits_value; [lia|lia|]. apply fits_64; lia.
Qed.

Lemma print_parse_roundtrip_witness :
  ∃ n b, npf_vsnprintf (λ _, lit "") (λ _ _ _, ret tt) (λ _, u64 (-1048576)) false (lit "%lld") (mk_bufctx (λ _, 0) 32 0) = Ok (n, b) ∧
    strtoll (at_ (bp_dst b) 0) 10 tt = Ok (-1048576, tt).
Proof. by apply (print_parse_roundtrip tt (λ _, lit "") (λ _ _ _, ret tt) (λ _, u64 (-1048576)) (λ _, 0) 32 0 (-1048576)). Defined.

(** The buffer for digits is large enough: in the bases 8, 10 and 16
    [npf_utoa_rev] writes the digits of the number, the last one first, and
    leaves room for the zero in front of an octal number. *)
Theorem utoa_fits {S} upper base n (s : S) : 8 <= base → 0 <= n < 2 ^ 64 →
  ∃ ds, npf_utoa_rev n base (adjust upper) s = Ok (digit_char upper <$> rev ds, s) ∧
    Forall (λ d, 0 <= d < base) ds ∧ value base ds = n ∧ Z.of_nat (length ds) + 1 <= NANOPRINTF_CONVERSION_BUFFER_SIZE.
Proof.
  intros Hb Hn. exists (rev (digits_le 64 base n)). rewrite rev_involutive, length_rev. split_and!.
  - rewrite utoa_ok by lia. by rewrite rev_numeral.
  - apply Forall_rev, digits_le_range; lia.
  - apply digits_value; [lia|]. apply fits_64; lia.
  - pose proof (digits_length 64 21 base n ltac:(lia)) as Hl. pose proof (Z.pow_le_mono_l 8 base (Z.of_nat 22) ltac:(lia)) as Hp.
    change (8 ^ Z.of_nat 22) with (4 * 2 ^ 64) in Hp. specialize (Hl ltac:(lia)). unfold NANOPRINTF_CONVERSION_BUFFER_SIZE. lia.
Qed.

Lemma utoa_fits_witness : ∃ ds, npf_utoa_rev (2 ^ 64 - 1) 8 (adjust false) tt = Ok (digit_char false <$> rev ds, tt) ∧ value 8 ds = 2 ^ 64 - 1 ∧ Z.of_nat (length ds) <= 22.
Proof. destruct (utoa_fits false 8 (2 ^ 64 - 1) tt) as (ds & E & _ & Hv & Hl); [done|done|]. exists ds. unfold NANOPRINTF_CONVERSION_BUFFER_SIZE in Hl. by repeat split; try lia. Defined.

(** Parsing inverts writing: of every directive, whatever its flags, width,
    precision, length and letter, and whatever follows it in the format,
    [npf_parse_format_spec] reads exactly the characters and the meaning. *)
Theorem format_spec_roundtrip {S} d rest f (s : S) : directive_ok d → holds f (chr "%" :: directive_text d ++ rest) →
  npf_parse_format_spec f s = Ok (Some (1 + Z.of_nat (length (directive_text d)), spec_of d), s).
Proof. intros Hd Hf%holds_begins. apply parse_ok; [done|]. change (chr "%" :: directive_text d ++ rest) with ((chr "%" :: directive_text d) ++ rest) in Hf. by apply begins_app in Hf as [Hf _]. Qed.

Lemma format_spec_roundtrip_witness :
  npf_parse_format_spec (lit "%-+12.*llX;") tt =
    Ok (Some (10, mk_spec 12 0 NPF_FMT_SPEC_OPT_STAR NPF_FMT_SPEC_OPT_LITERAL (chr "-") 0 (chr "+") 0 0 NPF_FMT_SPEC_LEN_MOD_LARGE_LONG_LONG NPF_FMT_SPEC_CONV_HEX_INT), tt).
Proof. apply (format_spec_roundtrip (mk_directive [FLAG_MINUS; FLAG_PLUS] (LITERAL 12) STAR L_ll (HEX true)) (bytes ";")); [done|by apply holds_literal]. Defined.
