(* ===== verification/Stdio.v ===== *)
(** [libc/stdio.c]: [printf] and [snprintf] of the kernel, from the formatter of
    [Npf] and the character output of [Serial], and what reaches the devices. *)
From stdpp Require Import base tactics list gmap strings.
From Stdlib Require Import ZArith Lia Ascii.
From S2P Require Import Prelude Bits State Spinlock Io Str StrInv Cpu Timers Apic Serial IoInv Npf NpfSpec NpfParse NpfInv PrintfInv.

Module Stdio.
Section stdio.
Context `{Hardware} (text : Z → cstring) (args : Z → Z).


(** The buffer and its size are the state. *)
Definition snprintf (writeback : Z → Z → Z → M npf_bufputc_ctx unit) (null : bool) (fmt : cstring) : M npf_bufputc_ctx Z :=
  npf_vsnprintf text writeback args null fmt ;;; ret 0.
End stdio.




Section putc.
Context `{Hardware}.



















End putc.


End Stdio.
