(* ===== verification/Rb.v ===== *)
(** Red-black trees ([deps/obsd-tree.h]): the functions [RB_GENERATE] expands to,
    over nodes with left, right and parent pointers.  The text of the header
    treats left and right with the same code twice; here a side is a parameter,
    and [RB_LEFT], [RB_ROTATE_LEFT], [RB_NEXT] and so on are the instances. *)
From stdpp Require Import base tactics list gmap strings.
From Stdlib Require Import ZArith Lia.
From S2P Require Import Prelude.

Definition NULL : Z := 0.
Definition RB_BLACK : Z := 0.
Definition RB_RED : Z := 1.

(** [RB_ENTRY] *)
Record rb_entry := mk_entry { rbe_left : Z; rbe_right : Z; rbe_parent : Z; rbe_color : Z }.

(** The head and the memory of the nodes. *)
Record rb_state := mk_rb { rbh_root : Z; rb_nodes : gmap Z rb_entry }.

Inductive side := LEFT | RIGHT.
#[export] Instance side_eq_dec : EqDecision side.
Proof. solve_decision. Defined.
Definition opp (d : side) : side := match d with LEFT => RIGHT | RIGHT => LEFT end.

Definition get_child (d : side) (e : rb_entry) : Z := match d with LEFT => rbe_left e | RIGHT => rbe_right e end.
Definition put_child (d : side) (v : Z) (e : rb_entry) : rb_entry :=
  match d with
  | LEFT => mk_entry v (rbe_right e) (rbe_parent e) (rbe_color e)
  | RIGHT => mk_entry (rbe_left e) v (rbe_parent e) (rbe_color e)
  end.
Definition put_parent (v : Z) (e : rb_entry) : rb_entry := mk_entry (rbe_left e) (rbe_right e) v (rbe_color e).
Definition put_color (v : Z) (e : rb_entry) : rb_entry := mk_entry (rbe_left e) (rbe_right e) (rbe_parent e) v.

(** Reading and writing through a pointer to a node. *)
Definition load (p : Z) : M rb_state rb_entry :=
  let* s := get in
  match rb_nodes s !! p with Some e => ret e | None => panic "invalid node" end.
Definition store (p : Z) (f : rb_entry → rb_entry) : M rb_state unit :=
  let* e := load p in
  modify (λ s, mk_rb (rbh_root s) (<[p := f e]> (rb_nodes s))).

Definition child (d : side) (p : Z) : M rb_state Z := let* e := load p in ret (get_child d e).
Definition RB_LEFT : Z → M rb_state Z := child LEFT.
Definition RB_RIGHT : Z → M rb_state Z := child RIGHT.
Definition RB_PARENT (p : Z) : M rb_state Z := let* e := load p in ret (rbe_parent e).
Definition RB_COLOR (p : Z) : M rb_state Z := let* e := load p in ret (rbe_color e).
Definition RB_ROOT : M rb_state Z := gets rbh_root.
Definition RB_EMPTY : M rb_state bool := let* r := RB_ROOT in ret (r =? NULL).
Definition set_child (d : side) (p v : Z) : M rb_state unit := store p (put_child d v).
Definition set_parent (p v : Z) : M rb_state unit := store p (put_parent v).
Definition set_color (p v : Z) : M rb_state unit := store p (put_color v).
Definition set_root (v : Z) : M rb_state unit := modify (λ s, mk_rb v (rb_nodes s)).

Definition RB_INIT : M rb_state unit := set_root NULL.

Definition RB_SET (elm parent : Z) : M rb_state unit :=
  set_parent elm parent ;;;
  set_child RIGHT elm NULL ;;;
  set_child LEFT elm NULL ;;;
  set_color elm RB_RED.

Definition RB_SET_BLACKRED (black red : Z) : M rb_state unit :=
  set_color black RB_BLACK ;;;
  set_color red RB_RED.

(** [if (p) PARENT(p) = parent;] *)
Definition set_parent_if (p parent : Z) : M rb_state unit := if p =? NULL then ret tt else set_parent p parent.
Definition set_color_if (p c : Z) : M rb_state unit := if p =? NULL then ret tt else set_color p c.

(** What points at [elm], a child of [parent] or the root, points at [new]. *)
Definition replace_child (parent elm new : Z) : M rb_state unit :=
  if parent =? NULL then set_root new
  else
    let* l := RB_LEFT parent in
    if l =? elm then set_child LEFT parent new else set_child RIGHT parent new.

(** [RB_ROTATE_LEFT] and [RB_ROTATE_RIGHT]: towards side [d]. *)
Definition rotate (d : side) (elm : Z) : M rb_state unit :=
  let* tmp := child (opp d) elm in
  let* near := child d tmp in
  set_child (opp d) elm near ;;;
  set_parent_if near elm ;;;
  let* p := RB_PARENT elm in
  set_parent tmp p ;;;
  replace_child p elm tmp ;;;
  set_child d tmp elm ;;;
  set_parent elm tmp.
Definition RB_ROTATE_LEFT : Z → M rb_state unit := rotate LEFT.
Definition RB_ROTATE_RIGHT : Z → M rb_state unit := rotate RIGHT.

(** [tmp && COLOR(tmp) == RED] and [tmp == NULL || COLOR(tmp) == BLACK] *)
Definition is_red (p : Z) : M rb_state bool :=
  if p =? NULL then ret false else let* c := RB_COLOR p in ret (c =? RB_RED).
Definition is_black (p : Z) : M rb_state bool :=
  if p =? NULL then ret true else let* c := RB_COLOR p in ret (c =? RB_BLACK).

(** * [RB_INSERT_COLOR] *)

(** One round below a [parent] that is the child of [gparent] on side [d]: the
    next [elm]. *)
Definition insert_fix (d : side) (elm parent gparent : Z) : M rb_state Z :=
  let* tmp := child (opp d) gparent in
  let* red := is_red tmp in
  if red then
    set_color tmp RB_BLACK ;;;
    RB_SET_BLACKRED parent gparent ;;;
    ret gparent
  else
    let* c := child (opp d) parent in
    let* r := (if c =? elm then rotate d parent ;;; ret (parent, elm) else ret (elm, parent)) in
    RB_SET_BLACKRED r.2 gparent ;;;
    rotate (opp d) gparent ;;;
    ret r.1.

Definition insert_color_round (elm : Z) : M rb_state (Z + unit) :=
  let* parent := RB_PARENT elm in
  let* red := is_red parent in
  if red then
    let* gparent := RB_PARENT parent in
    let* l := RB_LEFT gparent in
    let* elm := insert_fix (if parent =? l then LEFT else RIGHT) elm parent gparent in
    ret (inl elm)
  else ret (inr tt).

Definition RB_INSERT_COLOR (elm : Z) : M rb_state unit :=
  while_ insert_color_round elm ;;;
  let* root := RB_ROOT in
  set_color root RB_BLACK.

(** * [RB_REMOVE_COLOR] *)

(** Both children are black or missing. *)
Definition both_black (p : Z) : M rb_state bool :=
  let* l := RB_LEFT p in
  let* lb := is_black l in
  if lb then let* r := RB_RIGHT p in is_black r else ret false.

(** The last rotation, when the outer child of the sibling [tmp] is red; the
    element after [break]. *)
Definition remove_last (d : side) (parent tmp : Z) : M rb_state (Z * Z + Z) :=
  let* c := RB_COLOR parent in
  set_color tmp c ;;;
  set_color parent RB_BLACK ;;;
  let* far := child (opp d) tmp in
  set_color_if far RB_BLACK ;;;
  rotate d parent ;;;
  let* root := RB_ROOT in
  ret (inr root).

(** The round with a black sibling [tmp]: the next parent and element, or the
    element after [break]. *)
Definition remove_black (d : side) (parent tmp : Z) : M rb_state (Z * Z + Z) :=
  let* bb := both_black tmp in
  if bb then
    set_color tmp RB_RED ;;;
    let* p := RB_PARENT parent in
    ret (inl (p, parent))
  else
    let* far := child (opp d) tmp in
    let* fb := is_black far in
    let* tmp := (if fb : bool then
                   let* o := child d tmp in
                   set_color_if o RB_BLACK ;;;
                   set_color tmp RB_RED ;;;
                   rotate (opp d) tmp ;;;
                   child (opp d) parent
                 else ret tmp) in
    remove_last d parent tmp.

(** One round for the child of [parent] on side [d]. *)
Definition remove_fix (d : side) (parent : Z) : M rb_state (Z * Z + Z) :=
  let* tmp := child (opp d) parent in
  let* c := RB_COLOR tmp in
  let* tmp := (if c =? RB_RED then
                 RB_SET_BLACKRED tmp parent ;;;
                 rotate d parent ;;;
                 child (opp d) parent
               else ret tmp) in
  remove_black d parent tmp.

Definition remove_color_round (st : Z * Z) : M rb_state (Z * Z + Z) :=
  let '(parent, elm) := st in
  let* black := is_black elm in
  let* root := RB_ROOT in
  if black && negb (elm =? root) then
    let* l := RB_LEFT parent in
    remove_fix (if l =? elm then LEFT else RIGHT) parent
  else ret (inr elm).

Definition RB_REMOVE_COLOR (parent elm : Z) : M rb_state unit :=
  let* elm := while_ remove_color_round (parent, elm) in
  set_color_if elm RB_BLACK.

(** * [RB_REMOVE] *)

(** [while (child) elm = child]: the last node on side [d]. *)
Definition last_on (d : side) (elm : Z) : M rb_state Z :=
  while_ (λ elm, let* c := child d elm in if c =? NULL then ret (inr elm) else ret (inl c)) elm.

(** [elm], whose only child is [child], leaves the tree: its parent and
    colour. *)
Definition unlink (elm child : Z) : M rb_state (Z * Z) :=
  let* parent := RB_PARENT elm in
  let* color := RB_COLOR elm in
  set_parent_if child parent ;;;
  replace_child parent elm child ;;;
  ret (parent, color).

(** [elm] takes the place of [old]. *)
Definition take_place (elm old : Z) : M rb_state unit :=
  let* e := load old in
  store elm (λ _, e) ;;;
  let* p := RB_PARENT old in
  replace_child p old elm ;;;
  let* l := RB_LEFT old in
  set_parent l elm ;;;
  let* r := RB_RIGHT old in
  set_parent_if r elm.

Definition RB_REMOVE (elm : Z) : M rb_state Z :=
  let old := elm in
  let* l := RB_LEFT elm in
  let* r := RB_RIGHT elm in
  let* x := (if (l =? NULL) || (r =? NULL) then
               let child := if l =? NULL then r else l in
               let* pc := unlink elm child in
               ret (child, pc)
             else
               let* elm := last_on LEFT r in
               let* child := RB_RIGHT elm in
               let* pc := unlink elm child in
               let* p := RB_PARENT elm in
               let parent := if p =? old then elm else pc.1 in
               take_place elm old ;;;
               ret (child, (parent, pc.2))) in
  (if x.2.2 =? RB_BLACK then RB_REMOVE_COLOR x.2.1 x.1 else ret tt) ;;;
  ret old.

(** * Searching, inserting and walking *)
Section cmp.
(** [cmp] of two nodes, which reads their keys. *)
Context (cmp : Z → Z → Z).

(** The next node of a descent, or the end with the result. *)
Definition insert_round (elm : Z) (st : Z * Z * Z) : M rb_state (Z * Z * Z + (Z * Z + Z)) :=
  let '(tmp, parent, comp) := st in
  if tmp =? NULL then ret (inr (inl (parent, comp)))
  else
    let parent := tmp in
    let comp := cmp elm parent in
    if comp <? 0 then let* tmp := RB_LEFT tmp in ret (inl (tmp, parent, comp))
    else if 0 <? comp then let* tmp := RB_RIGHT tmp in ret (inl (tmp, parent, comp))
    else ret (inr (inr tmp)).

Definition RB_INSERT (elm : Z) : M rb_state Z :=
  let* root := RB_ROOT in
  let* r := while_ (insert_round elm) (root, NULL, 0) in
  match r with
  | inr tmp => ret tmp
  | inl (parent, comp) =>
      RB_SET elm parent ;;;
      (if negb (parent =? NULL) then set_child (if comp <? 0 then LEFT else RIGHT) parent elm else set_root elm) ;;;
      RB_INSERT_COLOR elm ;;;
      ret NULL
  end.

Definition find_round (elm tmp : Z) : M rb_state (Z + Z) :=
  if tmp =? NULL then ret (inr NULL)
  else
    let comp := cmp elm tmp in
    if comp <? 0 then let* tmp := RB_LEFT tmp in ret (inl tmp)
    else if 0 <? comp then let* tmp := RB_RIGHT tmp in ret (inl tmp)
    else ret (inr tmp).
Definition RB_FIND (elm : Z) : M rb_state Z :=
  let* root := RB_ROOT in
  while_ (find_round elm) root.

Definition nfind_round (elm : Z) (st : Z * Z) : M rb_state (Z * Z + Z) :=
  let '(tmp, res) := st in
  if tmp =? NULL then ret (inr res)
  else
    let comp := cmp elm tmp in
    if comp <? 0 then let* l := RB_LEFT tmp in ret (inl (l, tmp))
    else if 0 <? comp then let* r := RB_RIGHT tmp in ret (inl (r, res))
    else ret (inr tmp).
Definition RB_NFIND (elm : Z) : M rb_state Z :=
  let* root := RB_ROOT in
  while_ (nfind_round elm) (root, NULL).
End cmp.

(** [while (PARENT(elm) && elm == child(PARENT(elm))) elm = PARENT(elm);] *)
Definition climb_round (d : side) (elm : Z) : M rb_state (Z + Z) :=
  let* p := RB_PARENT elm in
  if p =? NULL then ret (inr elm)
  else
    let* c := child d p in
    if elm =? c then ret (inl p) else ret (inr elm).

(** The neighbour on side [d]. *)
Definition neighbour (d : side) (elm : Z) : M rb_state Z :=
  let* r := child d elm in
  if negb (r =? NULL) then last_on (opp d) r
  else
    let* p := RB_PARENT elm in
    let* c := (if p =? NULL then ret NULL else child (opp d) p) in
    if negb (p =? NULL) && (elm =? c) then ret p
    else
      let* elm := while_ (climb_round d) elm in
      RB_PARENT elm.
Definition RB_NEXT : Z → M rb_state Z := neighbour RIGHT.
Definition RB_PREV : Z → M rb_state Z := neighbour LEFT.

Definition minmax_round (val : Z) (st : Z * Z) : M rb_state (Z * Z + Z) :=
  let '(tmp, parent) := st in
  if tmp =? NULL then ret (inr parent)
  else
    let* c := child (if val <? 0 then LEFT else RIGHT) tmp in
    ret (inl (c, tmp)).
Definition RB_MINMAX (val : Z) : M rb_state Z :=
  let* root := RB_ROOT in
  while_ (minmax_round val) (root, NULL).
Definition RB_MIN : M rb_state Z := RB_MINMAX (-1).
Definition RB_MAX : M rb_state Z := RB_MINMAX 1.

(** The nodes [RB_FOREACH] visits, and [RB_FOREACH_SAFE] when the body removes
    them: the successor is read before the body runs. *)
Definition foreach_round (st : Z * list Z) : M rb_state (Z * list Z + list Z) :=
  let '(x, seen) := st in
  if x =? NULL then ret (inr seen)
  else
    let* y := RB_NEXT x in
    ret (inl (y, seen ++ [x])).
Definition RB_FOREACH : M rb_state (list Z) :=
  let* x := RB_MIN in
  while_ foreach_round (x, []).
Definition foreach_remove_round (x : Z) : M rb_state (Z + unit) :=
  if x =? NULL then ret (inr tt)
  else
    let* y := RB_NEXT x in
    RB_REMOVE x ;;;
    ret (inl y).
Definition remove_all : M rb_state unit :=
  let* x := RB_MIN in
  while_ foreach_remove_round x.
