(* ===== verification/RbTree.v ===== *)
(** Red-black trees as values: the tree a state of nodes stands for, a place in
    it as a zipper, and the balance of colours; then the steps of the trees in
    memory (colours, rotations, linking and unlinking of nodes) as steps from one
    tree to another.  The operations of [Rb] are proved against these. *)
From stdpp Require Import base tactics list gmap strings.
From Stdlib Require Import ZArith Lia.
From S2P Require Import Prelude Rb.

Inductive color := RED | BLACK.
Definition color_val (c : color) : Z := match c with RED => RB_RED | BLACK => RB_BLACK end.

Inductive tree := Leaf | Node (c : color) (l : tree) (x : Z) (r : tree).

(** A node whose subtree on side [d] comes first. *)
Definition node (d : side) (c : color) (near : tree) (x : Z) (far : tree) : tree :=
  match d with LEFT => Node c near x far | RIGHT => Node c far x near end.

Definition ptr (t : tree) : Z := match t with Leaf => NULL | Node _ _ x _ => x end.
Fixpoint elems (t : tree) : list Z := match t with Leaf => [] | Node _ l x r => elems l ++ x :: elems r end.

(** The way to a subtree, from the inside: the side of the hole, the node and
    the other subtree. *)
Record frame := mk_frame { f_side : side; f_color : color; f_ptr : Z; f_sib : tree }.
Definition close (f : frame) (t : tree) : tree := node (f_side f) (f_color f) t (f_ptr f) (f_sib f).
Fixpoint plug (ctx : list frame) (t : tree) : tree :=
  match ctx with [] => t | f :: ctx' => plug ctx' (close f t) end.
Definition up (ctx : list frame) : Z := match ctx with [] => NULL | f :: _ => f_ptr f end.

(** The elements before and after the hole, and all of them. *)
Fixpoint before (ctx : list frame) : list Z :=
  match ctx with
  | [] => []
  | f :: ctx' => before ctx' ++ match f_side f with LEFT => [] | RIGHT => elems (f_sib f) ++ [f_ptr f] end
  end.
Fixpoint after (ctx : list frame) : list Z :=
  match ctx with
  | [] => []
  | f :: ctx' => match f_side f with LEFT => f_ptr f :: elems (f_sib f) | RIGHT => [] end ++ after ctx'
  end.
Fixpoint around (ctx : list frame) : list Z :=
  match ctx with [] => [] | f :: ctx' => f_ptr f :: elems (f_sib f) ++ around ctx' end.

Lemma elems_plug ctx t : elems (plug ctx t) = before ctx ++ elems t ++ after ctx.
Proof.
  revert t. induction ctx as [|[[] c x sib] ctx IH]; intros t; cbn; [by rewrite app_nil_r|rewrite IH; cbn..].
  - by rewrite app_nil_r, <- !app_assoc.
  - by rewrite <- !app_assoc.
Qed.

Lemma elems_around ctx t : elems (plug ctx t) ≡ₚ around ctx ++ elems t.
Proof.
  revert t. induction ctx as [|[[] c x sib] ctx IH]; intros t; [done|cbn; rewrite IH; cbn..]; solve_Permutation.
Qed.

Lemma plug_app ctx1 ctx2 t : plug (ctx1 ++ ctx2) t = plug ctx2 (plug ctx1 t).
Proof. revert t. induction ctx1 as [|f ctx1 IH]; intros t; [done|apply IH]. Qed.

Lemma elems_node d c a x b : elems (node d c a x b) ≡ₚ x :: elems a ++ elems b.
Proof. destruct d; cbn; solve_Permutation. Qed.

(** Every element is somewhere. *)
Lemma find_node x t : x ∈ elems t → ∃ ctx c l r, t = plug ctx (Node c l x r).
Proof.
  induction t as [|c l IHl y r IHr]; cbn; [by intros ?%not_elem_of_nil|].
  rewrite elem_of_app, elem_of_cons. intros [H|[->|H]].
  - destruct (IHl H) as (ctx & c' & l' & r' & ->). exists (ctx ++ [mk_frame LEFT c y r]), c', l', r'. by rewrite plug_app.
  - by exists [], c, l, r.
  - destruct (IHr H) as (ctx & c' & l' & r' & ->). exists (ctx ++ [mk_frame RIGHT c y l]), c', l', r'. by rewrite plug_app.
Qed.

(** * The nodes of a tree *)

(** The entry of a node with a subtree [near] on side [d]. *)
Definition entry (d : side) (near far parent : Z) (c : color) : rb_entry :=
  match d with LEFT => mk_entry near far parent (color_val c) | RIGHT => mk_entry far near parent (color_val c) end.

Fixpoint rep (h : gmap Z rb_entry) (parent : Z) (t : tree) : Prop :=
  match t with
  | Leaf => True
  | Node c l x r => x ≠ NULL ∧ h !! x = Some (mk_entry (ptr l) (ptr r) parent (color_val c)) ∧ rep h x l ∧ rep h x r
  end.

Fixpoint rep_ctx (h : gmap Z rb_entry) (root : Z) (ctx : list frame) (p : Z) : Prop :=
  match ctx with
  | [] => root = p
  | f :: ctx' =>
      f_ptr f ≠ NULL ∧ h !! f_ptr f = Some (entry (f_side f) p (ptr (f_sib f)) (up ctx') (f_color f)) ∧
      rep h (f_ptr f) (f_sib f) ∧ rep_ctx h root ctx' (f_ptr f)
  end.

(** The state stands for the tree. *)
Definition is_tree (s : rb_state) (t : tree) : Prop :=
  rbh_root s = ptr t ∧ rep (rb_nodes s) NULL t ∧ NoDup (elems t).

(** The nodes outside of [l] are as they were. *)
Definition agree (l : list Z) (h h' : gmap Z rb_entry) : Prop := ∀ z, z ∉ l → h' !! z = h !! z.
(** What an operation on a tree with the elements [l] leaves alone. *)
Definition keeps (l : list Z) (s s' : rb_state) : Prop := agree l (rb_nodes s) (rb_nodes s').

Lemma agree_refl l h : agree l h h.
Proof. done. Qed.
Lemma agree_trans l h1 h2 h3 : agree l h1 h2 → agree l h2 h3 → agree l h1 h3.
Proof. intros H1 H2 z Hz. by rewrite H2, H1. Qed.
Lemma agree_mono l l' h h' : (∀ z, z ∈ l → z ∈ l') → agree l h h' → agree l' h h'.
Proof. intros Hl H z Hz. apply H. auto. Qed.
Lemma agree_insert l h x e : x ∈ l → agree l h (<[x := e]> h).
Proof. intros Hx z Hz. apply lookup_insert_ne. by intros ->. Qed.

#[export] Instance agree_perm : Proper ((≡ₚ) ==> (=) ==> (=) ==> iff) agree.
Proof.
  intros l l' Hl h _ <- h' _ <-. split; apply agree_mono; intros z; [by rewrite Hl|by rewrite <- Hl].
Qed.

Lemma rep_node h parent d c a x b :
  rep h parent (node d c a x b) ↔ x ≠ NULL ∧ h !! x = Some (entry d (ptr a) (ptr b) parent c) ∧ rep h x a ∧ rep h x b.
Proof. destruct d; cbn; tauto. Qed.

Lemma ptr_node d c a x b : ptr (node d c a x b) = x.
Proof. by destruct d. Qed.

Lemma rep_agree l h h' parent t : agree l h h' → (∀ z, z ∈ elems t → z ∉ l) → rep h parent t → rep h' parent t.
Proof.
  intros Ha. revert parent. induction t as [|c tl IHl x tr IHr]; intros parent Hl; [done|]. cbn in *. intros (H1 & H2 & H3 & H4). split_and!; [done| | |].
  - rewrite Ha; [done|]. apply Hl. set_solver.
  - apply IHl; [|done]. intros z Hz. apply Hl. set_solver.
  - apply IHr; [|done]. intros z Hz. apply Hl. set_solver.
Qed.

Lemma rep_ctx_agree l h h' root ctx p : agree l h h' → (∀ z, z ∈ around ctx → z ∉ l) → rep_ctx h root ctx p → rep_ctx h' root ctx p.
Proof.
  intros Ha. revert p. induction ctx as [|f ctx IH]; intros p Hl; [done|]. cbn in *. intros (H1 & H2 & H3 & H4). split_and!; [done| | |].
  - rewrite Ha; [done|]. apply Hl. set_solver.
  - apply (rep_agree l h); [done| |done]. intros z Hz. apply Hl. set_solver.
  - apply IH; [|done]. intros z Hz. apply Hl. set_solver.
Qed.

Lemma rep_insert h parent t x e : x ∉ elems t → rep h parent t → rep (<[x := e]> h) parent t.
Proof. intros Hx. apply (rep_agree [x]); [apply agree_insert; set_solver|]. by intros z Hz ->%list_elem_of_singleton. Qed.
Lemma rep_ctx_insert h root ctx p x e : x ∉ around ctx → rep_ctx h root ctx p → rep_ctx (<[x := e]> h) root ctx p.
Proof. intros Hx. apply (rep_ctx_agree [x]); [apply agree_insert; set_solver|]. by intros z Hz ->%list_elem_of_singleton. Qed.

(** A tree at a place: the tree, the way to it, and no node twice. *)
Lemma is_tree_plug s ctx t :
  is_tree s (plug ctx t) ↔
  rep_ctx (rb_nodes s) (rbh_root s) ctx (ptr t) ∧ rep (rb_nodes s) (up ctx) t ∧ NoDup (around ctx ++ elems t).
Proof.
  rewrite <- elems_around. unfold is_tree. revert t. induction ctx as [|f ctx IH]; intros t; cbn; [tauto|].
  rewrite IH. unfold close. rewrite rep_node, ptr_node. tauto.
Qed.

(** The entry of the node in focus. *)
Lemma tree_entry s ctx d c a x b : is_tree s (plug ctx (node d c a x b)) →
  x ≠ NULL ∧ rb_nodes s !! x = Some (entry d (ptr a) (ptr b) (up ctx) c).
Proof. rewrite is_tree_plug, rep_node. tauto. Qed.

(** * Balance *)

(** The colour of the root and the number of black nodes on every path. *)
Inductive rb : tree → color → nat → Prop :=
  | rb_leaf : rb Leaf BLACK 0
  | rb_red l x r n : rb l BLACK n → rb r BLACK n → rb (Node RED l x r) RED n
  | rb_black l x r cl cr n : rb l cl n → rb r cr n → rb (Node BLACK l x r) BLACK (S n).

(** Any balanced tree of colour [c] and height [n] makes the whole balanced. *)
Inductive rb_ctx : list frame → color → nat → Prop :=
  | ctx_root n : rb_ctx [] BLACK n
  | ctx_red d x sib ctx n : rb sib BLACK n → rb_ctx ctx RED n → rb_ctx (mk_frame d RED x sib :: ctx) BLACK n
  | ctx_black d x sib c cs ctx n : rb sib cs n → rb_ctx ctx BLACK (S n) → rb_ctx (mk_frame d BLACK x sib :: ctx) c n.

Definition balanced (t : tree) : Prop := ∃ n, rb t BLACK n.

Lemma rb_node_red d l x r n : rb l BLACK n → rb r BLACK n → rb (node d RED l x r) RED n.
Proof. destruct d; by constructor. Qed.
Lemma rb_node_black d l x r cl cr n : rb l cl n → rb r cr n → rb (node d BLACK l x r) BLACK (S n).
Proof. destruct d; econstructor; eauto. Qed.
Lemma rb_node_inv d c l x r c' n : rb (node d c l x r) c' n →
  c' = c ∧ match c with
  | RED => rb l BLACK n ∧ rb r BLACK n
  | BLACK => ∃ m cl cr, n = S m ∧ rb l cl m ∧ rb r cr m
  end.
Proof. destruct d; inversion 1; subst; (split; [done|]); eauto 10. Qed.

Lemma plug_balanced ctx t c n : rb_ctx ctx c n → rb t c n → balanced (plug ctx t).
Proof.
  intros Hc. revert t. induction Hc as [n|d x sib ctx n Hs Hc IH|d x sib c cs ctx n Hs Hc IH]; intros t Ht; cbn; [by exists n| |].
  - apply IH. by apply rb_node_red.
  - apply IH. by eapply rb_node_black.
Qed.

Lemma unplug_balanced ctx t : balanced (plug ctx t) → ∃ c n, rb t c n ∧ rb_ctx ctx c n.
Proof.
  revert t. induction ctx as [|[d c x sib] ctx IH]; intros t; cbn; [intros [n Hn]; exists BLACK, n; by split; [|constructor]|].
  intros (c' & n & Hr & Hc)%IH. unfold close in Hr. cbn in Hr. apply rb_node_inv in Hr as [-> Hr]. destruct c.
  - destruct Hr as [H1 H2]. exists BLACK, n. by split; [|constructor].
  - destruct Hr as (m & cl & cr & -> & H1 & H2). exists cl, m. by split; [|econstructor].
Qed.

Lemma ctx_weaken ctx n : rb_ctx ctx RED n → rb_ctx ctx BLACK n.
Proof. inversion 1; subst; econstructor; eauto. Qed.

Lemma rb_color_root t c n : rb t c n → match t with Leaf => c = BLACK | Node c' _ _ _ => c = c' end.
Proof. by inversion 1. Qed.

(** A subtree of height above 0 is a node. *)
Lemma rb_height_node d t c n : rb t c (S n) → ∃ a x b, t = node d c a x b.
Proof.
  inversion 1; subst; destruct d; [by exists l, x, r|by exists r, x, l|by exists l, x, r|by exists r, x, l].
Qed.

Lemma tree_node d t : t = Leaf ∨ ∃ c a x b, t = node d c a x b.
Proof. destruct t as [|c l x r]; [by left|right]. destruct d; [by exists c, l, x, r|by exists c, r, x, l]. Qed.

(** The height is logarithmic. *)
Fixpoint depth (t : tree) : nat := match t with Leaf => 0 | Node _ l _ r => S (Nat.max (depth l) (depth r)) end.

Lemma rb_size t c n : rb t c n → 2 ^ Z.of_nat n <= Z.of_nat (length (elems t)) + 1.
Proof.
  induction 1 as [|l x r n Hl IHl Hr IHr|l x r cl cr n Hl IHl Hr IHr]; [done|..]; cbn [elems]; rewrite length_app; cbn [length].
  - lia.
  - rewrite Nat2Z.inj_succ, Z.pow_succ_r by lia. lia.
Qed.

Lemma rb_depth t c n : rb t c n → (depth t <= 2 * n + match c with RED => 1 | BLACK => 0 end)%nat.
Proof.
  induction 1 as [|l x r n Hl IHl Hr IHr|l x r cl cr n Hl IHl Hr IHr]; cbn [depth]; [done|lia|]. destruct cl, cr; lia.
Qed.

(** * Reading and writing *)
Section access.
Context (s : rb_state) (p : Z) (e : rb_entry) (He : rb_nodes s !! p = Some e).

Lemma wp_load Q : Q e s → wp (load p) s Q.
Proof. intros HQ. unfold load. apply wp_bind, wp_get. rewrite He. by apply wp_ret. Qed.
Lemma wp_store f (Q : unit → rb_state → Prop) : Q tt (mk_rb (rbh_root s) (<[p := f e]> (rb_nodes s))) → wp (store p f) s Q.
Proof. intros HQ. unfold store. apply wp_bind, wp_load. by apply wp_modify. Qed.
Lemma wp_child d Q : Q (get_child d e) s → wp (child d p) s Q.
Proof. intros HQ. unfold child. apply wp_bind, wp_load. by apply wp_ret. Qed.
Lemma wp_parent Q : Q (rbe_parent e) s → wp (RB_PARENT p) s Q.
Proof. intros HQ. unfold RB_PARENT. apply wp_bind, wp_load. by apply wp_ret. Qed.
Lemma wp_color Q : Q (rbe_color e) s → wp (RB_COLOR p) s Q.
Proof. intros HQ. unfold RB_COLOR. apply wp_bind, wp_load. by apply wp_ret. Qed.
Lemma wp_is_red Q : p ≠ NULL → Q (rbe_color e =? RB_RED) s → wp (is_red p) s Q.
Proof. intros Hp HQ. unfold is_red. rewrite (proj2 (Z.eqb_neq _ _) Hp). apply wp_bind, wp_color. by apply wp_ret. Qed.
Lemma wp_is_black Q : p ≠ NULL → Q (rbe_color e =? RB_BLACK) s → wp (is_black p) s Q.
Proof. intros Hp HQ. unfold is_black. rewrite (proj2 (Z.eqb_neq _ _) Hp). apply wp_bind, wp_color. by apply wp_ret. Qed.
End access.

Lemma get_child_entry d a b p c : get_child d (entry d a b p c) = a.
Proof. by destruct d. Qed.
Lemma get_child_opp d a b p c : get_child (opp d) (entry d a b p c) = b.
Proof. by destruct d. Qed.
Lemma put_child_entry d a b p c v : put_child d v (entry d a b p c) = entry d v b p c.
Proof. by destruct d. Qed.
Lemma put_child_opp d a b p c v : put_child (opp d) v (entry d a b p c) = entry d a v p c.
Proof. by destruct d. Qed.
Lemma put_parent_entry d a b p c v : put_parent v (entry d a b p c) = entry d a b v c.
Proof. by destruct d. Qed.
Lemma put_color_entry d a b p c c' : put_color (color_val c') (entry d a b p c) = entry d a b p c'.
Proof. by destruct d. Qed.
Lemma parent_entry d a b p c : rbe_parent (entry d a b p c) = p.
Proof. by destruct d. Qed.
Lemma color_entry d a b p c : rbe_color (entry d a b p c) = color_val c.
Proof. by destruct d. Qed.
Create Rewrite HintDb rb_fields.
#[export] Hint Rewrite get_child_entry get_child_opp put_child_entry put_child_opp put_parent_entry put_color_entry parent_entry color_entry : rb_fields.

(** Membership of nodes in the parts of a tree without duplicates. *)
Lemma NoDup_parts (l1 l2 : list Z) : NoDup (l1 ++ l2) → NoDup l1 ∧ NoDup l2 ∧ ∀ z, z ∈ l1 → z ∉ l2.
Proof. rewrite NoDup_app. intros (H1 & H2 & H3). split_and!; try done. Qed.

(** * Parent pointers and the pointer to a subtree *)
Lemma wp_reparent s old t new (Q : unit → rb_state → Prop) : rep (rb_nodes s) old t → NoDup (elems t) →
  (∀ h, agree (elems t) (rb_nodes s) h → rep h new t → Q tt (mk_rb (rbh_root s) h)) →
  wp (set_parent_if (ptr t) new) s Q.
Proof.
  intros Hr Hnd HQ. unfold set_parent_if. destruct t as [|c l x r]; cbn [ptr].
  - change (NULL =? NULL) with true. cbv iota. apply wp_ret. destruct s as [root h]. by apply HQ.
  - cbn in Hr, Hnd. destruct Hr as (H1 & H2 & H3 & H4). rewrite (proj2 (Z.eqb_neq _ _) H1). apply NoDup_parts in Hnd as (N1 & N2 & N3). apply NoDup_cons in N2 as [N2 N4].
    eapply wp_store; [exact H2|]. apply HQ.
    + apply agree_insert. cbn. set_solver.
    + cbn. split_and!; [done|by rewrite lookup_insert_eq| |].
      * apply rep_insert; [|done]. intros Hx. apply (N3 x Hx). set_solver.
      * by apply rep_insert.
Qed.

Lemma rep_ctx_up h root ctx p : rep_ctx h root ctx p → up ctx = NULL ↔ ctx = [].
Proof. destruct ctx as [|f ctx]; cbn; [done|]. intros (H & _). by split. Qed.

Lemma wp_replace_child s ctx p new (Q : unit → rb_state → Prop) :
  rep_ctx (rb_nodes s) (rbh_root s) ctx p → NoDup (around ctx) → p ∉ around ctx → p ≠ NULL →
  (∀ h root, agree (around ctx) (rb_nodes s) h → rep_ctx h root ctx new → Q tt (mk_rb root h)) →
  wp (replace_child (up ctx) p new) s Q.
Proof.
  intros Hr Hnd Hp H0 HQ. unfold replace_child. destruct ctx as [|[d c x sib] ctx]; cbn [up f_ptr].
  - change (NULL =? NULL) with true. cbv iota. apply wp_modify. by apply HQ.
  - cbn in Hr, Hnd, Hp. destruct Hr as (H1 & H2 & H3 & H4). rewrite (proj2 (Z.eqb_neq _ _) H1).
    apply NoDup_cons in Hnd as [N1 (N2 & N3 & N4)%NoDup_parts]. apply not_elem_of_app in N1 as [N1 N5].
    assert (p ≠ ptr sib) as Hsib.
    { destruct sib; cbn; [done|]. intros ->. apply Hp. cbn. set_solver. }
    apply wp_bind. eapply wp_child; [exact H2|].
    assert ((if get_child LEFT (entry d p (ptr sib) (up ctx) c) =? p then set_child LEFT x new else set_child RIGHT x new) = set_child d x new) as ->.
    { destruct d; cbn; [by rewrite Z.eqb_refl|]. by rewrite (proj2 (Z.eqb_neq _ _)) by done. }
    unfold set_child. eapply wp_store; [exact H2|]. rewrite put_child_entry. apply HQ.
    + apply agree_insert. cbn. set_solver.
    + cbn. rewrite lookup_insert_eq. split_and!; [done|done| |].
      * by apply rep_insert.
      * by apply rep_ctx_insert.
Qed.

(** * Colours *)
Lemma wp_set_color s ctx d c c' a x b (Q : unit → rb_state → Prop) :
  is_tree s (plug ctx (node d c a x b)) →
  (∀ s', is_tree s' (plug ctx (node d c' a x b)) → keeps (elems (plug ctx (node d c a x b))) s s' → Q tt s') →
  wp (set_color x (color_val c')) s Q.
Proof.
  intros Ht HQ. pose proof (tree_entry _ _ _ _ _ _ _ Ht) as [_ He]. unfold set_color. eapply wp_store; [exact He|].
  rewrite put_color_entry. apply HQ.
  - apply is_tree_plug in Ht as (H1 & H2 & H3). apply is_tree_plug. rewrite rep_node, ptr_node in *. rewrite elems_node in H3. rewrite elems_node. cbn [rb_nodes rbh_root].
    destruct H2 as (H4 & H5 & H6 & H7). apply NoDup_app in H3 as (N1 & N2 & N3). apply NoDup_cons in N3 as [N3 N4].
    rewrite lookup_insert_eq. split_and!; try done.
    + apply rep_ctx_insert; [|done]. intros Hx. apply (N2 x Hx). set_solver.
    + apply rep_insert; [set_solver|done].
    + apply rep_insert; [set_solver|done].
    + apply NoDup_app. split_and!; [done|done|]. by apply NoDup_cons.
  - apply agree_insert. rewrite elems_around, elems_node. set_solver.
Qed.

(** * Rotations *)

(** Two nodes, their subtrees and the way to them do not share elements. *)
Record apart (ctx : list frame) (a : tree) (x : Z) (b : tree) (y : Z) (e : tree) : Prop := {
  ap_xy : x ≠ y;
  ap_x : ∀ z, z ∈ elems a ++ elems b ++ elems e ++ around ctx → z ≠ x;
  ap_y : ∀ z, z ∈ elems a ++ elems b ++ elems e ++ around ctx → z ≠ y;
  ap_b : ∀ z, z ∈ elems b → z ∉ elems a ++ elems e ++ around ctx;
  ap_ctx : ∀ z, z ∈ around ctx → z ∉ elems a ++ elems e;
  ap_nodup : NoDup (around ctx);
  ap_nodup_b : NoDup (elems b)
}.

Lemma NoDup_two ctx a x b y e : NoDup (around ctx ++ x :: elems a ++ y :: elems b ++ elems e) → apart ctx a x b y e.
Proof.
  intros (N0 & N2 & N1)%NoDup_parts. apply NoDup_cons in N2 as [N2 (_ & N4 & N3)%NoDup_parts]. apply NoDup_cons in N4 as [N4 (N5 & _ & N6)%NoDup_parts].
  split; try done.
  - set_solver.
  - intros z Hz ->. pose proof (N1 x). set_solver.
  - intros z Hz ->. pose proof (N1 y). pose proof (N3 y). set_solver.
  - intros z Hz. pose proof (N1 z). pose proof (N3 z). pose proof (N6 z). set_solver.
  - intros z Hz. pose proof (N1 z Hz). set_solver.
Qed.

Lemma wp_rotate s ctx d cx cy a x b y e (Q : unit → rb_state → Prop) :
  is_tree s (plug ctx (node d cx a x (node d cy b y e))) →
  (∀ s', is_tree s' (plug ctx (node d cy (node d cx a x b) y e)) → keeps (elems (plug ctx (node d cx a x (node d cy b y e)))) s s' → Q tt s') →
  wp (rotate d x) s Q.
Proof.
  intros Ht HQ. apply is_tree_plug in Ht as (Hc & Hr & Hnd). rewrite !ptr_node, !rep_node in *.
  destruct Hr as (Hx0 & Hx & Ha & Hy0 & Hy & Hb & He). rewrite ptr_node in Hx. rewrite !elems_node in Hnd.
  destruct (NoDup_two _ _ _ _ _ _ Hnd) as [Nxy Nx Ny Nb Nc NDc NDb].
  unfold rotate. apply wp_bind. eapply wp_child; [exact Hx|]. rewrite get_child_opp. apply wp_bind. eapply wp_child; [exact Hy|]. rewrite get_child_entry.
  apply wp_bind. unfold set_child at 1. eapply wp_store; [exact Hx|]. rewrite put_child_opp.
  apply wp_bind. eapply wp_reparent; [apply rep_insert; [|exact Hb]; intros H; by apply (Nx x); [set_solver|]|done|]. intros h1 A1 Rb1. cbn [rb_nodes rbh_root] in *.
  assert (h1 !! x = Some (entry d (ptr a) (ptr b) (up ctx) cx)) as Hx1.
  { rewrite A1; [apply lookup_insert_eq|]. intros H. by apply (Nx x); [set_solver|]. }
  assert (h1 !! y = Some (entry d (ptr b) (ptr e) x cy)) as Hy1.
  { rewrite A1; [by rewrite lookup_insert_ne|]. intros H. by apply (Ny y); [set_solver|]. }
  apply wp_bind. eapply wp_parent; [exact Hx1|]. rewrite parent_entry.
  apply wp_bind. unfold set_parent at 1. eapply wp_store; [exact Hy1|]. rewrite put_parent_entry. cbn [rb_nodes rbh_root].
  set (h2 := <[y:=_]> h1). assert (agree (x :: y :: elems b) (rb_nodes s) h2) as A2.
  { intros z Hz. unfold h2. rewrite lookup_insert_ne by set_solver. rewrite A1 by set_solver. rewrite lookup_insert_ne by set_solver. done. }
  apply wp_bind. eapply (wp_replace_child _ ctx x y); [|done| |done|]; cbn [rb_nodes rbh_root].
  { eapply rep_ctx_agree; [exact A2| |exact Hc]. intros z Hz H. pose proof (Nx z). pose proof (Ny z). pose proof (Nb z). set_solver. }
  { intros H. by apply (Nx x); [set_solver|]. }
  intros h3 root A3 Rc. assert (h3 !! x = Some (entry d (ptr a) (ptr b) (up ctx) cx)) as Hx3.
  { rewrite A3; [by unfold h2; rewrite lookup_insert_ne|]. intros H. by apply (Nx x); [set_solver|]. }
  assert (h3 !! y = Some (entry d (ptr b) (ptr e) (up ctx) cy)) as Hy3.
  { rewrite A3; [by unfold h2; rewrite lookup_insert_eq|]. intros H. by apply (Ny y); [set_solver|]. }
  apply wp_bind. unfold set_child at 1. eapply wp_store; [exact Hy3|]. rewrite put_child_entry. cbn [rb_nodes rbh_root].
  unfold set_parent. eapply wp_store; [cbn [rb_nodes]; rewrite lookup_insert_ne by done; exact Hx3|]. rewrite put_parent_entry. cbn [rb_nodes rbh_root].
  set (h4 := <[x:=_]> _).
  assert (∀ parent t, rep (rb_nodes s) parent t → (∀ z, z ∈ elems t → z ∈ elems a ++ elems e) → rep h4 parent t) as Hrest.
  { intros parent t Ht Hin. unfold h4. apply rep_insert; [intros H; apply (Nx x); set_solver|]. apply rep_insert; [intros H; apply (Ny y); set_solver|].
    eapply rep_agree; [exact A3| |]; [intros z Hz H; apply (Nc z H); set_solver|]. eapply rep_agree; [exact A2| |exact Ht].
    intros z Hz H. pose proof (Nx z). pose proof (Ny z). pose proof (Nb z). set_solver. }
  apply HQ.
  - apply is_tree_plug. rewrite ptr_node, !rep_node, ptr_node, !elems_node. cbn [rb_nodes rbh_root].
    assert (h4 !! x = Some (entry d (ptr a) (ptr b) y cx)) as Hx4 by apply lookup_insert_eq.
    assert (h4 !! y = Some (entry d x (ptr e) (up ctx) cy)) as Hy4 by (unfold h4; rewrite lookup_insert_ne by done; apply lookup_insert_eq).
    split_and!; try done.
    + unfold h4. apply rep_ctx_insert; [intros H; by apply (Nx x); [set_solver|]|]. apply rep_ctx_insert; [intros H; by apply (Ny y); [set_solver|]|]. done.
    + apply Hrest; [done|set_solver].
    + unfold h4. apply rep_insert; [intros H; by apply (Nx x); [set_solver|]|]. apply rep_insert; [intros H; by apply (Ny y); [set_solver|]|].
      eapply rep_agree; [exact A3| |]; [intros z Hz H; apply (Nb z Hz); set_solver|]. unfold h2. apply rep_insert; [intros H; by apply (Ny y); [set_solver|]|]. done.
    + apply Hrest; [done|set_solver].
    + eapply NoDup_Permutation_proper; [|exact Hnd]. solve_Permutation.
  - unfold keeps. rewrite elems_around, !elems_node. cbn [rb_nodes]. intros z Hz. unfold h4. rewrite !lookup_insert_ne by set_solver. rewrite A3 by set_solver. apply A2. set_solver.
Qed.

(** * Nodes that come and go *)

(** The writes of [RB_INSERT] hang a new red node at the place that was found. *)
Lemma wp_link s ctx elm comp e0 (Q : unit → rb_state → Prop) :
  is_tree s (plug ctx Leaf) → elm ≠ NULL → elm ∉ around ctx → rb_nodes s !! elm = Some e0 →
  match ctx with [] => True | f :: _ => f_side f = if comp <? 0 then LEFT else RIGHT end →
  (∀ s', is_tree s' (plug ctx (Node RED Leaf elm Leaf)) → keeps (elm :: around ctx) s s' → Q tt s') →
  wp (RB_SET elm (up ctx) ;;; if negb (up ctx =? NULL) then set_child (if comp <? 0 then LEFT else RIGHT) (up ctx) elm else set_root elm) s Q.
Proof.
  intros (Hc & _ & Hnd)%is_tree_plug H0 Hn He Hside HQ. rewrite app_nil_r in Hnd. destruct s as [root h]. cbn [rb_nodes rbh_root] in *.
  unfold RB_SET, set_parent, set_child, set_color. apply wp_bind.
  do 3 (apply wp_bind; eapply wp_store; [first [exact He|cbn [rb_nodes]; apply lookup_insert_eq]|]). eapply wp_store; [cbn [rb_nodes]; apply lookup_insert_eq|].
  cbn [rb_nodes rbh_root]. rewrite !insert_insert_eq. set (new := put_color _ _). change new with (mk_entry NULL NULL (up ctx) RB_RED). clear new.
  set (h1 := <[elm:=_]> h). assert (rep_ctx h1 root ctx NULL) as Hc1 by (by apply rep_ctx_insert).
  assert (rep h1 (up ctx) (Node RED Leaf elm Leaf)) as Hr1 by (cbn; by unfold h1; rewrite lookup_insert_eq).
  destruct ctx as [|[d c x sib] ctx]; cbn [up f_ptr].
  - change (NULL =? NULL) with true. cbn [negb]. apply wp_modify. apply HQ; [|apply agree_insert; set_solver].
    apply (is_tree_plug _ []). cbn [rep_ctx rb_nodes rbh_root ptr up around elems app]. split_and!; [done|done|apply NoDup_singleton].
  - cbn in Hc1, Hnd, Hn, Hside. destruct Hc1 as (H1 & H2 & H3 & H4). rewrite (proj2 (Z.eqb_neq _ _) H1). cbn [negb]. rewrite <- Hside.
    eapply wp_store; [exact H2|]. rewrite put_child_entry. cbn [rb_nodes rbh_root]. apply NoDup_cons in Hnd as [N1 N2].
    assert (elm ≠ x) as Hne by set_solver. apply HQ.
    + apply is_tree_plug. cbn [rep_ctx rep rb_nodes rbh_root ptr up around elems app f_ptr f_side f_sib f_color]. rewrite lookup_insert_eq. cbn [rep up f_ptr] in Hr1.
      rewrite (lookup_insert_ne _ x elm) by done. split_and!; try done; try tauto.
      * apply rep_insert; [set_solver|done].
      * apply rep_ctx_insert; [set_solver|done].
      * apply (NoDup_app (x :: elems sib ++ around ctx)). split_and!; [by apply NoDup_cons|set_solver|apply NoDup_singleton].
    + apply (agree_trans _ _ h1); apply agree_insert; set_solver.
Qed.

(** A node with at most one subtree is cut out. *)
Lemma wp_unlink s ctx d c t x (Q : Z * Z → rb_state → Prop) :
  is_tree s (plug ctx (node d c t x Leaf)) →
  (∀ s', is_tree s' (plug ctx t) → keeps (around ctx ++ elems t) s s' → Q (up ctx, color_val c) s') →
  wp (unlink x (ptr t)) s Q.
Proof.
  intros Ht HQ. pose proof (tree_entry _ _ _ _ _ _ _ Ht) as [Hx0 Hx]. apply is_tree_plug in Ht as (Hc & Hr & Hnd). rewrite ptr_node in Hc. apply rep_node in Hr as (_ & _ & Ht & _).
  rewrite elems_node in Hnd. cbn [elems] in Hnd. rewrite app_nil_r in Hnd. apply NoDup_parts in Hnd as (N1 & N2 & N3). apply NoDup_cons in N2 as [N2 N4].
  unfold unlink. apply wp_bind. eapply wp_parent; [exact Hx|]. rewrite parent_entry. apply wp_bind. eapply wp_color; [exact Hx|]. rewrite color_entry.
  apply wp_bind. eapply wp_reparent; [exact Ht|done|]. intros h1 A1 R1.
  apply wp_bind. eapply (wp_replace_child _ ctx x); cbn [rb_nodes rbh_root]; [|done| |done|].
  - eapply rep_ctx_agree; [exact A1| |exact Hc]. intros z Hz H. apply (N3 z Hz). set_solver.
  - intros H. apply (N3 x H). set_solver.
  - intros h2 root A2 Rc. apply wp_ret. apply HQ.
    + apply is_tree_plug. split_and!; [done| |].
      * eapply rep_agree; [exact A2| |exact R1]. intros z Hz H. apply (N3 z H). set_solver.
      * apply NoDup_app. split_and!; [done|set_solver|done].
    + intros z Hz. rewrite A2 by set_solver. apply A1. set_solver.
Qed.

(** A node takes the place of another. *)
Lemma wp_take_place s ctx c l x r y e (Q : unit → rb_state → Prop) :
  is_tree s (plug ctx (Node c l x r)) → l ≠ Leaf → y ≠ NULL → y ∉ elems (plug ctx (Node c l x r)) → rb_nodes s !! y = Some e →
  (∀ s', is_tree s' (plug ctx (Node c l y r)) → keeps (y :: elems (plug ctx (Node c l x r))) s s' → Q tt s') →
  wp (take_place y x) s Q.
Proof.
  intros Ht Hl Hy0 Hy He HQ. rewrite elems_around in *. unfold keeps in HQ. setoid_rewrite elems_around in HQ.
  apply is_tree_plug in Ht as (Hc & (Hx0 & Hx & Hrl & Hrr) & Hnd). cbn [elems ptr] in *.
  apply NoDup_parts in Hnd as (N1 & N2 & N3). apply NoDup_parts in N2 as (N2 & N4 & N5). apply NoDup_cons in N4 as [N4 N6].
  assert (y ≠ x) as Hyx by set_solver.
  unfold take_place. apply wp_bind. eapply wp_load; [exact Hx|]. apply wp_bind. eapply wp_store; [exact He|]. set (h1 := <[y:=_]> _). cbn beta.
  assert (h1 !! x = Some (mk_entry (ptr l) (ptr r) (up ctx) (color_val c))) as Hx1 by (unfold h1; by rewrite lookup_insert_ne).
  apply wp_bind. eapply wp_parent; [exact Hx1|]. cbn [rbe_parent].
  apply wp_bind. eapply (wp_replace_child _ ctx x y); cbn [rb_nodes rbh_root]; [|done| |done|].
  { apply rep_ctx_insert; [set_solver|done]. }
  { intros H. apply (N3 x H). set_solver. }
  intros h2 root A2 Rc. assert (h2 !! x = Some (mk_entry (ptr l) (ptr r) (up ctx) (color_val c))) as Hx2.
  { rewrite A2; [done|]. intros H. apply (N3 x H). set_solver. }
  assert (h2 !! y = Some (mk_entry (ptr l) (ptr r) (up ctx) (color_val c))) as Hy2.
  { rewrite A2 by set_solver. apply lookup_insert_eq. }
  assert (∀ parent t, rep (rb_nodes s) parent t → (∀ z, z ∈ elems t → z ∈ elems l ++ elems r) → rep h2 parent t) as Hrest.
  { intros parent t Ht Hin. eapply rep_agree; [exact A2| |]; [intros z Hz H; apply (N3 z H); apply Hin in Hz; set_solver|]. apply rep_insert; [set_solver|done]. }
  apply wp_bind. eapply wp_child; [exact Hx2|]. apply wp_bind. cbn [get_child rbe_left].
  replace (set_parent (ptr l) y) with (set_parent_if (ptr l) y).
  2: { destruct l as [|cl ll xl lr]; [done|]. unfold set_parent_if. cbn [ptr]. destruct Hrl as [Hl0 _]. by rewrite (proj2 (Z.eqb_neq _ _) Hl0). }
  eapply wp_reparent; [cbn [rb_nodes]; apply Hrest; [exact Hrl|set_solver]|done|]. intros h3 A3 R3. cbn [rbh_root rb_nodes] in *.
  apply wp_bind. eapply wp_child; [cbn [rb_nodes]; rewrite A3; [exact Hx2|]; intros H; apply (N5 x H); set_solver|]. cbn [get_child rbe_right].
  eapply (wp_reparent _ x r); [|done|].
  { cbn [rb_nodes]. eapply rep_agree; [exact A3| |apply Hrest; [exact Hrr|set_solver]]. intros z Hz H. apply (N5 z H). set_solver. }
  intros h4 A4 R4. cbn [rb_nodes rbh_root] in *. apply HQ.
  - apply is_tree_plug. cbn [rep ptr elems rb_nodes rbh_root]. split_and!; try done.
    + eapply rep_ctx_agree; [exact A4| |]; [intros z Hz H; apply (N3 z Hz); set_solver|]. eapply rep_ctx_agree; [exact A3| |done]. intros z Hz H; apply (N3 z Hz); set_solver.
    + rewrite A4 by set_solver. rewrite A3 by set_solver. done.
    + eapply rep_agree; [exact A4| |done]. intros z Hz H. apply (N5 z Hz). set_solver.
    + apply NoDup_app. split_and!; [done|intros z Hz; pose proof (N3 z Hz); set_solver|]. apply NoDup_app. split_and!; [done|intros z Hz; pose proof (N5 z Hz); set_solver|].
      apply NoDup_cons. split; [set_solver|done].
  - intros z Hz. cbn [rb_nodes]. rewrite A4 by set_solver. rewrite A3 by set_solver. rewrite A2 by set_solver. apply lookup_insert_ne. set_solver.
Qed.
