(* ===== verification/RbInv.v ===== *)
(** Insertion and removal in red-black trees: the loops that restore the
    colours. *)
From stdpp Require Import base tactics list gmap strings.
From Stdlib Require Import ZArith Lia.
From S2P Require Import Prelude Rb RbTree.

(** The state of one tree becomes that of another with the same elements. *)
Record becomes (t : tree) (s : rb_state) (t' : tree) (s' : rb_state) : Prop := {
  b_tree : is_tree s' t';
  b_elems : elems t' = elems t;
  b_keeps : keeps (elems t) s s'
}.

Lemma becomes_refl t s : is_tree s t → becomes t s t s.
Proof. by split. Qed.
Lemma becomes_trans t1 s1 t2 s2 t3 s3 : becomes t1 s1 t2 s2 → becomes t2 s2 t3 s3 → becomes t1 s1 t3 s3.
Proof.
  intros [T1 E1 K1] [T2 E2 K2]. split; [done|congruence|]. rewrite E1 in K2. by eapply agree_trans.
Qed.

(** Steps on a tree that can be read in the form a step needs. *)
Section steps.
Context (s : rb_state) (t : tree) (Ht : is_tree s t).

Lemma wp_child_at ctx d c a x b Q : t = plug ctx (node d c a x b) → Q (ptr a) s → wp (child d x) s Q.
Proof. intros -> HQ. apply tree_entry in Ht as [_ He]. eapply wp_child; [exact He|]. by rewrite get_child_entry. Qed.
Lemma wp_parent_at ctx d c a x b Q : t = plug ctx (node d c a x b) → Q (up ctx) s → wp (RB_PARENT x) s Q.
Proof. intros -> HQ. apply tree_entry in Ht as [_ He]. eapply wp_parent; [exact He|]. by rewrite parent_entry. Qed.
Lemma wp_color_at ctx d c a x b Q : t = plug ctx (node d c a x b) → Q (color_val c) s → wp (RB_COLOR x) s Q.
Proof. intros -> HQ. apply tree_entry in Ht as [_ He]. eapply wp_color; [exact He|]. by rewrite color_entry. Qed.
Lemma node_not_null ctx d c a x b : t = plug ctx (node d c a x b) → x ≠ NULL.
Proof. intros ->. by apply tree_entry in Ht as [H _]. Qed.
Lemma wp_root Q : Q (ptr t) s → wp RB_ROOT s Q.
Proof. intros HQ. apply wp_gets. destruct Ht as [-> _]. done. Qed.

Definition color_of (u : tree) : color := match u with Leaf => BLACK | Node c _ _ _ => c end.

Lemma wp_is_red_at ctx u Q : t = plug ctx u → Q (match color_of u with RED => true | BLACK => false end) s → wp (is_red (ptr u)) s Q.
Proof.
  intros -> HQ. destruct u as [|c l x r]; cbn [ptr]; [by apply wp_ret|]. pose proof (tree_entry _ _ LEFT _ _ _ _ Ht) as [H0 He].
  eapply wp_is_red; [exact He|done|]. rewrite color_entry. by destruct c.
Qed.
Lemma wp_is_black_at ctx u Q : t = plug ctx u → Q (match color_of u with RED => false | BLACK => true end) s → wp (is_black (ptr u)) s Q.
Proof.
  intros -> HQ. destruct u as [|c l x r]; cbn [ptr]; [by apply wp_ret|]. pose proof (tree_entry _ _ LEFT _ _ _ _ Ht) as [H0 He].
  eapply wp_is_black; [exact He|done|]. rewrite color_entry. by destruct c.
Qed.

Lemma wp_recolor ctx d c c' a x b (Q : unit → rb_state → Prop) : t = plug ctx (node d c a x b) →
  (∀ s', becomes t s (plug ctx (node d c' a x b)) s' → Q tt s') → wp (set_color x (color_val c')) s Q.
Proof.
  intros -> HQ. eapply wp_set_color; [exact Ht|]. intros s' Ht' Hk. apply HQ. split; [done| |done]. rewrite !elems_plug. by destruct d.
Qed.

Lemma wp_rotate_at ctx d cx cy a x b y e t' (Q : unit → rb_state → Prop) :
  t = plug ctx (node d cx a x (node d cy b y e)) → t' = plug ctx (node d cy (node d cx a x b) y e) →
  (∀ s', becomes t s t' s' → Q tt s') → wp (rotate d x) s Q.
Proof.
  intros -> -> HQ. eapply wp_rotate; [exact Ht|]. intros s' Ht' Hk. apply HQ. split; [done| |done]. rewrite !elems_plug. do 2 f_equal.
  destruct d; cbn; by rewrite <- ?app_assoc.
Qed.
End steps.

Lemma wp_blackred s t ctx d c1 c2 a b p e g (d' : side) (Q : unit → rb_state → Prop) :
  is_tree s t → t = plug ctx (node d c2 (node d' c1 a p b) g e) →
  (∀ s', becomes t s (plug ctx (node d RED (node d' BLACK a p b) g e)) s' → Q tt s') → wp (RB_SET_BLACKRED p g) s Q.
Proof.
  intros Ht Et HQ. unfold RB_SET_BLACKRED. apply wp_bind. change RB_BLACK with (color_val BLACK). change RB_RED with (color_val RED).
  eapply (wp_recolor s t Ht (mk_frame d c2 g e :: ctx) d' c1); [done|]. intros s1 B1.
  eapply (wp_recolor s1 _ (b_tree _ _ _ _ B1) ctx d c2); [done|]. intros s2 B2. apply HQ. by eapply becomes_trans.
Qed.

Lemma node_opp d c a x b : node (opp d) c a x b = node d c b x a.
Proof. by destruct d. Qed.

(** Two ways to read a tree. *)
Ltac place := subst; cbn [plug]; unfold close; cbn [f_side f_color f_ptr f_sib]; rewrite ?node_opp; reflexivity.
Ltac unplace := cbn [plug]; unfold close; cbn [f_side f_color f_ptr f_sib]; rewrite ?node_opp.

(** * Insertion *)

(** A red node at a place where a black one would be right. *)
Definition red_place (ctx : list frame) (l r : tree) : Prop := ∃ n, rb l BLACK n ∧ rb r BLACK n ∧ rb_ctx ctx BLACK n.

(** The new place after a round, nearer to the root. *)
Definition moved_up (t : tree) (s : rb_state) (k : nat) (elm : Z) (s' : rb_state) : Prop :=
  ∃ ctx l r, becomes t s (plug ctx (Node RED l elm r)) s' ∧ red_place ctx l r ∧ (length ctx < k)%nat.

Lemma ptr_apart s t ctx d c a x b : is_tree s t → t = plug ctx (node d c a x b) → a ≠ Leaf → ptr b ≠ ptr a.
Proof.
  intros Ht -> Ha. apply is_tree_plug in Ht as (_ & Hr & Hnd). apply rep_node in Hr as (_ & _ & Hra & _). rewrite elems_node in Hnd.
  apply NoDup_parts in Hnd as (_ & [_ (_ & _ & Hab)%NoDup_parts]%NoDup_cons & _).
  destruct a as [|ca al y ar]; [done|]. destruct b as [|cb bl z br]; cbn [ptr]; [by destruct Hra as [H _]; intros E; apply H|].
  intros <-. apply (Hab z); cbn; set_solver.
Qed.

(** The red node is on the outer side: one rotation at its grandparent. *)
Lemma insert_outer_ok s t d p sib g u ctx l x r n : is_tree s t →
  t = plug ctx (node d BLACK (node d RED (Node RED l x r) p sib) g u) →
  rb l BLACK n → rb r BLACK n → rb sib BLACK n → rb u BLACK n → rb_ctx ctx BLACK (S n) →
  wp (RB_SET_BLACKRED p g ;;; rotate (opp d) g ;;; ret x) s (moved_up t s (2 + length ctx)).
Proof.
  intros Ht Et Hl Hr Hsib Hu Hc. set (e := Node RED l x r) in *.
  apply wp_bind. eapply (wp_blackred s t ctx d RED BLACK); [done|done|]. intros s1 B1.
  apply wp_bind. eapply (wp_rotate_at s1 _ (b_tree _ _ _ _ B1) ctx (opp d) RED BLACK u g sib p e); [by rewrite !node_opp|reflexivity|].
  rewrite !node_opp. intros s2 B2. apply wp_ret. pose proof (becomes_trans _ _ _ _ _ _ B1 B2) as B3.
  exists (mk_frame d BLACK p (node d RED sib g u) :: ctx), l, r. split_and!; [exact B3| |cbn; lia].
  exists n. split_and!; [done|done|]. eapply ctx_black; [by apply rb_node_red|done].
Qed.

Lemma insert_fix_ok s t d d' p sib g u cu ctx l x r n : is_tree s t →
  t = plug (mk_frame d' RED p sib :: mk_frame d BLACK g u :: ctx) (Node RED l x r) →
  rb l BLACK n → rb r BLACK n → rb sib BLACK n → rb u cu n → rb_ctx ctx BLACK (S n) →
  wp (insert_fix d x p g) s (moved_up t s (2 + length ctx)).
Proof.
  intros Ht Et Hl Hr Hsib Hu Hc. unfold insert_fix. set (e := Node RED l x r) in *.
  apply wp_bind. eapply (wp_child_at s t Ht ctx (opp d) BLACK u g); [place|].
  apply wp_bind. eapply (wp_is_red_at s t Ht (mk_frame (opp d) BLACK g (node d' RED e p sib) :: ctx)); [place|].
  destruct (color_of u) eqn:Ecu.
  - destruct u as [|cu' ul y ur]; [done|]. cbn in Ecu. subst cu'. cbn [ptr]. change RB_BLACK with (color_val BLACK). apply wp_bind.
    eapply (wp_recolor s t Ht (mk_frame (opp d) BLACK g (node d' RED e p sib) :: ctx) LEFT RED BLACK ul y ur); [place|]. unplace. intros s1 B1.
    apply wp_bind. eapply (wp_blackred s1 _ ctx d RED BLACK); [exact (b_tree _ _ _ _ B1)|done|]. intros s2 B2. apply wp_ret.
    pose proof (becomes_trans _ _ _ _ _ _ B1 B2) as B3. cbn [node] in B3.
    assert (rb (Node BLACK ul y ur) BLACK (S n)) as Hub by (inversion Hu; subst; by econstructor).
    assert (rb (node d' BLACK e p sib) BLACK (S n)) as Hpb by (eapply rb_node_black; [by apply rb_red|done]).
    destruct d; cbn [node] in B3; (eexists ctx, _, _; split_and!; [exact B3|exists (S n); by split_and!|lia]).
  - assert (cu = BLACK) as -> by (apply rb_color_root in Hu; destruct u; cbn in Ecu; congruence).
    assert (d' = d ∨ d' = opp d) as [->| ->] by (destruct d, d'; auto).
    + apply wp_bind. eapply (wp_child_at s t Ht (mk_frame d BLACK g u :: ctx) (opp d) RED sib p e); [place|].
      assert (ptr sib ≠ x) as Hne by (apply (ptr_apart s t (mk_frame d BLACK g u :: ctx) d RED e p sib); done).
      rewrite (proj2 (Z.eqb_neq _ _) Hne). apply wp_bind, wp_ret. by eapply insert_outer_ok.
    + apply wp_bind. eapply (wp_child_at s t Ht (mk_frame d BLACK g u :: ctx) (opp d) RED e p sib); [place|]. cbn [ptr e]. rewrite Z.eqb_refl.
      assert (∃ tn tf, e = node d RED tn x tf ∧ rb tn BLACK n ∧ rb tf BLACK n) as (tn & tf & Ee & Hn & Hf) by (destruct d; [by exists l, r|by exists r, l]).
      apply wp_bind, wp_bind. eapply (wp_rotate_at s t Ht (mk_frame d BLACK g u :: ctx) d RED RED sib p tn x tf); [rewrite Et, Ee; unplace; reflexivity|reflexivity|].
      unplace. intros s1 B1. apply wp_ret. cbn [fst snd].
      assert (∃ pl pr, node d RED sib p tn = Node RED pl p pr ∧ rb pl BLACK n ∧ rb pr BLACK n) as (pl & pr & Ep & Hpl & Hpr) by (destruct d; [by exists sib, tn|by exists tn, sib]).
      rewrite Ep in B1. eapply wp_mono; [by eapply (insert_outer_ok s1); [exact (b_tree _ _ _ _ B1)|reflexivity|..]|].
      intros z s2 (ctx2 & l2 & r2 & B2 & Hp & Hlen). exists ctx2, l2, r2. split_and!; [by eapply becomes_trans|done|done].
Qed.

(** The whole loop, and the root. *)
Lemma insert_color_ok s ctx l x r : is_tree s (plug ctx (Node RED l x r)) → red_place ctx l r → Z.of_nat (length ctx) < 2 ^ 64 →
  wp (RB_INSERT_COLOR x) s (λ _ s', ∃ t', becomes (plug ctx (Node RED l x r)) s t' s' ∧ balanced t').
Proof.
  intros Ht Hp Hlen. unfold RB_INSERT_COLOR. apply wp_bind. set (t := plug ctx (Node RED l x r)) in *.
  apply (wp_while _ (λ m elm s1, ∃ ctx1 l1 r1, m = Z.of_nat (length ctx1) ∧ becomes t s (plug ctx1 (Node RED l1 elm r1)) s1 ∧ red_place ctx1 l1 r1) _) with (n := Z.of_nat (length ctx)); [|lia|].
  2: { exists ctx, l, r. split_and!; [done|by apply becomes_refl|done]. }
  intros m elm s1 _ (ctx1 & l1 & r1 & -> & B & n & Hl & Hr & Hc). unfold insert_color_round.
  apply wp_bind. eapply (wp_parent_at s1 _ (b_tree _ _ _ _ B) ctx1 LEFT RED l1 elm r1); [done|].
  assert (∀ t1 c0 lr xr rr, becomes t s t1 s1 → t1 = Node c0 lr xr rr → balanced (Node BLACK lr xr rr) →
    wp (let* root := RB_ROOT in set_color root RB_BLACK) s1 (λ _ s', ∃ t', becomes t s t' s' ∧ balanced t')) as Hend.
  { intros t1 c0 lr xr rr B1 E1 Hb. apply wp_bind. eapply wp_root; [exact (b_tree _ _ _ _ B1)|]. rewrite E1. cbn [ptr]. change RB_BLACK with (color_val BLACK).
    eapply (wp_recolor s1 _ (b_tree _ _ _ _ B1) [] LEFT c0); [done|]. intros s2 B2. exists (Node BLACK lr xr rr). split; [by eapply becomes_trans|done]. }
  inversion Hc as [n0|d p sib ctx2 n0 Hsib Hc2|d p sib c cs ctx2 n0 Hsib Hc2]; subst; cbn [up f_ptr].
  - apply wp_bind, wp_ret, wp_ret. eapply Hend; [exact B|done|]. exists (S n). by econstructor.
  - inversion Hc2 as [|? ? ? ? ? ? ?|d2 g u c cs ctx3 n1 Hu Hc3]; subst. set (e := Node RED l1 elm r1) in *.
    apply wp_bind. rewrite <- (ptr_node d RED e p sib).
    eapply (wp_is_red_at s1 _ (b_tree _ _ _ _ B) (mk_frame d2 BLACK g u :: ctx3)); [place|].
    replace (color_of (node d RED e p sib)) with RED by (by destruct d). rewrite ptr_node.
    apply wp_bind. eapply (wp_parent_at s1 _ (b_tree _ _ _ _ B) (mk_frame d2 BLACK g u :: ctx3) d RED e p sib); [place|]. cbn [up f_ptr].
    apply wp_bind. assert (∃ tl tr, node d2 BLACK (node d RED e p sib) g u = node LEFT BLACK tl g tr ∧ (if p =? ptr tl then LEFT else RIGHT) = d2) as (tl & tr & Etl & Hd).
    { destruct d2; cbn [node].
      - eexists _, _. split; [done|]. by rewrite ptr_node, Z.eqb_refl.
      - eexists _, _. split; [done|]. assert (ptr u ≠ p); [|by rewrite (proj2 (Z.eqb_neq _ _))].
        rewrite <- (ptr_node d RED e p sib). eapply (ptr_apart s1 _ ctx3 RIGHT BLACK); [exact (b_tree _ _ _ _ B)|done|by destruct d]. }
    eapply (wp_child_at s1 _ (b_tree _ _ _ _ B) ctx3 LEFT BLACK tl g tr); [unplace; by rewrite Etl|]. rewrite Hd.
    apply wp_bind. eapply wp_mono; [eapply (insert_fix_ok s1 _ d2 d p sib g u cs ctx3 l1 elm r1 n); [exact (b_tree _ _ _ _ B)|done..]|].
    intros y s2 (ctx4 & l4 & r4 & B4 & Hp4 & Hlen4). apply wp_ret. exists (Z.of_nat (length ctx4)). split; [cbn [length]; lia|].
    exists ctx4, l4, r4. split_and!; [done|by eapply becomes_trans|done].
  - set (e := Node RED l1 elm r1) in *. apply wp_bind. rewrite <- (ptr_node d BLACK e p sib).
    eapply (wp_is_red_at s1 _ (b_tree _ _ _ _ B) ctx2); [place|].
    replace (color_of (node d BLACK e p sib)) with BLACK by (by destruct d). apply wp_ret.
    destruct (plug_balanced (mk_frame d BLACK p sib :: ctx2) e RED n) as [k Hk]; [by econstructor|by constructor|].
    set (t1 := plug (mk_frame d BLACK p sib :: ctx2) e) in *. inversion Hk as [E|?|lr xr rr cl cr k0 Hlr Hrr E].
    + assert (elm ∈ elems t1) as Hin by (unfold t1; rewrite elems_plug; cbn; set_solver). rewrite <- E in Hin. by apply not_elem_of_nil in Hin.
    + eapply Hend; [exact B|by symmetry|]. exists (S k0). by econstructor.
Qed.

(** * Removal *)

(** A subtree that lacks one black node, unless its root is red. *)
Definition lacks (t : tree) (n : nat) : Prop :=
  match t with Node RED l x r => ∃ cl cr, rb l cl n ∧ rb r cr n | _ => rb t BLACK n end.
Definition lacking (ctx : list frame) (t : tree) : Prop := ∃ n, rb_ctx ctx BLACK (S n) ∧ lacks t n.

(** The rounds that are left. *)
Definition rounds (ctx : list frame) (t : tree) : nat := 2 * length ctx + match color_of t with RED => 0 | BLACK => 1 end.

(** The end of a round: a place with fewer rounds left, or a balanced tree. *)
Definition round_post (t : tree) (s : rb_state) (k : nat) (r : Z * Z + Z) (s' : rb_state) : Prop :=
  match r with
  | inl (p, e) => ∃ ctx u, becomes t s (plug ctx u) s' ∧ lacking ctx u ∧ p = up ctx ∧ e = ptr u ∧ (rounds ctx u < k)%nat
  | inr root => ∃ t', becomes t s t' s' ∧ balanced t' ∧ root = ptr t'
  end.

Lemma round_post_trans t s t1 s1 k r s2 : becomes t s t1 s1 → round_post t1 s1 k r s2 → round_post t s k r s2.
Proof.
  intros B. destruct r as [[p e]|root]; cbn.
  - intros (ctx & u & B1 & H). exists ctx, u. split; [by eapply becomes_trans|exact H].
  - intros (t' & B1 & H). exists t'. split; [by eapply becomes_trans|exact H].
Qed.

Lemma wp_recolor_if s t (Ht : is_tree s t) ctx c' u u' (Q : unit → rb_state → Prop) : t = plug ctx u →
  u' = match u with Leaf => Leaf | Node _ l x r => Node c' l x r end →
  (∀ s', becomes t s (plug ctx u') s' → Q tt s') → wp (set_color_if (ptr u) (color_val c')) s Q.
Proof.
  intros Et -> HQ. unfold set_color_if. destruct u as [|c l x r]; cbn [ptr].
  - apply wp_ret, HQ. rewrite <- Et. by apply becomes_refl.
  - rewrite (proj2 (Z.eqb_neq x NULL)); [|by eapply (node_not_null s t Ht ctx LEFT)]. eapply (wp_recolor s t Ht ctx LEFT); done.
Qed.

Lemma wp_both_black s t (Ht : is_tree s t) ctx d c a x b Q : t = plug ctx (node d c a x b) →
  Q (match color_of a, color_of b with BLACK, BLACK => true | _, _ => false end) s → wp (both_black x) s Q.
Proof.
  intros Et HQ. assert (∃ l r, node d c a x b = Node c l x r ∧
    Q (match color_of l, color_of r with BLACK, BLACK => true | _, _ => false end) s) as (l & r & En & HQ').
  { destruct d; [by exists a, b|exists b, a; split; [done|]]. by destruct (color_of a), (color_of b). }
  rewrite En in Et. unfold both_black. apply wp_bind. eapply (wp_child_at s t Ht ctx LEFT); [done|].
  apply wp_bind. eapply (wp_is_black_at s t Ht (mk_frame LEFT c x r :: ctx)); [done|]. destruct (color_of l); [by apply wp_ret|].
  apply wp_bind. eapply (wp_child_at s t Ht ctx RIGHT c r x l); [done|]. eapply (wp_is_black_at s t Ht (mk_frame RIGHT c x l :: ctx)); [done|]. by destruct (color_of r).
Qed.

(** The sibling's outer child is red: one rotation ends the loop. *)
Lemma remove_last_ok s t d cp p u sa w sb ctx n ca : is_tree s t →
  t = plug ctx (node d cp u p (node d BLACK sa w sb)) → rb u BLACK n → rb sa ca n → rb sb RED n →
  rb_ctx ctx cp (match cp with RED => S n | BLACK => S (S n) end) → ∀ k,
  wp (remove_last d p w) s (round_post t s k).
Proof.
  intros Ht Et Hu Ha Hb Hc k. unfold remove_last.
  apply wp_bind. eapply (wp_color_at s t Ht ctx d cp); [done|].
  apply wp_bind. eapply (wp_recolor s t Ht (mk_frame (opp d) cp p u :: ctx) d BLACK cp sa w sb); [place|]. unplace. intros s1 B1.
  apply wp_bind. change RB_BLACK with (color_val BLACK). eapply (wp_recolor s1 _ (b_tree _ _ _ _ B1) ctx d cp BLACK); [done|]. intros s2 B2.
  apply wp_bind. eapply (wp_child_at s2 _ (b_tree _ _ _ _ B2) (mk_frame (opp d) BLACK p u :: ctx) (opp d) cp sb w sa); [place|].
  destruct sb as [|cb bl xb br]; [by inversion Hb|].
  apply wp_bind. eapply (wp_recolor_if s2 _ (b_tree _ _ _ _ B2) (mk_frame (opp d) cp w sa :: mk_frame (opp d) BLACK p u :: ctx) BLACK); [place|reflexivity|]. unplace. intros s3 B3.
  apply wp_bind. eapply (wp_rotate_at s3 _ (b_tree _ _ _ _ B3) ctx d BLACK cp u p sa w (Node BLACK bl xb br)); [reflexivity|reflexivity|]. intros s4 B4.
  apply wp_bind. eapply wp_root; [exact (b_tree _ _ _ _ B4)|]. apply wp_ret.
  eexists. split_and!; [eapply becomes_trans; [eapply becomes_trans; [eapply becomes_trans; [exact B1|exact B2]|exact B3]|exact B4]| |done].
  apply (plug_balanced _ _ _ _ Hc). assert (rb (Node BLACK bl xb br) BLACK (S n)) as Hb' by (inversion Hb; subst; by econstructor).
  assert (rb (node d BLACK u p sa) BLACK (S n)) as Hp by (by eapply rb_node_black).
  destruct cp; [by apply rb_node_red|by eapply rb_node_black].
Qed.

(** The height at a place below a node of colour [c] that needs [n]. *)
Definition above (c : color) (n : nat) : nat := match c with RED => n | BLACK => S n end.

Lemma rb_black_color t c n : rb t c n → color_of t = c.
Proof. by inversion 1. Qed.

(** The round with a black sibling. *)
Lemma remove_black_ok s t d cp p u sa w sb ctx n ca cb k : is_tree s t →
  t = plug ctx (node d cp u p (node d BLACK sa w sb)) → rb u BLACK n → rb sa ca n → rb sb cb n →
  rb_ctx ctx cp (above cp (S n)) → (2 * length ctx + match cp with RED => 0 | BLACK => 1 end < k)%nat →
  wp (remove_black d p w) s (round_post t s k).
Proof.
  intros Ht Et Hu Ha Hb Hc Hk. unfold remove_black.
  apply wp_bind. eapply (wp_both_black s t Ht (mk_frame (opp d) cp p u :: ctx) d BLACK sa w sb); [place|].
  rewrite (rb_black_color _ _ _ Ha), (rb_black_color _ _ _ Hb). destruct cb.
  - (* the outer child is red *)
    replace (match ca with RED | _ => false end) with false by (by destruct ca).
    apply wp_bind. eapply (wp_child_at s t Ht (mk_frame (opp d) cp p u :: ctx) (opp d) BLACK sb w sa); [place|].
    apply wp_bind. eapply (wp_is_black_at s t Ht (mk_frame (opp d) BLACK w sa :: mk_frame (opp d) cp p u :: ctx)); [place|].
    rewrite (rb_black_color _ _ _ Hb). apply wp_bind, wp_ret. by eapply remove_last_ok.
  - destruct ca.
    + (* only the inner child is red: a rotation makes it the sibling *)
      apply wp_bind. eapply (wp_child_at s t Ht (mk_frame (opp d) cp p u :: ctx) (opp d) BLACK sb w sa); [place|].
      apply wp_bind. eapply (wp_is_black_at s t Ht (mk_frame (opp d) BLACK w sa :: mk_frame (opp d) cp p u :: ctx)); [place|].
      rewrite (rb_black_color _ _ _ Hb). apply wp_bind, wp_bind.
      eapply (wp_child_at s t Ht (mk_frame (opp d) cp p u :: ctx) d BLACK sa w sb); [place|].
      assert (∃ sc v sd, sa = node d RED sc v sd ∧ rb sc BLACK n ∧ rb sd BLACK n) as (sc & v & sd & -> & Hsc & Hsd).
      { inversion Ha; subst. destruct d; [by exists l, x, r|by exists r, x, l]. }
      change RB_BLACK with (color_val BLACK). change RB_RED with (color_val RED). apply wp_bind.
      eapply (wp_recolor_if s t Ht (mk_frame d BLACK w sb :: mk_frame (opp d) cp p u :: ctx) BLACK _ (node d BLACK sc v sd)); [place|by destruct d|]. unplace. intros s1 B1.
      apply wp_bind. eapply (wp_recolor s1 _ (b_tree _ _ _ _ B1) (mk_frame (opp d) cp p u :: ctx) d BLACK RED (node d BLACK sc v sd) w sb); [place|]. unplace. intros s2 B2.
      apply wp_bind. eapply (wp_rotate_at s2 _ (b_tree _ _ _ _ B2) (mk_frame (opp d) cp p u :: ctx) (opp d) RED BLACK sb w sd v sc); [place|reflexivity|]. unplace. intros s3 B3.
      eapply (wp_child_at s3 _ (b_tree _ _ _ _ B3) ctx (opp d) cp _ p u); [by rewrite node_opp|]. rewrite ptr_node.
      eapply wp_mono; [eapply (remove_last_ok s3 _ d cp p u sc v (node d RED sd w sb)); [exact (b_tree _ _ _ _ B3)|reflexivity|done..|by apply rb_node_red|done]|].
      assert (becomes t s _ s3) as B by (eapply becomes_trans; [eapply becomes_trans; [exact B1|exact B2]|exact B3]).
      intros r s4. by apply round_post_trans.
    + (* both are black: the lack moves to the parent *)
      change RB_RED with (color_val RED). apply wp_bind. eapply (wp_recolor s t Ht (mk_frame (opp d) cp p u :: ctx) d BLACK RED sa w sb); [place|]. unplace. intros s1 B1.
      apply wp_bind. eapply (wp_parent_at s1 _ (b_tree _ _ _ _ B1) ctx d cp); [reflexivity|]. apply wp_ret.
      assert (rb (node d RED sa w sb) RED n) as Hr by (by apply rb_node_red).
      exists ctx, (node d cp u p (node d RED sa w sb)). rewrite ptr_node. split_and!; [done| |done|done|].
      * destruct cp; cbn [above] in Hc.
        -- exists n. split; [by apply ctx_weaken|]. destruct d; cbn; eauto.
        -- exists (S n). split; [done|]. assert (rb (node d BLACK u p (node d RED sa w sb)) BLACK (S n)) as H by (by eapply rb_node_black). by destruct d.
      * unfold rounds. by destruct d, cp; cbn in *; lia.
Qed.

(** One round below a node of colour [cp]. *)
Lemma remove_fix_ok s t d cp p u sib cs ctx n : is_tree s t →
  t = plug ctx (node d cp u p sib) → rb u BLACK n → rb sib cs (S n) → (cp = RED → cs = BLACK) → rb_ctx ctx cp (above cp (S n)) →
  wp (remove_fix d p) s (round_post t s (2 * length ctx + 3)).
Proof.
  intros Ht Et Hu Hs Hcs Hc. destruct (rb_height_node d _ _ _ Hs) as (sa & w & sb & ->). unfold remove_fix.
  apply wp_bind. eapply (wp_child_at s t Ht ctx (opp d) cp _ p u); [by rewrite node_opp|]. rewrite ptr_node.
  apply wp_bind. eapply (wp_color_at s t Ht (mk_frame (opp d) cp p u :: ctx) d cs sa w sb); [place|].
  apply rb_node_inv in Hs as [_ Hs]. apply wp_bind. destruct cs.
  - destruct cp; [by specialize (Hcs eq_refl)|]. destruct Hs as [Ha Hb]. change (color_val RED =? RB_RED) with true. cbv iota. apply wp_bind.
    eapply (wp_blackred s t ctx (opp d) RED BLACK sa sb w u p d); [done|place|]. rewrite node_opp. intros s1 B1.
    apply wp_bind. eapply (wp_rotate_at s1 _ (b_tree _ _ _ _ B1) ctx d RED BLACK u p sa w sb); [done|reflexivity|]. intros s2 B2.
    eapply (wp_child_at s2 _ (b_tree _ _ _ _ B2) (mk_frame d BLACK w sb :: ctx) (opp d) RED sa p u); [place|].
    destruct (rb_height_node d _ _ _ Ha) as (ta & v & tb & ->). rewrite ptr_node. apply rb_node_inv in Ha as [_ (m & ca & cb & [= <-] & Hta & Htb)].
    eapply wp_mono; [eapply (remove_black_ok s2 _ d RED p u ta v tb (mk_frame d BLACK w sb :: ctx) n ca cb (2 * length ctx + 3));
      [exact (b_tree _ _ _ _ B2)|place|done|done|done|by econstructor|cbn [length]; lia]|].
    intros r s3. apply round_post_trans. by eapply becomes_trans.
  - destruct Hs as (m & ca & cb & [= <-] & Ha & Hb). change (color_val BLACK =? RB_RED) with false. cbv iota. apply wp_ret.
    eapply (remove_black_ok s t d cp p u sa w sb ctx n ca cb); try done. destruct cp; lia.
Qed.

(** The end of the loop makes the last element black. *)
Lemma remove_end_ok t s t1 s1 ctx u : becomes t s t1 s1 → t1 = plug ctx u → balanced (plug ctx (match u with Leaf => Leaf | Node _ l x r => Node BLACK l x r end)) →
  wp (set_color_if (ptr u) RB_BLACK) s1 (λ _ s', ∃ t', becomes t s t' s' ∧ balanced t').
Proof.
  intros B Et Hb. change RB_BLACK with (color_val BLACK). eapply (wp_recolor_if s1 _ (b_tree _ _ _ _ B) ctx BLACK u); [done|reflexivity|].
  intros s2 B2. eexists. split; [by eapply becomes_trans|done].
Qed.

Lemma root_around s f ctx u : is_tree s (plug (f :: ctx) u) → ptr u ≠ ptr (plug (f :: ctx) u).
Proof.
  intros Ht E. assert (∀ ctx t, ctx ≠ [] → ptr (plug ctx t) ∈ around ctx) as Hin.
  { clear. induction ctx as [|f ctx IH]; intros t Hne; [done|]. cbn. destruct ctx as [|g ctx]; [cbn; unfold close; rewrite ptr_node; set_solver|].
    apply elem_of_cons. right. apply elem_of_app. right. by apply IH. }
  specialize (Hin (f :: ctx) u ltac:(done)). rewrite <- E in Hin. apply is_tree_plug in Ht as (Hc & Hr & Hnd).
  destruct u as [|c l x r]; cbn [ptr] in *.
  - assert (∀ ctx p, rep_ctx (rb_nodes s) (rbh_root s) ctx p → NULL ∉ around ctx) as Hnull; [|by apply (Hnull _ _ Hc)].
    clear. assert (∀ t p, rep (rb_nodes s) p t → NULL ∉ elems t) as Ht.
    { induction t as [|c l IHl x r IHr]; intros p; cbn; [intros _; apply not_elem_of_nil|]. intros (H1 & _ & H2 & H3). apply IHl in H2. apply IHr in H3. set_solver. }
    induction ctx as [|f ctx IH]; intros p; cbn; [intros _; apply not_elem_of_nil|]. intros (H1 & _ & H2 & H3). apply Ht in H2. apply IH in H3. set_solver.
  - apply NoDup_parts in Hnd as (_ & _ & Hx). apply (Hx x Hin). cbn. set_solver.
Qed.

Lemma remove_color_ok s ctx u : is_tree s (plug ctx u) → lacking ctx u → Z.of_nat (rounds ctx u) < 2 ^ 64 →
  wp (RB_REMOVE_COLOR (up ctx) (ptr u)) s (λ _ s', ∃ t', becomes (plug ctx u) s t' s' ∧ balanced t').
Proof.
  intros Ht Hlk Hlen. unfold RB_REMOVE_COLOR. apply wp_bind. set (t := plug ctx u) in *.
  apply (wp_while _ (λ m '(p, e) s1, ∃ ctx1 u1, m = Z.of_nat (rounds ctx1 u1) ∧ becomes t s (plug ctx1 u1) s1 ∧ lacking ctx1 u1 ∧ p = up ctx1 ∧ e = ptr u1) _)
    with (n := Z.of_nat (rounds ctx u)); [|lia|].
  2: { exists ctx, u. split_and!; [done|by apply becomes_refl|done..]. }
  clear Hlk Hlen. intros m [p e] s1 _ (ctx1 & u1 & -> & B & (n & Hc & Hu) & -> & ->). unfold remove_color_round. pose proof (b_tree _ _ _ _ B) as Ht1.
  apply wp_bind. eapply (wp_is_black_at s1 _ Ht1 ctx1); [done|]. apply wp_bind. eapply wp_root; [exact Ht1|].
  assert (color_of u1 = BLACK → rb u1 BLACK n) as Hub by (by destruct u1 as [|[]]).
  destruct (color_of u1) eqn:Ecu; cbn [andb].
  { apply wp_ret. eapply remove_end_ok; [exact B|done|]. destruct u1 as [|[] l x r]; [done| |done]. destruct Hu as (cl & cr & Hl & Hr).
    eapply plug_balanced; [exact Hc|]. by econstructor. }
  specialize (Hub eq_refl). destruct ctx1 as [|[d cp p sib] ctx2].
  { cbn [plug]. rewrite Z.eqb_refl. cbn [negb]. apply wp_ret. eapply (remove_end_ok _ _ _ _ []); [exact B|done|]. exists n.
    destruct u1 as [|[] l x r]; [done|done|]. exact Hub. }
  rewrite (proj2 (Z.eqb_neq _ _) (root_around _ _ _ _ Ht1)). cbn [negb up f_ptr].
  assert (∃ cs, rb sib cs (S n) ∧ (cp = RED → cs = BLACK) ∧ rb_ctx ctx2 cp (above cp (S n))) as (cs & Hsib & Hcs & Hc2) by (inversion Hc; subst; by eexists; split_and!).
  destruct (rb_height_node LEFT _ _ _ Hsib) as (sl & w & sr & Esib).
  apply wp_bind. assert (∃ tl tr, node d cp u1 p sib = node LEFT cp tl p tr ∧ (if ptr tl =? ptr u1 then LEFT else RIGHT) = d) as (tl & tr & Etl & Hd).
  { destruct d; cbn [node]; eexists _, _; (split; [done|]); [by rewrite Z.eqb_refl|]. rewrite (proj2 (Z.eqb_neq _ _)); [done|]. apply not_eq_sym.
    eapply (ptr_apart s1 _ ctx2 LEFT cp sib p u1); [exact Ht1|done|by rewrite Esib]. }
  eapply (wp_child_at s1 _ Ht1 ctx2 LEFT cp tl p tr); [unplace; by rewrite Etl|]. rewrite Hd.
  eapply wp_mono; [eapply (remove_fix_ok s1 _ d cp p u1 sib cs ctx2 n); [exact Ht1|done..]|].
  intros [[p' e']|root] s2; cbn.
  - intros (ctx3 & u3 & B3 & Hl3 & -> & -> & Hr). exists (Z.of_nat (rounds ctx3 u3)). split; [unfold rounds in *; rewrite Ecu; cbn [length]; lia|].
    exists ctx3, u3. split_and!; [done|by eapply becomes_trans|done..].
  - intros (t' & B3 & [k Hk] & ->). eapply (remove_end_ok _ _ _ _ []); [eapply becomes_trans; [exact B|exact B3]|done|]. exists k. by inversion Hk; subst.
Qed.
