(* ===== verification/RbOps.v ===== *)
(** The operations of red-black trees on their sequence of elements: insertion,
    removal, search, neighbours and traversal. *)
From stdpp Require Import base tactics list gmap strings sorting.
From Stdlib Require Import ZArith Lia.
From S2P Require Import Prelude Rb RbTree RbInv.

(** The number of nodes fits, and so does every way through the tree. *)
Definition small (t : tree) : Prop := Z.of_nat (length (elems t)) < 2 ^ 62.

Lemma length_ctx ctx : (length ctx <= length (around ctx))%nat.
Proof. induction ctx as [|f ctx IH]; cbn; [done|]. rewrite length_app. lia. Qed.

Lemma small_ctx ctx t : small (plug ctx t) → Z.of_nat (length ctx) < 2 ^ 62 ∧ Z.of_nat (length (elems t)) < 2 ^ 62.
Proof. unfold small. rewrite elems_around, length_app. pose proof (length_ctx ctx). lia. Qed.

(** * The first and the last node of a subtree *)
Fixpoint extreme (d : side) (t : tree) : Z :=
  match t with
  | Leaf => NULL
  | Node _ l x r => match d with LEFT => match l with Leaf => x | _ => extreme d l end | RIGHT => match r with Leaf => x | _ => extreme d r end end
  end.

Lemma extreme_node d c a x b : extreme d (node d c a x b) = match a with Leaf => x | _ => extreme d a end.
Proof. by destruct d. Qed.

Lemma extreme_left t : extreme LEFT t = match elems t with [] => NULL | x :: _ => x end.
Proof. induction t as [|c l IHl x r _]; [done|]. cbn. destruct l as [|cl ll y lr]; [done|]. rewrite IHl. cbn. by destruct (elems ll). Qed.
Lemma extreme_right t : extreme RIGHT t = match last (elems t) with None => NULL | Some x => x end.
Proof.
  induction t as [|c l _ x r IHr]; [done|]. cbn. rewrite last_app, last_cons. destruct r as [|cr rl y rr]; [done|]. rewrite IHr.
  cbn. rewrite last_app, last_cons. by destruct (last (elems rr)).
Qed.

Lemma extreme_place d t : t ≠ Leaf → ∃ ctx c b, t = plug ctx (node d c Leaf (extreme d t) b) ∧ Forall (λ f, f_side f = d) ctx.
Proof.
  induction t as [|c l IHl x r IHr]; [done|]. intros _.
  assert (∃ a b, Node c l x r = node d c a x b ∧ (a ≠ Leaf → ∃ ctx c b, a = plug ctx (node d c Leaf (extreme d a) b) ∧ Forall (λ f, f_side f = d) ctx)) as (a & b & E & IH).
  { destruct d; [by exists l, r|by exists r, l]. }
  rewrite E, extreme_node. destruct a as [|ca al y ar]; [by exists [], c, b|]. destruct IH as (ctx & c' & b' & Ea & Hf); [done|].
  exists (ctx ++ [mk_frame d c x b]), c', b'. rewrite plug_app, <- Ea. split; [done|]. apply Forall_app. by repeat constructor.
Qed.

Lemma wp_last_on s t d ctx u (Q : Z → rb_state → Prop) : is_tree s t → small t → t = plug ctx u → u ≠ Leaf → Q (extreme d u) s → wp (last_on d (ptr u)) s Q.
Proof.
  intros Ht Hsm Et Hu HQ. unfold last_on.
  apply (wp_while _ (λ m e s1, ∃ ctx1 u1, m = Z.of_nat (length (elems u1)) ∧ s1 = s ∧ t = plug ctx1 u1 ∧ u1 ≠ Leaf ∧ e = ptr u1 ∧ extreme d u1 = extreme d u) Q) with (n := Z.of_nat (length (elems u))).
  - clear Et Hu. intros m e s1 _ (ctx1 & u1 & -> & -> & Et & Hu & -> & Ex).
    destruct (tree_node d u1) as [->|(c & a & x & b & ->)]; [done|]. rewrite ptr_node, extreme_node in *.
    apply wp_bind. eapply (wp_child_at s t Ht ctx1 d); [done|]. destruct a as [|ca al y ar]; cbn [ptr]; [apply wp_ret; by rewrite Ex|].
    rewrite (proj2 (Z.eqb_neq y NULL)); [|by eapply (node_not_null s t Ht (mk_frame d c x b :: ctx1) LEFT)]. apply wp_ret.
    exists (Z.of_nat (length (elems (Node ca al y ar)))). split.
    + rewrite elems_node. rewrite length_cons, length_app. lia.
    + by exists (mk_frame d c x b :: ctx1), (Node ca al y ar).
  - subst t. apply small_ctx in Hsm. lia.
  - by exists ctx, u.
Qed.

(** * Removal *)

(** The colours after a node of colour [c] is gone. *)
Lemma remove_finish s ctx u c cu m : is_tree s (plug ctx u) → small (plug ctx u) → rb u cu m → (c = RED → cu = BLACK) → rb_ctx ctx c (above c m) →
  wp (if color_val c =? RB_BLACK then RB_REMOVE_COLOR (up ctx) (ptr u) else ret tt) s (λ _ s', ∃ t', becomes (plug ctx u) s t' s' ∧ balanced t').
Proof.
  intros Ht Hsm Hu Hcu Hc. destruct c; cbn [color_val above] in *.
  - change (RB_RED =? RB_BLACK) with false. cbv iota. apply wp_ret. exists (plug ctx u). split; [by apply becomes_refl|].
    rewrite (Hcu eq_refl) in Hu. eapply plug_balanced; [by apply ctx_weaken|done].
  - change (RB_BLACK =? RB_BLACK) with true. cbv iota. apply small_ctx in Hsm as [Hsm _]. apply remove_color_ok; [done| |unfold rounds; destruct (color_of u); lia].
    exists m. split; [done|]. inversion Hu; subst; cbn; eauto.
Qed.

(** What removal leaves of the elements. *)
Definition removed (t : tree) (x : Z) (s : rb_state) (s' : rb_state) : Prop :=
  ∃ t' l1 l2, elems t = l1 ++ x :: l2 ∧ elems t' = l1 ++ l2 ∧ is_tree s' t' ∧ balanced t' ∧ keeps (elems t) s s'.

(** A node with at most one subtree. *)
Lemma remove_one_ok s t ctx d c u x cu m : is_tree s t → small t → t = plug ctx (node d c u x Leaf) → rb u cu m → (c = RED → cu = BLACK) → rb_ctx ctx c (above c m) →
  wp (unlink x (ptr u)) s (λ pc s1, wp (if pc.2 =? RB_BLACK then RB_REMOVE_COLOR pc.1 (ptr u) else ret tt) s1 (λ _ s', removed t x s s')).
Proof.
  intros Ht Hsm -> Hu Hcu Hc. eapply wp_unlink; [exact Ht|]. intros s1 Ht1 K1. cbn [fst snd].
  assert (elems (plug ctx (node d c u x Leaf)) = before ctx ++ (match d with LEFT => elems u | RIGHT => [] end) ++ x :: (match d with LEFT => [] | RIGHT => elems u end) ++ after ctx ∧
    elems (plug ctx u) = (before ctx ++ (match d with LEFT => elems u | RIGHT => [] end)) ++ (match d with LEFT => [] | RIGHT => elems u end) ++ after ctx) as [E1 E2].
  { rewrite !elems_plug. destruct d; cbn; by rewrite <- ?app_assoc, ?app_nil_r. }
  eapply wp_mono; [eapply (remove_finish s1 ctx u c cu m); try done|].
  { unfold small in *. rewrite E1 in Hsm. rewrite E2. rewrite !length_app in *. cbn [length] in Hsm. rewrite length_app in Hsm. lia. }
  intros _ s2 (t' & [T2 E K2] & Hb). exists t', (before ctx ++ match d with LEFT => elems u | RIGHT => [] end), (match d with LEFT => [] | RIGHT => elems u end ++ after ctx).
  split_and!; [rewrite E1; by rewrite <- app_assoc|by rewrite E, E2|done|done|].
  eapply agree_trans; eapply agree_mono; [|exact K1| |exact K2]; intros z; rewrite elems_around, ?elems_around, elems_node; set_solver.
Qed.

Lemma rb_ctx_ptr ctx1 d c x y u ctx2 c0 n : rb_ctx (ctx1 ++ mk_frame d c x u :: ctx2) c0 n → rb_ctx (ctx1 ++ mk_frame d c y u :: ctx2) c0 n.
Proof.
  revert c0 n. induction ctx1 as [|f ctx1 IH]; intros c0 n; cbn; inversion 1; subst; try (econstructor; eauto; fail).
Qed.

Lemma left_before ctx : Forall (λ f, f_side f = LEFT) ctx → before ctx = [].
Proof. induction 1 as [|f ctx Hf _ IH]; [done|]. cbn. by rewrite IH, Hf. Qed.

Lemma up_app ctx f ctx' : up (ctx ++ f :: ctx') = match ctx with [] => f_ptr f | g :: _ => f_ptr g end.
Proof. by destruct ctx. Qed.

(** A node with two subtrees gives its place to its successor. *)
Lemma remove_two_ok s t ctx c l x r : is_tree s t → small t → balanced t → t = plug ctx (Node c l x r) → l ≠ Leaf → r ≠ Leaf →
  wp (let* elm := last_on LEFT (ptr r) in
      let* child := RB_RIGHT elm in
      let* pc := unlink elm child in
      let* p := RB_PARENT elm in
      let parent := if p =? x then elm else pc.1 in
      take_place elm x ;;;
      ret (child, (parent, pc.2))) s
    (λ y s1, wp (if y.2.2 =? RB_BLACK then RB_REMOVE_COLOR y.2.1 y.1 else ret tt) s1 (λ _ s', removed t x s s')).
Proof.
  intros Ht Hsm Hbal Et Hl Hr. destruct (extreme_place LEFT r Hr) as (lctx & c1 & r1 & Er & Hlc). set (y := extreme LEFT r) in *.
  apply wp_bind. eapply (wp_last_on s t LEFT (mk_frame RIGHT c x l :: ctx) r); [done|done|done|done|]. fold y.
  set (ctx1 := lctx ++ mk_frame RIGHT c x l :: ctx). assert (t = plug ctx1 (node RIGHT c1 r1 y Leaf)) as Et1.
  { unfold ctx1. rewrite plug_app. change (node RIGHT c1 r1 y Leaf) with (node LEFT c1 Leaf y r1). rewrite <- Er. exact Et. }
  pose proof (proj1 (is_tree_plug s ctx1 _) (eq_ind _ (is_tree s) Ht _ Et1)) as (Hrc & _ & Hnd).
  assert (y ∉ around ctx1 ++ elems r1) as Hy.
  { rewrite elems_node in Hnd. cbn [elems] in Hnd. rewrite app_nil_r in Hnd. apply NoDup_parts in Hnd as (_ & [N1 _]%NoDup_cons & N2). intros [H|H]%elem_of_app; [|done]. apply (N2 y H). set_solver. }
  pose proof (node_not_null s t Ht ctx1 RIGHT c1 r1 y Leaf Et1) as Hy0.
  apply wp_bind. eapply (wp_child_at s t Ht ctx1 RIGHT); [done|].
  apply wp_bind. rewrite Et1 in Ht. eapply (wp_unlink s ctx1 RIGHT); [exact Ht|]. intros s1 Ht1 K1.
  pose proof (tree_entry _ _ _ _ _ _ _ Ht) as [_ He]. assert (rb_nodes s1 !! y = Some (entry RIGHT (ptr r1) (ptr Leaf) (up ctx1) c1)) as He1 by (by rewrite K1).
  apply wp_bind. eapply wp_parent; [exact He1|]. rewrite parent_entry. cbn [fst snd].
  set (ctx2 := lctx ++ mk_frame RIGHT c y l :: ctx). assert ((if up ctx1 =? x then y else up ctx1) = up ctx2) as Hup.
  { unfold ctx1, ctx2. rewrite !up_app. destruct lctx as [|g lctx]; cbn [f_ptr]; [by rewrite Z.eqb_refl|].
    rewrite (proj2 (Z.eqb_neq _ _)); [done|]. intros E. apply NoDup_parts in Hnd as (Hnd & _). cbn in Hnd. apply NoDup_cons in Hnd as [H _]. apply H. rewrite E.
    apply elem_of_app. right. clear. induction lctx as [|h lctx IH]; cbn; [set_solver|]. apply elem_of_cons. right. apply elem_of_app. by right. }
  rewrite Hup. assert (plug ctx1 r1 = plug ctx (Node c l x (plug lctx r1))) as Eq1 by (unfold ctx1; by rewrite plug_app).
  assert (plug ctx2 r1 = plug ctx (Node c l y (plug lctx r1))) as Eq2 by (unfold ctx2; by rewrite plug_app).
  apply wp_bind. eapply (wp_take_place s1 ctx c l x (plug lctx r1) y); [by rewrite <- Eq1|done|done| |exact He1|].
  { rewrite <- Eq1. by rewrite elems_around. }
  rewrite <- Eq1, <- Eq2. intros s2 Ht2 K2. apply wp_ret. cbn [fst snd].
  assert (elems t = (before ctx ++ elems l) ++ x :: y :: elems r1 ++ after lctx ++ after ctx) as E1.
  { rewrite Et, elems_plug. cbn [elems]. rewrite (f_equal elems Er), elems_plug, (left_before lctx Hlc). cbn. rewrite <- !app_assoc. cbn. by rewrite <- ?app_assoc. }
  assert (elems (plug ctx2 r1) = (before ctx ++ elems l) ++ y :: elems r1 ++ after lctx ++ after ctx) as E2.
  { rewrite Eq2, elems_plug. cbn [elems]. rewrite elems_plug, (left_before lctx Hlc). cbn. rewrite <- !app_assoc. cbn. by rewrite <- ?app_assoc. }
  rewrite Et1 in Hbal. apply unplug_balanced in Hbal as (c0 & n & Hy1 & Hc). apply rb_node_inv in Hy1 as [-> Hy1].
  assert (∃ cu m, rb r1 cu m ∧ (c1 = RED → cu = BLACK) ∧ rb_ctx ctx2 c1 (above c1 m)) as (cu & m & Hr1 & Hcu & Hc2).
  { apply rb_ctx_ptr with (y := y) in Hc. destruct c1; [destruct Hy1 as [H _]; by exists BLACK, n|destruct Hy1 as (m & cl & cr & -> & H & _); by exists cl, m]. }
  eapply wp_mono; [eapply (remove_finish s2 ctx2 r1 c1 cu m); try done|].
  { unfold small in *. rewrite E2. rewrite E1 in Hsm. rewrite !length_app in *. cbn [length] in *. rewrite !length_app in *. lia. }
  intros _ s3 (t' & [T3 E3 K3] & Hb). exists t', (before ctx ++ elems l), (y :: elems r1 ++ after lctx ++ after ctx).
  split_and!; [done|by rewrite E3|done|done|].
  eapply agree_trans; [eapply agree_mono; [|exact K1]|eapply agree_trans; eapply agree_mono; [|exact K2| |exact K3]]; intros z.
  - rewrite Et1, elems_around, elems_node. set_solver.
  - rewrite Et1, !elems_around, elems_node. set_solver.
  - rewrite E1, E2. set_solver.
Qed.

Lemma remove_ok s t x : is_tree s t → small t → balanced t → x ∈ elems t → wp (RB_REMOVE x) s (λ r s', r = x ∧ removed t x s s').
Proof.
  intros Ht Hsm Hbal Hx. destruct (find_node x t Hx) as (ctx & c & l & r & Et). unfold RB_REMOVE.
  apply wp_bind. eapply (wp_child_at s t Ht ctx LEFT c l x r); [done|]. apply wp_bind. eapply (wp_child_at s t Ht ctx RIGHT c r x l); [done|].
  assert (∀ d u, Node c l x r = node d c u x Leaf → wp (let* pc := unlink x (ptr u) in ret (ptr u, pc)) s (λ y s1,
    wp ((if y.2.2 =? RB_BLACK then RB_REMOVE_COLOR y.2.1 y.1 else ret tt) ;;; ret x) s1 (λ r0 s', r0 = x ∧ removed t x s s'))) as Hone.
  { intros d u E. rewrite Et in Hbal. apply unplug_balanced in Hbal as (c0 & n & Hn & Hc). rewrite E in Hn. apply rb_node_inv in Hn as [-> Hn].
    assert (∃ cu m, rb u cu m ∧ (c = RED → cu = BLACK) ∧ rb_ctx ctx c (above c m)) as (cu & m & Hu & Hcu & Hc2).
    { destruct c; [destruct Hn as [H _]; by exists BLACK, n|destruct Hn as (m & cl & cr & -> & H & _); by exists cl, m]. }
    rewrite E in Et. apply wp_bind. eapply wp_mono; [by eapply remove_one_ok|]. intros pc s1 Hw. apply wp_ret. cbn [fst snd].
    apply wp_bind. eapply wp_mono; [exact Hw|]. intros [] s2 Hrem. apply wp_ret. done. }
  apply wp_bind. destruct l as [|cl ll xl lr]; [by apply (Hone RIGHT r)|]. destruct r as [|cr rl xr rr].
  - cbn [ptr]. rewrite orb_true_r. rewrite (proj2 (Z.eqb_neq xl NULL)); [|by eapply (node_not_null s t Ht (mk_frame LEFT c x Leaf :: ctx) LEFT)].
    by apply (Hone LEFT (Node cl ll xl lr)).
  - rewrite (proj2 (Z.eqb_neq (ptr (Node cl ll xl lr)) NULL)) by (by apply (node_not_null s t Ht (mk_frame LEFT c x (Node cr rl xr rr) :: ctx) LEFT cl ll xl lr)).
    rewrite (proj2 (Z.eqb_neq (ptr (Node cr rl xr rr)) NULL)) by (by apply (node_not_null s t Ht (mk_frame RIGHT c x (Node cl ll xl lr) :: ctx) LEFT cr rl xr rr)). cbn [orb].
    eapply wp_mono; [by eapply (remove_two_ok s t ctx c)|]. intros y s1 Hw. apply wp_bind. eapply wp_mono; [exact Hw|]. intros [] s2 Hrem. by apply wp_ret.
Qed.

(** * Searching and inserting *)

Lemma bind_assoc {S A B C} (m : M S A) (f : A → M S B) (g : B → M S C) s : bind (bind m f) g s = bind m (λ a, bind (f a) g) s.
Proof. unfold bind. by destruct (m s) as [[a s']| |]. Qed.

Section search.
Context (cmp : Z → Z → Z) (elm : Z).

(** Along the elements the comparison falls from greater over equal to less. *)
Definition descending (l : list Z) : Prop := StronglySorted (λ a b, Z.sgn (cmp elm b) <= Z.sgn (cmp elm a)) l.
Definition greater (l : list Z) : Prop := Forall (λ x, 0 < cmp elm x) l.
Definition less (l : list Z) : Prop := Forall (λ x, cmp elm x < 0) l.

Lemma descending_app l1 l2 : descending (l1 ++ l2) → descending l1 ∧ descending l2 ∧ ∀ a b, a ∈ l1 → b ∈ l2 → Z.sgn (cmp elm b) <= Z.sgn (cmp elm a).
Proof.
  induction l1 as [|x l1 IH]; cbn; [intros H; split_and!; [constructor|done|by intros a b ?%not_elem_of_nil]|].
  intros [H1 H2]%StronglySorted_inv. destruct (IH H1) as (H3 & H4 & H5). rewrite Forall_forall in H2. split_and!; [|done|].
  - constructor; [done|]. rewrite Forall_forall. intros z Hz. apply H2. set_solver.
  - intros a b [->|Ha]%elem_of_cons Hb; [|by apply H5]. apply H2. set_solver.
Qed.

Lemma descending_less l1 x l2 : descending (l1 ++ x :: l2) → cmp elm x < 0 → less (x :: l2).
Proof.
  intros (_ & H & _)%descending_app Hx. apply StronglySorted_inv in H as [_ H]. constructor; [done|]. eapply Forall_impl; [exact H|]. cbn. intros z Hz. lia.
Qed.
Lemma descending_greater l1 x l2 : descending (l1 ++ x :: l2) → 0 < cmp elm x → greater (l1 ++ [x]).
Proof.
  intros (_ & _ & H)%descending_app Hx. unfold greater. rewrite Forall_app. split; [|by constructor]. rewrite Forall_forall. intros z Hz. specialize (H z x Hz ltac:(set_solver)). lia.
Qed.

(** A place at which everything before is smaller and everything behind
    greater. *)
Definition found_place (t : tree) (ctx : list frame) (u : tree) : Prop := t = plug ctx u ∧ greater (before ctx) ∧ less (after ctx).

Lemma place_left t ctx c l x r : descending (elems t) → found_place t ctx (Node c l x r) → cmp elm x < 0 → found_place t (mk_frame LEFT c x r :: ctx) l.
Proof.
  intros Hd (-> & H1 & H2) Hx. rewrite elems_plug in Hd. cbn [elems] in Hd. split_and!; [done|cbn; by rewrite app_nil_r|].
  cbn. rewrite <- app_assoc, app_assoc in Hd. by apply descending_less in Hd.
Qed.
Lemma place_right t ctx c l x r : descending (elems t) → found_place t ctx (Node c l x r) → 0 < cmp elm x → found_place t (mk_frame RIGHT c x l :: ctx) r.
Proof.
  intros Hd (-> & H1 & H2) Hx. rewrite elems_plug in Hd. cbn [elems] in Hd. split_and!; [done| |done].
  cbn. rewrite <- app_assoc, app_assoc in Hd. apply descending_greater in Hd; [|done]. by rewrite app_assoc.
Qed.

(** What insertion makes of the elements. *)
Definition inserted (t : tree) (s : rb_state) (s' : rb_state) : Prop :=
  ∃ t' l1 l2, elems t = l1 ++ l2 ∧ greater l1 ∧ less l2 ∧ elems t' = l1 ++ elm :: l2 ∧ is_tree s' t' ∧ balanced t' ∧ keeps (elm :: elems t) s s'.

Lemma insert_at_ok s t ctx comp e0 : is_tree s t → small t → balanced t → found_place t ctx Leaf → elm ≠ NULL → elm ∉ elems t → rb_nodes s !! elm = Some e0 →
  match ctx with [] => True | f :: _ => f_side f = if comp <? 0 then LEFT else RIGHT end →
  wp (RB_SET elm (up ctx) ;;;
      (if negb (up ctx =? NULL) then set_child (if comp <? 0 then LEFT else RIGHT) (up ctx) elm else set_root elm) ;;;
      RB_INSERT_COLOR elm ;;; ret NULL) s (λ r s', r = NULL ∧ inserted t s s').
Proof.
  intros Ht Hsm Hbal (-> & Hg & Hl) H0 Hn He Hside.
  assert (elems (plug ctx Leaf) = before ctx ++ after ctx) as E by (by rewrite elems_plug).
  assert (∀ z, z ∈ elems (plug ctx Leaf) ↔ z ∈ around ctx) as Ez by (intros z; by rewrite elems_around, app_nil_r).
  eapply wp_ext; [symmetry; apply bind_assoc|]. apply wp_bind. eapply (wp_link s ctx elm comp e0); [done|done|by rewrite <- Ez|done|done|]. intros s1 Ht1 K1.
  apply unplug_balanced in Hbal as (c & n & Hr & Hc). inversion Hr; subst.
  apply wp_bind. eapply wp_mono; [eapply (insert_color_ok s1 ctx Leaf elm Leaf); [done|exists 0%nat; repeat split; (constructor || done)|apply small_ctx in Hsm; lia]|].
  intros [] s2 (t' & [T2 E2 K2] & Hb). apply wp_ret. split; [done|]. exists t', (before ctx), (after ctx). split_and!; try done.
  - rewrite E2, elems_plug. done.
  - eapply agree_trans; [eapply agree_mono; [|exact K1]|eapply agree_mono; [|exact K2]]; intros z.
    + rewrite !elem_of_cons, Ez. done.
    + rewrite elems_plug, E. cbn. set_solver.
Qed.

(** The next node of a descent is not null, unless the subtree is empty. *)
Lemma wp_descend s t ctx c l x r d (Q : Z → rb_state → Prop) : is_tree s t → t = plug ctx (Node c l x r) →
  Q (ptr (match d with LEFT => l | RIGHT => r end)) s → wp (child d x) s Q.
Proof.
  intros Ht Et HQ. destruct d; [by eapply (wp_child_at s t Ht ctx LEFT c l x r)|by eapply (wp_child_at s t Ht ctx RIGHT c r x l)].
Qed.

Lemma less_node c l x r : (length (elems l) < length (elems (Node c l x r)))%nat ∧ (length (elems r) < length (elems (Node c l x r)))%nat.
Proof. cbn. rewrite length_app. cbn. lia. Qed.

(** One step of a descent, into the subtree [u] beside [v]. *)
Ltac descend s t ctx c l x r d u v :=
  apply wp_bind; eapply (wp_descend s t ctx c l x r d); [done|done|]; apply wp_ret; exists (Z.of_nat (length (elems u))); split; [lia|];
  exists (mk_frame d c x v :: ctx), u; split_and!; try done.

Lemma insert_ok s t e0 : is_tree s t → small t → balanced t → descending (elems t) → elm ≠ NULL → elm ∉ elems t → rb_nodes s !! elm = Some e0 →
  wp (RB_INSERT cmp elm) s (λ r s', r = NULL ∧ inserted t s s' ∨ r ∈ elems t ∧ cmp elm r = 0 ∧ s' = s).
Proof.
  intros Ht Hsm Hbal Hd H0 Hn He. unfold RB_INSERT. apply wp_bind. eapply wp_root; [exact Ht|]. apply wp_bind.
  apply (wp_while _ (λ m '(tmp, parent, comp) s1, ∃ ctx u, m = Z.of_nat (length (elems u)) ∧ s1 = s ∧ found_place t ctx u ∧ tmp = ptr u ∧ parent = up ctx ∧
    match ctx with [] => True | f :: _ => f_side f = if comp <? 0 then LEFT else RIGHT end) _) with (n := Z.of_nat (length (elems t))).
  - intros m [[tmp parent] comp] s1 _ (ctx & u & -> & -> & Hp & -> & -> & Hside). unfold insert_round.
    destruct u as [|c l x r]; cbn [ptr].
    { change (NULL =? NULL) with true. cbv iota. apply wp_ret. eapply wp_mono; [by eapply insert_at_ok|]. intros z s2 H. by left. }
    destruct (Hp) as [Et _]. rewrite (proj2 (Z.eqb_neq x NULL)); [|by apply (node_not_null s t Ht ctx LEFT c l x r)]. destruct (less_node c l x r) as [Ll Lr].
    destruct (Z.ltb_spec (cmp elm x) 0) as [Hx|Hx].
    { descend s t ctx c l x r LEFT l r; [by eapply place_left|]. cbn. by rewrite (proj2 (Z.ltb_lt _ _) Hx). }
    destruct (Z.ltb_spec 0 (cmp elm x)) as [Hx'|Hx'].
    { descend s t ctx c l x r RIGHT r l; [by eapply place_right|]. cbn. by rewrite (proj2 (Z.ltb_ge _ _) Hx). }
    apply wp_ret, wp_ret. right. split_and!; [rewrite Et, elems_plug; cbn; set_solver|lia|done].
  - unfold small in Hsm. lia.
  - exists [], t. split_and!; try done. split_and!; try done; constructor.
Qed.

Lemma find_ok s t : is_tree s t → small t → descending (elems t) →
  wp (RB_FIND cmp elm) s (λ r s', s' = s ∧ (r ∈ elems t ∧ cmp elm r = 0 ∨ r = NULL ∧ Forall (λ x, cmp elm x ≠ 0) (elems t))).
Proof.
  intros Ht Hsm Hd. unfold RB_FIND. apply wp_bind. eapply wp_root; [exact Ht|].
  apply (wp_while _ (λ m tmp s1, ∃ ctx u, m = Z.of_nat (length (elems u)) ∧ s1 = s ∧ found_place t ctx u ∧ tmp = ptr u) _) with (n := Z.of_nat (length (elems t))).
  - intros m tmp s1 _ (ctx & u & -> & -> & Hp & ->). unfold find_round. destruct (Hp) as (Et & Hg & Hl).
    destruct u as [|c l x r]; cbn [ptr].
    { change (NULL =? NULL) with true. cbv iota. apply wp_ret. split; [done|]. right. split; [done|]. rewrite Et, elems_plug. cbn. apply Forall_app.
      split; [eapply Forall_impl; [exact Hg|]|eapply Forall_impl; [exact Hl|]]; cbn; lia. }
    rewrite (proj2 (Z.eqb_neq x NULL)); [|by apply (node_not_null s t Ht ctx LEFT c l x r)]. destruct (less_node c l x r) as [Ll Lr].
    destruct (Z.ltb_spec (cmp elm x) 0) as [Hx|Hx].
    { descend s t ctx c l x r LEFT l r. by eapply place_left. }
    destruct (Z.ltb_spec 0 (cmp elm x)) as [Hx'|Hx'].
    { descend s t ctx c l x r RIGHT r l. by eapply place_right. }
    apply wp_ret. split; [done|]. left. split; [rewrite Et, elems_plug; cbn; set_solver|lia].
  - unfold small in Hsm. lia.
  - exists [], t. split_and!; try done. split_and!; try done; constructor.
Qed.

Lemma nfind_ok s t : is_tree s t → small t → descending (elems t) →
  wp (RB_NFIND cmp elm) s (λ r s', s' = s ∧ (r ∈ elems t ∧ cmp elm r = 0 ∨
    ∃ l1 l2, elems t = l1 ++ l2 ∧ greater l1 ∧ less l2 ∧ r = default NULL (head l2))).
Proof.
  intros Ht Hsm Hd. unfold RB_NFIND. apply wp_bind. eapply wp_root; [exact Ht|].
  apply (wp_while _ (λ m '(tmp, res) s1, ∃ ctx u, m = Z.of_nat (length (elems u)) ∧ s1 = s ∧ found_place t ctx u ∧ tmp = ptr u ∧ res = default NULL (head (after ctx))) _)
    with (n := Z.of_nat (length (elems t))).
  - intros m [tmp res] s1 _ (ctx & u & -> & -> & Hp & -> & ->). unfold nfind_round. destruct (Hp) as (Et & Hg & Hl).
    destruct u as [|c l x r]; cbn [ptr].
    { change (NULL =? NULL) with true. cbv iota. apply wp_ret. split; [done|]. right. exists (before ctx), (after ctx). split_and!; try done. by rewrite Et, elems_plug. }
    rewrite (proj2 (Z.eqb_neq x NULL)); [|by apply (node_not_null s t Ht ctx LEFT c l x r)]. destruct (less_node c l x r) as [Ll Lr].
    destruct (Z.ltb_spec (cmp elm x) 0) as [Hx|Hx].
    { descend s t ctx c l x r LEFT l r. by eapply place_left. }
    destruct (Z.ltb_spec 0 (cmp elm x)) as [Hx'|Hx'].
    { descend s t ctx c l x r RIGHT r l. by eapply place_right. }
    apply wp_ret. split; [done|]. left. split; [rewrite Et, elems_plug; cbn; set_solver|lia].
  - unfold small in Hsm. lia.
  - exists [], t. split_and!; try done. split_and!; try done; constructor.
Qed.
End search.

(** * Neighbours *)

(** The nearest node above with the hole on the other side. *)
Fixpoint next_up (d : side) (ctx : list frame) : Z :=
  match ctx with
  | [] => NULL
  | f :: ctx' => match d, f_side f with LEFT, RIGHT | RIGHT, LEFT => f_ptr f | _, _ => next_up d ctx' end
  end.

Lemma next_up_after ctx : next_up RIGHT ctx = default NULL (head (after ctx)).
Proof. induction ctx as [|[[] c x u] ctx IH]; cbn; [done|done|exact IH]. Qed.
Lemma next_up_before ctx : next_up LEFT ctx = default NULL (last (before ctx)).
Proof.
  induction ctx as [|[[] c x u] ctx IH]; cbn; [done|by rewrite app_nil_r|]. by rewrite app_assoc, last_snoc.
Qed.

Lemma next_up_same d f ctx : f_side f = d → next_up d (f :: ctx) = next_up d ctx.
Proof. intros E. cbn. rewrite E. by destruct d. Qed.
Lemma next_up_opp d f ctx : f_side f = opp d → next_up d (f :: ctx) = f_ptr f.
Proof. intros E. cbn. rewrite E. by destruct d. Qed.

(** Which child of its parent a node is. *)
Lemma wp_sibling s t f ctx u d (Q : Z → rb_state → Prop) : is_tree s t → t = plug (f :: ctx) u → u ≠ Leaf →
  (∀ p, (ptr u =? p) = bool_decide (f_side f = d) → Q p s) → wp (child d (f_ptr f)) s Q.
Proof.
  intros Ht Et Hu HQ. destruct f as [d' c x sib]. cbn [f_ptr f_side] in *.
  assert (d' = d ∨ d' = opp d) as [->| ->] by (destruct d, d'; auto).
  - eapply (wp_child_at s t Ht ctx d c u x sib); [done|]. apply HQ. by rewrite Z.eqb_refl, bool_decide_eq_true_2.
  - eapply (wp_child_at s t Ht ctx d c sib x u); [rewrite Et; place|]. apply HQ. rewrite bool_decide_eq_false_2 by (by destruct d).
    apply Z.eqb_neq, not_eq_sym. by eapply (ptr_apart s t ctx (opp d) c u x sib).
Qed.

Lemma climb_ok s t d ctx u (Q : Z → rb_state → Prop) : is_tree s t → small t → t = plug ctx u → u ≠ Leaf →
  Q (next_up d ctx) s → wp (let* elm := while_ (climb_round d) (ptr u) in RB_PARENT elm) s Q.
Proof.
  intros Ht Hsm Et Hu HQ. apply wp_bind.
  apply (wp_while _ (λ m e s1, ∃ ctx1 u1, m = Z.of_nat (length ctx1) ∧ s1 = s ∧ t = plug ctx1 u1 ∧ u1 ≠ Leaf ∧ e = ptr u1 ∧ next_up d ctx1 = next_up d ctx) _) with (n := Z.of_nat (length ctx)).
  - clear Et Hu. intros m e s1 _ (ctx1 & u1 & -> & -> & Et & Hu & -> & En). unfold climb_round.
    assert (∀ Q', Q' (up ctx1) s → wp (RB_PARENT (ptr u1)) s Q') as Hpar.
    { intros Q' HQ'. destruct u1 as [|c l x r]; [done|]. by eapply (wp_parent_at s t Ht ctx1 LEFT c l x r). }
    apply wp_bind, Hpar. destruct ctx1 as [|f ctx1]; cbn [up].
    { change (NULL =? NULL) with true. cbv iota. apply wp_ret, Hpar. cbn [up]. by rewrite <- En in HQ. }
    rewrite (proj2 (Z.eqb_neq (f_ptr f) NULL)).
    2: { destruct f as [d' c x sib]. by apply (node_not_null s t Ht ctx1 d' c u1 x sib). }
    apply wp_bind. eapply wp_sibling; [exact Ht|exact Et|done|]. intros p ->. case_bool_decide as Hs.
    + apply wp_ret. exists (Z.of_nat (length ctx1)). split; [cbn [length]; lia|]. exists ctx1, (close f u1). split_and!; try done.
      * unfold close. by destruct (f_side f).
      * unfold close. by rewrite ptr_node.
      * by rewrite <- En, next_up_same.
    + apply wp_ret, Hpar. cbn [up]. rewrite next_up_opp in En by (by destruct d, (f_side f)). by rewrite En.
  - subst t. apply small_ctx in Hsm. lia.
  - by exists ctx, u.
Qed.

Lemma neighbour_ok s t d ctx c b x a (Q : Z → rb_state → Prop) : is_tree s t → small t → t = plug ctx (node d c b x a) →
  Q (match b with Leaf => next_up d ctx | _ => extreme (opp d) b end) s → wp (neighbour d x) s Q.
Proof.
  intros Ht Hsm Et HQ. unfold neighbour. apply wp_bind. eapply (wp_child_at s t Ht ctx d); [done|].
  destruct b as [|cb bl xb br]; cbn [ptr].
  - change (NULL =? NULL) with true. cbn [negb]. set (u := node d c Leaf x a) in *. assert (u ≠ Leaf) as Hu by (by destruct d).
    apply wp_bind. eapply (wp_parent_at s t Ht ctx d); [done|]. rewrite <- (ptr_node d c Leaf x a). fold u.
    destruct ctx as [|f ctx]; cbn [up].
    + change (NULL =? NULL) with true. cbn [negb andb]. apply wp_bind, wp_ret. by eapply (climb_ok s t d []).
    + rewrite (proj2 (Z.eqb_neq (f_ptr f) NULL)).
      2: { destruct f as [d' cf y sib]. by apply (node_not_null s t Ht ctx d' cf u y sib). }
      cbn [negb andb]. apply wp_bind. eapply (wp_sibling s t f ctx u (opp d)); [done|done|done|]. intros p ->. case_bool_decide as Hs.
      * apply wp_ret. by rewrite next_up_opp in HQ.
      * by eapply (climb_ok s t d (f :: ctx) u).
  - rewrite (proj2 (Z.eqb_neq xb NULL)); [|by apply (node_not_null s t Ht (mk_frame d c x a :: ctx) LEFT cb bl xb br)]. cbn [negb].
    by eapply (wp_last_on s t (opp d) (mk_frame d c x a :: ctx) (Node cb bl xb br)).
Qed.

Lemma NoDup_split (x : Z) l1 l2 k1 k2 : NoDup (l1 ++ x :: l2) → l1 ++ x :: l2 = k1 ++ x :: k2 → l1 = k1 ∧ l2 = k2.
Proof.
  revert k1. induction l1 as [|y l1 IH]; intros [|z k1] Hnd E; cbn in *.
  - by injection E as ->.
  - injection E as -> ->. apply NoDup_cons in Hnd as [H _]. set_solver.
  - injection E as -> <-. apply NoDup_cons in Hnd as [H _]. set_solver.
  - injection E as -> E. apply NoDup_cons in Hnd as [_ H]. destruct (IH _ H E) as [-> ->]. done.
Qed.

(** The place of an element in the sequence and in the tree. *)
Lemma place_of s t x l1 l2 : is_tree s t → elems t = l1 ++ x :: l2 →
  ∃ ctx c l r, t = plug ctx (Node c l x r) ∧ l1 = before ctx ++ elems l ∧ l2 = elems r ++ after ctx.
Proof.
  intros (_ & _ & Hnd) E. destruct (find_node x t) as (ctx & c & l & r & ->); [rewrite E; set_solver|]. exists ctx, c, l, r. split; [done|].
  rewrite E in Hnd. apply (NoDup_split x); [done|]. rewrite <- E, elems_plug. cbn. by rewrite <- !app_assoc.
Qed.

Lemma next_ok s t x l1 l2 (Q : Z → rb_state → Prop) : is_tree s t → small t → elems t = l1 ++ x :: l2 → Q (default NULL (head l2)) s → wp (RB_NEXT x) s Q.
Proof.
  intros Ht Hsm E HQ. destruct (place_of s t x l1 l2 Ht E) as (ctx & c & l & r & Et & _ & ->).
  eapply (neighbour_ok s t RIGHT ctx c r x l); [done|done|done|]. destruct r as [|cr rl y rr]; [by rewrite next_up_after|].
  cbn [opp]. rewrite extreme_left. cbn in *. by destruct (elems rl).
Qed.
Lemma prev_ok s t x l1 l2 (Q : Z → rb_state → Prop) : is_tree s t → small t → elems t = l1 ++ x :: l2 → Q (default NULL (last l1)) s → wp (RB_PREV x) s Q.
Proof.
  intros Ht Hsm E HQ. destruct (place_of s t x l1 l2 Ht E) as (ctx & c & l & r & Et & -> & _).
  eapply (neighbour_ok s t LEFT ctx c l x r); [done|done|done|]. destruct l as [|cl ll y lr].
  - rewrite next_up_before. cbn in HQ. by rewrite app_nil_r in HQ.
  - cbn [opp]. rewrite extreme_right. rewrite last_app in HQ. by destruct (last (elems (Node cl ll y lr))) eqn:El; [|cbn in El; rewrite last_app, last_cons in El; destruct (last (elems lr))].
Qed.

(** * The ends of the sequence and the walk along it *)
Lemma minmax_ok s t val (Q : Z → rb_state → Prop) : is_tree s t → small t → Q (extreme (if val <? 0 then LEFT else RIGHT) t) s → wp (RB_MINMAX val) s Q.
Proof.
  intros Ht Hsm HQ. unfold RB_MINMAX. set (d := if val <? 0 then LEFT else RIGHT) in *. apply wp_bind. eapply wp_root; [exact Ht|].
  apply (wp_while _ (λ m '(tmp, parent) s1, ∃ ctx u, m = Z.of_nat (length (elems u)) ∧ s1 = s ∧ t = plug ctx u ∧ tmp = ptr u ∧
    extreme d t = match u with Leaf => parent | _ => extreme d u end) Q) with (n := Z.of_nat (length (elems t))).
  - intros m [tmp parent] s1 _ (ctx & u & -> & -> & Et & -> & Ex). unfold minmax_round. fold d.
    destruct (tree_node d u) as [->|(c & a & x & b & ->)]; cbn [ptr].
    { change (NULL =? NULL) with true. cbv iota. apply wp_ret. by rewrite <- Ex. }
    rewrite ptr_node. rewrite (proj2 (Z.eqb_neq x NULL)); [|by apply (node_not_null s t Ht ctx d c a x b)].
    apply wp_bind. eapply (wp_child_at s t Ht ctx d); [done|]. apply wp_ret. exists (Z.of_nat (length (elems a))). split.
    + rewrite elems_node, length_cons, length_app. lia.
    + exists (mk_frame d c x b :: ctx), a. split_and!; try done. rewrite <- extreme_node with (c := c) (b := b). rewrite Ex. by destruct d.
  - unfold small in Hsm. lia.
  - exists [], t. split_and!; try done. by destruct t.
Qed.

Lemma min_ok s t (Q : Z → rb_state → Prop) : is_tree s t → small t → Q (default NULL (head (elems t))) s → wp RB_MIN s Q.
Proof. intros Ht Hsm HQ. eapply minmax_ok; [done|done|]. cbn [Z.ltb Z.compare]. rewrite extreme_left. by destruct (elems t). Qed.
Lemma max_ok s t (Q : Z → rb_state → Prop) : is_tree s t → small t → Q (default NULL (last (elems t))) s → wp RB_MAX s Q.
Proof. intros Ht Hsm HQ. eapply minmax_ok; [done|done|]. change (1 <? 0) with false. cbv iota. rewrite extreme_right. by destruct (last (elems t)). Qed.

Lemma elems_not_null s t x : is_tree s t → x ∈ elems t → x ≠ NULL.
Proof. intros Ht Hx. destruct (find_node x t Hx) as (ctx & c & l & r & ->). by apply (node_not_null s _ Ht ctx LEFT c l x r). Qed.

Lemma foreach_ok s t : is_tree s t → small t → wp RB_FOREACH s (λ l s', l = elems t ∧ s' = s).
Proof.
  intros Ht Hsm. unfold RB_FOREACH. apply wp_bind. eapply min_ok; [done|done|].
  apply (wp_while _ (λ m '(x, seen) s1, ∃ l, m = Z.of_nat (length l) ∧ s1 = s ∧ elems t = seen ++ l ∧ x = default NULL (head l)) _) with (n := Z.of_nat (length (elems t))).
  - intros m [x seen] s1 _ (l & -> & -> & El & ->). unfold foreach_round. destruct l as [|x l]; cbn [head default].
    { change (NULL =? NULL) with true. cbv iota. apply wp_ret. by rewrite app_nil_r in El. }
    cbn. rewrite (proj2 (Z.eqb_neq x NULL)); [|apply (elems_not_null s t); [done|rewrite El; set_solver]].
    apply wp_bind. eapply next_ok; [done|done|exact El|]. apply wp_ret. exists (Z.of_nat (length l)). split; [cbn; lia|]. exists l. split_and!; try done. by rewrite <- app_assoc.
  - unfold small in Hsm. lia.
  - by exists (elems t).
Qed.

Lemma remove_all_ok s t : is_tree s t → small t → balanced t → wp remove_all s (λ _ s', rbh_root s' = NULL ∧ keeps (elems t) s s').
Proof.
  intros Ht Hsm Hb. unfold remove_all. apply wp_bind. eapply min_ok; [done|done|].
  apply (wp_while _ (λ m x s1, ∃ t1, m = Z.of_nat (length (elems t1)) ∧ is_tree s1 t1 ∧ balanced t1 ∧ x = default NULL (head (elems t1)) ∧ keeps (elems t) s s1 ∧
    (∀ z, z ∈ elems t1 → z ∈ elems t) ∧ small t1) _) with (n := Z.of_nat (length (elems t))).
  - intros m x s1 _ (t1 & -> & Ht1 & Hb1 & -> & K & Hin & Hsm1). unfold foreach_remove_round. destruct (elems t1) as [|x l] eqn:El; cbn [head default].
    { cbn. change (NULL =? NULL) with true. cbv iota. apply wp_ret. split; [|done]. destruct t1 as [|c l x r]; [by destruct Ht1|]. cbn in El. by destruct (elems l). }
    cbn. rewrite (proj2 (Z.eqb_neq x NULL)); [|apply (elems_not_null s1 t1); [done|rewrite El; set_solver]].
    apply wp_bind. eapply (next_ok s1 t1 x [] l); [done|done|done|]. apply wp_bind. eapply wp_mono; [eapply (remove_ok s1 t1 x); [done|done|done|rewrite El; set_solver]|].
    intros r s2 (_ & t2 & l1 & l2 & E1 & E2 & Ht2 & Hb2 & K2). apply wp_ret.
    destruct (NoDup_split x [] l l1 l2) as [<- <-]; [destruct Ht1 as (_ & _ & H); by rewrite El in H|by rewrite <- El|].
    cbn in E2. exists (Z.of_nat (length (elems t2))). split; [rewrite E2; cbn; lia|]. exists t2. rewrite E2. split_and!; try done.
    + eapply agree_trans; [exact K|]. eapply agree_mono; [|exact K2]. rewrite El. exact Hin.
    + intros z Hz. apply Hin. set_solver.
    + unfold small in *. rewrite El in Hsm1. rewrite E2. cbn in Hsm1. lia.
  - unfold small in Hsm. lia.
  - by exists t.
Qed.
