(* ===== verification/RbFacts.v ===== *)
(** What the red-black trees promise, for any comparison and for the address
    ranges of the kernel: the tree operations against the sequences of [Vma]. *)
From stdpp Require Import base tactics list gmap strings sorting.
From Stdlib Require Import ZArith Lia.
From S2P Require Import Prelude State Vma VmaInv Rb RbTree RbInv RbOps.

(** [RB_INSERT] on a balanced tree whose elements are in order for the new one:
    either an element that compares equal is returned and nothing changes, or
    the element is put between the smaller and the greater ones; the tree is a
    balanced red-black tree again, with its parent pointers, and no other node
    is touched.  (C11) *)
Theorem rb_insert_correct cmp elm s t e0 :
  is_tree s t → small t → balanced t → descending cmp elm (elems t) → elm ≠ NULL → elm ∉ elems t → rb_nodes s !! elm = Some e0 →
  ∃ r s', RB_INSERT cmp elm s = Ok (r, s') ∧
    ((∃ x, r = x ∧ x ∈ elems t ∧ cmp elm x = 0 ∧ s' = s) ∨
     (r = NULL ∧ ∃ t' l1 l2, elems t = l1 ++ l2 ∧ greater cmp elm l1 ∧ less cmp elm l2 ∧ elems t' = l1 ++ elm :: l2 ∧
        is_tree s' t' ∧ balanced t' ∧ keeps (elm :: elems t) s s')).
Proof.
  intros Ht Hsm Hb Hd H0 Hn He. destruct (wp_inv _ _ _ (insert_ok cmp elm s t e0 Ht Hsm Hb Hd H0 Hn He)) as (r & s' & E & [[Hr Hi]|(H1 & H2 & H3)]);
    exists r, s'; (split; [exact E|]); [right|left; by exists r]. by split.
Qed.

(** [RB_REMOVE] takes exactly the node out of a balanced tree; what is left is
    balanced, and no other node is touched.  (C12) *)
Theorem rb_remove_correct s t x : is_tree s t → small t → balanced t → x ∈ elems t →
  ∃ s', RB_REMOVE x s = Ok (x, s') ∧
    ∃ t' l1 l2, elems t = l1 ++ x :: l2 ∧ elems t' = l1 ++ l2 ∧ is_tree s' t' ∧ balanced t' ∧ keeps (elems t) s s'.
Proof.
  intros Ht Hsm Hb Hx. destruct (wp_inv _ _ _ (remove_ok s t x Ht Hsm Hb Hx)) as (r & s' & E & -> & Hr). by exists s'.
Qed.

(** Walking with [RB_FOREACH] visits every node once and in order, forwards and
    backwards steps are the neighbours in that order, and the loop that removes
    each node on the way empties the tree.  (C31) *)
Theorem rb_walk_correct s t : is_tree s t → small t → balanced t →
  RB_FOREACH s = Ok (elems t, s) ∧
  (∀ l1 x y l2, elems t = l1 ++ x :: y :: l2 → RB_NEXT x s = Ok (y, s) ∧ RB_PREV y s = Ok (x, s)) ∧
  ∃ s', remove_all s = Ok (tt, s') ∧ rbh_root s' = NULL ∧ keeps (elems t) s s'.
Proof.
  intros Ht Hsm Hb. split_and!.
  - by destruct (wp_inv _ _ _ (foreach_ok s t Ht Hsm)) as (l & s' & E & -> & ->).
  - intros l1 x y l2 E. split.
    + by destruct (wp_inv _ _ _ (next_ok s t x l1 (y :: l2) (λ r s', r = y ∧ s' = s) Ht Hsm E (conj eq_refl eq_refl))) as (r & s' & E' & -> & ->).
    + assert (elems t = (l1 ++ [x]) ++ y :: l2) as E2 by (by rewrite E, <- app_assoc).
      destruct (wp_inv _ _ _ (prev_ok s t y (l1 ++ [x]) l2 (λ r s', r = default NULL (last (l1 ++ [x])) ∧ s' = s) Ht Hsm E2 (conj eq_refl eq_refl))) as (r & s' & E' & -> & ->).
      by rewrite E', last_snoc.
  - destruct (wp_inv _ _ _ (remove_all_ok s t Ht Hsm Hb)) as ([] & s' & E & H). by exists s'.
Qed.

(** A search goes down one path of the tree. *)
Lemma find_runs cmp elm s t ctx u : is_tree s t → t = plug ctx u →
  ∃ k r, runs (find_round cmp elm) k (ptr u) s r s ∧ (k <= depth u)%nat.
Proof.
  intros Ht. revert ctx. induction u as [|c l IHl x r IHr]; intros ctx Et; cbn [ptr].
  { exists 0%nat, NULL. split; [by apply runs_done|done]. }
  assert (x ≠ NULL) as Hx by (by apply (node_not_null s t Ht ctx LEFT c l x r)).
  assert (∀ d y, y = ptr (match d with LEFT => l | RIGHT => r end) → (let* tmp := child d x in ret (inl tmp)) s = Ok (inl y : Z + Z, s)) as Hgo.
  { intros d y ->. assert (wp (child d x) s (λ v s', v = ptr (match d with LEFT => l | RIGHT => r end) ∧ s' = s)) as (v & s' & E & -> & ->)%wp_inv.
    - by eapply wp_descend. - by rewrite (bind_ok _ _ _ _ _ E). }
  destruct (Z.ltb_spec (cmp elm x) 0) as [Hlt|Hge].
  { destruct (IHl (mk_frame LEFT c x r :: ctx) Et) as (k & y & Hr & Hk). exists (1 + k)%nat, y. split; [|cbn; lia]. eapply runs_more; [|exact Hr].
    unfold find_round. rewrite (proj2 (Z.eqb_neq _ _) Hx), (proj2 (Z.ltb_lt _ _) Hlt). by apply (Hgo LEFT). }
  destruct (Z.ltb_spec 0 (cmp elm x)) as [Hgt|Hle].
  { destruct (IHr (mk_frame RIGHT c x l :: ctx) Et) as (k & y & Hr & Hk). exists (1 + k)%nat, y. split; [|cbn; lia]. eapply runs_more; [|exact Hr].
    unfold find_round. rewrite (proj2 (Z.eqb_neq _ _) Hx), (proj2 (Z.ltb_ge _ _) Hge), (proj2 (Z.ltb_lt _ _) Hgt). by apply (Hgo RIGHT). }
  exists 0%nat, x. split; [|lia]. apply runs_done. unfold find_round. by rewrite (proj2 (Z.eqb_neq _ _) Hx), (proj2 (Z.ltb_ge _ _) Hge), (proj2 (Z.ltb_ge _ _) Hle).
Qed.

(** [RB_FIND] in a balanced tree of [n] nodes goes at most [2 log2 (n + 1)] steps
    down, whatever the comparison says.  (C32) *)
Theorem rb_find_logarithmic cmp elm s t : is_tree s t → small t → balanced t →
  ∃ k r, runs (find_round cmp elm) k (rbh_root s) s r s ∧ RB_FIND cmp elm s = Ok (r, s) ∧
    Z.of_nat k <= 2 * Z.log2 (Z.of_nat (length (elems t)) + 1).
Proof.
  intros Ht Hsm [n Hn]. destruct (find_runs cmp elm s t [] t Ht eq_refl) as (k & r & Hr & Hk). exists k, r.
  destruct (Ht) as (Hroot & _). rewrite Hroot. pose proof (rb_size _ _ _ Hn) as Hsz. pose proof (rb_depth _ _ _ Hn) as Hdp. cbn in Hdp.
  assert (Z.of_nat n <= Z.log2 (Z.of_nat (length (elems t)) + 1)) as Hlog by (apply Z.log2_le_pow2; lia).
  split_and!; [done| |lia]. unfold RB_FIND, RB_ROOT, gets, bind. rewrite Hroot. apply (while_runs _ k); [|done].
  pose proof (Z.log2_lt_pow2 (Z.of_nat (length (elems t)) + 1) 63 ltac:(lia)) as Hb. unfold small in Hsm.
  assert (Z.log2 (Z.of_nat (length (elems t)) + 1) < 63); [apply Hb; lia|lia].
Qed.

(** * Address ranges *)
Section ranges.
(** The range at a node. *)
Context (key : Z → vmm_page_range_t).
Definition cmp_nodes (a b : Z) : Z := vmm_cmp_range (key a) (key b).

(** The state keeps the ranges [l] in a balanced tree. *)
Definition stores (s : rb_state) (l : list vmm_page_range_t) : Prop :=
  ∃ t, is_tree s t ∧ small t ∧ balanced t ∧ (∀ x, x ∈ elems t → r_ptr (key x) = x) ∧ l = key <$> elems t.

(** Sorted ranges are in order for every other one. *)
Lemma ranges_descending elm l : tree_ok (key <$> l) → descending cmp_nodes elm l.
Proof.
  induction l as [|x l IH]; [constructor|]. cbn. intros (Hx & Hb & Ht)%tree_ok_cons. constructor; [by apply IH|]. rewrite Forall_forall. intros y Hy.
  assert (key y ∈ key <$> l) as Hin by (by apply list_elem_of_fmap_2). specialize (Hb _ Hin). destruct Ht as [_ Hr]. specialize (Hr _ Hin).
  unfold cmp_nodes. destruct (vmm_cmp_range_spec (key elm) (key x) Hx) as (C1 & C2 & C3), (vmm_cmp_range_spec (key elm) (key y) Hr) as (D1 & D2 & D3).
  unfold VmaInv.before in Hb. destruct Hx as (_ & Hsx & _), Hr as (_ & Hsy & _). pose proof (Z.lt_ge_cases (vaddr (key elm)) (vaddr (key x))).
  pose proof (Z.lt_ge_cases (vaddr (key elm)) (vaddr (key x) + size (key x))). pose proof (Z.lt_ge_cases (vaddr (key elm)) (vaddr (key y))).
  pose proof (Z.lt_ge_cases (vaddr (key elm)) (vaddr (key y) + size (key y))).
  destruct (decide (vaddr (key elm) < vaddr (key x))); [rewrite C1, D1 by lia; lia|]. destruct (decide (vaddr (key elm) < vaddr (key y))); [rewrite D1 by lia; lia|].
  rewrite C3 by lia. cbn. lia.
Qed.

Lemma rb_insert_cut elm l1 l2 : greater cmp_nodes elm l1 → less cmp_nodes elm l2 → rb_insert (key elm) (key <$> l1 ++ l2) = key <$> l1 ++ elm :: l2.
Proof.
  intros Hg Hl. induction Hg as [|x l1 Hx _ IH]; cbn [app fmap list_fmap].
  - destruct Hl as [|x l2 Hx _]; cbn; [done|]. unfold cmp_nodes in Hx. by rewrite (proj2 (Z.ltb_lt _ _) Hx).
  - cbn. unfold cmp_nodes in Hx. rewrite (proj2 (Z.ltb_ge _ _)) by lia. rewrite (proj2 (Z.eqb_neq _ _)) by lia. by f_equal.
Qed.

Lemma rb_insert_found elm l x : descending cmp_nodes elm l → x ∈ l → cmp_nodes elm x = 0 → rb_insert (key elm) (key <$> l) = key <$> l.
Proof.
  intros Hd Hx E. induction Hd as [|y l _ IH Hy]; [by apply not_elem_of_nil in Hx|]. cbn. fold (cmp_nodes elm y).
  rewrite Forall_forall in Hy. apply elem_of_cons in Hx as [->|Hx]; [by rewrite E|].
  specialize (Hy x Hx). rewrite E in Hy. cbn in Hy. destruct (Z.ltb_spec (cmp_nodes elm y) 0); [lia|]. destruct (cmp_nodes elm y =? 0); [done|]. f_equal. by apply IH.
Qed.

Lemma rb_find_found elm l x : tree_ok (key <$> l) → x ∈ l → cmp_nodes elm x = 0 → rb_find (key elm) (key <$> l) = Some (key x).
Proof.
  intros Ht Hx E. unfold rb_find. assert (key x ∈ key <$> l) as Hk by (by apply list_elem_of_fmap_2).
  destruct (list_find_elem_of (λ y, vmm_cmp_range (key elm) y = 0) _ _ Hk E) as [[i y] Hf]. rewrite Hf. cbn. f_equal.
  apply list_find_Some in Hf as (Hi & Hy & _). apply list_elem_of_lookup_2 in Hi. destruct (tree_apart _ _ _ Ht Hi Hk) as [->|Hap]; [done|exfalso]. destruct Ht as [_ Hr].
  destruct (vmm_cmp_range_spec (key elm) y (Hr _ Hi)) as (C1 & C2 & C3), (vmm_cmp_range_spec (key elm) (key x) (Hr _ Hk)) as (D1 & D2 & D3).
  unfold cmp_nodes in E. rewrite E in D1, D3. rewrite Hy in C1, C3.
  unfold VmaInv.apart, VmaInv.before in Hap.
  destruct (decide (vaddr (key elm) < vaddr y)), (decide (vaddr y + size y <= vaddr (key elm))), (decide (vaddr (key elm) < vaddr (key x))), (decide (vaddr (key x) + size (key x) <= vaddr (key elm))); lia.
Qed.

Lemma rb_remove_cut x l1 l2 : NoDup (l1 ++ x :: l2) → (∀ z, z ∈ l1 ++ x :: l2 → r_ptr (key z) = z) →
  rb_remove (key x) (key <$> l1 ++ x :: l2) = key <$> l1 ++ l2.
Proof.
  intros Hnd Hp. unfold rb_remove. assert (∀ l : list Z, (∀ z, z ∈ l → r_ptr (key z) = z) → x ∉ l → filter (λ y, r_ptr y ≠ r_ptr (key x)) (key <$> l) = key <$> l) as Hk.
  { intros l. induction l as [|z l IH]; intros Hl Hx; [done|]. rewrite fmap_cons, filter_cons_True.
    - f_equal. apply IH; set_solver.
    - rewrite (Hl z) by set_solver. rewrite (Hp x) by set_solver. set_solver. }
  apply NoDup_parts in Hnd as (_ & [N1 _]%NoDup_cons & N2). rewrite !fmap_app, fmap_cons, filter_app, filter_cons_False by (by intros ?).
  f_equal; apply Hk; [set_solver|intros H; apply (N2 x H); set_solver|set_solver|done].
Qed.

(** The trees implement the sequences of the allocator of address ranges: in
    every state that keeps sorted ranges in a balanced tree, [RB_INSERT],
    [RB_REMOVE] and [RB_FIND] succeed, their results are those of [rb_insert],
    [rb_remove] and [rb_find] on the sequence, and a balanced tree keeps the new
    sequence.  (C13) *)
Theorem vma_trees_refine s l : stores s l → tree_ok l → Z.of_nat (length l) + 1 < 2 ^ 62 →
  (∀ elm, elm ≠ NULL → is_Some (rb_nodes s !! elm) → r_ptr (key elm) = elm → (∀ r, r ∈ l → r_ptr r ≠ elm) →
     ∃ r s', RB_INSERT cmp_nodes elm s = Ok (r, s') ∧ stores s' (rb_insert (key elm) l)) ∧
  (∀ x, key x ∈ l → r_ptr (key x) = x → ∃ s', RB_REMOVE x s = Ok (x, s') ∧ stores s' (rb_remove (key x) l)) ∧
  (∀ elm, ∃ r, RB_FIND cmp_nodes elm s = Ok (r, s) ∧ rb_find (key elm) l = if r =? NULL then None else Some (key r)) ∧
  RB_FOREACH s = Ok (r_ptr <$> l, s).
Proof.
  intros (t & Ht & Hsm & Hb & Hp & ->) Htr Hlen. rewrite length_fmap in Hlen. pose proof (λ e, ranges_descending e _ Htr) as Hd. split_and!.
  - intros elm H0 [e0 He] Hpe Hn. assert (elm ∉ elems t) as Hin by (intros H; apply (Hn (key elm)); [by apply list_elem_of_fmap_2|done]).
    destruct (wp_inv _ _ _ (insert_ok cmp_nodes elm s t e0 Ht Hsm Hb (Hd elm) H0 Hin He)) as (r & s' & E & [[_ Hi]|(H1 & H2 & ->)]); (exists r; eexists; split; [exact E|]).
    + destruct Hi as (t' & l1 & l2 & E1 & Hg & Hl & E2 & T' & B' & _). exists t'. split_and!; try done.
      * unfold small. rewrite E2, length_app. rewrite E1, length_app in Hlen. cbn. lia.
      * intros x. rewrite E2. intros Hx. destruct (decide (x = elm)) as [->|]; [done|]. apply Hp. rewrite E1. set_solver.
      * rewrite E1, E2. by apply rb_insert_cut.
    + exists t. split_and!; try done. by eapply rb_insert_found.
  - intros x Hx Hpx. assert (x ∈ elems t) as Hin by (apply list_elem_of_fmap in Hx as (y & Ey & Hy); rewrite <- Hpx, Ey; by rewrite Hp).
    destruct (wp_inv _ _ _ (remove_ok s t x Ht Hsm Hb Hin)) as (r & s' & E & -> & t' & l1 & l2 & E1 & E2 & T' & B' & _). exists s'. split; [done|]. exists t'. split_and!; try done.
    + unfold small in *. rewrite E2, length_app. rewrite E1, length_app in Hsm. cbn in Hsm. lia.
    + intros z. rewrite E2. intros Hz. apply Hp. rewrite E1. set_solver.
    + rewrite E2. destruct Ht as (_ & _ & Hnd). rewrite E1 in *. by apply rb_remove_cut.
  - intros elm. destruct (wp_inv _ _ _ (find_ok cmp_nodes elm s t Ht Hsm (Hd elm))) as (r & s' & E & -> & [[H1 H2]|[-> H2]]); exists r || exists NULL; (split; [exact E|]).
    + rewrite (proj2 (Z.eqb_neq r NULL)) by (by eapply elems_not_null). by apply rb_find_found.
    + change (NULL =? NULL) with true. unfold rb_find. apply fmap_None, list_find_None. apply Forall_fmap. exact H2.
  - destruct (wp_inv _ _ _ (foreach_ok s t Ht Hsm)) as (q & s' & E & -> & ->). rewrite E. do 2 f_equal. rewrite <- list_fmap_compose. symmetry.
    rewrite <- (list_fmap_id (elems t)) at 2. apply list_fmap_ext. intros i x Hx. apply Hp. by eapply list_elem_of_lookup_2.
Qed.
End ranges.

(** * A small tree *)
Definition three : tree := Node BLACK (Node RED Leaf 1 Leaf) 2 (Node RED Leaf 3 Leaf).
Definition three_nodes : rb_state :=
  mk_rb 2 (list_to_map [(2, mk_entry 1 3 0 0); (1, mk_entry 0 0 2 1); (3, mk_entry 0 0 2 1); (4, mk_entry 0 0 0 0)]).
Lemma three_tree : is_tree three_nodes three.
Proof. split_and!; [done|by split_and!|]. apply (bool_decide_unpack (NoDup (elems three))). by vm_compute. Qed.
Lemma three_balanced : balanced three.
Proof. exists 1%nat. repeat econstructor. Qed.

Lemma rb_insert_correct_witness : ∃ r s', RB_INSERT Z.sub 4 three_nodes = Ok (r, s') ∧ rbh_root s' = 2 ∧ rb_nodes s' !! 4 = Some (mk_entry 0 0 3 RB_RED).
Proof.
  destruct (rb_insert_correct Z.sub 4 three_nodes three (mk_entry 0 0 0 0)) as (r & s' & E & _).
  - exact three_tree.
  - done.
  - exact three_balanced.
  - repeat constructor; cbn; lia.
  - done.
  - apply (bool_decide_unpack (4 ∉ elems three)). by vm_compute.
  - done.
  - exists r, s'. split; [exact E|]. vm_compute in E. injection E as _ <-. by vm_compute.
Defined.

Lemma rb_remove_correct_witness : ∃ s', RB_REMOVE 2 three_nodes = Ok (2, s') ∧ rbh_root s' = 3.
Proof.
  destruct (rb_remove_correct three_nodes three 2) as (s' & E & _).
  - exact three_tree.
  - done.
  - exact three_balanced.
  - apply (bool_decide_unpack (2 ∈ elems three)). by vm_compute.
  - exists s'. split; [exact E|]. vm_compute in E. by injection E as <-.
Defined.

Lemma rb_walk_correct_witness : RB_FOREACH three_nodes = Ok ([1; 2; 3], three_nodes) ∧ RB_NEXT 1 three_nodes = Ok (2, three_nodes).
Proof.
  destruct (rb_walk_correct three_nodes three) as (H1 & H2 & _); [exact three_tree|done|exact three_balanced|]. split; [exact H1|]. by destruct (H2 [] 1 2 [3]).
Defined.

Lemma rb_find_logarithmic_witness : ∃ k r, runs (find_round Z.sub 3) k 2 three_nodes r three_nodes ∧ Z.of_nat k <= 4.
Proof.
  destruct (rb_find_logarithmic Z.sub 3 three_nodes three) as (k & r & Hr & _ & Hk); [exact three_tree|done|exact three_balanced|]. by exists k, r.
Defined.

(** Ranges of one page at the nodes. *)
Definition page_key (p : Z) : vmm_page_range_t := mk_range p (p * 4096) 4096.

Lemma vma_trees_refine_witness :
  ∃ r s', RB_INSERT (cmp_nodes page_key) 4 three_nodes = Ok (r, s') ∧ stores page_key s' (page_key <$> [1; 2; 3; 4]).
Proof.
  destruct (vma_trees_refine page_key three_nodes (page_key <$> [1; 2; 3])) as (H & _).
  - exists three. split_and!; [exact three_tree|done|exact three_balanced|done|done].
  - rewrite !fmap_cons. repeat (apply tree_ok_cons; split_and!; [by unfold range_ok; cbn; split_and!| |]).
    4: by split; [constructor|intros r ?%not_elem_of_nil].
    all: intros r Hr; unfold VmaInv.before; cbn in Hr |- *; repeat (apply elem_of_cons in Hr as [->|Hr]; [cbn; lia|]); by apply not_elem_of_nil in Hr.
  - done.
  - apply (H 4); [done|by eexists|done|]. intros r Hr. cbn in Hr. repeat (apply elem_of_cons in Hr as [->|Hr]; [done|]). by apply not_elem_of_nil in Hr.
Defined.
