(* ===== verification/AcpiTypes.v ===== *)
(** The packed structures of [acpi/acpi_tables.h] as types: their fields in order,
    with sizes and offsets computed as for packed C structures, the accessors of
    [Acpi] against them, and the search for a table in the root table. *)
From stdpp Require Import base tactics list gmap strings.
From Stdlib Require Import ZArith Lia.
From S2P Require Import Prelude Bits State Io Str Acpi.

(** Types without padding.  The bit-fields of [struct HPET] fill one byte. *)
Inductive ctype :=
  | U8 | U16 | U32 | U64
  | ARRAY (n : nat) (t : ctype)
  | BITFIELDS (widths : list (string * nat))
  | STRUCT (fields : list (string * ctype)).

Fixpoint sizeof (t : ctype) : Z :=
  match t with
  | U8 => 1 | U16 => 2 | U32 => 4 | U64 => 8
  | ARRAY n t => Z.of_nat n * sizeof t
  | BITFIELDS w => Z.of_nat (sum_list (snd <$> w)) / 8
  | STRUCT fs => (fix sum fs := match fs with [] => 0 | (_, t) :: fs' => sizeof t + sum fs' end) fs
  end.
Definition sizeof_fields (fs : list (string * ctype)) : Z := sizeof (STRUCT fs).

(** A member of a structure, and a member of a member: offset and type. *)
Fixpoint member (fs : list (string * ctype)) (name : string) : option (Z * ctype) :=
  match fs with
  | [] => None
  | (n, t) :: fs' => if bool_decide (n = name) then Some (0, t) else (λ '(o, t'), (sizeof t + o, t')) <$> member fs' name
  end.
Fixpoint offsetof (t : ctype) (path : list string) : option (Z * ctype) :=
  match path with
  | [] => Some (0, t)
  | n :: path' =>
      match t with
      | STRUCT fs => o ← member fs n; o' ← offsetof o.2 path'; Some (o.1 + o'.1, o'.2)
      | _ => None
      end
  end.

Definition struct_RSDP : ctype :=
  STRUCT [("signature", ARRAY 8 U8); ("checksum", U8); ("oemiID", ARRAY 6 U8); ("revision", U8); ("rsdtAddress", U32)].
Definition struct_XSDP : ctype :=
  STRUCT [("signature", ARRAY 8 U8); ("checksum", U8); ("oemiID", ARRAY 6 U8); ("revision", U8); ("rsdtAddress", U32);
          ("length", U32); ("xsdtAddress", U64); ("extendedChecksum", U8); ("reserved", ARRAY 3 U8)].
Definition struct_ACPISDTHeader : ctype :=
  STRUCT [("signature", ARRAY 4 U8); ("length", U32); ("revision", U8); ("Checksum", U8); ("oemID", ARRAY 6 U8);
          ("oemTableID", ARRAY 8 U8); ("oemRevision", U32); ("creatorID", U32); ("creatorRevision", U32)].
(** A flexible array has no size of its own. *)
Definition struct_RSDT : ctype := STRUCT [("header", struct_ACPISDTHeader); ("pointerSDTs", ARRAY 0 U32)].
Definition struct_XSDT : ctype := STRUCT [("header", struct_ACPISDTHeader); ("pointerSDTs", ARRAY 0 U64)].
Definition struct_ACPI_addr : ctype :=
  STRUCT [("address_space_id", U8); ("register_bit_width", U8); ("register_bit_offset", U8); ("reserved", U8); ("address", U64)].
Definition struct_FADT : ctype :=
  STRUCT [("h", struct_ACPISDTHeader); ("firmwareCtrl", U32); ("fsdt", U32); ("reserved", U8);
          ("preferredPowerManagementProfile", U8); ("sciInterrupt", U16); ("smiCommandPort", U32); ("acpiEnable", U8);
          ("acpiDisable", U8); ("s4viosRequest", U8); ("pstateControl", U8); ("pm1aEventBlock", U32); ("pm1bEventBlock", U32);
          ("pm1aControlBlock", U32); ("pm1bControlBlock", U32); ("pm2ControlBlock", U32); ("pmTimerBlock", U32);
          ("gpe0Block", U32); ("gpe1Block", U32); ("pm1EventLength", U8); ("pm1ControlLength", U8); ("pm2ControlLength", U8);
          ("pmTimerLength", U8); ("gpe0Length", U8); ("gpe1Length", U8); ("gpe1Base", U8); ("cStateControl", U8);
          ("worstC2Latency", U16); ("worstC3Latency", U16); ("flushSize", U16); ("flushStride", U16); ("dutyOffset", U8);
          ("dutyWidth", U8); ("dayAlarm", U8); ("monthAlarm", U8); ("century", U8); ("bootArchitectureFlags", U16);
          ("reserved2", U8); ("flags", U32); ("resetReg", struct_ACPI_addr); ("resetValue", U8); ("reserved3", ARRAY 3 U8);
          ("xFirmwareControl", U64); ("xDsdt", U64); ("xPM1aEventBlock", struct_ACPI_addr); ("xPM1bEventBlock", struct_ACPI_addr);
          ("xPM1aControlBlock", struct_ACPI_addr); ("xPM1bControlBlock", struct_ACPI_addr); ("xPM2ControlBlock", struct_ACPI_addr);
          ("xPMTimerBlock", struct_ACPI_addr); ("xGPE0Block", struct_ACPI_addr); ("xGPE1Block", struct_ACPI_addr)].
Definition struct_HPET : ctype :=
  STRUCT [("header", struct_ACPISDTHeader); ("hardware_rev_id", U8);
          ("", BITFIELDS [("comparator_count", 5%nat); ("counter_size", 1%nat); ("reserved", 1%nat); ("legacy_replacement", 1%nat)]);
          ("pci_vendor_id", U16); ("address", struct_ACPI_addr); ("hpet_number", U8); ("minimum_tick", U16); ("page_protection", U8)].
Definition struct_MADT : ctype := STRUCT [("header", struct_ACPISDTHeader); ("lapic_address", U32); ("flags", U32)].
Definition struct_MADTEntryHeader : ctype := STRUCT [("type", U8); ("length", U8)].
Definition struct_MADT_plapic : ctype := STRUCT [("type", U8); ("length", U8); ("cpu_id", U8); ("apic_id", U8); ("flags", U32)].
Definition struct_MADT_ioapic : ctype :=
  STRUCT [("type", U8); ("length", U8); ("ioapic_id", U8); ("reserved", U8); ("ioapic_address", U32); ("gsib", U32)].
Definition struct_MADT_isr_override : ctype :=
  STRUCT [("type", U8); ("length", U8); ("bus_source", U8); ("irq_source", U8); ("gsi", U32); ("flags", U16)].
Definition struct_MADT_ioapic_nmi : ctype :=
  STRUCT [("type", U8); ("length", U8); ("nmi_source", U8); ("reserved", U8); ("flags", U16); ("gsi", U32)].
Definition struct_MADT_lapic_nmi : ctype := STRUCT [("type", U8); ("length", U8); ("cpu_id", U8); ("flags", U16); ("lint", U8)].
Definition struct_MADT_lapic_addr_override : ctype := STRUCT [("type", U8); ("length", U8); ("reserved", U16); ("lapic_addr", U64)].
Definition struct_MADT_plx2apic : ctype :=
  STRUCT [("type", U8); ("length", U8); ("reserved", U16); ("x2apic_id", U32); ("flags", U32); ("acpi_id", U32)].

(** [p->path], for a member that is an integer. *)
Definition field (t : ctype) (path : list string) (p : Z) : M sys Z :=
  match offsetof t path with
  | Some (o, U8) => mem8 (p + o)
  | Some (o, U32) => mem32 (p + o)
  | Some (o, U64) => mem64 (p + o)
  | _ => panic "no such member"
  end.

(** * Members lie in their structure and apart from each other *)
Lemma sizeof_cons n t fs : sizeof_fields ((n, t) :: fs) = sizeof t + sizeof_fields fs.
Proof. done. Qed.

Lemma sizeof_nonneg t : 0 <= sizeof t.
Proof.
  revert t. fix IH 1. intros [| | | |n t|w|fs]; cbn; try lia.
  - specialize (IH t). lia.
  - apply Z.div_pos; lia.
  - induction fs as [|[n t] fs IHfs]; [done|]. specialize (IH t). lia.
Qed.

Lemma member_inside fs n o t : member fs n = Some (o, t) → 0 <= o ∧ o + sizeof t <= sizeof_fields fs.
Proof.
  revert o t. induction fs as [|[m u] fs IH]; intros o t; [done|]. cbn [member]. rewrite sizeof_cons. pose proof (sizeof_nonneg (STRUCT fs)) as Hfs. fold (sizeof_fields fs) in Hfs.
  case_bool_decide; [intros [= <- <-]; lia|]. intros ([o1 t1] & Hm & E)%fmap_Some. injection E as -> ->. destruct (IH o1 t1 Hm). pose proof (sizeof_nonneg u). lia.
Qed.

Lemma members_apart fs n1 o1 t1 n2 o2 t2 : member fs n1 = Some (o1, t1) → member fs n2 = Some (o2, t2) → n1 ≠ n2 →
  o1 + sizeof t1 <= o2 ∨ o2 + sizeof t2 <= o1.
Proof.
  revert o1 o2. induction fs as [|[m u] fs IH]; intros o1 o2; [done|]. cbn [member].
  assert (∀ n o t, (λ '(o, t'), (sizeof u + o, t')) <$> member fs n = Some (o, t) → ∃ o', o = sizeof u + o' ∧ member fs n = Some (o', t)) as Hinv.
  { intros n o t ([o' t'] & Hm & E)%fmap_Some. injection E as -> ->. by exists o'. }
  repeat case_bool_decide; subst; intros E1 E2 Hne; [done|..].
  - injection E1 as <- <-. apply Hinv in E2 as (o' & -> & Hm). apply member_inside in Hm. lia.
  - injection E2 as <- <-. apply Hinv in E1 as (o' & -> & Hm). apply member_inside in Hm. lia.
  - apply Hinv in E1 as (a & -> & H1), E2 as (b & -> & H2). destruct (IH _ _ H1 H2 Hne); lia.
Qed.

(** The types of the tables: every structure has the size the ACPI specification
    gives it, and every accessor of the parser reads a member of the structure it
    is named after, at the offset and with the width the declaration gives it;
    the members of any such structure lie inside it and do not overlap. *)
Theorem acpi_types :
  map sizeof [struct_RSDP; struct_XSDP; struct_ACPISDTHeader; struct_ACPI_addr; struct_FADT; struct_HPET; struct_MADT;
    struct_MADTEntryHeader; struct_MADT_plapic; struct_MADT_ioapic; struct_MADT_isr_override; struct_MADT_ioapic_nmi;
    struct_MADT_lapic_nmi; struct_MADT_lapic_addr_override; struct_MADT_plx2apic] = [20; 36; 36; 12; 244; 56; 44; 2; 8; 12; 10; 10; 6; 12; 16] ∧
  sizeof struct_RSDP = RSDP.size ∧ sizeof struct_XSDP = XSDP.size ∧ sizeof struct_ACPISDTHeader = ACPISDTHeader.size ∧
  sizeof struct_MADT = MADT.size ∧ sizeof struct_MADTEntryHeader = MADT.header_size ∧
  RSDP.checksum = field struct_RSDP ["checksum"] ∧ RSDP.revision = field struct_RSDP ["revision"] ∧
  RSDP.rsdtAddress = field struct_RSDP ["rsdtAddress"] ∧ XSDP.length = field struct_XSDP ["length"] ∧
  XSDP.xsdtAddress = field struct_XSDP ["xsdtAddress"] ∧ ACPISDTHeader.length = field struct_ACPISDTHeader ["length"] ∧
  FADT.pmTimerBlock = field struct_FADT ["pmTimerBlock"] ∧ FADT.pmTimerLength = field struct_FADT ["pmTimerLength"] ∧
  FADT.xPMTimerBlock_address_space_id = field struct_FADT ["xPMTimerBlock"; "address_space_id"] ∧
  FADT.xPMTimerBlock_address = field struct_FADT ["xPMTimerBlock"; "address"] ∧
  HPET.address_address = field struct_HPET ["address"; "address"] ∧
  (∀ p, MADT.type p = field struct_MADTEntryHeader ["type"] p) ∧ MADT.length = field struct_MADTEntryHeader ["length"] ∧
  MADT.ioapic_address = field struct_MADT_ioapic ["ioapic_address"] ∧ MADT.gsib = field struct_MADT_ioapic ["gsib"] ∧
  MADT.irq_source = field struct_MADT_isr_override ["irq_source"] ∧ MADT.gsi = field struct_MADT_isr_override ["gsi"] ∧
  (∀ fs n o t, member fs n = Some (o, t) → 0 <= o ∧ o + sizeof t <= sizeof (STRUCT fs)) ∧
  (∀ fs n1 o1 t1 n2 o2 t2, member fs n1 = Some (o1, t1) → member fs n2 = Some (o2, t2) → n1 ≠ n2 → o1 + sizeof t1 <= o2 ∨ o2 + sizeof t2 <= o1).
Proof.
  split_and!; try done; [|exact member_inside|exact members_apart]. intros p. change (field struct_MADTEntryHeader ["type"] p) with (mem8 (p + 0)). by rewrite Z.add_0_r.
Qed.

(** * The search for a table *)

(** The value of a member at the address of its structure. *)
Definition get (s : sys) (t : ctype) (path : list string) (p : Z) : Z :=
  match field t path p s with Ok (v, _) => v | _ => 0 end.

(** The pointers of the root table: 32-bit ones behind the header of the RSDT up
    to revision 1, 64-bit ones behind that of the XSDT from revision 2 on. *)
Definition root_pointers (s : sys) (rsdp : Z) : list Z :=
  let m := k_mem (s_k s) in
  if get s struct_RSDP ["revision"] rsdp <? 2 then
    let rsdt := u64 (get s struct_RSDP ["rsdtAddress"] rsdp + k_hhdm (s_k s)) in
    (λ i, read32 m (hhdm_phys (s_k s) (rsdt + sizeof struct_RSDT + 4 * i))) <$>
      seqZ 0 ((get s struct_RSDT ["header"; "length"] rsdt - sizeof struct_ACPISDTHeader) / 4)
  else
    let xsdt := u64 (get s struct_XSDP ["xsdtAddress"] rsdp + k_hhdm (s_k s)) in
    (λ i, read64 m (hhdm_phys (s_k s) (xsdt + sizeof struct_XSDT + 8 * i))) <$>
      seqZ 0 ((get s struct_XSDT ["header"; "length"] xsdt - sizeof struct_ACPISDTHeader) / 8).

(** The table at physical address [p] carries the signature. *)
Definition carries (s : sys) (signature : string) (p : Z) : Prop :=
  ∀ i, 0 <= i < 4 → read8 (k_mem (s_k s)) (p + i) = lit signature i.

(** [r] is the first table of [ps] with the signature, in the direct map, or 0. *)
Definition first_table (s : sys) (signature : string) (ps : list Z) (r : Z) : Prop :=
  (∃ i p, ps !! i = Some p ∧ carries s signature p ∧ r = u64 (p + k_hhdm (s_k s)) ∧
     ∀ j q, (j < i)%nat → ps !! j = Some q → ¬ carries s signature q) ∨
  (r = 0 ∧ ∀ p, p ∈ ps → ¬ carries s signature p).

Lemma strncmp_whole {S} (s1 s2 : cstring) n (s : S) :
  0 <= n < 2 ^ 64 → (∀ i, 0 <= i < n → s2 i ≠ 0) →
  wp (strncmp s1 s2 n) s (λ c s', s' = s ∧ (c = 0 ↔ ∀ i, 0 <= i < n → s1 i = s2 i)).
Proof.
  intros Hn H2. unfold strncmp. apply wp_bind.
  eapply wp_mono; [apply (wp_while _ (λ m i s', s' = s ∧ m = n - i ∧ 0 <= i <= n ∧ ∀ j, 0 <= j < i → s1 j = s2 j)
    (λ i s', s' = s ∧ 0 <= i <= n ∧ (∀ j, 0 <= j < i → s1 j = s2 j) ∧ (i < n → s1 i ≠ s2 i))) with (n := n)|].
  - intros m i s' Hm (-> & -> & Hi & Hj).
    destruct (Z.ltb_spec i n), (Z.eqb_spec (s1 i) 0) as [E0|E0], (Z.eqb_spec (s1 i) (s2 i)) as [E|E]; cbn [andb negb]; apply wp_ret;
      try (split_and!; try (done || lia)); try (by exfalso; apply (H2 i); [lia|congruence]).
    exists (n - (i + 1)). split_and!; try (done || lia). intros j Hlt. destruct (decide (j = i)) as [->|]; [done|apply Hj; lia].
  - lia.
  - split_and!; try (done || lia).
  - intros i s' (-> & Hi & Hj & Hne). apply wp_ret. split; [done|]. destruct (Z.eqb_spec i n) as [->|]; [tauto|].
    split; [|intros Hall; exfalso; apply Hne; [lia|apply Hall; lia]]. intros E. exfalso. apply Hne; lia.
Qed.

Section search.
Context (s : sys) (signature : string) (P : Z → Z) (n : Z) (pointer : Z → M sys Z).
Context (Hsig : ∀ i, 0 <= i < 4 → lit signature i ≠ 0) (Hp : ∀ i, pointer i s = Ok (P i, s)).
Context (HP : ∀ i, is_u64 (P i)) (Hn : n < 2 ^ 64).
Set Default Proof Using "All".

Lemma pointer_at i : 0 <= i < n → (P <$> seqZ 0 n) !! Z.to_nat i = Some (P i).
Proof. intros Hi. rewrite list_lookup_fmap, lookup_seqZ_lt by lia. cbn. do 2 f_equal. lia. Qed.

Lemma search_ok : wp (while_ (find_round pointer signature n) 0) s (λ r s', s' = s ∧
  first_table s signature (P <$> seqZ 0 n) r).
Proof.
  apply (wp_while _ (λ m i s', s' = s ∧ m = Z.max 0 (n - i) ∧ 0 <= i ∧ ∀ j, 0 <= j < i → ¬ carries s signature (P j))) with (n := Z.max 0 n).
  2: lia. 2: split_and!; (done || lia).
  intros m i s' Hm (-> & -> & Hi & Hj). unfold find_round. destruct (Z.ltb_spec i n) as [Hlt|Hge].
  - apply wp_bind. eapply wp_ok; [apply Hp|]. apply wp_bind. eapply wp_ok; [reflexivity|].
    apply wp_bind. eapply wp_ok; [reflexivity|]. apply wp_bind.
    eapply wp_mono; [apply (strncmp_whole _ _ 4 s); [lia|exact Hsig]|]. intros c s' [-> Hc]. apply wp_ret.
    rewrite hhdm_phys_u64_add in Hc by apply HP. change (c = 0 ↔ carries s signature (P i)) in Hc.
    destruct (Z.eqb_spec c 0) as [E|E].
    + split; [done|]. left. exists (Z.to_nat i), (P i). split; [by apply pointer_at|]. split; [by apply Hc|]. split; [done|].
      intros j q Hji Hq. apply list_lookup_fmap_Some in Hq as (x & -> & Hx). apply lookup_seqZ in Hx as [-> _]. apply Hj. lia.
    + exists (Z.max 0 (n - (i + 1))). split; [lia|]. split_and!; try (done || lia). intros j Hji.
      destruct (decide (j = i)) as [->|]; [by rewrite <- Hc|apply Hj; lia].
  - apply wp_ret. split; [done|]. right. split; [done|]. intros p (x & -> & Hx)%list_elem_of_fmap.
    apply elem_of_seqZ in Hx. apply Hj. lia.
Qed.
End search.

Lemma read32_is_u64 m a : is_u64 (read32 m a).
Proof. unfold is_u64, read32. pose proof (le_read_range 4 m a) as Hr. change (2 ^ (8 * Z.of_nat 4)) with (2 ^ 32) in Hr. lia. Qed.

(** The number of pointers; a length below the header's gives a negative one. *)
Lemma entries_count len w : 0 <= len < 2 ^ 32 → w = 4 ∨ w = 8 →
  seqZ 0 (i32 (u64 (len - 36) / w)) = seqZ 0 ((len - 36) / w) ∧ i32 (u64 (len - 36) / w) < 2 ^ 64.
Proof.
  intros Hl Hw. assert (i32 (u64 (len - 36) / w) = (len - 36) / w) as ->.
  { unfold i32, signed, u64. destruct (Z.le_gt_cases 36 len).
    - rewrite (Z.mod_small (len - 36)) by lia. rewrite Z.mod_small; [lia|]. destruct Hw as [-> | ->]; Z.div_mod_to_equations; lia.
    - rewrite <- (Z_mod_plus_full (len - 36) 1 (2 ^ 64)), (Z.mod_small (len - 36 + 1 * 2 ^ 64)) by lia.
      destruct Hw as [-> | ->].
      + replace (len - 36 + 1 * 2 ^ 64) with (len - 36 + 2 ^ 62 * 4) by lia. rewrite Z.div_add by lia.
        replace ((len - 36) / 4 + 2 ^ 62 + 2 ^ (32 - 1)) with ((len - 36) / 4 + 2 ^ 31 + 2 ^ 30 * 2 ^ 32) by lia.
        rewrite Z_mod_plus_full, Z.mod_small; [lia|]. Z.div_mod_to_equations; lia.
      + replace (len - 36 + 1 * 2 ^ 64) with (len - 36 + 2 ^ 61 * 8) by lia. rewrite Z.div_add by lia.
        replace ((len - 36) / 8 + 2 ^ 61 + 2 ^ (32 - 1)) with ((len - 36) / 8 + 2 ^ 31 + 2 ^ 29 * 2 ^ 32) by lia.
        rewrite Z_mod_plus_full, Z.mod_small; [lia|]. Z.div_mod_to_equations; lia. }
  split; [done|]. destruct Hw as [-> | ->]; Z.div_mod_to_equations; lia.
Qed.

(** (C33) The search for an ACPI table: whatever is in memory, it ends without a
    change and returns the first table of the root table that carries the
    signature, in the direct map, or the null pointer when there is none.  The
    root table is the RSDT with 32-bit pointers up to revision 1 and the XSDT with
    64-bit pointers from revision 2 on; its pointers are those that its length
    makes room for, none if the length is less than the header's. *)
Theorem acpi_find_sdt_correct rsdp signature s :
  (∀ i, 0 <= i < 4 → lit signature i ≠ 0) →
  ∃ r, acpi_find_sdt rsdp signature s = Ok (r, s) ∧ first_table s signature (root_pointers s rsdp) r.
Proof.
  intros Hsig.
  assert (wp (acpi_find_sdt rsdp signature) s (λ r s', s' = s ∧ first_table s signature (root_pointers s rsdp) r))
    as (r & s' & E & -> & H)%wp_inv; [|by exists r].
  unfold acpi_find_sdt, root_pointers. apply wp_bind. eapply wp_ok; [reflexivity|].
  change (get s struct_RSDP ["revision"] rsdp) with (read8 (k_mem (s_k s)) (hhdm_phys (s_k s) (rsdp + 15))).
  destruct (_ <? 2).
  - unfold acpi_find_sdt_rsdt. do 3 (apply wp_bind; eapply wp_ok; [reflexivity|]).
    change (get s struct_RSDP ["rsdtAddress"] rsdp) with (read32 (k_mem (s_k s)) (hhdm_phys (s_k s) (rsdp + 16))).
    set (rsdt := u64 _). change (get s struct_RSDT ["header"; "length"] rsdt) with (read32 (k_mem (s_k s)) (hhdm_phys (s_k s) (rsdt + 4))).
    destruct (entries_count (read32 (k_mem (s_k s)) (hhdm_phys (s_k s) (rsdt + 4))) 4) as [En Hlt]; [apply le_read_range|by left|].
    change (sizeof struct_ACPISDTHeader) with 36. rewrite <- En.
    apply search_ok; [done|done|intros i; apply read32_is_u64|done].
  - unfold acpi_find_sdt_xsdt. do 3 (apply wp_bind; eapply wp_ok; [reflexivity|]).
    change (get s struct_XSDP ["xsdtAddress"] rsdp) with (read64 (k_mem (s_k s)) (hhdm_phys (s_k s) (rsdp + 24))).
    set (xsdt := u64 _). change (get s struct_XSDT ["header"; "length"] xsdt) with (read32 (k_mem (s_k s)) (hhdm_phys (s_k s) (xsdt + 4))).
    destruct (entries_count (read32 (k_mem (s_k s)) (hhdm_phys (s_k s) (xsdt + 4))) 8) as [En Hlt]; [apply le_read_range|by right|].
    change (sizeof struct_ACPISDTHeader) with 36. rewrite <- En.
    apply search_ok; [done|done|intros i; apply read64_is_u64|done].
Qed.

(** An RSDT with two tables, the second of them the FADT. *)
Module Tables.
Definition write_list (m : mem_t) (a : Z) (l : list Z) : mem_t := foldr (λ '(i, b) m, write8 m (a + i) b) m (imap (λ i b, (Z.of_nat i, b)) l).
Definition m : mem_t :=
  write_list (write_list (write32 (write32 (write32 (write32 (k_mem (kernel0 0)) 0x1010 0x2000) 0x2004 44) 0x2024 0x3000) 0x2028 0x4000)
    0x3000 (bytes "APIC")) 0x4000 (bytes "FACP").
Definition machine : sys := sys0 (set_mem (kernel0 0xffff800000000000) m).
End Tables.

Lemma acpi_find_sdt_correct_witness :
  ∃ r, acpi_find_sdt 0xffff800000001000 "FACP" Tables.machine = Ok (r, Tables.machine) ∧
    first_table Tables.machine "FACP" (root_pointers Tables.machine 0xffff800000001000) r ∧
    root_pointers Tables.machine 0xffff800000001000 = [0x3000; 0x4000] ∧ carries Tables.machine "FACP" 0x4000.
Proof.
  destruct (acpi_find_sdt_correct 0xffff800000001000 "FACP" Tables.machine) as (r & E & H).
  - intros i Hi. assert (i = 0 ∨ i = 1 ∨ i = 2 ∨ i = 3) as [->|[->|[->| ->]]] by lia; discriminate.
  - exists r. split; [exact E|]. split; [exact H|]. split; [vm_compute; reflexivity|].
    intros i Hi. assert (i = 0 ∨ i = 1 ∨ i = 2 ∨ i = 3) as [->|[->|[->| ->]]] by lia; vm_compute; reflexivity.
Defined.
